(* ===== verification/_CoqProject ===== *)
-Q . S2P
Prelude.v
SchedulerSM.v
DebugLog.v
Engine.v
EngineInv.v
EngineOuter.v
EngineSave.v
EngineStart.v
EngineStep.v
EngineConfig.v
TaskManagers.v
EngineTheorems.v
Cmpbin.v
Float.v
AuthDB.v
IdentitySet.v
Base64.v
Delegation.v
Varint.v
RecordIO.v
BitField.v
Base128.v
ChunkStream.v
LRU.v
DM.v
DMInvariants.v
DMSystem.v
DMDrain.v
DMSim.v
DMTheorems.v
StreamName.v
LogEntry.v
TimedBuffer.v
Parsers.v
ParserSpec.v
LogStream.v
LogStreamSpec.v
GoHeap.v
LogBundler.v
BundlerSystem.v
BundlerInv.v
BundlerTheorems.v
Renderer.v
RendererTheorems.v
Tumble.v
TumbleJournal.v
TumbleViews.v
TumbleSystem.v
TumbleSim.v
TumbleProcess.v
TumbleProgress.v
TumbleExec.v
TumbleDM.v
TumbleTheorems.v
TumbleDMTheorems.v
LogStorage.v
LogBigTable.v
LogBigTableFacts.v
LogCoord.v
LogCoordSystem.v
LogCoordTheorems.v
LogArchive.v
LogArchiveFacts.v
LogArchivist.v
LogArchivistFacts.v
LogArchivistTheorems.v
LogCollector.v
LogCollectorFacts.v
LogCollectorTheorems.v
ButlerProto.v
Pipeline.v
