(* ===== verification/Prelude.v ===== *)
(** luci-go: verification of the core logic of the LUCI services.

    luci-go (src/) is the Go code of the services of Chromium's build
    infrastructure and of the libraries they share: a scheduler of periodic
    jobs, an authorisation layer with a token server, a log pipeline (LogDog), a
    dependency manager, a package manager and their clients.  This development
    models the parts whose logic is the programs' own.  What talks to App
    Engine, HTTP, a disk or a cloud service is left out, or enters as a
    parameter of the definitions that use it.

    * The files and the code they model

    - Prelude: outcomes of Go calls, machine integers, byte strings with
      [memcmp], tactics and the hint database [luci].
    - SchedulerSM: scheduler/appengine/engine/statemachine.go on top of
      schedule/schedule.go, with [rollSM] of engine.go.  [StateMachine] is the
      record the code keeps; [JobState] its persisted part; each [On...] method
      is a definition of the same name; [step] is one event applied by
      [rollSM], and a [World] keeps the timer tasks, start requests and
      invocations that are outstanding.
    - DebugLog, Engine: scheduler/appengine/engine/engine.go, with the parsing of
      schedules (schedule/schedule.go) and the interfaces of task/task.go and
      catalog/catalog.go.  [Service] is the datastore (jobs, invocations), the
      task queues and the requests under way; [txn] is a transaction; each
      method of engineImpl is a definition of its name.  A task manager is a
      program ([Prog]) over the controller it is given, and runs one step at a time
      in a [Session], so that other requests come in between.  [perform] is one
      request, with the failures its [Env] says.  DebugLog is trimDebugLog.
    - EngineInv: what managers promise ([CatalogOk]), the invariant ([core],
      [cover]) and the steps of the service.  EngineOuter, EngineSave,
      EngineStart: the transactions on jobs alone, saveImpl, startInvocation.
      EngineStep: every request keeps the invariant.  EngineConfig:
      UpdateProjectJobs.  TaskManagers: task/noop, urlfetch, swarming and
      buildbucket, an instance of [CatalogOk].  EngineTheorems: the properties of the
      engine, executable runs and the witnesses.
    - Cmpbin, Float: common/data/cmpbin (number.go, string.go and float.go).
    - AuthDB: server/auth/identity (identities and globs) and the queries of
      server/auth/authdb/snapshot.go: groups, IP whitelists, OAuth clients.
    - IdentitySet: tokenserver/appengine/impl/utils/identityset.  Its class
      [GroupsDB] is what a groups database promises; the snapshot of AuthDB is
      an instance, and the theorems on sets and tokens are about any instance.
    - Base64, Delegation: the rules of
      tokenserver/appengine/impl/delegation, the minting of a token, and its
      check by a service in server/auth/delegation/checker.go, with the
      certificates of server/auth/signing/certs.go.
    - Varint, RecordIO, BitField, Base128: encoding/binary's varints and
      common/data/recordio, bit_field and base128.
    - ChunkStream: common/data/chunkstream, a store of linked nodes shared by
      a buffer and its views.
    - LRU: common/data/caching/lru, a map of elements and a linked list.
    - DM: the dependency manager.  The mutations of dm/appengine/mutate, the
      attempts and executions of dm/appengine/model with their state tables
      (dm/api/service/v1), and ensureGraphData of dm/appengine/deps.  [Store]
      is the datastore, a map of entities per kind; [txn] is a transaction on
      it, with its errors and panics; each [..._RollForward] is the method of
      that mutation.  A [World] adds the journal of tumble: mutations to be
      run, and those ever journaled, which may run again.  [step] is one
      transaction: a mutation, a timeout, a report of a distributor, or a call
      of an execution or a client.
    - DMInvariants, DMSystem: the invariant [inv] of stores and journals, kept
      by every transaction; [exact], what DepMaps say when AddFinishedDeps is
      not used; [evolves], how entities change over time.
    - DMDrain: a measure that bounds the work in the journal.  DMSim: an
      executable run of the system from a list of events.  DMTheorems: the
      properties of the dependency manager, with example runs.
    - StreamName: logdog/common/types/streamname.go.
    - LogEntry, TimedBuffer: logpb's entries and their durations; the class
      [ChunkBuffer], what a parser needs of its buffer, with chunk streams
      (ChunkStream, bundler/data.go) and plain lists of stamped bytes as
      instances.
    - Parsers, ParserSpec: textParser, binaryParser and datagramParser of
      logdog/client/butler/bundler, over any [ChunkBuffer]; what the entries
      cut so far say of the bytes they came from ([parser_log]).
    - LogStream, LogStreamSpec: builder.go, sizer.go and stream.go; the size of a
      message is the parameter [ProtoSize].  A producer in [Append] is at
      one of three places ([appender]).
    - GoHeap, LogBundler: container/heap and bundler.go; [makeBundles_turn] is what
      makeBundles does between two waits.
    - BundlerSystem, BundlerInv, BundlerTheorems: producers, extraction, cutting
      and registration interleaved ([sys_step]), the invariant [sys_inv] and
      the properties.
    - Renderer, RendererTheorems: logdog/common/renderer with the sources of
      common/archive/data.go, and [io.Copy] over it.
    - Tumble: the arithmetic of tumble: shards and their queries, time slots,
      names of mutations and of tasks, delays between rounds, and the cron job
      that fires tasks.
    - TumbleJournal: tumble/model_mutation.go, tumble.go and process.go.  The
      classes [DSKeys] and [TumbleApp] are the keys of the datastore and the
      application: its entities and its mutations.  A [Datastore] has both and
      the versions of entity groups; [enterTransactionInternal] journals what a
      transaction returns, [processRoot] runs a batch.
    - TumbleViews, TumbleSystem, TumbleSim: workers at any stage of [processRoot],
      the application and failures interleaved ([sys_step]); the journal
      machine ([jstep]), in which a mutation is pending or not; and that the first
      implements the second.
    - TumbleProcess, TumbleProgress, TumbleExec: the loop of a shard; what one
      [processRoot] makes of its batch; executable runs of the system.
    - TumbleDM: the mutations of DM as an application of tumble.
    - TumbleTheorems, TumbleDMTheorems: the properties of tumble and of DM on
      tumble, with runs of a small application and of the start of an attempt.
    - LogStorage: the interface of logdog/common/storage as a class [LogStore],
      what it promises ([LogStoreLaws], [LogStoreComplete]), and common/storage/memory.
      LogBigTable: common/storage/bigtable, with a table of rows for the client.
      LogBigTableFacts: its row keys are read back and sort as the entries do, and
      puts and gets on a table whose rows do not overlap.  It is no instance of
      [LogStoreLaws], as rows that other clients wrote may overlap.
    - LogCoord: logdog/appengine/coordinator: the entities of prefixes, streams and
      their states, the calls that register, terminate, archive and load them, and
      the mutation that makes archive tasks.  [CStore] is the datastore; a call is
      its checks and its transaction.  LogCoordSystem: the coordinator as an
      application of tumble, and its invariant.  LogCoordTheorems: its properties.
    - LogArchive, LogArchiveFacts: logdog/common/archive.  LogArchivist,
      LogArchivistFacts: logdog/server/archivist, over any [LogStore].
      LogArchivistTheorems: the properties of archives and of archive tasks.
    - LogCollector: logdog/server/collector: the checks of a bundle, the client of
      the coordinator with its cache of promises, and a system of threads over any
      [LogStore] and the coordinator; [act] is one step of it.  LogCollectorFacts:
      its invariant.  LogCollectorTheorems: its properties, with runs.
    - ButlerProto: logdog/client/butlerproto, the messages between the Butler and
      the collector.
    - Pipeline: the parts of LogDog after one another, from the bundler to the archive.

    * How the parts meet

    The engine applies the transitions of SchedulerSM inside its transactions, and its
    invariant uses the theorems on them.  It is proved against the class
    [CatalogOk], which the managers of TaskManagers implement.
    Delegation is proved against the class [GroupsDB] of IdentitySet, which
    AuthDB implements; the tokens are read back through Base64.  RecordIO and
    BitField share Varint.  An attempt of DM keeps its dependencies in a
    BitField, and DM's proofs use the theorems of that file.  The log pipeline is
    one chain: the parsers are proved against [ChunkBuffer], which ChunkStream
    implements; the stream uses what ParserSpec says of any parser; the system is
    what [makeBundles] refines; and the archive renders the entries the bundles
    carry.  Names of streams are those of StreamName.  Tumble is proved for any
    [TumbleApp]; DM is one of them, and what tumble's workers do to its entities
    are steps of the system of DM, so that the theorems on DM's worlds are about
    tumble's datastore.  The coordinator of LogDog is another one.  Its archive
    tasks are those the archivist takes, which reads a [LogStore], renders with
    Renderer, frames with RecordIO and reports to the coordinator.  The collector
    fills a [LogStore] and calls the coordinator through an LRU cache.  Pipeline
    joins a run of the bundler with a run of the collectors that get its bundles:
    its theorem follows from those of the parts.  The other parts
    are libraries the services call.

    * What the theorems show

    - State machines.  Every job state the scheduler can reach is well formed,
      a job that waits has the task that will wake it, stale events change
      nothing, and the panics of the code are the ones stated.
    - The scheduler engine.  Whatever the order of requests, failures of the
      datastore, crashed handlers and repeated deliveries, no request panics, jobs and
      invocations agree, ticks and start requests are not forgotten, finished
      invocations stay finished and start requests end.  A cron expression may have no
      next instant, which is the zero time: a job may then have no tick
      ([never_again]), and the module Barren shows how.  An overrun that is recorded
      over an invocation ends a run in these theorems ([overwrites]); an example
      shows one.  Which answers of a handler keep a task in its queue, and what
      becomes of it, is stated for every request, and runs are given in which an
      error loses a timer or leaves a job queued for good.
    - Authorisation.  Group membership is the least relation the groups
      define, also when groups are cyclic; globs, whitelists and identity sets
      mean what their documentation says; a token is minted exactly under one
      rule, and a service accepts it exactly for its audience, its services
      and its lifetime.
    - The dependency manager.  Whatever the order of transactions, and however
      often the journal repeats one, entities stay consistent and no wakeup is
      lost: with an empty journal an attempt waits only for one that is
      unfinished and knows it.  The journal drains within a computed bound.
      States move along their tables, and a stopped execution can not call
      again.  Without AddFinishedDeps a wakeup is never early and no
      acknowledgement panics; with it both happen, in the runs given.
    - Tumble.  Whatever workers do at the same time and whatever fails, the
      entities are those of a journal in which a mutation is pending until it has
      run; a batch leaves the journal when its runs do not fail and make ever less
      work of their own root; a journaled mutation has a task whose query finds it, or
      one with the same name stands for it, perhaps of another namespace; the loop of
      a shard ends.  The dependency manager on tumble has the invariant of its own
      system.  A run is given in which a named mutation is lost.
    - The log pipeline.  What is appended to a stream comes out of the bundles,
      in order and complete, whatever the timing and the sizes; entries are
      numbered without gaps and a terminal index is final; extraction ends, and
      its panics are the two stated; a producer that waits on a text or binary
      stream has a signal or finds no room, and every pass that takes something
      signals it.  Runs are given where the code falls short: a round that
      never ends, a stream that never drains, a wakeup that is lost, a producer that
      waits for ever behind the start of a character, a copy that is cut.
    - The log services.  A registered stream always has what will archive it; its
      state only moves forward and an archived stream stays as it is.  An archive
      holds what its source gives, in order, with an index that is dense and whose
      offsets can be read from.  A task that finds a stream without gaps archives
      its entries up to the terminal index, less those that are out of order; whatever fails, nothing changes and a task that is needed stays.
      A put to BigTable stores a prefix of its records and nothing else, and a get
      gives what is stored.
      What collectors store was sent with the secret of its stream, and what they
      finish is kept and its end is known, unless storage said that a record exists.
      From end to end, the archive of a text or binary stream that the Butler finished
      and collectors stored without an error, under a secret that nobody else uses, is
      what the program wrote, byte for byte.  What comes of a message between them is
      stated exactly, the limits included.
      Runs are given in which a stream that misses its end is archived as complete,
      and in which an archival that failed for good is never recorded.
    - Encodings.  Decoders invert encoders on every value, and the sortable
      encodings order byte strings as their values.
    - Containers.  Chunk streams, the LRU cache and bit fields refine a byte
      queue, a recency list and a map from indices to booleans.

    * Conventions

    An integer is a [Z]; [u8], [u32], [u64], [i64] wrap where the code can
    overflow.  A float64 is its bit pattern.  A Go string is a list of bytes ([bytes]) where its bytes matter
    and a [string] where it is only compared or cut at ASCII characters.  A
    function that returns an error is a [result], one that may panic an
    [outcome].  Errors keep the distinction their callers make.

    Recursion that the code bounds otherwise runs on fuel.  The fuel is the
    length of the data consumed (ChunkStream, Base64, StreamName, RecordIO), the
    number of groups not yet visited (AuthDB), or the width of the integer
    (Cmpbin, Varint), the bytes buffered (Parsers, LogStream) or the entries and
    their size (Renderer), or the entries of a source (LogArchive); in each case a lemma shows that the result does not
    depend on it or that it does not run out.  The exception is the first pass
    of bundleRoundLocked, which need not end: its fuel is an argument, and running out
    of it is a case of its result.  So it is for the loop of a transaction of tumble,
    where a mutation may go on making mutations of its own root; there, enough fuel is
    shown to exist when a rank of the mutations goes down.

    * What is not modelled

    Of the scheduler engine, the set-up of PubSub topics, the queries of its UI, the JSON
    of task payloads and the gitiles poller are left out.  A transaction is
    modelled as its last attempt, counters of mutations do not overflow, nonces are
    drawn positive and fresh, and a run ends where recordOverrun stores its invocation
    under an ID that is taken ([overwrites]), which the code does not prevent.

    Of the bundler, the pools of buffers and the wire format are left out; that a
    message has a size is all that is used.  A stream has one producer.

    Of tumble, the settings page, the HTTP handlers, the lock in memcache and
    the execution of tasks are left out.  A transaction is modelled as its last
    attempt, a datastore query answers names that are or were in the journal, and the
    version of an entity group grows with every transaction on it.  Reading
    sees what a transaction has written, as the transaction buffer does; an error
    in putting a named mutation fails its transaction.

    Of LogDog's services, the reading of logs, the tree of path components and the
    metrics are left out, and so is the retrying of calls: a call that is tried again
    is a call of someone else.  A critical section of the collector's cache is one
    step, as it waits for nothing; that its threads ever end is not stated.  Google Storage and Pub/Sub
    answer as the environment of a task or call says; a transaction is modelled as
    its last attempt; what a call checks before its transaction it may have read
    from an older store.

    Goroutines and locks: the modelled operations are atomic, as the locks or
    the transactions of the code make them.  Cryptography, protocol buffer
    encoding, x509, regular expressions beyond the ones that globs compile to,
    cron expressions and random numbers are parameters, with the hypotheses the
    code relies on stated where they are used.  The services' HTTP handlers,
    datastore models without logic, command lines, generated code and web
    pages are left out.  Of DM, the graph walk is a hypothesis (it reports the
    attempts of some earlier store), so is the answer of the query for back
    dependencies; rendering of templates and the distributors are not modelled. *)
From Stdlib Require Export Ascii String.
From stdpp Require Export base numbers list list_numbers option strings gmap sets sorting.
From Stdlib Require Export ZArith Lia.

(** * Outcomes of Go calls

    [result E A] is the pair "(value, error)" a Go function returns; exactly
    one of the two is meaningful.  [outcome A] is a call that may panic. *)
Inductive result (E A : Type) : Type :=
| Ok (a : A)
| Err (e : E).
Arguments Ok {E A} a.
Arguments Err {E A} e.

Inductive outcome (A : Type) : Type :=
| Ret (a : A)
| Panic.
Arguments Ret {A} a.
Arguments Panic {A}.

#[export] Instance result_ret {E} : MRet (result E) := fun _ a => Ok a.
#[export] Instance result_bind {E} : MBind (result E) := fun _ _ f m =>
  match m with Ok a => f a | Err e => Err e end.
#[export] Instance result_fmap {E} : FMap (result E) := fun _ _ f m =>
  match m with Ok a => Ok (f a) | Err e => Err e end.
#[export] Instance outcome_ret : MRet outcome := fun _ a => Ret a.
#[export] Instance outcome_bind : MBind outcome := fun _ _ f m =>
  match m with Ret a => f a | Panic => Panic end.

#[export] Instance result_eq_dec {E A} `{!EqDecision E, !EqDecision A} : EqDecision (result E A).
Proof. solve_decision. Defined.
#[export] Instance outcome_eq_dec {A} `{!EqDecision A} : EqDecision (outcome A).
Proof. solve_decision. Defined.

Definition is_ok {E A} (r : result E A) : bool :=
  match r with Ok _ => true | Err _ => false end.

(** * Shared tactics and hints *)
Create HintDb luci.

(** Case analysis on every [match]/[if] of the goal, closing what
    congruence and arithmetic close. *)
Ltac split_matches :=
  repeat (case_match; simplify_eq/=); try done; try lia.

(** Turn boolean comparisons in the context into propositions. *)
Ltac bool_to_prop :=
  repeat match goal with
  | H : _ && _ = true |- _ => apply andb_true_iff in H as [? ?]
  | H : _ || _ = false |- _ => apply orb_false_iff in H as [? ?]
  | H : negb _ = true |- _ => apply negb_true_iff in H
  | H : negb _ = false |- _ => apply negb_false_iff in H
  | H : bool_decide _ = true |- _ => apply bool_decide_eq_true in H
  | H : bool_decide _ = false |- _ => apply bool_decide_eq_false in H
  | H : (_ =? _)%Z = true |- _ => apply Z.eqb_eq in H
  | H : (_ =? _)%Z = false |- _ => apply Z.eqb_neq in H
  | H : (_ <? _)%Z = true |- _ => apply Z.ltb_lt in H
  | H : (_ <? _)%Z = false |- _ => apply Z.ltb_ge in H
  | H : (_ <=? _)%Z = true |- _ => apply Z.leb_le in H
  | H : (_ <=? _)%Z = false |- _ => apply Z.leb_gt in H
  end.

(** Equality of terms that differ in linear arithmetic only. *)
Ltac feq := repeat first [reflexivity | lia | progress f_equal].

(** * Machine integers *)
Local Open Scope Z_scope.

Definition u8 (z : Z) : Z := z mod 2 ^ 8.
Definition u32 (z : Z) : Z := z mod 2 ^ 32.
Definition u64 (z : Z) : Z := z mod 2 ^ 64.
(** Two's complement reading of a 64-bit word. *)
Definition i64 (z : Z) : Z := (z + 2 ^ 63) mod 2 ^ 64 - 2 ^ 63.

Definition i32 (z : Z) : Z := (z + 2 ^ 31) mod 2 ^ 32 - 2 ^ 31.

Definition in_u8 (z : Z) : Prop := 0 <= z < 2 ^ 8.
Definition in_u32 (z : Z) : Prop := 0 <= z < 2 ^ 32.
Definition in_u64 (z : Z) : Prop := 0 <= z < 2 ^ 64.
Definition in_i64 (z : Z) : Prop := - 2 ^ 63 <= z < 2 ^ 63.

Lemma u8_small z : in_u8 z -> u8 z = z.
Proof. apply Z.mod_small. Qed.
Lemma u32_small z : in_u32 z -> u32 z = z.
Proof. apply Z.mod_small. Qed.
Lemma u64_small z : in_u64 z -> u64 z = z.
Proof. apply Z.mod_small. Qed.
Lemma i64_small z : in_i64 z -> i64 z = z.
Proof. unfold in_i64, i64. intros. rewrite Z.mod_small; lia. Qed.
Lemma u8_range z : in_u8 (u8 z).
Proof. by apply Z.mod_pos_bound. Qed.
Lemma u64_range z : in_u64 (u64 z).
Proof. by apply Z.mod_pos_bound. Qed.
Lemma i64_range z : in_i64 (i64 z).
Proof. unfold i64, in_i64. pose proof (Z.mod_pos_bound (z + 2 ^ 63) (2 ^ 64)). lia. Qed.
Lemma u64_i64 z : u64 (i64 z) = u64 z.
Proof. unfold u64, i64. rewrite Zminus_mod, Zmod_mod, <-Zminus_mod. f_equal. lia. Qed.
Lemma i64_u64_eq a b : u64 a = u64 b -> i64 a = i64 b.
Proof. unfold u64, i64. intros E. by rewrite (Zplus_mod a), (Zplus_mod b), E. Qed.
Lemma u64_idemp z : u64 (u64 z) = u64 z.
Proof. unfold u64. apply Zmod_mod. Qed.
Lemma u64_add_l a b : u64 (u64 a + b) = u64 (a + b).
Proof. unfold u64. by rewrite Zplus_mod_idemp_l. Qed.
Lemma i64_add_l a b : i64 (i64 a + b) = i64 (a + b).
Proof. apply i64_u64_eq. rewrite <-(u64_add_l (i64 a)), u64_i64, u64_add_l. done. Qed.
Lemma i64_u64 z : i64 (u64 z) = i64 z.
Proof. apply i64_u64_eq, u64_idemp. Qed.
Lemma u64_neg z : 0 < z < 2 ^ 64 -> u64 (- z) = 2 ^ 64 - z.
Proof.
  intros. unfold u64. rewrite <-(Z.mod_small (2 ^ 64 - z) (2 ^ 64)) by lia.
  rewrite <-(Z_mod_plus_full (- z) 1). f_equal; lia.
Qed.

(** A bitwise or of bits that do not overlap is a sum. *)
Lemma land_disjoint k a b : 0 <= k -> 0 <= b < 2 ^ k -> Z.land (a * 2 ^ k) b = 0.
Proof.
  intros Hk Hb. destruct (Z.eq_dec b 0) as [->|Hb0]; [apply Z.land_0_r|].
  apply Z.bits_inj'. intros i Hi. rewrite Z.land_spec, Z.bits_0.
  destruct (decide (i < k)); [by rewrite Z.mul_pow2_bits_low by lia|].
  rewrite (Z.bits_above_log2 b i), andb_false_r; [done|lia|].
  apply Z.log2_lt_pow2; [lia|]. eapply Z.lt_le_trans; [apply Hb|].
  apply Z.pow_le_mono_r; lia.
Qed.

Lemma lor_disjoint_add k a b :
  0 <= k -> 0 <= b < 2 ^ k -> Z.lor (a * 2 ^ k) b = a * 2 ^ k + b.
Proof.
  intros Hk Hb. pose proof (land_disjoint k a b Hk Hb) as Hl.
  rewrite <-Z.lxor_lor by done. symmetry. by apply Z.add_nocarry_lxor.
Qed.

(** * Byte strings *)
Notation bytes := (list Z).
Definition bytes_ok (l : bytes) : Prop := Forall in_u8 l.

(** [bytes.Compare], i.e. memcmp with the shorter string first. *)
Fixpoint memcmp (a b : bytes) : comparison :=
  match a, b with
  | [], [] => Eq
  | [], _ :: _ => Lt
  | _ :: _, [] => Gt
  | x :: a', y :: b' =>
      match x ?= y with Eq => memcmp a' b' | c => c end
  end.

Lemma memcmp_refl a : memcmp a a = Eq.
Proof. induction a as [|x a IH]; cbn; [done|]. by rewrite Z.compare_refl. Qed.

Lemma memcmp_eq a b : memcmp a b = Eq <-> a = b.
Proof.
  split; [|intros ->; apply memcmp_refl].
  revert b. induction a as [|x a IH]; intros [|y b]; cbn; try done.
  case_match eqn:E; try done. apply Z.compare_eq in E as ->. intros H. f_equal. auto.
Qed.

Lemma memcmp_app_same p a b : memcmp (p ++ a) (p ++ b) = memcmp a b.
Proof. induction p as [|x p IH]; cbn; [done|]. by rewrite Z.compare_refl. Qed.

(** Big-endian bytes of [v], [n] of them. *)
Fixpoint be (n : nat) (v : Z) : bytes :=
  match n with
  | O => []
  | S n' => u8 (Z.shiftr v (8 * Z.of_nat n')) :: be n' v
  end.

Lemma be_ok n v : bytes_ok (be n v).
Proof. induction n; constructor; auto using u8_range. Qed.

Lemma length_be n v : length (be n v) = n.
Proof. induction n; cbn; auto. Qed.

Lemma shiftr_div_pow8 v n : Z.shiftr v (8 * Z.of_nat n) = v / 2 ^ (8 * Z.of_nat n).
Proof. apply Z.shiftr_div_pow2. lia. Qed.

Lemma pow8_S n : 2 ^ (8 * Z.of_nat (S n)) = 2 ^ 8 * 2 ^ (8 * Z.of_nat n).
Proof. rewrite <-Z.pow_add_r by lia. f_equal. lia. Qed.

(** Only the low [8 n] bits matter. *)
Lemma be_mod n v k : be n (v + k * 2 ^ (8 * Z.of_nat n)) = be n v.
Proof.
  revert k. induction n as [|n IH]; intros k; [done|]. cbn [be]. f_equal.
  - rewrite !shiftr_div_pow8, pow8_S. unfold u8.
    rewrite Z.mul_assoc, Z.div_add by lia.
    by rewrite Z.mod_add by lia.
  - rewrite pow8_S, Z.mul_assoc. apply IH.
Qed.

(** Big-endian strings compare as the numbers they denote. *)
Lemma memcmp_be n a b x y :
  0 <= a < 2 ^ (8 * Z.of_nat n) -> 0 <= b < 2 ^ (8 * Z.of_nat n) ->
  memcmp (be n a ++ x) (be n b ++ y) =
  match a ?= b with Eq => memcmp x y | c => c end.
Proof.
  revert a b. induction n as [|n IH]; intros a b Ha Hb.
  - replace a with 0 by (cbn in Ha; lia). replace b with 0 by (cbn in Hb; lia). done.
  - cbn [be app memcmp]. rewrite pow8_S in *. rewrite !shiftr_div_pow8.
    set (p := 2 ^ (8 * Z.of_nat n)) in *.
    assert (Hp : 0 < p) by (apply Z.pow_pos_nonneg; lia).
    pose proof (Z.div_mod a p ltac:(lia)) as Ea. pose proof (Z.div_mod b p ltac:(lia)) as Eb.
    pose proof (Z.mod_pos_bound a p Hp) as Ba. pose proof (Z.mod_pos_bound b p Hp) as Bb.
    assert (Qa : in_u8 (a / p)) by (split; [apply Z.div_pos; lia|apply Z.div_lt_upper_bound; lia]).
    assert (Qb : in_u8 (b / p)) by (split; [apply Z.div_pos; lia|apply Z.div_lt_upper_bound; lia]).
    rewrite !u8_small by done.
    destruct (Z.compare_spec (a / p) (b / p)) as [E|E|E].
    + rewrite <-(be_mod n a (- (a / p))), <-(be_mod n b (- (b / p))). fold p.
      replace (a + - (a / p) * p) with (a mod p) by lia.
      replace (b + - (b / p) * p) with (b mod p) by lia.
      rewrite IH by lia. rewrite E in Ea.
      destruct (Z.compare_spec (a mod p) (b mod p)), (Z.compare_spec a b); try done; lia.
    + destruct (Z.compare_spec a b); try done; nia.
    + destruct (Z.compare_spec a b); try done; nia.
Qed.

Lemma be_snoc n v : be (S n) v = be n (Z.shiftr v 8) ++ [u8 v].
Proof.
  revert v. induction n as [|n IH]; intros v; [cbn; by rewrite Z.shiftr_0_r|].
  change (be (S (S n)) v) with (u8 (Z.shiftr v (8 * Z.of_nat (S n))) :: be (S n) v).
  rewrite IH. cbn [be app]. f_equal. rewrite Z.shiftr_shiftr by lia. f_equal. f_equal. lia.
Qed.

(** The complement of a byte. *)
Lemma lxor_ff b : in_u8 b -> Z.lxor b 0xff = 255 - b.
Proof.
  intros Hb. apply Z.bits_inj'. intros i Hi.
  replace (255 - b) with (Z.lnot b + 2 ^ 8) by (unfold Z.lnot; lia).
  rewrite Z.lxor_spec.
  destruct (decide (i < 8)).
  - rewrite <-(Z.mod_pow2_bits_low (Z.lnot b + 2 ^ 8) 8 i) by lia.
    rewrite <-(Z.mod_add _ (-1)) by lia.
    replace (Z.lnot b + 2 ^ 8 + -1 * 2 ^ 8) with (Z.lnot b) by lia.
    rewrite Z.mod_pow2_bits_low, Z.lnot_spec by lia.
    change 0xff with (Z.ones 8). rewrite Z.ones_spec_low by lia. by destruct (Z.testbit b i).
  - change 0xff with (Z.ones 8). rewrite Z.ones_spec_high by lia.
    assert (Hhi : forall c, 0 <= c < 2 ^ 8 -> Z.testbit c i = false).
    { intros c Hc. rewrite <-(Z.mod_small c (2 ^ 8)) by done.
      apply Z.mod_pow2_bits_high. lia. }
    rewrite !Hhi; [done| |done]. unfold Z.lnot, in_u8 in *. lia.
Qed.

Lemma lxor_lxor b c : Z.lxor (Z.lxor b c) c = b.
Proof. by rewrite Z.lxor_assoc, Z.lxor_nilpotent, Z.lxor_0_r. Qed.

(** Complementing the bytes of two strings that differ before either ends
    reverses their order. *)
Lemma memcmp_complement A B c :
  bytes_ok A -> bytes_ok B -> c <> Eq ->
  (forall x y, memcmp (A ++ x) (B ++ y) = c) ->
  forall x y, memcmp (map (fun b => Z.lxor b 0xff) A ++ x) (map (fun b => Z.lxor b 0xff) B ++ y) = CompOpp c.
Proof.
  intros HA. revert B. induction HA as [|a A Ha HA IH]; intros B HB Hc H x y.
  { specialize (H B []). rewrite app_nil_r, memcmp_refl in H. done. }
  destruct HB as [|b B Hb HB].
  { specialize (H [] (a :: A)). cbn in H. rewrite app_nil_r, Z.compare_refl, memcmp_refl in H. done. }
  cbn in *. rewrite !lxor_ff by done.
  assert (E : (255 - a ?= 255 - b) = CompOpp (a ?= b)).
  { destruct (Z.compare_spec a b), (Z.compare_spec (255 - a) (255 - b)); try done; lia. }
  rewrite E. destruct (a ?= b); cbn.
  - by apply IH.
  - by rewrite <-(H [] []).
  - by rewrite <-(H [] []).
Qed.

#[export] Hint Resolve u8_range u64_range i64_range be_ok : luci.
#[export] Hint Rewrite length_be memcmp_refl lxor_lxor : luci.

(** * Go strings *)

(** [strings.HasPrefix] and [strings.TrimPrefix]. *)
Definition HasPrefix (s p : string) : bool := String.prefix p s.
Fixpoint string_drop (n : nat) (s : string) : string :=
  match n, s with S n, String _ s => string_drop n s | _, _ => s end.
Definition TrimPrefix (s p : string) : string :=
  if HasPrefix s p then string_drop (String.length p) s else s.

Lemma HasPrefix_spec s p : HasPrefix s p = true <-> exists r, s = String.append p r.
Proof.
  unfold HasPrefix. revert s. induction p as [|c p IH]; intros s; cbn.
  { split; [by exists s|by destruct s]. }
  destruct s as [|d s]; [by split; [|intros [? ?]]|].
  change (String.prefix (String c p) (String d s)) with (if ascii_dec c d then String.prefix p s else false).
  change (fun r => String d s = _) with (fun r => String d s = String c (p ++ r)%string).
  destruct (ascii_dec c d) as [->|Hne].
  - rewrite IH. split; intros [r Hr]; exists r; [by rewrite Hr|by injection Hr].
  - split; [done|]. intros [r Hr]. congruence.
Qed.

Lemma TrimPrefix_app p r : TrimPrefix (String.append p r) p = r.
Proof.
  unfold TrimPrefix. rewrite (proj2 (HasPrefix_spec _ _)) by eauto.
  induction p as [|c p IH]; [done|]. apply IH.
Qed.

Lemma HasPrefix_app p r : HasPrefix (String.append p r) p = true.
Proof. apply HasPrefix_spec. eauto. Qed.
#[export] Hint Rewrite TrimPrefix_app HasPrefix_app : luci.

(** The order of Go strings: by their bytes. *)
Definition string_le (a b : string) : Prop := String.leb a b = true.
#[export] Instance string_le_dec : RelDecision string_le.
Proof. intros a b. unfold string_le. apply _. Defined.
Lemma string_le_total : Total string_le.
Proof. intros a b. apply String.leb_total. Qed.
