(* ===== verification/SchedulerSM.v ===== *)
(** The job state machine of the scheduler:
    scheduler/appengine/engine/statemachine.go, on top of
    scheduler/appengine/schedule/schedule.go. *)
From S2P Require Import Prelude.
Local Open Scope Z_scope.

(** * Schedules (schedule.go)

    [time.Time] is an instant in nanoseconds, 0 being the zero [time.Time{}];
    [time.Duration] a number of nanoseconds.  A parsed cron expression
    (github.com/gorhill/cronexpr, outside the repository) is the function
    [cronExpr.Next]. *)
Definition Time := Z.
Definition Time_IsZero (t : Time) : bool := t =? 0.

(** Jan 2116, as [time.Unix(4604952467, 0)] on a clock whose zero is year 1
    (62135596800 seconds before the Unix epoch). *)
Definition DistantFuture : Time := (4604952467 + 62135596800) * 1000000000.

Record Schedule := {
  randSeed : Z;
  cronExpr : option (Time -> Time);
  interval : Z;
  triggered : bool;
}.

Definition IsAbsolute (s : Schedule) : bool :=
  match cronExpr s with Some _ => true | None => false end || triggered s.

(** * States and actions (statemachine.go) *)
Inductive StateKind :=
| JobStateDisabled | JobStateScheduled | JobStateSuspended | JobStateQueued
| JobStateRunning | JobStateOverrun | JobStateSlowQueue.

#[export] Instance StateKind_eq_dec : EqDecision StateKind.
Proof. solve_decision. Defined.

(** [==] on state kinds. *)
Definition StateKind_eqb (a b : StateKind) : bool :=
  match a, b with
  | JobStateDisabled, JobStateDisabled | JobStateScheduled, JobStateScheduled
  | JobStateSuspended, JobStateSuspended | JobStateQueued, JobStateQueued
  | JobStateRunning, JobStateRunning | JobStateOverrun, JobStateOverrun
  | JobStateSlowQueue, JobStateSlowQueue => true
  | _, _ => false
  end.

Lemma StateKind_eqb_eq a b : StateKind_eqb a b = true <-> a = b.
Proof. by destruct a, b. Qed.

Record JobState := {
  State : StateKind;
  Overruns : Z;
  TickNonce : Z;
  TickTime : Time;
  PrevTime : Time;
  InvocationNonce : Z;
  InvocationRetryCount : Z;
  InvocationTime : Time;
  InvocationID : Z;
}.

(** [JobState{State: k}]: every other field at its zero value. *)
Definition cleanState (k : StateKind) : JobState :=
  {| State := k; Overruns := 0; TickNonce := 0; TickTime := 0; PrevTime := 0;
     InvocationNonce := 0; InvocationRetryCount := 0; InvocationTime := 0;
     InvocationID := 0 |}.

Definition set_State (k : StateKind) (s : JobState) : JobState :=
  {| State := k; Overruns := Overruns s; TickNonce := TickNonce s;
     TickTime := TickTime s; PrevTime := PrevTime s;
     InvocationNonce := InvocationNonce s;
     InvocationRetryCount := InvocationRetryCount s;
     InvocationTime := InvocationTime s; InvocationID := InvocationID s |}.

Definition set_Overruns (n : Z) (s : JobState) : JobState :=
  {| State := State s; Overruns := n; TickNonce := TickNonce s;
     TickTime := TickTime s; PrevTime := PrevTime s;
     InvocationNonce := InvocationNonce s;
     InvocationRetryCount := InvocationRetryCount s;
     InvocationTime := InvocationTime s; InvocationID := InvocationID s |}.

Definition set_Tick (t : Time) (n : Z) (s : JobState) : JobState :=
  {| State := State s; Overruns := Overruns s; TickNonce := n;
     TickTime := t; PrevTime := PrevTime s;
     InvocationNonce := InvocationNonce s;
     InvocationRetryCount := InvocationRetryCount s;
     InvocationTime := InvocationTime s; InvocationID := InvocationID s |}.

Definition set_PrevTime (t : Time) (s : JobState) : JobState :=
  {| State := State s; Overruns := Overruns s; TickNonce := TickNonce s;
     TickTime := TickTime s; PrevTime := t;
     InvocationNonce := InvocationNonce s;
     InvocationRetryCount := InvocationRetryCount s;
     InvocationTime := InvocationTime s; InvocationID := InvocationID s |}.

(** The five invocation fields at once: nonce, retry count, time, ID and the
    overrun counter of the invocation. *)
Definition set_Invocation (n rc : Z) (t : Time) (id ov : Z) (s : JobState) : JobState :=
  {| State := State s; Overruns := ov; TickNonce := TickNonce s;
     TickTime := TickTime s; PrevTime := PrevTime s; InvocationNonce := n;
     InvocationRetryCount := rc; InvocationTime := t; InvocationID := id |}.

Definition is_queued (k : StateKind) : bool :=
  StateKind_eqb k JobStateQueued || StateKind_eqb k JobStateSlowQueue.
Definition is_running (k : StateKind) : bool :=
  StateKind_eqb k JobStateRunning || StateKind_eqb k JobStateOverrun.
Definition is_overrun (k : StateKind) : bool :=
  StateKind_eqb k JobStateOverrun || StateKind_eqb k JobStateSlowQueue.
Definition is_waiting (k : StateKind) : bool :=
  StateKind_eqb k JobStateScheduled || StateKind_eqb k JobStateSuspended.

Definition IsExpectingInvocation (s : JobState) (invocationNonce : Z) : bool :=
  is_queued (State s) && (InvocationNonce s =? invocationNonce).

Definition IsRetrying (s : JobState) : bool :=
  is_queued (State s) && negb (InvocationRetryCount s =? 0).

Inductive Action :=
| TickLaterAction (When : Time) (nonce : Z)
| StartInvocationAction (invNonce : Z) (TriggeredBy : string)
| RecordOverrunAction (overruns RunningInvocationID : Z).

#[export] Instance Action_eq_dec : EqDecision Action.
Proof. solve_decision. Defined.

(** * The machine

    [Nonce] is the series of nonces [m.Nonce()] produces, [nonces] how many of
    them were drawn. *)
Record StateMachine := {
  Now : Time;
  Sched : Schedule;
  Nonce : nat -> Z;
  nonces : nat;
  St : JobState;
  Actions : list Action;
}.

Definition with_St (m : StateMachine) (s : JobState) : StateMachine :=
  {| Now := Now m; Sched := Sched m; Nonce := Nonce m; nonces := nonces m;
     St := s; Actions := Actions m |}.

(** [m.Nonce()]: the next nonce and the machine that has drawn it. *)
Definition drawNonce (m : StateMachine) : Z * StateMachine :=
  (Nonce m (nonces m),
   {| Now := Now m; Sched := Sched m; Nonce := Nonce m; nonces := S (nonces m);
      St := St m; Actions := Actions m |}).

Definition emitAction (m : StateMachine) (a : Action) : StateMachine :=
  {| Now := Now m; Sched := Sched m; Nonce := Nonce m; nonces := nonces m;
     St := St m; Actions := Actions m ++ [a] |}.

(** * Operations *)
Inductive SMError :=
| ErrTickTooEarly        (* "tick happened ... before it was expected" *)
| ErrAlreadyRunning      (* "the job is already running or about to start" *)
| ErrBadSchedule         (* rollSM: "bad schedule" *)
| ErrEnqueue.            (* rollSM: enqueueJobActions failed *)

#[export] Instance SMError_eq_dec : EqDecision SMError.
Proof. solve_decision. Defined.

Section Machine.
(** [time.Duration(float64(s.interval) * rnd)] with [rnd] the first
    [Float64] of math/rand seeded with [randSeed]. *)
Variable jitter : Z -> Z -> Z.

Definition Next (s : Schedule) (now prev : Time) : Time :=
  if triggered s then DistantFuture
  else match cronExpr s with
  | Some next => next now
  | None =>
      if Time_IsZero prev then now + jitter (randSeed s) (interval s)
      else
        let next := prev + interval s in
        if next - now <? 0 then now else next
  end.

Definition scheduleTick (m : StateMachine) : StateMachine :=
  let nextTick := Next (Sched m) (Now m) (PrevTime (St m)) in
  if nextTick =? TickTime (St m) then m
  else
    let '(n, m) := drawNonce m in
    let m := with_St m (set_Tick nextTick n (St m)) in
    if nextTick =? DistantFuture then m
    else emitAction m (TickLaterAction (TickTime (St m)) (TickNonce (St m))).

Definition maybeSuspendOrResume (m : StateMachine) : StateMachine :=
  let s := St m in
  if StateKind_eqb (State s) JobStateScheduled && (TickTime s =? DistantFuture)
  then with_St m (set_State JobStateSuspended s)
  else if StateKind_eqb (State s) JobStateSuspended && negb (TickTime s =? DistantFuture)
  then with_St m (set_State JobStateScheduled s)
  else m.

Definition resetTick (m : StateMachine) : StateMachine :=
  with_St m (set_Tick 0 0 (St m)).

Definition queueInvocation (m : StateMachine) (triggeredBy : string) : StateMachine :=
  let '(n, m) := drawNonce m in
  let m := with_St m (set_Invocation n 0 (Now m) 0 0 (St m)) in
  emitAction m (StartInvocationAction (InvocationNonce (St m)) triggeredBy).

Definition resetInvocation (m : StateMachine) : StateMachine :=
  with_St m (set_Invocation 0 0 0 0 0 (St m)).

Definition invocationFinished (m : StateMachine) : StateMachine :=
  let m := with_St m (set_PrevTime (Now m) (set_State JobStateScheduled (St m))) in
  maybeSuspendOrResume (scheduleTick (resetInvocation m)).

Definition OnJobEnabled (m : StateMachine) : StateMachine :=
  if StateKind_eqb (State (St m)) JobStateDisabled then
    maybeSuspendOrResume (scheduleTick (with_St m (cleanState JobStateScheduled)))
  else m.

Definition OnJobDisabled (m : StateMachine) : StateMachine :=
  with_St m (cleanState JobStateDisabled).

Definition OnTimerTick (m : StateMachine) (tickNonce : Z)
  : outcome (StateMachine * option SMError) :=
  let s := St m in
  if StateKind_eqb (State s) JobStateDisabled then Ret (m, None)
  else if StateKind_eqb (State s) JobStateSuspended then Ret (m, None)
  else if negb (TickNonce s =? tickNonce) then Ret (m, None)
  else if Now m - TickTime s <? 0 then Ret (m, Some ErrTickTooEarly)
  else
    let m := if IsAbsolute (Sched m) then scheduleTick m else resetTick m in
    if StateKind_eqb (State (St m)) JobStateScheduled then
      Ret (queueInvocation (with_St m (set_State JobStateQueued (St m))) "", None)
    else
      let overrun k :=
        let s' := set_Overruns (Overruns (St m) + 1) (set_State k (St m)) in
        let m := with_St m s' in
        Ret (emitAction m (RecordOverrunAction (Overruns s') (InvocationID s')), None) in
      match State (St m) with
      | JobStateRunning | JobStateOverrun => overrun JobStateOverrun
      | JobStateQueued | JobStateSlowQueue => overrun JobStateSlowQueue
      | _ => Panic
      end.

Definition OnInvocationStarting (m : StateMachine) (invocationNonce invocationID retryCount : Z)
  : StateMachine :=
  let s := St m in
  if IsExpectingInvocation s invocationNonce
  then with_St m (set_Invocation (InvocationNonce s) retryCount (InvocationTime s)
                                 invocationID (Overruns s) s)
  else m.

Definition OnInvocationStarted (m : StateMachine) (invocationID : Z) : outcome StateMachine :=
  let s := St m in
  if InvocationID s =? invocationID then
    match State s with
    | JobStateQueued => Ret (with_St m (set_State JobStateRunning s))
    | JobStateSlowQueue => Ret (with_St m (set_State JobStateOverrun s))
    | _ => Panic
    end
  else Ret m.

Definition OnInvocationDone (m : StateMachine) (invocationID : Z) : StateMachine :=
  let s := St m in
  if negb (is_running (State s)) then m
  else if negb (InvocationID s =? invocationID) then m
  else invocationFinished m.

Definition OnScheduleChange (m : StateMachine) : StateMachine :=
  let s := St m in
  if StateKind_eqb (State s) JobStateDisabled then m
  else if Time_IsZero (TickTime s) then
    if IsAbsolute (Sched m) then scheduleTick m else m
  else if negb (IsAbsolute (Sched m)) && negb (is_waiting (State s)) then resetTick m
  else maybeSuspendOrResume (scheduleTick m).

Definition OnManualInvocation (m : StateMachine) (triggeredBy : string)
  : StateMachine * option SMError :=
  let s := St m in
  if negb (is_waiting (State s)) then (m, Some ErrAlreadyRunning)
  else
    let m := queueInvocation (with_St m (set_State JobStateQueued s)) triggeredBy in
    (if IsAbsolute (Sched m) then m else resetTick m, None).

Definition OnManualAbort (m : StateMachine) : StateMachine :=
  if InvocationNonce (St m) =? 0 then m else invocationFinished m.

(** The callbacks engine.go passes to [rollSM]. *)
Inductive Event :=
| EvJobEnabled
| EvJobDisabled
| EvTimerTick (tickNonce : Z)
| EvInvocationStarting (invocationNonce invocationID retryCount : Z)
| EvInvocationStarted (invocationID : Z)
| EvInvocationDone (invocationID : Z)
| EvScheduleChange
| EvManualInvocation (triggeredBy : string)
| EvManualAbort.

Definition handle (ev : Event) (m : StateMachine) : outcome (StateMachine * option SMError) :=
  match ev with
  | EvJobEnabled => Ret (OnJobEnabled m, None)
  | EvJobDisabled => Ret (OnJobDisabled m, None)
  | EvTimerTick n => OnTimerTick m n
  | EvInvocationStarting n id rc => Ret (OnInvocationStarting m n id rc, None)
  | EvInvocationStarted id => m' ← OnInvocationStarted m id; Ret (m', None)
  | EvInvocationDone id => Ret (OnInvocationDone m id, None)
  | EvScheduleChange => Ret (OnScheduleChange m, None)
  | EvManualInvocation who => Ret (OnManualInvocation m who)
  | EvManualAbort => Ret (OnManualAbort m, None)
  end.

(** [rollSM] (engine.go): one transition under a transaction.  [sched] is
    what [job.parseSchedule] returned, [enqueue] tells whether
    [enqueueJobActions] fails.  The new job state and the submitted actions
    are returned together; an error leaves the job untouched. *)
Definition rollSM (sched : option Schedule) (now : Time) (nonce : nat -> Z)
    (enqueueFails : list Action -> bool) (state : JobState)
    (cb : StateMachine -> outcome (StateMachine * option SMError))
  : outcome (result SMError (JobState * list Action)) :=
  match sched with
  | None => Ret (Err ErrBadSchedule)
  | Some sched =>
      let sm := {| Now := now; Sched := sched; Nonce := nonce; nonces := 0;
                   St := state; Actions := [] |} in
      '(sm, err) ← cb sm;
      match err with
      | Some e => Ret (Err e)
      | None =>
          if negb (bool_decide (Actions sm = [])) && enqueueFails (Actions sm)
          then Ret (Err ErrEnqueue)
          else Ret (Ok (St sm, Actions sm))
      end
  end.

(** * Well-formed job states

    [Next] of a cron expression is the zero time when no instant matches (cronexpr
    says so).  The machine takes it for the instant of a tick: [barren] says that some
    schedule in use has this, and allows the states that come of it. *)
Variable barren : Prop.
Definition tick_ok (t : Time) (n : Z) : Prop :=
  if t =? 0 then n = 0 \/ 0 < n /\ barren else 0 < n.

Record wf_state (s : JobState) : Prop := {
  wf_disabled : State s = JobStateDisabled -> s = cleanState JobStateDisabled;
  wf_scheduled : State s = JobStateScheduled -> TickTime s <> 0 /\ TickTime s <> DistantFuture \/ barren;
  wf_suspended : State s = JobStateSuspended -> TickTime s = DistantFuture;
  wf_waiting : is_waiting (State s) = true ->
    InvocationNonce s = 0 /\ InvocationID s = 0 /\ InvocationRetryCount s = 0 /\ InvocationTime s = 0;
  wf_active : is_queued (State s) || is_running (State s) = true -> 0 < InvocationNonce s;
  wf_running : is_running (State s) = true -> InvocationID s <> 0;
  wf_overruns : if is_overrun (State s) then 0 < Overruns s else Overruns s = 0;
  wf_tick : tick_ok (TickTime s) (TickNonce s);
}.

Lemma wf_clean : wf_state (cleanState JobStateDisabled).
Proof. split; try done. by left. Qed.

(** The timer the job waits for: none if no tick is set or the tick is in
    the distant future. *)
Definition awaited_tick (s : JobState) : option Action :=
  if (TickTime s =? 0) || (TickTime s =? DistantFuture) then None
  else Some (TickLaterAction (TickTime s) (TickNonce s)).

(** The invocation request that must be in the task queue while the job is
    queued (whoever triggered it). *)
Definition requested (s : JobState) (out : list Action) : Prop :=
  is_queued (State s) = true ->
  exists who, StartInvocationAction (InvocationNonce s) who ∈ out.

(** Outstanding tasks [out] cover what the state waits for. *)
Definition covered (s : JobState) (out : list Action) : Prop :=
  (forall a, awaited_tick s = Some a -> a ∈ out) /\ requested s out.

(** What the documentation of cronexpr promises of [Next]: an instant after
    [now], or the zero time. *)
Definition sched_ok (s : Schedule) : Prop :=
  0 <= interval s /\ forall next now, cronExpr s = Some next -> 0 < now -> now < next now \/ next now = 0 /\ barren.

Definition event_ok (ev : Event) : Prop :=
  match ev with
  | EvTimerTick n => n <> 0
  | EvInvocationStarting _ id _ | EvInvocationStarted id => id <> 0
  | _ => True
  end.

Hypothesis jitter_nonneg : forall seed i, 0 <= i -> 0 <= jitter seed i.

Lemma Next_pos s now prev : sched_ok s -> 0 < now -> 0 < Next s now prev \/ Next s now prev = 0 /\ barren.
Proof.
  intros [Hi Hc] Hnow. unfold Next, DistantFuture.
  destruct (triggered s); [lia|]. destruct (cronExpr s) as [next|] eqn:E.
  - destruct (Hc next now eq_refl Hnow) as [?|?]; [left; lia|by right].
  - destruct (Time_IsZero prev).
    + specialize (jitter_nonneg (randSeed s) (interval s) Hi). lia.
    + case_match; lia.
Qed.

(** On an absolute schedule a tick that has just fired is never scheduled
    again at the same instant, unless it is the distant future or no instant. *)
Lemma Next_absolute_fresh s now prev t :
  sched_ok s -> 0 < now -> IsAbsolute s = true -> t <= now -> Next s now prev = t -> t = DistantFuture \/ t = 0.
Proof.
  intros [_ Hc] Hn Ha Ht. unfold Next, IsAbsolute in *.
  destruct (triggered s); [left; congruence|].
  destruct (cronExpr s) as [next|] eqn:E; [|done].
  destruct (Hc next now eq_refl Hn) as [?|[? _]]; lia.
Qed.

(** How [scheduleTick] changes a state, with the outstanding tasks. *)
Lemma scheduleTick_spec m :
  sched_ok (Sched m) -> 0 < Now m -> (forall i, 0 < Nonce m i) ->
  exists n, let m' := scheduleTick m in
    let t := Next (Sched m) (Now m) (PrevTime (St m)) in
    St m' = set_Tick t n (St m) /\ Nonce m' = Nonce m /\
    Sched m' = Sched m /\ Now m' = Now m /\
    (t = TickTime (St m) /\ n = TickNonce (St m) /\ m' = m \/
     t <> TickTime (St m) /\ 0 < n /\
     Actions m' = Actions m ++ (if t =? DistantFuture then [] else [TickLaterAction t n])).
Proof.
  intros Hs Hn Hp. unfold scheduleTick; cbn.
  case_match eqn:E; [apply Z.eqb_eq in E | apply Z.eqb_neq in E].
  - exists (TickNonce (St m)). rewrite E. destruct (St m); cbn. auto 10.
  - exists (Nonce m (nonces m)). specialize (Hp (nonces m)).
    destruct (Next _ _ _ =? DistantFuture) eqn:E2; cbn; rewrite ?app_nil_r; auto 10.
Qed.

Lemma tick_ok_intro t n : 0 < t \/ t = 0 /\ barren -> 0 < n -> tick_ok t n.
Proof. unfold tick_ok. intros [H|[-> H]] Hn; [by rewrite (proj2 (Z.eqb_neq t 0)) by lia|by right]. Qed.

(** The tasks still outstanding once the ones with the delivered nonce are gone. *)
Definition is_tick (n : Z) (a : Action) : bool :=
  match a with TickLaterAction _ n' => n' =? n | _ => false end.

Definition undelivered (ev : Event) (out : list Action) : list Action :=
  match ev with
  | EvTimerTick n => filter (fun a => is_tick n a = false) out
  | _ => out
  end.

Definition machine_ok (m : StateMachine) : Prop :=
  sched_ok (Sched m) /\ 0 < Now m /\ (forall i, 0 < Nonce m i).

Definition good (m : StateMachine) (out : list Action) : Prop :=
  wf_state (St m) /\ covered (St m) (out ++ Actions m).

Ltac crush_state :=
  repeat match goal with
  | s : JobState |- _ => destruct s as [[] ? ? ? ? ? ? ? ?]
  | H : wf_state _ |- _ => destruct H as [? ? ? ? ? ? ? ?]
  | H : covered _ _ |- _ => destruct H as [? ?]
  end; cbn in *; try done.

Lemma covered_mono s out out' : out ⊆ out' -> covered s out -> covered s out'.
Proof.
  intros Hsub [Ht Hr]. split; [eauto|].
  intros Hq. destruct (Hr Hq) as [who ?]. eauto.
Qed.

(** The tail shared by [OnJobEnabled], [OnScheduleChange] and
    [invocationFinished]: an idle job is given a tick. *)
Lemma reschedule_good m out :
  machine_ok m ->
  is_waiting (State (St m)) = true ->
  InvocationNonce (St m) = 0 -> InvocationID (St m) = 0 ->
  InvocationRetryCount (St m) = 0 -> InvocationTime (St m) = 0 -> Overruns (St m) = 0 ->
  tick_ok (TickTime (St m)) (TickNonce (St m)) ->
  (forall a, awaited_tick (St m) = Some a -> a ∈ out ++ Actions m) ->
  good (maybeSuspendOrResume (scheduleTick m)) out.
Proof.
  intros (Hs & Hn & Hp) Hw H1 H2 H3 H4 H5 Htk Haw.
  destruct (scheduleTick_spec m Hs Hn Hp) as (n & HS & _ & _ & _ & Hd).
  pose proof (Next_pos (Sched m) (Now m) (PrevTime (St m)) Hs Hn) as Hpos.
  set (t := Next _ _ _) in *. revert HS Hd. generalize (scheduleTick m) as m'. intros m' HS Hd.
  assert (Hn0 : tick_ok t n).
  { destruct Hd as [(-> & -> & _)|(_ & ? & _)]; [done|]. by apply tick_ok_intro. }
  assert (Htick : t <> DistantFuture -> t <> 0 -> TickLaterAction t n ∈ out ++ Actions m').
  { intros Hdf H0. destruct Hd as [(E1 & E2 & ->)|(_ & _ & ->)].
    - apply Haw. unfold awaited_tick. rewrite <-E1, <-E2.
      by rewrite (proj2 (Z.eqb_neq _ _)), (proj2 (Z.eqb_neq _ _)).
    - rewrite (proj2 (Z.eqb_neq _ _)) by done. set_solver. }
  assert (Hz : t <> DistantFuture -> t <> 0 /\ t <> DistantFuture \/ barren) by (destruct Hpos as [?|[_ ?]]; [left; lia|by right]).
  unfold good, maybeSuspendOrResume. rewrite HS.
  destruct (St m) as [k ? ? ? ? ? ? ? ?]; cbn in *; subst.
  destruct k; try done; cbn;
    destruct (t =? DistantFuture) eqn:E; bool_to_prop; cbn; rewrite ?HS; cbn;
    (split; [split; cbn; try done; try lia;
             repeat case_match; bool_to_prop; try lia; auto
            |split; [unfold awaited_tick; cbn; intros a;
                     repeat case_match; bool_to_prop; try done; try lia; intros [= <-]; auto
                    |by intros Hq; discriminate Hq]]).
Qed.

(** A state with the same awaited tick, or with none, stays covered. *)
Lemma covered_frame s s' out out' :
  covered s out -> awaited_tick s' = awaited_tick s \/ awaited_tick s' = None ->
  out ⊆ out' -> requested s' out' -> covered s' out'.
Proof.
  intros [Ht _] Hs Hsub Hr. split; [|done].
  intros a Ha. destruct Hs as [Hs|Hs]; rewrite Hs in Ha; [eauto|done].
Qed.

(** Well-formedness of a record of a concrete kind. *)
Ltac solve_wf :=
  split; cbn in *; intros; repeat case_match; bool_to_prop; simplify_eq/=; try done; try lia.

Lemma invocationFinished_good m out :
  machine_ok m -> good m out -> good (invocationFinished m) out.
Proof.
  intros Hm [Hwf [Ht _]]. unfold invocationFinished.
  apply reschedule_good; cbn; try done.
  apply (wf_tick _ Hwf).
Qed.

Lemma OnJobEnabled_good m out : machine_ok m -> good m out -> good (OnJobEnabled m) out.
Proof.
  intros Hm Hg. unfold OnJobEnabled. case_match; [|done].
  apply reschedule_good; try done. by left.
Qed.

Lemma OnJobDisabled_good m out : good (OnJobDisabled m) out.
Proof. split; [solve_wf|]. by split. Qed.

Lemma OnInvocationStarting_good m out n id rc :
  id <> 0 -> good m out -> good (OnInvocationStarting m n id rc) out.
Proof.
  intros Hid Hg. unfold OnInvocationStarting. case_match eqn:E; [|done].
  apply andb_true_iff in E as [Eq _].
  destruct Hg as [Hwf Hc]. split.
  - destruct Hwf, (St m) as [k ? ? ? ? ? ? ? ?]; cbn in *. destruct k; try done; solve_wf.
  - eapply covered_frame; [exact Hc|by left|done|]. apply Hc.
Qed.

Lemma OnInvocationStarted_good m m' out id :
  id <> 0 -> good m out -> OnInvocationStarted m id = Ret m' -> good m' out.
Proof.
  intros Hid Hg. unfold OnInvocationStarted. case_match eqn:E; [|by intros [= <-]].
  destruct Hg as [Hwf Hc]. bool_to_prop. intros Hm'. split.
  - destruct Hwf, (St m) as [k ? ? ? ? ? ? ? ?]; cbn in *; subst.
    destruct k; inversion Hm'; subst; solve_wf.
  - destruct (State (St m)) eqn:Ek; inversion Hm'; subst; cbn;
      (eapply covered_frame; [exact Hc|by left|done|]); intros Hq; discriminate Hq.
Qed.

Lemma OnInvocationDone_good m out id :
  machine_ok m -> good m out -> good (OnInvocationDone m id) out.
Proof.
  intros Hm Hg. unfold OnInvocationDone. repeat (case_match; [done|]).
  by apply invocationFinished_good.
Qed.

Lemma OnManualAbort_good m out : machine_ok m -> good m out -> good (OnManualAbort m) out.
Proof.
  intros Hm Hg. unfold OnManualAbort. case_match; [done|].
  by apply invocationFinished_good.
Qed.

(** Moving or cancelling the tick of a job that is queued or running. *)
Lemma set_Tick_active_wf s t n :
  wf_state s -> is_queued (State s) || is_running (State s) = true ->
  tick_ok t n -> wf_state (set_Tick t n s).
Proof.
  intros [] Hact Htn. destruct s as [k ? ? ? ? ? ? ? ?]; cbn in *.
  destruct k; try discriminate Hact; by split; cbn.
Qed.

Lemma maybeSuspend_active m :
  is_waiting (State (St m)) = false -> maybeSuspendOrResume m = m.
Proof. unfold maybeSuspendOrResume. by destruct (State (St m)). Qed.

Lemma resetTick_active_good m out :
  is_queued (State (St m)) || is_running (State (St m)) = true ->
  good m out -> good (resetTick m) out.
Proof.
  intros Hact [Hwf Hc]. split; [apply set_Tick_active_wf; [done|done|by left]|].
  eapply covered_frame; [exact Hc|by right|done|apply Hc].
Qed.

Lemma scheduleTick_active_good m out :
  machine_ok m -> is_queued (State (St m)) || is_running (State (St m)) = true ->
  good m out -> good (scheduleTick m) out.
Proof.
  intros (Hs & Hn & Hp) Hact Hg.
  destruct (scheduleTick_spec m Hs Hn Hp) as (n & HS & _ & _ & _ & Hd).
  pose proof (Next_pos (Sched m) (Now m) (PrevTime (St m)) Hs Hn) as Hpos.
  destruct Hd as [(_ & _ & ->)|(_ & Hn0 & HA)]; [done|].
  destruct Hg as [Hwf [Ht Hr]]. unfold good. rewrite HS, HA. split.
  - apply set_Tick_active_wf; [done..|]. by apply tick_ok_intro.
  - set (t := Next _ _ _) in *. split.
    + unfold awaited_tick; cbn. intros a.
      destruct (t =? DistantFuture) eqn:E; [by rewrite orb_true_r|].
      case_match; [done|]. intros [= <-]. set_solver.
    + intros Hq. destruct (Hr Hq) as [who ?]. exists who. set_solver.
Qed.

(** A scheduled job that had no instant to wait for. *)
Lemma scheduleTick_barren_good m out :
  machine_ok m -> barren /\ State (St m) = JobStateScheduled -> good m out -> good (scheduleTick m) out.
Proof.
  intros (Hs & Hn & Hp) [Hb Hk] Hg.
  destruct (scheduleTick_spec m Hs Hn Hp) as (n & HS & _ & _ & _ & Hd).
  pose proof (Next_pos (Sched m) (Now m) (PrevTime (St m)) Hs Hn) as Hpos.
  destruct Hd as [(_ & _ & ->)|(_ & Hn0 & HA)]; [done|].
  destruct Hg as [[] Hc]. unfold good. rewrite HS, HA. set (t := Next _ _ _) in *. split.
  - pose proof (tick_ok_intro _ _ Hpos Hn0). destruct (St m); cbn in *; subst. by split; cbn; auto.
  - split; [|by intros Hq; cbn in Hq; rewrite Hk in Hq].
    unfold awaited_tick; cbn. intros a. destruct (t =? DistantFuture) eqn:E; [by rewrite orb_true_r|].
    rewrite orb_false_r. destruct (t =? 0); [done|]. intros [= <-]. set_solver.
Qed.

Lemma OnScheduleChange_good m out :
  machine_ok m -> good m out -> good (OnScheduleChange m) out.
Proof.
  intros Hm Hg. pose proof Hg as [Hwf Hc]. unfold OnScheduleChange, Time_IsZero.
  case_match eqn:E1; [done|].
  destruct (is_waiting (State (St m))) eqn:Ew.
  - pose proof (wf_waiting _ Hwf Ew) as (? & ? & ? & ?).
    rewrite andb_false_r. case_match eqn:E2; bool_to_prop.
    + assert (Hb : barren /\ State (St m) = JobStateScheduled).
      { destruct (State (St m)) eqn:Ek; try done.
        - split; [|done]. destruct (wf_scheduled _ Hwf Ek) as [[? _]|?]; done.
        - pose proof (wf_suspended _ Hwf Ek) as Hd. unfold DistantFuture in Hd. lia. }
      case_match; [|done]. by apply scheduleTick_barren_good.
    + apply reschedule_good; try done; [|apply (wf_tick _ Hwf)|apply Hc].
      pose proof (wf_overruns _ Hwf) as Ho. by destruct (State (St m)).
  - assert (Hact : is_queued (State (St m)) || is_running (State (St m)) = true)
      by (by destruct (State (St m))).
    assert (Hms : maybeSuspendOrResume (scheduleTick m) = scheduleTick m).
    { apply maybeSuspend_active. destruct Hm as (Hs & Hn & Hp).
      destruct (scheduleTick_spec m Hs Hn Hp) as (n & -> & _). done. }
    repeat case_match; rewrite ?Hms; try done;
      auto using scheduleTick_active_good, resetTick_active_good.
Qed.

(** A waiting job that is sent to the queue, its tick kept or cancelled. *)
Lemma queue_good m out who :
  machine_ok m -> wf_state (St m) -> is_waiting (State (St m)) = true ->
  forall tick tn, (tick = TickTime (St m) /\ tn = TickNonce (St m) \/ tick = 0 /\ tn = 0) ->
  wf_state (set_Tick tick tn (St (queueInvocation (with_St m (set_State JobStateQueued (St m))) who))) /\
  requested (set_Tick tick tn (St (queueInvocation (with_St m (set_State JobStateQueued (St m))) who)))
            (out ++ Actions (queueInvocation (with_St m (set_State JobStateQueued (St m))) who)).
Proof.
  intros (_ & _ & Hp) Hwf Hw tick tn Htick. specialize (Hp (nonces m)). split.
  - destruct Hwf, (St m) as [k ? ? ? ? ? ? ? ?]; cbn in *.
    destruct k; try done; destruct Htick as [[-> ->]|[-> ->]]; solve_wf.
  - intros _. cbn. exists who. rewrite !elem_of_app, list_elem_of_singleton. auto.
Qed.

Lemma set_Tick_id s : set_Tick (TickTime s) (TickNonce s) s = s.
Proof. by destruct s. Qed.

Lemma OnManualInvocation_good m m' out who :
  machine_ok m -> good m out -> OnManualInvocation m who = (m', None) -> good m' out.
Proof.
  intros Hm [Hwf Hc]. unfold OnManualInvocation. case_match eqn:E; [done|].
  bool_to_prop. set (q := queueInvocation _ who).
  assert (Hsub : out ++ Actions m ⊆ out ++ Actions q) by (subst q; cbn; set_solver).
  destruct (IsAbsolute _); intros [= <-].
  - edestruct (queue_good m out who) with (tick := TickTime (St m)) (tn := TickNonce (St m))
      as [H1 H2]; [done..|by left|].
    change (set_Tick (TickTime (St m)) (TickNonce (St m))) with
      (set_Tick (TickTime (St q)) (TickNonce (St q))) in H1, H2.
    fold q in H1, H2. rewrite set_Tick_id in H1, H2. split; [done|].
    eapply covered_frame; [exact Hc|by left|done|done].
  - edestruct (queue_good m out who) with (tick := 0) (tn := 0) as [H1 H2]; [done..|by right|].
    split; [done|]. eapply covered_frame; [exact Hc|by right|done|done].
Qed.

Lemma covered_undelivered s n out :
  covered s out -> TickNonce s <> n \/ awaited_tick s = None ->
  covered s (undelivered (EvTimerTick n) out).
Proof.
  intros [Ht Hr] Hn. split.
  - intros a Ha. unfold undelivered. rewrite list_elem_of_filter. split; [|auto].
    destruct Hn as [Hn|Hn]; [|congruence]. unfold awaited_tick in Ha.
    case_match; [done|]. injection Ha as <-. cbn. by apply Z.eqb_neq.
  - intros Hq. destruct (Hr Hq) as [who Hw]. exists who.
    unfold undelivered. by rewrite list_elem_of_filter.
Qed.

(** What [OnTimerTick] does to the tick that fired: the job now waits for a
    tick that has just been submitted, or for none. *)
Definition advanceTick (m : StateMachine) : StateMachine :=
  if IsAbsolute (Sched m) then scheduleTick m else resetTick m.

Lemma advanceTick_spec m :
  machine_ok m -> TickTime (St m) <= Now m ->
  tick_ok (TickTime (St m)) (TickNonce (St m)) ->
  exists t n, St (advanceTick m) = set_Tick t n (St m) /\
    machine_ok (advanceTick m) /\
    tick_ok t n /\
    Actions m ⊆ Actions (advanceTick m) /\
    (t = 0 \/ t = DistantFuture \/ TickLaterAction t n ∈ Actions (advanceTick m)).
Proof.
  intros (Hs & Hn & Hp) Hdue Hwf. unfold advanceTick.
  destruct (IsAbsolute (Sched m)) eqn:Ea.
  - destruct (scheduleTick_spec m Hs Hn Hp) as (n & HS & HN & HSc & HNow & Hd).
    pose proof (Next_pos (Sched m) (Now m) (PrevTime (St m)) Hs Hn) as Hpos.
    pose proof (Next_absolute_fresh (Sched m) (Now m) (PrevTime (St m)) (TickTime (St m)) Hs Hn Ea Hdue) as Hfresh.
    set (t := Next _ _ _) in *. exists t, n. split; [done|].
    split; [unfold machine_ok; by rewrite HN, HSc, HNow|].
    destruct Hd as [(E & -> & ->)|(_ & Hn0 & ->)].
    + split; [by rewrite E|]. split; [done|]. rewrite E. destruct (Hfresh E); auto.
    + split; [by apply tick_ok_intro|].
      split; [set_solver|]. right. destruct (t =? DistantFuture) eqn:E; bool_to_prop; [auto|].
      right. set_solver.
  - exists 0, 0. split; [done|]. split; [done|]. split; [by left|]. split; [done|by left].
Qed.

Lemma ticked_covered t tn s out acts :
  TickTime s = t -> TickNonce s = tn ->
  t = 0 \/ t = DistantFuture \/ TickLaterAction t tn ∈ acts ->
  requested s (out ++ acts) -> covered s (out ++ acts).
Proof.
  intros <- <- Ht Hr. split; [|done]. unfold awaited_tick. intros a Ha.
  case_match eqn:E; [done|]. apply orb_false_iff in E as [? ?]. bool_to_prop.
  injection Ha as <-. destruct Ht as [?|[?|?]]; [done..|]. rewrite elem_of_app. auto.
Qed.

(** An overrun of a job that is active. *)
Lemma ticked_wf s t tn k :
  wf_state s -> tick_ok t tn ->
  k = JobStateSlowQueue /\ is_queued (State s) = true \/
  k = JobStateOverrun /\ is_running (State s) = true ->
  wf_state (set_Overruns (Overruns s + 1) (set_State k (set_Tick t tn s))).
Proof.
  intros [] Htn Hk. destruct s as [ks ? ? ? ? ? ? ? ?]; cbn in *.
  destruct Hk as [[-> Hq]|[-> Hq]]; destruct ks; try done; split; cbn in *; auto; try done; lia.
Qed.

(** A scheduled job whose tick fired is queued. *)
Lemma queued_wf s t tn n now :
  wf_state s -> State s = JobStateScheduled -> tick_ok t tn -> 0 < n ->
  wf_state (set_Invocation n 0 now 0 0 (set_State JobStateQueued (set_Tick t tn s))).
Proof. intros [] Hk Htn Hn. destruct s; cbn in *; subst. by split; cbn. Qed.

Lemma OnTimerTick_good m m' out n :
  machine_ok m -> n <> 0 -> good m out -> Actions m = [] ->
  OnTimerTick m n = Ret (m', None) ->
  good m' (undelivered (EvTimerTick n) out).
Proof.
  intros Hm Hn [Hwf Hc] Hacts. unfold good in *. rewrite Hacts, app_nil_r in Hc.
  unfold OnTimerTick.
  case_match eqn:E1; [intros [= <-]; rewrite Hacts, app_nil_r; split; [done|];
    apply covered_undelivered; [done|right; apply StateKind_eqb_eq in E1;
    by rewrite (wf_disabled _ Hwf E1)]|].
  case_match eqn:E2; [intros [= <-]; rewrite Hacts, app_nil_r; split; [done|];
    apply covered_undelivered; [done|right; apply StateKind_eqb_eq in E2;
    unfold awaited_tick; by rewrite (wf_suspended _ Hwf E2)]|].
  case_match eqn:E3; [intros [= <-]; rewrite Hacts, app_nil_r; split; [done|];
    apply covered_undelivered; [done|left; by bool_to_prop]|].
  case_match eqn:E4; [done|]. bool_to_prop.
  fold (advanceTick m).
  destruct (advanceTick_spec m Hm ltac:(lia) (wf_tick _ Hwf)) as (t & tn & HS & Hm1 & Htn & Hsub & Htick).
  unfold undelivered.
  destruct (State (St m)) eqn:Ek; try discriminate E1; try discriminate E2;
    rewrite HS; cbn; rewrite Ek; cbn; intros [= <-]; split; cbn;
    try (apply ticked_wf; [done|done|rewrite Ek; cbn; auto]);
    try (apply (ticked_covered t tn); [done|done|set_solver|]; intros Hq; try discriminate Hq).
  - apply queued_wf; [done..|]. by destruct Hm1 as (_ & _ & Hp).
  - exists ""%string. set_solver.
  - destruct Hc as [_ Hr]. destruct Hr as [who Hw]; [by rewrite Ek|].
    exists who. rewrite elem_of_app. left. by rewrite list_elem_of_filter.
  - destruct Hc as [_ Hr]. destruct Hr as [who Hw]; [by rewrite Ek|].
    exists who. rewrite elem_of_app. left. by rewrite list_elem_of_filter.
Qed.

Lemma handle_good ev m m' out :
  machine_ok m -> event_ok ev -> good m out -> Actions m = [] ->
  handle ev m = Ret (m', None) -> good m' (undelivered ev out).
Proof.
  intros Hm Hev Hg Ha. destruct ev; cbn -[undelivered];
    try (intros [= <-]).
  - by apply OnJobEnabled_good.
  - by apply OnJobDisabled_good.
  - by apply OnTimerTick_good.
  - by apply OnInvocationStarting_good.
  - destruct (OnInvocationStarted m invocationID) as [m1|] eqn:E; [|done].
    intros [= <-]. eapply OnInvocationStarted_good; eauto.
  - by apply OnInvocationDone_good.
  - by apply OnScheduleChange_good.
  - intros [=]. by eapply OnManualInvocation_good.
  - by apply OnManualAbort_good.
Qed.

(** * Jobs and their task queues

    A job together with the tasks submitted for it.  The queues deliver at
    least once: processing a tick may or may not remove it ([world_step]
    only asks that nothing but the delivered tick disappears), and a failed
    transaction leaves both untouched. *)
Record World := { job : JobState; tasks : list Action }.

Definition initial : World := {| job := cleanState JobStateDisabled; tasks := [] |}.

Inductive world_step (ev : Event) (w : World) : World -> Prop :=
| step_commit sched now nonce fails js acts rest :
    sched_ok sched -> 0 < now -> (forall i, 0 < nonce i) -> event_ok ev ->
    rollSM (Some sched) now nonce fails (job w) (handle ev) = Ret (Ok (js, acts)) ->
    undelivered ev (tasks w) ⊆ rest ->
    world_step ev w {| job := js; tasks := rest ++ acts |}
| step_fail sched now nonce fails e :
    rollSM sched now nonce fails (job w) (handle ev) = Ret (Err e) ->
    world_step ev w w.

Inductive reachable : World -> Prop :=
| reach_init : reachable initial
| reach_step ev w w' : reachable w -> world_step ev w w' -> reachable w'.

Lemma rollSM_good ev sched now nonce fails s js acts out :
  sched_ok sched -> 0 < now -> (forall i, 0 < nonce i) -> event_ok ev ->
  wf_state s -> covered s out ->
  rollSM (Some sched) now nonce fails s (handle ev) = Ret (Ok (js, acts)) ->
  wf_state js /\ covered js (undelivered ev out ++ acts).
Proof.
  intros Hs Hn Hp Hev Hwf Hc. unfold rollSM.
  destruct (handle _ _) as [[m' [e|]]|] eqn:Eh; cbn; [done| |done].
  case_match; [done|]. intros [= <- <-].
  eapply handle_good in Eh; [exact Eh| | | |]; try done.
  split; [done|]. cbn. by rewrite app_nil_r.
Qed.

Lemma reachable_good w : reachable w -> wf_state (job w) /\ covered (job w) (tasks w).
Proof.
  induction 1 as [|ev w w' _ [IHw IHc] Hstep].
  - split; [apply wf_clean|]. split; [done|]. intros Hq. discriminate Hq.
  - destruct Hstep as [sched now nonce fails js acts rest Hs Hn Hp Hev Hr Hsub|]; [|done].
    eapply rollSM_good in Hr as [? Hc]; [|done..]. split; [done|]. cbn.
    eapply covered_mono; [|exact Hc]. set_solver.
Qed.

Lemma scheduleTick_kind m : State (St (scheduleTick m)) = State (St m).
Proof. unfold scheduleTick; cbn. by repeat case_match. Qed.

Lemma rollSM_panic sched now nonce fails s cb :
  rollSM (Some sched) now nonce fails s cb = Panic <->
  cb {| Now := now; Sched := sched; Nonce := nonce; nonces := 0; St := s; Actions := [] |} = Panic.
Proof.
  unfold rollSM. destruct (cb _) as [[m' [e|]]|]; cbn; [done| |done].
  case_match; split; intros; discriminate.
Qed.

Lemma OnTimerTick_no_panic m n : OnTimerTick m n <> Panic.
Proof.
  unfold OnTimerTick. case_match eqn:E1; [done|]. case_match eqn:E2; [done|].
  case_match; [done|]. case_match; [done|].
  fold (advanceTick m).
  assert (Hk : State (St (advanceTick m)) = State (St m)).
  { unfold advanceTick. case_match; [apply scheduleTick_kind|done]. }
  rewrite Hk. by destruct (State (St m)).
Qed.
End Machine.

(** * Properties of the job state machine *)

(** Every job state that the engine can store is well formed: a job waits
    for a tick when it is scheduled, unless its schedule had no instant, has no
    invocation while it waits, has one while it is queued or running, is SUSPENDED
    only for the distant future, counts overruns only in OVERRUN and SLOW_QUEUE, and
    is in its initial state when disabled.  By induction over every sequence of
    events, schedules, clocks, nonces and task queue failures. *)
Theorem reachable_job_state_wf jitter barren w :
  (forall seed i, 0 <= i -> 0 <= jitter seed i) ->
  reachable jitter barren w -> wf_state barren (job w).
Proof. intros Hj Hr. by apply (reachable_good jitter barren Hj). Qed.

(** No job gets stuck: a SCHEDULED job has an outstanding timer task
    that carries its tick nonce and fires at its tick time, unless a schedule had no
    instant, and a job in QUEUED or SLOW_QUEUE always has an outstanding request to
    start its invocation. *)
Theorem waiting_job_has_task jitter barren w :
  (forall seed i, 0 <= i -> 0 <= jitter seed i) ->
  reachable jitter barren w ->
  (State (job w) = JobStateScheduled -> ~ barren ->
     TickLaterAction (TickTime (job w)) (TickNonce (job w)) ∈ tasks w) /\
  (is_queued (State (job w)) = true ->
     exists who, StartInvocationAction (InvocationNonce (job w)) who ∈ tasks w).
Proof.
  intros Hj Hr. destruct (reachable_good jitter barren Hj w Hr) as [Hwf [Ht Hq]]. split; [|done].
  intros Hk Hb. apply Ht. destruct (wf_scheduled _ _ Hwf Hk) as [[H0 Hd]|]; [|done].
  unfold awaited_tick. by rewrite (proj2 (Z.eqb_neq _ _) H0), (proj2 (Z.eqb_neq _ _) Hd).
Qed.

(** The call to [impossible] is dead code of [OnTimerTick]; a transition
    panics exactly when [OnInvocationStarted] names the current invocation of a
    job that is not queued, e.g. when it is delivered twice. *)
Theorem transition_panics_iff jitter ev sched now nonce fails s :
  rollSM (Some sched) now nonce fails s (handle jitter ev) = Panic <->
  ev = EvInvocationStarted (InvocationID s) /\ is_queued (State s) = false.
Proof.
  rewrite rollSM_panic. destruct ev; cbn; try (split; [done|by intros [? _]]).
  - split; [|by intros [? _]]. intros H. by apply OnTimerTick_no_panic in H.
  - unfold OnInvocationStarted; cbn. case_match eqn:E; bool_to_prop; cbn.
    + subst. destruct (State s); split; try done; by intros [_ ?].
    + split; [done|]. intros [[= H] _]. congruence.
Qed.

(** Cancelled, stale and repeated events change nothing and submit
    nothing: a tick whose nonce is not the current one, the end of an invocation
    that is not the current one, a start request the job no longer expects. *)
Theorem stale_events_ignored jitter ev sched now nonce fails s :
  match ev with
  | EvTimerTick n => TickNonce s <> n \/ State s = JobStateDisabled \/ State s = JobStateSuspended
  | EvInvocationStarting n _ _ => IsExpectingInvocation s n = false
  | EvInvocationStarted id => InvocationID s <> id
  | EvInvocationDone id => InvocationID s <> id \/ is_running (State s) = false
  | EvJobEnabled => State s <> JobStateDisabled
  | EvManualAbort => InvocationNonce s = 0
  | EvScheduleChange => State s = JobStateDisabled
  | _ => False
  end ->
  rollSM (Some sched) now nonce fails s (handle jitter ev) = Ret (Ok (s, [])).
Proof.
  unfold rollSM. destruct ev; cbn; try done.
  - unfold OnJobEnabled; cbn. by destruct (State s).
  - unfold OnTimerTick; cbn.
    intros [Hn|[-> | ->]]; [|done|done]. apply Z.eqb_neq in Hn. rewrite Hn.
    by repeat case_match.
  - unfold OnInvocationStarting; cbn. by intros ->.
  - unfold OnInvocationStarted; cbn. intros Hn. apply Z.eqb_neq in Hn. by rewrite Hn.
  - unfold OnInvocationDone; cbn. intros [Hn| ->]; [|done].
    apply Z.eqb_neq in Hn. rewrite Hn. by destruct (negb (is_running _)).
  - unfold OnScheduleChange; cbn. by intros ->.
  - unfold OnManualAbort; cbn. by intros ->.
Qed.

(** * Schedules without a next instant

    A cron expression that matches at 10 and then never again. *)
Module Barren.
Definition once : Schedule :=
  {| randSeed := 1; cronExpr := Some (fun now => if now <? 10 then 10 else 0); interval := 0; triggered := false |}.
Definition each_second : Schedule := {| randSeed := 1; cronExpr := None; interval := 1000000000; triggered := false |}.
Definition manual : Schedule := {| randSeed := 1; cronExpr := None; interval := 0; triggered := true |}.
Definition roll (s : Schedule) (now : Time) (ev : Event) (st : JobState) : JobState * list Action :=
  match rollSM (Some s) now (fun i => now * 100 + Z.of_nat i) (fun _ => false) st (handle (fun _ _ => 0) ev) with
  | Ret (Ok r) => r | _ => (st, []) end.
Definition enabled : JobState := (roll once 1 EvJobEnabled (cleanState JobStateDisabled)).1.
Definition ticked : JobState * list Action := roll once 10 (EvTimerTick (TickNonce enabled)) enabled.
Definition done : JobState :=
  let s := (roll once 11 (EvInvocationStarting (InvocationNonce ticked.1) 7 0) ticked.1).1 in
  (roll once 13 (EvInvocationDone 7) (roll once 12 (EvInvocationStarted 7) s).1).1.

(** The last tick asks for a tick at the zero time, which comes at once: it starts
    another invocation, or counts as an overrun of the one that was started. *)
Example tick_at_zero : TickLaterAction 0 1000 ∈ ticked.2 /\ State done = JobStateScheduled /\
  State (roll once 14 (EvTimerTick 1000) done).1 = JobStateQueued /\ State (roll once 14 (EvTimerTick 1000) ticked.1).1 = JobStateSlowQueue.
Proof. split; [by left|]. vm_compute. by repeat split. Qed.

(** A job that was enabled when no instant was left stays SCHEDULED without a tick
    also when its schedule changes to a relative one; and on a change to "triggered"
    it is not SUSPENDED. *)
Definition late : JobState := (roll once 20 EvJobEnabled (cleanState JobStateDisabled)).1.
Example change_ignored : State late = JobStateScheduled /\ roll each_second 21 EvScheduleChange late = (late, []) /\
  State (roll manual 21 EvScheduleChange late).1 = JobStateScheduled /\ TickTime (roll manual 21 EvScheduleChange late).1 = DistantFuture.
Proof. vm_compute. by repeat split. Qed.
End Barren.

(** * Witnesses *)
Section Witness.
Definition cron_minutely : Schedule :=
  {| randSeed := 1; cronExpr := Some (fun now => now + 60000000000);
     interval := 0; triggered := false |}.
Definition no_jitter (seed i : Z) : Z := 0.
Definition witness_world : World :=
  {| job := set_Tick 60000000001 7 (cleanState JobStateScheduled);
     tasks := [TickLaterAction 60000000001 7] |}.

Lemma cron_minutely_ok : sched_ok False cron_minutely.
Proof. split; [done|]. intros next now [= <-] _. left. lia. Qed.

Lemma witness_world_reachable : reachable no_jitter False witness_world.
Proof.
  eapply (reach_step _ _ EvJobEnabled); [apply reach_init|].
  change witness_world with {| job := job witness_world; tasks := [] ++ tasks witness_world |}.
  eapply (step_commit _ _ _ _ cron_minutely 1 (fun _ => 7) (fun _ => false));
    [apply cron_minutely_ok|lia|lia|done|vm_compute; reflexivity|set_solver].
Qed.
End Witness.

Lemma reachable_job_state_wf_witness : wf_state False (job witness_world).
Proof.
  apply (reachable_job_state_wf no_jitter); [done|apply witness_world_reachable].
Defined.

Lemma waiting_job_has_task_witness :
  TickLaterAction 60000000001 7 ∈ [TickLaterAction 60000000001 7].
Proof.
  exact (proj1 (waiting_job_has_task no_jitter False witness_world
    (fun _ _ _ => Z.le_refl 0) witness_world_reachable) eq_refl id).
Defined.

Lemma stale_events_ignored_witness :
  rollSM (Some cron_minutely) 5 (fun _ => 7) (fun _ => false) (job witness_world)
    (handle no_jitter (EvTimerTick 6)) = Ret (Ok (job witness_world, [])).
Proof. apply stale_events_ignored. cbn. left. lia. Defined.
