(* ===== verification/DebugLog.v ===== *)
(** The debug log of an invocation: debugLog and trimDebugLog of
    scheduler/appengine/engine/engine.go. *)
From S2P Require Import Prelude.
Local Open Scope nat_scope.

Definition newline : Z := 10.
Definition debugLogSizeLimit : nat := Z.to_nat 200000.
Definition debugLogTailLines : nat := 100.

(** "--- the log has been cut here ---" *)
Definition cutMsg : bytes :=
  [45; 45; 45; 32; 116; 104; 101; 32; 108; 111; 103; 32; 104; 97; 115; 32; 98; 101; 101; 110; 32; 99; 117; 116; 32;
   104; 101; 114; 101; 32; 45; 45; 45]%Z.

(** [strings.LastIndex(l, "\n")], [strings.Split] and [strings.Count] on
    newlines. *)
Fixpoint LastIndex (l : bytes) : option nat :=
  match l with
  | [] => None
  | b :: l =>
      match LastIndex l with
      | Some i => Some (S i)
      | None => if (b =? newline)%Z then Some 0 else None
      end
  end.
Fixpoint split_lines (l : bytes) : list bytes :=
  match l with
  | [] => [[]]
  | b :: l =>
      if (b =? newline)%Z then [] :: split_lines l
      else match split_lines l with [] => [[b]] | x :: xs => (b :: x) :: xs end
  end.
Definition count_lines (l : bytes) : nat := length (filter (fun b => b = newline) l).

(** The [n]-th newline from position [start] backwards; a result that is not
    positive gives up. *)
Fixpoint tail_start (n : nat) (log : bytes) (start : nat) : option nat :=
  match n with
  | O => Some start
  | S n =>
      match LastIndex (take (start - 1) log) with
      | None | Some O => None
      | Some i => tail_start n log i
      end
  end.

(** The lines joined again, without the second of two cut messages. *)
Fixpoint join_lines (prev : bytes) (lines : list bytes) : bytes :=
  match lines with
  | [] => []
  | l :: ls => (if bool_decide (prev = cutMsg /\ l = cutMsg) then [] else newline :: l) ++ join_lines l ls
  end.

Section Trim.
(** The limit and the lines kept at the end, 200000 and 100 in the code. *)
Context (limit tailLines : nat).

Definition giveUp (log : bytes) : bytes :=
  take (limit - length cutMsg - 2) log ++ [newline] ++ cutMsg ++ [newline].

Definition trim (log : bytes) : bytes :=
  if length log <=? limit then log
  else match tail_start tailLines log (length log) with
  | None => giveUp log
  | Some tailStart =>
      let tailStart := S tailStart in
      let tailLen := length log - tailStart + length cutMsg + 1 in
      if limit <=? tailLen then giveUp log
      else match LastIndex (take (limit - tailLen) log) with
      | None | Some O => giveUp log
      | Some headEnd =>
          if count_lines (take headEnd log) <? 50 then giveUp log
          else
            match split_lines (take headEnd log) ++ [cutMsg] ++ split_lines (drop tailStart log) with
            | [] => []
            | l :: ls => l ++ join_lines l ls
            end
      end
  end.
End Trim.

Definition trimDebugLog : bytes -> bytes := trim debugLogSizeLimit debugLogTailLines.

(** * The limit holds *)
Lemma LastIndex_lt l i : LastIndex l = Some i -> i < length l.
Proof.
  revert i. induction l as [|b l IH]; intros i; cbn; [done|]. destruct (LastIndex l) as [j|].
  - intros [= <-]. specialize (IH j eq_refl). lia.
  - case_match; [|done]. intros [= <-]. lia.
Qed.

Definition total (ls : list bytes) : nat := sum_list (map (fun l => S (length l)) ls).

Lemma split_lines_total l : total (split_lines l) = S (length l).
Proof.
  unfold total. induction l as [|b l IH]; [done|]. cbn. case_match; cbn; [by rewrite IH|].
  destruct (split_lines l) as [|x xs]; cbn in *; [done|]. lia.
Qed.

Lemma join_lines_total prev ls : length (join_lines prev ls) <= total ls.
Proof.
  unfold total. revert prev. induction ls as [|l ls IH]; intros prev; cbn; [lia|].
  rewrite length_app. specialize (IH l). case_match; cbn; lia.
Qed.

Lemma giveUp_length limit log : length cutMsg + 2 <= limit -> length (giveUp limit log) <= limit.
Proof. intros H. unfold giveUp. rewrite !length_app, length_take. cbn [length] in *. lia. Qed.

Lemma tail_start_le n log start t : tail_start n log start = Some t -> t <= start.
Proof.
  revert start. induction n as [|n IH]; intros start; cbn; [intros [= ->]; lia|].
  destruct (LastIndex _) as [[|i]|] eqn:E; [done| |done]. intros H%IH.
  apply LastIndex_lt in E. rewrite length_take in E. lia.
Qed.

Lemma total_app ls ls' : total (ls ++ ls') = total ls + total ls'.
Proof. unfold total. rewrite map_app. induction (map _ ls) as [|x xs IH]; cbn; lia. Qed.

Lemma trim_length limit tailLines log : length cutMsg + 2 <= limit -> length (trim limit tailLines log) <= limit.
Proof.
  intros Hl. unfold trim. destruct (Nat.leb_spec (length log) limit) as [|Hlog]; [done|].
  pose proof (giveUp_length limit log Hl) as Hg.
  destruct (tail_start _ _ _) as [t|] eqn:Et; [|done].
  set (tailLen := length log - S t + length cutMsg + 1).
  destruct (Nat.leb_spec limit tailLen) as [|Ht]; [done|].
  destruct (LastIndex _) as [[|h]|] eqn:Eh; [done| |done]. case_match; [done|].
  apply LastIndex_lt in Eh. rewrite length_take in Eh.
  set (ls := split_lines (take (S h) log) ++ [cutMsg] ++ split_lines (drop (S t) log)).
  assert (Htot : total ls = S (S h) + (S (length cutMsg) + S (length log - S t))).
  { unfold ls. rewrite !total_app, !split_lines_total, length_take, length_drop.
    change (total [cutMsg]) with (S (length cutMsg) + 0). lia. }
  destruct ls as [|l ls']; [cbn; lia|]. rewrite length_app.
  pose proof (join_lines_total l ls'). change (total (l :: ls')) with (S (length l) + total ls') in Htot.
  subst tailLen. lia.
Qed.

(** The debug log of an invocation is bounded: whatever was appended to it, after
    [trimDebugLog] it is at most [debugLogSizeLimit] bytes long.  A log within
    the limit is left alone, so trimming twice is trimming once. *)
Theorem trimDebugLog_bounded log :
  length (trimDebugLog log) <= debugLogSizeLimit /\
  (length log <= debugLogSizeLimit -> trimDebugLog log = log) /\
  trimDebugLog (trimDebugLog log) = trimDebugLog log.
Proof.
  assert (Hb : forall l, length (trimDebugLog l) <= debugLogSizeLimit)
    by (intros l; apply trim_length; apply Nat2Z.inj_le; vm_compute; done).
  assert (Hid : forall l, length l <= debugLogSizeLimit -> trimDebugLog l = l)
    by (intros l Hl; unfold trimDebugLog, trim; by apply Nat.leb_le in Hl as ->).
  split; [apply Hb|split; [apply Hid|apply Hid, Hb]].
Qed.

Lemma trimDebugLog_bounded_witness : trimDebugLog [newline] = [newline].
Proof.
  destruct (trimDebugLog_bounded [newline]) as (_ & H & _). apply H. apply Nat2Z.inj_le. vm_compute. discriminate.
Defined.
