(* ===== verification/Engine.v ===== *)
(** The scheduler engine: scheduler/appengine/engine/engine.go on top of the
    job state machine, with the parsing of schedules (schedule/schedule.go) and
    the interface to the task managers (task/task.go).

    A [Service] is the datastore (jobs and invocations), the task queues and
    the requests that are being handled.  A handler that calls a task manager
    is a session: the manager's code is a program over the controller it is
    given, and other requests run between its steps. *)
From S2P Require Import Prelude SchedulerSM DebugLog.
Local Open Scope Z_scope.

(** * Errors

    [transientTag] tells whether [transient.Tag] is applied.  [errSkipPut] is
    the signal of transaction callbacks to [txn]. *)
Inductive errmsg :=
| ErrNoSuchJob | ErrNoSuchInvocation | errSkipPut
| errJobDisabled            (* "the job is disabled" *)
| errNoInvocationID         (* "could not find available invocationID ..." *)
| errBadJobID               (* "unexpected jobID format" *)
| errStateMachine (e : SMError)
| errUpdateConflict
| errInvocationGone         (* "invocation is suddenly gone" *)
| errUnmarshal              (* "failed to unmarshal the task" *)
| errNoManager              (* "TaskManager is unexpectedly missing" *)
| errNotMoved               (* "LaunchTask didn't move invocation out of StatusStarting" *)
| errTooManyRetries
| errOther (msg : string).  (* errors of the datastore, the queues and the managers *)

Record error := { what : errmsg; transientTag : bool }.

#[export] Instance errmsg_eq_dec : EqDecision errmsg.
Proof. solve_decision. Defined.
#[export] Instance error_eq_dec : EqDecision error.
Proof. solve_decision. Defined.

Definition fatalError (m : errmsg) : error := {| what := m; transientTag := false |}.
Definition transientError (m : errmsg) : error := {| what := m; transientTag := true |}.

(** [transient.Tag.In] and [transient.Tag.Apply]; a nil error has no tag. *)
Definition TagIn (err : option error) : bool :=
  match err with Some e => transientTag e | None => false end.
Definition TagApply (e : error) : error := transientError (what e).

(** * Schedules (schedule.go) *)

(** fnv.New64, the seed of a job's schedule. *)
Definition fnv64 (s : string) : Z :=
  foldl (fun h c => Z.lxor (u64 (h * 1099511628211)) (Z.of_nat (nat_of_ascii c)))
    14695981039346656037 (list_ascii_of_string s).

(** [strings.SplitN(s, " ", n)]. *)
Fixpoint splitN_space (n : nat) (s : string) : list string :=
  match n with
  | O | S O => [s]
  | S n' =>
      (fix go (s : string) : list string :=
        match s with
        | EmptyString => [EmptyString]
        | String c s =>
            if ascii_dec c " " then EmptyString :: splitN_space n' s
            else match go s with
                 | x :: xs => String c x :: xs
                 | [] => [String c EmptyString]
                 end
        end) s
  end.

Section Parse.
(** [time.ParseDuration], in nanoseconds, and [cronexpr.Parse], which gives
    the method [Next] of the expression. *)
Context (ParseDuration : string -> option Z) (parseCronexpr : string -> option (Time -> Time)).

Definition parseWithSchedule (expr : string) (seed : Z) : option Schedule :=
  match splitN_space 3 expr with
  | [t0; t1; t2] =>
      if String.eqb t0 "with" && String.eqb t2 "interval" then
        match ParseDuration t1 with
        | Some i =>
            if i <? 0 then None
            else Some {| randSeed := seed; cronExpr := None; interval := i; triggered := false |}
        | None => None
        end
      else None
  | _ => None
  end.

Definition parseCronSchedule (expr : string) (seed : Z) : option Schedule :=
  match parseCronexpr expr with
  | Some next => Some {| randSeed := seed; cronExpr := Some next; interval := 0; triggered := false |}
  | None => None
  end.

Definition Parse (expr : string) (seed : Z) : option Schedule :=
  if String.eqb expr "triggered"
  then Some {| randSeed := seed; cronExpr := None; interval := 0; triggered := true |}
  else
    let toParse := if String.eqb expr "continuously" then "with 0s interval" else expr in
    if HasPrefix toParse "with " then parseWithSchedule toParse seed
    else parseCronSchedule toParse seed.
End Parse.

(** * Task statuses (task.go) *)
Definition Status := string.
Definition StatusStarting : Status := "STARTING".
Definition StatusRunning : Status := "RUNNING".
Definition StatusSucceeded : Status := "SUCCEEDED".
Definition StatusFailed : Status := "FAILED".
Definition StatusOverrun : Status := "OVERRUN".
Definition StatusAborted : Status := "ABORTED".

Definition Final (s : Status) : bool :=
  String.eqb s StatusSucceeded || String.eqb s StatusFailed ||
  String.eqb s StatusOverrun || String.eqb s StatusAborted.

(** [task.State], the mutable part of an invocation. *)
Record TaskState := { tsStatus : Status; tsTaskData : bytes; tsViewURL : bytes }.

Definition with_tsStatus (s : Status) (t : TaskState) : TaskState :=
  {| tsStatus := s; tsTaskData := tsTaskData t; tsViewURL := tsViewURL t |}.

(** * Entities *)
#[export] Instance JobState_eq_dec : EqDecision JobState.
Proof. solve_decision. Defined.

(** [catalog.JobFlavor]. *)
Inductive JobFlavor := JobFlavorPeriodic | JobFlavorTriggered | JobFlavorTrigger.
#[export] Instance JobFlavor_eq_dec : EqDecision JobFlavor.
Proof. solve_decision. Defined.

(** [catalog.Definition]. *)
Record JobDef := {
  defJobID : string;
  defFlavor : JobFlavor;
  defRevision : string;
  defRevisionURL : string;
  defSchedule : string;
  defTask : bytes;
}.

Record Job := {
  JobID : string;
  ProjectID : string;
  Flavor : JobFlavor;
  Enabled : bool;
  Paused : bool;
  Revision : string;
  RevisionURL : string;
  JobSchedule : string;
  JobTask : bytes;
  JobSt : JobState;
}.
#[export] Instance Job_eq_dec : EqDecision Job.
Proof. solve_decision. Defined.

(** The zero state of a job and [Job{JobID: id}], what a transaction starts
    from when there is no such entity. *)
Definition newJob (id : string) : Job :=
  {| JobID := id; ProjectID := ""; Flavor := JobFlavorPeriodic; Enabled := false;
     Paused := false; Revision := ""; RevisionURL := ""; JobSchedule := "";
     JobTask := []; JobSt := cleanState JobStateDisabled |}.

Definition with_JobSt (s : JobState) (j : Job) : Job :=
  {| JobID := JobID j; ProjectID := ProjectID j; Flavor := Flavor j; Enabled := Enabled j;
     Paused := Paused j; Revision := Revision j; RevisionURL := RevisionURL j;
     JobSchedule := JobSchedule j; JobTask := JobTask j; JobSt := s |}.
Definition with_Enabled (b : bool) (j : Job) : Job :=
  {| JobID := JobID j; ProjectID := ProjectID j; Flavor := Flavor j; Enabled := b;
     Paused := Paused j; Revision := Revision j; RevisionURL := RevisionURL j;
     JobSchedule := JobSchedule j; JobTask := JobTask j; JobSt := JobSt j |}.
Definition with_Paused (b : bool) (j : Job) : Job :=
  {| JobID := JobID j; ProjectID := ProjectID j; Flavor := Flavor j; Enabled := Enabled j;
     Paused := b; Revision := Revision j; RevisionURL := RevisionURL j;
     JobSchedule := JobSchedule j; JobTask := JobTask j; JobSt := JobSt j |}.

Definition effectiveSchedule (j : Job) : string :=
  if Paused j then "triggered" else JobSchedule j.

Definition matches (j : Job) (def : JobDef) : bool :=
  bool_decide (JobID j = defJobID def) && bool_decide (Flavor j = defFlavor def) &&
  bool_decide (JobSchedule j = defSchedule def) && bool_decide (JobTask j = defTask def).

(** A job as [updateJob] creates it, and the fields it takes from the
    definition. *)
Definition jobFromDef (project : string) (def : JobDef) : Job :=
  {| JobID := defJobID def; ProjectID := project; Flavor := defFlavor def; Enabled := false;
     Paused := false; Revision := ""; RevisionURL := ""; JobSchedule := defSchedule def;
     JobTask := defTask def; JobSt := cleanState JobStateDisabled |}.
Definition with_def (def : JobDef) (j : Job) : Job :=
  {| JobID := JobID j; ProjectID := ProjectID j; Flavor := defFlavor def; Enabled := true;
     Paused := Paused j; Revision := defRevision def; RevisionURL := defRevisionURL def;
     JobSchedule := defSchedule def; JobTask := defTask def; JobSt := JobSt j |}.

Record Invocation := {
  InvID : Z;
  JobKey : string;
  Started : Time;
  Finished : Time;
  InvNonce : Z;
  InvTriggeredBy : string;
  InvRevision : string;
  InvRevisionURL : string;
  InvTask : bytes;
  InvDebugLog : bytes;
  RetryCount : Z;
  InvStatus : Status;
  ViewURL : bytes;
  TaskData : bytes;
  MutationsCount : Z;
}.
#[export] Instance Invocation_eq_dec : EqDecision Invocation.
Proof. solve_decision. Defined.

(** The mutable fields of an invocation, all at once. *)
Definition update_inv (status : Status) (finished : Time) (log : bytes) (url : bytes)
    (data : bytes) (count : Z) (i : Invocation) : Invocation :=
  {| InvID := InvID i; JobKey := JobKey i; Started := Started i; Finished := finished;
     InvNonce := InvNonce i; InvTriggeredBy := InvTriggeredBy i;
     InvRevision := InvRevision i; InvRevisionURL := InvRevisionURL i; InvTask := InvTask i;
     InvDebugLog := log; RetryCount := RetryCount i; InvStatus := status; ViewURL := url;
     TaskData := data; MutationsCount := count |}.
Definition with_InvDebugLog (log : bytes) (i : Invocation) : Invocation :=
  update_inv (InvStatus i) (Finished i) log (ViewURL i) (TaskData i) (MutationsCount i) i.
Definition with_finish (status : Status) (t : Time) (i : Invocation) : Invocation :=
  update_inv status t (InvDebugLog i) (ViewURL i) (TaskData i) (MutationsCount i) i.
Definition with_MutationsCount (n : Z) (i : Invocation) : Invocation :=
  update_inv (InvStatus i) (Finished i) (InvDebugLog i) (ViewURL i) (TaskData i) n i.

(** Keys of invocations: the job's ID and the invocation's. *)
Notation InvKey := (string * Z)%type.
Definition inv_key (i : Invocation) : InvKey := (JobKey i, InvID i).

Record invocationTimer := { Delay : Z; TimerName : string; TimerPayload : bytes }.
#[export] Instance invocationTimer_eq_dec : EqDecision invocationTimer.
Proof. solve_decision. Defined.

(** [actionTaskPayload], with the time a task is due in [When] for ticks and
    in [ETA] for the timers of an invocation. *)
Inductive Task :=
| JobAction (job : string) (a : Action)
| InvTimer (job : string) (inv : Z) (ETA : Time) (timer : invocationTimer).
#[export] Instance Task_eq_dec : EqDecision Task.
Proof. solve_decision. Defined.

(** * What a request meets

    The datastore and the queues may fail at each call; [fault] says where and
    how.  A commit may fail, and then have been applied or not. *)
Inductive Site :=
| SGetJob | SExists | SPutInv | SGetPrev | SPutPrev | SGetInv | SEnqueueJob | SEnqueueTimers | SPutJob.
Inductive Commit :=
| Committed
| CommitFailed (e : error) (applied : bool).

(** [nonce r i] is the [i]-th nonce that the [r]-th state machine of a
    transaction draws, [suffix i] the [i]-th suffix drawn for an ID. *)
Record Env := {
  now : Time;
  nonce : nat -> nat -> Z;
  suffix : nat -> Z;
  fault : Site -> option (string * bool);
  commit : Commit;
}.

(** The error of a failing call; whether it is tagged is up to the call. *)
Definition failure (e : Env) (s : Site) : option error :=
  match fault e s with
  | Some (msg, tag) => Some {| what := errOther msg; transientTag := tag |}
  | None => None
  end.

(** * Task managers (task.go)

    What a manager does with the controller it is given.  [External] is any
    call to the outside, with its answer; [PrepareTopic] and [GetClient] are
    such calls. *)
Inductive Prog :=
| Return (err : option error)
| GetState (k : TaskState -> Prog)
| SetState (s : TaskState) (k : Prog)
| DebugLog (line : bytes) (k : Prog)
| AddTimer (t : invocationTimer) (k : Prog)
| Save (k : option error -> Prog)
| External (k : bytes -> Prog).

(** [task.Manager]: the methods the engine calls. *)
Record Manager (Msg : Type) := {
  LaunchTask : Msg -> Invocation -> Prog;
  AbortTask : Msg -> Invocation -> Prog;
  HandleNotification : Msg -> Invocation -> bytes -> Prog;
  HandleTimer : Msg -> Invocation -> string -> bytes -> Prog;
}.
Arguments LaunchTask {Msg}.
Arguments AbortTask {Msg}.
Arguments HandleNotification {Msg}.
Arguments HandleTimer {Msg}.

(** [catalog.Catalog], as far as the engine uses it. *)
Class Catalog := {
  TaskMsg : Type;
  UnmarshalTask : bytes -> option TaskMsg;
  GetTaskManager : TaskMsg -> option (Manager TaskMsg);
}.

(** [taskController]. *)
Record Controller := {
  saved : Invocation;
  state : TaskState;
  ctlDebugLog : bytes;
  timers : list invocationTimer;
}.
Definition with_state (s : TaskState) (c : Controller) : Controller :=
  {| saved := saved c; state := s; ctlDebugLog := ctlDebugLog c; timers := timers c |}.
Definition with_debugLog (l : bytes) (c : Controller) : Controller :=
  {| saved := saved c; state := state c; ctlDebugLog := l; timers := timers c |}.
Definition with_timers (l : list invocationTimer) (c : Controller) : Controller :=
  {| saved := saved c; state := state c; ctlDebugLog := ctlDebugLog c; timers := l |}.
Definition with_Status (s : Status) (c : Controller) : Controller :=
  with_state (with_tsStatus s (state c)) c.

Definition populateState (i : Invocation) : TaskState :=
  {| tsStatus := InvStatus i; tsTaskData := TaskData i; tsViewURL := ViewURL i |}.
Definition newController (i : Invocation) : Controller :=
  {| saved := i; state := populateState i; ctlDebugLog := []; timers := [] |}.

(** * The service

    What is being handled: a manager's program under the handler that called
    it, [recordOverrun] between its two datastore calls, [AbortJob] between
    its transaction and the call of [AbortInvocation].  [t] is the queue's task
    the request came from. *)
Inductive Handler :=
| HLaunch (retryCount : Z)
| HNoManager (e : error)    (* startInvocation when controllerForInvocation failed *)
| HTimer
| HPubSub
| HAbort.

Inductive Session :=
| Running (t : option Task) (h : Handler) (c : Controller) (p : Prog)
| PutOverrun (t : Task) (i : Invocation)
| PendingAbort (job : string) (inv : Z) (who : string).

(** [dropped] is a record of the tasks that were given up, with the error. *)
Record Service := {
  jobs : gmap string Job;
  invs : gmap InvKey Invocation;
  queue : list Task;
  sessions : gmap nat Session;
  dropped : list (Task * error);
}.
Definition empty_service : Service :=
  {| jobs := ∅; invs := ∅; queue := []; sessions := ∅; dropped := [] |}.
Definition with_sessions (s : gmap nat Session) (w : Service) : Service :=
  {| jobs := jobs w; invs := invs w; queue := queue w; sessions := s; dropped := dropped w |}.
Definition with_invs (i : gmap InvKey Invocation) (w : Service) : Service :=
  {| jobs := jobs w; invs := i; queue := queue w; sessions := sessions w; dropped := dropped w |}.

(** * The debug log

    The lines the engine writes, rendered by [fmt.Sprintf]. *)
Inductive LogMsg :=
| MsgInitiated (attempt : Z)
| MsgManuallyTriggered (who : string)
| MsgTooManyAttempts
| MsgNewInvocation (id : Z)
| MsgFinished (elapsed : Z) (s : Status)
| MsgWillRetry
| MsgIgnoringTimer (name : string)
| MsgAbortedBy (who : string)
| MsgFatalTimer (e : error)
| MsgFatalPubSub (e : error)
| MsgNoController (e : error)
| MsgSchedulingTimer (name : string) (delay : Z)
| MsgOverrunStarting
| MsgOverrunRunning (id : Z)
| MsgTotalOverruns (n : Z).

(** [time.Format("[15:04:05.000] ")] of an instant. *)
Definition two_digits (n : Z) : bytes := [48 + n / 10 mod 10; 48 + n mod 10].
Definition clockPrefix (t : Time) : bytes :=
  let ms := t / 1000000 in
  [91] ++ two_digits (ms / 3600000 mod 24) ++ [58] ++ two_digits (ms / 60000 mod 60) ++ [58] ++
  two_digits (ms / 1000 mod 60) ++ [46] ++ [48 + ms / 100 mod 10] ++ two_digits (ms mod 100) ++ [93; 32].

Definition debugLog (t : Time) (log line : bytes) : bytes :=
  log ++ clockPrefix t ++ line ++ [newline].

(** * Transactions *)

(** A transaction in progress: the job it was opened for, the invocations and
    tasks it has read and written, the state machines it has run, and the
    variables [V] that its callback shares with the caller. *)
Record Tx (V : Type) := {
  txJob : Job;
  txInvs : gmap InvKey Invocation;
  txTasks : list Task;
  txRolls : nat;
  txVars : V;
}.
Arguments txJob {V}.
Arguments txInvs {V}.
Arguments txTasks {V}.
Arguments txRolls {V}.
Arguments txVars {V}.

(** The callbacks of [txn]: they read and write the transaction, and return an
    error or panic. *)
Definition TM (V A : Type) : Type := Tx V -> outcome (Tx V * result error A).
#[export] Instance TM_ret {V} : MRet (TM V) := fun _ a s => Ret (s, Ok a).
#[export] Instance TM_bind {V} : MBind (TM V) := fun _ _ f m s =>
  match m s with
  | Ret (s, Ok a) => f a s
  | Ret (s, Err e) => Ret (s, Err e)
  | Panic => Panic
  end.

Section TM.
Context {V : Type}.

Definition throw {A} (e : error) : TM V A := fun s => Ret (s, Err e).
Definition skipPut {A} : TM V A := throw (fatalError errSkipPut).
(** A call that fails as the environment says. *)
Definition try_ (e : option error) : TM V unit :=
  match e with Some e => throw e | None => mret tt end.

Definition getJob : TM V Job := fun s => Ret (s, Ok (txJob s)).
Definition setJob (j : Job) : TM V unit := fun s =>
  Ret ({| txJob := j; txInvs := txInvs s; txTasks := txTasks s; txRolls := txRolls s;
          txVars := txVars s |}, Ok tt).
Definition getVars : TM V V := fun s => Ret (s, Ok (txVars s)).
Definition setVars (v : V) : TM V unit := fun s =>
  Ret ({| txJob := txJob s; txInvs := txInvs s; txTasks := txTasks s; txRolls := txRolls s;
          txVars := v |}, Ok tt).
Definition getInv (k : InvKey) : TM V (option Invocation) := fun s => Ret (s, Ok (txInvs s !! k)).
Definition putInv (i : Invocation) : TM V unit := fun s =>
  Ret ({| txJob := txJob s; txInvs := <[inv_key i := i]> (txInvs s); txTasks := txTasks s;
          txRolls := txRolls s; txVars := txVars s |}, Ok tt).
Definition addTasks (ts : list Task) : TM V unit := fun s =>
  Ret ({| txJob := txJob s; txInvs := txInvs s; txTasks := txTasks s ++ ts;
          txRolls := txRolls s; txVars := txVars s |}, Ok tt).
End TM.

(** [txn]: reads the job, runs the callback, stores the job if it changed, and
    commits.  A conflict makes the datastore run the callback again on the state
    of that moment; the run that is modelled is the last one, as the earlier ones
    leave nothing behind. *)
Definition commit_tx {V} (w : Service) (jobID : string) (put : bool) (s : Tx V) : Service :=
  {| jobs := if put then <[jobID := txJob s]> (jobs w) else jobs w;
     invs := txInvs s; queue := queue w ++ txTasks s; sessions := sessions w;
     dropped := dropped w |}.

Definition txn {V} (e : Env) (w : Service) (jobID : string) (v : V) (cb : bool -> TM V unit)
  : outcome (Service * V * option error) :=
  match failure e SGetJob with
  | Some err => Ret (w, v, Some (TagApply err))
  | None =>
      let stored := default (newJob jobID) (jobs w !! jobID) in
      let isNew := negb (bool_decide (is_Some (jobs w !! jobID))) in
      let tx := {| txJob := stored; txInvs := invs w; txTasks := []; txRolls := 0; txVars := v |} in
      '(tx, r) ← cb isNew tx;
      let finish (put : bool) :=
        match (if put then failure e SPutJob else None) with
        | Some err => Ret (w, txVars tx, Some (TagApply err))
        | None =>
            let w' := commit_tx w jobID put tx in
            match commit e with
            | Committed => Ret (w', txVars tx, None)
            | CommitFailed err applied =>
                Ret (if applied then w' else w, txVars tx, Some (TagApply err))
            end
        end in
      match r with
      | Ok _ => finish (negb (bool_decide (txJob tx = stored)))
      | Err err =>
          if bool_decide (what err = errSkipPut) then finish false
          else Ret (w, txVars tx, Some err)
      end
  end.

(** ** IDs of invocations *)

(** Jan 1 2015 on the clock of [Time]. *)
Definition invocationIDEpoch : Time := (1420070400 + 62135596800) * 1000000000.

Definition invTs (t : Time) : Z :=
  Z.shiftl (Z.land (Z.lnot (Z.quot (t - invocationIDEpoch) 1000000)) 8796093022207) 20.

Definition invocationID (t : Time) (randSuffix : Z) : Z :=
  Z.lor (invTs t) (Z.shiftl randSuffix 4).

(** The loop of [generateInvocationID]: at most ten attempts to find an ID that is not
    taken. *)
Fixpoint pickID (taken : Z -> bool) (t : Time) (sfx : nat -> Z) (i fuel : nat) : option Z :=
  match fuel with
  | O => None
  | S fuel =>
      let id := invocationID t (sfx i) in
      if taken id then pickID taken t sfx (S i) fuel else Some id
  end.

Definition generateInvocationID (e : Env) (m : gmap InvKey Invocation) (job : string) : result error Z :=
  match failure e SExists with
  | Some err => Err err
  | None =>
      match pickID (fun id => bool_decide (is_Some (m !! (job, id)))) (now e) (suffix e) 0 10 with
      | Some id => Ok id
      | None => Err (fatalError errNoInvocationID)
      end
  end.

(** [strings.Split(s, "/")]. *)
Fixpoint splitSlash (s : string) : list string :=
  match s with
  | EmptyString => [EmptyString]
  | String c s =>
      if ascii_dec c "/" then EmptyString :: splitSlash s
      else match splitSlash s with
           | x :: xs => String c x :: xs
           | [] => [String c EmptyString]
           end
  end.

Definition invocationRetryLimit : Z := 5.

(** The answer of a request: it ended with an error or nil, or a session goes on. *)
Inductive reply := Ended (err : option error) | Pending.

(** * The engine *)
Section Engine.
Context (jitter : Z -> Z -> Z).
Context (ParseDuration : string -> option Z) (parseCronexpr : string -> option (Time -> Time)).
Context (Sprintf : LogMsg -> bytes).
Context `{cat : Catalog}.

Definition parseSchedule (j : Job) : option Schedule :=
  Parse ParseDuration parseCronexpr (effectiveSchedule j) (fnv64 (JobID j)).

Definition logMsg (e : Env) (m : LogMsg) (log : bytes) : bytes := debugLog (now e) log (Sprintf m).

(** ** Transitions of a job *)
Definition roll_error (e : Env) (err : SMError) : error :=
  match err with
  | ErrBadSchedule => fatalError (errStateMachine err)
  | ErrEnqueue => from_option TagApply (transientError (errStateMachine err)) (failure e SEnqueueJob)
  | _ => transientError (errStateMachine err)
  end.

Definition rollSM {V} (e : Env) (cb : StateMachine -> outcome (StateMachine * option SMError))
  : TM V unit := fun s =>
  let tx job acts :=
    {| txJob := job; txInvs := txInvs s; txTasks := txTasks s ++ map (JobAction (JobID (txJob s))) acts;
       txRolls := S (txRolls s); txVars := txVars s |} in
  r ← SchedulerSM.rollSM (parseSchedule (txJob s)) (now e) (nonce e (txRolls s))
        (fun _ => bool_decide (is_Some (failure e SEnqueueJob))) (JobSt (txJob s)) cb;
  match r with
  | Err err => Ret (tx (txJob s) [], Err (roll_error e err))
  | Ok (st, acts) => Ret (tx (with_JobSt st (txJob s)) acts, Ok tt)
  end.

Definition roll {V} (e : Env) (ev : Event) : TM V unit := rollSM e (handle jitter ev).

Definition updateJob (e : Env) (w : Service) (def : JobDef) :=
  txn e w (defJobID def) tt (fun isNew =>
    job ← getJob;
    if negb isNew && Enabled job && matches job def then skipPut
    else
      job ← (if isNew then
               match splitSlash (defJobID def) with
               | [project; _] => mret (jobFromDef project def)
               | _ => throw (fatalError errBadJobID)
               end
             else mret job);
      setJob (with_def def job);;
      (if Enabled job then mret tt else roll e EvJobEnabled);;
      updated ← getJob;
      if negb (String.eqb (effectiveSchedule updated) (effectiveSchedule job))
      then roll e EvScheduleChange else mret tt).

Definition disableJob (e : Env) (w : Service) (jobID : string) :=
  txn e w jobID tt (fun isNew =>
    job ← getJob;
    if isNew || negb (Enabled job) then skipPut
    else setJob (with_Enabled false job);; roll e EvJobDisabled).

Definition resetJobOnDevServer (e : Env) (w : Service) (jobID : string) :=
  txn e w jobID tt (fun isNew =>
    job ← getJob;
    if isNew || negb (Enabled job) then skipPut
    else roll e EvJobDisabled;; roll e EvJobEnabled).

Definition jobTimerTick (e : Env) (w : Service) (jobID : string) (tickNonce : Z) :=
  txn e w jobID tt (fun isNew =>
    if isNew then skipPut else roll e (EvTimerTick tickNonce)).

Definition setPausedFlag (e : Env) (w : Service) (jobID : string) (paused : bool) :=
  txn e w jobID tt (fun isNew =>
    job ← getJob;
    if isNew || negb (Enabled job) then throw (fatalError ErrNoSuchJob)
    else if Bool.eqb (Paused job) paused then skipPut
    else setJob (with_Paused paused job);; roll e EvScheduleChange).

(** [TriggerInvocation]: the nonce and [err] are the shared variables.  The callback of [rollSM]
    reads the nonce off the machine when its transition has succeeded, that is before
    the machine's tasks are submitted. *)
Definition manualNonce (e : Env) (job : Job) (triggeredBy : string) : Z :=
  match parseSchedule job with
  | None => 0
  | Some sched =>
      match OnManualInvocation {| Now := now e; Sched := sched; Nonce := nonce e 0; nonces := 0;
                                  St := JobSt job; Actions := [] |} triggeredBy with
      | (sm, None) => InvocationNonce (St sm)
      | (_, Some _) => 0
      end
  end.

Definition TriggerInvocation (e : Env) (w : Service) (jobID : string) (triggeredBy : string)
  : outcome (Service * Z * option error) :=
  '(w, (invNonce, err), err2) ← txn e w jobID (0, None) (fun isNew =>
    job ← getJob;
    if isNew then setVars (0, Some (fatalError ErrNoSuchJob));; skipPut
    else if negb (Enabled job) then setVars (0, Some (fatalError errJobDisabled));; skipPut
    else
      setVars (manualNonce e job triggeredBy, None);;
      roll e (EvManualInvocation triggeredBy));
  Ret (w, invNonce, match err with Some _ => err | None => err2 end).

(** ** Saving an invocation *)
Definition invTimers (e : Env) (i : Invocation) (ts : list invocationTimer) : list Task :=
  map (fun t => InvTimer (JobKey i) (InvID i) (now e + Delay t) t) ts.

(** The entity [saveImpl] is about to store: the controller's state unpacked
    into the copy it had. *)
Definition unpackState (c : Controller) : Invocation :=
  update_inv (tsStatus (state c)) (Finished (saved c)) (InvDebugLog (saved c) ++ ctlDebugLog c)
    (tsViewURL (state c)) (tsTaskData (state c)) (MutationsCount (saved c)) (saved c).

Definition hasStartedOrFailed (c : Controller) : bool :=
  String.eqb (InvStatus (saved c)) StatusStarting && negb (String.eqb (tsStatus (state c)) StatusStarting).
Definition hasFinished (c : Controller) : bool :=
  negb (Final (InvStatus (saved c))) && Final (tsStatus (state c)).

Definition toSave (e : Env) (c : Controller) (updateJob : bool) : Invocation :=
  let saving := unpackState c in
  let saving := with_MutationsCount (MutationsCount saving + 1) saving in
  if hasFinished c then
    let log := logMsg e (MsgFinished (now e - Started saving) (InvStatus saving)) (InvDebugLog saving) in
    let log := if updateJob then log else logMsg e MsgWillRetry log in
    let log := foldl (fun log t => logMsg e (MsgIgnoringTimer (TimerName t)) log) log (timers c) in
    with_InvDebugLog log (with_finish (InvStatus saving) (now e) saving)
  else saving.

Definition trimmed (i : Invocation) : Invocation :=
  with_InvDebugLog (trimDebugLog (InvDebugLog i)) i.

Definition saveTxn (e : Env) (c : Controller) (updateJob : bool) (isNew : bool) : TM Invocation unit :=
  saving ← getVars;
  try_ (TagApply <$> failure e SGetInv);;
  stored ← getInv (inv_key saving);
  match stored with
  | None => throw (fatalError errInvocationGone)
  | Some mostRecent =>
      if negb (MutationsCount saving =? MutationsCount mostRecent + 1)
      then throw (transientError errUpdateConflict)
      else
        setVars (trimmed saving);;
        try_ (failure e SPutInv);;
        putInv (trimmed saving);;
        (if negb (hasFinished c) && negb (bool_decide (timers c = [])) then
           try_ (TagApply <$> failure e SEnqueueTimers);;
           addTasks (invTimers e saving (timers c))
         else mret tt);;
        job ← getJob;
        if negb updateJob then skipPut
        else if isNew then skipPut
        else if negb (InvocationID (JobSt job) =? InvID saving) then skipPut
        else
          (if hasStartedOrFailed c then roll e (EvInvocationStarted (InvID saving)) else mret tt);;
          (if hasFinished c then roll e (EvInvocationDone (InvID saving)) else mret tt)
  end.

Definition saveImpl (e : Env) (w : Service) (c : Controller) (updateJob : bool)
  : outcome (Service * Controller * option error) :=
  if bool_decide (unpackState c = saved c) && bool_decide (timers c = [])
  then Ret (w, c, None)
  else
    let saving := toSave e c updateJob in
    '(w, saving, err) ← txn e w (JobKey saving) saving (saveTxn e c updateJob);
    Ret (w, match err with
            | None => {| saved := saving; state := state c; ctlDebugLog := []; timers := [] |}
            | Some _ => c
            end, err).

(** [ctl.DebugLog] and [ctl.AddTimer]. *)
Definition ctlLog (e : Env) (line : bytes) (c : Controller) : Controller :=
  with_debugLog (debugLog (now e) (ctlDebugLog c) line) c.
Definition ctlAddTimer (e : Env) (t : invocationTimer) (c : Controller) : Controller :=
  let c := ctlLog e (Sprintf (MsgSchedulingTimer (TimerName t) (Delay t))) c in
  with_timers (timers c ++ [t]) c.

(** [controllerForInvocation]: the message and its manager. *)
Definition managerFor (i : Invocation) : result error (TaskMsg * Manager TaskMsg) :=
  match UnmarshalTask (InvTask i) with
  | None => Err (fatalError errUnmarshal)
  | Some msg =>
      match GetTaskManager msg with
      | None => Err (fatalError errNoManager)
      | Some m => Ok (msg, m)
      end
  end.

(** ** Starting an invocation *)
Definition newInvocation (e : Env) (job : Job) (id n : Z) (triggeredBy : string) (retryCount : Z) : Invocation :=
  let log := logMsg e (MsgInitiated (retryCount + 1)) [] in
  let log := if String.eqb triggeredBy "" then log else logMsg e (MsgManuallyTriggered triggeredBy) log in
  let giveUp := invocationRetryLimit <=? retryCount in
  {| InvID := id; JobKey := JobID job; Started := now e;
     Finished := if giveUp then now e else 0;
     InvNonce := n; InvTriggeredBy := triggeredBy; InvRevision := Revision job;
     InvRevisionURL := RevisionURL job; InvTask := JobTask job;
     InvDebugLog := if giveUp then logMsg e MsgTooManyAttempts log else log;
     RetryCount := retryCount;
     InvStatus := if giveUp then StatusFailed else StatusStarting;
     ViewURL := []; TaskData := []; MutationsCount := 0 |}.

(** The previous attempt, marked as failed. *)
Definition supersede (e : Env) (id : Z) (prev : Invocation) : Invocation :=
  trimmed (with_MutationsCount (MutationsCount prev + 1)
    (with_finish StatusFailed (now e)
      (with_InvDebugLog (logMsg e (MsgNewInvocation id) (InvDebugLog prev)) prev))).

(** The transitions of [startInvocation]'s transaction. *)
Definition startTransitions (n id retryCount : Z) (failed : bool) (sm : StateMachine)
  : outcome (StateMachine * option SMError) :=
  let sm := OnInvocationStarting sm n id retryCount in
  if failed then
    sm ← OnInvocationStarted sm id;
    Ret (OnInvocationDone jitter sm id, None)
  else Ret (sm, None).

(** The shared variables are [inv] and [skipRunning]. *)
Definition startTxn (e : Env) (n : Z) (triggeredBy : string) (retryCount : Z) (isNew : bool)
  : TM (option Invocation * bool) unit :=
  job ← getJob;
  if isNew then setVars (None, true);; skipPut
  else if negb (IsExpectingInvocation (JobSt job) n) then setVars (None, true);; skipPut
  else
    id ← (fun s => Ret (s, generateInvocationID e (txInvs s) (JobID job)));
    let inv := newInvocation e job id n triggeredBy retryCount in
    let failed := invocationRetryLimit <=? retryCount in
    setVars (Some inv, failed);;
    try_ (failure e SPutInv);;
    putInv inv;;
    (if InvocationID (JobSt job) =? 0 then mret tt
     else
       try_ (failure e SGetPrev);;
       prev ← getInv (JobID job, InvocationID (JobSt job));
       match prev with
       | Some prev =>
           if Final (InvStatus prev) then mret tt
           else try_ (failure e SPutPrev);; putInv (supersede e id prev)
       | None => mret tt
       end);;
    rollSM e (startTransitions n id retryCount failed).

(** What follows the transaction: the task manager takes over. *)
Definition launch (i : Invocation) (retryCount : Z) (t : option Task) : Session :=
  match managerFor i with
  | Err err => Running t (HNoManager err) (newController i) (Return None)
  | Ok (msg, m) => Running t (HLaunch retryCount) (newController i) (LaunchTask m msg i)
  end.

Definition add_session (sid : nat) (s : Session) (w : Service) : Service :=
  with_sessions (<[sid := s]> (sessions w)) w.

Definition startInvocation (e : Env) (w : Service) (sid : nat) (t : option Task)
    (jobID : string) (n : Z) (triggeredBy : string) (retryCount : Z) : outcome (Service * reply) :=
  '(w, (inv, skipRunning), err) ← txn e w jobID (None, false) (startTxn e n triggeredBy retryCount);
  match err, inv with
  | Some _, _ => Ret (w, Ended err)
  | None, Some inv =>
      if (skipRunning : bool) then Ret (w, Ended None)
      else Ret (add_session sid (launch inv retryCount t) w, Pending)
  | None, None => Ret (w, Ended None)
  end.

(** [recordOverrun] up to the invocation it stores. *)
Definition overrunInvocation (e : Env) (jobID : string) (id overruns runningInvID : Z) : Invocation :=
  let log := logMsg e (if runningInvID =? 0 then MsgOverrunStarting else MsgOverrunRunning runningInvID) [] in
  {| InvID := id; JobKey := jobID; Started := now e; Finished := now e; InvNonce := 0;
     InvTriggeredBy := ""; InvRevision := ""; InvRevisionURL := ""; InvTask := [];
     InvDebugLog := logMsg e (MsgTotalOverruns overruns) log; RetryCount := 0;
     InvStatus := StatusOverrun; ViewURL := []; TaskData := []; MutationsCount := 0 |}.

Definition recordOverrun (e : Env) (w : Service) (sid : nat) (t : Task)
    (jobID : string) (overruns runningInvID : Z) : Service * reply :=
  match generateInvocationID e (invs w) jobID with
  | Err err => (w, Ended (Some err))
  | Ok id => (add_session sid (PutOverrun t (overrunInvocation e jobID id overruns runningInvID)) w, Pending)
  end.

(** ** Handlers of an invocation *)

(** [GetInvocation], then the checks that [invocationTimerTick],
    [handlePubSubMessage] and [AbortInvocation] share. *)
Definition openInvocation (e : Env) (w : Service) (jobID : string) (id : Z)
    (k : Invocation -> TaskMsg -> Manager TaskMsg -> Service * reply) : Service * reply :=
  match TagApply <$> failure e SGetInv with
  | Some err => (w, Ended (Some err))
  | None =>
      match invs w !! (jobID, id) with
      | None => (w, Ended (Some (fatalError ErrNoSuchInvocation)))
      | Some i =>
          if Final (InvStatus i) then (w, Ended None)
          else match managerFor i with
               | Err err => (w, Ended (Some err))
               | Ok (msg, m) => k i msg m
               end
      end
  end.

Definition invocationTimerTick (e : Env) (w : Service) (sid : nat) (t : option Task)
    (jobID : string) (id : Z) (timer : invocationTimer) : Service * reply :=
  openInvocation e w jobID id (fun i msg m =>
    (add_session sid (Running t HTimer (newController i)
       (HandleTimer m msg i (TimerName timer) (TimerPayload timer))) w, Pending)).

(** [handlePubSubMessage], once the message's token has named the invocation. *)
Definition handlePubSubMessage (e : Env) (w : Service) (sid : nat)
    (jobID : string) (id : Z) (data : bytes) : Service * reply :=
  openInvocation e w jobID id (fun i msg m =>
    (add_session sid (Running None HPubSub (newController i) (HandleNotification m msg i data)) w, Pending)).

Definition AbortInvocation (e : Env) (w : Service) (sid : nat)
    (jobID : string) (id : Z) (who : string) : Service * reply :=
  openInvocation e w jobID id (fun i msg m =>
    let c := ctlLog e (Sprintf (MsgAbortedBy who)) (newController i) in
    (add_session sid (Running None HAbort c (AbortTask m msg i)) w, Pending)).

(** [AbortJob]: the ID of the invocation is the shared variable. *)
Definition AbortJob (e : Env) (w : Service) (sid : nat) (jobID : string) (who : string)
  : outcome (Service * reply) :=
  '(w, id, err) ← txn e w jobID 0 (fun isNew =>
    if isNew then skipPut
    else job ← getJob; setVars (InvocationID (JobSt job));; roll e EvManualAbort);
  match err with
  | Some _ => Ret (w, Ended err)
  | None =>
      if id =? 0 then Ret (w, Ended None)
      else Ret (add_session sid (PendingAbort jobID id who) w, Pending)
  end.

(** ** The end of a manager's call

    A fatal error of [HandleTimer] or [HandleNotification] fails the
    invocation. *)
Definition failOnFatal (e : Env) (m : error -> LogMsg) (err : option error) (c : Controller) : Controller :=
  match err with
  | Some er =>
      if negb (transientTag er) && negb (String.eqb (tsStatus (state c)) StatusFailed)
      then with_Status StatusFailed (ctlLog e (Sprintf (m er)) c)
      else c
  | None => c
  end.

(** The error [LaunchTask]'s call ends with, and the status it leaves. *)
Definition launchError (retryCount : Z) (status : Status) (err : option error) : option error :=
  let err := if String.eqb status StatusStarting
             then match err with None => Some (fatalError errNotMoved) | _ => err end else err in
  if TagIn err && (invocationRetryLimit <=? retryCount + 1)
  then Some (fatalError errTooManyRetries) else err.
Definition launchStatus (status : Status) : Status :=
  if String.eqb status StatusStarting then StatusFailed else status.

Definition finishHandler (e : Env) (w : Service) (h : Handler) (c : Controller) (err : option error)
  : outcome (Service * option error) :=
  match h with
  | HLaunch retryCount =>
      let err := launchError retryCount (tsStatus (state c)) err in
      let c := with_Status (launchStatus (tsStatus (state c))) c in
      '(w, _, saveErr) ← saveImpl e w c (negb (TagIn err));
      Ret (w, match saveErr, err with Some _, None => saveErr | _, _ => err end)
  | HNoManager er =>
      let c := with_Status StatusFailed (ctlLog e (Sprintf (MsgNoController er)) c) in
      '(w, _, saveErr) ← saveImpl e w c true; Ret (w, saveErr)
  | HTimer =>
      '(w, _, saveErr) ← saveImpl e w (failOnFatal e MsgFatalTimer err c) true;
      Ret (w, match err, saveErr with
              | None, None => None
              | _, _ => if TagIn err then saveErr else err
              end)
  | HPubSub =>
      '(w, _, saveErr) ← saveImpl e w (failOnFatal e MsgFatalPubSub err c) true;
      Ret (w, match err, saveErr with
              | None, None => None
              | _, _ => if TagIn saveErr then saveErr else err
              end)
  | HAbort =>
      match err with
      | Some _ => Ret (w, err)
      | None => '(w, _, saveErr) ← saveImpl e w (with_Status StatusAborted c) true; Ret (w, saveErr)
      end
  end.

(** ** The task queues

    A task is taken off its queue when its handler ends with nil or with an
    error that is not transient (status 202 of frontend/handler.go); a queue
    delivers at least once, so it may also keep it ([again]). *)
Fixpoint removeTask (t : Task) (q : list Task) : list Task :=
  match q with
  | [] => []
  | x :: q => if decide (x = t) then q else x :: removeTask t q
  end.

Definition ack (again : bool) (t : Task) (err : option error) (w : Service) : Service :=
  let q := if again then queue w else removeTask t (queue w) in
  match err with
  | Some er =>
      if transientTag er then w
      else {| jobs := jobs w; invs := invs w; queue := q; sessions := sessions w;
              dropped := (t, er) :: dropped w |}
  | None => {| jobs := jobs w; invs := invs w; queue := q; sessions := sessions w; dropped := dropped w |}
  end.

Definition reply_to (again : bool) (t : option Task) (r : Service * reply) : Service * reply :=
  match t, r with
  | Some t, (w, Ended err) => (ack again t err w, Ended err)
  | _, _ => r
  end.

(** [executeJobAction] and [executeInvAction]. *)
Definition executeTask (e : Env) (w : Service) (sid : nat) (t : Task) (retryCount : Z)
  : outcome (Service * reply) :=
  match t with
  | JobAction jobID (TickLaterAction _ n) =>
      '(w, _, err) ← jobTimerTick e w jobID n; Ret (w, Ended err)
  | JobAction jobID (StartInvocationAction n who) => startInvocation e w sid (Some t) jobID n who retryCount
  | JobAction jobID (RecordOverrunAction n id) => Ret (recordOverrun e w sid t jobID n id)
  | InvTimer jobID id _ timer => Ret (invocationTimerTick e w sid (Some t) jobID id timer)
  end.

(** ** Sessions, one step at a time *)
Definition drop_session (sid : nat) (w : Service) : Service :=
  with_sessions (delete sid (sessions w)) w.

Definition runSession (e : Env) (w : Service) (sid : nat) (answer : bytes) (again : bool)
  : outcome (Service * reply) :=
  match sessions w !! sid with
  | Some (Running t h c p) =>
      let continue w c p := Ret (add_session sid (Running t h c p) w, Pending) in
      match p with
      | Return err =>
          '(w, err) ← finishHandler e w h c err;
          Ret (reply_to again t (drop_session sid w, Ended err))
      | GetState k => continue w c (k (state c))
      | SetState s k => continue w (with_state s c) k
      | DebugLog line k => continue w (ctlLog e line c) k
      | AddTimer timer k => continue w (ctlAddTimer e timer c) k
      | Save k => '(w, c, err) ← saveImpl e w c true; continue w c (k err)
      | External k => continue w c (k answer)
      end
  | Some (PutOverrun t i) =>
      let w := drop_session sid w in
      Ret (reply_to again (Some t)
        match TagApply <$> failure e SPutInv with
        | Some err => (w, Ended (Some err))
        | None => (with_invs (<[inv_key i := i]> (invs w)) w, Ended None)
        end)
  | Some (PendingAbort jobID id who) => Ret (AbortInvocation e (drop_session sid w) sid jobID id who)
  | None => Ret (w, Ended None)
  end.

(** ** Requests

    [ReqGiveUp] is a queue that drops a start request after the retries that its
    options allow; [ReqCrash] a handler that is killed. *)
Inductive Request :=
| ReqUpdateJob (def : JobDef)
| ReqDisableJob (job : string)
| ReqResetJob (job : string)
| ReqTrigger (job who : string)
| ReqPause (job : string) (paused : bool)
| ReqAbortJob (job who : string)
| ReqAbortInvocation (job : string) (inv : Z) (who : string)
| ReqPubSub (job : string) (inv : Z) (data : bytes)
| ReqTask (t : Task) (retryCount : Z) (again : bool)
| ReqRun (sid : nat) (answer : bytes) (again : bool)
| ReqCrash (sid : nat)
| ReqGiveUp (t : Task).

Definition ended {A} (m : outcome (Service * A * option error)) : outcome (Service * reply) :=
  '(w, _, err) ← m; Ret (w, Ended err).

(** A request met with the environment [e]; a session it opens is [sid]. *)
Definition perform (e : Env) (sid : nat) (r : Request) (w : Service) : outcome (Service * reply) :=
  match r with
  | ReqUpdateJob def => ended (updateJob e w def)
  | ReqDisableJob j => ended (disableJob e w j)
  | ReqResetJob j => ended (resetJobOnDevServer e w j)
  | ReqTrigger j who => ended (TriggerInvocation e w j who)
  | ReqPause j p => ended (setPausedFlag e w j p)
  | ReqAbortJob j who => AbortJob e w sid j who
  | ReqAbortInvocation j id who => Ret (AbortInvocation e w sid j id who)
  | ReqPubSub j id data => Ret (handlePubSubMessage e w sid j id data)
  | ReqTask t retryCount again =>
      r ← executeTask e w sid t retryCount; Ret (reply_to again (Some t) r)
  | ReqRun sid answer again => runSession e w sid answer again
  | ReqCrash sid => Ret (drop_session sid w, Ended None)
  | ReqGiveUp t => Ret (ack false t (Some (fatalError errTooManyRetries)) w, Ended None)
  end.

(** ** UpdateProjectJobs

    The entities of a project that are enabled, and the calls for a list of
    definitions.  The code runs the calls at once; here they run in some order. *)
Definition getProjectJobs (w : Service) (projectID : string) : gmap string Job :=
  filter (fun kj => Enabled kj.2 && bool_decide (ProjectID kj.2 = projectID) = true) (jobs w).

Inductive Call := CallUpdate (def : JobDef) | CallDisable (job : string).

Definition revisions (defs : list JobDef) : gmap string string :=
  foldl (fun m d => <[defJobID d := defRevision d]> m) ∅ defs.

Definition projectCalls (w : Service) (projectID : string) (defs : list JobDef) : list Call :=
  let existing := getProjectJobs w projectID in
  let updated := revisions defs in
  map CallUpdate (filter (fun d => match existing !! defJobID d with
                                   | Some ent => negb (Enabled ent && matches ent d)
                                   | None => true
                                   end = true) defs) ++
  map CallDisable (filter (fun id => default "" (updated !! id) = ""%string) (map fst (map_to_list existing))).

Definition runCall (e : Env) (w : Service) (c : Call) : outcome (Service * reply) :=
  match c with
  | CallUpdate def => ended (updateJob e w def)
  | CallDisable j => ended (disableJob e w j)
  end.

(** The calls one after the other; whether one of them failed. *)
Fixpoint runCalls (es : list Env) (w : Service) (cs : list Call) : outcome (Service * bool) :=
  match es, cs with
  | e :: es, c :: cs =>
      '(w, r) ← runCall e w c;
      '(w, failed) ← runCalls es w cs;
      Ret (w, match r with Ended (Some _) => true | _ => failed end)
  | _, _ => Ret (w, false)
  end.
End Engine.
