(* ===== verification/EngineInv.v ===== *)
(** The invariant of the scheduler engine: what holds of jobs, invocations,
    queues and sessions whatever the requests, their order and the failures
    they meet. *)
From S2P Require Import Prelude SchedulerSM DebugLog Engine.
Local Open Scope Z_scope.

(** * Job transitions seen from the invocations

    A transition of a request that does not start or finish an invocation keeps
    the job's invocation, drops it, or asks for a new one with a nonce it has
    drawn. *)
Definition busy (k : StateKind) : bool := is_queued k || is_running k.

Inductive moves (drawn : nat -> Z) (s s' : JobState) : Prop :=
| moves_keep :
    InvocationNonce s' = InvocationNonce s -> InvocationID s' = InvocationID s ->
    is_queued (State s') = is_queued (State s) -> is_running (State s') = is_running (State s) ->
    moves drawn s s'
| moves_drop :
    InvocationNonce s' = 0 -> InvocationID s' = 0 -> busy (State s') = false -> moves drawn s s'
| moves_queue i :
    InvocationNonce s' = drawn i -> InvocationID s' = 0 -> is_running (State s') = false ->
    moves drawn s s'.

(** The events of such requests. *)
Definition outer_event (ev : Event) : bool :=
  match ev with
  | EvInvocationStarting _ _ _ | EvInvocationStarted _ | EvInvocationDone _ => false
  | _ => true
  end.

(** * Cron expressions

    What cronexpr says of [Next]: an instant after [t], or the zero time when no
    instant matches or [t] is zero itself.  [never_again]: there is an expression
    for which no instant matches. *)
Definition cron_ok (parse : string -> option (Time -> Time)) : Prop :=
  forall expr next t, parse expr = Some next -> t < next t \/ next t = 0.
Definition never_again (parse : string -> option (Time -> Time)) : Prop :=
  exists expr next t, parse expr = Some next /\ 0 < t /\ next t = 0.

Section Moves.
Context (jitter : Z -> Z -> Z) (barren : Prop).
Notation wf_state := (wf_state barren).

Lemma drawNonce_nonce m : (drawNonce m).1 = Nonce m (nonces m).
Proof. done. Qed.

Lemma scheduleTick_St m : exists t n, St (scheduleTick jitter m) = set_Tick t n (St m).
Proof.
  unfold scheduleTick; cbn. case_match; [exists (TickTime (St m)), (TickNonce (St m)); by destruct (St m)|].
  case_match; cbn; eauto.
Qed.

Lemma scheduleTick_Nonce m : Nonce (scheduleTick jitter m) = Nonce m.
Proof. unfold scheduleTick; cbn. by repeat case_match. Qed.

Lemma advanceTick_St m :
  exists t n, St (advanceTick jitter m) = set_Tick t n (St m).
Proof. unfold advanceTick. case_match; [apply scheduleTick_St|by exists 0, 0]. Qed.

Lemma advanceTick_Nonce m : Nonce (advanceTick jitter m) = Nonce m.
Proof. unfold advanceTick. case_match; [apply scheduleTick_Nonce|done]. Qed.

(** An idle state is not made busy by the choice between SCHEDULED and SUSPENDED. *)
Lemma maybeSuspend_moves m drawn :
  moves drawn (St m) (St (maybeSuspendOrResume m)).
Proof.
  unfold maybeSuspendOrResume. destruct (St m) as [k ? ? ? ? ? ? ? ?] eqn:E; cbn.
  destruct k; cbn; repeat case_match; rewrite ?E; cbn; by apply moves_keep.
Qed.

Lemma moves_trans_keep_r drawn s1 s2 s3 :
  moves drawn s1 s2 ->
  InvocationNonce s3 = InvocationNonce s2 -> InvocationID s3 = InvocationID s2 ->
  is_queued (State s3) = is_queued (State s2) -> is_running (State s3) = is_running (State s2) ->
  moves drawn s1 s3.
Proof.
  unfold busy. intros Hm H1 H2 H3 H4; destruct Hm;
    [apply moves_keep|apply moves_drop|eapply (moves_queue _ _ _ i)];
    unfold busy in *; rewrite ?H3, ?H4; congruence.
Qed.

Lemma moves_trans drawn drawn' s1 s2 s3 :
  moves drawn s1 s2 -> moves drawn' s2 s3 ->
  moves drawn s1 s3 \/ moves drawn' s1 s3.
Proof.
  intros H12 [H1 H2 H3 H4|H1 H2 H3|i H1 H2 H3].
  - left. by eapply moves_trans_keep_r.
  - left. by apply moves_drop.
  - right. by eapply moves_queue.
Qed.

Lemma reschedule_moves m drawn :
  moves drawn (St m) (St (maybeSuspendOrResume (scheduleTick jitter m))).
Proof.
  destruct (scheduleTick_St m) as (t & n & Ht).
  pose proof (maybeSuspend_moves (scheduleTick jitter m) drawn) as H. rewrite Ht in H.
  destruct H; [by apply moves_keep|by apply moves_drop|by eapply moves_queue].
Qed.

Lemma invocationFinished_moves m drawn : moves drawn (St m) (St (invocationFinished jitter m)).
Proof.
  unfold invocationFinished. set (m' := resetInvocation _).
  pose proof (reschedule_moves m' drawn) as [H1 H2 H3 H4|H1 H2 H3|i H1 H2 H3].
  - apply moves_drop; [done|done|]. unfold busy. by rewrite H3, H4.
  - by apply moves_drop.
  - by eapply moves_queue.
Qed.

Lemma queueInvocation_moves m who drawn k t tn :
  drawn = Nonce m ->
  moves drawn (St m)
    (set_Tick t tn (St (queueInvocation (with_St m (set_State k (St m))) who))) \/ is_running k = true.
Proof.
  intros ->. destruct (is_running k) eqn:E; [by right|left].
  eapply (moves_queue _ _ _ (nonces m)); done.
Qed.

Lemma handle_moves ev m m' :
  outer_event ev = true -> wf_state (St m) ->
  handle jitter ev m = Ret (m', None) -> moves (Nonce m) (St m) (St m').
Proof.
  intros Hev Hwf. destruct ev; try discriminate Hev; cbn; intros H; simplify_eq/=.
  - unfold OnJobEnabled. case_match; [|by apply moves_keep].
    apply StateKind_eqb_eq in H.
    pose proof (reschedule_moves (with_St m (cleanState JobStateScheduled)) (Nonce m)) as
      [H1 H2 H3 H4|H1 H2 H3|i H1 H2 H3].
    + apply moves_drop; [done|done|]. unfold busy. by rewrite H3, H4.
    + by apply moves_drop.
    + by eapply moves_queue.
  - by apply moves_drop.
  - revert H. unfold OnTimerTick. fold (advanceTick jitter m).
    destruct (advanceTick_St m) as (t & n & HS). rewrite HS. cbn.
    pose proof (advanceTick_Nonce m) as HN.
    destruct (State (St m)) eqn:Ek; cbn; repeat case_match; intros; simplify_eq/=;
      first [by apply moves_keep; cbn; rewrite ?HS, ?Ek
            |eapply (moves_queue _ _ _ (nonces (advanceTick jitter m))); cbn; [by rewrite HN|done..]].
  - unfold OnScheduleChange. repeat case_match; try (by apply moves_keep).
    + destruct (scheduleTick_St m) as (t & n & ->). by apply moves_keep.
    + apply reschedule_moves.
  - revert H. unfold OnManualInvocation. case_match; [done|]. intros; simplify_eq.
    destruct (IsAbsolute _); by eapply (moves_queue _ _ _ (nonces m)).
  - unfold OnManualAbort. case_match; [by apply moves_keep|apply invocationFinished_moves].
Qed.
End Moves.

Lemma set_Tick_State t n s : State (set_Tick t n s) = State s.
Proof. done. Qed.

Lemma maybeSuspend_disabled m :
  State (St (maybeSuspendOrResume m)) = JobStateDisabled <-> State (St m) = JobStateDisabled.
Proof.
  unfold maybeSuspendOrResume. destruct (State (St m)) eqn:E; cbn; repeat case_match; cbn; by rewrite ?E.
Qed.

(** Only enabling and disabling a job moves it out of and into DISABLED. *)
Lemma handle_disabled jitter barren ev m m' :
  outer_event ev = true -> wf_state barren (St m) -> handle jitter ev m = Ret (m', None) ->
  State (St m') = JobStateDisabled <->
  match ev with
  | EvJobEnabled => False
  | EvJobDisabled => True
  | _ => State (St m) = JobStateDisabled
  end.
Proof.
  intros Hev Hwf. destruct ev; try discriminate Hev; cbn; intros H; simplify_eq/=.
  - unfold OnJobEnabled. case_match eqn:E; [|split; [intros H; by rewrite H in E|done]].
    rewrite maybeSuspend_disabled, scheduleTick_kind. done.
  - done.
  - revert H. unfold OnTimerTick. fold (advanceTick jitter m).
    destruct (advanceTick_St jitter m) as (t & n & HS). rewrite HS. cbn.
    destruct (State (St m)) eqn:Ek; cbn; repeat case_match; intros; simplify_eq/=; by rewrite ?HS, ?Ek.
  - unfold OnScheduleChange. repeat case_match; try done.
    + by rewrite scheduleTick_kind.
    + rewrite maybeSuspend_disabled. by rewrite scheduleTick_kind.
  - revert H. unfold OnManualInvocation. case_match eqn:E; [done|]. intros; simplify_eq.
    bool_to_prop. destruct (IsAbsolute _); cbn; (split; [done|]); intros Hk; by rewrite Hk in E.
  - unfold OnManualAbort. case_match eqn:E; [done|]. bool_to_prop. split; intros Hk.
    + unfold invocationFinished in Hk. rewrite maybeSuspend_disabled, scheduleTick_kind in Hk. done.
    + apply (wf_disabled _ _ Hwf) in Hk. by rewrite Hk in E.
Qed.

(** Ticks are submitted with the nonces that are drawn. *)
Definition ticks_drawn (m : StateMachine) : Prop :=
  (forall i, 0 < Nonce m i) /\ (forall t n, TickLaterAction t n ∈ Actions m -> n <> 0).

Lemma scheduleTick_ticks jitter m : ticks_drawn m -> ticks_drawn (scheduleTick jitter m).
Proof.
  intros [Hp Ha]. unfold scheduleTick; cbn. repeat case_match; [done|done|].
  split; cbn; [done|]. intros t n. rewrite elem_of_app, list_elem_of_singleton.
  intros [?|[= -> ->]]; [by eapply Ha|]. specialize (Hp (nonces m)). lia.
Qed.

Lemma maybeSuspend_ticks m : ticks_drawn m -> ticks_drawn (maybeSuspendOrResume m).
Proof. unfold maybeSuspendOrResume. by repeat case_match. Qed.

Lemma with_St_ticks m s : ticks_drawn (with_St m s) <-> ticks_drawn m.
Proof. done. Qed.

Lemma emit_ticks m a :
  (forall t n, a <> TickLaterAction t n) -> ticks_drawn m -> ticks_drawn (emitAction m a).
Proof.
  intros Hne [Hp Ha]. split; [done|]. cbn. intros t n.
  rewrite elem_of_app, list_elem_of_singleton. intros [?|<-]; [by eapply Ha|by destruct (Hne t n)].
Qed.

Lemma queueInvocation_ticks m who : ticks_drawn m -> ticks_drawn (queueInvocation m who).
Proof. intros H. by apply emit_ticks. Qed.

Lemma advanceTick_ticks jitter m : ticks_drawn m -> ticks_drawn (advanceTick jitter m).
Proof. intros H. unfold advanceTick. case_match; [by apply scheduleTick_ticks|done]. Qed.

Lemma handle_ticks jitter ev m m' :
  outer_event ev = true -> handle jitter ev m = Ret (m', None) -> ticks_drawn m -> ticks_drawn m'.
Proof.
  intros Hev H Hm. destruct ev; try discriminate Hev; cbn in H; simplify_eq/=.
  - unfold OnJobEnabled. case_match; [|done]. by apply maybeSuspend_ticks, scheduleTick_ticks.
  - done.
  - revert H. unfold OnTimerTick. fold (advanceTick jitter m).
    pose proof (advanceTick_ticks jitter m Hm) as Hm'.
    repeat case_match; intros; simplify_eq/=; try done; by apply emit_ticks.
  - unfold OnScheduleChange. repeat case_match; try done; [by apply scheduleTick_ticks|].
    by apply maybeSuspend_ticks, scheduleTick_ticks.
  - revert H. unfold OnManualInvocation. case_match; [done|]. intros; simplify_eq.
    pose proof (queueInvocation_ticks (with_St m (set_State JobStateQueued (St m))) triggeredBy Hm).
    by destruct (IsAbsolute _).
  - unfold OnManualAbort. case_match; [done|]. by apply maybeSuspend_ticks, scheduleTick_ticks.
Qed.

Lemma invocationFinished_ticks jitter m : ticks_drawn m -> ticks_drawn (invocationFinished jitter m).
Proof. intros Hm. by apply maybeSuspend_ticks, scheduleTick_ticks. Qed.

(** * Transactions

    What a callback guarantees of the transaction and of its result, when it does not
    panic. *)
Section Post.
Context {V : Type}.

Definition post {A} (m : TM V A) (s : Tx V) (Q : Tx V -> result error A -> Prop) : Prop :=
  match m s with Ret (s', r) => Q s' r | Panic => False end.

Lemma post_ret {A} (a : A) s (Q : Tx V -> result error A -> Prop) : Q s (Ok a) -> post (mret a) s Q.
Proof. done. Qed.
Lemma post_throw {A} err s (Q : Tx V -> result error A -> Prop) : Q s (Err err) -> post (throw err) s Q.
Proof. done. Qed.
Lemma post_bind {A B} (m : TM V A) (k : A -> TM V B) s (Q : Tx V -> result error B -> Prop) :
  post m s (fun s' r => match r with Ok a => post (k a) s' Q | Err err => Q s' (Err err) end) ->
  post (m ≫= k) s Q.
Proof. unfold post, mbind, TM_bind. by destruct (m s) as [[s' [a|err]]|]. Qed.
Lemma post_mono {A} (m : TM V A) s (Q Q' : Tx V -> result error A -> Prop) :
  post m s Q -> (forall s' r, Q s' r -> Q' s' r) -> post m s Q'.
Proof. unfold post. destruct (m s) as [[s' r]|]; auto. Qed.
Lemma post_try oe s (Q : Tx V -> result error unit -> Prop) :
  (forall err, oe = Some err -> Q s (Err err)) -> (oe = None -> Q s (Ok tt)) -> post (try_ oe) s Q.
Proof. destruct oe; cbn; intros H1 H2; [apply (H1 _ eq_refl)|apply (H2 eq_refl)]. Qed.
End Post.

(** One step of a callback that only reads or writes the transaction. *)
Ltac tx_step :=
  apply post_bind; unfold post at 1; cbn [getJob setJob getVars setVars mret TM_ret].

(** The transaction [txn] starts with. *)
Definition start_tx {V} (w : Service) (j : string) (v : V) : Tx V :=
  {| txJob := default (newJob j) (jobs w !! j); txInvs := invs w; txTasks := []; txRolls := 0; txVars := v |}.
Definition is_new (w : Service) (j : string) : bool := negb (bool_decide (is_Some (jobs w !! j))).

Definition is_skip (err : error) : Prop := what err = errSkipPut.

(** Failing calls are no signals to [txn]. *)
Lemma failure_not_skip e s er : failure e s = Some er -> ~ is_skip er.
Proof. unfold failure, is_skip. destruct (fault e s) as [[]|]; [|done]. by intros [= <-]. Qed.
Lemma TagApply_failure e s er :
  TagApply <$> failure e s = Some er -> ~ is_skip er /\ transientTag er = true.
Proof.
  destruct (failure e s) as [er'|] eqn:E; [|done]. intros [= <-].
  split; [by apply failure_not_skip in E|done].
Qed.

(** What becomes of a transaction: nothing, with an error that is transient or the
    callback's; or all of it, with no error or, when a commit is applied but fails, a transient one. *)
Definition txn_result {V} (w : Service) (j : string) (Q : Tx V -> result error unit -> Prop)
    (w' : Service) (v' : V) (err : option error) : Prop :=
  (w' = w /\ exists er, err = Some er /\ (transientTag er = true \/ exists tx, Q tx (Err er) /\ ~ is_skip er)) \/
  (exists tx put r, Q tx r /\ w' = commit_tx w j put tx /\ v' = txVars tx /\
     (err = None \/ exists er, err = Some er /\ transientTag er = true) /\
     match r with
     | Ok _ => put = negb (bool_decide (txJob tx = default (newJob j) (jobs w !! j)))
     | Err er => is_skip er /\ put = false
     end).

Lemma txn_post {V} e w j (v : V) cb Q :
  post (cb (is_new w j)) (start_tx w j v) Q ->
  exists w' v' err, txn e w j v cb = Ret (w', v', err) /\ txn_result w j Q w' v' err.
Proof.
  unfold post, txn, txn_result. fold (is_new w j) (start_tx w j v).
  destruct (failure e SGetJob) as [er|]; [intros _; do 3 eexists; split; [done|left; naive_solver]|].
  destruct (cb _ _) as [[tx [u|er]]|]; cbn; [intros HQ|intros HQ|done].
  - set (put := negb _). destruct (if put then failure e SPutJob else None) as [er|].
    { do 3 eexists; split; [done|left; naive_solver]. }
    destruct (commit e) as [|er [|]]; do 3 eexists; (split; [done|]).
    + right. exists tx, put, (Ok u). naive_solver.
    + right. exists tx, put, (Ok u). naive_solver.
    + left. naive_solver.
  - case_bool_decide as Hs.
    + destruct (commit e) as [|er' [|]]; do 3 eexists; (split; [done|]).
      * right. exists tx, false, (Err er). naive_solver.
      * right. exists tx, false, (Err er). naive_solver.
      * left. naive_solver.
    + do 3 eexists; split; [done|left]. split; [done|]. exists er. eauto.
Qed.

(** * Invocation IDs *)

(** The instants for which the layout of IDs has room: 278 years. *)
Definition id_time (t : Time) : Prop :=
  invocationIDEpoch <= t < invocationIDEpoch + (2 ^ 43 - 1) * 1000000.
Definition ms_since (t : Time) : Z := (t - invocationIDEpoch) / 1000000.

Lemma ms_since_bounds t : id_time t -> 0 <= ms_since t < 2 ^ 43 - 1.
Proof.
  unfold id_time, ms_since. intros H. split; [apply Z.div_pos; lia|apply Z.div_lt_upper_bound; lia].
Qed.

Lemma invTs_value t : id_time t -> invTs t = (2 ^ 43 - 1 - ms_since t) * 2 ^ 20.
Proof.
  intros H. pose proof (ms_since_bounds t H) as Hm. unfold invTs.
  rewrite Z.quot_div_nonneg by (unfold id_time in H; lia). fold (ms_since t).
  change 8796093022207 with (Z.ones 43). rewrite Z.land_ones, Z.shiftl_mul_pow2 by lia.
  f_equal. unfold Z.lnot. symmetry. apply (Z.mod_unique_pos _ _ (-1)); lia.
Qed.

Lemma invocationID_value t r :
  id_time t -> 0 <= r < 65536 -> invocationID t r = (2 ^ 43 - 1 - ms_since t) * 2 ^ 20 + r * 16.
Proof.
  intros Ht Hr. unfold invocationID. rewrite invTs_value by done.
  rewrite Z.shiftl_mul_pow2 by lia. apply lor_disjoint_add; lia.
Qed.

Lemma invocationID_positive t r : id_time t -> 0 <= r < 65536 -> 0 < invocationID t r < 2 ^ 63.
Proof.
  intros Ht Hr. rewrite invocationID_value by done. pose proof (ms_since_bounds t Ht). lia.
Qed.

Lemma pickID_spec taken t sfx i fuel id :
  pickID taken t sfx i fuel = Some id -> taken id = false /\ exists n, id = invocationID t (sfx n).
Proof.
  revert i. induction fuel as [|fuel IH]; intros i; cbn; [done|].
  destruct (taken (invocationID t (sfx i))) eqn:E; [apply IH|]. intros [= <-]. eauto.
Qed.

(** * What managers promise

    The responsibilities task.go lists.  A status that has left STARTING does not
    return to it; a final status that was saved stays; a launch that returns a
    transient error has not saved another status than STARTING.  [saved] is the
    last status the controller has saved, [st] the state it has. *)
Definition status_moves (a b : Status) : Prop :=
  (a <> StatusStarting -> b <> StatusStarting) /\ (Final a = true -> b = a).

Definition launching (h : Handler) : bool :=
  match h with HLaunch _ | HNoManager _ => true | _ => false end.

(** The status that the end of a handler saves, if it saves one. *)
Definition end_status (h : Handler) (status : Status) (err : option error) : option Status :=
  match h with
  | HLaunch _ => Some (launchStatus status)
  | HNoManager _ => Some StatusFailed
  | HTimer | HPubSub =>
      Some (match err with
            | Some er => if negb (transientTag er) && negb (String.eqb status StatusFailed)
                         then StatusFailed else status
            | None => status
            end)
  | HAbort => match err with None => Some StatusAborted | Some _ => None end
  end.

Definition returns_ok (h : Handler) (saved status : Status) (err : option error) : Prop :=
  match end_status h status err with Some s => status_moves saved s | None => True end /\
  (launching h = true -> TagIn err = true -> saved = StatusStarting).

Fixpoint obeys (h : Handler) (saved : Status) (st : TaskState) (p : Prog) : Prop :=
  match p with
  | Return err => returns_ok h saved (tsStatus st) err
  | GetState k => obeys h saved st (k st)
  | SetState st' k => obeys h saved st' k
  | DebugLog _ k | AddTimer _ k => obeys h saved st k
  | Save k =>
      status_moves saved (tsStatus st) /\
      obeys h (tsStatus st) st (k None) /\ (forall err, obeys h saved st (k (Some err)))
  | External k => forall answer, obeys h saved st (k answer)
  end.

(** The class of catalogs whose managers keep these promises. *)
Class CatalogOk {cat : Catalog} : Prop := {
  launch_obeys msg m i rc :
    GetTaskManager msg = Some m -> InvStatus i = StatusStarting ->
    obeys (HLaunch rc) StatusStarting (populateState i) (LaunchTask m msg i);
  abort_obeys msg m i :
    GetTaskManager msg = Some m -> Final (InvStatus i) = false ->
    obeys HAbort (InvStatus i) (populateState i) (AbortTask m msg i);
  notification_obeys msg m i data :
    GetTaskManager msg = Some m -> Final (InvStatus i) = false ->
    obeys HPubSub (InvStatus i) (populateState i) (HandleNotification m msg i data);
  timer_obeys msg m i name data :
    GetTaskManager msg = Some m -> Final (InvStatus i) = false ->
    obeys HTimer (InvStatus i) (populateState i) (HandleTimer m msg i name data);
}.
Arguments CatalogOk cat : clear implicits.

(** * The invariant *)
Definition action_of (j : string) (t : Task) : option Action :=
  match t with
  | JobAction j' a => if decide (j' = j) then Some a else None
  | InvTimer _ _ _ _ => None
  end.
Definition start_of (j : string) (t : Task) : option Action :=
  match action_of j t with Some (StartInvocationAction n who) => Some (StartInvocationAction n who) | _ => None end.

(** The actions of a job that wait in its queues, or that were given up: of
    these only start requests count. *)
Definition outstanding_of (j : string) (q : list Task) (d : list (Task * error)) : list Action :=
  omap (action_of j) q ++ omap (start_of j) (map fst d).
Definition outstanding (w : Service) (j : string) : list Action :=
  outstanding_of j (queue w) (dropped w).

Definition live (i : Invocation) : Prop := Final (InvStatus i) = false.

Definition expecting (w : Service) (j : string) (n : Z) : Prop :=
  exists J, jobs w !! j = Some J /\ IsExpectingInvocation (JobSt J) n = true.

Definition start_task (t : Task) : bool :=
  match t with JobAction _ (StartInvocationAction _ _) => true | _ => false end.
Definition tick_task (t : Task) : bool :=
  match t with JobAction _ (TickLaterAction _ _) => true | _ => false end.

Section Invariant.
Context (jitter : Z -> Z -> Z).
Context (ParseDuration : string -> option Z) (parseCronexpr : string -> option (Time -> Time)).
Context (Sprintf : LogMsg -> bytes).
Context `{cat : Catalog}.
Notation wf_state := (wf_state (never_again parseCronexpr)).
Notation parseSchedule := (parseSchedule ParseDuration parseCronexpr).
Notation perform := (perform jitter ParseDuration parseCronexpr Sprintf).

Record job_ok (j : string) (J : Job) : Prop := {
  jo_id : JobID J = j;
  jo_wf : wf_state (JobSt J);
  jo_enabled : Enabled J = false <-> State (JobSt J) = JobStateDisabled;
  jo_parse : Enabled J = true -> is_Some (parseSchedule J);
}.

(** A session works on an invocation that exists; if the store still has the
    invocation at the version the session has read, it is the one it has read. *)
Record running_ok (w : Service) (t : option Task) (h : Handler) (c : Controller) (p : Prog) : Prop := {
  ro_inv : exists i, invs w !! inv_key (saved c) = Some i /\ InvNonce i = InvNonce (saved c) /\
    MutationsCount (saved c) <= MutationsCount i /\
    (MutationsCount (saved c) = MutationsCount i -> i = saved c);
  ro_obeys : obeys h (InvStatus (saved c)) (state c) p;
  ro_launch : launching h = true ->
    (exists who, t = Some (JobAction (JobKey (saved c)) (StartInvocationAction (InvNonce (saved c)) who))) /\
    (InvStatus (saved c) <> StatusStarting -> ~ expecting w (JobKey (saved c)) (InvNonce (saved c)));
  ro_task : launching h = false -> forall t', t = Some t' -> start_task t' = false /\ tick_task t' = false;
}.

Definition session_ok (w : Service) (s : Session) : Prop :=
  match s with
  | Running t h c p => running_ok w t h c p
  | PutOverrun t i =>
      start_task t = false /\ tick_task t = false /\
      InvStatus i = StatusOverrun /\ InvID i <> 0 /\ InvNonce i = 0 /\ MutationsCount i = 0
  | PendingAbort _ _ _ => True
  end.

Record core (w : Service) : Prop := {
  co_jobs j J : jobs w !! j = Some J -> job_ok j J;
  co_current j J : jobs w !! j = Some J -> InvocationID (JobSt J) <> 0 ->
    exists i, invs w !! (j, InvocationID (JobSt J)) = Some i /\
      InvNonce i = InvocationNonce (JobSt J) /\
      (is_running (State (JobSt J)) = true -> live i /\ InvStatus i <> StatusStarting);
  co_keys k i : invs w !! k = Some i ->
    k = inv_key i /\ InvID i <> 0 /\ 0 <= MutationsCount i /\ (live i -> 0 < InvNonce i);
  co_live j J id i : jobs w !! j = Some J -> invs w !! (j, id) = Some i -> live i ->
    InvNonce i = InvocationNonce (JobSt J) -> id = InvocationID (JobSt J);
  co_one j id1 id2 i1 i2 : invs w !! (j, id1) = Some i1 -> invs w !! (j, id2) = Some i2 ->
    live i1 -> live i2 -> InvNonce i1 = InvNonce i2 -> id1 = id2;
  co_sessions sid s : sessions w !! sid = Some s -> session_ok w s;
}.

Definition cover (w : Service) : Prop :=
  forall j J, jobs w !! j = Some J -> covered (JobSt J) (outstanding w j).

(** What is assumed of a request: the clock is in range, the nonces it draws are
    positive and those of no invocation, the random suffixes have 16 bits. *)
Record env_ok (w : Service) (e : Env) : Prop := {
  eo_now : id_time (now e);
  eo_nonce r n : 0 < nonce e r n;
  eo_fresh r n k i : invs w !! k = Some i -> InvNonce i <> nonce e r n;
  eo_suffix n : 0 <= suffix e n < 65536;
}.

(** ... sessions are given new numbers, tasks are in the queue, and only start
    requests have a bounded number of retries. *)
Definition allowed (w : Service) (sid : nat) (r : Request) : Prop :=
  sessions w !! sid = None /\
  match r with
  | ReqTask t retryCount _ => t ∈ queue w /\ 0 <= retryCount
  | ReqGiveUp t => t ∈ queue w /\ start_task t = true
  | _ => True
  end.

(** [recordOverrun] stores its invocation under an ID that was free when it looked:
    another invocation may have come since (the same millisecond and the same random
    suffix), and is overwritten. *)
Definition overwrites (w : Service) (r : Request) : Prop :=
  exists sid answer again t i, r = ReqRun sid answer again /\
    sessions w !! sid = Some (PutOverrun t i) /\ is_Some (invs w !! inv_key i).

(** The requests that overwrite nothing. *)
Inductive step (w : Service) : Service -> Prop :=
| do_request e sid r w' rep :
    env_ok w e -> allowed w sid r -> ~ overwrites w r -> perform e sid r w = Ret (w', rep) -> step w w'.

Inductive reachable : Service -> Prop :=
| reachable_empty : reachable empty_service
| reachable_step w w' : reachable w -> step w w' -> reachable w'.
End Invariant.
