(* ===== verification/EngineOuter.v ===== *)
(** The invariant is kept by the requests that concern the job alone: updates
    of its definition, ticks, pauses, triggers and aborts. *)
From S2P Require Import Prelude SchedulerSM DebugLog Engine EngineInv.
Local Open Scope Z_scope.

(** * Sessions survive what other requests do *)

(** How an invocation may change: its identity is fixed, its status moves as
    managers promise, and it is finished once. *)
Record inv_moves (i i' : Invocation) : Prop := {
  im_nonce : InvNonce i' = InvNonce i;
  im_fixed : Started i' = Started i /\ InvTask i' = InvTask i /\ InvTriggeredBy i' = InvTriggeredBy i /\
    RetryCount i' = RetryCount i;
  im_status : status_moves (InvStatus i) (InvStatus i');
  im_finished : Final (InvStatus i) = true -> Finished i' = Finished i;
}.

(** How the invocations in the store may change: they stay, they move, and every change
    raises the version. *)
Definition evolves (m m' : gmap InvKey Invocation) : Prop :=
  forall k i, m !! k = Some i -> exists i', m' !! k = Some i' /\ inv_moves i i' /\
    MutationsCount i <= MutationsCount i' /\ (MutationsCount i = MutationsCount i' -> i' = i).

Lemma status_moves_refl s : status_moves s s.
Proof. done. Qed.
Lemma status_moves_trans a b c : status_moves a b -> status_moves b c -> status_moves a c.
Proof. intros [H1 H2] [H3 H4]. split; [auto|]. intros Ha. rewrite (H2 Ha) in H4. by rewrite H4. Qed.

Lemma inv_moves_refl i : inv_moves i i.
Proof. by split. Qed.
Lemma inv_moves_trans a b c : inv_moves a b -> inv_moves b c -> inv_moves a c.
Proof.
  intros [A1 (? & ? & ? & ?) A3 A4] [B1 (? & ? & ? & ?) B3 B4].
  split; [congruence| |by eapply status_moves_trans|].
  - repeat split; congruence.
  - intros Ha. rewrite B4, A4; [done|done|]. destruct A3 as [_ A3]. by rewrite (A3 Ha).
Qed.

Lemma evolves_trans a b c : evolves a b -> evolves b c -> evolves a c.
Proof.
  intros H1 H2 k i Hi. destruct (H1 _ _ Hi) as (i1 & Hi1 & Hm1 & Hl1 & He1).
  destruct (H2 _ _ Hi1) as (i2 & Hi2 & Hm2 & Hl2 & He2). exists i2. split; [done|].
  split; [by eapply inv_moves_trans|]. split; [lia|]. intros Heq. rewrite He2, He1 by lia. done.
Qed.

Lemma evolves_refl m : evolves m m.
Proof. intros k i Hi. exists i. split; [done|]. split; [apply inv_moves_refl|]. auto with lia. Qed.

(** A job does not come to expect the nonce of an invocation that exists. *)
Definition expects_no_more (w w' : Service) : Prop :=
  forall j n, expecting w' j n -> (exists k i, invs w !! k = Some i /\ InvNonce i = n) -> expecting w j n.

Lemma expects_refl w w' : jobs w' = jobs w -> expects_no_more w w'.
Proof. intros H j n He _. unfold expecting in *. by rewrite H in He. Qed.

Lemma session_ok_mono w w' s :
  evolves (invs w) (invs w') -> expects_no_more w w' -> session_ok w s -> session_ok w' s.
Proof.
  intros Hev Hex. destruct s as [t h c p| |]; [|done..]. cbn. intros [(i & Hi & Hn & Hle & Heq) Ho Hl Ht].
  split; [|done| |done].
  - destruct (Hev _ _ Hi) as (i' & Hi' & [Hn' _ _ _] & Hle' & Heq'). exists i'.
    split; [done|]. split; [congruence|]. split; [lia|]. intros Hc. rewrite Heq' by lia. apply Heq. lia.
  - intros Hh. destruct (Hl Hh) as [? Hne]. split; [done|]. intros Hs He. apply (Hne Hs).
    apply (Hex _ _ He). eauto.
Qed.

(** * Outstanding actions *)
Lemma elem_of_outstanding j q d a :
  a ∈ outstanding_of j q d <->
  JobAction j a ∈ q \/ (exists t e, (t, e) ∈ d /\ start_of j t = Some a).
Proof.
  unfold outstanding_of. rewrite elem_of_app, !list_elem_of_omap. split.
  - intros [(t & Ht & Ha)|(t & Ht & Ha)].
    + left. destruct t; cbn in Ha; [|done]. case_decide; [|done]. by simplify_eq.
    + right. apply list_elem_of_fmap in Ht as ([t' e] & -> & ?). eauto.
  - intros [Ht|(t & e & Ht & Ha)].
    + left. exists (JobAction j a). cbn. by rewrite decide_True.
    + right. exists t. split; [|done]. apply list_elem_of_fmap. by exists (t, e).
Qed.

Lemma outstanding_app w j acts put V (tx : Tx V) jid :
  txTasks tx = map (JobAction jid) acts ->
  outstanding w j ⊆ outstanding (commit_tx w jid put tx) j /\
  (j = jid -> outstanding w j ++ acts ⊆ outstanding (commit_tx w jid put tx) j).
Proof.
  intros Htx. split.
  - intros a. unfold outstanding. rewrite !elem_of_outstanding. cbn. rewrite elem_of_app. tauto.
  - intros -> a. unfold outstanding. rewrite elem_of_app, !elem_of_outstanding. cbn.
    rewrite elem_of_app, Htx. intros [[?|?]|Ha]; [tauto..|].
    left. right. apply list_elem_of_fmap. eauto.
Qed.

(** Ticks in the queue carry a nonce. *)
Definition queue_ok (w : Service) : Prop :=
  forall j t n, JobAction j (TickLaterAction t n) ∈ queue w -> n <> 0.

Lemma queue_ok_app w w' j acts :
  queue_ok w -> queue w' = queue w ++ map (JobAction j) acts ->
  (forall t n, TickLaterAction t n ∈ acts -> n <> 0) -> queue_ok w'.
Proof.
  intros Hq Hqueue Ht j' t n. rewrite Hqueue, elem_of_app. intros [Hin|Hin]; [by eapply Hq|].
  apply list_elem_of_fmap in Hin as (a & [= -> <-] & Ha). by eapply Ht.
Qed.

Lemma outstanding_mono w w' j : queue w ⊆ queue w' -> dropped w ⊆ dropped w' -> outstanding w j ⊆ outstanding w' j.
Proof. intros Hq Hd a. unfold outstanding. rewrite !elem_of_outstanding. set_solver. Qed.

Lemma outstanding_acts w w' j acts :
  queue w' = queue w ++ map (JobAction j) acts -> dropped w' = dropped w ->
  outstanding w j ++ acts ⊆ outstanding w' j.
Proof.
  intros Hq Hd a. unfold outstanding. rewrite elem_of_app, !elem_of_outstanding, Hq, Hd, elem_of_app.
  intros [[?|?]|Ha]; [tauto..|]. left. right. apply list_elem_of_fmap. eauto.
Qed.

(** * Tasks that are taken off a queue *)
Lemma elem_of_removeTask t q x : x ∈ removeTask t q -> x ∈ q.
Proof. induction q as [|y q IH]; cbn; [done|]. case_decide; set_solver. Qed.

Lemma removeTask_other t q x : x ∈ q -> x <> t -> x ∈ removeTask t q.
Proof. induction q as [|y q IH]; cbn; [done|]. case_decide; set_solver. Qed.

Lemma removeTask_app t q q' : t ∈ q -> removeTask t (q ++ q') = removeTask t q ++ q'.
Proof. induction q as [|y q IH]; cbn; [set_solver|]. case_decide; [done|]. intros Hin. rewrite IH; [done|set_solver]. Qed.

Lemma ack_queue_ok again t err w : queue_ok w -> queue_ok (ack again t err w).
Proof.
  intros Hq j when n. unfold ack.
  destruct err as [er|]; [destruct (transientTag er)|]; cbn; [apply Hq| |];
    (destruct again; [apply Hq|]); intros H%elem_of_removeTask; by eapply Hq.
Qed.

(** A task of another job, or one that is no request of its job, can go. *)
Lemma outstanding_ack again t err w j a :
  a ∈ outstanding w j -> JobAction j a <> t -> a ∈ outstanding (ack again t err w) j.
Proof.
  unfold outstanding, ack. intros Ha Hne. rewrite elem_of_outstanding in Ha.
  destruct err as [er|]; [destruct (transientTag er)|]; rewrite elem_of_outstanding;
    cbn [queue dropped]; [done| |];
    (destruct Ha as [Ha|(t' & e' & Ht & Hs)];
      [left; destruct again; [done|by apply removeTask_other]|right; exists t', e'; set_solver]).
Qed.

(** A start request that is given up for a fatal error counts still. *)
Lemma outstanding_ack_fatal again j n who er w :
  transientTag er = false ->
  StartInvocationAction n who ∈ outstanding (ack again (JobAction j (StartInvocationAction n who)) (Some er) w) j.
Proof.
  intros Hf. unfold ack, outstanding. rewrite Hf, elem_of_outstanding. cbn [queue dropped]. right.
  eexists _, er. split; [by left|]. unfold start_of. cbn. by rewrite decide_True.
Qed.

(** * Transactions on the job alone *)
Section Outer.
Context (jitter : Z -> Z -> Z).
Context (ParseDuration : string -> option Z) (parseCronexpr : string -> option (Time -> Time)).
Context (Sprintf : LogMsg -> bytes).
Context `{cat : Catalog}.
Hypothesis jitter_nonneg : forall seed i, 0 <= i -> 0 <= jitter seed i.
Hypothesis cron_next : cron_ok parseCronexpr.
Notation wf_state := (wf_state (never_again parseCronexpr)).
Notation sched_ok := (sched_ok (never_again parseCronexpr)).
Notation machine_ok := (machine_ok (never_again parseCronexpr)).
Notation good := (good (never_again parseCronexpr)).
Notation parseSchedule := (parseSchedule ParseDuration parseCronexpr).
Notation job_ok := (job_ok ParseDuration parseCronexpr).
Notation core := (core ParseDuration parseCronexpr).

Lemma parseSchedule_ok J s : parseSchedule J = Some s -> sched_ok s.
Proof.
  unfold Engine.parseSchedule, Parse. case_match; [intros [= <-]; split; cbn; [lia|done]|].
  set (expr := if String.eqb _ "continuously" then _ else _). case_match.
  - unfold parseWithSchedule. repeat (case_match; try done). intros [= <-]. bool_to_prop.
    split; cbn; [lia|done].
  - unfold parseCronSchedule. case_match eqn:E; [|done]. intros [= <-].
    split; cbn; [lia|]. intros next u [= <-] Hu. destruct (cron_next _ _ u E) as [?|Hz]; [by left|right].
    split; [done|]. by eexists _, _, u.
Qed.

Section Request.
Context (w : Service) (e : Env) (j : string).
Hypothesis Hw : core w.
Hypothesis He : env_ok w e.

(** The job the transaction starts from. *)
Definition old_job : Job := default (newJob j) (jobs w !! j).
Definition old_state : JobState := JobSt old_job.

Lemma old_job_ok : JobID old_job = j /\ wf_state old_state /\
  (Enabled old_job = false <-> State old_state = JobStateDisabled) /\
  (Enabled old_job = true -> is_Some (parseSchedule old_job)).
Proof.
  unfold old_state, old_job. destruct (jobs w !! j) as [J|] eqn:E; cbn.
  - destruct (co_jobs _ _ _ Hw _ _ E). done.
  - split; [done|]. by split; [apply wf_clean|].
Qed.

Lemma old_job_present : InvocationID old_state <> 0 \/ busy (State old_state) = true ->
  jobs w !! j = Some old_job.
Proof. unfold old_state, old_job. destruct (jobs w !! j); [done|]. by intros [H|H]. Qed.

(** A transaction that has made the moves of [moves] on the job, and has only
    added actions of the job. *)
Record tx_good {V} (out : list Action) (tx : Tx V) : Prop := {
  tg_invs : txInvs tx = invs w;
  tg_id : JobID (txJob tx) = j;
  tg_wf : wf_state (JobSt (txJob tx));
  tg_moves : exists r, moves (nonce e r) old_state (JobSt (txJob tx));
  tg_acts : exists acts, txTasks tx = map (JobAction j) acts /\
    covered (JobSt (txJob tx)) (out ++ acts) /\
    (forall t n, TickLaterAction t n ∈ acts -> n <> 0);
}.

Definition outer_post {V} (out : list Action) (tx : Tx V) (r : result error unit) : Prop :=
  match r with
  | Ok _ => tx_good out tx /\ job_ok j (txJob tx)
  | Err er => is_skip er -> txInvs tx = invs w /\ txTasks tx = []
  end.

Lemma moves_expecting drawn s s' n :
  moves drawn s s' -> IsExpectingInvocation s' n = true ->
  IsExpectingInvocation s n = true \/ exists i, n = drawn i.
Proof.
  unfold IsExpectingInvocation. intros Hm He'. apply andb_true_iff in He' as [Hq Hn]. bool_to_prop.
  destruct Hm as [H1 H2 H3 H4|H1 H2 H3|i H1 H2 H3].
  - left. rewrite <-H1, <-H3, Hq, Hn. by rewrite Z.eqb_refl.
  - unfold busy in H3. by rewrite Hq in H3.
  - right. exists i. congruence.
Qed.

Lemma outer_core V out w' (v' : V) err :
  txn_result w j (outer_post out) w' v' err -> core w'.
Proof.
  intros [[-> _]|(tx & put & r & HQ & -> & _ & _ & Hr)]; [done|].
  destruct r as [u|er].
  - destruct HQ as [[Hinvs Hid Hwf [rr Hm] _] Hok].
    assert (Hjobs : forall j' J', jobs (commit_tx w j put tx) !! j' = Some J' ->
      jobs w !! j' = Some J' /\ (j' = j -> J' = txJob tx) \/ j' = j /\ J' = txJob tx).
    { intros j' J'. cbn. subst put. case_bool_decide as Heq; cbn.
      - intros HJ. left. split; [done|]. intros ->. rewrite Heq, HJ. done.
      - destruct (decide (j' = j)) as [->|Hne].
        + rewrite lookup_insert_eq. intros [= <-]. by right.
        + rewrite lookup_insert_ne by done. naive_solver. }
    split; cbn; rewrite ?Hinvs; try (intros; by eapply Hw).
    + intros j' J' HJ. destruct (Hjobs _ _ HJ) as [[? _]|[-> ->]]; [by eapply Hw|done].
    + intros j' J' HJ Hne. destruct (Hjobs _ _ HJ) as [[? _]|[-> ->]]; [by eapply Hw|].
      destruct Hm as [H1 H2 H3 H4|H1 H2 H3|i H1 H2 H3]; [|by rewrite H2 in Hne..].
      rewrite H2 in Hne. rewrite H2, H1, H4. eapply Hw; [|done]. apply old_job_present. auto.
    + intros j' J' id i HJ Hi Hl Hn. destruct (Hjobs _ _ HJ) as [[? _]|[-> ->]]; [by eapply Hw|].
      destruct (co_keys _ _ _ Hw _ _ Hi) as (_ & _ & _ & Hpos). specialize (Hpos Hl).
      destruct Hm as [H1 H2 H3 H4|H1 H2 H3|n H1 H2 H3].
      * rewrite H2. destruct (jobs w !! j) as [J|] eqn:EJ.
        { unfold old_state, old_job in *. rewrite EJ in *. cbn in *. eapply Hw; [done|done|done|congruence]. }
        unfold old_state, old_job in H1. rewrite EJ in H1. cbn in H1. lia.
      * lia.
      * exfalso. eapply (eo_fresh _ _ He rr n); [done|congruence].
    + intros sid s Hs. eapply session_ok_mono; [| |by eapply Hw].
      * cbn. rewrite Hinvs. apply evolves_refl.
      * intros j' n (J' & HJ' & HE) (k & i & Hk & Hn).
        destruct (Hjobs _ _ HJ') as [[? _]|[-> ->]]; [by exists J'|].
        destruct (moves_expecting _ _ _ _ Hm HE) as [Ho|[m ->]].
        -- exists old_job. split; [|done]. apply old_job_present. right.
           unfold IsExpectingInvocation in Ho. apply andb_true_iff in Ho as [Hq _].
           unfold busy. fold old_state in *. by rewrite Hq.
        -- exfalso. by eapply (eo_fresh _ _ He rr m).
  - destruct Hr as [Hskip ->]. destruct (HQ Hskip) as [Hinvs Htasks].
    split; cbn; rewrite ?Hinvs; try (intros; by eapply Hw).
    intros sid s Hs. eapply session_ok_mono; [| |by eapply Hw].
    + cbn. rewrite Hinvs. apply evolves_refl.
    + by apply expects_refl.
Qed.

Lemma handle_no_panic ev m : outer_event ev = true -> handle jitter ev m <> Panic.
Proof.
  destruct ev; try done; cbn. intros _. apply (OnTimerTick_no_panic jitter).
Qed.

Lemma now_pos : 0 < now e.
Proof. pose proof (eo_now _ _ He). unfold id_time, invocationIDEpoch in *. lia. Qed.

(** The machine [rollSM] builds. *)
Definition machine (s : Schedule) (r : nat) (st : JobState) : StateMachine :=
  {| Now := now e; Sched := s; Nonce := nonce e r; nonces := 0; St := st; Actions := [] |}.

Lemma machine_machine_ok J s r st : parseSchedule J = Some s -> machine_ok (machine s r st).
Proof.
  intros Hs. split; [by eapply parseSchedule_ok|]. split; [apply now_pos|apply (eo_nonce _ _ He)].
Qed.

Lemma roll_error_not_skip err : ~ is_skip (roll_error e err).
Proof. unfold is_skip. destruct err; cbn; try done. unfold failure. by destruct (fault e SEnqueueJob) as [[]|]. Qed.

Lemma roll_error_transient err : err <> ErrBadSchedule -> transientTag (roll_error e err) = true.
Proof. destruct err; cbn; try done. by destruct (failure e SEnqueueJob). Qed.

(** [rollSM] with any callback: the machine's result, or an error. *)
Lemma rollSM_post V cb (tx : Tx V) Q :
  (parseSchedule (txJob tx) = None -> Q tx (Err (fatalError (errStateMachine ErrBadSchedule)))) ->
  (forall er, ~ is_skip er -> transientTag er = true -> Q tx (Err er)) ->
  (forall tx' er, txJob tx' = txJob tx -> txTasks tx' = txTasks tx -> txInvs tx' = txInvs tx ->
     txVars tx' = txVars tx -> Q tx (Err er) -> Q tx' (Err er)) ->
  (forall s, parseSchedule (txJob tx) = Some s ->
     match cb (machine s (txRolls tx) (JobSt (txJob tx))) with
     | Panic => False
     | Ret (m', Some err) => err <> ErrBadSchedule
     | Ret (m', None) =>
         Q {| txJob := with_JobSt (St m') (txJob tx); txInvs := txInvs tx;
              txTasks := txTasks tx ++ map (JobAction (JobID (txJob tx))) (Actions m');
              txRolls := S (txRolls tx); txVars := txVars tx |} (Ok tt)
     end) ->
  post (rollSM ParseDuration parseCronexpr e cb) tx Q.
Proof.
  intros Hbad Htr Hext Hcb. unfold post, rollSM, SchedulerSM.rollSM.
  assert (Hback : forall er, Q tx (Err er) -> Q {| txJob := txJob tx; txInvs := txInvs tx;
    txTasks := txTasks tx ++ map (JobAction (JobID (txJob tx))) []; txRolls := S (txRolls tx);
    txVars := txVars tx |} (Err er)) by (intros er Hq; eapply Hext; [..|exact Hq]; cbn; by rewrite ?app_nil_r).
  destruct (parseSchedule (txJob tx)) as [s|] eqn:Es; cbn [mbind outcome_bind].
  2:{ apply Hback. by apply Hbad. }
  specialize (Hcb s eq_refl). unfold machine in Hcb.
  destruct (cb _) as [[m' [err|]]|]; cbn [mbind outcome_bind]; [| |done].
  - apply Hback, Htr; [apply roll_error_not_skip|by apply roll_error_transient].
  - destruct (negb _ && _); cbn [mbind outcome_bind]; [|exact Hcb].
    apply Hback, Htr; [apply roll_error_not_skip|by apply roll_error_transient].
Qed.

Lemma roll_post V out (tx : Tx V) ev :
  tx_good out tx -> outer_event ev = true -> event_ok ev ->
  (forall n, ev = EvTimerTick n -> txTasks tx = []) ->
  post (roll jitter ParseDuration parseCronexpr e ev) tx (fun tx' r =>
    match r with
    | Ok _ => tx_good (undelivered ev out) tx' /\ (exists st, txJob tx' = with_JobSt st (txJob tx)) /\
        is_Some (parseSchedule (txJob tx)) /\
        (State (JobSt (txJob tx')) = JobStateDisabled <->
         match ev with
         | EvJobEnabled => False
         | EvJobDisabled => True
         | _ => State (JobSt (txJob tx)) = JobStateDisabled
         end)
    | Err er => ~ is_skip er /\ (transientTag er = true \/ parseSchedule (txJob tx) = None)
    end).
Proof.
  intros [Hinvs Hid Hwf [rr Hm] (acts & Hacts & Hcov & Hticks)] Hev Hok Htick.
  apply rollSM_post; [intros; split; [done|by right]|auto| |].
  { by intros. }
  intros s Hs. set (m := machine _ _ _).
  pose proof (machine_machine_ok _ _ (txRolls tx) (JobSt (txJob tx)) Hs) as Hmok. fold m in Hmok.
  destruct (handle jitter ev m) as [[m' [er|]]|] eqn:Eh.
  - intros ->. destruct ev; cbn in Eh; simplify_eq; try discriminate Hev.
    + revert Eh. unfold OnTimerTick. repeat case_match; intros; simplify_eq.
    + revert Eh. unfold OnManualInvocation. by repeat case_match.
  - assert (Hg : good m (out ++ acts)) by (split; [done|cbn; by rewrite app_nil_r]).
    destruct (handle_good jitter (never_again parseCronexpr) jitter_nonneg ev m m' (out ++ acts) Hmok Hok Hg eq_refl Eh) as [Hwf' Hcov'].
    pose proof (handle_moves jitter (never_again parseCronexpr) ev m m' Hev Hwf Eh) as Hm'.
    pose proof (handle_disabled jitter (never_again parseCronexpr) ev m m' Hev Hwf Eh) as Hd'.
    destruct (handle_ticks jitter ev m m' Hev Eh) as [_ Ht'].
    { split; [apply (eo_nonce _ _ He)|]. cbn. intros ? ? Hin. by apply elem_of_nil in Hin. }
    split; [|split; [eauto|split; [eauto|done]]].
    split; cbn; [done|done|done| |].
    + destruct (moves_trans _ _ _ _ _ Hm Hm'); [by exists rr|by exists (txRolls tx)].
    + exists (acts ++ Actions m'). split; [by rewrite Hacts, Hid, map_app|]. split.
      * eapply covered_mono; [|exact Hcov'].
        destruct ev; try discriminate Hev; try (cbn [undelivered]; rewrite <-app_assoc; reflexivity).
        rewrite (Htick _ eq_refl) in Hacts. symmetry in Hacts. apply map_eq_nil in Hacts as ->.
        by rewrite app_nil_r.
      * intros t n. rewrite elem_of_app. intros [?|?]; eauto.
  - by apply (handle_no_panic ev m) in Hev.
Qed.

(** ** The callbacks *)
Context (out : list Action).
Hypothesis Hout : covered old_state out.

Lemma start_good {V} (v : V) : tx_good out (start_tx w j v).
Proof.
  destruct old_job_ok as (? & ? & _). split; [done|done|done| |].
  - exists 0%nat. by apply moves_keep.
  - exists []. split; [done|]. split; [by rewrite app_nil_r|]. intros ? ? Hin. by apply elem_of_nil in Hin.
Qed.

Lemma tx_good_setJob {V} (tx : Tx V) J :
  tx_good out tx -> JobID J = j -> JobSt J = JobSt (txJob tx) ->
  tx_good out {| txJob := J; txInvs := txInvs tx; txTasks := txTasks tx; txRolls := txRolls tx;
                 txVars := txVars tx |}.
Proof. intros [] Hid Hs. split; cbn; rewrite ?Hs; done. Qed.

Lemma start_skip {V} (v : V) r : r = Err (fatalError errSkipPut) -> outer_post out (start_tx w j v) r.
Proof. by intros ->. Qed.

(** The end of most callbacks: a transition, after which the job is well formed. *)
Lemma roll_last V (tx : Tx V) ev :
  tx_good out tx -> outer_event ev = true -> event_ok ev ->
  (forall n, ev = EvTimerTick n -> txTasks tx = []) ->
  (Enabled (txJob tx) = false <->
   match ev with
   | EvJobEnabled => False
   | EvJobDisabled => True
   | _ => State (JobSt (txJob tx)) = JobStateDisabled
   end) ->
  post (roll jitter ParseDuration parseCronexpr e ev) tx (outer_post (undelivered ev out)).
Proof.
  intros Htx Hev Hok Htick Hen. eapply post_mono; [by apply roll_post|].
  intros tx' [u|er] H; cbn; [|intros Hs; by destruct H].
  destruct H as (Hgood & [st Hst] & Hparse & Hd). split; [done|].
  split; rewrite Hst; cbn.
  - apply Htx.
  - pose proof (tg_wf _ _ Hgood) as Hwf. by rewrite Hst in Hwf.
  - rewrite Hst in Hd. cbn in Hd. rewrite Hd. done.
  - by intros _.
Qed.

Lemma is_new_old : is_new w j = true -> old_job = newJob j.
Proof. unfold is_new, old_job. destruct (jobs w !! j); [|done]. intros H. by rewrite bool_decide_true in H by eauto. Qed.


Lemma disableJob_post :
  exists w' v' err, disableJob jitter ParseDuration parseCronexpr e w j = Ret (w', v', err) /\
    txn_result w j (outer_post out) w' v' err.
Proof.
  apply txn_post. tx_step.
  change (txJob (start_tx w j ())) with old_job.
  destruct (is_new w j || negb (Enabled old_job)) eqn:E; [by apply start_skip|].
  tx_step.
  apply (roll_last _ _ EvJobDisabled); [|done..].
  apply tx_good_setJob; [apply start_good|apply old_job_ok|done].
Qed.

Lemma resetJob_post :
  exists w' v' err, resetJobOnDevServer jitter ParseDuration parseCronexpr e w j = Ret (w', v', err) /\
    txn_result w j (outer_post out) w' v' err.
Proof.
  apply txn_post. tx_step.
  change (txJob (start_tx w j ())) with old_job.
  destruct (is_new w j || negb (Enabled old_job)) eqn:E; [by apply start_skip|].
  bool_to_prop. apply post_bind.
  eapply post_mono; [by eapply roll_post; [apply start_good|..]|].
  intros tx [u|er]; [|intros [Hs _] Hs'; by destruct Hs].
  intros (Hgood & [st Hst] & _). apply (roll_last _ _ EvJobEnabled); try done.
  rewrite Hst. cbn. by change (Enabled old_job = false <-> False); rewrite H0.
Qed.

Lemma setPausedFlag_post paused :
  exists w' v' err, setPausedFlag jitter ParseDuration parseCronexpr e w j paused = Ret (w', v', err) /\
    txn_result w j (outer_post out) w' v' err.
Proof.
  apply txn_post. tx_step. change (txJob (start_tx w j ())) with old_job.
  destruct (is_new w j || negb (Enabled old_job)) eqn:E; [done|].
  case_match; [by apply start_skip|]. tx_step.
  apply (roll_last _ _ EvScheduleChange); [|done..|].
  - apply tx_good_setJob; [apply start_good|apply old_job_ok|done].
  - cbn. apply old_job_ok.
Qed.

Lemma TriggerInvocation_post who :
  exists w' v' err, TriggerInvocation jitter ParseDuration parseCronexpr e w j who = Ret (w', v', err) /\
    exists v err', txn_result w j (outer_post (V := Z * option error) out) w' v err'.
Proof.
  edestruct (txn_post e w j (0, None : option error)) as (w' & [n oe] & err & Heq & Hres);
    [|unfold TriggerInvocation; setoid_rewrite Heq; cbn; eauto 10].
  cbn beta. tx_step. change (txJob (start_tx w j (0, None))) with old_job.
  destruct (is_new w j) eqn:En; [by tx_step|].
  destruct (Enabled old_job) eqn:E; cbn [negb]; [|by tx_step].
  tx_step. apply (roll_last _ _ (EvManualInvocation who)); [|done..|].
  - apply (start_good (manualNonce ParseDuration parseCronexpr e old_job who, None : option error)).
  - cbn. apply old_job_ok.
Qed.

Lemma AbortJob_post :
  exists w' id err,
    txn e w j 0 (fun isNew => if isNew then skipPut
      else job ← getJob; setVars (InvocationID (JobSt job));; roll jitter ParseDuration parseCronexpr e EvManualAbort)
      = Ret (w', id, err) /\ txn_result w j (outer_post out) w' id err.
Proof.
  apply txn_post. destruct (is_new w j) eqn:En; [by apply start_skip|].
  tx_step. tx_step. apply (roll_last _ _ EvManualAbort); [|done..|].
  - apply (start_good (InvocationID old_state)).
  - cbn. apply old_job_ok.
Qed.

Lemma jobTimerTick_post n : n <> 0 ->
  exists w' v' err, jobTimerTick jitter ParseDuration parseCronexpr e w j n = Ret (w', v', err) /\
    txn_result w j (fun tx r => outer_post (undelivered (EvTimerTick n) out) tx r /\
      match r with
      | Ok _ => True
      | Err er => (is_skip er -> is_new w j = true) /\
                  (is_skip er \/ transientTag er = true \/ parseSchedule old_job = None)
      end) w' v' err.
Proof.
  intros Hn. apply txn_post. destruct (is_new w j) eqn:En; [by split; [|split; [|left]]|].
  assert (Hen : Enabled old_job = false <-> State (JobSt old_job) = JobStateDisabled) by apply old_job_ok.
  pose proof (roll_last unit (start_tx w j ()) (EvTimerTick n) (start_good ()) eq_refl Hn
    (fun _ _ => eq_refl) Hen) as H1.
  pose proof (roll_post unit out (start_tx w j ()) (EvTimerTick n) (start_good ()) eq_refl Hn
    (fun _ _ => eq_refl)) as H2.
  unfold post in *. destruct (roll _ _ _ _ _ _) as [[tx [u|er]]|]; [done| |done].
  split; [done|]. destruct H2 as [Hns H2]. split; [done|by right].
Qed.

Lemma updateJob_post def : defJobID def = j ->
  exists w' v' err, updateJob jitter ParseDuration parseCronexpr e w def = Ret (w', v', err) /\
    txn_result w j (outer_post out) w' v' err.
Proof.
  intros Hj. unfold updateJob. rewrite Hj. apply txn_post. tx_step.
  change (txJob (start_tx w j ())) with old_job. case_match; [by apply start_skip|].
  assert (Hjob : forall J, JobID J = j -> JobSt J = old_state -> Enabled J = Enabled old_job ->
    (Enabled J = true -> is_Some (parseSchedule J)) ->
    post (setJob (with_def def J);;
      (if Enabled J then mret tt else roll jitter ParseDuration parseCronexpr e EvJobEnabled);;
      updated ← getJob;
      (if negb (String.eqb (effectiveSchedule updated) (effectiveSchedule J))
       then roll jitter ParseDuration parseCronexpr e EvScheduleChange else mret tt))
      (start_tx w j ()) (outer_post out)).
  { intros J HJ Hst Hen Hparse. tx_step. set (tx := {| txJob := _ |}).
    assert (Htx : tx_good out tx).
    { apply tx_good_setJob; [apply start_good|done|exact Hst]. }
    apply post_bind. destruct (Enabled J) eqn:E.
    - apply post_ret. tx_step. cbn [txJob tx].
      assert (Hk : State old_state <> JobStateDisabled)
        by (intros Hk; apply old_job_ok in Hk; congruence).
      destruct (String.eqb _ _) eqn:Es; cbn [negb].
      + apply post_ret. split; [done|]. split; cbn; [done|by rewrite Hst; apply old_job_ok| |].
        * rewrite Hst. split; [done|]. by intros.
        * intros _. destruct (Hparse eq_refl) as [s Hs]. exists s. rewrite <-Hs.
          apply String.eqb_eq in Es. unfold Engine.parseSchedule. by rewrite <-Es.
      + apply (roll_last _ _ EvScheduleChange); [done..|]. cbn. rewrite Hst. split; [done|]. by intros.
    - eapply post_mono; [eapply (roll_last _ _ EvJobEnabled); [done..|]|]; [cbn; by split|].
      intros tx' [u|er]; [|done]. intros [Hgood Hok]. tx_step.
      destruct (String.eqb _ _); cbn [negb]; [by apply post_ret|].
      apply (roll_last _ _ EvScheduleChange); [done..|]. apply (jo_enabled _ _ _ _ Hok). }
  apply post_bind. destruct (is_new w j) eqn:En.
  - pose proof (is_new_old En) as Hold. repeat (case_match; try done).
    apply post_ret. apply Hjob; unfold old_state; by rewrite ?Hold.
  - apply post_ret. apply Hjob; try done; apply old_job_ok.
Qed.

Lemma outer_invs V o w' (v' : V) err : txn_result w j (outer_post o) w' v' err -> invs w' = invs w.
Proof.
  intros [[-> _]|(tx & put & r & HQ & -> & _ & _ & Hr)]; [done|]. cbn. destruct r as [u|er].
  - apply HQ.
  - destruct Hr as [Hskip _]. by destruct (HQ Hskip).
Qed.

(** ** Queues *)
Lemma outer_jobs V o w' (v' : V) err :
  txn_result w j (outer_post o) w' v' err ->
  sessions w' = sessions w /\ dropped w' = dropped w /\
  exists acts, queue w' = queue w ++ map (JobAction j) acts /\
    (forall t n, TickLaterAction t n ∈ acts -> n <> 0) /\
    forall j' J', jobs w' !! j' = Some J' ->
      jobs w !! j' = Some J' \/ j' = j /\ covered (JobSt J') (o ++ acts).
Proof.
  intros [[-> _]|(tx & put & r & HQ & -> & _ & _ & Hr)]; (split; [done|split; [done|]]).
  { exists []. cbn. rewrite app_nil_r. split; [done|]. split; [|auto].
    intros ? ? Hin. by apply elem_of_nil in Hin. }
  destruct r as [u|er].
  - destruct HQ as [[Hinvs Hid Hwf _ (acts & Hacts & Hcov & Hticks)] _]. exists acts. cbn.
    split; [by rewrite Hacts|]. split; [done|]. intros j' J'. subst put. case_bool_decide; cbn; [auto|].
    destruct (decide (j' = j)) as [->|Hne]; [|rewrite lookup_insert_ne by done; auto].
    rewrite lookup_insert_eq. intros [= <-]. auto.
  - destruct Hr as [Hskip ->]. destruct (HQ Hskip) as [_ Htasks]. exists []. cbn. rewrite Htasks, app_nil_r.
    split; [done|]. split; [|auto]. intros ? ? Hin. by apply elem_of_nil in Hin.
Qed.
End Request.

Definition invariant (w : Service) : Prop := core w /\ cover w /\ queue_ok w.

Lemma cover_state w j : cover w -> covered (old_state w j) (outstanding w j).
Proof.
  intros Hc. unfold old_state, old_job. destruct (jobs w !! j) eqn:E; cbn; [by apply Hc|].
  split; [done|]. intros Hq. discriminate Hq.
Qed.

(** A transaction on the job alone keeps the invariant, with all that is in the queues. *)
Lemma outer_invariant V w e j o w' (v' : V) err :
  invariant w -> env_ok w e -> o ⊆ outstanding w j ->
  txn_result w j (outer_post w e j o) w' v' err -> invariant w'.
Proof.
  intros (Hco & Hcv & Hq) He Ho Hres.
  destruct (outer_jobs _ _ _ _ _ _ _ _ Hres) as (_ & Hd & acts & Hqueue & Hticks & Hjobs).
  split; [by eapply (outer_core w e j)|]. split; [|by eapply queue_ok_app].
  intros j' J' HJ. destruct (Hjobs _ _ HJ) as [HJ'|[-> Hc]].
  - eapply covered_mono; [|by eapply Hcv]. apply outstanding_mono; [rewrite Hqueue; set_solver|by rewrite Hd].
  - eapply covered_mono; [|exact Hc]. pose proof (outstanding_acts w w' j acts Hqueue Hd). set_solver.
Qed.

Lemma ack_core again t err w : core w -> core (ack again t err w).
Proof.
  intros [H1 H2 H3 H4 H5 H6]. unfold ack.
  destruct err as [er|]; [destruct (transientTag er)|]; (split; [done..|]); intros sid s Hs;
    (apply (session_ok_mono w); [apply evolves_refl|by apply expects_refl|by eapply H6]).
Qed.

Lemma ack_invariant again t err w :
  invariant w -> tick_task t = false ->
  (err = None -> forall j n who, t = JobAction j (StartInvocationAction n who) -> ~ expecting w j n) ->
  invariant (ack again t err w).
Proof.
  intros (Hco & Hcv & Hq) Htick Hne. split; [by apply ack_core|]. split; [|by apply ack_queue_ok].
  intros j J HJ.
  assert (HJ' : jobs w !! j = Some J).
  { revert HJ. unfold ack. destruct err as [er|]; [destruct (transientTag er)|]; done. }
  destruct (Hcv _ _ HJ') as [Ht Hr]. split.
  - intros a Ha. apply outstanding_ack; [by apply Ht|]. intros <-.
    unfold awaited_tick in Ha. case_match; [done|]. by simplify_eq.
  - intros Hqd. destruct (Hr Hqd) as [who Hwho]. exists who.
    destruct (decide (JobAction j (StartInvocationAction (InvocationNonce (JobSt J)) who) = t)) as [<-|Hn];
      [|by apply outstanding_ack].
    destruct err as [er|].
    + destruct (transientTag er) eqn:E; [unfold ack; by rewrite E|by apply outstanding_ack_fatal].
    + exfalso. eapply Hne; [done..|]. exists J. split; [done|].
      unfold IsExpectingInvocation. by rewrite Hqd, Z.eqb_refl.
Qed.

(** A tick that was handled is the one the job waited for, or none it waits for. *)
Lemma tick_invariant w e j t n again :
  invariant w -> env_ok w e -> JobAction j (TickLaterAction t n) ∈ queue w ->
  exists w' v err, jobTimerTick jitter ParseDuration parseCronexpr e w j n = Ret (w', v, err) /\
    invs w' = invs w /\ invariant (ack again (JobAction j (TickLaterAction t n)) err w').
Proof.
  intros Hinv He Ht. pose proof Hinv as (Hco & Hcv & Hq).
  pose proof (cover_state w j Hcv) as Hst.
  destruct (jobTimerTick_post w e j Hco He _ Hst n (Hq _ _ _ Ht)) as (w' & v & err & Heq & Hres).
  exists w', v, err. split; [done|].
  assert (Hres' : txn_result w j (outer_post w e j (undelivered (EvTimerTick n) (outstanding w j))) w' v err).
  { destruct Hres as [(-> & er & -> & Her)|(tx & put & r & [HQ _] & H)]; [left|right; eauto 10].
    split; [done|]. exists er. split; [done|]. destruct Her as [?|(tx & [? _] & ?)]; eauto. }
  assert (Hund : undelivered (EvTimerTick n) (outstanding w j) ⊆ outstanding w j).
  { intros a Ha. by apply list_elem_of_filter in Ha as [_ ?]. }
  pose proof (outer_invariant _ _ _ _ _ _ _ _ Hinv He Hund Hres') as Hinv'.
  destruct Hinv' as (Hco' & Hcv' & Hq'). split; [by eapply outer_invs|].
  split; [by apply ack_core|]. split; [|by apply ack_queue_ok].
  destruct (outer_jobs _ _ _ _ _ _ _ _ Hres') as (_ & Hd & acts & Hqueue & _ & Hjobs).
  assert (Hack : forall er, transientTag er = true -> ack again (JobAction j (TickLaterAction t n)) (Some er) w' = w')
    by (intros er Her; unfold ack; by rewrite Her).
  intros j' J' HJ.
  assert (HJ' : jobs w' !! j' = Some J').
  { revert HJ. unfold ack. destruct err as [er|]; [destruct (transientTag er)|]; done. }
  (* tasks of another job, or other actions *)
  assert (Hother : forall a, (j' <> j \/ a <> TickLaterAction t n) ->
    a ∈ outstanding w' j' -> a ∈ outstanding (ack again (JobAction j (TickLaterAction t n)) err w') j').
  { intros a Hne Ha. apply outstanding_ack; [done|]. intros [= -> ->]. by destruct Hne. }
  destruct (decide (j' = j)) as [->|Hne].
  2:{ destruct (Hcv' _ _ HJ') as [Hta Hra]. split; [intros a Ha; apply Hother; auto|].
      intros Hqd. destruct (Hra Hqd) as [who ?]. exists who. apply Hother; auto. }
  destruct err as [er|].
  { destruct (transientTag er) eqn:Etr; [rewrite Hack by done; by apply Hcv'|].
    destruct Hres as [(-> & er' & [= <-] & [?|(tx & [_ Hf] & Hns)])|(tx & put & r & _ & _ & _ & [?|(er' & [= <-] & ?)] & _)];
      [congruence| |done|congruence].
    (* the job is not there, or it is disabled *)
    destruct Hf as [_ [?|[?|Hparse]]]; [done|congruence|].
    unfold old_job in Hparse. rewrite HJ' in Hparse. cbn in Hparse.
      destruct (Enabled J') eqn:Een; [destruct (jo_parse _ _ _ _ (co_jobs _ _ _ Hco _ _ HJ') Een); congruence|].
      apply (co_jobs _ _ _ Hco _ _ HJ') in Een.
      rewrite (wf_disabled _ _ (jo_wf _ _ _ _ (co_jobs _ _ _ Hco _ _ HJ')) Een). split; [done|].
      intros Hqd. discriminate Hqd. }
  (* the tick is gone; what the job waits for is still there or has just been submitted *)
  assert (Hsub : undelivered (EvTimerTick n) (outstanding w j) ++ acts ⊆
    outstanding (ack again (JobAction j (TickLaterAction t n)) None w') j).
  { intros a [Ha|Ha]%elem_of_app.
    - apply list_elem_of_filter in Ha as [Hnt Ha]. apply Hother; [|].
      + right. intros ->. cbn in Hnt. by rewrite Z.eqb_refl in Hnt.
      + eapply outstanding_mono; [..|exact Ha]; [rewrite Hqueue; set_solver|by rewrite Hd].
    - unfold outstanding. rewrite elem_of_outstanding. left. cbn [queue ack]. destruct again.
      + rewrite Hqueue, elem_of_app. right. apply list_elem_of_fmap. eauto.
      + rewrite Hqueue, removeTask_app by done. rewrite elem_of_app. right. apply list_elem_of_fmap. eauto. }
  destruct Hres as [(_ & er & ? & _)|(tx & put & r & [HQ Hf] & -> & _ & _ & Hr)]; [done|].
  destruct r as [u|er].
  - destruct HQ as [[_ _ _ _ (acts' & Hacts' & Hcov & _)] _].
    cbn in Hqueue. apply app_inv_head in Hqueue. rewrite Hacts' in Hqueue.
    assert (acts' = acts) as ->.
    { assert (Inj (=) (=) (JobAction j)) by (intros ? ? [= ->]; done). by apply (inj (fmap (JobAction j))). }
    replace J' with (txJob tx); [by eapply covered_mono|].
    subst put. revert HJ'. cbn. case_bool_decide as Heq2; cbn.
    + intros HJ'. rewrite Heq2, HJ'. done.
    + rewrite lookup_insert_eq. by intros [= <-].
  - destruct Hr as [Hskip ->]. destruct Hf as [Hnew _]. specialize (Hnew Hskip).
    unfold is_new in Hnew. cbn in HJ'. by rewrite HJ', bool_decide_true in Hnew by eauto.
Qed.
End Outer.
