(* ===== verification/EngineSave.v ===== *)
(** The invariant is kept when a controller saves its invocation
    ([saveImpl]) and when an attempt is started ([startInvocation]'s
    transaction). *)
From S2P Require Import Prelude SchedulerSM DebugLog Engine EngineInv EngineOuter.
Local Open Scope Z_scope.

Section Save.
Context (jitter : Z -> Z -> Z).
Context (ParseDuration : string -> option Z) (parseCronexpr : string -> option (Time -> Time)).
Context (Sprintf : LogMsg -> bytes).
Context `{cat : Catalog}.
Hypothesis jitter_nonneg : forall seed i, 0 <= i -> 0 <= jitter seed i.
Hypothesis cron_next : cron_ok parseCronexpr.
Notation wf_state := (wf_state (never_again parseCronexpr)).
Notation sched_ok := (sched_ok (never_again parseCronexpr)).
Notation machine_ok := (machine_ok (never_again parseCronexpr)).
Notation good := (good (never_again parseCronexpr)).
Notation parseSchedule := (parseSchedule ParseDuration parseCronexpr).
Notation job_ok := (job_ok ParseDuration parseCronexpr).
Notation core := (core ParseDuration parseCronexpr).
Notation invariant := (invariant ParseDuration parseCronexpr).
Notation rollSM := (rollSM ParseDuration parseCronexpr).

Section Request.
Context (w : Service) (e : Env) (j : string).
Hypothesis Hinv : invariant w.
Hypothesis He : env_ok w e.

(** A transaction whose invocations are [m], whose job satisfies [R], and that
    has added the tasks [pre] and actions of the job. *)
Record tx_at {V : Type} (m : gmap InvKey Invocation) (pre : list Task) (out : list Action)
    (R : JobState -> Prop) (tx : Tx V) : Prop := {
  ta_invs : txInvs tx = m;
  ta_id : JobID (txJob tx) = j;
  ta_job : txJob tx = with_JobSt (JobSt (txJob tx)) (old_job w j);
  ta_wf : wf_state (JobSt (txJob tx));
  ta_rel : R (JobSt (txJob tx));
  ta_acts : exists acts, txTasks tx = pre ++ map (JobAction j) acts /\
    covered (JobSt (txJob tx)) (out ++ acts) /\
    (forall t n, TickLaterAction t n ∈ acts -> n <> 0);
}.

Lemma with_JobSt_same J : with_JobSt (JobSt J) J = J.
Proof. by destruct J. Qed.

Lemma rollSM_at V m pre out (R R' : JobState -> Prop) (tx : Tx V) cb :
  tx_at m pre out R tx -> Enabled (old_job w j) = true ->
  (forall sm o, machine_ok sm -> ticks_drawn sm -> Nonce sm = nonce e (txRolls tx) -> good sm o -> R (St sm) ->
     exists sm', cb sm = Ret (sm', None) /\ good sm' o /\ R' (St sm') /\ ticks_drawn sm') ->
  post (rollSM e cb) tx (fun tx' r =>
    match r with
    | Ok _ => tx_at m pre out R' tx' /\ txVars tx' = txVars tx
    | Err er => ~ is_skip er /\ transientTag er = true
    end).
Proof.
  intros [Hm Hid Hjob Hwf HR (acts & Hacts & Hcov & Hticks)] Hen Hcb.
  assert (Hp : is_Some (parseSchedule (txJob tx))).
  { rewrite Hjob. apply (old_job_ok _ _ w j (proj1 Hinv)) in Hen as Hp. done. }
  apply rollSM_post.
  - intros Hn. rewrite Hn in Hp. by destruct Hp.
  - by intros.
  - by intros.
  - intros s Hs. set (sm := machine _ _ _ _).
    destruct (Hcb sm (out ++ acts)) as (sm' & -> & [Hwf' Hcov'] & HR' & [_ Ht']).
    + by eapply machine_machine_ok.
    + split; [apply (eo_nonce _ _ He)|]. cbn. intros ? ? Hin. by apply elem_of_nil in Hin.
    + done.
    + split; [done|]. cbn. by rewrite app_nil_r.
    + done.
    + split; [|done]. split; cbn; try done.
      * by rewrite Hjob.
      * exists (acts ++ Actions sm'). split; [by rewrite Hacts, Hid, map_app, app_assoc|].
        split; [by rewrite app_assoc|]. intros t n. rewrite elem_of_app. intros [?|?]; eauto.
Qed.

(** ** Queues and jobs after such a transaction *)
Lemma tx_at_queue V m pre out R (tx : Tx V) put :
  (forall t, t ∈ pre -> tick_task t = false) ->
  out ⊆ outstanding w j -> tx_at m pre out R tx ->
  put = negb (bool_decide (txJob tx = old_job w j)) ->
  cover (commit_tx w j put tx) /\ queue_ok (commit_tx w j put tx).
Proof.
  intros Hpre Hout [_ _ _ _ _ (acts & Hacts & Hcov & Hticks)] ->. destruct Hinv as (_ & Hcv & Hq). split.
  - intros j' J'. cbn.
    assert (Hmono : forall j'', outstanding w j'' ⊆ outstanding (commit_tx w j (negb (bool_decide (txJob tx = old_job w j))) tx) j'')
      by (intros j''; apply outstanding_mono; cbn; set_solver).
    assert (Hnew : covered (JobSt (txJob tx)) (outstanding (commit_tx w j (negb (bool_decide (txJob tx = old_job w j))) tx) j)).
    { eapply covered_mono; [|exact Hcov]. intros a [Ha|Ha]%elem_of_app; [by apply Hmono, Hout|].
      unfold outstanding. rewrite elem_of_outstanding. left. cbn. rewrite Hacts, !elem_of_app.
      right. right. apply list_elem_of_fmap. eauto. }
    case_bool_decide as Heq; cbn.
    + intros HJ. eapply covered_mono; [apply Hmono|]. by apply Hcv.
    + destruct (decide (j' = j)) as [->|Hne].
      * rewrite lookup_insert_eq. by intros [= <-].
      * rewrite lookup_insert_ne by done. intros HJ. eapply covered_mono; [apply Hmono|]. by apply Hcv.
  - intros j' t n. cbn. rewrite Hacts, !elem_of_app. intros [Hin|[Hin|Hin]].
    + by eapply Hq.
    + by specialize (Hpre _ Hin).
    + apply list_elem_of_fmap in Hin as (a & [= -> <-] & Ha). by eapply Hticks.
Qed.

Lemma commit_jobs {V} (tx : Tx V) put j' J' :
  put = negb (bool_decide (txJob tx = old_job w j)) ->
  jobs (commit_tx w j put tx) !! j' = Some J' ->
  j' <> j /\ jobs w !! j' = Some J' \/ j' = j /\ J' = txJob tx.
Proof.
  intros ->. cbn. case_bool_decide as Heq; cbn.
  - intros HJ. destruct (decide (j' = j)) as [->|]; [right|by left].
    split; [done|]. rewrite Heq. unfold old_job. by rewrite HJ.
  - destruct (decide (j' = j)) as [->|Hne].
    + rewrite lookup_insert_eq. intros [= <-]. by right.
    + rewrite lookup_insert_ne by done. auto.
Qed.

(** ** The entity that is saved *)
Lemma toSave_fields c u :
  inv_key (toSave Sprintf e c u) = inv_key (saved c) /\ InvNonce (toSave Sprintf e c u) = InvNonce (saved c) /\
  InvStatus (toSave Sprintf e c u) = tsStatus (state c) /\
  MutationsCount (toSave Sprintf e c u) = MutationsCount (saved c) + 1.
Proof. unfold toSave. by case_match. Qed.

Lemma trimmed_fields i :
  inv_key (trimmed i) = inv_key i /\ InvNonce (trimmed i) = InvNonce i /\
  InvStatus (trimmed i) = InvStatus i /\ MutationsCount (trimmed i) = MutationsCount i.
Proof. done. Qed.

(** ** The transitions of a save *)
Definition saves (started finished : bool) (s s' : JobState) : Prop :=
  State s' <> JobStateDisabled /\
  if (started || is_running (State s)) && finished
  then InvocationNonce s' = 0 /\ InvocationID s' = 0 /\ busy (State s') = false
  else InvocationNonce s' = InvocationNonce s /\ InvocationID s' = InvocationID s /\
       is_running (State s') = started || is_running (State s) /\
       is_queued (State s') = is_queued (State s) && negb started.

Lemma started_step sm o id :
  good sm o -> ticks_drawn sm -> InvocationID (St sm) = id -> id <> 0 -> is_queued (State (St sm)) = true ->
  exists sm', handle jitter (EvInvocationStarted id) sm = Ret (sm', None) /\ good sm' o /\
    saves true false (St sm) (St sm') /\ ticks_drawn sm'.
Proof.
  intros Hg Ht Hid H0 Hq. cbn.
  destruct (OnInvocationStarted sm id) as [sm'|] eqn:E.
  - exists sm'. split; [done|]. split; [by eapply OnInvocationStarted_good|].
    revert E. unfold OnInvocationStarted. rewrite Hid, Z.eqb_refl.
    destruct (St sm) as [k ? ? ? ? ? ? ? ?]; cbn in *. destruct k; try done; by intros [= <-].
  - revert E. unfold OnInvocationStarted. rewrite Hid, Z.eqb_refl. by destruct (State (St sm)).
Qed.

Lemma invocationFinished_idle sm :
  InvocationNonce (St (invocationFinished jitter sm)) = 0 /\
  InvocationID (St (invocationFinished jitter sm)) = 0 /\
  busy (State (St (invocationFinished jitter sm))) = false /\
  State (St (invocationFinished jitter sm)) <> JobStateDisabled.
Proof.
  unfold invocationFinished. set (sm1 := resetInvocation _).
  destruct (scheduleTick_St jitter sm1) as (t & n & Ht).
  assert (Hk : State (St (scheduleTick jitter sm1)) = JobStateScheduled) by (by rewrite scheduleTick_kind).
  unfold maybeSuspendOrResume. rewrite Hk. cbn. case_match; cbn; rewrite ?Ht, ?Hk; done.
Qed.

Lemma done_step sm o id :
  machine_ok sm -> good sm o -> ticks_drawn sm -> InvocationID (St sm) = id -> State (St sm) <> JobStateDisabled ->
  exists sm', handle jitter (EvInvocationDone id) sm = Ret (sm', None) /\ good sm' o /\
    saves false true (St sm) (St sm') /\ ticks_drawn sm'.
Proof.
  intros Hm Hg Ht Hid Hd. cbn. eexists. split; [done|]. split; [by eapply OnInvocationDone_good|].
  unfold OnInvocationDone, saves. cbn [orb]. rewrite Hid, Z.eqb_refl. cbn [negb].
  destruct (is_running (State (St sm))) eqn:E; cbn [negb andb].
  - pose proof (invocationFinished_idle sm) as (? & ? & ? & ?). split; [by split|].
    by apply invocationFinished_ticks.
  - by rewrite andb_true_r.
Qed.

Lemma saves_after b s0 s1 s2 : saves b false s0 s1 -> saves false true s1 s2 -> saves b true s0 s2.
Proof.
  unfold saves. rewrite !andb_false_r, !andb_true_r. cbn [orb]. intros (_ & H1 & H2 & H3 & H4) [H5 H6].
  split; [done|]. rewrite H3 in H6. destruct (b || is_running (State s0)) eqn:E; [done|].
  destruct H6 as (-> & -> & -> & ->). rewrite H4. destruct b; [done|]. by rewrite !andb_true_r.
Qed.

(** The two transitions of a save of the current invocation. *)
Lemma save_rolls V m pre (tx : Tx V) (c : Controller) :
  tx_at m pre (outstanding w j) (eq (old_state w j)) tx -> Enabled (old_job w j) = true ->
  InvocationID (old_state w j) = InvID (saved c) -> InvID (saved c) <> 0 ->
  State (old_state w j) <> JobStateDisabled ->
  (hasStartedOrFailed c = true -> is_queued (State (old_state w j)) = true) ->
  post ((if hasStartedOrFailed c then roll jitter ParseDuration parseCronexpr e (EvInvocationStarted (InvID (saved c)))
         else mret tt);;
        (if hasFinished c then roll jitter ParseDuration parseCronexpr e (EvInvocationDone (InvID (saved c)))
         else mret tt)) tx
    (fun tx' r => match r with
     | Ok _ => tx_at m pre (outstanding w j) (saves (hasStartedOrFailed c) (hasFinished c) (old_state w j)) tx' /\
               txVars tx' = txVars tx
     | Err er => ~ is_skip er end).
Proof.
  intros Hat Hen Hid H0 Hnd Hqd. apply post_bind.
  apply (post_mono _ _ (fun tx' r => match r with
    | Ok _ => tx_at m pre (outstanding w j) (saves (hasStartedOrFailed c) false (old_state w j)) tx' /\
              txVars tx' = txVars tx
    | Err er => ~ is_skip er end)).
  { destruct (hasStartedOrFailed c).
    - eapply post_mono; [eapply (rollSM_at _ _ _ _ _ (saves true false (old_state w j))); [exact Hat|exact Hen|]|].
      + intros sm o Hm Ht _ Hg HR. rewrite HR. apply started_step; [done|done|by rewrite <-HR|done|].
        rewrite <-HR. by apply Hqd.
      + intros tx' [[]|er]; [done|]. by intros [].
    - apply post_ret. split; [|done]. destruct Hat as [H1 H2 H3 H4 H5 H6].
      split; [done..| |done]. rewrite <-H5. split; [done|]. cbn. by rewrite andb_false_r, andb_true_r. }
  intros tx' [[]|er] H; [|done]. destruct H as [Hat' Hv]. destruct (hasFinished c); [|by apply post_ret].
  eapply post_mono; [eapply (rollSM_at _ _ _ _ _ (saves (hasStartedOrFailed c) true (old_state w j)));
    [exact Hat'|exact Hen|]|].
  - intros sm o Hm Ht _ Hg HR.
    assert (Hid' : InvocationID (St sm) = InvID (saved c) /\ State (St sm) <> JobStateDisabled).
    { destruct HR as [? HR]. rewrite andb_false_r in HR. destruct HR as (_ & -> & _). done. }
    destruct Hid' as [Hid' Hnd'].
    destruct (done_step sm o (InvID (saved c)) Hm Hg Ht Hid' Hnd') as (sm' & ? & ? & Hs & ?).
    exists sm'. split; [done|]. split; [done|]. split; [|done]. by eapply saves_after.
  - intros tx2 [[]|er]; [|by intros []]. rewrite Hv. done.
Qed.

(** ** saveImpl's callback *)
Section SaveTxn.
Context (c : Controller) (u : bool) (i : Invocation).
Hypothesis Hkey : JobKey (saved c) = j.
Hypothesis Hi : invs w !! inv_key (saved c) = Some i.
Hypothesis Hfresh : MutationsCount (saved c) = MutationsCount i -> i = saved c.

Definition saving : Invocation := toSave Sprintf e c u.
Definition saved_invs : gmap InvKey Invocation := <[inv_key (saved c) := trimmed saving]> (invs w).
Definition save_tasks : list Task :=
  if negb (hasFinished c) && negb (bool_decide (timers c = [])) then invTimers e saving (timers c) else [].

Definition save_post (tx : Tx Invocation) (r : result error unit) : Prop :=
  let at_ R := i = saved c /\ txVars tx = trimmed saving /\
    tx_at saved_invs save_tasks (outstanding w j) R tx in
  match r with
  | Ok _ => u = true /\ jobs w !! j = Some (old_job w j) /\ InvocationID (old_state w j) = InvID (saved c) /\
      at_ (saves (hasStartedOrFailed c) (hasFinished c) (old_state w j))
  | Err er => is_skip er -> at_ (eq (old_state w j)) /\
      (u = true -> jobs w !! j = None \/ InvocationID (old_state w j) <> InvID (saved c))
  end.

Lemma save_tasks_no_tick t : t ∈ save_tasks -> tick_task t = false.
Proof.
  unfold save_tasks. case_match; [|intros H'; by apply elem_of_nil in H'].
  unfold invTimers. intros (? & -> & _)%list_elem_of_fmap. done.
Qed.

Lemma current_busy :
  jobs w !! j = Some (old_job w j) -> InvocationID (old_state w j) = InvID (saved c) ->
  busy (State (old_state w j)) = true /\ Enabled (old_job w j) = true /\ InvID (saved c) <> 0 /\
  (hasStartedOrFailed c = true -> i = saved c -> is_queued (State (old_state w j)) = true).
Proof.
  clear Hfresh. intros Hj Hid. destruct Hinv as (Hco & _).
  destruct (co_keys _ _ _ Hco _ _ Hi) as (Hk & Hne & _).
  assert (Hne' : InvID (saved c) <> 0) by (by injection Hk as ? ->).
  pose proof (jo_wf _ _ _ _ (co_jobs _ _ _ Hco _ _ Hj)) as Hwf. fold (old_state w j) in Hwf.
  assert (Hbusy : busy (State (old_state w j)) = true).
  { destruct (busy (State (old_state w j))) eqn:E; [done|]. unfold busy in E. exfalso.
    destruct (State (old_state w j)) eqn:Ek; try done.
    - apply (wf_disabled _ _ Hwf) in Ek. rewrite Ek in Hid. cbn in Hid. congruence.
    - assert (Hw0 := wf_waiting _ _ Hwf). rewrite Ek in Hw0. specialize (Hw0 eq_refl). naive_solver congruence.
    - assert (Hw0 := wf_waiting _ _ Hwf). rewrite Ek in Hw0. specialize (Hw0 eq_refl). naive_solver congruence. }
  split; [done|]. split.
  { destruct (Enabled (old_job w j)) eqn:E; [done|].
    apply (jo_enabled _ _ _ _ (co_jobs _ _ _ Hco _ _ Hj)) in E.
    unfold old_state in Hbusy. by rewrite E in Hbusy. }
  split; [done|]. intros Hs ->. unfold busy in Hbusy. apply orb_true_iff in Hbusy as [?|Hr]; [done|].
  destruct (co_current _ _ _ Hco _ _ Hj) as (i' & Hi' & _ & Hrun); [by fold (old_state w j); congruence|].
  fold (old_state w j) in *. destruct (Hrun Hr) as [_ Hns].
  assert (Hk' : (j, InvocationID (old_state w j)) = inv_key (saved c)) by (unfold inv_key; congruence).
  rewrite Hk' in Hi'. assert (Some (saved c) = Some i') as [= <-] by exact (eq_trans (eq_sym Hi) Hi'). unfold hasStartedOrFailed in Hs.
  apply andb_true_iff in Hs as [Hs _]. by apply String.eqb_eq in Hs.
Qed.

Lemma saveTxn_post :
  post (saveTxn jitter ParseDuration parseCronexpr e c u (is_new w j)) (start_tx w j saving) save_post.
Proof.
  unfold saveTxn. tx_step.
  destruct (toSave_fields c u) as (Hk & Hn & Hs & Hv). fold saving in *.
  apply post_bind, post_try; [intros er Her%TagApply_failure ?; naive_solver|intros _].
  tx_step. unfold getInv. cbn [txVars txInvs start_tx]. rewrite Hk, Hi.
  destruct (Z.eqb_spec (MutationsCount saving) (MutationsCount i + 1)) as [Heq|]; cbn [negb]; [|done].
  assert (i = saved c) as Hi0 by (apply Hfresh; lia).
  tx_step. apply post_bind, post_try; [intros er Her%failure_not_skip ?; done|intros _]. apply post_bind. unfold post at 1, putInv. cbn [txInvs txJob txTasks txRolls txVars start_tx].
  change (inv_key (trimmed saving)) with (inv_key saving). rewrite Hk. fold saved_invs.
  apply post_bind.
  eapply (post_mono _ _ (fun tx r => match r with
    | Ok _ => txVars tx = trimmed saving /\ tx_at saved_invs save_tasks (outstanding w j) (eq (old_state w j)) tx /\
              txJob tx = old_job w j
    | Err er => ~ is_skip er end)).
  { pose proof (old_job_ok _ _ w j (proj1 Hinv)) as (Hid & Hwf & _).
    assert (Hat : forall ts, ts = save_tasks -> tx_at saved_invs save_tasks (outstanding w j) (eq (old_state w j))
      {| txJob := old_job w j; txInvs := saved_invs; txTasks := ts; txRolls := 0; txVars := trimmed saving |}).
    { intros ts ->. split; cbn; try done; [by destruct (old_job w j)|].
      exists []. rewrite !app_nil_r. split; [done|]. split; [|intros ? ? Hin; by apply elem_of_nil in Hin].
      apply cover_state, Hinv. }
    unfold save_tasks in *. case_match.
    - apply post_bind, post_try; [intros er Her%TagApply_failure; naive_solver|intros _].
      unfold post, addTasks. cbn. split; [done|]. split; [by apply Hat|done].
    - apply post_ret. cbn. split; [done|]. split; [by apply Hat|done]. }
  intros tx [[]|er]; [|done]. intros (Hvars & Hat & Hjob). tx_step. rewrite Hjob.
  fold (old_state w j).
  assert (Hskip : (u = true -> jobs w !! j = None \/ InvocationID (old_state w j) <> InvID (saved c)) ->
    post (skipPut (A := unit)) tx save_post) by (intros Hu _; split; [by split|done]).
  destruct u eqn:Eu; cbn [negb]; [|by apply Hskip].
  destruct (is_new w j) eqn:En.
  { apply Hskip. intros _. left. unfold is_new in En. destruct (jobs w !! j) eqn:Ej; [|done].
    by rewrite bool_decide_true in En by eauto. }
  assert (Hj : jobs w !! j = Some (old_job w j)).
  { unfold is_new, old_job in *. by destruct (jobs w !! j). }
  assert (Hkid : InvID saving = InvID (saved c)) by (by injection Hk).
  rewrite Hkid. destruct (Z.eqb_spec (InvocationID (old_state w j)) (InvID (saved c))) as [Hcur|];
    cbn [negb]; [|apply Hskip; by right].
  destruct (current_busy Hj Hcur) as (Hbusy & Hen & Hid0 & Hqd).
  assert (Hnd : State (old_state w j) <> JobStateDisabled) by (intros Hd; by rewrite Hd in Hbusy).
  eapply post_mono; [eapply save_rolls; [exact Hat|by auto..]|].
  intros tx' [[]|er]; [|by intros Hns Hs'; destruct Hns]. intros [Hat' Hv'].
  split; [done|]. split; [done|]. split; [done|]. split; [done|]. by rewrite Hv'.
Qed.
End SaveTxn.

(** ** The store after a save *)
Section SaveStore.
Context (c : Controller) (u : bool) (w' : Service).
Hypothesis Hkey : JobKey (saved c) = j.
Hypothesis Hi : invs w !! inv_key (saved c) = Some (saved c).
Hypothesis Hstatus : status_moves (InvStatus (saved c)) (tsStatus (state c)).
Hypothesis Hu : u = false -> InvStatus (saved c) = StatusStarting.
Hypothesis Hinvs : invs w' = saved_invs c u.
Hypothesis Hsess : sessions w' = sessions w.
Hypothesis Hjobs : forall j' J', jobs w' !! j' = Some J' -> exists J, jobs w !! j' = Some J /\
  (J' = J /\ (j' = j -> u = true -> InvocationID (JobSt J) <> InvID (saved c)) \/
   j' = j /\ InvocationID (JobSt J) = InvID (saved c) /\ job_ok j J' /\
   saves (hasStartedOrFailed c) (hasFinished c) (JobSt J) (JobSt J')).

Let s1 := tsStatus (state c).

Lemma saved_old k i' : invs w' !! k = Some i' -> exists i0, invs w !! k = Some i0 /\
  inv_key i' = inv_key i0 /\ InvNonce i' = InvNonce i0 /\ (live i' -> live i0) /\
  MutationsCount i0 <= MutationsCount i' /\
  (k <> inv_key (saved c) /\ i' = i0 \/ k = inv_key (saved c) /\ i0 = saved c /\ InvStatus i' = s1).
Proof.
  rewrite Hinvs. unfold saved_invs. destruct (toSave_fields c u) as (Hk & Hn & Hs & Hv).
  destruct (decide (k = inv_key (saved c))) as [->|Hne].
  - rewrite lookup_insert_eq. intros [= <-]. exists (saved c). split; [done|].
    destruct (trimmed_fields (saving c u)) as (-> & -> & Hts & ->). unfold saving in *.
    rewrite Hk, Hn, Hv. split; [done|]. split; [done|]. split.
    + unfold live. rewrite Hts, Hs. intros Hl. destruct (Final (InvStatus (saved c))) eqn:E; [|done].
      destruct Hstatus as [_ Hf]. rewrite (Hf E) in Hl. congruence.
    + split; [lia|]. right. split; [done|]. split; [done|]. by rewrite Hts, Hs.
  - rewrite lookup_insert_ne by done. intros Hk'. exists i'. repeat (split; [done|]). auto with lia.
Qed.

Lemma save_moves : inv_moves (saved c) (trimmed (saving c u)).
Proof.
  destruct (toSave_fields c u) as (_ & Hn & Hs & _).
  destruct (trimmed_fields (saving c u)) as (_ & Hn' & Hs' & _). unfold saving in *.
  split; [congruence| |by rewrite Hs', Hs|]; unfold toSave, hasFinished.
  - by case_match.
  - intros Hf. rewrite Hf. done.
Qed.

Lemma save_evolves : evolves (invs w) (invs w').
Proof.
  intros k i0 Hk0. rewrite Hinvs. unfold saved_invs.
  destruct (decide (k = inv_key (saved c))) as [->|Hne].
  - rewrite lookup_insert_eq. eexists. split; [done|]. assert (i0 = saved c) as -> by congruence.
    split; [apply save_moves|]. destruct (toSave_fields c u) as (_ & _ & _ & Hv).
    destruct (trimmed_fields (saving c u)) as (_ & _ & _ & ->). unfold saving. rewrite Hv.
    split; [lia|]. intros. lia.
  - rewrite lookup_insert_ne by done. by apply evolves_refl.
Qed.

Lemma save_expects : expects_no_more w w'.
Proof.
  intros j' n (J' & HJ' & HE) _. destruct (Hjobs _ _ HJ') as (J & HJ & [[-> _]|(-> & _ & _ & Hnd & Hs)]).
  - by exists J.
  - exists J. split; [done|]. unfold IsExpectingInvocation in *. apply andb_true_iff in HE as [Hq Hn].
    case_match.
    + destruct Hs as (_ & _ & Hb). unfold busy in Hb. by rewrite Hq in Hb.
    + destruct Hs as (Hn' & _ & _ & Hq'). rewrite Hq in Hq'. symmetry in Hq'.
      apply andb_true_iff in Hq' as [-> _]. by rewrite <-Hn'.
Qed.

(** The job's current invocation when it is the one that is saved. *)
Lemma current_saved J : jobs w !! j = Some J -> InvocationID (JobSt J) = InvID (saved c) ->
  InvNonce (saved c) = InvocationNonce (JobSt J) /\
  (is_running (State (JobSt J)) = true -> live (saved c) /\ InvStatus (saved c) <> StatusStarting).
Proof.
  intros HJ Hid. destruct Hinv as (Hco & _).
  destruct (co_keys _ _ _ Hco _ _ Hi) as (_ & Hne & _).
  destruct (co_current _ _ _ Hco _ _ HJ) as (i' & Hi' & Hn & Hr); [congruence|].
  assert (Hk : (j, InvocationID (JobSt J)) = inv_key (saved c)) by (unfold inv_key; congruence).
  rewrite Hk in Hi'. assert (Some (saved c) = Some i') as [= <-] by exact (eq_trans (eq_sym Hi) Hi'). done.
Qed.

Lemma starting_live : InvStatus (saved c) = StatusStarting -> live (saved c).
Proof. unfold live. by intros ->. Qed.

Lemma save_current J J' :
  jobs w !! j = Some J -> InvocationID (JobSt J) = InvID (saved c) ->
  saves (hasStartedOrFailed c) (hasFinished c) (JobSt J) (JobSt J') -> InvocationID (JobSt J') <> 0 ->
  InvocationID (JobSt J') = InvID (saved c) /\ InvNonce (saved c) = InvocationNonce (JobSt J') /\
  (is_running (State (JobSt J')) = true -> Final s1 = false /\ s1 <> StatusStarting).
Proof.
  intros HJ Hid [Hnd Hs] Hne. destruct (current_saved J HJ Hid) as [Hn Hrun].
  destruct ((hasStartedOrFailed c || is_running (State (JobSt J))) && hasFinished c) eqn:E; [by destruct Hs as (_ & ? & _)|].
  destruct Hs as (Hn' & Hid' & Hr' & _). split; [congruence|]. split; [congruence|].
  rewrite Hr'. intros Hr. rewrite Hr in E. cbn [andb] in E.
  assert (Hls : live (saved c) /\ s1 <> StatusStarting).
  { apply orb_true_iff in Hr as [Hr|Hr].
    - unfold hasStartedOrFailed in Hr. apply andb_true_iff in Hr as [Hr1 Hr2]. bool_to_prop.
      apply String.eqb_eq in Hr1. apply String.eqb_neq in Hr2. split; [by apply starting_live|done].
    - destruct (Hrun Hr). split; [done|]. by apply Hstatus. }
  destruct Hls as [Hl Hs1]. split; [|done]. unfold hasFinished in E. unfold live in Hl. rewrite Hl in E.
  exact E.
Qed.

Lemma save_core : core w'.
Proof.
  destruct Hinv as (Hco & _). split.
  - intros j' J' HJ'. destruct (Hjobs _ _ HJ') as (J & HJ & [[-> _]|(-> & _ & Hok & _)]); [by eapply Hco|done].
  - intros j' J' HJ' Hne. rewrite Hinvs. unfold saved_invs.
    destruct (Hjobs _ _ HJ') as (J & HJ & [[-> Hnid]|(-> & Hid & _ & Hs)]).
    + destruct (co_current _ _ _ Hco _ _ HJ Hne) as (i0 & Hi0 & Hn0 & Hr0).
      destruct (decide ((j', InvocationID (JobSt J)) = inv_key (saved c))) as [Hk|Hk].
      * assert (j' = j) as -> by (unfold inv_key in Hk; congruence).
        assert (Hid : InvocationID (JobSt J) = InvID (saved c)) by (unfold inv_key in Hk; congruence).
        rewrite Hk, lookup_insert_eq. eexists. split; [done|].
        destruct (trimmed_fields (saving c u)) as (_ & -> & _). destruct (toSave_fields c u) as (_ & Hn & _).
        unfold saving. rewrite Hn. destruct (current_saved J HJ Hid) as [Hcn Hcr]. split; [done|].
        intros Hr. destruct u eqn:Eu; [by destruct (Hnid eq_refl eq_refl)|].
        destruct (Hcr Hr) as [_ Hns]. by destruct Hns; apply Hu.
      * rewrite lookup_insert_ne by done. eauto.
    + destruct (save_current J J' HJ Hid Hs Hne) as (-> & Hn' & Hr').
      replace (j, InvID (saved c)) with (inv_key (saved c)) by (unfold inv_key; congruence).
      rewrite lookup_insert_eq. eexists. split; [done|].
      destruct (trimmed_fields (saving c u)) as (_ & -> & Hts & _).
      destruct (toSave_fields c u) as (_ & Hn & Hst & _).
      unfold live. rewrite Hts. unfold saving. rewrite Hn, Hst. done.
  - intros k i' Hk'. destruct (saved_old _ _ Hk') as (i0 & Hi0 & Hkey' & Hn & Hl & Hm & _).
    destruct (co_keys _ _ _ Hco _ _ Hi0) as (-> & Hne & Hm0 & Hpos).
    rewrite Hn. split; [done|]. split; [by injection Hkey' as _ ->|]. split; [lia|]. auto.
  - intros j' J' id i' HJ' Hk' Hl Hn. destruct (saved_old _ _ Hk') as (i0 & Hi0 & _ & Hn0 & Hl0 & _).
    specialize (Hl0 Hl). destruct (co_keys _ _ _ Hco _ _ Hi0) as (_ & _ & _ & Hpos). specialize (Hpos Hl0).
    destruct (Hjobs _ _ HJ') as (J & HJ & [[-> _]|(-> & Hid & _ & _ & Hs)]).
    + eapply (co_live _ _ _ Hco); [done|exact Hi0|done|congruence].
    + case_match; [destruct Hs as (Hz & _); lia|]. destruct Hs as (Hn' & Hid' & _). rewrite Hid'.
      eapply (co_live _ _ _ Hco); [done|exact Hi0|done|congruence].
  - intros j' id1 id2 i1 i2 Hk1 Hk2 Hl1 Hl2 Hn.
    destruct (saved_old _ _ Hk1) as (o1 & Ho1 & _ & Hn1 & Hlo1 & _).
    destruct (saved_old _ _ Hk2) as (o2 & Ho2 & _ & Hn2 & Hlo2 & _).
    eapply (co_one _ _ _ Hco); [exact Ho1|exact Ho2|auto|auto|congruence].
  - intros sid s. rewrite Hsess. intros Hs. eapply session_ok_mono; [apply save_evolves|apply save_expects|].
    by eapply (co_sessions _ _ _ Hco).
Qed.

(** Once an attempt has left STARTING its request is no longer expected. *)
Lemma save_not_expecting :
  u = true -> s1 <> StatusStarting ->
  (InvStatus (saved c) <> StatusStarting -> ~ expecting w j (InvNonce (saved c))) ->
  ~ expecting w' j (InvNonce (saved c)).
Proof.
  intros Hut Hs1 Hold HE. destruct (decide (InvStatus (saved c) = StatusStarting)) as [Hst|Hst].
  2:{ apply (Hold Hst). apply save_expects; [done|]. eauto. }
  destruct Hinv as (Hco & _).
  assert (Hstarted : hasStartedOrFailed c = true).
  { unfold hasStartedOrFailed. rewrite Hst. fold s1.
    by rewrite (proj2 (String.eqb_neq _ _) Hs1). }
  destruct HE as (J' & HJ' & HE). destruct (Hjobs _ _ HJ') as (J & HJ & [[-> Hnid]|(_ & Hid & _ & _ & Hs)]).
  - unfold IsExpectingInvocation in HE. apply andb_true_iff in HE as [_ Hn]. bool_to_prop.
    apply (Hnid eq_refl Hut). symmetry. eapply (co_live _ _ _ Hco); [done| |by apply starting_live|done].
    replace (j, InvID (saved c)) with (inv_key (saved c)) by (unfold inv_key; congruence). done.
  - unfold IsExpectingInvocation in HE. apply andb_true_iff in HE as [Hq _]. case_match.
    + destruct Hs as (_ & _ & Hb). unfold busy in Hb. by rewrite Hq in Hb.
    + destruct Hs as (_ & _ & _ & Hq'). rewrite Hq, Hstarted in Hq'. cbn in Hq'. by rewrite andb_false_r in Hq'.
Qed.
End SaveStore.

(** ** saveImpl *)
Definition controller_ok (w : Service) (c : Controller) : Prop :=
  exists i, invs w !! inv_key (saved c) = Some i /\ InvNonce i = InvNonce (saved c) /\
    MutationsCount (saved c) <= MutationsCount i /\
    (MutationsCount (saved c) = MutationsCount i -> i = saved c).

(** What a save does: nothing, with an error; or the invocation is stored, at a
    moment when the store still had it as it was read. *)
Record saved_ok (c : Controller) (u : bool) (w' : Service) (c' : Controller) (err : option error) : Prop := {
  sv_inv : invariant w';
  sv_sessions : sessions w' = sessions w;
  sv_dropped : dropped w' = dropped w;
  sv_queue t : t ∈ queue w -> t ∈ queue w';
  sv_evolves : evolves (invs w) (invs w');
  sv_expects : expects_no_more w w';
  sv_controller : controller_ok w' c';
  sv_state : state c' = state c;
  sv_key : inv_key (saved c') = inv_key (saved c) /\ InvNonce (saved c') = InvNonce (saved c);
  sv_ok : err = None -> InvStatus (saved c') = tsStatus (state c) /\
    (u = true -> tsStatus (state c) <> StatusStarting ->
     (InvStatus (saved c) <> StatusStarting -> ~ expecting w (JobKey (saved c)) (InvNonce (saved c))) ->
     ~ expecting w' (JobKey (saved c)) (InvNonce (saved c)));
  sv_failed : err <> None -> c' = c;
}.

(** A job whose current invocation was saved is as well formed as before. *)
Lemma save_job_ok c i {V} m pre o (tx : Tx V) :
  JobKey (saved c) = j -> invs w !! inv_key (saved c) = Some i ->
  jobs w !! j = Some (old_job w j) -> InvocationID (old_state w j) = InvID (saved c) ->
  tx_at m pre o (saves (hasStartedOrFailed c) (hasFinished c) (old_state w j)) tx -> job_ok j (txJob tx).
Proof.
  intros Hkey Hi Hj Hid [_ Hjid Hjob Hwf [Hnd _] _].
  destruct (current_busy c i Hkey Hi Hj Hid) as (_ & Hen & _).
  split; [done|done| |]; rewrite Hjob; cbn.
  - rewrite Hen. split; [done|]. intros Hd. by destruct Hnd.
  - intros _. apply (old_job_ok _ _ w j (proj1 Hinv)) in Hen as Hp. done.
Qed.

Lemma saved_same c u err : controller_ok w c ->
  (err = None -> InvStatus (saved c) = tsStatus (state c)) -> saved_ok c u w c err.
Proof.
  intros Hc Hs. split; try done.
  - apply evolves_refl.
  - by apply expects_refl.
  - intros He0. split; [auto|]. intros _ Hne Hold. apply Hold. rewrite Hs; auto.
Qed.

Lemma saveImpl_ok c u :
  JobKey (saved c) = j -> controller_ok w c ->
  status_moves (InvStatus (saved c)) (tsStatus (state c)) ->
  (u = false -> InvStatus (saved c) = StatusStarting) ->
  exists w' c' err, saveImpl jitter ParseDuration parseCronexpr Sprintf e w c u = Ret (w', c', err) /\
    saved_ok c u w' c' err.
Proof.
  intros Hkey Hc Hstatus Hu. pose proof Hc as (i & Hi & Hn & Hle & Hfresh). unfold saveImpl. case_match eqn:Eq.
  { apply andb_true_iff in Eq as [Eq _]. apply bool_decide_eq_true in Eq.
    do 3 eexists; split; [done|]. apply saved_same; [done|]. intros _. by rewrite <-Eq. }
  destruct (toSave_fields c u) as (Hk & _).
  assert (Hjk : JobKey (toSave Sprintf e c u) = j) by (injection Hk as ? ?; congruence).
  rewrite Hjk.
  destruct (txn_post e w j (toSave Sprintf e c u) _ _ (saveTxn_post c u i Hkey Hi Hfresh))
    as (w' & v & err & -> & Hres).
  cbn. do 3 eexists. split; [done|].
  destruct Hres as [(-> & er & -> & _)|(tx & put & r & HQ & -> & -> & Herr & Hr)].
  { by apply saved_same. }
  assert (Hcase : i = saved c /\ txVars tx = trimmed (saving c u) /\
    put = negb (bool_decide (txJob tx = old_job w j)) /\
    exists R, tx_at (saved_invs c u) (save_tasks c u) (outstanding w j) R tx).
  { destruct r as [[]|er].
    - destruct HQ as (_ & _ & _ & ? & ? & ?). split; [done|]. split; [done|]. split; [done|]. eauto.
    - destruct Hr as [Hsk ->]. destruct (HQ Hsk) as [(? & ? & Hat) _]. split; [done|]. split; [done|].
      split; [|eauto]. destruct Hat as [_ _ Hjob _ Hst _]. rewrite bool_decide_true; [done|].
      rewrite Hjob, <-Hst. apply with_JobSt_same. }
  destruct Hcase as (-> & Hv & Hput & R & Hat).
  assert (Hjobs : forall j' J', jobs (commit_tx w j put tx) !! j' = Some J' -> exists J, jobs w !! j' = Some J /\
    (J' = J /\ (j' = j -> u = true -> InvocationID (JobSt J) <> InvID (saved c)) \/
     j' = j /\ InvocationID (JobSt J) = InvID (saved c) /\ job_ok j J' /\
     saves (hasStartedOrFailed c) (hasFinished c) (JobSt J) (JobSt J'))).
  { intros j' J' HJ'. destruct (commit_jobs tx put j' J' Hput HJ') as [[Hne HJ]|[-> ->]].
    - exists J'. split; [done|]. left. by split.
    - destruct r as [[]|er].
      + destruct HQ as (_ & HJ & Hid & _ & _ & Hat'). exists (old_job w j). split; [done|]. right.
        split; [done|]. split; [done|]. split; [|apply Hat'].
        by eapply (save_job_ok c (saved c)).
      + destruct Hr as [Hsk ->]. destruct (HQ Hsk) as [_ Hnid]. exists (txJob tx). split; [done|]. left.
        split; [done|]. intros _ Hut. cbn in HJ'. destruct (Hnid Hut) as [Hno|Hno]; [congruence|].
        unfold old_state, old_job in Hno. by rewrite HJ' in Hno. }
  destruct (tx_at_queue _ _ _ _ _ tx put (save_tasks_no_tick c u) (reflexivity _) Hat Hput) as [Hcv Hq].
  pose proof (ta_invs _ _ _ _ _ Hat) as Hinvs.
  assert (Hco : core (commit_tx w j put tx)) by (by eapply (save_core c u)).
  split; try done.
  - intros t Ht. cbn. rewrite elem_of_app. by left.
  - by apply (save_evolves c u).
  - by apply (save_expects c u).
  - exists (trimmed (saving c u)).
    assert (Hat0 : invs (commit_tx w j put tx) !! inv_key (saved c) = Some (trimmed (saving c u)))
      by (cbn; rewrite Hinvs; unfold saved_invs; by rewrite lookup_insert_eq).
    destruct (trimmed_fields (saving c u)) as (Hk1 & Hn1 & _ & Hm1).
    destruct (toSave_fields c u) as (Hk2 & Hn2 & _ & Hm2). unfold saving in *.
    destruct err; cbn.
    + split; [done|]. split; [congruence|]. split; [lia|]. intros. lia.
    + rewrite Hv, Hk1, Hk2. done.
  - by destruct err.
  - destruct err; [done|]. cbn. rewrite Hv. destruct (trimmed_fields (saving c u)) as (-> & -> & _).
    destruct (toSave_fields c u) as (? & ? & _). done.
  - intros ->. cbn. rewrite Hv. destruct (trimmed_fields (saving c u)) as (_ & _ & -> & _).
    destruct (toSave_fields c u) as (_ & _ & ? & _). split; [done|].
    rewrite Hkey. by apply (save_not_expecting c u).
  - by destruct err.
Qed.
End Request.
End Save.
