(* ===== verification/EngineStart.v ===== *)
(** The invariant is kept when an attempt is started ([startInvocation]'s
    transaction): the previous attempt is marked as failed and the job refers
    to the new one. *)
From S2P Require Import Prelude SchedulerSM DebugLog Engine EngineInv EngineOuter EngineSave.
Local Open Scope Z_scope.

Section Start.
Context (jitter : Z -> Z -> Z).
Context (ParseDuration : string -> option Z) (parseCronexpr : string -> option (Time -> Time)).
Context (Sprintf : LogMsg -> bytes).
Context `{cat : Catalog}.
Hypothesis jitter_nonneg : forall seed i, 0 <= i -> 0 <= jitter seed i.
Hypothesis cron_next : cron_ok parseCronexpr.
Notation wf_state := (wf_state (never_again parseCronexpr)).
Notation sched_ok := (sched_ok (never_again parseCronexpr)).
Notation machine_ok := (machine_ok (never_again parseCronexpr)).
Notation good := (good (never_again parseCronexpr)).
Notation job_ok := (job_ok ParseDuration parseCronexpr).
Notation core := (core ParseDuration parseCronexpr).
Notation invariant := (invariant ParseDuration parseCronexpr).

Section Request.
Context (w : Service) (e : Env) (j : string) (n : Z) (who : string) (retryCount : Z).
Hypothesis Hinv : invariant w.
Hypothesis He : env_ok w e.

Definition giveUp : bool := invocationRetryLimit <=? retryCount.
Definition attempt (id : Z) : Invocation := newInvocation Sprintf e (old_job w j) id n who retryCount.

(** The invocations once attempt [id] is stored. *)
Definition start_invs (id : Z) : gmap InvKey Invocation :=
  let m := <[inv_key (attempt id) := attempt id]> (invs w) in
  if InvocationID (old_state w j) =? 0 then m
  else match m !! (j, InvocationID (old_state w j)) with
       | Some prev =>
           if Final (InvStatus prev) then m
           else <[inv_key (supersede Sprintf e id prev) := supersede Sprintf e id prev]> m
       | None => m
       end.

Definition starts (id : Z) (s s' : JobState) : Prop :=
  State s' <> JobStateDisabled /\ is_running (State s') = false /\
  if giveUp then InvocationNonce s' = 0 /\ InvocationID s' = 0 /\ is_queued (State s') = false
  else InvocationNonce s' = InvocationNonce s /\ InvocationID s' = id.

Definition start_post (tx : Tx (option Invocation * bool)) (r : result error unit) : Prop :=
  match r with
  | Ok _ => exists id, jobs w !! j = Some (old_job w j) /\
      IsExpectingInvocation (old_state w j) n = true /\ id <> 0 /\ invs w !! (j, id) = None /\
      txVars tx = (Some (attempt id), giveUp) /\
      tx_at parseCronexpr w j (start_invs id) [] (outstanding w j) (starts id (old_state w j)) tx
  | Err er => is_skip er -> txInvs tx = invs w /\ txTasks tx = [] /\ txVars tx = (None, true) /\
      ~ expecting w j n
  end.

Lemma expecting_old : expecting w j n <-> jobs w !! j = Some (old_job w j) /\ IsExpectingInvocation (old_state w j) n = true.
Proof.
  unfold expecting, old_state, old_job. destruct (jobs w !! j) as [J|]; cbn; [|naive_solver].
  split; [|naive_solver]. intros (J' & [= <-] & ?). done.
Qed.

Lemma startTransitions_step sm o id :
  machine_ok sm -> ticks_drawn sm -> good sm o -> IsExpectingInvocation (St sm) n = true -> id <> 0 ->
  exists sm', startTransitions jitter n id retryCount giveUp sm = Ret (sm', None) /\ good sm' o /\
    starts id (St sm) (St sm') /\ ticks_drawn sm'.
Proof.
  intros Hm Ht Hg Hexp Hid. unfold startTransitions. set (sm1 := OnInvocationStarting sm n id retryCount).
  assert (Hq : is_queued (State (St sm)) = true) by (by apply andb_true_iff in Hexp as [? _]).
  assert (Hsm1 : St sm1 = set_Invocation (InvocationNonce (St sm)) retryCount (InvocationTime (St sm)) id
    (Overruns (St sm)) (St sm) /\ ticks_drawn sm1 /\ machine_ok sm1).
  { subst sm1. unfold OnInvocationStarting. rewrite Hexp. done. }
  destruct Hsm1 as (HS & Ht1 & Hm1).
  assert (Hg1 : good sm1 o) by (by apply OnInvocationStarting_good).
  unfold starts. destruct giveUp.
  - destruct (started_step jitter _ sm1 o id Hg1 Ht1) as (sm2 & Heq & Hg2 & Hs2 & Ht2); [by rewrite HS|done|by rewrite HS|].
    cbn in Heq. destruct (OnInvocationStarted sm1 id) as [sm2'|] eqn:E2; [|done]. injection Heq as ->.
    assert (Hm2 : machine_ok sm2).
    { revert E2. unfold OnInvocationStarted. repeat case_match; intros; simplify_eq; done. }
    assert (Hid2 : InvocationID (St sm2) = id /\ State (St sm2) <> JobStateDisabled /\ is_running (State (St sm2)) = true).
    { destruct Hs2 as (? & _ & -> & -> & _). by rewrite HS. }
    destruct Hid2 as (Hid2 & Hnd2 & Hr2).
    destruct (done_step jitter _ jitter_nonneg sm2 o id Hm2 Hg2 Ht2 Hid2 Hnd2) as (sm3 & Heq3 & Hg3 & Hs3 & Ht3).
    cbn in Heq3. injection Heq3 as <-. eexists. split; [cbn; done|]. split; [done|]. split; [|done].
    destruct Hs3 as (Hnd & Hs3). rewrite Hr2 in Hs3. cbn in Hs3. destruct Hs3 as (? & ? & Hb).
    unfold busy in Hb. apply orb_false_iff in Hb as [? ?]. done.
  - exists sm1. split; [done|]. split; [done|]. split; [|done]. rewrite HS. cbn.
    by destruct (State (St sm)).
Qed.

Lemma startTxn_post :
  post (startTxn jitter ParseDuration parseCronexpr Sprintf e n who retryCount (is_new w j))
    (start_tx w j (None, false)) start_post.
Proof.
  unfold startTxn. tx_step. change (txJob (start_tx w j (None, false))) with (old_job w j).
  fold (old_state w j).
  destruct (is_new w j) eqn:En.
  { tx_step. intros _. split; [done|]. split; [done|]. split; [done|]. rewrite expecting_old.
    intros [Hj _]. unfold is_new in En. by rewrite Hj, bool_decide_true in En by eauto. }
  assert (Hj : jobs w !! j = Some (old_job w j)) by (unfold is_new, old_job in *; by destruct (jobs w !! j)).
  destruct (IsExpectingInvocation (old_state w j) n) eqn:Hexp; cbn [negb].
  2:{ tx_step. intros _. split; [done|]. split; [done|]. split; [done|]. rewrite expecting_old.
      intros [_ ?]. congruence. }
  destruct (old_job_ok _ _ w j (proj1 Hinv)) as (Hid & Hwf & Hen & _). rewrite Hid.
  apply post_bind. unfold post at 1. cbn [txInvs start_tx].
  unfold generateInvocationID. destruct (failure e SExists) as [er|] eqn:Ef; [by intros ?%(failure_not_skip _ _ _ Ef)|].
  destruct (pickID _ _ _ _ _) as [id|] eqn:Ep; [|done].
  destruct (pickID_spec _ _ _ _ _ _ Ep) as [Hfree [k Hk]].
  assert (Hid0 : id <> 0).
  { rewrite Hk. pose proof (invocationID_positive (now e) (suffix e k) (eo_now _ _ He) (eo_suffix _ _ He k)). lia. }
  assert (Hnone : invs w !! (j, id) = None).
  { apply bool_decide_eq_false in Hfree. by apply eq_None_not_Some. }
  fold giveUp. fold (attempt id). tx_step.
  apply post_bind, post_try; [by intros er ?%failure_not_skip ?|intros _].
  apply post_bind. unfold post at 1, putInv. cbn [txInvs txJob txTasks txRolls txVars start_tx].
  apply post_bind.
  apply (post_mono _ _ (fun tx r => match r with
    | Ok _ => tx = {| txJob := old_job w j; txInvs := start_invs id; txTasks := []; txRolls := 0;
                      txVars := (Some (attempt id), giveUp) |}
    | Err er => ~ is_skip er end)).
  { unfold start_invs. destruct (InvocationID (old_state w j) =? 0); [done|].
    apply post_bind, post_try; [by intros er ?%failure_not_skip|intros _].
    tx_step. unfold getInv. cbn [txInvs].
    destruct (_ !! (j, InvocationID (old_state w j))) as [prev|]; [|done].
    destruct (Final (InvStatus prev)); [done|].
    apply post_bind, post_try; [by intros er ?%failure_not_skip|done]. }
  intros tx [[]|er]; [|by intros Hns ?]. intros ->.
  eapply post_mono; [eapply (rollSM_at _ _ cron_next w e j Hinv He _ (start_invs id) [] (outstanding w j)
    (eq (old_state w j)) (starts id (old_state w j)))|].
  - split; cbn; try done.
    + by destruct (old_job w j).
    + exists []. split; [done|]. rewrite app_nil_r. split; [by apply cover_state, Hinv|].
      intros ? ? Hin. by apply elem_of_nil in Hin.
  - destruct (Enabled (old_job w j)) eqn:E; [done|].
    assert (Hd : State (old_state w j) = JobStateDisabled) by (by apply Hen).
    unfold IsExpectingInvocation in Hexp. by rewrite Hd in Hexp.
  - intros sm o Hm Ht _ Hg HR. rewrite HR. apply startTransitions_step; try done. by rewrite <-HR.
  - intros tx [[]|er]; [|by intros [] ?]. intros [Hat Hv]. exists id. auto 10.
Qed.

(** ** The store after a start *)
Section StartStore.
Context (id : Z) (w' : Service).
Hypothesis Hj : jobs w !! j = Some (old_job w j).
Hypothesis Hexp : IsExpectingInvocation (old_state w j) n = true.
Hypothesis Hid0 : id <> 0.
Hypothesis Hnone : invs w !! (j, id) = None.
Hypothesis Hinvs : invs w' = start_invs id.
Hypothesis Hsess : sessions w' = sessions w.
Hypothesis Hjobs : forall j' J', jobs w' !! j' = Some J' ->
  j' <> j /\ jobs w !! j' = Some J' \/ j' = j /\ job_ok j J' /\ starts id (old_state w j) (JobSt J').

Let pid := InvocationID (old_state w j).

Lemma attempt_key : inv_key (attempt id) = (j, id).
Proof.
  unfold inv_key, attempt, newInvocation; cbn. by destruct (old_job_ok _ _ w j (proj1 Hinv)) as (-> & _).
Qed.

Lemma request_nonce : InvocationNonce (old_state w j) = n /\ 0 < n.
Proof.
  destruct (old_job_ok _ _ w j (proj1 Hinv)) as (_ & Hwf & _).
  unfold IsExpectingInvocation in Hexp. apply andb_true_iff in Hexp as [Hq Hn]. bool_to_prop.
  split; [done|]. rewrite <-Hn. apply (wf_active _ _ Hwf). by rewrite Hq.
Qed.

(** The previous attempt, if the job has one. *)
Lemma previous : pid <> 0 -> exists i0, invs w !! (j, pid) = Some i0 /\ InvNonce i0 = n /\ inv_key i0 = (j, pid) /\ pid <> id.
Proof.
  intros Hp. destruct Hinv as (Hco & _).
  destruct (co_current _ _ _ Hco _ _ Hj Hp) as (i0 & Hi0 & Hn & _). exists i0.
  destruct (co_keys _ _ _ Hco _ _ Hi0) as (Hk & _). destruct request_nonce as [Hr _].
  split; [done|]. split; [unfold old_state in *; congruence|]. split; [done|].
  intros Hpe. unfold pid, old_state in Hpe. rewrite Hpe in Hi0. congruence.
Qed.

Lemma start_inv k i' : invs w' !! k = Some i' ->
  k = (j, id) /\ i' = attempt id \/
  k <> (j, id) /\ exists i0, invs w !! k = Some i0 /\
    (i' = i0 /\ (k = (j, pid) -> ~ live i0) \/ k = (j, pid) /\ live i0 /\ i' = supersede Sprintf e id i0).
Proof.
  rewrite Hinvs. unfold start_invs. rewrite attempt_key. fold pid.
  destruct (Z.eqb_spec pid 0) as [Hp|Hp].
  - destruct (decide (k = (j, id))) as [->|Hne]; [rewrite lookup_insert_eq; intros [= <-]; by left|].
    rewrite lookup_insert_ne by done. intros Hk. right. split; [done|]. exists i'. split; [done|]. left.
    split; [done|]. intros ->. destruct Hinv as (Hco & _).
    destruct (co_keys _ _ _ Hco _ _ Hk) as ([= Hz] & Hz' & _). congruence.
  - destruct (previous Hp) as (i0 & Hi0 & _ & Hk0 & Hne0).
    rewrite lookup_insert_ne, Hi0 by congruence. destruct (Final (InvStatus i0)) eqn:Ef.
    + destruct (decide (k = (j, id))) as [->|Hne]; [rewrite lookup_insert_eq; intros [= <-]; by left|].
      rewrite lookup_insert_ne by done. intros Hk. right. split; [done|]. exists i'. split; [done|]. left.
      split; [done|]. intros ->. unfold live. by replace i' with i0 by congruence; rewrite Ef.
    + replace (inv_key (supersede Sprintf e id i0)) with (j, pid) by (by rewrite <-Hk0).
      destruct (decide (k = (j, pid))) as [->|Hne1].
      * rewrite lookup_insert_eq. intros [= <-]. right. split; [congruence|]. exists i0. auto.
      * rewrite lookup_insert_ne by done.
        destruct (decide (k = (j, id))) as [->|Hne]; [rewrite lookup_insert_eq; intros [= <-]; by left|].
        rewrite lookup_insert_ne by done. intros Hk. right. split; [done|]. exists i'. split; [done|]. by left.
Qed.

Lemma start_lookup_new : invs w' !! (j, id) = Some (attempt id).
Proof.
  rewrite Hinvs. unfold start_invs. rewrite attempt_key. fold pid.
  destruct (Z.eqb_spec pid 0) as [Hp|Hp]; [by rewrite lookup_insert_eq|].
  destruct (previous Hp) as (i0 & Hi0 & _ & Hk0 & Hne0).
  rewrite lookup_insert_ne, Hi0 by congruence. case_match; [by rewrite lookup_insert_eq|].
  replace (inv_key (supersede Sprintf e id i0)) with (j, pid) by (by rewrite <-Hk0).
  rewrite lookup_insert_ne by congruence. by rewrite lookup_insert_eq.
Qed.

Lemma start_evolves : evolves (invs w) (invs w').
Proof.
  intros k i0 Hk. destruct (invs w' !! k) as [i'|] eqn:E.
  - destruct (start_inv _ _ E) as [[-> _]|(_ & i1 & Hi1 & H)]; [congruence|].
    assert (i1 = i0) as -> by congruence. exists i'. split; [done|].
    destruct H as [[-> _]|(-> & Hl & ->)]; [split; [apply inv_moves_refl|auto with lia]|].
    unfold supersede. cbn. split; [|split; [lia|intros; lia]].
    split; [done|done| |intros Hf; unfold live in Hl; congruence]. split; [done|]. unfold live in Hl. congruence.
  - exfalso. revert E. rewrite Hinvs. unfold start_invs.
    repeat case_match; rewrite !lookup_insert_None; naive_solver congruence.
Qed.

Lemma start_old k i' : invs w' !! k = Some i' -> live i' -> k <> (j, id) -> invs w !! k = Some i' /\ k <> (j, pid).
Proof.
  intros Hk Hl Hne. destruct (start_inv _ _ Hk) as [[? _]|(_ & i0 & Hi0 & [[-> Hp]|(-> & _ & ->)])]; [done| |].
  - split; [done|]. intros ->. by apply Hp.
  - by unfold live in Hl.
Qed.

(** No other attempt for the nonce is live any more. *)
Lemma start_alone k i' : k.1 = j -> invs w' !! k = Some i' -> live i' -> InvNonce i' = n -> k = (j, id).
Proof.
  intros Hkj Hk Hl Hn. destruct (decide (k = (j, id))) as [|Hne]; [done|]. exfalso.
  destruct (start_old _ _ Hk Hl Hne) as [Hk' Hp]. destruct k as [j' id']; cbn in *; subst j'.
  apply Hp. f_equal. destruct Hinv as (Hco & _). eapply (co_live _ _ _ Hco); [exact Hj|done|done|].
  destruct request_nonce. fold (old_state w j). congruence.
Qed.

Lemma start_expects : expects_no_more w w'.
Proof.
  intros j' m (J' & HJ' & HE) _. destruct (Hjobs _ _ HJ') as [[_ HJ]|(-> & _ & _ & _ & Hs)]; [by exists J'|].
  exists (old_job w j). split; [done|]. fold (old_state w j). unfold IsExpectingInvocation in *.
  apply andb_true_iff in Hexp as [-> _]. apply andb_true_iff in HE as [Hq Hm]. bool_to_prop. cbn.
  apply Z.eqb_eq. destruct giveUp; [destruct Hs as (_ & _ & ?); congruence|]. destruct Hs. congruence.
Qed.

Lemma start_core : core w'.
Proof.
  destruct request_nonce as [Hn Hn0]. destruct Hinv as (Hco & _). split.
  - intros j' J' HJ'. destruct (Hjobs _ _ HJ') as [[_ HJ]|(-> & ? & _)]; [by eapply Hco|done].
  - intros j' J' HJ' Hne. destruct (Hjobs _ _ HJ') as [[Hnej HJ]|(-> & _ & _ & Hr & Hs)].
    + destruct (co_current _ _ _ Hco _ _ HJ Hne) as (i0 & Hi0 & Hrest).
      destruct (start_evolves _ _ Hi0) as (i' & Hi' & _).
      destruct (start_inv _ _ Hi') as [[[= -> _] _]|(_ & i1 & Hi1 & [[-> _]|([= -> _] & _)])]; [done| |done].
      assert (i1 = i0) as -> by congruence. eauto.
    + destruct giveUp eqn:Eg; [by destruct Hs as (_ & ? & _)|]. destruct Hs as [Hs1 ->].
      exists (attempt id). split; [apply start_lookup_new|]. split; [unfold attempt; cbn; congruence|].
      by rewrite Hr.
  - intros k i' Hk. destruct (start_inv _ _ Hk) as [[-> ->]|(_ & i0 & Hi0 & H)].
    + rewrite attempt_key. split; [done|]. split; [done|]. split; [cbn; lia|]. by intros _.
    + destruct (co_keys _ _ _ Hco _ _ Hi0) as (Hk0 & Hz & Hm & Hpos).
      destruct H as [[-> _]|(_ & _ & ->)]; [done|]. split; [done|]. split; [done|]. split; [cbn; lia|]. done.
  - intros j' J' id' i' HJ' Hk Hl Hnn. destruct (Hjobs _ _ HJ') as [[Hnej HJ]|(-> & _ & _ & _ & Hs)].
    + destruct (start_old _ _ Hk Hl) as [Hk' _]; [congruence|]. by eapply (co_live _ _ _ Hco).
    + destruct giveUp eqn:Eg.
      * destruct Hs as (Hz & _). exfalso.
        destruct (decide ((j, id') = (j, id))) as [[= ->]|Hne].
        -- rewrite start_lookup_new in Hk. injection Hk as <-. unfold attempt in Hnn; cbn in Hnn. lia.
        -- destruct (start_old _ _ Hk Hl Hne) as [Hk' _].
           destruct (co_keys _ _ _ Hco _ _ Hk') as (_ & _ & _ & Hpos). specialize (Hpos Hl). lia.
      * destruct Hs as [Hs1 ->]. assert ((j, id') = (j, id)) as [= ->]; [|done].
        eapply start_alone; [done|exact Hk|done|congruence].
  - intros j' id1 id2 i1 i2 Hk1 Hk2 Hl1 Hl2 Hnn.
    destruct (decide ((j', id1) = (j, id))) as [[= -> ->]|Hne1].
    { rewrite start_lookup_new in Hk1. injection Hk1 as <-.
      assert ((j, id2) = (j, id)) as [= ->]; [|done].
      eapply start_alone; [done|exact Hk2|done|]. by rewrite <-Hnn. }
    destruct (decide ((j', id2) = (j, id))) as [[= -> ->]|Hne2].
    { rewrite start_lookup_new in Hk2. injection Hk2 as <-.
      assert ((j, id1) = (j, id)) as [= ->]; [|done].
      eapply start_alone; [done|exact Hk1|done|]. by rewrite Hnn. }
    destruct (start_old _ _ Hk1 Hl1 Hne1) as [Hk1' _]. destruct (start_old _ _ Hk2 Hl2 Hne2) as [Hk2' _].
    by eapply (co_one _ _ _ Hco).
  - intros sid s. rewrite Hsess. intros Hs. eapply session_ok_mono; [apply start_evolves|apply start_expects|].
    by eapply (co_sessions _ _ _ Hco).
Qed.
End StartStore.

(** ** The transaction of startInvocation *)
Record started_ok (w' : Service) (inv : option Invocation) (skipRunning : bool) : Prop := {
  st_none : inv = None -> skipRunning = true /\ ~ expecting w' j n;
  st_some i : inv = Some i ->
    JobKey i = j /\ InvNonce i = n /\ invs w' !! inv_key i = Some i /\
    skipRunning = giveUp /\ InvStatus i = (if giveUp then StatusFailed else StatusStarting) /\
    (giveUp = true -> ~ expecting w' j n);
}.

Lemma start_ok :
  exists w' inv skipRunning err,
    txn e w j (None, false) (startTxn jitter ParseDuration parseCronexpr Sprintf e n who retryCount)
      = Ret (w', (inv, skipRunning), err) /\
    invariant w' /\ sessions w' = sessions w /\ dropped w' = dropped w /\
    evolves (invs w) (invs w') /\ (err = None -> started_ok w' inv skipRunning).
Proof.
  destruct (txn_post e w j (None, false) _ _ startTxn_post) as (w' & [inv skip] & err & Heq & Hres).
  exists w', inv, skip, err. split; [done|].
  destruct Hres as [(-> & er & -> & _)|(tx & put & r & HQ & -> & Hv & _ & Hr)].
  { split; [done|]. split; [done|]. split; [done|]. split; [apply evolves_refl|done]. }
  destruct r as [[]|er].
  - destruct HQ as (id & Hj & Hexp & Hid0 & Hnone & Hvars & Hat).
    rewrite Hvars in Hv. injection Hv as -> ->.
    assert (Hjobs : forall j' J', jobs (commit_tx w j put tx) !! j' = Some J' ->
      j' <> j /\ jobs w !! j' = Some J' \/ j' = j /\ job_ok j J' /\ starts id (old_state w j) (JobSt J')).
    { intros j' J' HJ'. destruct (commit_jobs w j tx put j' J' Hr HJ') as [?|[-> ->]]; [by left|right].
      split; [done|]. destruct Hat as [_ Hjid Hjob Hwf Hst _]. split; [|done]. destruct Hst as [Hnd _].
      destruct (old_job_ok _ _ w j (proj1 Hinv)) as (_ & _ & Hen & Hp).
      assert (Het : Enabled (old_job w j) = true).
      { destruct (Enabled (old_job w j)) eqn:E; [done|].
        assert (Hd : State (old_state w j) = JobStateDisabled) by (by apply Hen).
        unfold IsExpectingInvocation in Hexp. by rewrite Hd in Hexp. }
      split; [done|done| |]; rewrite Hjob; cbn; [|intros _; by apply Hp].
      rewrite Het. split; [done|]. intros Hd. by destruct Hnd. }
    pose proof (ta_invs _ _ _ _ _ _ _ _ Hat) as Hinvs.
    pose proof (start_core id (commit_tx w j put tx) Hj Hexp Hid0 Hnone Hinvs eq_refl Hjobs) as Hco.
    assert (Hcq : cover (commit_tx w j put tx) /\ queue_ok (commit_tx w j put tx)).
    { eapply (tx_at_queue jitter _ _ jitter_nonneg cron_next w e j Hinv He); [|done|exact Hat|exact Hr].
      intros t Ht. by apply elem_of_nil in Ht. }
    split; [by split|].
    split; [done|]. split; [done|]. split; [by eapply start_evolves|].
    intros _. split; [done|]. intros i [= <-].
    rewrite attempt_key. split; [by injection (attempt_key id)|]. split; [done|].
    split; [by eapply start_lookup_new|]. split; [done|]. split; [done|].
    intros Hg (J' & HJ' & HE). destruct (Hjobs _ _ HJ') as [[? _]|(_ & _ & _ & _ & Hs)]; [done|].
    rewrite Hg in Hs. destruct Hs as (_ & _ & Hq'). unfold IsExpectingInvocation in HE. by rewrite Hq' in HE.
  - destruct Hr as [Hskip ->]. destruct (HQ Hskip) as (Hinvs & Htasks & Hvars & Hne).
    rewrite Hvars in Hv. injection Hv as -> ->.
    assert (Hw : commit_tx w j false tx = w).
    { unfold commit_tx. rewrite Hinvs, Htasks, app_nil_r. by destruct w. }
    rewrite Hw. split; [done|]. split; [done|]. split; [done|]. split; [apply evolves_refl|]. intros _. by split.
Qed.
End Request.
End Start.
