(* ===== verification/EngineStep.v ===== *)
(** Every request keeps the invariant of the engine, and none panics. *)
From S2P Require Import Prelude SchedulerSM DebugLog Engine EngineInv EngineOuter EngineSave EngineStart.
Local Open Scope Z_scope.

Section Step.
Context (jitter : Z -> Z -> Z).
Context (ParseDuration : string -> option Z) (parseCronexpr : string -> option (Time -> Time)).
Context (Sprintf : LogMsg -> bytes).
Context `{cat : Catalog}.
Hypothesis jitter_nonneg : forall seed i, 0 <= i -> 0 <= jitter seed i.
Hypothesis cron_next : cron_ok parseCronexpr.
Context {catok : CatalogOk cat}.
Notation core := (core ParseDuration parseCronexpr).
Notation invariant := (invariant ParseDuration parseCronexpr).
Notation perform := (perform jitter ParseDuration parseCronexpr Sprintf).

(** * Sessions come and go *)
Lemma session_ok_same w w' s : invs w' = invs w -> jobs w' = jobs w -> session_ok w s -> session_ok w' s.
Proof.
  intros Hi Hj. apply session_ok_mono; [rewrite Hi; apply evolves_refl|by apply expects_refl].
Qed.

Lemma with_sessions_invariant w m :
  invariant w -> (forall sid s, m !! sid = Some s -> session_ok w s) -> invariant (with_sessions m w).
Proof.
  intros ([H1 H2 H3 H4 H5 H6] & Hcv & Hq) Hm. split; [|split; [exact Hcv|exact Hq]].
  split; try done. intros sid s Hs. eapply session_ok_same; [..|by eapply Hm]; done.
Qed.

Lemma add_session_invariant w sid s : invariant w -> session_ok w s -> invariant (add_session sid s w).
Proof.
  intros Hinv Hs. apply with_sessions_invariant; [done|]. intros sid' s'.
  rewrite lookup_insert_Some. intros [[_ <-]|[_ H]]; [done|]. by eapply (co_sessions _ _ _ (proj1 Hinv)).
Qed.

Lemma drop_session_invariant w sid : invariant w -> invariant (drop_session sid w).
Proof.
  intros Hinv. apply with_sessions_invariant; [done|]. intros sid' s'.
  rewrite lookup_delete_Some. intros [_ H]. by eapply (co_sessions _ _ _ (proj1 Hinv)).
Qed.

(** * Tasks that do not concern the state of their job *)
Lemma reply_invariant again t w rep :
  invariant w ->
  (forall t', t = Some t' -> tick_task t' = false /\
     (start_task t' = true -> rep = Ended None ->
      forall j n who, t' = JobAction j (StartInvocationAction n who) -> ~ expecting w j n)) ->
  exists w' rep', reply_to again t (w, rep) = (w', rep') /\ invariant w' /\ invs w' = invs w.
Proof.
  intros Hinv Ht. destruct t as [t|]; [|by do 2 eexists]. destruct rep as [err|]; [|by do 2 eexists].
  destruct (Ht t eq_refl) as [Htick Hst]. do 2 eexists. split; [done|]. split.
  - apply ack_invariant; [done|done|]. intros -> j n who ->. by eapply Hst.
  - unfold ack. destruct err as [er|]; [by destruct (transientTag er)|done].
Qed.

Lemma reply_other again t w rep :
  invariant w -> (forall t', t = Some t' -> start_task t' = false /\ tick_task t' = false) ->
  exists w' rep', reply_to again t (w, rep) = (w', rep') /\ invariant w' /\ invs w' = invs w.
Proof.
  intros Hinv Ht. apply reply_invariant; [done|]. intros t' ->. destruct (Ht t' eq_refl) as [Hs Hk].
  split; [done|]. intros Hs'. congruence.
Qed.

(** * New sessions *)
Lemma new_running w t h i p :
  invariant w -> invs w !! inv_key i = Some i -> obeys h (InvStatus i) (populateState i) p ->
  (launching h = true ->
    (exists who, t = Some (JobAction (JobKey i) (StartInvocationAction (InvNonce i) who))) /\
    InvStatus i = StatusStarting) ->
  (launching h = false -> forall t', t = Some t' -> start_task t' = false /\ tick_task t' = false) ->
  running_ok w t h (newController i) p.
Proof.
  intros Hinv Hi Ho Hl Ht. split; cbn; [|done| |done].
  - exists i. auto with lia.
  - intros Hh. destruct (Hl Hh) as [? ->]. done.
Qed.

Lemma openInvocation_ok e w j id k :
  invariant w ->
  (forall i msg m, invs w !! (j, id) = Some i -> inv_key i = (j, id) -> live i ->
     GetTaskManager msg = Some m -> exists w' rep, k i msg m = (w', rep) /\ invariant w' /\ invs w' = invs w) ->
  exists w' rep, openInvocation e w j id k = (w', rep) /\ invariant w' /\ invs w' = invs w.
Proof.
  intros Hinv Hk. unfold openInvocation.
  destruct (TagApply <$> failure e SGetInv); [by do 2 eexists|].
  destruct (invs w !! (j, id)) as [i|] eqn:Ei; [|by do 2 eexists].
  destruct (Final (InvStatus i)) eqn:Ef; [by do 2 eexists|].
  destruct (managerFor i) as [[msg m]|] eqn:Em; [|by do 2 eexists].
  assert (Hm : GetTaskManager msg = Some m).
  { unfold managerFor in Em. repeat case_match; by simplify_eq. }
  destruct (co_keys _ _ _ (proj1 Hinv) _ _ Ei) as (Hkey & _).
  destruct (Hk i msg m eq_refl (eq_sym Hkey) Ef Hm) as (w' & rep & -> & ? & ?).
  by do 2 eexists.
Qed.

Lemma opened e w sid t h j id c0 k :
  invariant w -> launching h = false ->
  (forall t', t = Some t' -> start_task t' = false /\ tick_task t' = false) ->
  (forall i, saved (c0 i) = i /\ state (c0 i) = populateState i) ->
  (forall i msg m, live i -> GetTaskManager msg = Some m -> obeys h (InvStatus i) (populateState i) (k i msg m)) ->
  exists w' rep,
    openInvocation e w j id (fun i msg m => (add_session sid (Running t h (c0 i) (k i msg m)) w, Pending)) = (w', rep) /\
    invariant w' /\ invs w' = invs w.
Proof.
  intros Hinv Hh Ht Hc Hk. apply openInvocation_ok; [done|]. intros i msg m Hi Hkey Hl Hm.
  do 2 eexists. split; [done|]. split; [|done]. apply add_session_invariant; [done|]. cbn.
  destruct (Hc i) as [Hs Hst]. split; rewrite ?Hs, ?Hst.
  - exists i. rewrite Hkey. auto with lia.
  - by apply Hk.
  - by rewrite Hh.
  - done.
Qed.

Lemma outer_step V w e j w' (v : V) err :
  invariant w -> env_ok w e ->
  txn_result w j (outer_post ParseDuration parseCronexpr w e j (outstanding w j)) w' v err ->
  invariant w' /\ evolves (invs w) (invs w').
Proof.
  intros Hinv He Hres. split; [by eapply (outer_invariant jitter _ _ jitter_nonneg cron_next)|].
  rewrite (outer_invs _ _ _ _ _ _ _ _ _ _ Hres). apply evolves_refl.
Qed.

Lemma startInvocation_ok e w sid j n who retryCount :
  invariant w -> env_ok w e -> 0 <= retryCount ->
  exists w' rep,
    startInvocation jitter ParseDuration parseCronexpr Sprintf e w sid
      (Some (JobAction j (StartInvocationAction n who))) j n who retryCount = Ret (w', rep) /\
    invariant w' /\ evolves (invs w) (invs w') /\ (rep = Ended None -> ~ expecting w' j n).
Proof.
  intros Hinv He Hrc. unfold startInvocation.
  destruct (start_ok jitter _ _ Sprintf jitter_nonneg cron_next w e j n who retryCount Hinv He)
    as (w' & inv & skip & err & -> & Hinv' & _ & _ & Hev & Hok). cbn.
  destruct err as [er|]; [by do 2 eexists|]. destruct (Hok eq_refl) as [Hnone Hsome].
  destruct inv as [i|]; [|do 2 eexists; split; [done|split; [done|split; [done|]]]; intros _; by apply Hnone].
  destruct (Hsome i eq_refl) as (Hj & Hn & Hi & -> & Hst & Hg).
  destruct (giveUp retryCount) eqn:Eg; [do 2 eexists; split; [done|split; [done|split; [done|by intros _; apply Hg]]]|].
  do 2 eexists. split; [done|]. split; [|done]. apply add_session_invariant; [done|].
  assert (Hsess : forall h p, launching h = true -> obeys h StatusStarting (populateState i) p ->
    running_ok w' (Some (JobAction j (StartInvocationAction n who))) h (newController i) p).
  { intros h p Hh Ho. apply new_running; rewrite ?Hst; try done; [|congruence].
    intros _. rewrite Hj, Hn. split; [by eexists|done]. }
  unfold launch, managerFor. destruct (UnmarshalTask (InvTask i)) as [msg|]; [destruct (GetTaskManager msg) as [m|] eqn:Em|];
    apply Hsess; try done; [by apply launch_obeys|..]; split; try done; by split.
Qed.

(** * The end of a handler *)
Lemma controller_with_Status w c s : controller_ok w c -> controller_ok w (with_Status s c).
Proof. done. Qed.

Lemma save_step e w c u :
  invariant w -> env_ok w e -> controller_ok w c ->
  status_moves (InvStatus (saved c)) (tsStatus (state c)) ->
  (u = false -> InvStatus (saved c) = StatusStarting) ->
  exists w' c' err, saveImpl jitter ParseDuration parseCronexpr Sprintf e w c u = Ret (w', c', err) /\
    saved_ok ParseDuration parseCronexpr w c u w' c' err.
Proof. intros Hinv He Hc Hs Hu. by apply (saveImpl_ok jitter _ _ Sprintf jitter_nonneg cron_next w e (JobKey (saved c))). Qed.

Lemma launchError_transient rc st err :
  TagIn (launchError rc st err) = true -> TagIn err = true.
Proof.
  unfold launchError. intros H. case_match; [done|]. revert H. by repeat case_match.
Qed.

Lemma launchError_None rc st err : launchError rc st err = None -> st <> StatusStarting.
Proof.
  unfold launchError. intros H ->. cbn in H. by repeat case_match.
Qed.

Lemma launchStatus_left st : launchStatus st <> StatusStarting.
Proof. unfold launchStatus. case_match eqn:E; [done|]. by apply String.eqb_neq in E. Qed.

Lemma failOnFatal_fields e m err c :
  saved (failOnFatal Sprintf e m err c) = saved c /\
  end_status HTimer (tsStatus (state c)) err = Some (tsStatus (state (failOnFatal Sprintf e m err c))).
Proof. unfold failOnFatal. cbn. destruct err as [er|]; [|done]. by case_match. Qed.

Lemma finishHandler_ok e w t h c err :
  invariant w -> env_ok w e -> running_ok w t h c (Return err) ->
  exists w' err', finishHandler jitter ParseDuration parseCronexpr Sprintf e w h c err = Ret (w', err') /\
    invariant w' /\ evolves (invs w) (invs w') /\
    (launching h = true -> err' = None -> ~ expecting w' (JobKey (saved c)) (InvNonce (saved c))).
Proof.
  intros Hinv He [Hc [Hend Htr] Hl Ht].
  assert (Hsave : forall c', saved c' = saved c -> status_moves (InvStatus (saved c)) (tsStatus (state c')) ->
    forall u, (u = false -> InvStatus (saved c) = StatusStarting) ->
    exists w' c2 err', saveImpl jitter ParseDuration parseCronexpr Sprintf e w c' u = Ret (w', c2, err') /\
      invariant w' /\ evolves (invs w) (invs w') /\
      (launching h = true -> u = true -> tsStatus (state c') <> StatusStarting -> err' = None ->
       ~ expecting w' (JobKey (saved c)) (InvNonce (saved c)))).
  { intros c' Hs Hm u Hu.
    assert (Hc' : controller_ok w c') by (unfold controller_ok in *; by rewrite Hs).
    destruct (save_step e w c' u Hinv He Hc') as (w' & c2 & err' & Heq & Hsv); [by rewrite Hs|by rewrite Hs|].
    exists w', c2, err'. split; [done|]. destruct Hsv. split; [done|]. split; [done|].
    intros Hh Hut Hne Hn. rewrite <-Hs. apply (sv_ok Hn); [done|done|]. rewrite Hs. by apply Hl. }
  destruct h as [rc|er| | |]; cbn [finishHandler].
  - set (err1 := launchError _ _ _). set (c1 := with_Status _ c).
    destruct (Hsave c1 eq_refl Hend (negb (TagIn err1))) as (w' & c2 & serr & -> & ? & ? & Hne).
    { intros Hu. apply negb_false_iff in Hu. apply (Htr eq_refl). by eapply launchError_transient. }
    cbn. do 2 eexists. split; [done|]. split; [done|]. split; [done|]. intros _ Hn.
    destruct serr; [by destruct err1|]. destruct err1 eqn:E1; [done|].
    apply Hne; try done. apply launchStatus_left.
  - set (c1 := with_Status _ _).
    destruct (Hsave c1 eq_refl Hend true ltac:(done)) as (w' & c2 & serr & -> & ? & ? & Hne).
    cbn. do 2 eexists. split; [done|]. split; [done|]. split; [done|]. intros _ Hn. by apply Hne.
  - destruct (failOnFatal_fields e MsgFatalTimer err c) as [Hf1 Hf2]. cbn [end_status] in Hend, Hf2.
    injection Hf2 as Hf2. rewrite Hf2 in Hend.
    destruct (Hsave _ Hf1 Hend true ltac:(done)) as (w' & c2 & serr & -> & ? & ? & _).
    cbn. by do 2 eexists.
  - destruct (failOnFatal_fields e MsgFatalPubSub err c) as [Hf1 Hf2]. cbn [end_status] in Hend, Hf2.
    injection Hf2 as Hf2. rewrite Hf2 in Hend.
    destruct (Hsave _ Hf1 Hend true ltac:(done)) as (w' & c2 & serr & -> & ? & ? & _).
    cbn. by do 2 eexists.
  - destruct err as [er|]; [do 2 eexists; split; [done|]; split; [done|]; split; [apply evolves_refl|done]|].
    destruct (Hsave (with_Status StatusAborted c) eq_refl Hend true ltac:(done)) as (w' & c2 & serr & -> & ? & ? & _).
    cbn. by do 2 eexists.
Qed.

(** * Sessions, one step at a time *)
Lemma continue_ok w sid t h c c' p :
  invariant w -> running_ok w t h c p -> saved c' = saved c ->
  forall p', obeys h (InvStatus (saved c)) (state c') p' ->
  invariant (add_session sid (Running t h c' p') w).
Proof.
  intros Hinv [Hi Ho Hl Ht] Hs p' Hp'. apply add_session_invariant; [done|].
  split; rewrite ?Hs; done.
Qed.

Lemma save_session w e sid t h c k :
  invariant w -> env_ok w e -> running_ok w t h c (Save k) ->
  exists w' c' err, saveImpl jitter ParseDuration parseCronexpr Sprintf e w c true = Ret (w', c', err) /\
    invariant (add_session sid (Running t h c' (k err)) w') /\ evolves (invs w) (invs w').
Proof.
  intros Hinv He [Hc [Hm [Hok Hfail]] Hl Ht].
  destruct (save_step e w c true Hinv He Hc Hm ltac:(done)) as (w' & c' & err & Heq & [H1 _ _ _ H5 H6 H7 H8 H9 H10 H11]).
  exists w', c', err. split; [done|]. split; [|done]. apply add_session_invariant; [done|]. destruct H9 as [Hk Hn].
  assert (Hjk : JobKey (saved c') = JobKey (saved c)) by (by injection Hk).
  split; [done| | |done].
  - rewrite H8. destruct err as [er|]; [by rewrite H11|]. destruct (H10 eq_refl) as [-> _]. done.
  - intros Hh. destruct (Hl Hh) as [Htask Hne]. rewrite Hjk, Hn. split; [done|]. destruct err as [er|].
    + rewrite H11 by done. intros Hst HE. apply (Hne Hst), H6; [done|].
      destruct Hc as (i & Hi & Hni & _). eauto.
    + destruct (H10 eq_refl) as [-> Hexp]. intros Hst. by apply Hexp.
Qed.

Lemma insert_evolves w k i : invs w !! k = None -> evolves (invs w) (<[k := i]> (invs w)).
Proof.
  intros Hk k' i' Hi'. destruct (evolves_refl (invs w) k' i' Hi') as (i2 & Hi2 & ?). exists i2.
  by rewrite lookup_insert_ne by congruence.
Qed.

Lemma putOverrun_ok w i :
  invariant w -> invs w !! inv_key i = None -> InvStatus i = StatusOverrun -> InvID i <> 0 ->
  MutationsCount i = 0 -> invariant (with_invs (<[inv_key i := i]> (invs w)) w).
Proof.
  intros ([H1 H2 H3 H4 H5 H6] & Hcv & Hq) Hnone Hst Hid Hm. split; [|split; [exact Hcv|exact Hq]].
  assert (Hold : forall k i', <[inv_key i := i]> (invs w) !! k = Some i' -> live i' -> invs w !! k = Some i').
  { intros k i'. rewrite lookup_insert_Some. intros [[_ <-]|[_ ?]]; [unfold live; by rewrite Hst|done]. }
  assert (Hnew : forall k i', invs w !! k = Some i' -> <[inv_key i := i]> (invs w) !! k = Some i').
  { intros k i' Hk. rewrite lookup_insert_ne; [done|]. intros <-. congruence. }
  split; cbn; [done| | | | |].
  - intros j J HJ Hne. destruct (H2 _ _ HJ Hne) as (i0 & Hi0 & ?). eauto.
  - intros k i'. rewrite lookup_insert_Some. intros [[<- <-]|[_ Hk]]; [|by eapply H3].
    split; [done|]. split; [done|]. split; [lia|]. unfold live. by rewrite Hst.
  - eauto.
  - eauto.
  - intros sid s Hs. apply (session_ok_mono w); [by apply insert_evolves|by apply expects_refl|by eapply H6].
Qed.

Lemma runSession_ok e w sid answer again :
  invariant w -> env_ok w e ->
  (forall t i, sessions w !! sid = Some (PutOverrun t i) -> invs w !! inv_key i = None) ->
  exists w' rep, runSession jitter ParseDuration parseCronexpr Sprintf e w sid answer again = Ret (w', rep) /\
    invariant w' /\ evolves (invs w) (invs w').
Proof.
  intros Hinv He Hput. unfold runSession.
  pose proof (evolves_refl (invs w)) as Hrefl.
  destruct (sessions w !! sid) as [s|] eqn:Es; [|by do 2 eexists].
  pose proof (co_sessions _ _ _ (proj1 Hinv) _ _ Es) as Hs.
  destruct s as [t h c p|t i|j id who]; cbn in Hs.
  - destruct p as [err|k|s k|line k|timer k|k|k].
    + destruct (finishHandler_ok e w t h c err Hinv He Hs) as (w' & err' & -> & Hinv' & Hev & Hne). cbn.
      destruct (reply_invariant again t (drop_session sid w') (Ended err')) as (w2 & rep & -> & ? & Hi2);
        [by apply drop_session_invariant| |do 2 eexists; split; [done|split; [done|by rewrite Hi2]]].
      intros t' ->. destruct Hs as [_ _ Hl Ht]. destruct (launching h) eqn:Eh.
      * destruct (Hl eq_refl) as [[who [= ->]] _]. split; [done|]. intros _ [= ->] j n who' [= <- <- _].
        by apply Hne.
      * destruct (Ht eq_refl t' eq_refl) as [Hst Htk]. split; [done|]. intros. congruence.
    + do 2 eexists. split; [done|]. split; [|done]. eapply continue_ok; [done..|]. apply (ro_obeys _ _ _ _ _ Hs).
    + do 2 eexists. split; [done|]. split; [|done]. eapply continue_ok; [done..|]. apply (ro_obeys _ _ _ _ _ Hs).
    + do 2 eexists. split; [done|]. split; [|done]. eapply continue_ok; [done..|]. apply (ro_obeys _ _ _ _ _ Hs).
    + do 2 eexists. split; [done|]. split; [|done]. eapply continue_ok; [done..|]. apply (ro_obeys _ _ _ _ _ Hs).
    + destruct (save_session w e sid t h c k Hinv He Hs) as (w' & c' & err & -> & ? & ?). cbn. by do 2 eexists.
    + do 2 eexists. split; [done|]. split; [|done]. eapply continue_ok; [done..|]. apply (ro_obeys _ _ _ _ _ Hs).
  - destruct Hs as (Hst & Htk & Hov & Hid & _ & Hm).
    assert (Hinv' : invariant (drop_session sid w)) by (by apply drop_session_invariant).
    assert (Ht : forall t', Some t = Some t' -> start_task t' = false /\ tick_task t' = false) by (by intros t' [= <-]).
    destruct (TagApply <$> failure e SPutInv) as [er|].
    + destruct (reply_other again (Some t) (drop_session sid w) (Ended (Some er)) Hinv' Ht) as (w2 & rep & -> & ? & Hi2).
      do 2 eexists. split; [done|]. split; [done|]. by rewrite Hi2.
    + destruct (reply_other again (Some t)
        (with_invs (<[inv_key i := i]> (invs (drop_session sid w))) (drop_session sid w)) (Ended None))
        as (w2 & rep & -> & ? & Hi2); [|done|].
      * apply putOverrun_ok; try done. by apply (Hput t).
      * do 2 eexists. split; [done|]. split; [done|]. rewrite Hi2. apply (insert_evolves w). by eapply Hput.
  - destruct (opened e (drop_session sid w) sid None HAbort j id
      (fun i => ctlLog e (Sprintf (MsgAbortedBy who)) (newController i)) (fun i msg m => AbortTask m msg i))
      as (w' & rep & Heq & ? & Hi2); [by apply drop_session_invariant|done..| |].
    + intros i msg m Hl Hm. by apply abort_obeys.
    + unfold AbortInvocation. rewrite Heq. do 2 eexists. split; [done|]. split; [done|]. by rewrite Hi2.
Qed.

(** * Requests *)
Lemma executeTask_ok e w sid t retryCount again :
  invariant w -> env_ok w e -> t ∈ queue w -> 0 <= retryCount ->
  exists r w' rep, executeTask jitter ParseDuration parseCronexpr Sprintf e w sid t retryCount = Ret r /\
    reply_to again (Some t) r = (w', rep) /\ invariant w' /\ evolves (invs w) (invs w').
Proof.
  intros Hinv He Hin Hrc. destruct t as [j [when n|n who|ov id]|j id eta timer]; cbn [executeTask].
  - destruct (tick_invariant jitter _ _ jitter_nonneg cron_next w e j when n again Hinv He Hin)
      as (w' & v & err & -> & Hi2 & ?). cbn. do 3 eexists. split; [done|]. split; [done|]. split; [done|].
    replace (invs (ack again _ err w')) with (invs w); [apply evolves_refl|].
    rewrite <-Hi2. unfold ack. destruct err as [er|]; [by destruct (transientTag er)|done].
  - destruct (startInvocation_ok e w sid j n who retryCount Hinv He Hrc) as (w' & rep & -> & Hinv' & Hev & Hne).
    destruct (reply_invariant again (Some (JobAction j (StartInvocationAction n who))) w' rep Hinv')
      as (w2 & rep2 & ? & ? & Hi2); [|do 3 eexists; split; [done|split; [done|split; [done|by rewrite Hi2]]]].
    intros t' [= <-]. split; [done|]. intros _ Hr j' n' who' [= <- <- <-]. by apply Hne.
  - destruct (recordOverrun Sprintf e w sid (JobAction j (RecordOverrunAction ov id)) j ov id) as [w' rep] eqn:E.
    assert (Hi1 : invs w' = invs w).
    { unfold recordOverrun in E. by destruct (generateInvocationID e (invs w) j); simplify_eq. }
    assert (Hinv' : invariant w').
    { unfold recordOverrun in E. destruct (generateInvocationID e (invs w) j) as [nid|] eqn:Eg; [|by simplify_eq].
      injection E as <- <-. apply add_session_invariant; [done|]. cbn. split; [done|]. split; [done|]. split; [done|].
      split; [|done]. unfold generateInvocationID in Eg. destruct (failure e SExists); [done|].
      destruct (pickID _ _ _ _ _) as [x|] eqn:Ep; [|done]. injection Eg as <-.
      destruct (pickID_spec _ _ _ _ _ _ Ep) as [_ [k ->]].
      pose proof (invocationID_positive (now e) (suffix e k) (eo_now _ _ He) (eo_suffix _ _ He k)). lia. }
    destruct (reply_other again (Some (JobAction j (RecordOverrunAction ov id))) w' rep Hinv')
      as (w2 & rep2 & ? & ? & Hi2); [by intros t' [= <-]|].
    do 3 eexists. split; [done|]. split; [done|]. split; [done|]. rewrite Hi2, Hi1. apply evolves_refl.
  - destruct (opened e w sid (Some (InvTimer j id eta timer)) HTimer j id newController
      (fun i msg m => HandleTimer m msg i (TimerName timer) (TimerPayload timer)))
      as (w' & rep & Heq & Hinv' & Hi1); [done|done|by intros t' [= <-]|done| |].
    + intros i msg m Hl Hm. by apply timer_obeys.
    + unfold invocationTimerTick. rewrite Heq.
      destruct (reply_other again (Some (InvTimer j id eta timer)) w' rep Hinv')
        as (w2 & rep2 & ? & ? & Hi2); [by intros t' [= <-]|].
      do 3 eexists. split; [done|]. split; [done|]. split; [done|]. rewrite Hi2, Hi1. apply evolves_refl.
Qed.

Lemma AbortJob_ok e w sid j who :
  invariant w -> env_ok w e ->
  exists w' rep, AbortJob jitter ParseDuration parseCronexpr e w sid j who = Ret (w', rep) /\ invariant w' /\
    evolves (invs w) (invs w').
Proof.
  intros Hinv He. unfold AbortJob.
  destruct (AbortJob_post jitter _ _ jitter_nonneg cron_next w e j (proj1 Hinv) He _
    (cover_state w j (proj1 (proj2 Hinv)))) as (w' & id & err & Heq & Hres).
  setoid_rewrite Heq. cbn.
  destruct (outer_step _ _ _ _ _ _ _ Hinv He Hres) as [Hinv' Hev].
  destruct err; [by do 2 eexists|]. case_match; [by do 2 eexists|].
  do 2 eexists. split; [done|]. split; [by apply add_session_invariant|done].
Qed.

(** The main lemma: no request panics, and the invariant holds again. *)
Lemma perform_ok e sid r w :
  invariant w -> env_ok w e -> allowed w sid r -> ~ overwrites w r ->
  exists w' rep, perform e sid r w = Ret (w', rep) /\ invariant w' /\ evolves (invs w) (invs w').
Proof.
  intros Hinv He [Hsid Hall] Hno. pose proof (fun j => cover_state w j (proj1 (proj2 Hinv))) as Hcov.
  destruct r as [def|j|j|j who|j p|j who|j id who|j id data|t rc again|s answer again|s|t]; cbn [Engine.perform].
  - destruct (updateJob_post jitter _ _ jitter_nonneg cron_next w e (defJobID def) (proj1 Hinv) He _
      (Hcov (defJobID def)) def eq_refl) as (w' & v & err & -> & Hres). do 2 eexists. split; [done|].
    by eapply outer_step.
  - destruct (disableJob_post jitter _ _ jitter_nonneg cron_next w e j (proj1 Hinv) He _ (Hcov j))
      as (w' & v & err & -> & Hres). do 2 eexists. split; [done|]. by eapply outer_step.
  - destruct (resetJob_post jitter _ _ jitter_nonneg cron_next w e j (proj1 Hinv) He _ (Hcov j))
      as (w' & v & err & -> & Hres). do 2 eexists. split; [done|]. by eapply outer_step.
  - destruct (TriggerInvocation_post jitter _ _ jitter_nonneg cron_next w e j (proj1 Hinv) He _ (Hcov j) who)
      as (w' & v & err & -> & v' & err' & Hres). do 2 eexists. split; [done|]. by eapply outer_step.
  - destruct (setPausedFlag_post jitter _ _ jitter_nonneg cron_next w e j (proj1 Hinv) He _ (Hcov j) p)
      as (w' & v & err & -> & Hres). do 2 eexists. split; [done|]. by eapply outer_step.
  - by apply AbortJob_ok.
  - destruct (opened e w sid None HAbort j id
      (fun i => ctlLog e (Sprintf (MsgAbortedBy who)) (newController i)) (fun i msg m => AbortTask m msg i))
      as (w' & rep & Heq & ? & Hi2); [done..| |].
    + intros i msg m Hl Hm. by apply abort_obeys.
    + unfold AbortInvocation. rewrite Heq. do 2 eexists. rewrite Hi2. auto using evolves_refl.
  - destruct (opened e w sid None HPubSub j id newController (fun i msg m => HandleNotification m msg i data))
      as (w' & rep & Heq & ? & Hi2); [done..| |].
    + intros i msg m Hl Hm. by apply notification_obeys.
    + unfold handlePubSubMessage. rewrite Heq. do 2 eexists. rewrite Hi2. auto using evolves_refl.
  - destruct Hall as [Hin Hrc]. destruct (executeTask_ok e w sid t rc again Hinv He Hin Hrc)
      as (r & w' & rep & -> & Heq & ? & ?). cbn [mbind outcome_bind]. rewrite Heq. by do 2 eexists.
  - apply runSession_ok; [done..|]. intros t i Hs. apply eq_None_not_Some. intros Hi. apply Hno. by exists s, answer, again, t, i.
  - do 2 eexists. split; [done|]. split; [by apply drop_session_invariant|apply evolves_refl].
  - do 2 eexists. split; [done|]. split; [|apply evolves_refl]. apply ack_invariant; [done| |done].
    destruct Hall as [_ Hst]. destruct t as [? []|]; done.
Qed.

Lemma reachable_invariant w :
  reachable jitter ParseDuration parseCronexpr Sprintf w -> invariant w.
Proof.
  induction 1 as [|w w' _ IH [e sid r w2 rep He Hal Hno Heq]].
  - split; [|split].
    + split; intros *; cbn; rewrite ?lookup_empty; done.
    + intros j J. cbn. by rewrite lookup_empty.
    + intros j t n Hin. by apply elem_of_nil in Hin.
  - destruct (perform_ok e sid r w IH He Hal Hno) as (w3 & rep3 & Heq3 & ? & _). congruence.
Qed.
End Step.
