(* ===== verification/EngineConfig.v ===== *)
(** UpdateProjectJobs of scheduler/appengine/engine/engine.go: after all its calls have
    succeeded, in whatever order, the enabled jobs of the project are those of the config. *)
From S2P Require Import Prelude SchedulerSM DebugLog Engine EngineInv EngineOuter.
Local Open Scope Z_scope.

#[export] Instance JobDef_eq_dec : EqDecision JobDef.
Proof. solve_decision. Defined.
#[export] Instance Call_eq_dec : EqDecision Call.
Proof. solve_decision. Defined.

Lemma NoDup_map_inj {A B} (f : A -> B) (l : list A) x y :
  NoDup (map f l) -> x ∈ l -> y ∈ l -> f x = f y -> x = y.
Proof.
  induction l as [|a l IH]; [by intros _ ?%elem_of_nil|]. cbn [map]. intros [Hn Hl]%NoDup_cons.
  assert (Hin : forall z, z ∈ l -> f z ∈ map f l) by (intros z Hz; apply list_elem_of_fmap; by exists z).
  intros [->|Hx]%elem_of_cons [->|Hy]%elem_of_cons Heq; [done|..|by apply IH].
  - destruct Hn. rewrite Heq. by apply Hin.
  - destruct Hn. rewrite <-Heq. by apply Hin.
Qed.

Lemma NoDup_map_filter {A B} (f : A -> B) P `{forall x, Decision (P x)} (l : list A) :
  NoDup (map f l) -> NoDup (map f (filter P l)).
Proof.
  induction l as [|a l IH]; [done|]. cbn [map]. intros [Hn Hl]%NoDup_cons. rewrite filter_cons.
  case_decide; [|by apply IH]. cbn. apply NoDup_cons. split; [|by apply IH].
  intros Ha. apply Hn. apply list_elem_of_fmap in Ha as (x & -> & [_ Hx]%list_elem_of_filter).
  apply list_elem_of_fmap. eauto.
Qed.

Section Config.
Context (jitter : Z -> Z -> Z).
Context (ParseDuration : string -> option Z) (parseCronexpr : string -> option (Time -> Time)).
Context (Sprintf : LogMsg -> bytes).
Context `{cat : Catalog}.

Lemma txn_committed {V} e w j (v : V) cb w' v' :
  txn e w j v cb = Ret (w', v', None) ->
  exists tx r, cb (is_new w j) (start_tx w j v) = Ret (tx, r) /\
    match r with
    | Ok _ => (txJob tx = default (newJob j) (jobs w !! j) /\ jobs w' = jobs w) \/
              jobs w' = <[j := txJob tx]> (jobs w)
    | Err er => is_skip er /\ jobs w' = jobs w
    end.
Proof.
  unfold txn. fold (is_new w j) (start_tx w j v). destruct (failure e SGetJob); [done|].
  destruct (cb _ _) as [[tx r]|]; [|done]. cbn. intros H. exists tx, r. split; [done|]. destruct r as [u|er].
  - case_bool_decide as Hput; cbn [negb] in H.
    + left. split; [done|]. destruct (commit e); by simplify_eq.
    + right. destruct (failure e SPutJob); [done|]. destruct (commit e); by simplify_eq.
  - case_bool_decide; [|done]. split; [done|]. destruct (commit e); by simplify_eq.
Qed.

Lemma roll_rest {V} e ev (tx tx' : Tx V) r :
  roll jitter ParseDuration parseCronexpr e ev tx = Ret (tx', r) ->
  (exists st, txJob tx' = with_JobSt st (txJob tx)) /\ (forall er, r = Err er -> ~ is_skip er).
Proof.
  unfold roll, rollSM. destruct (SchedulerSM.rollSM _ _ _ _ _ _) as [[[st acts]|er]|]; [| |done]; cbn; intros [= <- <-].
  - split; [by exists st|done].
  - split; [exists (JobSt (txJob tx)); by destruct (txJob tx)|]. intros er' [= <-]. apply roll_error_not_skip.
Qed.

Lemma with_JobSt_fields st J :
  JobID (with_JobSt st J) = JobID J /\ Enabled (with_JobSt st J) = Enabled J /\ ProjectID (with_JobSt st J) = ProjectID J /\
  forall def, matches (with_JobSt st J) def = matches J def.
Proof. done. Qed.

Definition defined_by (project : string) (def : JobDef) (J : Job) : Prop :=
  Enabled J = true /\ matches J def = true /\ ProjectID J = project.

Lemma update_calls {V} e def J (tx tx' : Tx V) r :
  JobID J = defJobID def ->
  (setJob (with_def def J);;
   (if Enabled J then mret tt else roll jitter ParseDuration parseCronexpr e EvJobEnabled);;
   updated ← getJob;
   (if negb (String.eqb (effectiveSchedule updated) (effectiveSchedule J))
    then roll jitter ParseDuration parseCronexpr e EvScheduleChange else mret tt)) tx = Ret (tx', r) ->
  defined_by (ProjectID J) def (txJob tx') /\ (forall er, r = Err er -> ~ is_skip er).
Proof.
  intros HJ. assert (Hd : forall st, defined_by (ProjectID J) def (with_JobSt st (with_def def J))).
  { intros st. split; [done|]. split; [|done]. unfold matches. cbn. by rewrite !bool_decide_true. }
  unfold mbind, TM_bind, setJob, getJob. cbn.
  match goal with |- (match ?m with _ => _ end) = _ -> _ => destruct m as [[tx1 [u|er]]|] eqn:E1 end; [| |done].
  - assert (H1 : exists st, txJob tx1 = with_JobSt st (with_def def J)).
    { destruct (Enabled J); [injection E1 as <- _; by exists (JobSt J)|]. by apply roll_rest in E1 as [? _]. }
    destruct H1 as [st1 H1]. destruct (negb _).
    + intros [[st H2] Hs]%roll_rest. rewrite H2, H1. split; [apply (Hd st)|done].
    + intros [= <- <-]. rewrite H1. split; [apply Hd|done].
  - intros [= <- <-]. destruct (Enabled J); [done|]. apply roll_rest in E1 as [[st ->] Hs]. split; [apply Hd|done].
Qed.

Lemma updateJob_done e w def project x w' v :
  splitSlash (defJobID def) = [project; x] ->
  (forall J, jobs w !! defJobID def = Some J -> JobID J = defJobID def /\ ProjectID J = project) ->
  updateJob jitter ParseDuration parseCronexpr e w def = Ret (w', v, None) ->
  exists J, defined_by project def J /\ jobs w' = <[defJobID def := J]> (jobs w).
Proof.
  intros Hsp Hold Hu. apply txn_committed in Hu as (tx & r & Hcb & Hr).
  set (j := defJobID def) in *. revert Hcb. unfold mbind at 1, TM_bind at 1. cbn [getJob].
  assert (Hdone : forall J1, defined_by project def J1 ->
     J1 = default (newJob j) (jobs w !! j) /\ jobs w' = jobs w \/ jobs w' = <[j := J1]> (jobs w) ->
     exists J, defined_by project def J /\ jobs w' = <[j := J]> (jobs w)).
  { intros J1 Hd [[Hq ->]|Hj]; [|by eauto]. exists J1. split; [done|].
    destruct (jobs w !! j) as [J0|] eqn:E; [cbn in Hq; by rewrite insert_id; rewrite ?Hq|].
    destruct Hd as [Hen _]. by rewrite Hq in Hen. }
  destruct (negb (is_new w j) && _ && _) eqn:Esk.
  - intros [= <- <-]. destruct Hr as [_ ->]. rewrite !andb_true_iff in Esk. destruct Esk as [[Hn Hen] Hm].
    cbn in Hen, Hm. destruct (jobs w !! j) as [J0|] eqn:E; [|done]. exists J0. cbn in Hen, Hm.
    split; [|by rewrite insert_id]. split; [done|]. split; [done|]. by apply Hold.
  - intros Hcb.
    assert (Hc : exists J tx0, JobID J = defJobID def /\ ProjectID J = project /\
       (setJob (with_def def J);;
   (if Enabled J then mret tt else roll jitter ParseDuration parseCronexpr e EvJobEnabled);;
   updated ← getJob;
   (if negb (String.eqb (effectiveSchedule updated) (effectiveSchedule J))
    then roll jitter ParseDuration parseCronexpr e EvScheduleChange else mret tt)) tx0 = Ret (tx, r)).
    { revert Hcb. unfold mbind at 1, TM_bind at 1. destruct (is_new w j) eqn:En.
      - subst j. rewrite Hsp. cbn [mret TM_ret]. intros Hcb. do 2 eexists. split; [|split; [|exact Hcb]]; done.
      - cbn [mret TM_ret]. intros Hcb. unfold is_new in En. destruct (jobs w !! j) as [J0|] eqn:E; [|done].
        destruct (Hold _ eq_refl). do 2 eexists. split; [|split; [|exact Hcb]]; cbn; by rewrite E. }
    destruct Hc as (J & tx0 & HJ & Hp & Hc). apply update_calls in Hc as [Hd Hs]; [|done]. rewrite Hp in Hd.
    destruct r as [u|er]; [by eapply Hdone|]. destruct Hr as [Hk _]. by apply (Hs er) in Hk.
Qed.

Lemma disableJob_done e w j w' v :
  disableJob jitter ParseDuration parseCronexpr e w j = Ret (w', v, None) ->
  (forall k, k <> j -> jobs w' !! k = jobs w !! k) /\
  (forall J', jobs w' !! j = Some J' -> Enabled J' = false).
Proof.
  intros Hu. apply txn_committed in Hu as (tx & r & Hcb & Hr).
  revert Hcb. unfold mbind at 1, TM_bind at 1. cbn [getJob].
  destruct (is_new w j || _) eqn:Esk.
  - intros [= <- <-]. destruct Hr as [_ ->]. split; [done|]. intros J' HJ'.
    unfold is_new in Esk. cbn in Esk. rewrite HJ' in Esk. cbn in Esk. by destruct (Enabled J').
  - unfold mbind, TM_bind, setJob. cbn. intros [[st Hst] Hs]%roll_rest. cbn in Hst.
    destruct r as [u|er]; [|destruct Hr as [Hk _]; by apply (Hs er) in Hk].
    assert (Hen : Enabled (txJob tx) = false) by (by rewrite Hst).
    destruct Hr as [[Hq ->]| ->].
    + split; [done|]. intros J' HJ'. rewrite HJ' in Hq. cbn in Hq. by rewrite <-Hq.
    + split; [intros k Hk; by rewrite lookup_insert_ne|]. rewrite lookup_insert_eq. by intros J' [= <-].
Qed.

(** The job a call is about. *)
Definition target (c : Call) : string :=
  match c with CallUpdate def => defJobID def | CallDisable j => j end.

Lemma runCalls_done es w cs w' project :
  length es = length cs -> NoDup (map target cs) ->
  (forall def, CallUpdate def ∈ cs -> (exists x, splitSlash (defJobID def) = [project; x]) /\
     forall J, jobs w !! defJobID def = Some J -> JobID J = defJobID def /\ ProjectID J = project) ->
  runCalls jitter ParseDuration parseCronexpr es w cs = Ret (w', false) ->
  (forall j, j ∉ map target cs -> jobs w' !! j = jobs w !! j) /\
  (forall def, CallUpdate def ∈ cs -> exists J, jobs w' !! defJobID def = Some J /\ defined_by project def J) /\
  (forall j J, CallDisable j ∈ cs -> jobs w' !! j = Some J -> Enabled J = false).
Proof.
  revert es w. induction cs as [|c cs IH]; intros [|e es] w Hlen; try done.
  { intros _ _ [= <-]. split; [done|]. split; intros *; intros H; by apply elem_of_nil in H. }
  cbn [map]. intros [Hnin Hnd]%NoDup_cons Hup. cbn [runCalls]. intros Hrun.
  destruct (runCall _ _ _ e w c) as [[w1 rep]|] eqn:Ec; [|done]. cbn in Hrun.
  destruct (runCalls _ _ _ es w1 cs) as [[w2 failed]|] eqn:Er; [|done]. cbn in Hrun.
  assert (Hw : w2 = w') by (by injection Hrun). subst w2.
  assert (Hf : failed = false /\ (forall er, rep <> Ended (Some er))).
  { injection Hrun as Hf. destruct rep as [[er|]|]; [done|..]; by subst. }
  destruct Hf as [-> Hrep].
  assert (Hc : (forall k, k <> target c -> jobs w1 !! k = jobs w !! k) /\
    match c with
    | CallUpdate def => exists J, defined_by project def J /\ jobs w1 !! target c = Some J
    | CallDisable j => forall J, jobs w1 !! target c = Some J -> Enabled J = false
    end).
  { destruct c as [def|j]; cbn [runCall ended] in Ec; unfold ended in Ec.
    - destruct (updateJob _ _ _ e w def) as [[[w3 v] err]|] eqn:Eu; [|done]. cbn in Ec. simplify_eq.
      destruct err; [by destruct (Hrep e0)|]. destruct (Hup def ltac:(by left)) as [[x Hx] Hold].
      destruct (updateJob_done _ _ _ _ _ _ _ Hx Hold Eu) as (J & HJ & Hj).
      split; [intros k Hk; rewrite Hj; by rewrite lookup_insert_ne|]. exists J. split; [done|]. cbn. by rewrite Hj, lookup_insert_eq.
    - destruct (disableJob _ _ _ e w j) as [[[w3 v] err]|] eqn:Eu; [|done]. cbn in Ec. simplify_eq.
      destruct err; [by destruct (Hrep e0)|]. by eapply disableJob_done. }
  destruct Hc as [Hrest Hc]. edestruct (IH es w1) as (H1 & H2 & H3); [by injection Hlen|done| |exact Er|].
  { intros def Hd. destruct (Hup def ltac:(by right)) as [Hx Hold]. split; [done|]. intros J.
    rewrite Hrest; [by apply Hold|]. intros Heq. apply Hnin. rewrite <-Heq. apply list_elem_of_fmap. by exists (CallUpdate def). }
  split; [|split].
  - intros j. rewrite not_elem_of_cons. intros [Hj Hj']. by rewrite H1, Hrest.
  - intros def [Hd|Hd]%elem_of_cons; [|by apply H2]. subst c. destruct Hc as (J & HJ & Hj). exists J. by rewrite H1.
  - intros j J [Hd|Hd]%elem_of_cons; [|by apply H3]. subst c. rewrite H1 by done. by apply Hc.
Qed.

Lemma revisions_lookup defs j :
  (forall d, d ∈ defs -> defRevision d <> ""%string) ->
  default ""%string (revisions defs !! j) = ""%string <-> j ∉ map defJobID defs.
Proof.
  intros Hne. unfold revisions.
  assert (H : forall m : gmap string string, default ""%string (foldl (fun m d => <[defJobID d := defRevision d]> m) m defs !! j) = ""%string <->
    j ∉ map defJobID defs /\ default ""%string (m !! j) = ""%string).
  { induction defs as [|d defs IH]; intros m; cbn; [split; [intros; split; [apply not_elem_of_nil|done]|by intros [_ ?]]|].
    rewrite IH by (intros d' Hd'; apply Hne; by right). rewrite not_elem_of_cons.
    destruct (decide (j = defJobID d)) as [->|Hj].
    - rewrite lookup_insert_eq. cbn. specialize (Hne d ltac:(by left)). naive_solver.
    - rewrite lookup_insert_ne by done. naive_solver. }
  rewrite H, lookup_empty. naive_solver.
Qed.

(** ** The calls of UpdateProjectJobs *)
Context (w : Service) (project : string) (defs : list JobDef).
Hypothesis defs_nodup : NoDup (map defJobID defs).
Hypothesis defs_revision : forall d, d ∈ defs -> defRevision d <> ""%string.

Lemma existing_lookup j J :
  getProjectJobs w project !! j = Some J <-> jobs w !! j = Some J /\ Enabled J = true /\ ProjectID J = project.
Proof.
  unfold getProjectJobs. rewrite map_lookup_filter_Some. cbn. rewrite andb_true_iff, bool_decide_eq_true. done.
Qed.

Lemma calls_update def :
  CallUpdate def ∈ projectCalls w project defs <->
  def ∈ defs /\ forall J, jobs w !! defJobID def = Some J -> ~ defined_by project def J.
Proof.
  unfold projectCalls. rewrite elem_of_app, (list_elem_of_fmap CallUpdate), (list_elem_of_fmap CallDisable). split.
  - intros [(d & [= ->] & Hd)|(j & ? & _)]; [|done]. apply list_elem_of_filter in Hd as [Hm Hd]. split; [done|].
    intros J HJ (Hen & Hma & Hp).
    assert (E : getProjectJobs w project !! defJobID d = Some J) by (by apply existing_lookup).
    by rewrite E, Hen, Hma in Hm.
  - intros [Hd Hno]. left. exists def. split; [done|]. apply list_elem_of_filter. split; [|done].
    destruct (getProjectJobs w project !! defJobID def) as [J|] eqn:E; [|done].
    apply existing_lookup in E as (HJ & Hen & Hp). apply negb_true_iff. rewrite Hen. cbn.
    destruct (matches J def) eqn:Em; [|done]. by destruct (Hno J HJ).
Qed.

Lemma calls_disable j :
  CallDisable j ∈ projectCalls w project defs <->
  (exists J, jobs w !! j = Some J /\ Enabled J = true /\ ProjectID J = project) /\ j ∉ map defJobID defs.
Proof.
  unfold projectCalls. rewrite elem_of_app, (list_elem_of_fmap CallUpdate), (list_elem_of_fmap CallDisable). split.
  - intros [(d & ? & _)|(k & [= ->] & Hk)]; [done|]. apply list_elem_of_filter in Hk as [Hr Hk].
    apply (revisions_lookup defs k defs_revision) in Hr. split; [|done].
    apply list_elem_of_fmap in Hk as ([k' J] & -> & Hin). exists J. by apply existing_lookup, elem_of_map_to_list.
  - intros [(J & HJ) Hn]. right. exists j. split; [done|]. apply list_elem_of_filter.
    split; [by apply (revisions_lookup defs j defs_revision)|]. apply list_elem_of_fmap. exists (j, J). split; [done|].
    by apply elem_of_map_to_list, existing_lookup.
Qed.

Lemma calls_distinct : NoDup (map target (projectCalls w project defs)).
Proof.
  unfold projectCalls. rewrite map_app, !map_map. cbn [target]. rewrite map_id.
  apply NoDup_app. split; [|split].
  - by apply NoDup_map_filter.
  - intros j Hj Hk. apply list_elem_of_filter in Hk as [Hr _].
    apply (revisions_lookup defs j defs_revision) in Hr.
    apply Hr. apply list_elem_of_fmap in Hj as (d & -> & Hd). apply list_elem_of_filter in Hd as [_ Hd].
    apply list_elem_of_fmap. by exists d.
  - apply NoDup_filter, NoDup_fst_map_to_list.
Qed.
End Config.
