(* ===== verification/TaskManagers.v ===== *)
(** The task managers of the scheduler: scheduler/appengine/task/noop, urlfetch,
    swarming and buildbucket, as programs over their controller, and the proof
    that they keep the promises the engine relies on ([CatalogOk]).

    The requests they send are not part of the model; the answers are: the bytes of an
    [External] step, decoded by the client libraries ([Clients]). *)
From S2P Require Import Prelude SchedulerSM DebugLog Engine EngineInv.
Local Open Scope Z_scope.

(** * API errors (task/utils/errors.go)

    An error of a Google API client: no HTTP response, or its status code. *)
Inductive APIError := ErrNoResponse | ErrCode (code : Z).

Definition IsTransientAPIError (e : APIError) : bool :=
  match e with
  | ErrNoResponse => true
  | ErrCode c => (500 <=? c) || (c =? 429) || (c =? 0)
  end.

Definition WrapAPIError (e : APIError) : error :=
  {| what := errOther "API error"; transientTag := IsTransientAPIError e |}.

(** * Answers of the services *)
Record TaskResult := { trState : string; trFailure : bool; trInternalFailure : bool }.
Record Build := { bId : bytes; bStatus : string; bResult : string; bURL : bytes }.

(** What the client libraries make of the bytes they are sent.  An error of
    PrepareTopic and GetClient carries the tag its callee gives it. *)
Record Clients := {
  preparedTopic : bytes -> result error unit;
  gotClient : bytes -> result error unit;
  swarmingNew : bytes -> result APIError (bytes * option TaskResult);
  swarmingResult : bytes -> result APIError TaskResult;
  buildbucketPut : bytes -> result APIError (result error (option Build));
  buildbucketGet : bytes -> result APIError (result error (option Build));
  fetched : bytes -> option Z;             (* status code of a URL fetch *)
  swarmingTaskID : bytes -> option bytes;  (* json.Unmarshal of TaskData *)
  buildID : bytes -> option bytes;
}.

(** The messages of cron.proto, as far as the managers read them. *)
Inductive Message :=
| NoopTask
| UrlFetchTask (urlOk : bool)
| SwarmingTask (server : bytes)
| BuildbucketTask (server : bytes).

Section Managers.
Context (cl : Clients).
(** [fmt.Sprintf] of a format and its arguments, and the encoding of TaskData. *)
Context (Sprintf' : string -> list bytes -> bytes) (encodeTaskData : bytes -> bytes).

Definition log (fmt : string) (args : list bytes) (k : Prog) : Prog := DebugLog (Sprintf' fmt args) k.
Definition setStatus (s : Status) (k : Prog) : Prog := GetState (fun st => SetState (with_tsStatus s st) k).
Definition fail (msg : string) : Prog := Return (Some (fatalError (errOther msg))).
Definition failWith (e : error) : Prog := Return (Some e).

(** ** noop *)
Definition noop : Manager Message := {|
  LaunchTask := fun _ _ => log "Running noop task" [] (setStatus StatusSucceeded (Return None));
  AbortTask := fun _ _ => Return None;
  HandleNotification := fun _ _ _ => fail "not implemented";
  HandleTimer := fun _ _ _ _ => Return None;
|}.

(** ** urlfetch *)
Definition urlfetch_LaunchTask (urlOk : bool) : Prog :=
  log "%s %s" []
    (if negb urlOk then fail "bad URL"
     else Save (fun _ => External (fun res =>
       let status := match fetched cl res with
                     | Some code => if 400 <=? code then StatusFailed else StatusSucceeded
                     | None => StatusFailed
                     end in
       log "Finished with overall status %s in %s" []
         (match fetched cl res with
          | None => log "URL fetch error: %s" []
          | Some _ => log "response" [res]
          end (setStatus status (Return None)))))).

Definition urlfetch : Manager Message := {|
  LaunchTask := fun msg _ => match msg with UrlFetchTask ok => urlfetch_LaunchTask ok | _ => fail "bad message" end;
  AbortTask := fun _ _ => Return None;
  HandleNotification := fun _ _ _ => fail "not implemented";
  HandleTimer := fun _ _ _ _ => fail "not implemented";
|}.

(** ** swarming *)
Definition statusCheckTimerName : string := "check-swarming-task-status".
Definition statusCheckTimerInterval : Z := 60000000000.

Definition checkTaskStatusLater (name : string) (k : Prog) : Prog :=
  GetState (fun st =>
    if Final (tsStatus st) then k
    else AddTimer {| Delay := statusCheckTimerInterval; TimerName := name; TimerPayload := [] |} k).

Definition handleTaskResult (r : TaskResult) (k : Prog) : Prog :=
  log "The task is in state %q (failure: %v, internalFailure: %v)" []
    (if String.eqb (trState r) "PENDING" || String.eqb (trState r) "RUNNING" then k
     else if String.eqb (trState r) "COMPLETED" && negb (trFailure r || trInternalFailure r)
     then setStatus StatusSucceeded k
     else setStatus StatusFailed k).

Definition createService (k : Prog) : Prog :=
  External (fun a => match gotClient cl a with Ok _ => k | Err e => failWith e end).

Definition swarming_LaunchTask (server : bytes) : Prog :=
  log "Preparing PubSub topic for %q" [server]
    (External (fun a =>
      match preparedTopic cl a with
      | Err e => log "Failed to prepare PubSub topic - %s" [] (failWith e)
      | Ok _ =>
          log "PubSub topic is %q" [] (log "Swarming task request:\n%s" []
            (Save (fun _ => createService (External (fun a =>
              match swarmingNew cl a with
              | Err e => log "Failed to trigger the task - %s" [] (failWith (WrapAPIError e))
              | Ok (id, res) =>
                  log "Swarming response:\n%s" []
                    (GetState (fun st => SetState
                      {| tsStatus := StatusRunning; tsTaskData := encodeTaskData id;
                         tsViewURL := Sprintf' "%s/user/task/%s" [server; id] |}
                      (log "Task URL: %s" []
                        (let later := checkTaskStatusLater statusCheckTimerName (Return None) in
                         match res with
                         | Some r => log "Task request was deduplicated" [] (handleTaskResult r later)
                         | None => later
                         end))))
              end)))))
      end)).

(** [checkTaskStatus]: [k] runs when it returns nil. *)
Definition checkTaskStatus (k : Prog) : Prog :=
  GetState (fun st =>
    if String.eqb (tsStatus st) StatusStarting
    then failWith (transientError (errOther "invocation is still starting, try again later"))
    else if negb (String.eqb (tsStatus st) StatusRunning) then fail "unexpected invocation status"
    else match swarmingTaskID cl (tsTaskData st) with
    | None => setStatus StatusFailed (fail "could not parse TaskData")
    | Some _ =>
        createService (External (fun a =>
          match swarmingResult cl a with
          | Err e =>
              let err := WrapAPIError e in
              log "Failed to fetch task results - %s" []
                (if transientTag err then failWith err else setStatus StatusFailed (failWith err))
          | Ok r =>
              handleTaskResult r (GetState (fun st =>
                if Final (tsStatus st) then log "Swarming task status:\n%s" [] k else k))
          end))
    end).

Definition swarming : Manager Message := {|
  LaunchTask := fun msg _ => match msg with SwarmingTask s => swarming_LaunchTask s | _ => fail "bad message" end;
  AbortTask := fun _ _ => Return None;
  HandleNotification := fun _ _ _ =>
    log "Received PubSub notification, asking swarming for the task status" [] (checkTaskStatus (Return None));
  HandleTimer := fun _ _ name _ =>
    if String.eqb name statusCheckTimerName then
      log "Timer tick, asking swarming for the task status" []
        (checkTaskStatus (checkTaskStatusLater statusCheckTimerName (Return None)))
    else Return None;
|}.

(** ** buildbucket *)
Definition buildCheckTimerName : string := "check-buildbucket-build-status".

Definition handleBuildResult (r : Build) (k : Prog) : Prog :=
  log "Build %d: status %q, result %q, failure_reason %q, cancelation_reason %q" []
    (if String.eqb (bStatus r) "SCHEDULED" || String.eqb (bStatus r) "STARTED" then k
     else if String.eqb (bStatus r) "COMPLETED" && String.eqb (bResult r) "SUCCESS"
     then setStatus StatusSucceeded k
     else setStatus StatusFailed k).

Definition buildbucket_LaunchTask (server : bytes) : Prog :=
  log "Preparing PubSub topic for %q" [server]
    (External (fun a =>
      match preparedTopic cl a with
      | Err e => log "Failed to prepare PubSub topic - %s" [] (failWith e)
      | Ok _ =>
          log "PubSub topic is %q" [] (log "Buildbucket request:\n%s" []
            (Save (fun _ => createService (External (fun a =>
              match buildbucketPut cl a with
              | Err e => log "Failed to add buildbucket build - %s" [] (failWith (WrapAPIError e))
              | Ok resp =>
                  log "Buildbucket response:\n%s" []
                    match resp with
                    | Err _ => log "Buildbucket returned error %q: %s" [] (fail "buildbucket error")
                    | Ok None =>
                        log "Buildbucket response is not valid, missing 'build'" []
                          (fail "bad buildbucket response, no 'build' field")
                    | Ok (Some b) =>
                        GetState (fun st => SetState
                          {| tsStatus := StatusRunning; tsTaskData := encodeTaskData (bId b); tsViewURL := bURL b |}
                          (log "Task URL: %s" [bURL b]
                            (let later := checkTaskStatusLater buildCheckTimerName (Return None) in
                             if String.eqb (bStatus b) "COMPLETED" then handleBuildResult b later else later)))
                    end
              end)))))
      end)).

Definition checkBuildStatus (k : Prog) : Prog :=
  GetState (fun st =>
    if String.eqb (tsStatus st) StatusStarting
    then failWith (transientError (errOther "invocation is still starting, try again later"))
    else if negb (String.eqb (tsStatus st) StatusRunning) then fail "unexpected invocation status"
    else match buildID cl (tsTaskData st) with
    | None => setStatus StatusFailed (fail "could not parse TaskData")
    | Some _ =>
        createService (External (fun a =>
          match buildbucketGet cl a with
          | Err e =>
              let err := WrapAPIError e in
              log "Failed to fetch buildbucket build - %s" []
                (if transientTag err then failWith err else setStatus StatusFailed (failWith err))
          | Ok (Err _) =>
              log "Buildbucket returned error %q: %s" [] (log "Buildbucket response:\n%s" []
                (setStatus StatusFailed (fail "buildbucket error")))
          | Ok (Ok None) =>
              log "Buildbucket response is not valid, missing 'build'" [] (log "Buildbucket response:\n%s" []
                (setStatus StatusFailed (fail "bad buildbucket response, no 'build' field")))
          | Ok (Ok (Some b)) =>
              handleBuildResult b (GetState (fun st =>
                if Final (tsStatus st) then log "Buildbucket build:\n%s" [] k else k))
          end))
    end).

Definition buildbucket : Manager Message := {|
  LaunchTask := fun msg _ => match msg with BuildbucketTask s => buildbucket_LaunchTask s | _ => fail "bad message" end;
  AbortTask := fun _ _ => Return None;
  HandleNotification := fun _ _ _ =>
    log "Received PubSub notification, asking Buildbucket for the build status" [] (checkBuildStatus (Return None));
  HandleTimer := fun _ _ name _ =>
    if String.eqb name buildCheckTimerName then
      log "Timer tick, asking Buildbucket for the build status" []
        (checkBuildStatus (checkTaskStatusLater buildCheckTimerName (Return None)))
    else Return None;
|}.

(** The catalog with these managers; [decode] is the decoding of TaskDefWrapper. *)
Definition managerOf (m : Message) : Manager Message :=
  match m with
  | NoopTask => noop
  | UrlFetchTask _ => urlfetch
  | SwarmingTask _ => swarming
  | BuildbucketTask _ => buildbucket
  end.

Definition luciCatalog (decode : bytes -> option Message) : Catalog :=
  {| TaskMsg := Message; UnmarshalTask := decode; GetTaskManager := fun m => Some (managerOf m) |}.
End Managers.

(** * The promises are kept *)
Section Obeys.
Context (cl : Clients) (Sprintf' : string -> list bytes -> bytes) (encodeTaskData : bytes -> bytes).

Lemma moves_refl a : status_moves a a.
Proof. done. Qed.

Lemma moves_open a s : Final a = false -> s <> StatusStarting -> status_moves a s.
Proof. intros Ha Hs. split; [done|congruence]. Qed.

(** Reading a program: every branch and every answer, then what is left at its end. *)
Ltac read_prog :=
  repeat (cbn -[status_moves Final StatusStarting String.eqb]; intros;
    try match goal with
    | |- obeys _ _ _ (match ?x with _ => _ end) => destruct x eqn:?
    | |- obeys _ _ _ ((match ?x with _ => _ end) _) => destruct x eqn:?
    | |- returns_ok _ _ _ _ => unfold returns_ok
    | |- status_moves _ (if _ then _ else _) => case_match
    | |- _ /\ _ => split
    end).
Ltac read_status :=
  read_prog;
  repeat match goal with H : InvStatus _ = StatusStarting |- _ => rewrite ?H; clear H end;
  first [done | apply moves_refl | by apply moves_open].

Lemma noop_obeys msg i rc name data :
  (InvStatus i = StatusStarting ->
     obeys (HLaunch rc) StatusStarting (populateState i) (LaunchTask (noop Sprintf') msg i)) /\
  (Final (InvStatus i) = false ->
     obeys HAbort (InvStatus i) (populateState i) (AbortTask (noop Sprintf') msg i) /\
     obeys HPubSub (InvStatus i) (populateState i) (HandleNotification (noop Sprintf') msg i data) /\
     obeys HTimer (InvStatus i) (populateState i) (HandleTimer (noop Sprintf') msg i name data)).
Proof. read_status. Qed.

Lemma urlfetch_obeys msg i rc name data :
  (InvStatus i = StatusStarting ->
     obeys (HLaunch rc) StatusStarting (populateState i) (LaunchTask (urlfetch cl Sprintf') msg i)) /\
  (Final (InvStatus i) = false ->
     obeys HAbort (InvStatus i) (populateState i) (AbortTask (urlfetch cl Sprintf') msg i) /\
     obeys HPubSub (InvStatus i) (populateState i) (HandleNotification (urlfetch cl Sprintf') msg i data) /\
     obeys HTimer (InvStatus i) (populateState i) (HandleTimer (urlfetch cl Sprintf') msg i name data)).
Proof. destruct msg; read_status. Qed.

Notation swarming := (swarming cl Sprintf' encodeTaskData).
Lemma swarming_obeys msg i rc name data :
  (InvStatus i = StatusStarting ->
     obeys (HLaunch rc) StatusStarting (populateState i) (LaunchTask swarming msg i)) /\
  (Final (InvStatus i) = false ->
     obeys HAbort (InvStatus i) (populateState i) (AbortTask swarming msg i) /\
     obeys HPubSub (InvStatus i) (populateState i) (HandleNotification swarming msg i data) /\
     obeys HTimer (InvStatus i) (populateState i) (HandleTimer swarming msg i name data)).
Proof. destruct msg; read_status. Qed.

Notation buildbucket := (buildbucket cl Sprintf' encodeTaskData).
Lemma buildbucket_obeys msg i rc name data :
  (InvStatus i = StatusStarting ->
     obeys (HLaunch rc) StatusStarting (populateState i) (LaunchTask buildbucket msg i)) /\
  (Final (InvStatus i) = false ->
     obeys HAbort (InvStatus i) (populateState i) (AbortTask buildbucket msg i) /\
     obeys HPubSub (InvStatus i) (populateState i) (HandleNotification buildbucket msg i data) /\
     obeys HTimer (InvStatus i) (populateState i) (HandleTimer buildbucket msg i name data)).
Proof. destruct msg; read_status. Qed.

Lemma managers_obey m msg i rc name data :
  let M := managerOf cl Sprintf' encodeTaskData m in
  (InvStatus i = StatusStarting ->
     obeys (HLaunch rc) StatusStarting (populateState i) (LaunchTask M msg i)) /\
  (Final (InvStatus i) = false ->
     obeys HAbort (InvStatus i) (populateState i) (AbortTask M msg i) /\
     obeys HPubSub (InvStatus i) (populateState i) (HandleNotification M msg i data) /\
     obeys HTimer (InvStatus i) (populateState i) (HandleTimer M msg i name data)).
Proof. destruct m; [apply noop_obeys|apply urlfetch_obeys|apply swarming_obeys|apply buildbucket_obeys]. Qed.

(** The catalog of the managers keeps the promises of [CatalogOk]. *)
#[export] Instance luciCatalog_ok decode : CatalogOk (luciCatalog cl Sprintf' encodeTaskData decode).
Proof.
  split; intros msg m i; intros; simplify_eq/=.
  - by apply (managers_obey msg msg i rc "" []).
  - by apply (managers_obey msg msg i 0 "" []).
  - by apply (managers_obey msg msg i 0 "" data).
  - by apply (managers_obey msg msg i 0 name data).
Qed.
End Obeys.
