(* ===== verification/EngineTheorems.v ===== *)
(** What is shown of the scheduler engine: no request panics, jobs and invocations
    stay consistent, tasks are not forgotten, finished invocations stay finished,
    attempts are bounded; and the places where an error loses a task. *)
From S2P Require Import Prelude SchedulerSM DebugLog Engine EngineInv EngineOuter EngineSave EngineStart EngineStep EngineConfig TaskManagers.
Local Open Scope Z_scope.

(** * Executable runs

    A request as the demonstrations make it: the instant, the nonce that is drawn, the
    failures it meets, the number of the session it may open. *)
Record DemoEvent := { evAt : Time; evNonce : Z; evFault : Site -> option (string * bool);
                   evCommit : Commit; evSession : nat; evRequest : Request }.

Definition event_env (ev : DemoEvent) : Env :=
  {| now := evAt ev; nonce := fun _ _ => evNonce ev; suffix := fun n => Z.of_nat n mod 65536;
     fault := evFault ev; commit := evCommit ev |}.

Section Runs.
Context (jitter : Z -> Z -> Z).
Context (ParseDuration : string -> option Z) (parseCronexpr : string -> option (Time -> Time)).
Context (Sprintf : LogMsg -> bytes).
Context `{cat : Catalog}.
Notation perform := (perform jitter ParseDuration parseCronexpr Sprintf).
Notation reachable := (reachable jitter ParseDuration parseCronexpr Sprintf).

Definition event_ok_b (w : Service) (ev : DemoEvent) : bool :=
  (invocationIDEpoch <=? evAt ev) && (evAt ev <? invocationIDEpoch + (2 ^ 43 - 1) * 1000000) &&
  (0 <? evNonce ev) &&
  forallb (fun ki => negb (InvNonce ki.2 =? evNonce ev)) (map_to_list (invs w)) &&
  negb (bool_decide (is_Some (sessions w !! evSession ev))) &&
  match evRequest ev with
  | ReqTask t retryCount _ => bool_decide (t ∈ queue w) && (0 <=? retryCount)
  | ReqRun sid _ _ =>
      match sessions w !! sid with
      | Some (PutOverrun _ i) => negb (bool_decide (is_Some (invs w !! inv_key i)))
      | _ => true
      end
  | ReqGiveUp t => bool_decide (t ∈ queue w) && start_task t
  | _ => true
  end.

Fixpoint run (evs : list DemoEvent) (w : Service) : option (Service * list reply) :=
  match evs with
  | [] => Some (w, [])
  | ev :: evs =>
      if event_ok_b w ev then
        match perform (event_env ev) (evSession ev) (evRequest ev) w with
        | Ret (w, rep) => '(w, reps) ← run evs w; Some (w, rep :: reps)
        | Panic => None
        end
      else None
  end.

Lemma event_ok_env w ev : event_ok_b w ev = true ->
  env_ok w (event_env ev) /\ allowed w (evSession ev) (evRequest ev) /\ ~ overwrites w (evRequest ev).
Proof.
  unfold event_ok_b. rewrite !andb_true_iff, forallb_forall.
  intros [[[[[H1 H2] H3] H4] H5] H6]. bool_to_prop. split; [split|split; [split|]]; cbn.
  - by split.
  - done.
  - intros _ _ k i Hk. apply elem_of_map_to_list in Hk.
    specialize (H4 (k, i)). rewrite <-list_elem_of_In in H4. specialize (H4 Hk). cbn in H4. by bool_to_prop.
  - intros n. apply Z.mod_pos_bound. lia.
  - by apply eq_None_not_Some.
  - destruct (evRequest ev) as [| | | | | | | |t rc ag|sid ? ?| |t]; try done.
    + by bool_to_prop.
    + by bool_to_prop.
  - intros (sid & answer & again & t & i & Hr & Hs & Hi). rewrite Hr, Hs in H6. by bool_to_prop.
Qed.

Lemma run_steps evs w w' reps :
  run evs w = Some (w', reps) -> rtc (step jitter ParseDuration parseCronexpr Sprintf) w w'.
Proof.
  revert w reps. induction evs as [|ev evs IH]; intros w reps; cbn; [by intros [= <- _]|].
  destruct (event_ok_b w ev) eqn:E; [|done].
  destruct (perform _ _ _ _) as [[w1 rep]|] eqn:Ep; [|done].
  destruct (run evs w1) as [[w2 rs]|] eqn:Er; [|done]. intros [= <- _].
  apply event_ok_env in E as (He & Ha & Hno). eapply rtc_l; [|by eapply IH]. by econstructor.
Qed.

Lemma steps_reachable w w' : reachable w -> rtc (step jitter ParseDuration parseCronexpr Sprintf) w w' -> reachable w'.
Proof. intros Hw. induction 1 in Hw |- *; [done|]. apply IHrtc. by eapply reachable_step. Qed.

(** The service after a run, if the run can be made. *)
Definition continue (evs : list DemoEvent) (w : Service) : Service :=
  match run evs w with Some (w', _) => w' | None => w end.

Lemma continue_steps evs w : rtc (step jitter ParseDuration parseCronexpr Sprintf) w (continue evs w).
Proof.
  unfold continue. destruct (run evs w) as [[w' reps]|] eqn:E; [by eapply run_steps|apply rtc_refl].
Qed.

Definition after (evs : list DemoEvent) : Service := continue evs empty_service.

Lemma after_reachable evs : reachable (after evs).
Proof. eapply steps_reachable; [apply reachable_empty|apply continue_steps]. Qed.
End Runs.

(** ** A service for demonstrations

    No jitter, cron expressions that fire each minute, empty log lines; the
    managers of the code, with clients that decode constant answers. *)
Definition demo_clients (put : result APIError (bytes * option TaskResult))
    (get : result APIError TaskResult) : Clients :=
  {| preparedTopic := fun _ => Ok tt; gotClient := fun _ => Ok tt;
     swarmingNew := fun _ => put; swarmingResult := fun _ => get;
     buildbucketPut := fun _ => Err ErrNoResponse; buildbucketGet := fun _ => Err ErrNoResponse;
     fetched := fun _ => Some 200; swarmingTaskID := fun d => Some d; buildID := fun d => Some d |}.

(** TaskDefWrapper messages: the first byte chooses the task. *)
Definition demo_decode (b : bytes) : option Message :=
  match b with
  | [0] => Some NoopTask
  | [1] => Some (UrlFetchTask true)
  | [2] => Some (SwarmingTask [])
  | _ => None
  end.

Definition minute : Z := 60000000000.
Definition demo_cron (expr : string) : option (Time -> Time) :=
  if String.eqb expr "every minute" then Some (fun t => t + minute)
  else if String.eqb expr "never" then Some (fun _ => 0) else None.
Definition demo_t0 : Time := invocationIDEpoch + 31536000000000000.

Definition no_fault (s : Site) : option (string * bool) := None.
Definition demo_event (k : Z) (sid : nat) (r : Request) : DemoEvent :=
  {| evAt := demo_t0 + k * minute; evNonce := k + 1; evFault := no_fault; evCommit := Committed;
     evSession := sid; evRequest := r |}.
Definition demo_def (task : bytes) : JobDef :=
  {| defJobID := "proj/job"; defFlavor := JobFlavorPeriodic; defRevision := "rev"; defRevisionURL := "url";
     defSchedule := "every minute"; defTask := task |}.

Definition demo_catalog (put : result APIError (bytes * option TaskResult))
    (get : result APIError TaskResult) : Catalog :=
  luciCatalog (demo_clients put get) (fun _ _ => []) (fun b => b) demo_decode.

Definition demo_jitter (_ _ : Z) : Z := 0.
Lemma demo_jitter_nonneg seed i : 0 <= i -> 0 <= demo_jitter seed i.
Proof. done. Qed.
Lemma demo_cron_next : cron_ok demo_cron.
Proof.
  intros expr next t. unfold demo_cron. case_match; [intros [= <-]; left; unfold minute; lia|].
  case_match; [|done]. intros [= <-]. by right.
Qed.

Definition demo_duration (_ : string) : option Z := None.
Definition demo_Sprintf (_ : LogMsg) : bytes := [].

(** * Requests that meet no failure *)
Definition fault_free (e : Env) : Prop := (forall s, fault e s = None) /\ commit e = Committed.

Lemma fault_free_failure e s : fault_free e -> failure e s = None.
Proof. intros [H _]. unfold failure. by rewrite H. Qed.

Lemma invocationFinished_free jitter m :
  is_waiting (State (St (invocationFinished jitter m))) = true /\
  InvocationNonce (St (invocationFinished jitter m)) = 0 /\ InvocationID (St (invocationFinished jitter m)) = 0.
Proof.
  unfold invocationFinished. set (m1 := resetInvocation _).
  destruct (scheduleTick_St jitter m1) as (t & n & Ht). unfold maybeSuspendOrResume.
  assert (Hk : State (St (scheduleTick jitter m1)) = JobStateScheduled /\
    InvocationNonce (St (scheduleTick jitter m1)) = 0 /\ InvocationID (St (scheduleTick jitter m1)) = 0)
    by (by rewrite Ht).
  destruct Hk as (Hk & Hn & Hi). rewrite Hk. cbn. by case_match; cbn; rewrite ?Hk.
Qed.

Section FaultFree.
Context (jitter : Z -> Z -> Z).
Context (ParseDuration : string -> option Z) (parseCronexpr : string -> option (Time -> Time)).
Context (Sprintf : LogMsg -> bytes).
Context `{cat : Catalog}.

Lemma abort_free e w sid j J who :
  fault_free e -> jobs w !! j = Some J -> job_ok ParseDuration parseCronexpr j J -> InvocationID (JobSt J) <> 0 ->
  exists w1 J1,
    AbortJob jitter ParseDuration parseCronexpr e w sid j who =
      Ret (add_session sid (PendingAbort j (InvocationID (JobSt J)) who) w1, Pending) /\
    jobs w1 = <[j := J1]> (jobs w) /\ invs w1 = invs w /\ sessions w1 = sessions w /\
    is_waiting (State (JobSt J1)) = true /\ InvocationNonce (JobSt J1) = 0 /\ InvocationID (JobSt J1) = 0.
Proof.
  intros Hf HJ [Hid Hwf Hen Hp] Hne.
  assert (Hn : InvocationNonce (JobSt J) <> 0).
  { destruct (JobSt J) as [k ? ? ? ? n ? ? id]; cbn in *. destruct Hwf; cbn in *.
    destruct k; cbn in *; try (specialize (wf_active eq_refl); lia); try (by destruct (wf_waiting eq_refl) as (?&?&_)).
    specialize (wf_disabled eq_refl). by injection wf_disabled. }
  assert (Het : Enabled J = true).
  { destruct (Enabled J) eqn:E; [done|]. destruct Hen as [Hd _]. specialize (Hd eq_refl).
    apply (wf_disabled _ _ Hwf) in Hd. by rewrite Hd in Hne. }
  destruct (Hp Het) as [s Hs].
  unfold AbortJob, txn. rewrite (fault_free_failure _ _ Hf), HJ. rewrite bool_decide_true by eauto.
  cbn. unfold getJob, setVars, roll, rollSM, SchedulerSM.rollSM, mbind, TM_bind. cbn. rewrite Hs. cbn.
  unfold OnManualAbort. cbn. apply Z.eqb_neq in Hn. rewrite Hn.
  set (m := {| Now := _ |}). destruct (invocationFinished_free jitter m) as (H1 & H2 & H3).
  rewrite (fault_free_failure _ SEnqueueJob Hf), (bool_decide_false (is_Some None)), andb_false_r by (by intros [? ?]).
  cbn. rewrite bool_decide_false.
  2:{ intros Heq. apply (f_equal (fun J => InvocationID (JobSt J))) in Heq. cbn in Heq. congruence. }
  cbn. rewrite (fault_free_failure _ SPutJob Hf). destruct Hf as [_ ->]. cbn.
  apply Z.eqb_neq in Hne as ->. do 2 eexists. split; [done|]. cbn. done.
Qed.

Lemma aborted_save e w c J :
  fault_free e -> invs w !! inv_key (saved c) = Some (saved c) -> Final (InvStatus (saved c)) = false ->
  jobs w !! JobKey (saved c) = Some J -> InvocationID (JobSt J) <> InvID (saved c) ->
  exists w', finishHandler jitter ParseDuration parseCronexpr Sprintf e w HAbort c None = Ret (w', None) /\
    jobs w' = jobs w /\ sessions w' = sessions w /\
    exists i', invs w' !! inv_key (saved c) = Some i' /\ InvStatus i' = StatusAborted /\ Finished i' = now e.
Proof.
  intros Hf Hi Hl HJ Hne. cbn [finishHandler]. set (c1 := with_Status StatusAborted c).
  assert (Hfin : hasFinished c1 = true) by (unfold hasFinished; subst c1; cbn; by rewrite Hl).
  unfold saveImpl. rewrite bool_decide_false.
  2:{ intros Heq. apply (f_equal InvStatus) in Heq. subst c1. cbn in Heq. by rewrite <-Heq in Hl. }
  cbn [andb]. destruct (toSave_fields Sprintf e c1 true) as (Hk & _ & Hst & Hm).
  change (saved c1) with (saved c) in *. set (i1 := toSave Sprintf e c1 true) in *.
  assert (Hjk : JobKey i1 = JobKey (saved c)) by (by injection Hk).
  assert (Hfi : Finished i1 = now e) by (subst i1; unfold toSave; rewrite Hfin; done).
  unfold txn. rewrite (fault_free_failure _ SGetJob Hf), Hjk, HJ. rewrite bool_decide_true by eauto.
  unfold saveTxn, getVars, setVars, getInv, putInv, getJob, mbind, TM_bind. cbn [negb txVars outcome_bind].
  rewrite (fault_free_failure _ SGetInv Hf). change (TagApply <$> None) with (@None error).
  cbn [try_ mret TM_ret txVars txInvs]. rewrite Hk, Hi. cbn [txVars txInvs]. rewrite Hm, Z.eqb_refl.
  cbn [negb]. rewrite (fault_free_failure _ SPutInv Hf). cbn [try_ mret TM_ret]. rewrite Hfin.
  cbn [negb andb mret TM_ret txJob default].
  assert (Hid : InvID i1 = InvID (saved c)) by (by injection Hk).
  cbn. rewrite Hid. apply Z.eqb_neq in Hne. rewrite Hne. cbn. destruct Hf as [_ ->].
  eexists. split; [done|]. cbn. split; [done|]. split; [done|]. exists (trimmed i1).
  split; [|by split]. rewrite <-Hk. change (inv_key (trimmed i1)) with (inv_key i1).
  by rewrite lookup_insert_eq.
Qed.
End FaultFree.

(** * Theorems *)
Section Theorems.
Context (jitter : Z -> Z -> Z).
Context (ParseDuration : string -> option Z) (parseCronexpr : string -> option (Time -> Time)).
Context (Sprintf : LogMsg -> bytes).
Context `{cat : Catalog}.
Hypothesis jitter_nonneg : forall seed i, 0 <= i -> 0 <= jitter seed i.
Hypothesis cron_next : cron_ok parseCronexpr.
Notation wf_state := (wf_state (never_again parseCronexpr)).
Hypothesis catok : CatalogOk cat.
Notation perform := (perform jitter ParseDuration parseCronexpr Sprintf).
Notation step := (step jitter ParseDuration parseCronexpr Sprintf).
Notation reachable := (reachable jitter ParseDuration parseCronexpr Sprintf).
Notation invariant := (invariant ParseDuration parseCronexpr).
Notation parseSchedule := (parseSchedule ParseDuration parseCronexpr).

Lemma reachable_inv w : reachable w -> invariant w.
Proof. by apply reachable_invariant. Qed.

(** C3. In a service that requests have brought about, in any order and with any
    failures, crashes and repeated deliveries, but with no invocation overwritten by
    the record of an overrun, every request is answered: the panics of the code are
    not reached. *)
Theorem requests_never_panic w e sid r :
  reachable w -> env_ok w e -> allowed w sid r ->
  exists w' rep, perform e sid r w = Ret (w', rep).
Proof.
  intros Hw He Ha. assert (Hd : overwrites w r \/ ~ overwrites w r).
  { destruct r as [| | | | | | | | |s answer again| |]; try (right; by intros (? & ? & ? & ? & ? & ? & _)).
    destruct (sessions w !! s) as [[|t i|]|] eqn:Es;
      try (right; intros (s' & ? & ? & ? & ? & [= <- <- <-] & Hs & _); congruence).
    destruct (invs w !! inv_key i) eqn:Ei; [left; exists s, answer, again, t, i; by rewrite Ei|right].
    intros (s' & ? & ? & t' & i' & [= <- <- <-] & Hs & [? Hi]). congruence. }
  destruct Hd as [(s & answer & again & t & i & -> & Hs & _)|Hno].
  - cbn [Engine.perform]. unfold runSession. rewrite Hs. destruct (reply_to _ _ _) as [w' rep]. by exists w', rep.
  - destruct (perform_ok jitter _ _ Sprintf jitter_nonneg cron_next e sid r w (reachable_inv w Hw) He Ha Hno)
      as (w' & rep & ? & _). eauto.
Qed.

(** C7. As long as no overrun is recorded over an invocation, entities are well
    formed: jobs and invocations are stored under their keys; the state of a job is well formed (a job that is SCHEDULED has a tick, unless some cron
    expression has no next instant), DISABLED exactly if the job is not enabled, and an
    enabled job has a schedule that parses; invocations have an ID, and a nonce
    while they are not finished. *)
Theorem engine_well_formed w :
  reachable w ->
  (forall j J, jobs w !! j = Some J ->
     JobID J = j /\ wf_state (JobSt J) /\ (Enabled J = false <-> State (JobSt J) = JobStateDisabled) /\
     (Enabled J = true -> is_Some (parseSchedule J))) /\
  (forall k i, invs w !! k = Some i ->
     k = (JobKey i, InvID i) /\ InvID i <> 0 /\ 0 <= MutationsCount i /\
     (Final (InvStatus i) = false -> 0 < InvNonce i)).
Proof.
  intros Hw. destruct (reachable_inv w Hw) as [Hco _]. split; [|by eapply co_keys].
  intros j J HJ. by destruct (co_jobs _ _ _ Hco _ _ HJ).
Qed.

(** C1. Jobs and invocations agree whatever runs between the transactions, as long as no
    overrun is recorded over an invocation: the current
    invocation of a job exists and has the nonce the job has asked for, it is
    under way while the job is RUNNING or OVERRUN; an attempt for that nonce that
    is not finished is the current one; and no two attempts for the same nonce are
    unfinished at once. *)
Theorem engine_consistent w j J :
  reachable w -> jobs w !! j = Some J ->
  (InvocationID (JobSt J) <> 0 ->
     exists i, invs w !! (j, InvocationID (JobSt J)) = Some i /\ InvNonce i = InvocationNonce (JobSt J) /\
       (is_running (State (JobSt J)) = true -> Final (InvStatus i) = false /\ InvStatus i <> StatusStarting)) /\
  (forall id i, invs w !! (j, id) = Some i -> Final (InvStatus i) = false ->
     InvNonce i = InvocationNonce (JobSt J) -> id = InvocationID (JobSt J)) /\
  (forall id1 id2 i1 i2, invs w !! (j, id1) = Some i1 -> invs w !! (j, id2) = Some i2 ->
     Final (InvStatus i1) = false -> Final (InvStatus i2) = false -> InvNonce i1 = InvNonce i2 -> id1 = id2).
Proof.
  intros Hw HJ. destruct (reachable_inv w Hw) as [Hco _]. split; [by apply (co_current _ _ _ Hco)|].
  split; [intros id i; by apply (co_live _ _ _ Hco)|by apply (co_one _ _ _ Hco)].
Qed.

(** C2. As long as no overrun is recorded over an invocation, what a job waits for is on
    its way: its next tick is in the queue of
    timers, with the nonce the job expects; a SCHEDULED job has a next tick, unless some
    cron expression has no next instant; and the start request of a queued job is in the
    queue of invocations, unless the queue was told to drop it. *)
Theorem requests_are_kept w j J :
  reachable w -> jobs w !! j = Some J ->
  (TickTime (JobSt J) <> 0 -> TickTime (JobSt J) <> DistantFuture ->
     JobAction j (TickLaterAction (TickTime (JobSt J)) (TickNonce (JobSt J))) ∈ queue w) /\
  (State (JobSt J) = JobStateScheduled ->
     TickTime (JobSt J) <> 0 /\ TickTime (JobSt J) <> DistantFuture \/ never_again parseCronexpr) /\
  (is_queued (State (JobSt J)) = true ->
     exists who, let t := JobAction j (StartInvocationAction (InvocationNonce (JobSt J)) who) in
       t ∈ queue w \/ exists er, (t, er) ∈ dropped w).
Proof.
  intros Hw HJ. destruct (reachable_inv w Hw) as (Hco & Hcv & _). destruct (Hcv _ _ HJ) as [Ht Hr].
  split; [|split].
  - intros H0 Hd. apply Z.eqb_neq in H0, Hd. unfold awaited_tick in Ht. rewrite H0, Hd in Ht.
    specialize (Ht _ eq_refl). apply elem_of_outstanding in Ht as [?|(t & er & _ & Hs)]; [done|].
    unfold start_of in Hs. by repeat case_match.
  - by destruct (co_jobs _ _ _ Hco _ _ HJ) as [_ [] _ _].
  - intros Hq. destruct (Hr Hq) as [who Hin]. exists who.
    apply elem_of_outstanding in Hin as [?|(t & er & Hin & Hs)]; [by left|]. right. exists er.
    destruct t as [j' a|]; [|done]. unfold start_of, action_of in Hs.
    case_decide; [|done]. subst j'. by destruct a; simplify_eq.
Qed.

(** The store only evolves. *)
Lemma service_evolves w w' : reachable w -> rtc step w w' -> evolves (invs w) (invs w').
Proof.
  intros Hw Hs. induction Hs as [w|w w1 w2 H1 _ IH]; [apply evolves_refl|].
  eapply evolves_trans; [|apply IH; by eapply reachable_step].
  destruct H1 as [e sid r w1 rep He Ha Hno Heq].
  destruct (perform_ok jitter _ _ Sprintf jitter_nonneg cron_next e sid r w (reachable_inv w Hw) He Ha Hno)
    as (w3 & rep3 & Heq3 & _ & Hev). by assert (w3 = w1) as -> by congruence.
Qed.

(** C6. As long as no overrun is recorded over an invocation, invocations are not lost
    and do not go back: later they still exist, with the same
    task, nonce and start; they do not return to STARTING; a finished one keeps its
    status and its time; and the mutations counter tells versions apart. *)
Theorem finished_stay_finished w w' k i :
  reachable w -> rtc step w w' -> invs w !! k = Some i ->
  exists i', invs w' !! k = Some i' /\
    InvNonce i' = InvNonce i /\ Started i' = Started i /\ InvTask i' = InvTask i /\
    (InvStatus i <> StatusStarting -> InvStatus i' <> StatusStarting) /\
    (Final (InvStatus i) = true -> InvStatus i' = InvStatus i /\ Finished i' = Finished i) /\
    MutationsCount i <= MutationsCount i' /\ (MutationsCount i = MutationsCount i' -> i' = i).
Proof.
  intros Hw Hs Hi. destruct (service_evolves w w' Hw Hs k i Hi) as (i' & Hi' & [Hn (? & ? & ? & ?) [Hst Hf] Hfin] & Hle & Heq).
  exists i'. split; [done|]. split; [done|]. split; [done|]. split; [done|]. split; [done|].
  split; [intros HF; split; [by apply Hf|by apply Hfin]|done].
Qed.

(** C5. A start request ends, in a service where no overrun was recorded over an
    invocation: the sixth delivery, and any later one, does not
    launch anything, and if it is answered with nil the job does not wait for it
    any more; the error of a fifth launch is not transient, hence not retried. *)
Theorem attempts_are_bounded w e sid t j n who retryCount :
  reachable w -> env_ok w e -> invocationRetryLimit <= retryCount ->
  (exists w' err,
    startInvocation jitter ParseDuration parseCronexpr Sprintf e w sid t j n who retryCount = Ret (w', Ended err) /\
    sessions w' = sessions w /\ (err = None -> ~ expecting w' j n)) /\
  (forall rc status err, invocationRetryLimit <= rc + 1 ->
    TagIn (launchError rc status err) = false /\ (status = StatusStarting -> launchError rc status err <> None)).
Proof.
  intros Hw He Hrc. split.
  - unfold startInvocation.
    destruct (start_ok jitter _ _ Sprintf jitter_nonneg cron_next w e j n who retryCount (reachable_inv w Hw) He)
      as (w' & inv & skip & err & -> & _ & Hs & _ & _ & Hok). cbn.
    destruct err as [er|]; [by exists w', (Some er)|]. destruct (Hok eq_refl) as [Hnone Hsome].
    exists w', None. destruct inv as [i|]; [|split; [done|split; [done|by destruct (Hnone eq_refl)]]].
    destruct (Hsome i eq_refl) as (_ & _ & _ & -> & _ & Hg).
    assert (Hgt : giveUp retryCount = true) by (by apply Z.leb_le). rewrite Hgt. auto.
  - intros rc status err H. apply Z.leb_le in H. unfold launchError. rewrite H, andb_true_r.
    destruct (String.eqb_spec status StatusStarting) as [->|]; cbn.
    + split; [by repeat case_match|]. intros _. by repeat case_match.
    + split; [by repeat case_match|]. done.
Qed.

(** Aborting a job frees it at once and then marks its invocation as aborted: when
    the datastore works and nothing comes in between, the three steps of
    AbortJob answer nil, the job waits for its next tick without an invocation, and the
    invocation it had is ABORTED, as of the last step. *)
Theorem abort_frees_job w e1 e2 e3 sid j J i who msg m ans1 ans2 :
  reachable w -> fault_free e1 -> fault_free e2 -> fault_free e3 ->
  jobs w !! j = Some J -> InvocationID (JobSt J) <> 0 ->
  invs w !! (j, InvocationID (JobSt J)) = Some i -> Final (InvStatus i) = false ->
  managerFor i = Ok (msg, m) -> AbortTask m msg i = Return None ->
  exists w1 w2 w3,
    perform e1 sid (ReqAbortJob j who) w = Ret (w1, Pending) /\
    perform e2 sid (ReqRun sid ans1 false) w1 = Ret (w2, Pending) /\
    perform e3 sid (ReqRun sid ans2 false) w2 = Ret (w3, Ended None) /\
    sessions w3 = delete sid (sessions w) /\
    (exists J', jobs w3 !! j = Some J' /\ is_waiting (State (JobSt J')) = true /\
       InvocationNonce (JobSt J') = 0 /\ InvocationID (JobSt J') = 0) /\
    (exists i', invs w3 !! (j, InvocationID (JobSt J)) = Some i' /\
       InvStatus i' = StatusAborted /\ Finished i' = now e3).
Proof.
  intros Hw H1 H2 H3 HJ Hne Hi Hl Hm Ha. destruct (reachable_inv w Hw) as [Hco _].
  destruct (abort_free jitter ParseDuration parseCronexpr e1 w sid j J who H1 HJ (co_jobs _ _ _ Hco _ _ HJ) Hne)
    as (w1 & J1 & Heq & Hjobs & Hinvs & Hsess & Hfree).
  destruct (co_keys _ _ _ Hco _ _ Hi) as (Hkey & _). unfold inv_key in Hkey. injection Hkey as Hjk Hid.
  set (c := ctlLog e2 (Sprintf (MsgAbortedBy who)) (newController i)).
  set (w2 := add_session sid (Running None HAbort c (Return None)) (drop_session sid (add_session sid (PendingAbort j (InvocationID (JobSt J)) who) w1))).
  destruct (aborted_save jitter ParseDuration parseCronexpr Sprintf e3 w2 c J1 H3)
    as (w3 & Hfin & Hjobs3 & Hsess3 & i' & Hi' & Hst & Htime); cbn.
  - unfold inv_key. by rewrite Hinvs, <-Hjk, <-Hid.
  - done.
  - by rewrite Hjobs, <-Hjk, lookup_insert_eq.
  - destruct Hfree as (_ & _ & ->). congruence.
  - eexists _, w2, (drop_session sid w3). split; [exact Heq|]. split; [|split; [|split; [|split]]].
    + unfold runSession. cbn. rewrite lookup_insert_eq. unfold AbortInvocation, openInvocation.
      rewrite (fault_free_failure _ SGetInv H2). cbn. by rewrite Hinvs, Hi, Hl, Hm, Ha.
    + unfold runSession. cbn. rewrite lookup_insert_eq. by rewrite Hfin.
    + cbn. rewrite Hsess3. cbn. rewrite Hsess. apply map_eq. intros s.
      destruct (decide (s = sid)) as [->|]; by simplify_map_eq.
    + exists J1. cbn. rewrite Hjobs3. cbn. rewrite Hjobs, lookup_insert_eq. done.
    + exists i'. cbn. rewrite <-Hst, <-Htime. split; [|done]. revert Hi'. unfold inv_key. cbn. by rewrite <-Hjk, <-Hid.
Qed.

End Theorems.

(** * Other components of the engine *)
Section Parts.
Context (jitter : Z -> Z -> Z).
Context (ParseDuration : string -> option Z) (parseCronexpr : string -> option (Time -> Time)).

(** C8. UpdateProjectJobs converges: when its calls have succeeded, in whatever order
    they ran, every definition of the config is an enabled job of the project that matches
    it, the project has no other enabled job, and the jobs of other projects are as they were. *)
Theorem UpdateProjectJobs_converges es w project defs cs w' :
  NoDup (map defJobID defs) ->
  (forall d, d ∈ defs -> defRevision d <> ""%string /\ exists x, splitSlash (defJobID d) = [project; x]) ->
  (forall j J, jobs w !! j = Some J -> JobID J = j /\ exists x, splitSlash j = [ProjectID J; x]) ->
  cs ≡ₚ projectCalls w project defs -> length es = length cs ->
  runCalls jitter ParseDuration parseCronexpr es w cs = Ret (w', false) ->
  (forall d, d ∈ defs -> exists J, jobs w' !! defJobID d = Some J /\
     Enabled J = true /\ matches J d = true /\ ProjectID J = project) /\
  (forall j J, jobs w' !! j = Some J -> Enabled J = true -> ProjectID J = project -> j ∈ map defJobID defs) /\
  (forall j, (exists J, jobs w !! j = Some J /\ ProjectID J <> project) -> jobs w' !! j = jobs w !! j).
Proof.
  intros Hnd Hdefs Hjobs Hcs Hlen Hrun.
  assert (Hrev : forall d, d ∈ defs -> defRevision d <> ""%string) by (intros d Hd; by apply Hdefs).
  assert (Hold : forall j J x, jobs w !! j = Some J -> splitSlash j = [project; x] -> ProjectID J = project).
  { intros j J x HJ Hx. destruct (Hjobs _ _ HJ) as [_ [y Hy]]. by rewrite Hx in Hy; injection Hy. }
  destruct (runCalls_done jitter ParseDuration parseCronexpr es w cs w' project Hlen) as (Hrest & Hup & Hdis);
    [| |exact Hrun|].
  { rewrite Hcs. by apply calls_distinct. }
  { intros def. rewrite Hcs. intros [Hd _]%calls_update. destruct (Hdefs def Hd) as [_ [x Hx]].
    split; [by exists x|]. intros J HJ. split; [by apply Hjobs|by eapply Hold]. }
  assert (Hother : forall j, (forall d, CallUpdate d ∈ cs -> defJobID d <> j) -> CallDisable j ∉ cs ->
    jobs w' !! j = jobs w !! j).
  { intros j H1 H2. apply Hrest. intros ([d|k] & Heq & Hin)%list_elem_of_fmap; cbn in Heq; [by eapply H1|congruence]. }
  assert (Hdisable : forall j, CallDisable j ∈ cs <->
    (exists J, jobs w !! j = Some J /\ Enabled J = true /\ ProjectID J = project) /\ j ∉ map defJobID defs).
  { intros j. rewrite Hcs. by apply calls_disable. }
  split; [|split].
  - intros d Hd. destruct (decide (CallUpdate d ∈ cs)) as [Hin|Hin]; [by apply Hup|].
    rewrite Hother.
    + rewrite Hcs, calls_update in Hin. destruct (jobs w !! defJobID d) as [J|] eqn:E; [|by destruct Hin].
      exists J. split; [done|]. destruct (decide (Enabled J = true /\ matches J d = true /\ ProjectID J = project)) as [|Hno];
        [done|]. destruct Hin. split; [done|]. by intros J' [= <-].
    + intros d' Hd' Heq. apply Hin. replace d with d'; [done|].
      rewrite Hcs, calls_update in Hd'. destruct Hd' as [Hd' _]. by apply (NoDup_map_inj defJobID defs).
    + rewrite Hdisable. intros [_ Hn]. apply Hn, list_elem_of_fmap. by exists d.
  - intros j J HJ Hen Hp. destruct (decide (j ∈ map defJobID defs)) as [|Hn]; [done|]. exfalso.
    destruct (decide (CallDisable j ∈ cs)) as [Hin|Hin]; [specialize (Hdis j J Hin HJ); congruence|].
    apply Hin, Hdisable. split; [|done]. exists J. split; [|done]. rewrite <-HJ. symmetry. apply Hother; [|done].
    intros d Hd <-. rewrite Hcs, calls_update in Hd. apply Hn, list_elem_of_fmap. exists d. by destruct Hd.
  - intros j (J & HJ & Hp). apply Hother.
    + intros d Hd <-. rewrite Hcs, calls_update in Hd. destruct Hd as [Hd _].
      destruct (Hdefs d Hd) as [_ [x Hx]]. by apply Hp, (Hold _ _ x HJ).
    + rewrite Hdisable. intros [(J' & HJ' & _ & Hp') _]. congruence.
Qed.
End Parts.

(** Invocation IDs of 278 years from 2015 are positive 64-bit numbers whose four
    low bits, the mark of the format, are zero; they decrease from one millisecond to the next,
    so that a query by key lists the newest first, and they differ unless both the
    millisecond and the random suffix are the same. *)
Theorem invocation_ids t1 t2 r1 r2 :
  id_time t1 -> id_time t2 -> 0 <= r1 < 65536 -> 0 <= r2 < 65536 ->
  0 < invocationID t1 r1 < 2 ^ 63 /\
  invocationID t1 r1 mod 16 = 0 /\
  (ms_since t1 < ms_since t2 -> invocationID t2 r2 < invocationID t1 r1) /\
  (invocationID t1 r1 = invocationID t2 r2 <-> ms_since t1 = ms_since t2 /\ r1 = r2).
Proof.
  intros H1 H2 Hr1 Hr2. split; [by apply invocationID_positive|].
  rewrite !invocationID_value by done.
  pose proof (ms_since_bounds t1 H1). pose proof (ms_since_bounds t2 H2).
  split; [|lia].
  replace ((2 ^ 43 - 1 - ms_since t1) * 2 ^ 20 + r1 * 16) with
    (((2 ^ 43 - 1 - ms_since t1) * 2 ^ 16 + r1) * 16) by lia.
  apply Z.mod_mul. lia.
Qed.

(** C37. The task managers of the code keep the promises the engine relies on: from STARTING a
    launch saves what it does, and a transient error only while nothing but
    STARTING was saved; the other handlers do not return to STARTING; a final
    status that is saved stays. *)
Theorem managers_keep_contract cl Sprintf' encodeTaskData m msg i :
  let M := managerOf cl Sprintf' encodeTaskData m in
  (InvStatus i = StatusStarting ->
     forall rc, obeys (HLaunch rc) StatusStarting (populateState i) (LaunchTask M msg i)) /\
  (Final (InvStatus i) = false ->
     obeys HAbort (InvStatus i) (populateState i) (AbortTask M msg i) /\
     (forall data, obeys HPubSub (InvStatus i) (populateState i) (HandleNotification M msg i data)) /\
     (forall name data, obeys HTimer (InvStatus i) (populateState i) (HandleTimer M msg i name data))).
Proof.
  cbv zeta. split; [intros H rc; by apply (managers_obey cl Sprintf' encodeTaskData m msg i rc "" [])|].
  intros H. pose proof (fun name data => proj2 (managers_obey cl Sprintf' encodeTaskData m msg i 0 name data) H) as Ho.
  split; [apply (Ho ""%string [])|]. split; [intros data; apply (Ho ""%string data)|intros name data; apply (Ho name data)].
Qed.

(** * Runs *)
Definition demo_completed : TaskResult :=
  {| trState := "COMPLETED"; trFailure := false; trInternalFailure := false |}.

(** The Swarming service accepts tasks and then fails to say how they are. *)
Definition flaky : Catalog := demo_catalog (Ok ([7], None)) (Err (ErrCode 500)).
Definition healthy : Catalog := demo_catalog (Ok ([7], None)) (Ok demo_completed).

Definition demo_run {cat : Catalog} (evs : list DemoEvent) : option (Service * list reply) :=
  run demo_jitter demo_duration demo_cron demo_Sprintf evs empty_service.
Definition demo_after {cat : Catalog} (evs : list DemoEvent) : Service :=
  after demo_jitter demo_duration demo_cron demo_Sprintf evs.
Notation demo_reachable := (reachable demo_jitter demo_duration demo_cron demo_Sprintf).
Lemma demo_after_reachable {cat : Catalog} evs : demo_reachable (demo_after evs).
Proof. apply after_reachable. Qed.

(** A job that runs the task [b] is triggered by hand and its invocation started:
    the request is then session 1. *)
Definition demo_job : string := "proj/job".
Definition demo_start : Task := JobAction demo_job (StartInvocationAction 2 "user:a").
Definition demo_started (b : bytes) : list DemoEvent :=
  [demo_event 0 0 (ReqUpdateJob (demo_def b)); demo_event 1 0 (ReqTrigger demo_job "user:a");
   demo_event 2 1 (ReqTask demo_start 0 false)].
(** Session [sid] takes [n] steps. *)
Definition demo_steps (k : Z) (sid n : nat) : list DemoEvent :=
  map (fun i => demo_event (k + Z.of_nat i) 900 (ReqRun sid [] false)) (seq 0 n).

Definition demo_inv : Z := invocationID (demo_t0 + 2 * minute) 0.
Definition demo_timer : Task :=
  InvTimer demo_job demo_inv (demo_t0 + 17 * minute)
    {| Delay := minute; TimerName := statusCheckTimerName; TimerPayload := [] |}.

(** ** Errors that lose a task *)
Definition demo_running : list DemoEvent := demo_started [2] ++ demo_steps 3 1 14.

(** No failure of the datastore or the queues is needed to lose a timer: Swarming answers the
    check of a task with a transient error, the debug log is saved, and then the
    invocation is RUNNING with no timer left that would check it again. *)
Theorem timer_lost :
  exists w, reachable demo_jitter demo_duration demo_cron demo_Sprintf (cat := flaky) w /\
    (exists J, jobs w !! demo_job = Some J /\ State (JobSt J) = JobStateRunning /\ InvocationID (JobSt J) = demo_inv) /\
    (exists i, invs w !! (demo_job, demo_inv) = Some i /\ InvStatus i = StatusRunning) /\
    sessions w = ∅ /\ dropped w = [] /\
    forall j id eta t, InvTimer j id eta t ∉ queue w.
Proof.
  exists (demo_after (cat := flaky) (demo_running ++ demo_event 20 2 (ReqTask demo_timer 0 false) :: demo_steps 21 2 8)).
  split; [apply demo_after_reachable|].
  split; [eexists; split; [vm_compute; reflexivity|by split]|].
  split; [eexists; split; [vm_compute; reflexivity|done]|].
  split; [vm_compute; reflexivity|]. split; [vm_compute; reflexivity|].
  intros j id eta t. vm_compute (queue _). rewrite list_elem_of_singleton. done.
Qed.

(** A request whose writes of invocations fail with an error that has no tag. *)
Definition failing_event (k : Z) (sid : nat) (r : Request) : DemoEvent :=
  {| evAt := demo_t0 + k * minute; evNonce := k + 1;
     evFault := fun s => match s with SPutInv => Some ("datastore error"%string, false) | _ => None end;
     evCommit := Committed; evSession := sid; evRequest := r |}.

(** An untagged error inside the transaction of startInvocation counts as fatal: the
    queue drops the start request, and the job stays QUEUED for a nonce that no task
    and no session will serve. *)
Theorem job_stuck :
  exists w, reachable demo_jitter demo_duration demo_cron demo_Sprintf (cat := healthy) w /\
    (exists J, jobs w !! demo_job = Some J /\ Enabled J = true /\
       State (JobSt J) = JobStateQueued /\ InvocationNonce (JobSt J) = 2) /\
    invs w = ∅ /\ sessions w = ∅ /\
    (forall j n who, JobAction j (StartInvocationAction n who) ∉ queue w) /\
    (exists er, dropped w = [(demo_start, er)]).
Proof.
  exists (demo_after (cat := healthy)
    [demo_event 0 0 (ReqUpdateJob (demo_def [2])); demo_event 1 0 (ReqTrigger demo_job "user:a");
     failing_event 2 1 (ReqTask demo_start 0 false)]).
  split; [apply demo_after_reachable|].
  split; [eexists; split; [vm_compute; reflexivity|done]|].
  split; [vm_compute; reflexivity|]. split; [vm_compute; reflexivity|].
  split; [intros j n who; vm_compute (queue _); by rewrite list_elem_of_singleton|].
  eexists. vm_compute. reflexivity.
Qed.

(** The record of an overrun, which was made when its ID was free, is stored over the
    invocation that has started since under that ID: an unfinished invocation of the
    job has become an overrun that nobody asked for. *)
Definition overrun_event (sid : nat) (r : Request) : DemoEvent := demo_event 2 sid r.
Definition overrun_task : Task := JobAction demo_job (RecordOverrunAction 1 0).
Definition to_overwrite : list DemoEvent :=
  [demo_event 0 0 (ReqUpdateJob (demo_def [2])); demo_event 1 0 (ReqTrigger demo_job "user:a");
   demo_event 2 0 (ReqTask (JobAction demo_job (TickLaterAction (demo_t0 + minute) 1)) 0 false);
   overrun_event 1 (ReqTask overrun_task 0 false); overrun_event 2 (ReqTask demo_start 0 false)].
Theorem overrun_overwrites :
  exists w w', reachable demo_jitter demo_duration demo_cron demo_Sprintf (cat := healthy) w /\
    allowed w 3 (ReqRun 1 [] false) /\ overwrites w (ReqRun 1 [] false) /\
    perform demo_jitter demo_duration demo_cron demo_Sprintf (cat := healthy) (event_env (overrun_event 3 (ReqCrash 0))) 3 (ReqRun 1 [] false) w = Ret (w', Ended None) /\
    (exists i, invs w !! (demo_job, demo_inv) = Some i /\ InvStatus i = StatusStarting /\ InvNonce i = 2) /\
    (exists i, invs w' !! (demo_job, demo_inv) = Some i /\ InvStatus i = StatusOverrun /\ InvNonce i = 0).
Proof.
  exists (demo_after (cat := healthy) to_overwrite). eexists. split; [apply demo_after_reachable|].
  split; [split; [vm_compute; reflexivity|done]|]. split; [eexists 1%nat, [], false, _, _; split; [done|]; split; [vm_compute; reflexivity|vm_compute; eauto]|].
  split; [vm_compute; reflexivity|]. split; (eexists; split; [vm_compute; reflexivity|done]).
Qed.

(** ** Witnesses *)
#[local] Notation J0 := demo_jitter.
Definition healthy_ok : CatalogOk healthy := luciCatalog_ok _ _ _ _.
Definition w_queued : Service := demo_after (cat := healthy)
  [demo_event 0 0 (ReqUpdateJob (demo_def [2])); demo_event 1 0 (ReqTrigger demo_job "user:a")].
Definition w_running : Service := demo_after (cat := healthy) demo_running.
Definition j_running : Job := default (newJob "") (jobs w_running !! demo_job).
Definition i_running : Invocation := default (overrunInvocation demo_Sprintf (event_env (demo_event 0 0 (ReqCrash 0))) "" 0 0 0) (invs w_running !! (demo_job, demo_inv)).
Definition demo_env (k : Z) : Env := event_env (demo_event k 0 (ReqCrash 0)).

Lemma demo_env_free k : fault_free (demo_env k).
Proof. done. Qed.
Lemma w_queued_reachable : reachable J0 demo_duration demo_cron demo_Sprintf (cat := healthy) w_queued.
Proof. apply demo_after_reachable. Qed.
Lemma w_running_reachable : reachable J0 demo_duration demo_cron demo_Sprintf (cat := healthy) w_running.
Proof. apply demo_after_reachable. Qed.

Lemma requests_never_panic_witness :
  exists w' rep, perform J0 demo_duration demo_cron demo_Sprintf (cat := healthy)
    (event_env (demo_event 5 1 (ReqTask demo_start 0 false))) 1 (ReqTask demo_start 0 false) w_queued = Ret (w', rep).
Proof.
  apply (requests_never_panic J0 demo_duration demo_cron demo_Sprintf demo_jitter_nonneg demo_cron_next healthy_ok).
  - apply w_queued_reachable.
  - apply event_ok_env. vm_compute. reflexivity.
  - apply (event_ok_env w_queued (demo_event 5 1 (ReqTask demo_start 0 false))). vm_compute. reflexivity.
Defined.

Lemma engine_well_formed_witness :
  (exists J, jobs w_running !! demo_job = Some J /\ Enabled J = true) /\
  (forall k i, invs w_running !! k = Some i -> k = (JobKey i, InvID i)).
Proof.
  split; [eexists; split; [vm_compute; reflexivity|reflexivity]|].
  intros k i Hi. destruct (engine_well_formed J0 demo_duration demo_cron demo_Sprintf demo_jitter_nonneg demo_cron_next
    healthy_ok w_running w_running_reachable) as [_ H]. by apply H.
Defined.

Lemma engine_consistent_witness :
  State (JobSt j_running) = JobStateRunning /\
  exists i, invs w_running !! (demo_job, InvocationID (JobSt j_running)) = Some i /\ Final (InvStatus i) = false.
Proof.
  split; [vm_compute; reflexivity|].
  destruct (engine_consistent J0 demo_duration demo_cron demo_Sprintf demo_jitter_nonneg demo_cron_next
    healthy_ok w_running demo_job j_running w_running_reachable) as [H _]; [vm_compute; reflexivity|].
  destruct H as (i & Hi & _ & Hr); [vm_compute; discriminate|]. exists i. split; [exact Hi|].
  apply Hr. vm_compute. reflexivity.
Defined.

Lemma requests_are_kept_witness :
  exists who, let t := JobAction demo_job (StartInvocationAction 2 who) in
    t ∈ queue w_queued \/ exists er, (t, er) ∈ dropped w_queued.
Proof.
  destruct (requests_are_kept J0 demo_duration demo_cron demo_Sprintf demo_jitter_nonneg demo_cron_next
    healthy_ok w_queued demo_job (default (newJob "") (jobs w_queued !! demo_job)) w_queued_reachable)
    as (_ & _ & H); [vm_compute; reflexivity|]. apply H. vm_compute. reflexivity.
Defined.

Lemma finished_stay_finished_witness :
  let w' := continue J0 demo_duration demo_cron demo_Sprintf (cat := healthy)
    (demo_event 20 2 (ReqTask demo_timer 0 false) :: demo_steps 21 2 10) w_running in
  invs w_running !! (demo_job, demo_inv) = Some i_running /\
  exists i', invs w' !! (demo_job, demo_inv) = Some i' /\ InvNonce i' = 2 /\ InvStatus i' <> StatusStarting.
Proof.
  intros w'. assert (Hi : invs w_running !! (demo_job, demo_inv) = Some i_running) by (vm_compute; reflexivity).
  split; [exact Hi|].
  destruct (finished_stay_finished J0 demo_duration demo_cron demo_Sprintf demo_jitter_nonneg demo_cron_next
    healthy_ok w_running w' (demo_job, demo_inv) i_running w_running_reachable) as (i' & Hi' & Hn & _ & _ & Hs & _);
    [apply continue_steps|exact Hi|].
  exists i'. split; [exact Hi'|]. split; [rewrite Hn; vm_compute; reflexivity|].
  apply Hs. vm_compute. discriminate.
Defined.

Lemma attempts_are_bounded_witness :
  exists w' err, startInvocation J0 demo_duration demo_cron demo_Sprintf (cat := healthy)
    (demo_env 5) w_queued 1 (Some demo_start) demo_job 2 "user:a" 5 = Ret (w', Ended err) /\
    (err = None -> ~ expecting w' demo_job 2).
Proof.
  destruct (attempts_are_bounded J0 demo_duration demo_cron demo_Sprintf demo_jitter_nonneg demo_cron_next
    healthy_ok w_queued (demo_env 5) 1 (Some demo_start) demo_job 2 "user:a" 5 w_queued_reachable)
    as [(w' & err & Heq & _ & Hne) _].
  - apply (event_ok_env w_queued (demo_event 5 0 (ReqCrash 0))). vm_compute. reflexivity.
  - vm_compute. discriminate.
  - exists w', err. split; [exact Heq|exact Hne].
Defined.

Lemma abort_frees_job_witness :
  exists w1 w2 w3,
    perform J0 demo_duration demo_cron demo_Sprintf (cat := healthy) (demo_env 30) 5 (ReqAbortJob demo_job "user:b") w_running = Ret (w1, Pending) /\
    perform J0 demo_duration demo_cron demo_Sprintf (cat := healthy) (demo_env 31) 5 (ReqRun 5 [] false) w1 = Ret (w2, Pending) /\
    perform J0 demo_duration demo_cron demo_Sprintf (cat := healthy) (demo_env 32) 5 (ReqRun 5 [] false) w2 = Ret (w3, Ended None).
Proof.
  destruct (abort_frees_job J0 demo_duration demo_cron demo_Sprintf demo_jitter_nonneg demo_cron_next healthy_ok
    w_running (demo_env 30) (demo_env 31) (demo_env 32) 5 demo_job j_running i_running "user:b"
    (SwarmingTask []) (swarming (demo_clients (Ok ([7], None)) (Ok demo_completed)) (fun _ _ => []) (fun b => b)) [] []
    w_running_reachable (demo_env_free 30) (demo_env_free 31) (demo_env_free 32))
    as (w1 & w2 & w3 & H1 & H2 & H3 & _).
  - vm_compute. reflexivity.
  - vm_compute. discriminate.
  - vm_compute. reflexivity.
  - vm_compute. reflexivity.
  - reflexivity.
  - reflexivity.
  - exists w1, w2, w3. split; [exact H1|]. split; [exact H2|exact H3].
Defined.



(** The config gains a job: the update's one call makes it. *)
Definition w_other : Service := demo_after (cat := healthy)
  [demo_event 0 0 (ReqUpdateJob (demo_def [2]));
   demo_event 1 0 (ReqUpdateJob {| defJobID := "other/job"; defFlavor := JobFlavorPeriodic; defRevision := "r";
     defRevisionURL := ""; defSchedule := "every minute"; defTask := [0] |})].
Definition new_def : JobDef :=
  {| defJobID := "proj/new"; defFlavor := JobFlavorTriggered; defRevision := "rev2"; defRevisionURL := "";
     defSchedule := "triggered"; defTask := [0] |}.

Lemma UpdateProjectJobs_converges_witness :
  exists w', runCalls J0 demo_duration demo_cron [demo_env 8; demo_env 9] w_other [CallDisable demo_job; CallUpdate new_def] = Ret (w', false) /\
    (exists J, jobs w' !! "proj/new" = Some J /\ Enabled J = true /\ matches J new_def = true) /\
    jobs w' !! "other/job" = jobs w_other !! "other/job".
Proof.
  eexists. split; [vm_compute; reflexivity|].
  edestruct (UpdateProjectJobs_converges J0 demo_duration demo_cron [demo_env 8; demo_env 9] w_other "proj" [new_def]
    [CallDisable demo_job; CallUpdate new_def]) as (H1 & _ & H3).
  - apply NoDup_singleton.
  - intros d Hd. apply list_elem_of_singleton in Hd as ->. split; [discriminate|]. exists "new". reflexivity.
  - apply (map_Forall_to_list (fun j J => JobID J = j /\ exists x, splitSlash j = [ProjectID J; x])).
    vm_compute. repeat constructor; eexists; reflexivity.
  - vm_compute. apply perm_swap.
  - reflexivity.
  - vm_compute. reflexivity.
  - split; [destruct (H1 new_def (list_elem_of_here _ _)) as (J & HJ & He & Hm & _); exists J; split; [exact HJ|split; [exact He|exact Hm]]|].
    apply H3. eexists. split; [vm_compute; reflexivity|discriminate].
Defined.

Lemma invocation_ids_witness :
  invocationID (demo_t0 + minute) 7 < invocationID demo_t0 9 /\ invocationID demo_t0 9 mod 16 = 0.
Proof.
  destruct (invocation_ids demo_t0 (demo_t0 + minute) 9 7) as (_ & H2 & H3 & _).
  - split; [discriminate|reflexivity].
  - split; [discriminate|reflexivity].
  - split; [discriminate|reflexivity].
  - split; [discriminate|reflexivity].
  - split; [apply H3; vm_compute; reflexivity|exact H2].
Defined.

Lemma managers_keep_contract_witness :
  InvStatus i_running = StatusRunning /\
  obeys HTimer StatusRunning (populateState i_running)
    (HandleTimer (swarming (demo_clients (Ok ([7], None)) (Err (ErrCode 500))) (fun _ _ => []) (fun b => b))
      (SwarmingTask []) i_running statusCheckTimerName []).
Proof.
  assert (Hs : InvStatus i_running = StatusRunning) by (vm_compute; reflexivity).
  split; [exact Hs|]. rewrite <-Hs.
  apply (managers_keep_contract (demo_clients (Ok ([7], None)) (Err (ErrCode 500))) (fun _ _ => []) (fun b => b)
    (SwarmingTask []) (SwarmingTask []) i_running). rewrite Hs. reflexivity.
Defined.
