(* ===== verification/Cmpbin.v ===== *)
(** common/data/cmpbin: byte strings whose memcmp order is the order of the
    values they encode: numbers (number.go) and byte strings (string.go). *)
From S2P Require Import Prelude.
Local Open Scope Z_scope.

(** * Numbers (number.go) *)

Definition paddingMasks : list Z :=
  [0xFFFFFFFF00000000; 0xFFFF0000; 0xFF00; 0xF0; 0xC; 0x2; 0x1].

(** One iteration of the loop of [uint64Log2], at index [i] of the masks. *)
Definition log2_step (st : Z * Z) (im : Z * Z) : Z * Z :=
  let '(v, log) := st in
  let '(i, m) := im in
  if Z.land v m =? 0 then (v, log)
  else
    let shift := Z.shiftr (Z.shiftl 1 (Z.of_nat (length paddingMasks) - 2)) i in
    (Z.shiftr v shift, Z.lor log shift).

Definition uint64Log2 (v : Z) : Z :=
  snd (foldl log2_step (v, 0) (zip (seqZ 0 7) paddingMasks)) + 1.

Inductive NumErr := ErrOverflow | ErrUnderflow | ErrRead.
#[export] Instance NumErr_eq_dec : EqDecision NumErr.
Proof. solve_decision. Defined.

Section Writing.
(** The io.ByteWriter: [wfail out] is the error it returns when it is asked
    to append to [out], if any. *)
Context {WErr : Type} (wfail : bytes -> option WErr).

(** The closure [wb] of [writeSignMag], on (output, n). *)
Definition wb (b : Z) (st : bytes * Z) : (bytes * Z) * option WErr :=
  let '(out, n) := st in
  match wfail out with
  | Some e => ((out, n + 1), Some e)
  | None => ((out ++ [b], n + 1), None)
  end.

(** The loop [for sigs > 8]; returns the sigs left. *)
Fixpoint write_loop (fuel : nat) (mag sigs inv : Z) (st : bytes * Z)
  : Z * (bytes * Z) * option WErr :=
  match fuel with
  | O => (sigs, st, None)
  | S fuel =>
      if sigs >? 8 then
        let sigs := sigs - 8 in
        let '(st, err) := wb (Z.lxor (u8 (Z.shiftr mag sigs)) inv) st in
        match err with
        | Some e => (sigs, st, Some e)
        | None => write_loop fuel mag sigs inv st
        end
      else (sigs, st, None)
  end.

(** [sigs] is at most 64 and each round removes 8: 8 rounds are enough. *)
Definition writeSignMag (out : bytes) (mag inv : Z) : (bytes * Z) * option WErr :=
  let sigs := uint64Log2 mag in
  let '(st, err) := wb (Z.lxor (u8 (Z.lor 0x80 (sigs - 1))) inv) (out, 0) in
  match err with
  | Some e => (st, Some e)
  | None =>
      let '(sigs, st, err) := write_loop 8 mag sigs inv st in
      match err with
      | Some e => (st, Some e)
      | None =>
          if negb (sigs =? 0)
          then wb (Z.lxor (u8 (u64 (Z.shiftl mag (8 - sigs)))) inv) st
          else (st, None)
      end
  end.

Definition WriteInt (out : bytes) (val : Z) : (bytes * Z) * option WErr :=
  let inv := if val <? 0 then 0xff else 0 in
  let mag := u64 val in
  let mag := if negb (inv =? 0) then u64 (- mag) else mag in
  writeSignMag out mag inv.

Definition WriteUint (out : bytes) (mag : Z) : (bytes * Z) * option WErr :=
  writeSignMag out mag 0.
End Writing.

(** A reader is the bytes that are left; [ReadByte] fails at their end. *)
Record SignMag := {
  positive : bool; sigs : Z; mag : Z; n : Z; err : option NumErr; rest : bytes
}.

Fixpoint read_loop (k : nat) (inv shift : Z) (r : SignMag) : SignMag :=
  match k with
  | O => r
  | S k =>
      match rest r with
      | [] =>
          {| positive := positive r; sigs := sigs r; mag := mag r; n := n r + 1;
             err := Some ErrRead; rest := [] |}
      | b :: rs =>
          read_loop k inv (shift - 8)
            {| positive := positive r; sigs := sigs r;
               mag := Z.lor (mag r) (u64 (Z.shiftl (Z.lxor b inv) shift));
               n := n r + 1; err := None; rest := rs |}
      end
  end.

Definition readSignMag (r : bytes) : SignMag :=
  match r with
  | [] => {| positive := false; sigs := 0; mag := 0; n := 1; err := Some ErrRead; rest := [] |}
  | b0 :: rs =>
      let pos := negb (Z.land b0 0x80 =? 0) in
      let inv := if pos then 0 else 0xff in
      let sg := Z.land (Z.lxor b0 inv) 0x7f + 1 in
      if sg >? 64
      then {| positive := pos; sigs := sg; mag := 0; n := 1; err := Some ErrOverflow; rest := rs |}
      else
        let numBytes := Z.shiftr (sg + 7) 3 + 1 in
        let r := read_loop (Z.to_nat (numBytes - 1)) inv 56
          {| positive := pos; sigs := sg; mag := 0; n := 1; err := None; rest := rs |} in
        match err r with
        | Some _ => r
        | None =>
            {| positive := pos; sigs := sg; mag := Z.shiftr (mag r) (64 - sg); n := n r;
               err := None; rest := rest r |}
        end
  end.

(** (value, bytes read, error) and what is left to read. *)
Definition ReadInt (r : bytes) : Z * Z * option NumErr * bytes :=
  let s := readSignMag r in
  match err s with
  | Some e => (0, n s, Some e, rest s)
  | None =>
      if positive s then
        if sigs s >? 63 then (0, n s, Some ErrOverflow, rest s)
        else (i64 (mag s), n s, None, rest s)
      else
        if mag s >? 2 ^ 63 then (0, n s, Some ErrUnderflow, rest s)
        else (i64 (u64 (- mag s)), n s, None, rest s)
  end.

Definition ReadUint (r : bytes) : Z * Z * option NumErr * bytes :=
  let s := readSignMag r in
  match err s with
  | Some e => (mag s, n s, Some e, rest s)
  | None => (mag s, n s, if positive s then None else Some ErrUnderflow, rest s)
  end.

Example write_300 : WriteInt (fun _ => @None unit) [] 300 = ([0x88; 0x96; 0x00], 3, None).
Proof. vm_compute. reflexivity. Qed.
Example write_min : WriteInt (fun _ => @None unit) [] (- 2 ^ 63) =
  ([0x40; 0x7f; 255; 255; 255; 255; 255; 255; 255], 9, None).
Proof. vm_compute. reflexivity. Qed.
Example read_min : ReadInt [0x40; 0x7f; 255; 255; 255; 255; 255; 255; 255; 1] = (- 2 ^ 63, 9, None, [1]).
Proof. vm_compute. reflexivity. Qed.

(** * What [uint64Log2] computes *)
Lemma land_high_mask s v :
  0 <= s -> 0 <= v < 2 ^ (2 * s) -> Z.land v (Z.shiftl (Z.ones s) s) = Z.shiftl (Z.shiftr v s) s.
Proof.
  intros Hs Hv. apply Z.bits_inj'. intros i Hi. rewrite Z.land_spec.
  destruct (decide (i < s)).
  - rewrite !Z.shiftl_spec_low by lia. by rewrite andb_false_r.
  - rewrite !Z.shiftl_spec by lia. rewrite Z.shiftr_spec by lia.
    replace (i - s + s) with i by lia.
    destruct (decide (i < 2 * s)).
    + rewrite Z.ones_spec_low by lia. by rewrite andb_true_r.
    + rewrite <-(Z.mod_small v (2 ^ (2 * s))) by done.
      by rewrite Z.mod_pow2_bits_high by lia.
Qed.

(** Halving the window: from [2 * 2 ^ k] bits to [2 ^ k]. *)
Definition log2_inv (w v0 : Z) (st : Z * Z) : Prop :=
  let '(v, log) := st in
  0 <= v < 2 ^ w /\ (exists q, log = q * w) /\ 0 <= log /\ v = Z.shiftr v0 log /\
  (0 < v0 -> 0 < v) /\ (v0 = 0 -> log = 0).

Lemma log2_step_inv k i v0 st :
  0 <= k -> Z.shiftr (Z.shiftl 1 (Z.of_nat (length paddingMasks) - 2)) i = 2 ^ k ->
  0 <= v0 -> log2_inv (2 * 2 ^ k) v0 st ->
  log2_inv (2 ^ k) v0 (log2_step st (i, Z.shiftl (Z.ones (2 ^ k)) (2 ^ k))).
Proof.
  intros Hk Hsh Hv0. destruct st as [v log]. intros (Hv & [q ->] & Hlog & Ev & Hpos & Hzero).
  unfold log2_step. rewrite Hsh.
  assert (Hs : 0 < 2 ^ k) by (apply Z.pow_pos_nonneg; lia).
  rewrite land_high_mask by lia. rewrite Z.shiftl_mul_pow2, Z.shiftr_div_pow2 by lia.
  assert (Hp : 0 < 2 ^ 2 ^ k) by (apply Z.pow_pos_nonneg; lia).
  case_match eqn:E; bool_to_prop.
  - assert (Hd : v / 2 ^ 2 ^ k = 0) by nia.
    apply Z.div_small_iff in Hd; [|lia].
    split; [lia|]. split; [exists (q * 2); lia|]. auto.
  - assert (Hd : v / 2 ^ 2 ^ k <> 0) by nia.
    assert (Hd0 : 0 <= v / 2 ^ 2 ^ k) by (apply Z.div_pos; lia).
    assert (E2 : Z.lor (q * (2 * 2 ^ k)) (2 ^ k) = q * (2 * 2 ^ k) + 2 ^ k).
    { replace (2 * 2 ^ k) with (2 ^ (k + 1)) by (rewrite Z.pow_add_r; lia).
      apply lor_disjoint_add; [lia|]. rewrite Z.pow_add_r by lia. lia. }
    rewrite E2. split; [|split; [exists (q * 2 + 1); lia|]].
    + split; [lia|]. apply Z.div_lt_upper_bound; [lia|].
      rewrite <-Z.pow_add_r by lia. replace (2 ^ k + 2 ^ k) with (2 * 2 ^ k) by lia. lia.
    + split; [lia|]. split; [|split; [lia|]].
      * subst v. rewrite <-Z.shiftr_div_pow2, Z.shiftr_shiftr by lia. done.
      * intros ->. rewrite Z.shiftr_0_l in Ev. subst v. by rewrite Z.div_0_l in Hd by lia.
Qed.

Lemma uint64Log2_spec v : in_u64 v -> uint64Log2 v = if v =? 0 then 1 else Z.log2 v + 1.
Proof.
  intros [Hv Hmax]. unfold uint64Log2.
  assert (H0 : log2_inv 64 v (v, 0)).
  { split; [lia|]. split; [by exists 0|]. split; [lia|]. split; [by rewrite Z.shiftr_0_r|]. auto. }
  change (zip (seqZ 0 7) paddingMasks) with
    [(0, Z.shiftl (Z.ones (2 ^ 5)) (2 ^ 5)); (1, Z.shiftl (Z.ones (2 ^ 4)) (2 ^ 4));
     (2, Z.shiftl (Z.ones (2 ^ 3)) (2 ^ 3)); (3, Z.shiftl (Z.ones (2 ^ 2)) (2 ^ 2));
     (4, Z.shiftl (Z.ones (2 ^ 1)) (2 ^ 1)); (5, Z.shiftl (Z.ones (2 ^ 0)) (2 ^ 0)); (6, 1)].
  cbn [foldl].
  apply (log2_step_inv 5 0) in H0; [|done..].
  apply (log2_step_inv 4 1) in H0; [|done..].
  apply (log2_step_inv 3 2) in H0; [|done..].
  apply (log2_step_inv 2 3) in H0; [|done..].
  apply (log2_step_inv 1 4) in H0; [|done..].
  apply (log2_step_inv 0 5) in H0; [|done..].
  revert H0. match goal with |- log2_inv _ _ ?s -> _ => generalize s end. intros [w log] H.
  destruct H as (Hw & _ & Hlog & Ew & Hpos & Hzero).
  assert (Hst : log2_step (w, log) (6, 1) = (w, log)).
  { unfold log2_step. case_match; [done|]. cbn. by rewrite Z.lor_0_r. }
  rewrite Hst. cbn. case_match eqn:E; bool_to_prop.
  - rewrite Hzero by done. done.
  - f_equal. symmetry. apply Z.log2_unique; [done|].
    rewrite Z.shiftr_div_pow2 in Ew by done.
    assert (H2 : 0 < 2 ^ log) by (apply Z.pow_pos_nonneg; lia).
    assert (E1 : w = 1) by (cbn in Hw; lia). rewrite E1 in Ew.
    pose proof (Z.div_mod v (2 ^ log) ltac:(lia)). pose proof (Z.mod_pos_bound v (2 ^ log) H2).
    rewrite Z.pow_succ_r by done. nia.
Qed.

(** The number of significant bits, at least 1 (so 0 has one). *)
Lemma uint64Log2_bounds v :
  in_u64 v -> 1 <= uint64Log2 v <= 64 /\ v < 2 ^ uint64Log2 v /\
  (1 < uint64Log2 v -> 2 ^ (uint64Log2 v - 1) <= v).
Proof.
  intros Hv. rewrite uint64Log2_spec by done. case_match eqn:E; bool_to_prop.
  - subst. lia.
  - destruct Hv. pose proof (Z.log2_nonneg v).
    assert (Z.log2 v < 64) by (apply Z.log2_lt_pow2; lia).
    pose proof (Z.log2_spec v ltac:(lia)). rewrite <-Z.add_1_r in *.
    replace (Z.log2 v + 1 - 1) with (Z.log2 v) by lia. lia.
Qed.

(** * The encoding, as a number

    A magnitude of [s] significant bits takes a header byte and
    [ceil (s / 8)] bytes: the magnitude, shifted to the left end. *)
Definition payload_bytes (s : Z) : nat := Z.to_nat ((s + 7) / 8).
Definition header (s : Z) : Z := 128 + (s - 1).
Definition code (mag : Z) : bytes :=
  let s := uint64Log2 mag in
  header s :: be (payload_bytes s) (mag * 2 ^ (8 * Z.of_nat (payload_bytes s) - s)).

Definition no_fail : bytes -> option Empty_set := fun _ => None.

Lemma write_loop_spec fuel q mag r inv out n :
  (q <= fuel)%nat -> 1 <= r <= 8 ->
  write_loop no_fail fuel mag (8 * Z.of_nat q + r) inv (out, n) =
  (r, (out ++ map (fun b => Z.lxor b inv) (be q (Z.shiftr mag r)), n + Z.of_nat q), None).
Proof.
  revert q out n. induction fuel as [|fuel IH]; intros q out n Hq Hr.
  - replace q with 0%nat by lia. cbn [write_loop be map]. rewrite app_nil_r. feq.
  - destruct q as [|q].
    + cbn [write_loop]. rewrite Z.gtb_ltb, (proj2 (Z.ltb_ge _ _)) by lia.
      cbn [be map]. rewrite app_nil_r. feq.
    + cbn [write_loop]. rewrite Z.gtb_ltb, (proj2 (Z.ltb_lt _ _)) by lia. cbn [wb no_fail].
      replace (8 * Z.of_nat (S q) + r - 8) with (8 * Z.of_nat q + r) by lia.
      rewrite IH by lia. cbn [be map]. rewrite <-app_assoc. cbn [app].
      rewrite Z.shiftr_shiftr by lia. feq.
Qed.

Lemma u8_u64 z : u8 (u64 z) = u8 z.
Proof.
  unfold u8, u64. replace (2 ^ 64) with (2 ^ 8 * 2 ^ 56) by lia.
  by rewrite <-Znumtheory.Zmod_div_mod; [..|exists (2 ^ 56)].
Qed.

Lemma payload_bytes_spec s :
  1 <= s <= 64 -> exists q r, s = 8 * Z.of_nat q + r /\ 1 <= r <= 8 /\ (q <= 7)%nat /\
  payload_bytes s = S q.
Proof.
  intros Hs. exists (Z.to_nat ((s - 1) / 8)), ((s - 1) mod 8 + 1).
  pose proof (Z.div_mod (s - 1) 8 ltac:(lia)). pose proof (Z.mod_pos_bound (s - 1) 8 ltac:(lia)).
  assert (0 <= (s - 1) / 8 <= 7) by lia.
  split; [lia|]. split; [lia|]. split; [lia|]. unfold payload_bytes.
  replace ((s + 7) / 8) with ((s - 1) / 8 + 1); [lia|].
  replace (s + 7) with (s - 1 + 1 * 8) by lia. by rewrite Z.div_add by lia.
Qed.

Lemma header_u8 s : 1 <= s <= 64 -> u8 (Z.lor 0x80 (s - 1)) = header s.
Proof.
  intros Hs. change 0x80 with (1 * 2 ^ 7). rewrite lor_disjoint_add by lia.
  rewrite u8_small by (unfold in_u8; lia). done.
Qed.

Lemma code_ok mag : in_u64 mag -> bytes_ok (code mag).
Proof.
  intros Hm. destruct (uint64Log2_bounds mag Hm) as [Hs _].
  constructor; [unfold header, in_u8; lia|apply be_ok].
Qed.

Lemma writeSignMag_spec out mag inv :
  in_u64 mag ->
  writeSignMag no_fail out mag inv =
  ((out ++ map (fun b => Z.lxor b inv) (code mag), Z.of_nat (length (code mag))), None).
Proof.
  intros Hm. destruct (uint64Log2_bounds mag Hm) as [Hs _].
  unfold writeSignMag, code. set (s := uint64Log2 mag) in *.
  destruct (payload_bytes_spec s Hs) as (q & r & Es & Hr & Hq & Ep).
  rewrite header_u8 by done. cbn [wb no_fail].
  pose proof (write_loop_spec 8 q mag r inv (out ++ [Z.lxor (header s) inv]) (0 + 1)) as Hl.
  rewrite <-Es in Hl. rewrite Hl by lia. rewrite (proj2 (Z.eqb_neq r 0)) by lia. cbn [wb no_fail negb].
  rewrite u8_u64, Ep. cbn [length map]. rewrite length_be, be_snoc.
  assert (Ek : 8 * Z.of_nat (S q) - s = 8 - r) by lia. rewrite Ek.
  rewrite map_app. cbn [map]. rewrite <-!app_assoc. cbn [app].
  rewrite Z.shiftl_mul_pow2 by lia.
  assert (Esh : Z.shiftr (mag * 2 ^ (8 - r)) 8 = Z.shiftr mag r).
  { rewrite <-Z.shiftl_mul_pow2, Z.shiftr_shiftl_r by lia. f_equal. lia. }
  rewrite Esh. feq.
Qed.

(** * Reading back *)
Lemma code_payload_bound mag :
  in_u64 mag ->
  0 <= mag * 2 ^ (8 * Z.of_nat (payload_bytes (uint64Log2 mag)) - uint64Log2 mag)
    < 2 ^ (8 * Z.of_nat (payload_bytes (uint64Log2 mag))).
Proof.
  intros Hm. destruct (uint64Log2_bounds mag Hm) as (Hs & Hlt & _).
  destruct (payload_bytes_spec _ Hs) as (q & r & Es & Hr & Hq & ->).
  set (s := uint64Log2 mag) in *.
  assert (Hp : 0 < 2 ^ (8 * Z.of_nat (S q) - s)) by (apply Z.pow_pos_nonneg; lia).
  split; [destruct Hm; nia|].
  replace (8 * Z.of_nat (S q)) with (s + (8 * Z.of_nat (S q) - s)) at 2 by lia.
  rewrite Z.pow_add_r by lia. destruct Hm. nia.
Qed.

Lemma in_u8_div M k : 0 <= M < 2 ^ (8 * Z.of_nat (S k)) -> in_u8 (M / 2 ^ (8 * Z.of_nat k)).
Proof.
  rewrite pow8_S. intros HM. assert (0 < 2 ^ (8 * Z.of_nat k)) by (apply Z.pow_pos_nonneg; lia).
  split; [apply Z.div_pos; lia|apply Z.div_lt_upper_bound; lia].
Qed.

(** The loop of [readSignMag] adds the payload below the bits read so far. *)
Lemma read_loop_spec k inv shift M r0 tl a :
  shift = 8 * Z.of_nat k - 8 + a -> 0 <= a -> 0 <= M < 2 ^ (8 * Z.of_nat k) ->
  rest r0 = map (fun b => Z.lxor b inv) (be k M) ++ tl ->
  (exists q, mag r0 = q * 2 ^ (shift + 8)) -> mag r0 + M * 2 ^ a < 2 ^ 64 -> 0 <= mag r0 ->
  err r0 = None ->
  read_loop k inv shift r0 =
  {| positive := positive r0; sigs := sigs r0; mag := mag r0 + M * 2 ^ a;
     n := n r0 + Z.of_nat k; err := None; rest := tl |}.
Proof.
  revert shift M r0. induction k as [|k IH]; intros shift M r0 Hsh Ha HM Hr [q Hq] Hbound Hpos He.
  - cbn in *. replace M with 0 by lia. destruct r0; cbn in *; subst. feq.
  - cbn [read_loop]. rewrite Hr. cbn [be map app].
    rewrite shiftr_div_pow8, u8_small by (by apply in_u8_div). rewrite lxor_lxor.
    pose proof (in_u8_div M k HM) as Hb.
    set (p := 2 ^ (8 * Z.of_nat k)) in *. set (b := M / p) in *.
    assert (Hp : 0 < p) by (apply Z.pow_pos_nonneg; lia).
    pose proof (Z.div_mod M p ltac:(lia)) as EM. pose proof (Z.mod_pos_bound M p Hp) as Bm.
    fold b in EM. assert (Hshift : 2 ^ shift = p * 2 ^ a).
    { unfold p. rewrite <-Z.pow_add_r by lia. f_equal. lia. }
    assert (Hpa : 0 < 2 ^ a) by (apply Z.pow_pos_nonneg; lia).
    assert (Hsum : b * 2 ^ shift + M mod p * 2 ^ a = M * 2 ^ a).
    { rewrite Hshift. transitivity ((p * b + M mod p) * 2 ^ a); [ring|by rewrite <-EM]. }
    assert (Hval : b * 2 ^ shift <= M * 2 ^ a) by (rewrite Hshift; nia).
    rewrite Z.shiftl_mul_pow2, u64_small by (unfold in_u64, in_u8 in *; nia).
    rewrite Hq, lor_disjoint_add; [|lia|rewrite Z.pow_add_r by lia; unfold in_u8 in Hb; nia].
    rewrite <-Hq.
    rewrite (IH (shift - 8) (M mod p)); cbn; try done; try lia.
    + f_equal; lia.
    + f_equal. f_equal. rewrite <-(be_mod k M (- b)). f_equal. fold p. lia.
    + exists (q * 2 ^ 8 + b). replace (shift - 8 + 8) with shift by lia.
      rewrite Hq, Z.pow_add_r by lia. lia.
    + unfold in_u8 in Hb. nia.
Qed.

Lemma header_decode s inv :
  1 <= s <= 64 -> inv = 0 \/ inv = 0xff ->
  (Z.land (Z.lxor (header s) inv) 0x80 =? 0) = negb (inv =? 0) /\
  Z.land (Z.lxor (Z.lxor (header s) inv) inv) 0x7f + 1 = s.
Proof.
  intros Hs Hinv. rewrite lxor_lxor.
  assert (Hall : Forall (fun s => Z.land (Z.lxor (header s) 0) 0x80 =? 0 = false /\
     Z.land (Z.lxor (header s) 0xff) 0x80 =? 0 = true /\ Z.land (header s) 0x7f + 1 = s) (seqZ 1 64)).
  { vm_compute. repeat constructor. }
  rewrite Forall_forall in Hall. destruct (Hall s) as (H1 & H2 & H3).
  { apply elem_of_seqZ. lia. }
  destruct Hinv as [-> | ->]; auto.
Qed.

Lemma readSignMag_spec m inv tl :
  in_u64 m -> inv = 0 \/ inv = 0xff ->
  readSignMag (map (fun b => Z.lxor b inv) (code m) ++ tl) =
  {| positive := (inv =? 0); sigs := uint64Log2 m; mag := m;
     n := Z.of_nat (length (code m)); err := None; rest := tl |}.
Proof.
  intros Hm Hinv. destruct (uint64Log2_bounds m Hm) as (Hs & Hlt & _).
  pose proof (code_payload_bound m Hm) as HM.
  unfold code. set (s := uint64Log2 m) in *.
  destruct (payload_bytes_spec s Hs) as (q & r & Es & Hr & Hq & Ep). rewrite Ep in *.
  destruct (header_decode s inv Hs Hinv) as [Hd1 Hd2].
  cbn [readSignMag map app]. rewrite Hd1, negb_involutive.
  assert (Einv : (if inv =? 0 then 0 else 255) = inv) by (by destruct Hinv as [-> | ->]).
  rewrite Einv, Hd2, Z.gtb_ltb, (proj2 (Z.ltb_ge _ _)) by lia.
  replace (Z.to_nat (Z.shiftr (s + 7) 3 + 1 - 1)) with (S q).
  2:{ rewrite Z.shiftr_div_pow2 by lia. rewrite <-Ep. unfold payload_bytes.
      change (2 ^ 3) with 8. f_equal. lia. }
  set (M := m * _) in *.
  assert (EM : M * 2 ^ (56 - 8 * Z.of_nat q) = m * 2 ^ (64 - s)).
  { unfold M. rewrite <-Z.mul_assoc, <-Z.pow_add_r by lia. f_equal. f_equal. lia. }
  assert (Hp64 : 2 ^ 64 = 2 ^ s * 2 ^ (64 - s)) by (rewrite <-Z.pow_add_r by lia; f_equal; lia).
  assert (Hpp : 0 < 2 ^ (64 - s)) by (apply Z.pow_pos_nonneg; lia).
  rewrite (read_loop_spec (S q) inv 56 M _ tl (56 - 8 * Z.of_nat q)); cbn; try done; try lia.
  - rewrite EM. f_equal; [|].
    + rewrite Z.add_0_l, <-Z.shiftl_mul_pow2, Z.shiftr_shiftl_l by lia.
      replace (64 - s - (64 - s)) with 0 by lia. apply Z.shiftl_0_r.
    + rewrite length_be. lia.
  - by exists 0.
  - rewrite EM, Hp64. nia.
Qed.

(** * Order of the encodings *)
Lemma code_cmp a b x y :
  in_u64 a -> in_u64 b ->
  memcmp (code a ++ x) (code b ++ y) = match a ?= b with Eq => memcmp x y | c => c end.
Proof.
  intros Ha Hb.
  destruct (uint64Log2_bounds a Ha) as (Hsa & Hlta & Hga).
  destruct (uint64Log2_bounds b Hb) as (Hsb & Hltb & Hgb).
  pose proof (code_payload_bound a Ha) as HMa. pose proof (code_payload_bound b Hb) as HMb.
  unfold code. set (sa := uint64Log2 a) in *. set (sb := uint64Log2 b) in *.
  cbn [app memcmp]. unfold header.
  destruct (Z.compare_spec (128 + (sa - 1)) (128 + (sb - 1))) as [E|E|E].
  - assert (Es : sa = sb) by lia. rewrite <-Es in *. rewrite memcmp_be by done.
    set (p := 2 ^ (8 * Z.of_nat (payload_bytes sa) - sa)) in *.
    assert (Hp : 0 < p).
    { apply Z.pow_pos_nonneg; [lia|]. destruct (payload_bytes_spec sa Hsa) as (q & r & ? & ? & ? & ->). lia. }
    destruct (Z.compare_spec (a * p) (b * p)), (Z.compare_spec a b); try done; nia.
  - pose proof (Z.pow_le_mono_r 2 sa (sb - 1) ltac:(lia) ltac:(lia)).
    destruct (Z.compare_spec a b); try done; lia.
  - pose proof (Z.pow_le_mono_r 2 sb (sa - 1) ltac:(lia) ltac:(lia)).
    destruct (Z.compare_spec a b); try done; lia.
Qed.

(** The encoding of a signed number: the code of its magnitude, complemented
    when it is negative. *)
Definition encoding (v : Z) : bytes :=
  map (fun b => Z.lxor b (if v <? 0 then 0xff else 0)) (code (Z.abs v)).

Lemma map_lxor_0 l : map (fun b => Z.lxor b 0) l = l.
Proof. induction l; cbn; [done|]. rewrite Z.lxor_0_r. by f_equal. Qed.

Lemma WriteInt_spec out v :
  in_i64 v -> WriteInt no_fail out v = ((out ++ encoding v, Z.of_nat (length (encoding v))), None).
Proof.
  intros Hv. unfold WriteInt, encoding. rewrite length_map. unfold in_i64 in *.
  destruct (v <? 0) eqn:E; bool_to_prop; cbn [negb Z.eqb].
  - assert (Em : u64 (- u64 v) = Z.abs v).
    { unfold u64. rewrite <-(Z_mod_plus_full v 1), (Z.mod_small (v + 1 * 2 ^ 64)) by lia.
      rewrite <-(Z_mod_plus_full (- _) 1), Z.mod_small; lia. }
    rewrite Em. apply writeSignMag_spec. unfold in_u64. lia.
  - rewrite u64_small by (unfold in_u64; lia). rewrite (Z.abs_eq v) by lia.
    apply writeSignMag_spec. unfold in_u64. lia.
Qed.

Lemma WriteUint_spec out v :
  in_u64 v -> WriteUint no_fail out v = ((out ++ encoding v, Z.of_nat (length (encoding v))), None).
Proof.
  intros Hv. unfold WriteUint, encoding. rewrite length_map. unfold in_u64 in *.
  rewrite (proj2 (Z.ltb_ge v 0)) by lia. rewrite Z.abs_eq by lia. by apply writeSignMag_spec.
Qed.

Lemma encoding_cmp a b x y :
  - 2 ^ 63 <= a < 2 ^ 64 -> - 2 ^ 63 <= b < 2 ^ 64 ->
  memcmp (encoding a ++ x) (encoding b ++ y) = match a ?= b with Eq => memcmp x y | c => c end.
Proof.
  intros Ha Hb.
  assert (Ua : in_u64 (Z.abs a)) by (unfold in_u64; lia).
  assert (Ub : in_u64 (Z.abs b)) by (unfold in_u64; lia).
  pose proof (code_ok _ Ua) as Oa. pose proof (code_ok _ Ub) as Ob.
  destruct (uint64Log2_bounds _ Ua) as (Hsa & _). destruct (uint64Log2_bounds _ Ub) as (Hsb & _).
  unfold encoding.
  destruct (a <? 0) eqn:Ea, (b <? 0) eqn:Eb; bool_to_prop.
  - destruct (Z.compare_spec a b) as [->|Hlt|Hlt].
    + by rewrite memcmp_app_same.
    + apply (memcmp_complement _ _ Gt); [done..|]. intros. rewrite code_cmp by done.
      destruct (Z.compare_spec (Z.abs a) (Z.abs b)); try done; lia.
    + apply (memcmp_complement _ _ Lt); [done..|]. intros. rewrite code_cmp by done.
      destruct (Z.compare_spec (Z.abs a) (Z.abs b)); try done; lia.
  - rewrite map_lxor_0. unfold code. cbn [map app memcmp].
    rewrite lxor_ff by (unfold header, in_u8; lia). unfold header.
    destruct (Z.compare_spec (255 - (128 + (uint64Log2 (Z.abs a) - 1)))
      (128 + (uint64Log2 (Z.abs b) - 1))), (Z.compare_spec a b); try done; lia.
  - rewrite map_lxor_0. unfold code. cbn [map app memcmp].
    rewrite lxor_ff by (unfold header, in_u8; lia). unfold header.
    destruct (Z.compare_spec (128 + (uint64Log2 (Z.abs a) - 1))
      (255 - (128 + (uint64Log2 (Z.abs b) - 1)))), (Z.compare_spec a b); try done; lia.
  - rewrite !map_lxor_0, code_cmp by done. rewrite !Z.abs_eq by lia. done.
Qed.

(** * Byte strings (string.go) *)

(** [int(math.Ceil(2 * 1024 * 1024 * 8 / 7))]: the division is one of integer
    constants. *)
Definition ReadByteLimit : Z := 2 * 1024 * 1024 * 8 / 7.

Section WritingBytes.
Context {WErr : Type} (wfail : bytes -> option WErr).

(** The closure [wb] of [WriteBytes] counts only the bytes that were written. *)
Definition wbs (b : Z) (st : bytes * Z) : (bytes * Z) * option WErr :=
  let '(out, n) := st in
  match wfail out with
  | Some e => ((out, n), Some e)
  | None => ((out ++ [b], n + 1), None)
  end.

Fixpoint write_bytes_loop (i acc : Z) (data : bytes) (st : bytes * Z)
  : (bytes * Z) * option WErr :=
  match data with
  | [] => wbs acc st
  | b :: data =>
      let m := i mod 7 in
      let o := Z.lor (Z.lor acc 1) (Z.shiftr (Z.land b (u8 (Z.shiftl 0xff (m + 1)))) m) in
      let '(st, err) := wbs o st in
      match err with
      | Some e => (st, Some e)
      | None =>
          let acc := u8 (Z.shiftl b (7 - m)) in
          if m =? 6 then
            let '(st, err) := wbs (Z.lor acc 1) st in
            match err with
            | Some e => (st, Some e)
            | None => write_bytes_loop (i + 1) 0 data st
            end
          else write_bytes_loop (i + 1) acc data st
      end
  end.

Definition WriteBytes (out data : bytes) : (bytes * Z) * option WErr :=
  write_bytes_loop 0 0 data (out, 0).
End WritingBytes.

Inductive BytesErr := ErrByteLimitExceeded | ErrReadByte.
#[export] Instance BytesErr_eq_dec : EqDecision BytesErr.
Proof. solve_decision. Defined.

(** The loop of [ReadBytes]: [budget] rounds are left before the limit. *)
Fixpoint read_bytes_loop (budget : nat) (i acc n : Z) (tmpBuf r : bytes)
  : bytes * Z * option BytesErr * bytes :=
  match budget with
  | O => ([], n, Some ErrByteLimitExceeded, r)
  | S budget =>
      match r with
      | [] => ([], n, Some ErrReadByte, [])
      | o :: r =>
          let n := n + 1 in
          let b := Z.land o 0xfe in
          let m := i mod 8 in
          let '(tmpBuf, acc) :=
            if m =? 0 then (tmpBuf, b)
            else (tmpBuf ++ [Z.lor acc (Z.shiftr b (8 - m))], u8 (Z.shiftl b m)) in
          if Z.land o 1 =? 0 then (tmpBuf, n, None, r)
          else read_bytes_loop budget (i + 1) acc n tmpBuf r
      end
  end.

Definition ReadBytes (r : bytes) : bytes * Z * option BytesErr * bytes :=
  read_bytes_loop (Z.to_nat ReadByteLimit) 0 0 0 [] r.

Example write_bytes_ex : WriteBytes no_fail [] [255; 0; 1] = ([255; 129; 1; 32], 4, None).
Proof. vm_compute. reflexivity. Qed.
Example read_bytes_ex : read_bytes_loop 10 0 0 0 [] [255; 129; 1; 32; 9] = ([255; 0; 1], 4, None, [9]).
Proof. vm_compute. reflexivity. Qed.

(** ** The emitted bytes *)

(** The byte that carries the pending [m] bits [acc] and the high bits of [b]. *)
Definition emitted (m acc b : Z) : Z :=
  Z.lor (Z.lor acc 1) (Z.shiftr (Z.land b (u8 (Z.shiftl 0xff (m + 1)))) m).

Fixpoint stream (i acc : Z) (data : bytes) : bytes :=
  match data with
  | [] => [acc]
  | b :: data =>
      let m := i mod 7 in
      let acc' := u8 (Z.shiftl b (7 - m)) in
      emitted m acc b ::
      (if m =? 6 then Z.lor acc' 1 :: stream (i + 1) 0 data else stream (i + 1) acc' data)
  end.

Lemma write_bytes_loop_stream data i acc out n :
  write_bytes_loop no_fail i acc data (out, n) =
  ((out ++ stream i acc data, n + Z.of_nat (length (stream i acc data))), None).
Proof.
  revert i acc out n. induction data as [|b data IH]; intros i acc out n; [done|].
  cbn -[Z.of_nat]. case_match; rewrite IH, <-!app_assoc; cbn -[Z.of_nat]; feq.
Qed.

(** Bit facts, checked for every byte. *)
Definition all_bytes (P : Z -> bool) : bool := forallb P (seqZ 0 256).
Definition all_m (P : Z -> bool) : bool := forallb P (seqZ 0 7).

Lemma all_bytes_spec P b : all_bytes P = true -> in_u8 b -> P b = true.
Proof.
  unfold all_bytes. rewrite forallb_forall. intros H Hb. apply H.
  apply list_elem_of_In, elem_of_seqZ. unfold in_u8 in Hb. lia.
Qed.
Lemma all_m_spec P m : all_m P = true -> 0 <= m < 7 -> P m = true.
Proof.
  unfold all_m. rewrite forallb_forall. intros H Hm. apply H.
  apply list_elem_of_In, elem_of_seqZ. lia.
Qed.

Lemma all_mb_spec (P : Z -> Z -> bool) m b :
  all_m (fun m => all_bytes (P m)) = true -> 0 <= m < 7 -> in_u8 b -> P m b = true.
Proof.
  intros H Hm Hb. pose proof (all_m_spec _ m H Hm) as H1. cbn in H1.
  by apply (all_bytes_spec (P m)).
Qed.

Lemma high_bits m b :
  0 <= m < 7 -> in_u8 b ->
  Z.shiftr (Z.land b (u8 (Z.shiftl 0xff (m + 1)))) m = 2 * (b / 2 ^ (m + 1)).
Proof.
  intros Hm Hb. apply Z.eqb_eq.
  apply (all_mb_spec (fun m b =>
    Z.shiftr (Z.land b (u8 (Z.shiftl 0xff (m + 1)))) m =? 2 * (b / 2 ^ (m + 1)))); [|done..].
  vm_compute. reflexivity.
Qed.

Lemma low_bits m b :
  0 <= m < 7 -> in_u8 b -> u8 (Z.shiftl b (7 - m)) = (b mod 2 ^ (m + 1)) * 2 ^ (7 - m).
Proof.
  intros Hm Hb. apply Z.eqb_eq.
  apply (all_mb_spec (fun m b =>
    u8 (Z.shiftl b (7 - m)) =? (b mod 2 ^ (m + 1)) * 2 ^ (7 - m))); [|done..].
  vm_compute. reflexivity.
Qed.

Lemma land_fe o : in_u8 o -> Z.land o 0xfe = 2 * (o / 2).
Proof.
  intros Ho. apply Z.eqb_eq, (all_bytes_spec (fun o => Z.land o 0xfe =? 2 * (o / 2))); [|done].
  vm_compute. reflexivity.
Qed.

Lemma land_1 o : in_u8 o -> Z.land o 1 = o mod 2.
Proof. intros _. change 1 with (Z.ones 1). by rewrite Z.land_ones by lia. Qed.

(** The pending bits sit at the top of [acc]. *)
Definition pending (m acc : Z) : Prop := exists q, 0 <= q < 2 ^ m /\ acc = q * 2 ^ (8 - m).

Lemma lor_1_even a : 0 <= a -> Z.lor (2 * a) 1 = 2 * a + 1.
Proof.
  intros Ha. pose proof (lor_disjoint_add 1 a 1 ltac:(lia) ltac:(lia)) as H.
  rewrite (Z.mul_comm 2 a). exact H.
Qed.

Lemma pow_split m : 0 <= m < 7 -> 2 ^ (8 - m) = 2 * 2 ^ (7 - m) /\ 0 < 2 ^ (7 - m) /\ 0 < 2 ^ m /\
  2 ^ (m + 1) * 2 ^ (7 - m) = 256 /\ 2 ^ (m + 1) = 2 * 2 ^ m.
Proof.
  intros Hm. replace (8 - m) with (7 - m + 1) by lia. rewrite !Z.pow_add_r, !Z.pow_sub_r by lia.
  rewrite <-!Z.pow_sub_r by lia.
  assert (0 < 2 ^ (7 - m)) by (apply Z.pow_pos_nonneg; lia).
  assert (0 < 2 ^ m) by (apply Z.pow_pos_nonneg; lia).
  split; [lia|]. split; [done|]. split; [done|]. split; [|lia].
  rewrite <-Z.mul_assoc, (Z.mul_comm (2 ^ 1)), Z.mul_assoc, <-Z.pow_add_r by lia.
  by replace (m + (7 - m)) with 7 by lia.
Qed.

Lemma emitted_value m acc b :
  0 <= m < 7 -> pending m acc -> in_u8 b ->
  emitted m acc b = acc + 2 * (b / 2 ^ (m + 1)) + 1 /\
  0 <= 2 * (b / 2 ^ (m + 1)) + 1 < 2 ^ (8 - m).
Proof.
  intros Hm (q & Hq & ->) Hb. destruct (pow_split m Hm) as (E1 & H1 & H2 & E3 & E4).
  unfold emitted. rewrite high_bits by done.
  assert (Hd : 0 <= b / 2 ^ (m + 1) < 2 ^ (7 - m)).
  { unfold in_u8 in Hb. split; [apply Z.div_pos; lia|]. apply Z.div_lt_upper_bound; lia. }
  split; [|lia].
  rewrite <-Z.lor_assoc, (Z.lor_comm 1), lor_1_even by lia.
  rewrite lor_disjoint_add by lia. lia.
Qed.

Lemma pending_low m b :
  0 <= m < 7 -> in_u8 b -> pending (m + 1) (u8 (Z.shiftl b (7 - m))).
Proof.
  intros Hm Hb. rewrite low_bits by done. exists (b mod 2 ^ (m + 1)).
  split; [apply Z.mod_pos_bound; apply Z.pow_pos_nonneg; lia|]. feq.
Qed.

Lemma pending_0 : pending 0 0.
Proof. exists 0. done. Qed.

Lemma mod7_step i : 0 <= i -> (i mod 7 = 6 /\ (i + 1) mod 7 = 0) \/ (i mod 7 < 6 /\ (i + 1) mod 7 = i mod 7 + 1).
Proof. intros. Z.to_euclidean_division_equations; lia. Qed.

(** ** Order *)

(** The first byte of a stream is its pending bits and something smaller. *)
Lemma stream_head i acc data :
  0 <= i -> pending (i mod 7) acc -> bytes_ok data ->
  exists d s, stream i acc data = acc + d :: s /\ 0 <= d < 2 ^ (8 - i mod 7) /\
    (data = [] -> d = 0 /\ s = []) /\ (data <> [] -> 0 < d).
Proof.
  intros Hi Hp Hok. assert (Hm : 0 <= i mod 7 < 7) by (apply Z.mod_pos_bound; lia).
  destruct (pow_split _ Hm) as (E1 & H1 & _).
  destruct Hok as [|b data Hb Hok].
  - exists 0, []. rewrite Z.add_0_r. split; [done|]. split; [lia|]. done.
  - destruct (emitted_value _ acc b Hm Hp Hb) as [E Hd]. cbn [stream]. rewrite E.
    eexists _, _. rewrite <-Z.add_assoc. split; [done|]. split; [done|]. split; [done|].
    intros _. unfold in_u8 in Hb.
    assert (0 <= b / 2 ^ (i mod 7 + 1)) by (apply Z.div_pos; [lia|apply Z.pow_pos_nonneg; lia]). lia.
Qed.

Lemma cmp_lt_intro a b x y : a < b -> memcmp (a :: x) (b :: y) = Lt.
Proof. intros H. cbn. by rewrite (proj2 (Z.compare_lt_iff _ _) H). Qed.
Lemma cmp_gt_intro a b x y : b < a -> memcmp (a :: x) (b :: y) = Gt.
Proof. intros H. cbn. by rewrite (proj2 (Z.compare_gt_iff _ _) H). Qed.

Lemma div_mod_lt a b p : 0 < p -> a / p = b / p -> a < b -> a mod p < b mod p.
Proof.
  intros Hp E Hlt. pose proof (Z.div_mod a p ltac:(lia)). pose proof (Z.div_mod b p ltac:(lia)). nia.
Qed.

(** Streams of data that differ at the first byte. *)
Lemma stream_lt i acc a b da db x y :
  0 <= i -> pending (i mod 7) acc -> bytes_ok (a :: da) -> bytes_ok (b :: db) -> a < b ->
  memcmp (stream i acc (a :: da) ++ x) (stream i acc (b :: db) ++ y) = Lt.
Proof.
  intros Hi Hp Ha Hb Hlt. inversion Ha as [|? ? Ua Oa]; inversion Hb as [|? ? Ub Ob]; subst.
  assert (Hm : 0 <= i mod 7 < 7) by (apply Z.mod_pos_bound; lia).
  destruct (pow_split _ Hm) as (E1 & H1 & H2 & E3 & E4).
  destruct (emitted_value _ acc a Hm Hp Ua) as [Ea _].
  destruct (emitted_value _ acc b Hm Hp Ub) as [Eb _].
  cbn [stream app]. rewrite Ea, Eb. set (m := i mod 7) in *.
  pose proof (Z.div_le_mono a b (2 ^ (m + 1)) ltac:(lia) ltac:(lia)) as Hmono.
  destruct (Z.eq_dec (a / 2 ^ (m + 1)) (b / 2 ^ (m + 1))) as [Eq|Ne]; [|apply cmp_lt_intro; lia].
  cbn [memcmp]. rewrite Eq, Z.compare_refl.
  pose proof (div_mod_lt a b (2 ^ (m + 1)) ltac:(lia) Eq Hlt) as Hlow.
  rewrite !low_bits by done.
  destruct (mod7_step i Hi) as [[E6 E0]|[E6 E0]]; fold m in E6.
  - rewrite E6. cbn [Z.eqb Pos.eqb app]. apply cmp_lt_intro.
    rewrite E6 in Hlow. change (2 ^ (7 - 6)) with 2. rewrite !(Z.mul_comm _ 2), !lor_1_even;
      pose proof (Z.mod_pos_bound a (2 ^ (6 + 1)) ltac:(lia));
      pose proof (Z.mod_pos_bound b (2 ^ (6 + 1)) ltac:(lia)); lia.
  - rewrite (proj2 (Z.eqb_neq m 6)) by lia.
    assert (Hp' : forall c, in_u8 c -> pending ((i + 1) mod 7) (c mod 2 ^ (m + 1) * 2 ^ (7 - m))).
    { intros c Hc. fold m in E0. rewrite E0. rewrite <-low_bits by done. by apply pending_low. }
    destruct (stream_head (i + 1) _ da ltac:(lia) (Hp' a Ua) Oa) as (d1 & s1 & -> & Hd1 & _).
    destruct (stream_head (i + 1) _ db ltac:(lia) (Hp' b Ub) Ob) as (d2 & s2 & -> & Hd2 & _).
    fold m in E0. rewrite E0 in Hd1, Hd2. replace (8 - (m + 1)) with (7 - m) in * by lia.
    cbn [app]. apply cmp_lt_intro. nia.
Qed.

Lemma memcmp_sym a b : memcmp b a = CompOpp (memcmp a b).
Proof.
  revert b. induction a as [|x a IH]; intros [|y b]; cbn; try done.
  rewrite (Z.compare_antisym x y). destruct (x ?= y); cbn; auto.
Qed.

Lemma stream_cmp a b i acc x y :
  0 <= i -> pending (i mod 7) acc -> bytes_ok a -> bytes_ok b ->
  memcmp (stream i acc a ++ x) (stream i acc b ++ y) =
  match memcmp a b with Eq => memcmp x y | c => c end.
Proof.
  revert b i acc. induction a as [|a da IH]; intros [|b db] i acc Hi Hp Ha Hb.
  - cbn. by rewrite Z.compare_refl.
  - destruct (stream_head i acc (b :: db) Hi Hp Hb) as (d & s & -> & Hd & _ & Hpos).
    specialize (Hpos ltac:(done)). cbn [stream app]. apply cmp_lt_intro. lia.
  - destruct (stream_head i acc (a :: da) Hi Hp Ha) as (d & s & -> & Hd & _ & Hpos).
    specialize (Hpos ltac:(done)). cbn [stream app]. apply cmp_gt_intro. lia.
  - cbn [memcmp]. destruct (Z.compare_spec a b) as [->|Hlt|Hlt].
    + inversion Ha; inversion Hb; subst.
      assert (Hm : 0 <= i mod 7 < 7) by (apply Z.mod_pos_bound; lia).
      cbn [stream app memcmp]. rewrite Z.compare_refl.
      destruct (mod7_step i Hi) as [[E6 E0]|[E6 E0]].
      * rewrite E6. cbn [Z.eqb Pos.eqb app memcmp]. rewrite Z.compare_refl.
        apply IH; [lia| |done..]. rewrite E0. apply pending_0.
      * rewrite (proj2 (Z.eqb_neq _ 6)) by lia. apply IH; [lia| |done..].
        rewrite E0. by apply pending_low.
    + by apply stream_lt.
    + rewrite memcmp_sym. by rewrite stream_lt.
Qed.

(** ** Reading back *)

(** What the writer and the reader hold between two bytes of data: the [m] low
    bits of the last byte [p] are pending in the writer, the others are in the
    reader. *)
Definition in_step (m acc racc : Z) (pend : bytes) : Prop :=
  (m = 0 /\ acc = 0 /\ pend = []) \/
  (1 <= m <= 7 /\ exists p, in_u8 p /\ pend = [p] /\
     acc = p mod 2 ^ m * 2 ^ (8 - m) /\ racc = p / 2 ^ m * 2 ^ m).

(** What the reader does with the byte [acc + d]. *)
Lemma read_byte m acc racc pend d :
  0 <= m <= 7 -> in_step m acc racc pend -> 0 <= d < 2 ^ (8 - m) ->
  let o := acc + d in let b := Z.land o 0xfe in
  Z.land o 1 = (if m =? 8 then 0 else d mod 2) /\
  (if m =? 0 then True else pend = [Z.lor racc (Z.shiftr b (8 - m))]) /\
  (if m =? 0 then b else u8 (Z.shiftl b m)) = 2 * (d / 2) * 2 ^ m.
Proof.
  intros Hm Hs Hd o b.
  assert (Hp8 : 2 ^ (8 - m) * 2 ^ m = 256) by (rewrite <-Z.pow_add_r by lia; by replace (8 - m + m) with 8 by lia).
  assert (H1 : 0 < 2 ^ m) by (apply Z.pow_pos_nonneg; lia).
  assert (E8 : 2 ^ (8 - m) = 2 * 2 ^ (7 - m)) by (rewrite <-Z.pow_succ_r by lia; f_equal; lia).
  assert (H7 : 0 < 2 ^ (7 - m)) by (apply Z.pow_pos_nonneg; lia).
  rewrite (proj2 (Z.eqb_neq m 8)) by lia.
  destruct Hs as [(-> & -> & ->)|(Hm1 & p & Up & -> & -> & ->)].
  - subst o b. cbn [Z.eqb]. rewrite Z.add_0_l. unfold in_u8 in *. change (2 ^ (8 - 0)) with 256 in *.
    rewrite land_1, land_fe by (unfold in_u8; lia). split; [done|]. split; [done|]. lia.
  - pose proof (Z.mod_pos_bound p (2 ^ m) H1) as Hl. set (low := p mod 2 ^ m) in *.
    assert (Uo : in_u8 o) by (subst o; unfold in_u8; nia).
    rewrite (proj2 (Z.eqb_neq m 0)) by lia. subst b. rewrite land_1, land_fe by done.
    assert (Eo : 2 * (o / 2) = low * 2 ^ (8 - m) + 2 * (d / 2)).
    { subst o. rewrite E8. replace (low * (2 * 2 ^ (7 - m)) + d) with (d + low * 2 ^ (7 - m) * 2) by lia.
      rewrite Z.div_add by lia. lia. }
    assert (Hd2 : 0 <= 2 * (d / 2) < 2 ^ (8 - m)) by (Z.to_euclidean_division_equations; lia).
    rewrite Eo. split; [|split].
    + subst o. rewrite E8. replace (low * (2 * 2 ^ (7 - m)) + d) with (d + low * 2 ^ (7 - m) * 2) by lia.
      by rewrite Z.mod_add by lia.
    + f_equal. rewrite Z.shiftr_div_pow2, Z.div_add_l by lia. rewrite (Z.div_small (2 * _)) by lia.
      rewrite Z.add_0_r, lor_disjoint_add by lia. subst low.
      rewrite (Z.mul_comm (p / _)). apply Z.div_mod. lia.
    + rewrite Z.shiftl_mul_pow2 by lia. unfold u8.
      replace ((low * 2 ^ (8 - m) + 2 * (d / 2)) * 2 ^ m) with (2 * (d / 2) * 2 ^ m + low * 2 ^ 8) by (change (2 ^ 8) with 256; rewrite <-Hp8; ring).
      rewrite Z.mod_add, Z.mod_small by (try lia; change (2 ^ 8) with 256; nia). done.
Qed.

(** One round of [ReadBytes]. *)
Lemma read_round budget j m acc racc pend d n tmp r :
  j mod 8 = m -> in_step m acc racc pend -> 0 <= d < 2 ^ (8 - m) ->
  read_bytes_loop (S budget) j racc n tmp (acc + d :: r) =
  if d mod 2 =? 0 then (tmp ++ pend, n + 1, None, r)
  else read_bytes_loop budget (j + 1) (2 * (d / 2) * 2 ^ m) (n + 1) (tmp ++ pend) r.
Proof.
  intros Hj Hs Hd. assert (Hm : 0 <= m <= 7) by (subst; pose proof (Z.mod_pos_bound j 8); lia).
  destruct (read_byte m acc racc pend d Hm Hs Hd) as (H1 & H2 & H3).
  rewrite (proj2 (Z.eqb_neq m 8)) in H1 by lia.
  cbn [read_bytes_loop]. rewrite Hj, H1. destruct (m =? 0) eqn:E; bool_to_prop.
  - assert (pend = []) as -> by (destruct Hs as [(_ & _ & ->)|(? & _)]; [done|lia]).
    rewrite app_nil_r, H3. done.
  - rewrite <-H2, H3. done.
Qed.

Lemma read_stream data i j acc racc pend n tmp tl budget :
  0 <= i -> j mod 8 = i mod 7 -> in_step (i mod 7) acc racc pend -> bytes_ok data ->
  (length (stream i acc data) <= budget)%nat ->
  read_bytes_loop budget j racc n tmp (stream i acc data ++ tl) =
  (tmp ++ pend ++ data, n + Z.of_nat (length (stream i acc data)), None, tl).
Proof.
  revert i j acc racc pend n tmp budget.
  induction data as [|b data IH]; intros i j acc racc pend n tmp budget Hi Hj Hs Hok Hb.
  - destruct budget as [|budget]; [cbn in Hb; lia|]. cbn [stream app].
    rewrite <-(Z.add_0_r acc) at 1. rewrite (read_round _ _ _ _ _ _ 0 _ _ _ Hj Hs).
    + cbn. by rewrite app_nil_r.
    + split; [lia|]. apply Z.pow_pos_nonneg; [lia|]. pose proof (Z.mod_pos_bound i 7); lia.
  - inversion Hok as [|? ? Ub Hok']; subst.
    assert (Hm : 0 <= i mod 7 < 7) by (apply Z.mod_pos_bound; lia).
    destruct (pow_split _ Hm) as (E1 & H1 & H2 & E3 & E4).
    assert (Hp : pending (i mod 7) acc).
    { destruct Hs as [(-> & -> & _)|(? & p & ? & _ & -> & _)]; [apply pending_0|].
      eexists. split; [|done]. by apply Z.mod_pos_bound. }
    destruct (emitted_value _ acc b Hm Hp Ub) as [Ee Hd].
    cbn [stream app] in *. rewrite Ee in *. set (m := i mod 7) in *.
    destruct budget as [|budget]; [cbn in Hb; lia|].
    rewrite <-Z.add_assoc. rewrite (read_round _ _ _ _ _ _ _ _ _ _ Hj Hs Hd).
    replace ((2 * (b / 2 ^ (m + 1)) + 1) mod 2) with 1 by (Z.to_euclidean_division_equations; lia).
    cbn [Z.eqb].
    replace ((2 * (b / 2 ^ (m + 1)) + 1) / 2) with (b / 2 ^ (m + 1)) by (Z.to_euclidean_division_equations; lia).
    assert (Hs' : in_step (m + 1) (u8 (Z.shiftl b (7 - m))) (2 * (b / 2 ^ (m + 1)) * 2 ^ m) [b]).
    { right. split; [lia|]. exists b. split; [done|]. split; [done|].
      rewrite low_bits by done. split; [feq|]. lia. }
    assert (Hj' : (j + 1) mod 8 = m + 1).
    { rewrite <-Z.add_mod_idemp_l, Hj, Z.mod_small by lia. done. }
    cbn [length] in Hb |- *.
    destruct (mod7_step i Hi) as [[E6 E0]|[E6 E0]]; fold m in E6, E0.
    + rewrite E6 in *. cbn [Z.eqb Pos.eqb app length] in *.
      destruct budget as [|budget]; [lia|].
      assert (Eacc : Z.lor (u8 (Z.shiftl b (7 - 6))) 1 = u8 (Z.shiftl b (7 - 6)) + 1).
      { rewrite low_bits by (done || lia). rewrite (Z.mul_comm _ (2 ^ (7 - 6))).
        change (2 ^ (7 - 6)) with 2. apply lor_1_even. apply Z.mod_pos_bound. lia. }
      rewrite Eacc. rewrite (read_round _ _ _ _ _ _ 1 _ _ _ Hj' Hs') by (cbn; lia).
      cbn [Z.modulo Z.eqb]. rewrite (IH _ _ _ _ []); try done; try lia.
      * rewrite <-!app_assoc. feq.
      * rewrite E0, <-Z.add_mod_idemp_l, Hj' by lia. done.
      * left. rewrite E0. done.
    + rewrite (proj2 (Z.eqb_neq m 6)) in * by lia.
      rewrite (IH _ _ _ _ [b]); try done; try lia.
      * rewrite <-!app_assoc. feq.
      * by rewrite E0.
Qed.

(** ** Length and limit *)
Lemma stream_length data i acc :
  0 <= i -> Z.of_nat (length (stream i acc data)) =
  Z.of_nat (length data) + ((i + Z.of_nat (length data)) / 7 - i / 7) + 1.
Proof.
  revert i acc. induction data as [|b data IH]; intros i acc Hi.
  - cbn [stream length]. rewrite Z.add_0_r. lia.
  - cbn [stream length]. destruct (mod7_step i Hi) as [[E6 E0]|[E6 E0]].
    + rewrite E6. cbn [Z.eqb Pos.eqb length]. rewrite !Nat2Z.inj_succ, IH by lia.
      Z.to_euclidean_division_equations; lia.
    + rewrite (proj2 (Z.eqb_neq _ 6)) by lia. rewrite !Nat2Z.inj_succ, IH by lia.
      Z.to_euclidean_division_equations; lia.
Qed.

(** Every byte but the last has its stop bit set. *)
Definition continues (o : Z) : Prop := (Z.land o 1 =? 0) = false.

Lemma lor_1_continues a : continues (Z.lor a 1).
Proof.
  unfold continues. apply Z.eqb_neq. change 1 with (Z.ones 1) at 2.
  rewrite Z.land_ones by lia. change (2 ^ 1) with 2.
  rewrite Zmod_odd, <-Z.bit0_odd, Z.lor_spec, orb_true_r. done.
Qed.

Lemma stream_continues data i acc :
  exists s last, stream i acc data = s ++ [last] /\ Forall continues s.
Proof.
  revert i acc. induction data as [|b data IH]; intros i acc.
  - exists [], acc. by split; [|constructor].
  - cbn [stream]. assert (He : continues (emitted (i mod 7) acc b)).
    { unfold emitted. rewrite <-Z.lor_assoc, (Z.lor_comm 1), Z.lor_assoc. apply lor_1_continues. }
    case_match.
    + destruct (IH (i + 1) 0) as (s & l & -> & Hs). eexists (_ :: _ :: s), l.
      split; [done|]. constructor; [done|]. constructor; [apply lor_1_continues|done].
    + destruct (IH (i + 1) (u8 (Z.shiftl b (7 - i mod 7)))) as (s & l & -> & Hs).
      eexists (_ :: s), l. split; [done|]. by constructor.
Qed.

Lemma read_bytes_over budget j racc n tmp s r :
  Forall continues s -> (budget <= length s)%nat ->
  read_bytes_loop budget j racc n tmp (s ++ r) =
  ([], n + Z.of_nat budget, Some ErrByteLimitExceeded, drop budget (s ++ r)).
Proof.
  intros Hs. revert budget j racc n tmp.
  induction Hs as [|o s Ho Hs IH]; intros [|budget] j racc n tmp Hb; cbn in Hb; try lia.
  - cbn [read_bytes_loop drop app]. feq.
  - cbn [read_bytes_loop drop app]. feq.
  - cbn [read_bytes_loop app drop]. rewrite Ho.
    case_match; simplify_eq; (case_match; simplify_eq; rewrite IH by lia; feq).
Qed.

(** * Properties of cmpbin *)

Lemma ReadInt_encoding v tl : in_i64 v -> ReadInt (encoding v ++ tl) = (v, Z.of_nat (length (encoding v)), None, tl).
Proof.
  intros Hv. assert (Ha : in_u64 (Z.abs v)) by (unfold in_i64, in_u64 in *; lia). unfold encoding, ReadInt.
  rewrite readSignMag_spec by (done || case_match; auto). cbn. rewrite length_map.
  unfold in_i64 in Hv. destruct (v <? 0) eqn:E; bool_to_prop; cbn.
  - rewrite Z.gtb_ltb, (proj2 (Z.ltb_ge _ _)) by lia.
    replace (- Z.abs v) with v by lia. unfold i64, u64.
    rewrite <-(Z_mod_plus_full v 1), (Z.mod_small (v + 1 * 2 ^ 64)) by lia.
    rewrite <-(Z_mod_plus_full (_ + 2 ^ 63) (-1)), Z.mod_small by lia. feq.
  - rewrite Z.abs_eq in * by lia.
    destruct (uint64Log2_bounds v Ha) as (Hs & _ & Hge).
    rewrite Z.gtb_ltb, (proj2 (Z.ltb_ge _ _)).
    + rewrite i64_small by (unfold in_i64; lia). done.
    + destruct (decide (uint64Log2 v = 64)) as [E64|]; [|lia].
      rewrite E64 in Hge. cbn in Hge. lia.
Qed.

(** An int64 is read back exactly by [ReadInt] and a uint64 by [ReadUint],
    leaving the bytes that follow; the byte counts are those of the writer.
    Reading with the other routine gives the value, or [ErrOverflow] or
    [ErrUnderflow] when it does not fit. *)
Theorem number_roundtrip v tl :
  (in_i64 v -> exists bs, WriteInt no_fail [] v = ((bs, Z.of_nat (length bs)), None) /\
     ReadInt (bs ++ tl) = (v, Z.of_nat (length bs), None, tl) /\
     snd (fst (ReadUint (bs ++ tl))) = (if v <? 0 then Some ErrUnderflow else None)) /\
  (in_u64 v -> exists bs, WriteUint no_fail [] v = ((bs, Z.of_nat (length bs)), None) /\
     ReadUint (bs ++ tl) = (v, Z.of_nat (length bs), None, tl) /\
     ReadInt (bs ++ tl) = if v <? 2 ^ 63 then (v, Z.of_nat (length bs), None, tl)
                          else (0, Z.of_nat (length bs), Some ErrOverflow, tl)).
Proof.
  split; intros Hv; eexists;
    (split; [first [by apply WriteInt_spec | by apply WriteUint_spec]|]); cbn [app];
    unfold encoding, ReadInt, ReadUint.
  - split; [by apply ReadInt_encoding|].
    assert (Ha : in_u64 (Z.abs v)) by (unfold in_i64, in_u64 in *; lia).
    rewrite readSignMag_spec by (done || case_match; auto). by destruct (v <? 0).
  - rewrite (proj2 (Z.ltb_ge v 0)), Z.abs_eq by (unfold in_u64 in *; lia).
    rewrite readSignMag_spec by auto. cbn. rewrite length_map. split; [done|].
    destruct (uint64Log2_bounds v Hv) as (Hs & Hlt & Hge). unfold in_u64 in Hv.
    destruct (v <? 2 ^ 63) eqn:E; bool_to_prop; rewrite Z.gtb_ltb.
    + rewrite (proj2 (Z.ltb_ge _ _)), i64_small; [done|unfold in_i64; lia|].
      destruct (decide (uint64Log2 v = 64)) as [E64|]; [|lia].
      rewrite E64 in Hge. cbn in Hge. lia.
    + rewrite (proj2 (Z.ltb_lt _ _)); [done|].
      destruct (decide (uint64Log2 v <= 63)); [|lia].
      pose proof (Z.pow_le_mono_r 2 (uint64Log2 v) 63 ltac:(lia) ltac:(lia)). lia.
Qed.

(** The bytes a number is written as, signed or not. *)
Inductive writes (v : Z) (bs : bytes) : Prop :=
| writes_int k : in_i64 v -> WriteInt no_fail [] v = ((bs, k), None) -> writes v bs
| writes_uint k : in_u64 v -> WriteUint no_fail [] v = ((bs, k), None) -> writes v bs.

(** C38. Written numbers, signed and unsigned together, compare bytewise as the
    numbers do, and so do concatenations: equal numbers defer to what follows
    them and different numbers decide the comparison. *)
Theorem numbers_sort a b ea eb x y :
  writes a ea -> writes b eb ->
  memcmp (ea ++ x) (eb ++ y) = match a ?= b with Eq => memcmp x y | c => c end.
Proof.
  assert (Hw : forall v e, writes v e -> e = encoding v /\ - 2 ^ 63 <= v < 2 ^ 64).
  { intros v e [k Hv E|k Hv E].
    - rewrite WriteInt_spec in E by done. inversion E. unfold in_i64 in Hv. split; [done|lia].
    - rewrite WriteUint_spec in E by done. inversion E. unfold in_u64 in Hv. split; [done|lia]. }
  intros Ha Hb. apply Hw in Ha as [-> Ha]. apply Hw in Hb as [-> Hb].
  by apply encoding_cmp.
Qed.

(** A byte string of at most 2097151 bytes is read back exactly, with the
    bytes that follow it left; a longer one (2 MB included) makes [ReadBytes]
    give up after 2396745 bytes with [ErrByteLimitExceeded]. *)
Theorem bytes_roundtrip data tl :
  bytes_ok data ->
  exists bs, WriteBytes no_fail [] data = ((bs, Z.of_nat (length bs)), None) /\
  Z.of_nat (length bs) = Z.of_nat (length data) + Z.of_nat (length data) / 7 + 1 /\
  ReadBytes (bs ++ tl) =
    if Z.of_nat (length data) <=? 2097151
    then (data, Z.of_nat (length bs), None, tl)
    else ([], 2396745, Some ErrByteLimitExceeded, drop (Z.to_nat ReadByteLimit) (bs ++ tl)).
Proof.
  intros Hok. exists (stream 0 0 data). unfold WriteBytes.
  rewrite write_bytes_loop_stream. split; [done|].
  pose proof (stream_length data 0 0 ltac:(lia)) as Hl.
  change (0 / 7) with 0 in Hl. rewrite Z.add_0_l, Z.sub_0_r in Hl. split; [done|].
  unfold ReadBytes.
  assert (HL : Z.of_nat (Z.to_nat ReadByteLimit) = 2396745) by (apply Z2Nat.id; vm_compute; discriminate).
  revert HL. generalize (Z.to_nat ReadByteLimit) as limit. intros limit HL.
  case_match eqn:E; bool_to_prop.
  - rewrite (read_stream data 0 0 0 0 []); try done; [by left|].
    apply Nat2Z.inj_le. rewrite HL, Hl. Z.to_euclidean_division_equations; lia.
  - destruct (stream_continues data 0 0) as (s & l & Es & Hs).
    rewrite Es in Hl |- *. rewrite length_app in Hl. cbn in Hl.
    rewrite <-app_assoc, read_bytes_over, HL; [done|done|].
    apply Nat2Z.inj_le. rewrite HL. Z.to_euclidean_division_equations; lia.
Qed.

(** Written byte strings compare bytewise as the data does, and so do
    concatenations of written strings, field by field. *)
Theorem bytes_sort a b x y :
  bytes_ok a -> bytes_ok b ->
  memcmp (fst (fst (WriteBytes no_fail [] a)) ++ x) (fst (fst (WriteBytes no_fail [] b)) ++ y) =
  match memcmp a b with Eq => memcmp x y | c => c end.
Proof.
  intros Ha Hb. unfold WriteBytes. rewrite !write_bytes_loop_stream. cbn [fst app].
  apply stream_cmp; try done. apply pending_0.
Qed.

Lemma number_roundtrip_witness :
  ReadInt ([0x40; 0x7f; 255; 255; 255; 255; 255; 255; 255] ++ [7]) = (- 2 ^ 63, 9, None, [7]).
Proof.
  destruct (number_roundtrip (- 2 ^ 63) [7]) as [H _].
  destruct H as (bs & Hw & Hr & _); [unfold in_i64; lia|].
  vm_compute in Hw. injection Hw as <-. exact Hr.
Defined.

Lemma numbers_sort_witness :
  memcmp ([0x80; 0x80] ++ [3]) ([0x7f; 0x7f] ++ [9]) = Gt.
Proof.
  apply (numbers_sort 1 (-1)).
  - apply (writes_int _ _ 2); [unfold in_i64; lia|vm_compute; reflexivity].
  - apply (writes_int _ _ 2); [unfold in_i64; lia|vm_compute; reflexivity].
Defined.

Lemma bytes_roundtrip_witness :
  exists bs, WriteBytes no_fail [] [1; 2; 255] = ((bs, Z.of_nat (length bs)), None) /\
    ReadBytes (bs ++ [5]) = ([1; 2; 255], Z.of_nat (length bs), None, [5]).
Proof.
  destruct (bytes_roundtrip [1; 2; 255] [5]) as (bs & H1 & _ & H3);
    [repeat constructor; unfold in_u8; lia|].
  exists bs. split; [exact H1|exact H3].
Defined.

Lemma bytes_sort_witness :
  memcmp ([0x81; 0x00] ++ [1]) ([0x81; 0x41; 0x00] ++ []) = Lt.
Proof.
  exact (bytes_sort [0x80] [0x81; 0x00] [1] [] ltac:(repeat constructor; unfold in_u8; lia)
    ltac:(repeat constructor; unfold in_u8; lia)).
Defined.
