(* ===== verification/Float.v ===== *)
(** common/data/cmpbin/float.go: floats as eight bytes that memcmp orders as
    the numbers.  A float64 is its bit pattern (math.Float64bits), and its
    value the one IEEE 754 gives the pattern. *)
From S2P Require Import Prelude.
From Stdlib Require Import SpecFloat.
Local Open Scope Z_scope.

(** [bits ^ (-(bits >> 63) | (1 << 63))] *)
Definition sort_bits (bits : Z) : Z :=
  Z.lxor bits (Z.lor (u64 (- Z.shiftr bits 63)) (Z.shiftl 1 63)).
(** [bits ^ (((bits >> 63) - 1) | (1 << 63))] *)
Definition unsort_bits (bits : Z) : Z :=
  Z.lxor bits (Z.lor (u64 (Z.shiftr bits 63 - 1)) (Z.shiftl 1 63)).

(** binary.BigEndian.Uint64 *)
Definition of_be (data : bytes) : Z := foldl (fun acc b => Z.lor (Z.shiftl acc 8) b) 0 data.

Section Float.
(** The Write of an io.Writer: bytes written and an error; the Read of an
    io.Reader with room for some bytes: what it delivers, and an error. *)
Context {W R E : Type} (Write : W -> bytes -> W * Z * option E) (Read : R -> nat -> R * bytes * option E).

Definition WriteFloat64 (buf : W) (v : Z) : W * Z * option E := Write buf (be 8 (sort_bits v)).

(** What the reader does not deliver stays zero. *)
Definition ReadFloat64 (buf : R) : Z * Z * option E * R :=
  let '(buf, got, err) := Read buf 8%nat in
  match err with
  | Some e => (0, Z.of_nat (length got), Some e, buf)
  | None => (unsort_bits (of_be (got ++ replicate (8 - length got) 0)), Z.of_nat (length got), None, buf)
  end.
End Float.

(** A bytes.Buffer: Read delivers what there is, and io.EOF when it is empty. *)
Inductive EOF := IoEOF.
Definition buffer_Write (buf data : bytes) : bytes * Z * option EOF := (buf ++ data, Z.of_nat (length data), None).
Definition buffer_Read (buf : bytes) (n : nat) : bytes * bytes * option EOF :=
  match buf with [] => ([], [], Some IoEOF) | _ => (drop n buf, take n buf, None) end.

(** * Values *)
#[local] Instance spec_float_eq_dec : EqDecision spec_float.
Proof. solve_decision. Defined.

(** The value of sign [s] and 63 bits [mag] of exponent and mantissa. *)
Definition float_of (s : bool) (mag : Z) : spec_float :=
  let e := mag / 2 ^ 52 in
  let m := mag mod 2 ^ 52 in
  if e =? 2047 then if m =? 0 then S754_infinity s else S754_nan
  else if e =? 0 then match m with Zpos p => S754_finite s p (-1074) | _ => S754_zero s end
  else match m + 2 ^ 52 with Zpos p => S754_finite s p (e - 1075) | _ => S754_nan end.
Definition value (bits : Z) : spec_float := float_of (2 ^ 63 <=? bits) (bits mod 2 ^ 63).

Inductive float_view (s : bool) (mag : Z) : spec_float -> Prop :=
| view_zero (H : mag = 0) : float_view s mag (S754_zero s)
| view_finite p e (H : mag = (e + 1074) * 2 ^ 52 + Zpos p) (He : -1074 <= e <= 971) (Hp : Zpos p < 2 ^ 53)
    (Hn : 2 ^ 52 <= Zpos p \/ e = -1074) : float_view s mag (S754_finite s p e)
| view_infinity (H : mag = 2047 * 2 ^ 52) : float_view s mag (S754_infinity s)
| view_nan : float_view s mag S754_nan.

Lemma float_of_view s mag : 0 <= mag < 2 ^ 63 -> float_view s mag (float_of s mag).
Proof.
  intros Hm. unfold float_of. pose proof (Z.div_mod mag (2 ^ 52) ltac:(lia)) as Hd.
  pose proof (Z.mod_pos_bound mag (2 ^ 52) ltac:(lia)) as Hr.
  assert (He : 0 <= mag / 2 ^ 52 <= 2047) by (Z.to_euclidean_division_equations; lia).
  destruct (Z.eqb_spec (mag / 2 ^ 52) 2047) as [E|E].
  - destruct (Z.eqb_spec (mag mod 2 ^ 52) 0); constructor. lia.
  - destruct (Z.eqb_spec (mag / 2 ^ 52) 0) as [E0|E0].
    + destruct (mag mod 2 ^ 52) as [|p|p] eqn:Em; [apply view_zero; lia|apply view_finite; lia|lia].
    + destruct (mag mod 2 ^ 52 + 2 ^ 52) as [|p|p] eqn:Em; [lia|apply view_finite; lia|lia].
Qed.

Lemma float_of_compare s a b : 0 <= a < 2 ^ 63 -> 0 <= b < 2 ^ 63 ->
  float_of s a <> S754_nan -> float_of s b <> S754_nan ->
  SFcompare (float_of s a) (float_of s b) = Some (if s then CompOpp (a ?= b) else a ?= b).
Proof.
  intros Ha Hb Na Nb.
  destruct (float_of_view s a Ha) as [E|p e E He Hp Hn|E|]; [..|done];
    destruct (float_of_view s b Hb) as [E'|p' e' E' He' Hp' Hn'|E'|]; try done; cbn;
    try change (Pos.compare_cont Eq p p') with (Z.pos p ?= Z.pos p');
    destruct (Z.compare_spec a b); try lia; destruct s; try done; f_equal;
    destruct (Z.compare_spec e e'); try done; try lia;
    destruct (Z.compare_spec (Z.pos p) (Z.pos p')); try done; lia.
Qed.

Lemma float_of_signs a b : 0 <= a < 2 ^ 63 -> 0 <= b < 2 ^ 63 ->
  float_of true a <> S754_nan -> float_of false b <> S754_nan ->
  SFcompare (float_of true a) (float_of false b) = Some (if (a =? 0) && (b =? 0) then Eq else Lt) /\
  SFcompare (float_of false b) (float_of true a) = Some (if (a =? 0) && (b =? 0) then Eq else Gt).
Proof.
  intros Ha Hb Na Nb.
  destruct (float_of_view true a Ha) as [E|p e E He Hp Hn|E|]; [..|done];
    destruct (float_of_view false b Hb) as [E'|p' e' E' He' Hp' Hn'|E'|]; try done; cbn;
    destruct (Z.eqb_spec a 0), (Z.eqb_spec b 0); try done; lia.
Qed.

(** * Sortable bits *)
Lemma bits_cases b : in_u64 b ->
  (Z.shiftr b 63 = 0 /\ 0 <= b < 2 ^ 63) \/ (Z.shiftr b 63 = 1 /\ 2 ^ 63 <= b < 2 ^ 64).
Proof. unfold in_u64. intros H. rewrite Z.shiftr_div_pow2 by lia. Z.to_euclidean_division_equations; lia. Qed.

Lemma flip_sign b : 0 <= b < 2 ^ 63 -> Z.lxor b (2 ^ 63) = b + 2 ^ 63.
Proof.
  intros Hb. symmetry. apply Z.add_nocarry_lxor. rewrite Z.land_comm.
  change (2 ^ 63) with (1 * 2 ^ 63). apply land_disjoint; lia.
Qed.

Lemma flip_all b : in_u64 b -> Z.lxor b (Z.ones 64) = 2 ^ 64 - 1 - b.
Proof.
  intros Hb. assert (Hl : Z.land (Z.lxor b (Z.ones 64)) b = 0).
  { apply Z.bits_inj'. intros i Hi. rewrite Z.land_spec, Z.lxor_spec, Z.bits_0.
    destruct (Z.testbit b i) eqn:Eb; [|by rewrite andb_false_r].
    assert (i < 64); [|rewrite Z.ones_spec_low by lia; done].
    destruct (Z.ltb_spec i 64); [done|]. exfalso.
    unfold in_u64 in Hb. rewrite <-(Z.mod_small b (2 ^ 64)), Z.mod_pow2_bits_high in Eb by lia. done. }
  pose proof (Z.add_nocarry_lxor _ _ Hl) as H. rewrite (Z.lxor_comm b), lxor_lxor in H.
  change (2 ^ 64 - 1) with (Z.ones 64). rewrite Z.lxor_comm. lia.
Qed.

Lemma sort_bits_spec b : in_u64 b -> sort_bits b = if b <? 2 ^ 63 then b + 2 ^ 63 else 2 ^ 64 - 1 - b.
Proof.
  intros Hb. unfold sort_bits. destruct (bits_cases b Hb) as [[-> H]|[-> H]]; destruct (Z.ltb_spec b (2 ^ 63)); try lia.
  - by apply flip_sign.
  - by apply flip_all.
Qed.

Lemma unsort_bits_spec b : in_u64 b -> unsort_bits b = if b <? 2 ^ 63 then 2 ^ 64 - 1 - b else b - 2 ^ 63.
Proof.
  intros Hb. unfold unsort_bits. destruct (bits_cases b Hb) as [[-> H]|[-> H]]; destruct (Z.ltb_spec b (2 ^ 63)); try lia.
  - by apply flip_all.
  - change (Z.lor (u64 (1 - 1)) (Z.shiftl 1 63)) with (2 ^ 63).
    replace b with (Z.lxor (b - 2 ^ 63) (2 ^ 63)) at 1 by (rewrite flip_sign; lia). apply lxor_lxor.
Qed.

Lemma sort_bits_range b : in_u64 b -> in_u64 (sort_bits b).
Proof. intros Hb. rewrite sort_bits_spec by done. unfold in_u64 in *. case_match; bool_to_prop; lia. Qed.
Lemma unsort_sort b : in_u64 b -> unsort_bits (sort_bits b) = b.
Proof.
  intros Hb. rewrite unsort_bits_spec by by apply sort_bits_range. rewrite sort_bits_spec by done.
  unfold in_u64 in Hb. destruct (Z.ltb_spec b (2 ^ 63)); case_match; bool_to_prop; lia.
Qed.

Lemma foldl_be acc n v : 0 <= acc -> 0 <= v < 2 ^ (8 * Z.of_nat n) ->
  foldl (fun acc b => Z.lor (Z.shiftl acc 8) b) acc (be n v) = acc * 2 ^ (8 * Z.of_nat n) + v.
Proof.
  revert acc v. induction n as [|n IH]; intros acc v Ha Hv; cbn [be foldl].
  { cbn in Hv |- *. lia. }
  rewrite pow8_S in *. rewrite shiftr_div_pow8. set (p := 2 ^ (8 * Z.of_nat n)) in *.
  assert (Hp : 0 < p) by (apply Z.pow_pos_nonneg; lia).
  pose proof (Z.div_mod v p ltac:(lia)) as Ev. pose proof (Z.mod_pos_bound v p Hp) as Bv.
  assert (Qv : in_u8 (v / p)) by (split; [apply Z.div_pos; lia|apply Z.div_lt_upper_bound; lia]).
  rewrite u8_small by done.
  assert (Hlor : Z.lor (Z.shiftl acc 8) (v / p) = acc * 2 ^ 8 + v / p).
  { rewrite Z.shiftl_mul_pow2 by lia. apply lor_disjoint_add; [lia|done]. }
  assert (Hbe : be n v = be n (v mod p)).
  { rewrite <-(be_mod n (v mod p) (v / p)). f_equal. fold p. lia. }
  rewrite Hlor, Hbe, IH; [fold p; lia|unfold in_u8 in Qv; lia|done].
Qed.

Lemma of_be_spec v : in_u64 v -> of_be (be 8 v) = v.
Proof. intros Hv. unfold of_be. rewrite foldl_be; [lia|lia|exact Hv]. Qed.

(** * The encoding *)
Definition encoded (v : Z) : bytes := be 8 (sort_bits v).

Lemma low_63_bits b : in_u64 b -> b mod 2 ^ 63 = if 2 ^ 63 <=? b then b - 2 ^ 63 else b.
Proof.
  unfold in_u64. intros Hb. destruct (Z.leb_spec (2 ^ 63) b); [|apply Z.mod_small; lia].
  symmetry. apply (Z.mod_unique _ _ 1); lia.
Qed.

(** The order of values, negative ones reversed, is the order of the bits. *)
Lemma sorted_bits a b c : in_u64 a -> in_u64 b -> SFcompare (value a) (value b) = Some c ->
  c = Eq \/ (sort_bits a ?= sort_bits b) = c.
Proof.
  intros Ha Hb. unfold value. rewrite !sort_bits_spec by done.
  pose proof (Z.mod_pos_bound a (2 ^ 63) ltac:(lia)) as Ma. pose proof (Z.mod_pos_bound b (2 ^ 63) ltac:(lia)) as Mb.
  pose proof (low_63_bits a Ha) as Da.
  pose proof (low_63_bits b Hb) as Db. unfold in_u64 in *.
  destruct (decide (float_of (2 ^ 63 <=? a) (a mod 2 ^ 63) = S754_nan)) as [->|Na]; [done|].
  destruct (decide (float_of (2 ^ 63 <=? b) (b mod 2 ^ 63) = S754_nan)) as [->|Nb]; [by destruct (float_of _ _)|].
  destruct (Z.leb_spec (2 ^ 63) a), (Z.leb_spec (2 ^ 63) b).
  - rewrite float_of_compare by done. intros [= <-]. right.
    rewrite (proj2 (Z.ltb_ge _ _)), (proj2 (Z.ltb_ge b _)) by lia. rewrite Da, Db.
    destruct (Z.compare_spec (2 ^ 64 - 1 - a) (2 ^ 64 - 1 - b)), (Z.compare_spec (a - 2 ^ 63) (b - 2 ^ 63)); try done; lia.
  - destruct (float_of_signs _ _ Ma Mb Na Nb) as [-> _]. intros [= <-].
    destruct (_ && _); [by left|right]. rewrite (proj2 (Z.ltb_ge _ _)), (proj2 (Z.ltb_lt b _)) by lia. apply Z.compare_lt_iff. lia.
  - destruct (float_of_signs _ _ Mb Ma Nb Na) as [_ ->]. intros [= <-].
    destruct (_ && _); [by left|right]. rewrite (proj2 (Z.ltb_lt _ _)), (proj2 (Z.ltb_ge b _)) by lia. apply Z.compare_gt_iff. lia.
  - rewrite float_of_compare by done. intros [= <-]. right.
    rewrite (proj2 (Z.ltb_lt _ _)), (proj2 (Z.ltb_lt b _)) by lia. rewrite Da, Db.
    destruct (Z.compare_spec (a + 2 ^ 63) (b + 2 ^ 63)), (Z.compare_spec a b); try done; lia.
Qed.

(** C39. Written floats compare bytewise as their values do, and so do
    concatenations; a float is read back to the bit, NaNs included, with what
    follows left.  A reader that ends within the eight bytes is not noticed:
    the missing bytes are taken for zeros. *)
Theorem floats_sort a b x y buf tl short :
  in_u64 a -> in_u64 b -> (0 < length short < 8)%nat ->
  (forall c, SFcompare (value a) (value b) = Some c -> c <> Eq -> memcmp (encoded a ++ x) (encoded b ++ y) = c) /\
  WriteFloat64 buffer_Write buf a = (buf ++ encoded a, 8, None) /\
  ReadFloat64 buffer_Read (encoded a ++ tl) = (a, 8, None, tl) /\
  ReadFloat64 buffer_Read short =
    (unsort_bits (of_be (short ++ replicate (8 - length short) 0)), Z.of_nat (length short), None, []).
Proof.
  intros Ha Hb Hs. split; [|split; [|split]].
  - intros c Hc Hne. unfold encoded. rewrite memcmp_be by by apply sort_bits_range.
    destruct (sorted_bits a b c Ha Hb Hc) as [?| ->]; [done|]. by destruct c.
  - done.
  - unfold ReadFloat64, buffer_Read, encoded. destruct (be 8 (sort_bits a) ++ tl) as [|z l] eqn:E; [done|].
    rewrite <-E, (take_app_length' _ _ 8), (drop_app_length' _ _ 8) by (by rewrite length_be).
    rewrite length_be. cbn [replicate Nat.sub]. rewrite app_nil_r, of_be_spec by by apply sort_bits_range.
    by rewrite unsort_sort.
  - unfold ReadFloat64, buffer_Read. destruct short as [|z l] eqn:E; [cbn in Hs; lia|]. rewrite <-E in *.
    rewrite take_ge, drop_ge by lia. done.
Qed.

(** 1.5 and -2, and half of an encoding. *)
Lemma floats_sort_witness :
  memcmp (encoded 0xC000000000000000) (encoded 0x3FF8000000000000) = Lt /\
  ReadFloat64 buffer_Read (encoded 0x3FF8000000000000) = (0x3FF8000000000000, 8, None, []) /\
  ReadFloat64 buffer_Read [0xBF; 0xF8; 0; 0] = (0x3FF8000000000000, 4, None, []).
Proof.
  destruct (floats_sort 0xC000000000000000 0x3FF8000000000000 [] [] [] [] [0xBF; 0xF8; 0; 0]) as (H1 & _ & _ & H4);
    [unfold in_u64; lia..|cbn; lia|].
  destruct (floats_sort 0x3FF8000000000000 0x3FF8000000000000 [] [] [] [] [0]) as (_ & _ & H3 & _);
    [unfold in_u64; lia..|cbn; lia|].
  rewrite !app_nil_r in *. split; [apply H1; [vm_compute; reflexivity|discriminate]|]. split; [exact H3|exact H4].
Defined.
