(* ===== verification/AuthDB.v ===== *)
(** Identities (server/auth/identity), identity globs, and the in-memory
    snapshot of the authorisation database (server/auth/authdb/snapshot.go). *)
From S2P Require Import Prelude.
From stdpp Require Import fin_maps.
Local Open Scope string_scope.

(** * Strings *)

(** [strings.SplitN(s, ":", 2)] when it yields two chunks. *)
Fixpoint splitColon (s : string) : option (string * string) :=
  match s with
  | "" => None
  | String c s =>
      if Ascii.eqb c ":"%char then Some ("", s)
      else match splitColon s with
      | Some (a, b) => Some (String c a, b)
      | None => None
      end
  end.

Fixpoint string_forallb (f : ascii -> bool) (s : string) : bool :=
  match s with "" => true | String c s => f c && string_forallb f s end.

Definition in_range (lo hi c : ascii) : bool :=
  (Ascii.nat_of_ascii lo <=? Ascii.nat_of_ascii c)%nat && (Ascii.nat_of_ascii c <=? Ascii.nat_of_ascii hi)%nat.

Definition is_digit (c : ascii) : bool := in_range "0" "9" c.
Definition is_lower (c : ascii) : bool := in_range "a" "z" c.
Definition is_upper (c : ascii) : bool := in_range "A" "Z" c.
Definition one_of (l : string) (c : ascii) : bool :=
  existsb (Ascii.eqb c) (String.list_ascii_of_string l).

(** * Identities (identity.go) *)
Definition Identity := string.
Definition Kind := string.
Definition Anonymous : Kind := "anonymous".
Definition Bot : Kind := "bot".
Definition Service : Kind := "service".
Definition User : Kind := "user".
Definition AnonymousIdentity : Identity := "anonymous:anonymous".

(** Splits at the only [@] of a string that matches
    [^[0-9a-zA-Z_\-\.\+]+@[0-9a-z_\-\.]+$]: neither class contains [@]. *)
Fixpoint splitAt (s : string) : option (string * string) :=
  match s with
  | "" => None
  | String c s =>
      if Ascii.eqb c "@"%char then Some ("", s)
      else match splitAt s with
      | Some (a, b) => Some (String c a, b)
      | None => None
      end
  end.

Definition nonempty (s : string) : bool := match s with "" => false | _ => true end.

Definition matchAnonymous (s : string) : bool := String.eqb s "anonymous".
Definition matchBot (s : string) : bool :=
  nonempty s && string_forallb (fun c => is_digit c || is_lower c || is_upper c || one_of "_-.@" c) s.
Definition matchService (s : string) : bool :=
  nonempty s && string_forallb (fun c => is_digit c || is_lower c || is_upper c || one_of "_-:." c) s.
Definition matchUser (s : string) : bool :=
  match splitAt s with
  | None => false
  | Some (a, b) =>
      nonempty a && string_forallb (fun c => is_digit c || is_lower c || is_upper c || one_of "_-.+" c) a &&
      nonempty b && string_forallb (fun c => is_digit c || is_lower c || one_of "_-." c) b
  end.

(** The map from kinds to the regular expression of their values. *)
Definition knownKinds (k : Kind) : option (string -> bool) :=
  if String.eqb k Anonymous then Some matchAnonymous
  else if String.eqb k Bot then Some matchBot
  else if String.eqb k Service then Some matchService
  else if String.eqb k User then Some matchUser
  else None.

Inductive IdentityError := ErrBadIdentity | ErrBadKind | ErrBadValue.

(** [None] is a nil error. *)
Definition Validate (id : Identity) : option IdentityError :=
  match splitColon id with
  | None => Some ErrBadIdentity
  | Some (kind, value) =>
      match knownKinds kind with
      | None => Some ErrBadKind
      | Some re => if re value then None else Some ErrBadValue
      end
  end.

Definition MakeIdentity (identity : string) : result IdentityError Identity :=
  match Validate identity with Some e => Err e | None => Ok identity end.

Definition Identity_Kind (id : Identity) : Kind :=
  match splitColon id with None => Anonymous | Some (k, _) => k end.
Definition Identity_Value (id : Identity) : string :=
  match splitColon id with None => "anonymous" | Some (_, v) => v end.
Definition Identity_Email (id : Identity) : string :=
  match splitColon id with
  | None => ""
  | Some (k, v) => if String.eqb k User then v else ""
  end.

(** * Globs (glob.go) *)
Definition Glob := string.

Definition newline : ascii := "010".

Fixpoint contains_newline (s : string) : bool :=
  match s with "" => false | String c s => Ascii.eqb c newline || contains_newline s end.

(** The regular expression [translate] makes of a pattern: [.*] for a star and
    the quoted character otherwise, anchored at both ends.  Names and patterns
    are ASCII or valid UTF-8, where matching bytes is matching runes. *)
Inductive RegexItem := AnyStar | Lit (c : ascii).

Fixpoint translate_items (pat : string) : option (list RegexItem) :=
  match pat with
  | "" => Some []
  | String c pat =>
      if Ascii.eqb c newline then None
      else match translate_items pat with
      | None => None
      | Some r => Some ((if Ascii.eqb c "*"%char then AnyStar else Lit c) :: r)
      end
  end.

(** [re.MatchString] of such an expression: [.] is any character but a newline. *)
Fixpoint matchItems (re : list RegexItem) (s : string) : bool :=
  match re with
  | [] => match s with "" => true | _ => false end
  | Lit c :: re =>
      match s with String x s => Ascii.eqb x c && matchItems re s | "" => false end
  | AnyStar :: re =>
      (fix star s := matchItems re s ||
         match s with "" => false | String x s => negb (Ascii.eqb x newline) && star s end) s
  end.

(** [patternCache]: the translations made so far, errors included; a lookup
    that misses starts afresh when more than 500 are held. *)
Notation patternCache := (gmap string (option (list RegexItem))).

Definition cache_translate (c : patternCache) (pat : string)
  : option (list RegexItem) * patternCache :=
  match c !! pat with
  | Some v => (v, c)
  | None =>
      let c := if (500 <? size c)%nat then ∅ else c in
      let v := translate_items pat in
      (v, <[pat := v]> c)
  end.

(** The cache is transparent ([cache_translate_transparent]), so matching is
    stated without it. *)
Definition Glob_Match (g : Glob) (id : Identity) : bool :=
  match splitColon g with
  | None => false
  | Some (globKind, pattern) =>
      match knownKinds globKind with
      | None => false
      | Some _ =>
          match splitColon id with
          | None => false
          | Some (idKind, name) =>
              match knownKinds idKind with
              | None => false
              | Some _ =>
                  if negb (String.eqb idKind globKind) then false
                  else if contains_newline name then false
                  else match translate_items pattern with
                  | None => false
                  | Some re => matchItems re name
                  end
              end
          end
      end
  end.

Inductive GlobError := ErrBadGlob | ErrBadGlobKind | ErrEmptyGlob | ErrBadPattern.

Definition Glob_Validate (g : Glob) : option GlobError :=
  match splitColon g with
  | None => Some ErrBadGlob
  | Some (k, pattern) =>
      match knownKinds k with
      | None => Some ErrBadGlobKind
      | Some _ =>
          if String.eqb pattern "" then Some ErrEmptyGlob
          else match translate_items pattern with
          | None => Some ErrBadPattern
          | Some _ => None
          end
      end
  end.

Definition MakeGlob (glob : string) : result GlobError Glob :=
  match Glob_Validate glob with Some e => Err e | None => Ok glob end.

Definition Glob_Kind (g : Glob) : Kind :=
  match splitColon g with None => Anonymous | Some (k, _) => k end.
Definition Glob_Pattern (g : Glob) : string :=
  match splitColon g with None => "" | Some (_, p) => p end.

Example id_ok : map Validate ["user:a.b+c@example.com"; "bot:a@1"; "anonymous:anonymous"; "user:a@B"; "x:1"; "user"] =
  [None; None; None; Some ErrBadValue; Some ErrBadKind; Some ErrBadIdentity].
Proof. reflexivity. Qed.
Example glob_ok : Glob_Match "user:*@example.com" "user:me@example.com" = true /\
  Glob_Match "user:*@example.com" "user:me@example.org" = false /\
  Glob_Match "bot:*" "user:me@example.org" = false.
Proof. repeat split; reflexivity. Qed.

Local Open Scope list_scope.

(** * The authorisation database (protocol.AuthDB) *)
Record AuthGroup := {
  GetName : string; GetMembers : list string; GetGlobs : list string; GetNested : list string
}.

Record AuthDB := {
  GetTokenServerUrl : string;
  GetOauthClientId : string;
  GetOauthAdditionalClientIds : list string;
  GetGroups : list AuthGroup;
  GetIpWhitelistAssignments : list (string * string);
  GetIpWhitelists : list (string * list string)
}.

(** [net.IPNet] and [net.IP] as bytes; [Contains] is that of the Go library. *)
Record IPNet := { netIP : bytes; netMask : bytes }.

(** [IP.To4]: 4 bytes, or 16 bytes with the IPv4-in-IPv6 prefix. *)
Definition To4 (ip : bytes) : option bytes :=
  if bool_decide (List.length ip = 4%nat) then Some ip
  else if bool_decide (List.length ip = 16%nat /\ take 12 ip = replicate 10 0%Z ++ [255%Z; 255%Z])
  then Some (drop 12 ip) else None.

(** A nil result is a pair of empty slices. *)
Definition networkNumberAndMask (n : IPNet) : bytes * bytes :=
  let ip := match To4 (netIP n) with Some ip4 => Some ip4
            | None => if bool_decide (List.length (netIP n) = 16%nat) then Some (netIP n) else None end in
  match ip with
  | None => ([], [])
  | Some ip =>
      if bool_decide (List.length (netMask n) = 4%nat)
      then if bool_decide (List.length ip = 4%nat) then (ip, netMask n) else ([], [])
      else if bool_decide (List.length (netMask n) = 16%nat)
      then (ip, if bool_decide (List.length ip = 4%nat) then drop 12 (netMask n) else netMask n)
      else ([], [])
  end.

Definition IPNet_Contains (n : IPNet) (ip : bytes) : bool :=
  let ip := match To4 ip with Some ip4 => ip4 | None => ip end in
  let '(nn, m) := networkNumberAndMask n in
  bool_decide (List.length ip = List.length nn) &&
  forallb (fun '(a, b, k) => Z.land a k =? Z.land b k)%Z (zip (zip nn ip) m).

(** * Snapshots

    A [*group] is allocated once per group name and only reached through
    [db.groups], so pointers are names here. *)
Record group := {
  members : gset Identity; globs : list Glob; nested : list string
}.

Record SnapshotDB := {
  AuthServiceURL : string;
  Rev : Z;
  tokenServiceURL : string;
  clientIDs : gset string;
  groups : gmap string group;
  assignments : gmap Identity string;
  whitelists : gmap string (list IPNet)
}.

Inductive SnapshotError :=
| ErrGroupListedTwice (name : string)
| ErrBadSubnet (subnet whitelist : string).

Definition googleAPIExplorerClientID : string := "292824132082.apps.googleusercontent.com".

(** First pass: the nodes, with no edges yet. *)
Fixpoint buildGroups (gs : list AuthGroup) (acc : gmap string group)
  : result SnapshotError (gmap string group) :=
  match gs with
  | [] => Ok acc
  | g :: gs =>
      match acc !! GetName g with
      | Some _ => Err (ErrGroupListedTwice (GetName g))
      | None =>
          buildGroups gs (<[GetName g := {| members := list_to_set (GetMembers g);
                                            globs := GetGlobs g; nested := [] |}]> acc)
      end
  end.

(** Second pass: the edges to the groups that exist. *)
Definition linkGroup (acc : gmap string group) (g : AuthGroup) : gmap string group :=
  alter (fun gr => {| members := members gr; globs := globs gr;
           nested := nested gr ++ filter (fun n => is_Some (acc !! n)) (GetNested g) |})
        (GetName g) acc.

Section ParseCIDR.
(** [net.ParseCIDR], the network it returns. *)
Variable ParseCIDR : string -> option IPNet.

Fixpoint parseSubnets (wl : string) (l : list string) : result SnapshotError (list IPNet) :=
  match l with
  | [] => Ok []
  | s :: l =>
      match ParseCIDR s with
      | None => Err (ErrBadSubnet s wl)
      | Some n => rest ← parseSubnets wl l; Ok (n :: rest)
      end
  end.

Fixpoint buildWhitelists (ws : list (string * list string)) (acc : gmap string (list IPNet))
  : result SnapshotError (gmap string (list IPNet)) :=
  match ws with
  | [] => Ok acc
  | (name, subnets) :: ws =>
      match subnets with
      | [] => buildWhitelists ws acc
      | _ => nets ← parseSubnets name subnets; buildWhitelists ws (<[name := nets]> acc)
      end
  end.

Definition NewSnapshotDB (authDB : AuthDB) (authServiceURL : string) (rev : Z)
  : result SnapshotError SnapshotDB :=
  let clientIDs := {[ googleAPIExplorerClientID ]} ∪
    list_to_set (filter (fun cid => cid <> "")
      (GetOauthClientId authDB :: GetOauthAdditionalClientIds authDB)) in
  gs ← buildGroups (GetGroups authDB) ∅;
  let gs := foldl linkGroup gs (GetGroups authDB) in
  let assignments := foldl (fun m '(i, w) => <[i := w]> m) ∅ (GetIpWhitelistAssignments authDB) in
  ws ← buildWhitelists (GetIpWhitelists authDB) ∅;
  Ok {| AuthServiceURL := authServiceURL; Rev := rev;
        tokenServiceURL := GetTokenServerUrl authDB; clientIDs := clientIDs; groups := gs;
        assignments := assignments; whitelists := ws |}.
End ParseCIDR.

Definition direct_member (gr : group) (id : Identity) : bool :=
  bool_decide (id ∈ members gr) || existsb (fun g => Glob_Match g id) (globs gr).

(** The loop over the nested groups ([outer_loop]): [current] is the stack of
    groups being explored, [rec] explores one group. *)
Fixpoint outer_loop (rec : string -> gset string -> option (bool * gset string))
    (current : list string) (l : list string) (visited : gset string) : option (bool * gset string) :=
  match l with
  | [] => Some (false, visited)
  | n :: l =>
      if decide (n ∈ current) then outer_loop rec current l visited
      else if decide (n ∈ visited) then outer_loop rec current l visited
      else match rec n visited with
      | Some (false, visited) => outer_loop rec current l visited
      | r => r
      end
  end.

(** The closure [isMember]: a depth-first search, its result paired with the
    groups visited.  [None] is running out of fuel. *)
Fixpoint isMember (gs : gmap string group) (id : Identity) (fuel : nat) (name : string)
    (current : list string) (visited : gset string) : option (bool * gset string) :=
  match fuel with
  | O => None
  | S fuel =>
      match gs !! name with
      | None => Some (false, visited)
      | Some gr =>
          if direct_member gr id then Some (true, visited)
          else match nested gr with
          | [] => Some (false, visited)
          | _ =>
              let current := current ++ [name] in
              '(found, visited) ← outer_loop (fun n v => isMember gs id fuel n current v)
                                            current (nested gr) visited;
              Some (found, {[name]} ∪ visited)
          end
      end
  end.

(** The stack never holds a group twice, so as many rounds as there are groups
    are enough ([isMemberImpl_spec]). *)
Definition isMemberImpl (db : SnapshotDB) (id : Identity) (groupName : string) : option bool :=
  fst <$> isMember (groups db) id (S (size (groups db))) groupName [] ∅.

Fixpoint IsMember (db : SnapshotDB) (id : Identity) (gs : list string) : option bool :=
  match gs with
  | [] => Some false
  | g :: gs =>
      match isMemberImpl db id g with
      | Some true => Some true
      | Some false => IsMember db id gs
      | None => None
      end
  end.

Definition IsAllowedOAuthClientID (db : SnapshotDB) (email clientID : string) : bool :=
  let suffix := ".gserviceaccount.com" in
  if bool_decide (String.length suffix <= String.length email)%nat &&
     String.eqb (String.substring (String.length email - String.length suffix)
                                  (String.length suffix) email) suffix
  then true
  else if String.eqb clientID "" then false
  else bool_decide (clientID ∈ clientIDs db).

Definition GetWhitelistForIdentity (db : SnapshotDB) (ident : Identity) : string :=
  default "" (assignments db !! ident).

Definition IsInWhitelist (db : SnapshotDB) (ip : bytes) (whitelist : string) : bool :=
  existsb (fun n => IPNet_Contains n ip) (default [] (whitelists db !! whitelist)).

Definition GetTokenServiceURL (db : SnapshotDB) : string := tokenServiceURL db.

(** * Correctness of the group search *)
Section Search.
Context (gs : gmap string group) (id : Identity).

Definition edge (a b : string) : Prop := exists gr, gs !! a = Some gr /\ b ∈ nested gr.
Definition hit (a : string) : Prop := exists gr, gs !! a = Some gr /\ direct_member gr id = true.

(** A group that cannot lead to the identity and has nothing below it. *)
Definition safe_leaf (a : string) : Prop := ~ hit a /\ forall b, ~ edge a b.

(** What has been visited is closed, up to the groups on the stack. *)
Definition explored (v : gset string) (cur : list string) : Prop :=
  forall x, x ∈ v -> ~ hit x /\ forall y, edge x y -> y ∈ v \/ y ∈ cur \/ safe_leaf y.

Definition found (a : string) : Prop := exists h, rtc edge a h /\ hit h.

Definition search_post (name : string) (cur : list string) (v : gset string)
    (r : option (bool * gset string)) : Prop :=
  match r with
  | None => False
  | Some (true, _) => found name
  | Some (false, v') => v ⊆ v' /\ explored v' cur /\ (name ∈ v' \/ safe_leaf name)
  end.

Lemma explored_mono v cur cur' : cur ⊆ cur' -> explored v cur -> explored v cur'.
Proof.
  intros Hs He x Hx. destruct (He x Hx) as [H1 H2]. split; [done|].
  intros y Hy. destruct (H2 y Hy) as [?|[?|?]]; auto.
Qed.

Lemma stack_bound (cur : list string) :
  NoDup cur -> (forall x, x ∈ cur -> is_Some (gs !! x)) -> (List.length cur <= size gs)%nat.
Proof.
  intros Hnd Hin. rewrite <-size_dom, <-(size_list_to_set (C:=gset string)) by done.
  apply subseteq_size. intros x. rewrite elem_of_list_to_set, elem_of_dom. auto.
Qed.

Lemma outer_loop_post rec cur v l :
  (forall n w, n ∉ cur -> explored w cur -> search_post n cur w (rec n w)) ->
  explored v cur ->
  match outer_loop rec cur l v with
  | None => False
  | Some (true, _) => exists n, n ∈ l /\ found n
  | Some (false, v') => v ⊆ v' /\ explored v' cur /\
      forall n, n ∈ l -> n ∈ v' \/ n ∈ cur \/ safe_leaf n
  end.
Proof.
  intros Hrec. revert v. induction l as [|n l IHl]; intros v Hv; cbn.
  { split; [done|]. split; [done|]. set_solver. }
  assert (Hskip : n ∈ cur \/ n ∈ v -> match outer_loop rec cur l v with
    | None => False | Some (true, _) => exists n', n' ∈ n :: l /\ found n'
    | Some (false, v') => v ⊆ v' /\ explored v' cur /\
        forall n', n' ∈ n :: l -> n' ∈ v' \/ n' ∈ cur \/ safe_leaf n' end).
  { intros Hn. specialize (IHl v Hv). destruct (outer_loop rec cur l v) as [[[] w]|]; [set_solver| |done].
    destruct IHl as (? & ? & Hl). split; [done|]. split; [done|].
    intros n' [->|?]%elem_of_cons; [set_solver|auto]. }
  destruct (decide (n ∈ cur)) as [Hc|Hc]; [exact (Hskip (or_introl Hc))|].
  destruct (decide (n ∈ v)) as [Hn|Hn]; [exact (Hskip (or_intror Hn))|]. clear Hskip.
  specialize (Hrec n v Hc Hv). destruct (rec n v) as [[[] w]|]; [set_solver| |done].
  destruct Hrec as (Hsub & Hw & Hnw). specialize (IHl w Hw).
  destruct (outer_loop rec cur l w) as [[[] w']|]; [set_solver| |done].
  destruct IHl as (? & ? & Hl). split; [set_solver|]. split; [done|].
  intros n' [->|?]%elem_of_cons; [|auto]. destruct Hnw as [?|?]; [left; set_solver|auto].
Qed.

(** Popping a group whose nested groups are all accounted for. *)
Lemma explored_pop w cur name :
  explored w (cur ++ [name]) -> ~ hit name ->
  (forall y, edge name y -> y ∈ w \/ y ∈ cur ++ [name] \/ safe_leaf y) ->
  explored ({[name]} ∪ w) cur.
Proof.
  intros Hw Hn Hall x Hx.
  assert (H : ~ hit x /\ forall y, edge x y -> y ∈ w \/ y ∈ cur ++ [name] \/ safe_leaf y).
  { destruct (decide (x = name)) as [->|Hne]; [done|]. apply Hw. set_solver. }
  destruct H as [H1 H2]. split; [done|]. intros y Hy. specialize (H2 y Hy). set_solver.
Qed.

Lemma isMember_post fuel name cur v :
  (size gs < fuel + List.length cur)%nat -> NoDup cur -> name ∉ cur ->
  (forall x, x ∈ cur -> is_Some (gs !! x)) -> explored v cur ->
  search_post name cur v (isMember gs id fuel name cur v).
Proof.
  revert name cur v. induction fuel as [|fuel IH]; intros name cur v Hf Hnd Hni Hdom Hex.
  { pose proof (stack_bound cur Hnd Hdom). lia. }
  cbn [isMember]. destruct (gs !! name) as [gr|] eqn:Eg.
  2:{ split; [done|]. split; [done|]. right.
      split; [intros (g & ? & _)|intros b (g & ? & _)]; congruence. }
  destruct (direct_member gr id) eqn:Ed.
  { exists name. split; [done|]. by exists gr. }
  assert (Hnh : ~ hit name) by (intros (g & ? & ?); congruence).
  assert (Hedge : forall b, edge name b <-> b ∈ nested gr).
  { intros b. split; [intros (g & ? & ?); congruence|by exists gr]. }
  destruct (nested gr) as [|n0 ns] eqn:En.
  { split; [done|]. split; [done|]. right. split; [done|].
    intros b Hb. apply Hedge in Hb. set_solver. }
  set (cur' := cur ++ [name]). rewrite <-En in *. clear En.
  opose proof* (outer_loop_post (fun n w => isMember gs id fuel n cur' w) cur' v (nested gr)) as H.
  { intros n w Hn Hw. apply IH; [| |exact Hn| |exact Hw].
    - subst cur'. rewrite length_app. cbn. lia.
    - apply NoDup_app. split; [done|]. split; [|apply NoDup_singleton]. set_solver.
    - intros x [?|Hx]%elem_of_app; [auto|]. apply list_elem_of_singleton in Hx as ->. eauto. }
  { eapply explored_mono; [|done]. subst cur'. set_solver. }
  destruct (outer_loop _ _ _ _) as [[[] w]|]; cbn; [| |done].
  - destruct H as (n & Hn & h & Hr & Hh). exists h. split; [|done].
    eapply rtc_l; [by apply Hedge|done].
  - destruct H as (Hvw & Hw & Hall). split; [set_solver|]. split; [|set_solver].
    apply explored_pop; [done..|]. intros y Hy%Hedge. auto.
Qed.

(** The search terminates and is exact, with cycles and diamonds in the graph. *)
Lemma isMember_exact name :
  exists b v, isMember gs id (S (size gs)) name [] ∅ = Some (b, v) /\ (b = true <-> found name).
Proof.
  pose proof (isMember_post (S (size gs)) name [] ∅ ltac:(cbn; lia) ltac:(constructor)
    ltac:(set_solver) ltac:(set_solver) ltac:(intros x Hx; set_solver)) as H.
  unfold search_post in H.
  destruct (isMember gs id (S (size gs)) name [] ∅) as [[b v]|]; [|done].
  exists b, v. split; [done|]. destruct b; [done|]. split; [done|].
  destruct H as (_ & Hex & Hname). intros (h & Hr & Hh). exfalso. revert Hh.
  assert (Hall : h ∈ v \/ safe_leaf h).
  { induction Hr as [x|x y z Hxy _ IH]; [done|]. apply IH.
    destruct Hname as [Hx|[_ Hx]]; [|by apply Hx in Hxy].
    destruct (Hex x Hx) as [_ H2]. destruct (H2 y Hxy) as [?|[?|?]]; auto. set_solver. }
  destruct Hall as [Hv|[Hn _]]; [|done]. by destruct (Hex h Hv).
Qed.
End Search.

(** * The cache of translated patterns (glob.go, patternCache) *)
Section Globs.

(** What a glob pattern means. *)
Inductive pattern_matches : string -> string -> Prop :=
| pm_nil : pattern_matches "" ""
| pm_lit c p s : c <> "*"%char -> pattern_matches p s -> pattern_matches (String c p) (String c s)
| pm_star_skip p s : pattern_matches p s -> pattern_matches (String "*" p) s
| pm_star_take c p s : pattern_matches (String "*" p) s -> pattern_matches (String "*" p) (String c s).

Lemma newline_dec c : Ascii.eqb c newline = true <-> c = newline.
Proof. apply Ascii.eqb_eq. Qed.

Lemma translate_newline p : translate_items p = None <-> contains_newline p = true.
Proof.
  induction p as [|c p IH]; [done|]. cbn. destruct (Ascii.eqb c newline); [done|].
  destruct (translate_items p); naive_solver.
Qed.

Lemma matchItems_sound p re s :
  translate_items p = Some re -> matchItems re s = true -> pattern_matches p s.
Proof.
  revert re s. induction p as [|c p IH]; intros re s; cbn.
  { intros [= <-]. destruct s; [constructor|done]. }
  destruct (Ascii.eqb c newline); [done|]. destruct (translate_items p) as [re'|]; [|done].
  intros [= <-]. destruct (Ascii.eqb_spec c "*") as [->|Hc].
  - induction s as [|x s IHs]; cbn; rewrite orb_true_iff, ?andb_true_iff.
    + intros [H|H]; [|done]. apply pm_star_skip. eauto.
    + intros [H|[_ H]]; [apply pm_star_skip; eauto|]. apply pm_star_take, IHs, H.
  - destruct s as [|x s]; [done|]. cbn. rewrite andb_true_iff, Ascii.eqb_eq. intros [-> H].
    apply pm_lit; eauto.
Qed.

Lemma matchItems_complete p re s :
  translate_items p = Some re -> contains_newline s = false ->
  pattern_matches p s -> matchItems re s = true.
Proof.
  intros Ht Hn H. revert re Ht. induction H as [|c p s Hc H IH|p s H IH|c p s H IH]; intros re; cbn.
  - by intros [= <-].
  - destruct (Ascii.eqb c newline) eqn:E; [done|].
    destruct (translate_items p) as [re'|]; [|done].
    apply Ascii.eqb_neq in Hc as Hc'. rewrite Hc'. intros [= <-]. cbn.
    rewrite Ascii.eqb_refl. cbn in *. rewrite E in Hn. auto.
  - destruct (translate_items p) as [re'|]; [|done]. cbn. intros [= <-]. cbn.
    destruct s; cbn; rewrite IH; auto.
  - cbn in IH. cbn in Hn. apply orb_false_iff in Hn as [Hn Hs]. specialize (IH Hs).
    destruct (translate_items p) as [re'|]; [|done]. cbn in *. intros [= <-]. cbn. rewrite Hn. cbn.
    rewrite orb_true_iff. right. apply (IH _ eq_refl).
Qed.

Lemma translate_items_match p s :
  contains_newline s = false ->
  match translate_items p with None => false | Some re => matchItems re s end = true <->
  contains_newline p = false /\ pattern_matches p s.
Proof.
  intros Hs. pose proof (translate_newline p) as Hn. destruct (translate_items p) as [re|] eqn:E.
  - assert (contains_newline p = false) as -> by (destruct (contains_newline p); naive_solver).
    split; [intros H; split; [done|by eapply matchItems_sound]|].
    intros [_ H]. by eapply matchItems_complete.
  - destruct Hn as [Hn _]. rewrite Hn by done. split; [done|]. by intros [].
Qed.
End Globs.

Lemma splitColon_some s a b :
  splitColon s = Some (a, b) <->
  s = (a ++ ":" ++ b)%string /\ string_forallb (fun c => negb (Ascii.eqb c ":")) a = true.
Proof.
  revert a. induction s as [|c s IH]; intros a; cbn.
  { split; [done|]. intros [H _]. by destruct a. }
  destruct (Ascii.eqb_spec c ":") as [->|Hc].
  - split; [intros [= <- <-]; done|]. intros [H Ha]. destruct a as [|d a]; cbn in *; [by injection H as ->|].
    injection H as <- _. done.
  - apply Ascii.eqb_neq in Hc as Hc'. split.
    + destruct (splitColon s) as [[a' b']|] eqn:E; [|done]. intros [= <- <-].
      destruct (proj1 (IH a') eq_refl) as [-> Ha]. cbn. by rewrite Hc'.
    + intros [H Ha]. destruct a as [|d a]; [by injection H as -> _|].
      cbn in H, Ha. injection H as <- H. rewrite Hc' in Ha. cbn in Ha. destruct (splitColon s) as [[a' b']|].
      * specialize (proj2 (IH a) (conj H Ha)). by intros [= <- <-].
      * specialize (proj2 (IH a) (conj H Ha)). done.
Qed.

(** A known kind and a value its regular expression accepts. *)
Definition valid_value (k : Kind) (v : string) : Prop :=
  exists re, knownKinds k = Some re /\ re v = true.

Lemma knownKinds_nocolon k re :
  knownKinds k = Some re -> string_forallb (fun c => negb (Ascii.eqb c ":")) k = true.
Proof.
  unfold knownKinds.
  destruct (String.eqb_spec k Anonymous) as [->|_]; [done|].
  destruct (String.eqb_spec k Bot) as [->|_]; [done|].
  destruct (String.eqb_spec k Service) as [->|_]; [done|].
  by destruct (String.eqb_spec k User) as [->|_].
Qed.

Lemma Validate_spec id :
  Validate id = None <-> exists k v, id = (k ++ ":" ++ v)%string /\ valid_value k v.
Proof.
  unfold Validate, valid_value. split.
  - destruct (splitColon id) as [[k v]|] eqn:E; [|done]. apply splitColon_some in E as [-> _].
    destruct (knownKinds k) as [re|] eqn:Ek; [|done]. destruct (re v) eqn:Er; [|done]. eauto 10.
  - intros (k & v & -> & re & Hk & Hv).
    rewrite (proj2 (splitColon_some _ k v)) by eauto using knownKinds_nocolon.
    by rewrite Hk, Hv.
Qed.

Lemma isMemberImpl_spec db id g :
  exists b, isMemberImpl db id g = Some b /\ (b = true <-> found (groups db) id g).
Proof.
  destruct (isMember_exact (groups db) id g) as (b & v & H & Hb).
  exists b. unfold isMemberImpl. by rewrite H.
Qed.

Lemma IsMember_spec db id gs :
  exists b, IsMember db id gs = Some b /\ (b = true <-> Exists (found (groups db) id) gs).
Proof.
  induction gs as [|g gs (b & IH & Hb)]; cbn [IsMember].
  { exists false. split; [done|]. by rewrite Exists_nil. }
  destruct (isMemberImpl_spec db id g) as (b' & -> & Hb'). setoid_rewrite Exists_cons.
  destruct b'; [exists true; naive_solver|]. exists b. naive_solver.
Qed.

Lemma NoDup_fst_unique {A B} (l : list (A * B)) k a b :
  NoDup (map fst l) -> (k, a) ∈ l -> (k, b) ∈ l -> a = b.
Proof.
  induction l as [|[k' c] l IH]; cbn; [set_solver|]. rewrite NoDup_cons.
  intros [Hn Hnd] [[= <- <-]|Ha]%elem_of_cons [[= E]|Hb]%elem_of_cons; [done| | |by apply IH].
  - destruct Hn. by apply (list_elem_of_fmap_2 fst _ (k, b)).
  - destruct Hn. subst. by apply (list_elem_of_fmap_2 fst _ (k', a)).
Qed.

Section Snapshot.
Context (ParseCIDR : string -> option IPNet).

Lemma buildGroups_ok gs acc :
  (forall m, buildGroups gs acc = Ok m -> NoDup (map GetName gs) /\
    (forall g, g ∈ gs -> acc !! GetName g = None) /\
    forall n, m !! n = match acc !! n with Some x => Some x | None =>
      (fun g => {| members := list_to_set (GetMembers g); globs := GetGlobs g; nested := [] |}) <$>
      List.find (fun g => String.eqb (GetName g) n) gs end).
Proof.
  revert acc. induction gs as [|g gs IH]; intros acc m; cbn.
  { intros [= <-]. split; [constructor|]. split; [set_solver|]. intros n. by destruct (acc !! n). }
  destruct (acc !! GetName g) eqn:E; [done|]. intros H. apply IH in H as (Hnd & Hacc & Hm).
  assert (Hni : GetName g ∉ map GetName gs).
  { intros (g' & Hg & Hin)%list_elem_of_fmap. specialize (Hacc g' Hin).
    rewrite <-Hg, lookup_insert_eq in Hacc. done. }
  split; [by constructor|]. split.
  - intros g' [->|Hin]%elem_of_cons; [done|]. specialize (Hacc g' Hin).
    by apply lookup_insert_None in Hacc as [? _].
  - intros n. rewrite Hm. destruct (String.eqb_spec (GetName g) n) as [<-|Hne].
    + by rewrite lookup_insert_eq, E.
    + by rewrite lookup_insert_ne.
Qed.

Lemma find_name gs n g : NoDup (map GetName gs) ->
  List.find (fun g => String.eqb (GetName g) n) gs = Some g <-> g ∈ gs /\ GetName g = n.
Proof.
  intros Hnd. split.
  - intros H. apply List.find_some in H as [H ->%String.eqb_eq]. by apply list_elem_of_In in H.
  - intros [Hg <-]. induction gs as [|g' gs IH]; [set_solver|]. cbn in *.
    apply NoDup_cons in Hnd as [Hn Hnd]. apply elem_of_cons in Hg as [->|Hg].
    + by rewrite String.eqb_refl.
    + destruct (String.eqb_spec (GetName g') (GetName g)) as [E|_]; [|auto].
      destruct Hn. rewrite E. by apply list_elem_of_fmap_2.
Qed.

Lemma find_none gs n :
  List.find (fun g => String.eqb (GetName g) n) gs = None <-> n ∉ map GetName gs.
Proof.
  split.
  - intros H (g & -> & Hg)%list_elem_of_fmap. eapply List.find_none in H; [|by apply list_elem_of_In].
    by rewrite String.eqb_refl in H.
  - intros H. destruct (List.find _ _) as [g|] eqn:E; [|done]. apply List.find_some in E as [Hg <-%String.eqb_eq].
    destruct H. apply list_elem_of_fmap_2, list_elem_of_In, Hg.
Qed.

Lemma linkGroup_dom m g n : is_Some (linkGroup m g !! n) <-> is_Some (m !! n).
Proof. unfold linkGroup. rewrite lookup_alter. case_decide; [|done]. subst. apply fmap_is_Some. Qed.

Lemma linkGroups_lookup gs m n : NoDup (map GetName gs) ->
  foldl linkGroup m gs !! n =
  (fun gr => match List.find (fun g => String.eqb (GetName g) n) gs with
     | Some g => {| members := members gr; globs := globs gr;
         nested := nested gr ++ filter (fun n => is_Some (m !! n)) (GetNested g) |}
     | None => gr end) <$> m !! n.
Proof.
  revert m. induction gs as [|g gs IH]; intros m Hnd; cbn.
  { by destruct (m !! n). }
  apply NoDup_cons in Hnd as [Hn Hnd]. rewrite IH by done.
  match goal with |- _ <$> ?x = _ => change x with (linkGroup m g !! n) end.
  assert (Hl : linkGroup m g !! n = if decide (GetName g = n) then _ else m !! n) by apply lookup_alter.
  rewrite Hl. clear Hl.
  destruct (String.eqb_spec (GetName g) n) as [<-|Hne].
  - rewrite decide_True by done. rewrite (proj2 (find_none gs (GetName g)) Hn).
    by destruct (m !! GetName g).
  - rewrite decide_False by done. destruct (m !! n) as [gr|]; [|done]. cbn. f_equal.
    destruct (List.find _ gs) as [g'|]; [|done]. f_equal. f_equal.
    apply list_filter_iff. intros x. apply linkGroup_dom.
Qed.

(** The graph a snapshot holds. *)
Lemma snapshot_groups authDB url rev db :
  NewSnapshotDB ParseCIDR authDB url rev = Ok db ->
  NoDup (map GetName (GetGroups authDB)) /\
  forall n gr, groups db !! n = Some gr <-> exists g, g ∈ GetGroups authDB /\ GetName g = n /\
    members gr = list_to_set (GetMembers g) /\ globs gr = GetGlobs g /\
    nested gr = filter (fun n => n ∈ map GetName (GetGroups authDB)) (GetNested g).
Proof.
  unfold NewSnapshotDB. destruct (buildGroups _ _) as [m|] eqn:Eb; [|done]. cbn.
  destruct (buildWhitelists _ _ _); [|done]. cbn. intros [= <-]. cbn.
  apply buildGroups_ok in Eb as (Hnd & _ & Hm). split; [done|].
  assert (Hdom : forall x, is_Some (m !! x) <-> x ∈ map GetName (GetGroups authDB)).
  { intros x. rewrite Hm, lookup_empty, fmap_is_Some. destruct (List.find _ _) as [g|] eqn:E.
    - apply find_name in E as [Hg <-]; [|done]. split; [|by eauto]. intros _. by apply list_elem_of_fmap_2.
    - apply find_none in E. split; [by intros []|done]. }
  intros n [mem gl nst]. rewrite linkGroups_lookup by done. rewrite Hm, lookup_empty.
  destruct (List.find _ _) as [g|] eqn:E; cbn.
  - apply find_name in E as [Hg <-]; [|done].
    rewrite (list_filter_iff _ _ _ Hdom). split.
    + intros [= <- <- <-]. by exists g.
    + intros (g' & Hg' & Heq & -> & -> & ->).
      assert (Some g' = Some g) as [= ->]; [|done].
      rewrite <-(proj2 (find_name _ (GetName g) g' Hnd)), <-(proj2 (find_name _ (GetName g) g Hnd)); done.
  - apply find_none in E. split; [done|]. intros (g & Hg & <- & _). destruct E. by apply list_elem_of_fmap_2.
Qed.

(** Who belongs to a group, read off the database as the auth service sends it. *)
Inductive belongs (authDB : AuthDB) (id : Identity) : string -> Prop :=
| belongs_direct g : g ∈ GetGroups authDB -> id ∈ GetMembers g -> belongs authDB id (GetName g)
| belongs_glob g gl : g ∈ GetGroups authDB -> gl ∈ GetGlobs g -> Glob_Match gl id = true ->
    belongs authDB id (GetName g)
| belongs_nested g n : g ∈ GetGroups authDB -> n ∈ GetNested g -> belongs authDB id n ->
    belongs authDB id (GetName g).

Section Edges.
Context (authDB : AuthDB) (url : string) (rev : Z) (db : SnapshotDB) (id : Identity)
  (Hdb : NewSnapshotDB ParseCIDR authDB url rev = Ok db).

Lemma edge_spec a b : edge (groups db) a b <->
  exists g, g ∈ GetGroups authDB /\ GetName g = a /\ b ∈ GetNested g /\
    b ∈ map GetName (GetGroups authDB).
Proof.
  destruct (snapshot_groups _ _ _ _ Hdb) as [_ Hgr]. split.
  - intros (gr & (g & Hg & Hn & _ & _ & Hne)%Hgr & Hb). rewrite Hne in Hb.
    apply list_elem_of_filter in Hb as [? ?]. by exists g.
  - intros (g & Hg & Hn & Hb & Hb').
    exists {| members := list_to_set (GetMembers g); globs := GetGlobs g;
      nested := filter (fun n => n ∈ map GetName (GetGroups authDB)) (GetNested g) |}.
    split; [apply Hgr; by exists g|]. cbn. by apply list_elem_of_filter.
Qed.

Lemma hit_spec a : hit (groups db) id a <->
  exists g, g ∈ GetGroups authDB /\ GetName g = a /\
    (id ∈ GetMembers g \/ exists gl, gl ∈ GetGlobs g /\ Glob_Match gl id = true).
Proof.
  destruct (snapshot_groups _ _ _ _ Hdb) as [_ Hgr]. unfold hit, direct_member. split.
  - intros (gr & (g & Hg & Hn & Hm & Hgl & _)%Hgr & Hd). exists g. split; [done|]. split; [done|].
    rewrite Hm, Hgl in Hd. apply orb_true_iff in Hd as [Hd|Hd]; [left|right].
    + by rewrite bool_decide_eq_true, elem_of_list_to_set in Hd.
    + apply existsb_exists in Hd as (gl & Hin & Hd). exists gl. by rewrite list_elem_of_In.
  - intros (g & Hg & Hn & Hd).
    exists {| members := list_to_set (GetMembers g); globs := GetGlobs g;
      nested := filter (fun n => n ∈ map GetName (GetGroups authDB)) (GetNested g) |}.
    split; [apply Hgr; by exists g|]. cbn. apply orb_true_iff. destruct Hd as [Hd|(gl & Hin & Hd)].
    + left. by rewrite bool_decide_eq_true, elem_of_list_to_set.
    + right. apply existsb_exists. exists gl. by rewrite <-list_elem_of_In.
Qed.

Lemma found_belongs n : found (groups db) id n <-> belongs authDB id n.
Proof.
  unfold found. split.
  - intros (h & Hr & (g & Hg & <- & Hd)%hit_spec). revert Hr.
    assert (Hh : belongs authDB id (GetName g)).
    { destruct Hd as [Hd|(gl & Hin & Hd)]; [by apply belongs_direct|by eapply belongs_glob]. }
    revert Hh. generalize (GetName g). clear -Hdb. induction 2 as [x|x y z Hxy _ IH]; [done|].
    apply edge_spec in Hxy as (g & Hg & <- & Hy & _). eapply belongs_nested; eauto.
  - induction 1 as [g Hg Hm|g gl Hg Hgl Hm|g n Hg Hn Hb (h & Hr & Hh)].
    + exists (GetName g). split; [done|]. apply hit_spec. exists g. by repeat split; [..|left].
    + exists (GetName g). split; [done|]. apply hit_spec. exists g. repeat split; [done..|]. right. by exists gl.
    + exists h. split; [|done]. eapply rtc_l; [|exact Hr]. apply edge_spec. exists g.
      repeat split; [done..|]. inversion Hb; by apply list_elem_of_fmap_2.
Qed.
End Edges.

(** C29. A membership question about a snapshot built from an authorisation
    database is always answered (the search ends on cyclic and diamond-shaped
    group graphs), and the answer is yes exactly when the identity belongs to one of
    the groups: listed in it, matched by one of its globs, or belonging to a
    group nested in it; unknown groups are empty. *)
Theorem IsMember_exact authDB url rev db id gs :
  NewSnapshotDB ParseCIDR authDB url rev = Ok db ->
  exists b, IsMember db id gs = Some b /\ (b = true <-> exists g, g ∈ gs /\ belongs authDB id g).
Proof.
  intros H. destruct (IsMember_spec db id gs) as (b & Hb & Hiff). exists b. split; [done|].
  rewrite Hiff, Exists_exists. by setoid_rewrite (found_belongs _ _ _ _ _ H).
Qed.

Lemma parseSubnets_ok wl l : is_ok (parseSubnets ParseCIDR wl l) = true <->
  Forall (fun s => is_Some (ParseCIDR s)) l.
Proof.
  induction l as [|s l IH]; cbn; [by rewrite Forall_nil|].
  rewrite Forall_cons, <-IH. destruct (ParseCIDR s); [|naive_solver].
  destruct (parseSubnets ParseCIDR wl l); cbn; naive_solver.
Qed.

Lemma buildWhitelists_ok ws acc : is_ok (buildWhitelists ParseCIDR ws acc) = true <->
  Forall (fun w => Forall (fun s => is_Some (ParseCIDR s)) w.2) ws.
Proof.
  revert acc. induction ws as [|[name subnets] ws IH]; intros acc; cbn; [by rewrite Forall_nil|].
  rewrite Forall_cons, <-parseSubnets_ok with (wl := name). cbn [snd].
  destruct subnets as [|s l]; [cbn; rewrite IH; naive_solver|].
  destruct (parseSubnets ParseCIDR name (s :: l)) as [nets|]; cbn; [rewrite IH|]; naive_solver.
Qed.

Lemma buildGroups_accepts gs acc : is_ok (buildGroups gs acc) = true <->
  NoDup (map GetName gs) /\ forall g, g ∈ gs -> acc !! GetName g = None.
Proof.
  split.
  - destruct (buildGroups gs acc) as [m|] eqn:E; [|done]. intros _.
    apply buildGroups_ok in E as (? & ? & _). done.
  - revert acc. induction gs as [|g gs IH]; intros acc [Hnd Hacc]; [done|]. cbn.
    apply NoDup_cons in Hnd as [Hn Hnd]. rewrite (Hacc g) by set_solver. apply IH. split; [done|].
    intros g' Hg'. rewrite lookup_insert_ne; [apply Hacc; set_solver|].
    intros E. destruct Hn. rewrite E. by apply list_elem_of_fmap_2.
Qed.

(** A snapshot is built exactly when no group is listed twice and every
    subnet of every IP whitelist parses; otherwise NewSnapshotDB fails. *)
Theorem NewSnapshotDB_accepts authDB url rev :
  is_ok (NewSnapshotDB ParseCIDR authDB url rev) = true <->
  NoDup (map GetName (GetGroups authDB)) /\
  forall name subnets s, (name, subnets) ∈ GetIpWhitelists authDB -> s ∈ subnets -> is_Some (ParseCIDR s).
Proof.
  unfold NewSnapshotDB. pose proof (buildGroups_accepts (GetGroups authDB) ∅) as Hg.
  destruct (buildGroups _ _) as [m|]; cbn in *; [|naive_solver].
  pose proof (buildWhitelists_ok (GetIpWhitelists authDB) ∅) as Hw. rewrite Forall_forall in Hw.
  setoid_rewrite Forall_forall in Hw.
  assert (Hiff : is_ok (buildWhitelists ParseCIDR (GetIpWhitelists authDB) ∅) = true <->
    forall name subnets s, (name, subnets) ∈ GetIpWhitelists authDB -> s ∈ subnets -> is_Some (ParseCIDR s)).
  { rewrite Hw. split; [intros H name subnets s Hin; exact (H _ Hin s)|intros H [] Hin ? ?; eauto]. }
  destruct (buildWhitelists _ _ _); cbn in *; naive_solver.
Qed.

Lemma buildWhitelists_lookup ws acc m n : buildWhitelists ParseCIDR ws acc = Ok m ->
  NoDup (map fst ws) ->
  m !! n = match List.find (fun w => String.eqb w.1 n && negb (bool_decide (w.2 = []))) ws with
           | Some w => match parseSubnets ParseCIDR n w.2 with Ok nets => Some nets | Err _ => None end
           | None => acc !! n end.
Proof.
  revert acc. induction ws as [|[name subnets] ws IH]; intros acc; cbn; [by intros [= <-]|].
  intros H Hnd. apply NoDup_cons in Hnd as [Hn Hnd]. destruct subnets as [|s l].
  { rewrite bool_decide_true, andb_false_r by done. by apply IH. }
  rewrite bool_decide_false, andb_true_r by done.
  destruct (parseSubnets ParseCIDR name (s :: l)) as [nets|] eqn:Ep; [|done]. cbn in H.
  rewrite (IH _ H Hnd). destruct (String.eqb_spec name n) as [<-|Hne].
  - cbn [snd]. rewrite Ep. destruct (List.find _ ws) as [w|] eqn:E; [|apply lookup_insert_eq].
    apply List.find_some in E as [Hin [E _]%andb_true_iff]. apply String.eqb_eq in E.
    destruct Hn. rewrite <-E. by apply list_elem_of_fmap_2, list_elem_of_In.
  - by rewrite lookup_insert_ne.
Qed.
End Snapshot.

(** What the cache holds is what translation gives, and it stays bounded. *)
Definition cache_ok (c : patternCache) : Prop :=
  (size c <= 501)%nat /\ forall p v, c !! p = Some v -> v = translate_items p.

(** The pattern cache never changes the meaning of a glob: a lookup returns
    the translation of the pattern, whatever was cached before, and leaves a
    cache that is still correct and holds at most 501 patterns. *)
Theorem cache_translate_transparent c pat :
  cache_ok c ->
  (cache_translate c pat).1 = translate_items pat /\ cache_ok (cache_translate c pat).2.
Proof.
  intros [Hs Hc]. unfold cache_translate. destruct (c !! pat) as [v|] eqn:E; cbn [fst snd].
  { split; [by apply Hc|done]. }
  split; [done|]. destruct (Nat.ltb_spec 500 (size c)) as [H|H]; split.
  - rewrite map_size_insert_None by apply lookup_empty. rewrite map_size_empty. lia.
  - intros p v [[<- <-]|[_ Hp]]%lookup_insert_Some; [done|]. by rewrite lookup_empty in Hp.
  - rewrite map_size_insert_None by done. lia.
  - intros p v [[<- <-]|[_ Hp]]%lookup_insert_Some; [done|auto].
Qed.

(** A glob matches an identity exactly when both have the same known kind,
    neither the pattern nor the name has a newline, and the name is the
    pattern with each star replaced by some string; malformed globs and
    identities never match. *)
Theorem Glob_Match_exact g id :
  Glob_Match g id = true <->
  exists k p n, g = (k ++ ":" ++ p)%string /\ id = (k ++ ":" ++ n)%string /\
    is_Some (knownKinds k) /\ contains_newline p = false /\ contains_newline n = false /\
    pattern_matches p n.
Proof.
  unfold Glob_Match. split.
  - destruct (splitColon g) as [[k p]|] eqn:Eg; [|done].
    destruct (knownKinds k) as [re|] eqn:Ek; [|done].
    destruct (splitColon id) as [[k' n]|] eqn:Ei; [|done].
    destruct (knownKinds k') as [re'|] eqn:Ek'; [|done].
    destruct (String.eqb_spec k' k) as [->|_]; [|done]. cbn.
    destruct (contains_newline n) eqn:En; [done|].
    intros [Hp Hm]%translate_items_match; [|done].
    apply splitColon_some in Eg as [-> _], Ei as [-> _]. exists k, p, n. eauto 10.
  - intros (k & p & n & -> & -> & [re Hk] & Hp & Hn & Hm).
    pose proof (knownKinds_nocolon k re Hk) as Hc.
    rewrite (proj2 (splitColon_some _ k p)), (proj2 (splitColon_some _ k n)) by done.
    rewrite Hk, String.eqb_refl, Hn. cbn. by apply translate_items_match.
Qed.

Section Whitelists.
Context (ParseCIDR : string -> option IPNet).

Lemma parseSubnets_nets wl l nets :
  parseSubnets ParseCIDR wl l = Ok nets -> map ParseCIDR l = map Some nets.
Proof.
  revert nets. induction l as [|s l IH]; intros nets; cbn; [by intros [= <-]|].
  destruct (ParseCIDR s) as [n|]; [|done].
  destruct (parseSubnets ParseCIDR wl l) as [r|]; [|done]. cbn. intros [= <-].
  cbn. by rewrite (IH r).
Qed.

Lemma snapshot_whitelists authDB url rev db :
  NewSnapshotDB ParseCIDR authDB url rev = Ok db ->
  buildWhitelists ParseCIDR (GetIpWhitelists authDB) ∅ = Ok (whitelists db).
Proof.
  unfold NewSnapshotDB. destruct (buildGroups _ _); [|done]. cbn.
  destruct (buildWhitelists _ _ _); [|done]. cbn. by intros [= <-].
Qed.

(** With every IP whitelist listed once, an address is in a named whitelist
    exactly when one of the subnets listed there contains it; unknown and empty
    whitelists contain nothing. *)
Theorem IsInWhitelist_exact authDB url rev db ip wl :
  NewSnapshotDB ParseCIDR authDB url rev = Ok db ->
  NoDup (map fst (GetIpWhitelists authDB)) ->
  IsInWhitelist db ip wl = true <->
  exists subnets s n, (wl, subnets) ∈ GetIpWhitelists authDB /\ s ∈ subnets /\
    ParseCIDR s = Some n /\ IPNet_Contains n ip = true.
Proof.
  intros H Hnd. apply snapshot_whitelists in H as Hb.
  pose proof (buildWhitelists_lookup _ _ _ _ wl Hb Hnd) as Hl.
  unfold IsInWhitelist. rewrite Hl. clear Hl.
  destruct (List.find _ _) as [[n subnets]|] eqn:E; cbn [fst snd].
  - apply List.find_some in E as [Hin [Hn _]%andb_true_iff]. cbn in Hn.
    apply String.eqb_eq in Hn as ->. apply list_elem_of_In in Hin.
    assert (Hok : is_ok (parseSubnets ParseCIDR wl subnets) = true).
    { apply parseSubnets_ok. assert (Hbo : is_ok (buildWhitelists ParseCIDR (GetIpWhitelists authDB) ∅) = true) by by rewrite Hb.
      apply buildWhitelists_ok in Hbo. rewrite Forall_forall in Hbo. exact (Hbo _ Hin). }
    destruct (parseSubnets _ _ _) as [nets|] eqn:Ep; [|done]. apply parseSubnets_nets in Ep. cbn.
    rewrite existsb_exists. split.
    + intros (nt & Hnt & Hc). apply list_elem_of_In in Hnt.
      assert (Some nt ∈ map ParseCIDR subnets) as (s & Hs & Hs')%list_elem_of_fmap.
      { rewrite Ep. by apply list_elem_of_fmap_2. }
      exists subnets, s, nt. auto.
    + intros (subnets' & s & nt & Hin' & Hs & Hp & Hc).
      assert (subnets' = subnets) as ->.
      { eapply NoDup_fst_unique; eauto. }
      assert (Some nt ∈ map Some nets) as (nt' & [= <-] & Hnt)%list_elem_of_fmap.
      { rewrite <-Ep, <-Hp. by apply list_elem_of_fmap_2. }
      exists nt. by rewrite <-list_elem_of_In.
  - rewrite lookup_empty. cbn. split; [done|]. intros (subnets & s & n & Hin & Hs & _).
    eapply List.find_none in E; [|by apply list_elem_of_In]. cbn in E.
    rewrite String.eqb_refl, bool_decide_false in E; [done|]. intros ->. set_solver.
Qed.
End Whitelists.

(** * The theorems on a concrete database, with a nesting cycle *)
Definition example_cidr (s : string) : option IPNet :=
  if String.eqb s "10.0.0.0/8" then Some {| netIP := [10; 0; 0; 0]%Z; netMask := [255; 0; 0; 0]%Z |}
  else None.

Definition example_db : AuthDB := {|
  GetTokenServerUrl := ""; GetOauthClientId := "c1"; GetOauthAdditionalClientIds := [""; "c2"];
  GetGroups := [
    {| GetName := "a"; GetMembers := []; GetGlobs := []; GetNested := ["b"; "c"; "nope"] |};
    {| GetName := "b"; GetMembers := ["user:x@y"]; GetGlobs := []; GetNested := ["a"; "c"] |};
    {| GetName := "c"; GetMembers := []; GetGlobs := ["bot:*"]; GetNested := ["a"] |} ];
  GetIpWhitelistAssignments := [("bot:1", "bots")];
  GetIpWhitelists := [("bots", ["10.0.0.0/8"]); ("none", [])]
|}.

Definition example_snapshot : SnapshotDB :=
  match NewSnapshotDB example_cidr example_db "https://auth" 7 with
  | Ok db => db
  | Err _ => {| AuthServiceURL := ""; Rev := 0; tokenServiceURL := ""; clientIDs := ∅; groups := ∅;
               assignments := ∅; whitelists := ∅ |}
  end.

Example example_members :
  map (fun i => IsMember example_snapshot i ["a"]) ["bot:1"; "user:x@y"; "user:z@y"] =
  [Some true; Some true; Some false].
Proof. vm_compute. reflexivity. Qed.

Lemma IsMember_exact_witness :
  NewSnapshotDB example_cidr example_db "https://auth" 7 = Ok example_snapshot /\
  exists b, IsMember example_snapshot "user:z@y" ["b"; "a"] = Some b /\
    (b = true <-> exists g, g ∈ ["b"; "a"] /\ belongs example_db "user:z@y" g).
Proof.
  assert (H : NewSnapshotDB example_cidr example_db "https://auth" 7 = Ok example_snapshot)
    by (vm_compute; reflexivity).
  split; [exact H|]. exact (IsMember_exact example_cidr example_db _ _ _ _ _ H).
Defined.

Lemma cache_translate_transparent_witness :
  cache_ok ∅ /\ (cache_translate ∅ "a*").1 = translate_items "a*" /\ cache_ok (cache_translate ∅ "a*").2.
Proof.
  assert (H : cache_ok ∅) by (split; [vm_compute; lia|intros p v Hp; by rewrite lookup_empty in Hp]).
  split; [exact H|]. exact (cache_translate_transparent ∅ "a*" H).
Defined.

Lemma IsInWhitelist_exact_witness :
  IsInWhitelist example_snapshot [10; 1; 2; 3]%Z "bots" = true /\
  exists subnets s n, ("bots", subnets) ∈ GetIpWhitelists example_db /\ s ∈ subnets /\
    example_cidr s = Some n /\ IPNet_Contains n [10; 1; 2; 3]%Z = true.
Proof.
  assert (Hc : IsInWhitelist example_snapshot [10; 1; 2; 3]%Z "bots" = true) by (vm_compute; reflexivity).
  split; [exact Hc|].
  refine (proj1 (IsInWhitelist_exact example_cidr example_db "https://auth" 7 _ _ _ _ _) Hc);
    [vm_compute; reflexivity|].
  cbn. repeat constructor; set_solver.
Defined.
