(* ===== verification/IdentitySet.v ===== *)
(** Sets of identities given by identities and groups
    (tokenserver/appengine/impl/utils/identityset), and the interface of a
    groups database they are evaluated against. *)
From S2P Require Import Prelude AuthDB.
Local Open Scope string_scope.
Local Open Scope list_scope.

(** * The groups database

    What [authdb.DB] promises to its clients: a lookup that succeeds tells
    whether the identity belongs to one of the groups.  An error may carry the
    transient tag. *)
Record DBError := { db_transient : bool }.

Class GroupsDB (D : Type) := {
  db_IsMember : D -> Identity -> list string -> result DBError bool;
  db_belongs : D -> Identity -> string -> Prop;
  db_IsMember_law d id gs b :
    db_IsMember d id gs = Ok b -> (b = true <-> exists g, g ∈ gs /\ db_belongs d id g)
}.

(** The in-memory snapshot is one. *)
Definition snapshot_IsMember (db : SnapshotDB) (id : Identity) (gs : list string) : result DBError bool :=
  match IsMember db id gs with Some b => Ok b | None => Err {| db_transient := false |} end.

#[export, refine] Instance snapshot_groups_db : GroupsDB SnapshotDB := {|
  db_IsMember := snapshot_IsMember;
  db_belongs db id g := found (groups db) id g
|}.
Proof.
  intros db id gs b. unfold snapshot_IsMember. destruct (IsMember_spec db id gs) as (b' & -> & Hb).
  intros [= <-]. by rewrite Hb, Exists_exists.
Defined.

(** * Sets (identityset.go)

    A nil map and an empty one behave alike and are both the empty set; a nil
    [*Set] is [None]. *)
Record ISet := { All : bool; IDs : gset Identity; Groups : gset string }.

#[export] Instance ISet_eq_dec : EqDecision ISet.
Proof. solve_decision. Defined.

Definition empty_set : ISet := {| All := false; IDs := ∅; Groups := ∅ |}.

Definition AddIdentity (s : ISet) (id : Identity) : ISet :=
  if All s then s else {| All := All s; IDs := {[id]} ∪ IDs s; Groups := Groups s |}.

Definition AddGroup (s : ISet) (group : string) : ISet :=
  if All s then s else {| All := All s; IDs := IDs s; Groups := {[group]} ∪ Groups s |}.

Definition IsEmpty (s : option ISet) : bool :=
  match s with
  | None => true
  | Some s => negb (All s) && (size (IDs s) =? 0)%nat && (size (Groups s) =? 0)%nat
  end.

(** The groups are passed to the database in the order of a map iteration. *)
Definition Set_IsMember {D} `{GroupsDB D} (db : D) (s : option ISet) (id : Identity)
  : result DBError bool :=
  match s with
  | None => Ok false
  | Some s =>
      if All s then Ok true
      else if bool_decide (id ∈ IDs s) then Ok true
      else if negb (size (Groups s) =? 0)%nat then db_IsMember db id (elements (Groups s))
      else Ok false
  end.

Definition IsSubset (s superset : option ISet) : bool :=
  if IsEmpty s then true
  else if IsEmpty superset then false
  else match s, superset with
  | Some s, Some superset =>
      if All s then All superset
      else if All superset then true
      else if (size (IDs superset) <? size (IDs s))%nat then false
      else if negb (forallb (fun id => bool_decide (id ∈ IDs superset)) (elements (IDs s))) then false
      else if (size (Groups superset) <? size (Groups s))%nat then false
      else forallb (fun g => bool_decide (g ∈ Groups superset)) (elements (Groups s))
  | _, _ => false
  end.

Definition IsSuperset (s subset : option ISet) : bool := IsSubset subset s.

Definition group_item (g : string) : string := String.append "group:" g.

Definition ToStrings (s : option ISet) : list string :=
  if IsEmpty s then []
  else match s with
  | None => []
  | Some s =>
      if All s then ["*"]
      else merge_sort string_le (elements (IDs s) ++ map group_item (elements (Groups s)))
  end.

Inductive FromStringsError := ErrInvalidEntry (s : string) | ErrIdentity (e : IdentityError).

Definition from_item (set : ISet) (s : string) : result FromStringsError ISet :=
  if String.eqb s "*" then Ok {| All := true; IDs := IDs set; Groups := Groups set |}
  else if HasPrefix s "group:" then
    let gr := TrimPrefix s "group:" in
    if String.eqb gr "" then Err (ErrInvalidEntry s) else Ok (AddGroup set gr)
  else match MakeIdentity s with
  | Err e => Err (ErrIdentity e)
  | Ok id => Ok (AddIdentity set id)
  end.

Fixpoint from_loop (skip : string -> bool) (str : list string) (set : ISet) : result FromStringsError ISet :=
  match str with
  | [] => Ok set
  | s :: str =>
      if skip s then from_loop skip str set
      else set ← from_item set s; from_loop skip str set
  end.

Definition FromStrings (str : list string) (skip : string -> bool) : result FromStringsError ISet :=
  set ← from_loop skip str empty_set;
  Ok (if All set then {| All := All set; IDs := ∅; Groups := ∅ |} else set).

Definition Union (sets : list (option ISet)) : ISet :=
  if existsb (fun s => match s with Some s => All s | None => false end) sets
  then {| All := true; IDs := ∅; Groups := ∅ |}
  else foldl (fun u s => match s with
         | None => u
         | Some s => {| All := All u; IDs := IDs u ∪ IDs s; Groups := Groups u ∪ Groups s |}
         end) empty_set sets.

Definition Extend (orig : option ISet) (id : Identity) : option ISet :=
  if IsEmpty orig then Some {| All := false; IDs := {[id]}; Groups := ∅ |}
  else match orig with
  | None => orig
  | Some s =>
      if All s then orig
      else if bool_decide (id ∈ IDs s) then orig
      else Some {| All := false; IDs := {[id]} ∪ IDs s; Groups := Groups s |}
  end.

(** * What a set means *)
Definition items_in (s : option ISet) : gset Identity * gset string * bool :=
  match s with None => (∅, ∅, false) | Some s => (IDs s, Groups s, All s) end.

(** An identity is in a set: the set is universal, lists it, or lists a group
    it belongs to. *)
Definition in_set {D} `{GroupsDB D} (db : D) (s : option ISet) (id : Identity) : Prop :=
  match s with
  | None => False
  | Some s => All s = true \/ id ∈ IDs s \/ exists g, g ∈ Groups s /\ db_belongs db id g
  end.

Lemma IsEmpty_spec s : IsEmpty s = true <->
  match s with None => True | Some s => All s = false /\ IDs s = ∅ /\ Groups s = ∅ end.
Proof.
  destruct s as [[a i g]|]; cbn; [|done].
  rewrite !andb_true_iff, negb_true_iff, !Nat.eqb_eq, !size_empty_iff, !leibniz_equiv_iff. tauto.
Qed.

(** Inclusion, groups compared as atoms. *)
Definition set_incl (s t : option ISet) : Prop :=
  match s, t with
  | None, _ => True
  | Some s, None => All s = false /\ IDs s = ∅ /\ Groups s = ∅
  | Some s, Some t => All t = true \/ (All s = false /\ IDs s ⊆ IDs t /\ Groups s ⊆ Groups t)
  end.

Lemma forallb_elements `{Countable A} (s t : gset A) :
  forallb (fun x => bool_decide (x ∈ t)) (elements s) = true <-> s ⊆ t.
Proof.
  rewrite forallb_forall. split.
  - intros Hall x Hx. specialize (Hall x). rewrite bool_decide_eq_true in Hall. apply Hall.
    by rewrite <-list_elem_of_In, elem_of_elements.
  - intros Hsub x Hx. rewrite bool_decide_eq_true. apply Hsub.
    by rewrite <-elem_of_elements, list_elem_of_In.
Qed.

Lemma IsSubset_sets s t :
  (if (size (IDs t) <? size (IDs s))%nat then false
   else if negb (forallb (fun id => bool_decide (id ∈ IDs t)) (elements (IDs s))) then false
   else if (size (Groups t) <? size (Groups s))%nat then false
   else forallb (fun g => bool_decide (g ∈ Groups t)) (elements (Groups s))) = true <->
  IDs s ⊆ IDs t /\ Groups s ⊆ Groups t.
Proof.
  pose proof (forallb_elements (IDs s) (IDs t)) as Hi. pose proof (forallb_elements (Groups s) (Groups t)) as Hg.
  rewrite <-Hi, <-Hg.
  destruct (Nat.ltb_spec (size (IDs t)) (size (IDs s))) as [Hl|_].
  { split; [done|]. intros [H _]. apply Hi in H. apply subseteq_size in H. lia. }
  destruct (forallb _ (elements (IDs s))); cbn [negb]; [|tauto || (split; [done|by intros [? _]])].
  destruct (Nat.ltb_spec (size (Groups t)) (size (Groups s))) as [Hl|_]; [|tauto].
  split; [done|]. intros [_ H]. apply Hg in H. apply subseteq_size in H. lia.
Qed.

Lemma IsSubset_spec s t : IsSubset s t = true <-> set_incl s t.
Proof.
  unfold IsSubset. pose proof (IsEmpty_spec s) as Hs. pose proof (IsEmpty_spec t) as Ht.
  destruct (IsEmpty s).
  { split; [|done]. intros _. destruct Hs as [Hs _]. specialize (Hs eq_refl).
    destruct s as [s|]; [|done]. destruct Hs as (Ha & Hi & Hg). destruct t as [t|]; cbn; [|done].
    rewrite Ha, Hi, Hg. right. set_solver. }
  destruct s as [s|]; [|naive_solver]. destruct (IsEmpty t).
  { split; [done|]. destruct Ht as [Ht _]. specialize (Ht eq_refl). destruct Hs as [_ Hs].
    destruct t as [t|]; cbn; [|auto]. destruct Ht as (Ha & Hi & Hg).
    rewrite Ha, Hi, Hg. intros [?|(? & ? & ?)]; [done|]. apply Hs. set_solver. }
  destruct t as [t|]; [|naive_solver]. cbn. pose proof (IsSubset_sets s t) as Hsub.
  destruct (All s), (All t); naive_solver.
Qed.

Section Semantics.
Context {D : Type} `{GroupsDB D} (db : D).

Lemma Set_IsMember_spec s id b :
  Set_IsMember db s id = Ok b -> (b = true <-> in_set db s id).
Proof.
  destruct s as [s|]; cbn; [|by intros [= <-]].
  destruct (All s); [intros [= <-]; naive_solver|].
  case_bool_decide; [intros [= <-]; naive_solver|].
  destruct (Nat.eqb_spec (size (Groups s)) 0) as [Hz|Hz]; cbn.
  - intros [= <-]. apply size_empty_iff in Hz. split; [done|]. intros [?|[?|(g & Hg & _)]]; [done..|].
    set_solver.
  - intros Hb%db_IsMember_law. rewrite Hb. setoid_rewrite elem_of_elements. naive_solver.
Qed.

Lemma set_incl_sound s t id : set_incl s t -> in_set db s id -> in_set db t id.
Proof.
  destruct s as [s|], t as [t|]; cbn; try done.
  - intros [Ht|(Ha & Hi & Hg)]; [by left|]. intros [?|[?|(g & ? & ?)]]; [congruence|set_solver|].
    right. right. exists g. set_solver.
  - intros (Ha & Hi & Hg) [?|[?|(g & ? & ?)]]; [congruence|set_solver..].
Qed.
End Semantics.

(** * Parsing and printing *)

(** Sets that [FromStrings] makes: the universal set lists nothing else,
    identities are valid and group names are not empty. *)
Definition set_ok (s : ISet) : Prop :=
  (All s = true -> IDs s = ∅ /\ Groups s = ∅) /\
  (forall id, id ∈ IDs s -> Validate id = None) /\ (forall g, g ∈ Groups s -> g <> "").

Lemma valid_not_special id : Validate id = None -> id <> "*" /\ HasPrefix id "group:" = false.
Proof.
  intros Hv. split; [by intros ->|]. destruct (HasPrefix id "group:") eqn:E; [|done].
  apply HasPrefix_spec in E as [r ->]. exfalso. revert Hv. unfold Validate.
  change (String.append "group:" r) with (String.append "group" (String.append ":" r)).
  by rewrite (proj2 (splitColon_some _ "group" r)).
Qed.

Lemma from_item_id s id : Validate id = None -> from_item s id = Ok (AddIdentity s id).
Proof.
  intros Hv. unfold from_item, MakeIdentity. destruct (valid_not_special id Hv) as [Hn Hp].
  destruct (String.eqb_spec id "*"); [done|]. by rewrite Hp, Hv.
Qed.

Lemma from_item_group s g : g <> "" -> from_item s (group_item g) = Ok (AddGroup s g).
Proof.
  intros Hg. unfold from_item, group_item. rewrite HasPrefix_app, TrimPrefix_app.
  destruct (String.eqb_spec g ""); [done|]. by destruct g.
Qed.

(** The strings [FromStrings] accepts. *)
Definition item_ok (s : string) : Prop :=
  s = "*" \/ (exists g, g <> "" /\ s = group_item g) \/ Validate s = None.

Lemma group_item_not_id g : Validate (group_item g) <> None.
Proof. intros H. apply valid_not_special in H as [_ H]. unfold group_item in H. by rewrite HasPrefix_app in H. Qed.

Lemma group_item_inj g h : group_item g = group_item h -> g = h.
Proof. intros H. apply (f_equal (fun s => TrimPrefix s "group:")) in H. unfold group_item in H. by rewrite !TrimPrefix_app in H. Qed.

(** One item, by cases. *)
Lemma from_item_cases s :
  (s = "*" /\ forall set, from_item set s = Ok {| All := true; IDs := IDs set; Groups := Groups set |}) \/
  (exists g, g <> "" /\ s = group_item g /\ forall set, from_item set s = Ok (AddGroup set g)) \/
  (Validate s = None /\ forall set, from_item set s = Ok (AddIdentity set s)) \/
  (~ item_ok s /\ exists e, forall set, from_item set s = Err e).
Proof.
  destruct (decide (s = "*")) as [->|Hs]; [by left|right].
  destruct (HasPrefix s "group:") eqn:Ep.
  - apply HasPrefix_spec in Ep as [g ->]. change (String.append "group:" g) with (group_item g) in *.
    destruct (decide (g = "")) as [->|Hg]; [|left; exists g; auto using from_item_group].
    right. right. split; [|by exists (ErrInvalidEntry (group_item ""))].
    intros [?|[(h & Hh & Heq)|?]]; [done|by apply group_item_inj in Heq|by destruct (group_item_not_id "")].
  - destruct (Validate s) as [e|] eqn:Ev; [|by right; left; auto using from_item_id].
    right. right. split.
    + intros [?|[(h & _ & ->)|?]]; [done| |congruence]. unfold group_item in Ep. by rewrite HasPrefix_app in Ep.
    + exists (ErrIdentity e). intros set. unfold from_item, MakeIdentity.
      destruct (String.eqb_spec s "*"); [done|]. by rewrite Ep, Ev.
Qed.

(** What the loop adds to a set. *)
Definition extends_by (skip : string -> bool) (str : list string) (set out : ISet) : Prop :=
  (All out = true <-> All set = true \/ ("*" ∈ str /\ skip "*" = false)) /\
  (All out = false ->
    (forall id, id ∈ IDs out <-> id ∈ IDs set \/ (id ∈ str /\ skip id = false /\ Validate id = None)) /\
    (forall g, g ∈ Groups out <->
       g ∈ Groups set \/ (g <> "" /\ group_item g ∈ str /\ skip (group_item g) = false))).

Lemma extends_by_skip skip s str set out :
  skip s = true -> extends_by skip str set out -> extends_by skip (s :: str) set out.
Proof.
  intros Hs [Ha Hr]. split.
  - rewrite Ha, elem_of_cons. split; [tauto|]. intros [?|[[<-|?] ?]]; [tauto|congruence|tauto].
  - intros Hf. destruct (Hr Hf) as [Hi Hg]. split; intros x; rewrite ?Hi, ?Hg, elem_of_cons; (split; [tauto|]).
    + intros [?|([->|?] & ? & ?)]; [tauto|congruence|tauto].
    + intros [?|(? & [<-|?] & ?)]; [tauto|congruence|tauto].
Qed.

Lemma extends_by_group skip g str set out : g <> "" -> skip (group_item g) = false ->
  extends_by skip str (AddGroup set g) out -> extends_by skip (group_item g :: str) set out.
Proof.
  intros Hne Hs [Ha Hr]. unfold AddGroup in *. destruct (All set) eqn:Es; split.
  - rewrite Ha, Es. by split; intros _; left.
  - intros Hf. exfalso. rewrite (proj2 Ha (or_introl Es)) in Hf. done.
  - rewrite Ha, Es, elem_of_cons. cbn. split; [tauto|]. intros [?|[[?|?] ?]]; [done..|auto].
  - intros Hf. destruct (Hr Hf) as [Hi Hg]. split.
    + intros x. rewrite Hi, elem_of_cons. cbn. split; [tauto|].
      intros [?|([->|?] & ? & Hv)]; [auto| |auto]. by apply group_item_not_id in Hv.
    + intros x. rewrite Hg, elem_of_cons. cbn. rewrite elem_of_union, elem_of_singleton. split.
      * intros [[->|?]|?]; tauto.
      * intros [?|(? & [?%group_item_inj|?] & ?)]; tauto.
Qed.

Lemma extends_by_id skip id str set out : skip id = false -> Validate id = None ->
  extends_by skip str (AddIdentity set id) out -> extends_by skip (id :: str) set out.
Proof.
  intros Hs Hv [Ha Hr]. destruct (valid_not_special id Hv) as [Hstar Hpre].
  unfold AddIdentity in *. destruct (All set) eqn:Es; split.
  - rewrite Ha, Es. by split; intros _; left.
  - intros Hf. exfalso. rewrite (proj2 Ha (or_introl Es)) in Hf. done.
  - rewrite Ha, Es, elem_of_cons. cbn. split; [tauto|]. intros [?|[[?|?] ?]]; [done|congruence|auto].
  - intros Hf. destruct (Hr Hf) as [Hi Hg]. split.
    + intros x. rewrite Hi, elem_of_cons. cbn. rewrite elem_of_union, elem_of_singleton. split.
      * intros [[->|?]|?]; tauto.
      * intros [?|([->|?] & ?)]; tauto.
    + intros x. rewrite Hg, elem_of_cons. cbn. split; [tauto|].
      intros [?|(? & [<-|?] & ?)]; [auto| |auto]. by apply group_item_not_id in Hv.
Qed.

Lemma from_loop_spec skip str set :
  match from_loop skip str set with
  | Ok out => (forall s, s ∈ str -> skip s = false -> item_ok s) /\ extends_by skip str set out
  | Err _ => exists s, s ∈ str /\ skip s = false /\ ~ item_ok s
  end.
Proof.
  revert set. induction str as [|s str IH]; intros set; cbn [from_loop].
  { split; [set_solver|]. split; [set_solver|]. intros _. set_solver. }
  destruct (skip s) eqn:Es.
  { specialize (IH set). destruct (from_loop skip str set) as [out|e].
    - destruct IH as [Hok Hext]. split; [|by apply extends_by_skip].
      intros x [->|Hx]%elem_of_cons ?; [congruence|auto].
    - destruct IH as (x & Hx & ?). exists x. split; [by right|done]. }
  assert (Hext : forall set', from_item set s = Ok set' -> item_ok s ->
    (forall out, extends_by skip str set' out -> extends_by skip (s :: str) set out) ->
    match (set'' ← from_item set s; from_loop skip str set'') with
    | Ok out => (forall x, x ∈ s :: str -> skip x = false -> item_ok x) /\ extends_by skip (s :: str) set out
    | Err _ => exists x, x ∈ s :: str /\ skip x = false /\ ~ item_ok x end).
  { intros set' -> Hok Hout. cbn. specialize (IH set'). destruct (from_loop skip str set') as [out|e].
    - destruct IH as [Hall Hext]. split; [|auto]. intros x [->|Hx]%elem_of_cons ?; auto.
    - destruct IH as (x & Hx & ?). exists x. split; [by right|done]. }
  destruct (from_item_cases s) as [[-> H]|[(g & Hg & -> & H)|[[Hv H]|[Hn [e H]]]]].
  - eapply Hext; [apply H|by left|]. intros out [Ha _]. split.
    + rewrite Ha. cbn. rewrite elem_of_cons. naive_solver.
    + intros Hf. exfalso. assert (All out = true) by (apply Ha; by left). congruence.
  - eapply Hext; [apply H|right; left; eauto|]. intros out. apply (extends_by_group skip g str set out Hg Es).
  - eapply Hext; [apply H|by right; right|]. intros out. by apply extends_by_id.
  - rewrite H. cbn. exists s. split; [by left|done].
Qed.

Lemma FromStrings_cases str skip :
  match FromStrings str skip with
  | Ok s => (forall x, x ∈ str -> skip x = false -> item_ok x) /\ set_ok s /\
      (All s = true <-> "*" ∈ str /\ skip "*" = false) /\
      (All s = false ->
        (forall id, id ∈ IDs s <-> id ∈ str /\ skip id = false /\ Validate id = None) /\
        (forall g, g ∈ Groups s <-> g <> "" /\ group_item g ∈ str /\ skip (group_item g) = false))
  | Err _ => exists x, x ∈ str /\ skip x = false /\ ~ item_ok x
  end.
Proof.
  unfold FromStrings. pose proof (from_loop_spec skip str empty_set) as H.
  destruct (from_loop skip str empty_set) as [out|]; [|done]. cbn.
  destruct H as (Hok & Ha & Hr). split; [done|]. destruct (All out) eqn:E.
  - split; [by split; [|split; set_solver]|]. cbn. split; [|done].
    split; [|done]. intros _. by destruct (proj1 Ha eq_refl) as [?|?].
  - destruct (Hr eq_refl) as [Hi Hg]. cbn in Hi, Hg.
    assert (Hi' : forall id, id ∈ IDs out <-> id ∈ str /\ skip id = false /\ Validate id = None).
    { intros id. rewrite Hi. set_solver. }
    assert (Hg' : forall g, g ∈ Groups out <-> g <> "" /\ group_item g ∈ str /\ skip (group_item g) = false).
    { intros g. rewrite Hg. set_solver. }
    split; [|split].
    + split; [congruence|]. split; [intros id; rewrite Hi'; by intros (_ & _ & ?)|].
      intros g. rewrite Hg'. by intros (? & _).
    + rewrite E. split; [done|]. intros Hs. exfalso. enough (false = true) by done. apply Ha. by right.
    + intros _. split; assumption.
Qed.

(** Parsing a list of strings fails exactly when some string that is not
    skipped is neither the star, a group with a name, nor a valid identity;
    otherwise the set is universal exactly when the star is listed, and else
    holds exactly the identities and the groups listed.  The result is always
    well formed. *)
Theorem FromStrings_exact str skip :
  match FromStrings str skip with
  | Ok s => (forall x, x ∈ str -> skip x = false -> item_ok x) /\ set_ok s /\
      (All s = true <-> "*" ∈ str /\ skip "*" = false) /\
      (All s = false ->
        (forall id, id ∈ IDs s <-> id ∈ str /\ skip id = false /\ Validate id = None) /\
        (forall g, g ∈ Groups s <-> g <> "" /\ group_item g ∈ str /\ skip (group_item g) = false))
  | Err _ => exists x, x ∈ str /\ skip x = false /\ ~ item_ok x
  end.
Proof. apply FromStrings_cases. Qed.

Lemma elem_of_ToStrings s x : All s = false ->
  x ∈ ToStrings (Some s) <-> x ∈ IDs s \/ exists g, x = group_item g /\ g ∈ Groups s.
Proof.
  intros Ha. unfold ToStrings. pose proof (IsEmpty_spec (Some s)) as He. destruct (IsEmpty (Some s)).
  - destruct (proj1 He eq_refl) as (_ & -> & ->). set_solver.
  - rewrite Ha, merge_sort_Permutation, elem_of_app, elem_of_elements, list_elem_of_fmap.
    by setoid_rewrite elem_of_elements.
Qed.

(** Printing is sorted, and parsing what was printed gives the set back. *)
Theorem FromStrings_ToStrings s :
  set_ok s ->
  Sorted string_le (ToStrings (Some s)) /\ FromStrings (ToStrings (Some s)) (fun _ => false) = Ok s.
Proof.
  intros (Hall & Hids & Hgr). split.
  { unfold ToStrings. destruct (IsEmpty _); [constructor|]. destruct (All s); [by repeat constructor|].
    apply Sorted_merge_sort, string_le_total. }
  destruct (All s) eqn:Ha.
  { destruct s as [a i g]. cbn in *. subst a. destruct (Hall eq_refl) as [-> ->]. reflexivity. }
  pose proof (FromStrings_cases (ToStrings (Some s)) (fun _ => false)) as H.
  pose proof (fun x => elem_of_ToStrings s x Ha) as Hel.
  destruct (FromStrings _ _) as [s'|e].
  - destruct H as (_ & _ & Ha' & Hc). f_equal.
    assert (Hf : All s' = false).
    { destruct (All s'); [|done]. destruct Ha' as [Ha' _]. destruct (Ha' eq_refl) as [Hs _].
      apply Hel in Hs as [Hs|(g & Hg & _)]; [|done]. by apply Hids in Hs. }
    destruct (Hc Hf) as [Hi Hg]. destruct s as [a i g], s' as [a' i' g']. cbn in *. f_equal; [congruence| |].
    + apply leibniz_equiv. intros id. rewrite Hi, Hel. split.
      * intros ([?|(h & -> & _)] & _ & Hv); [done|]. by apply group_item_not_id in Hv.
      * intros Hid. auto.
    + apply leibniz_equiv. intros h. rewrite Hg, Hel. split.
      * intros (_ & [Hh|(h' & ->%group_item_inj & ?)] & _); [|done]. apply Hids in Hh. by apply group_item_not_id in Hh.
      * intros Hh. split; [by apply Hgr|]. split; [|done]. right. eauto.
  - destruct H as (x & Hx & _ & Hn). destruct Hn. apply Hel in Hx as [Hx|(g & -> & Hg)].
    + right. right. by apply Hids.
    + right. left. exists g. auto.
Qed.

(** [IsSubset] decides inclusion, groups compared as atoms and the universal
    set included only in itself; and inclusion is sound for membership
    whatever the groups hold. *)
Theorem IsSubset_exact s t :
  (IsSubset s t = true <-> set_incl s t) /\
  (IsSubset s t = true -> forall D (HD : GroupsDB D) (db : D) id, in_set db s id -> in_set db t id).
Proof.
  split; [apply IsSubset_spec|]. intros H%IsSubset_spec D HD db id. by apply set_incl_sound.
Qed.

(** An extended set, field by field. *)
Lemma Extend_spec t x : exists t', Extend (Some t) x = Some t' /\ All t' = All t /\
  (All t = false -> IDs t' = {[x]} ∪ IDs t /\ Groups t' = Groups t).
Proof.
  unfold Extend. pose proof (IsEmpty_spec (Some t)) as He. destruct (IsEmpty (Some t)).
  - destruct (proj1 He eq_refl) as (Ha & Hi & Hg). eexists. split; [done|]. cbn.
    rewrite Ha, Hi, Hg. split; [done|]. intros _. split; [|done]. set_solver.
  - destruct (All t) eqn:Ha; [by exists t|]. case_bool_decide; [|by eexists].
    exists t. split; [done|]. split; [done|]. intros _. split; [set_solver|done].
Qed.

Section Meaning.
Context {D : Type} `{GroupsDB D} (db : D).

Lemma in_set_union_loop sets u id : All u = false -> (forall s, Some s ∈ sets -> All s = false) ->
  in_set db (Some (foldl (fun u s => match s with None => u
     | Some s => {| All := All u; IDs := IDs u ∪ IDs s; Groups := Groups u ∪ Groups s |} end) u sets)) id <->
  in_set db (Some u) id \/ Exists (fun s => in_set db s id) sets.
Proof.
  revert u. induction sets as [|[s|] sets IH]; intros u Hu Hs; cbn [foldl]; rewrite ?Exists_nil, ?Exists_cons.
  - tauto.
  - rewrite IH by set_solver. assert (Hsf : All s = false) by (apply Hs; by left).
    assert (Hg : (exists g, g ∈ Groups u ∪ Groups s /\ db_belongs db id g) <->
      (exists g, g ∈ Groups u /\ db_belongs db id g) \/ (exists g, g ∈ Groups s /\ db_belongs db id g))
      by (clear; set_solver).
    cbn. rewrite Hu, Hsf, elem_of_union, Hg. tauto.
  - rewrite IH by set_solver. cbn. tauto.
Qed.

Lemma Union_in_set sets id :
  in_set db (Some (Union sets)) id <-> exists s, s ∈ sets /\ in_set db s id.
Proof.
  unfold Union. destruct (existsb _ sets) eqn:E.
  + apply existsb_exists in E as ([s'|] & Hin & Ha); [|done]. apply list_elem_of_In in Hin.
    split; [intros _; exists (Some s'); split; [done|by left]|by left].
  + rewrite in_set_union_loop, Exists_exists; [cbn; set_solver|done|].
    intros s' Hs'. destruct (All s') eqn:Ha; [|done]. rewrite <-E. symmetry. apply existsb_exists.
    exists (Some s'). by rewrite <-list_elem_of_In.
Qed.

Lemma Extend_in_set s x id : in_set db (Extend s x) id <-> id = x \/ in_set db s id.
Proof.
  unfold Extend. pose proof (IsEmpty_spec s) as He. destruct (IsEmpty s).
  + destruct s as [s|]; [destruct (proj1 He eq_refl) as (Ha & Hi & Hg)|]; cbn; [rewrite Ha, Hi, Hg|]; set_solver.
  + destruct s as [s|]; [|by specialize (proj2 He I)]. destruct (All s) eqn:Ha; [cbn; tauto|].
    case_bool_decide; cbn; rewrite ?Ha, ?elem_of_union, ?elem_of_singleton; [|tauto].
    split; [tauto|]. intros [->|?]; tauto.
Qed.

(** Membership looks inside the groups; the union of sets holds the members
    of each of them, and extending a set adds exactly one identity. *)
Theorem set_operations_meaning s sets id x :
  (forall b, Set_IsMember db s id = Ok b -> (b = true <-> in_set db s id)) /\
  (in_set db (Some (Union sets)) id <-> exists s, s ∈ sets /\ in_set db s id) /\
  (in_set db (Extend s x) id <-> id = x \/ in_set db s id).
Proof.
  split; [intros b; apply Set_IsMember_spec|]. split.
  - apply Union_in_set.
  - apply Extend_in_set.
Qed.
End Meaning.

Definition example_set : ISet := {| All := false; IDs := {["user:a@b"; "bot:x"]}; Groups := {["admins"]} |}.

Lemma FromStrings_ToStrings_witness :
  set_ok example_set /\ ToStrings (Some example_set) = ["bot:x"; "group:admins"; "user:a@b"] /\
  Sorted string_le (ToStrings (Some example_set)) /\
  FromStrings (ToStrings (Some example_set)) (fun _ => false) = Ok example_set.
Proof.
  assert (H : set_ok example_set).
  { split; [done|]. split; cbn.
    - intros id. rewrite elem_of_union, !elem_of_singleton. by intros [->| ->].
    - intros g. rewrite elem_of_singleton. by intros ->. }
  split; [exact H|]. split; [vm_compute; reflexivity|].
  exact (FromStrings_ToStrings example_set H).
Defined.
