(* ===== verification/Base64.v ===== *)
(** [base64.RawURLEncoding] of the Go library, as the token code uses it. *)
From S2P Require Import Prelude.
Local Open Scope Z_scope.

Definition encode_digit (i : Z) : Z :=
  if i <? 26 then 65 + i
  else if i <? 52 then 97 + (i - 26)
  else if i <? 62 then 48 + (i - 52)
  else if i =? 62 then 45 else 95.

Definition decode_digit (c : Z) : option Z :=
  if (65 <=? c) && (c <=? 90) then Some (c - 65)
  else if (97 <=? c) && (c <=? 122) then Some (c - 97 + 26)
  else if (48 <=? c) && (c <=? 57) then Some (c - 48 + 52)
  else if c =? 45 then Some 62
  else if c =? 95 then Some 63 else None.

(** Three bytes are four digits; no padding. *)
Fixpoint sextets (l : bytes) : list Z :=
  match l with
  | a :: b :: c :: l =>
      a / 4 :: (a mod 4) * 16 + b / 16 :: (b mod 16) * 4 + c / 64 :: c mod 64 :: sextets l
  | [a; b] => [a / 4; (a mod 4) * 16 + b / 16; (b mod 16) * 4]
  | [a] => [a / 4; (a mod 4) * 16]
  | [] => []
  end.

Fixpoint octets (l : list Z) : option bytes :=
  match l with
  | a :: b :: c :: d :: l =>
      r ← octets l;
      Some (a * 4 + b / 16 :: (b mod 16) * 16 + c / 4 :: (c mod 4) * 64 + d :: r)
  | [a; b; c] => Some [a * 4 + b / 16; (b mod 16) * 16 + c / 4]
  | [a; b] => Some [a * 4 + b / 16]
  | [_] => None
  | [] => Some []
  end.

Definition EncodeToString (l : bytes) : bytes := map encode_digit (sextets l).

(** Line breaks are skipped. *)
Definition DecodeString (s : bytes) : option bytes :=
  digits ← mapM decode_digit (filter (fun c => c <> 13 /\ c <> 10) s);
  octets digits.

Example encode_ok : EncodeToString [77; 97; 110; 255] = [84; 87; 70; 117; 95; 119].
Proof. reflexivity. Qed.

Definition digit_ok (i : Z) : Prop := 0 <= i < 64.

Lemma decode_encode_digit i : digit_ok i -> decode_digit (encode_digit i) = Some i.
Proof.
  intros [H0 H1]. assert (H : Forall (fun i => decode_digit (encode_digit i) = Some i) (seqZ 0 64)).
  { by apply (bool_decide_unpack _). }
  rewrite Forall_forall in H. apply H, elem_of_seqZ. lia.
Qed.

Lemma encode_digit_no_newline i : digit_ok i -> encode_digit i <> 13 /\ encode_digit i <> 10.
Proof. unfold digit_ok, encode_digit. intros H. split_matches; bool_to_prop; lia. Qed.

(** Induction on a list three elements at a time. *)
Lemma list_ind3 {A} (P : list A -> Prop) :
  P [] -> (forall a, P [a]) -> (forall a b, P [a; b]) ->
  (forall a b c l, P l -> P (a :: b :: c :: l)) -> forall l, P l.
Proof.
  intros H0 H1 H2 H3. fix IH 1. intros [|a [|b [|c l]]]; [exact H0|exact (H1 a)|exact (H2 a b)|exact (H3 a b c l (IH l))].
Qed.

Ltac digit_bounds := unfold digit_ok, in_u8 in *; Z.to_euclidean_division_equations; lia.

Lemma sextets_ok l : bytes_ok l -> Forall digit_ok (sextets l).
Proof.
  induction l as [|a|a b|a b c l IH] using list_ind3; unfold bytes_ok; rewrite ?Forall_cons; cbn; intros H.
  - constructor.
  - repeat constructor; digit_bounds.
  - repeat constructor; digit_bounds.
  - destruct H as (? & ? & ? & ?). repeat (constructor; [digit_bounds|]). auto.
Qed.

Lemma octets_sextets l : bytes_ok l -> octets (sextets l) = Some l.
Proof.
  induction l as [|a|a b|a b c l IH] using list_ind3; unfold bytes_ok; rewrite ?Forall_cons; cbn; intros H.
  - done.
  - do 2 f_equal. digit_bounds.
  - destruct H as (? & ? & _). do 2 f_equal; [digit_bounds|]. f_equal. digit_bounds.
  - destruct H as (? & ? & ? & ?). rewrite IH by done. cbn. do 2 f_equal; [digit_bounds|].
    f_equal; [digit_bounds|]. f_equal. digit_bounds.
Qed.

Lemma decode_digits l : Forall digit_ok l ->
  mapM decode_digit (filter (fun c => c <> 13 /\ c <> 10) (map encode_digit l)) = Some l.
Proof.
  induction 1 as [|i l Hi Hl IH]; [done|]. cbn [map].
  rewrite filter_cons_True by by apply encode_digit_no_newline.
  cbn. rewrite decode_encode_digit by done. cbn in *. by rewrite IH.
Qed.

Lemma Decode_Encode l : bytes_ok l -> DecodeString (EncodeToString l) = Some l.
Proof.
  intros H. unfold DecodeString, EncodeToString.
  rewrite decode_digits by by apply sextets_ok. by apply octets_sextets.
Qed.
#[export] Hint Rewrite Decode_Encode using assumption : luci.
