(* ===== verification/Delegation.v ===== *)
(** Delegation tokens: the rules of the token server
    (tokenserver/appengine/impl/delegation), the minting of a token, and its
    verification by a service (server/auth/delegation/checker.go). *)
From S2P Require Import Prelude AuthDB IdentitySet Base64.
Local Open Scope string_scope.
Local Open Scope list_scope.
Local Open Scope Z_scope.

(** * Validation of the rules (config_validation.go) *)
Definition Requestor : string := "REQUESTOR".

Record DelegationRule := {
  Name : string; Owner : list string;
  RequestorField : list string; AllowedToImpersonate : list string;
  AllowedAudience : list string; TargetService : list string;
  MaxValidityDuration : Z
}.

Inductive ValidationError :=
| NameRequired
| FieldRequired (field : string)
| GroupsNotAllowed (field item : string)
| BadGroupEntry (field item : string)
| BadIdentityEntry (field : string) (e : IdentityError)
| KindNotAllowed (field : string) (k : Kind) (item : string)
| DurationRequired | DurationNegative | DurationTooLarge
| DuplicateName (name : string).

Record identitySetValidator := {
  Field : string; AllowReservedWords : list string; AllowGroups : bool;
  AllowIDKinds : option (list Kind)
}.

(** The errors one item adds to the validation context; the logical path
    ([Enter], [Exit]) only decorates the messages. *)
Definition validate_item (v : identitySetValidator) (s : string) : list ValidationError :=
  if existsb (String.eqb s) (AllowReservedWords v) then []
  else if HasPrefix s "group:" then
    if negb (AllowGroups v) then [GroupsNotAllowed (Field v) s]
    else if String.eqb s "group:" then [BadGroupEntry (Field v) s] else []
  else match MakeIdentity s with
  | Err e => [BadIdentityEntry (Field v) e]
  | Ok id =>
      match AllowIDKinds v with
      | None => []
      | Some kinds =>
          if existsb (String.eqb (Identity_Kind id)) kinds then []
          else [KindNotAllowed (Field v) (Identity_Kind id) s]
      end
  end.

Definition validate (v : identitySetValidator) (items : list string) : list ValidationError :=
  match items with [] => [FieldRequired (Field v)] | _ => flat_map (validate_item v) items end.

Definition validateRule (r : DelegationRule) : list ValidationError :=
  (if String.eqb (Name r) "" then [NameRequired] else []) ++
  validate {| Field := "requestor"; AllowReservedWords := []; AllowGroups := true;
              AllowIDKinds := None |} (RequestorField r) ++
  validate {| Field := "allowed_to_impersonate"; AllowReservedWords := [Requestor]; AllowGroups := true;
              AllowIDKinds := None |} (AllowedToImpersonate r) ++
  validate {| Field := "allowed_audience"; AllowReservedWords := [Requestor; "*"%string]; AllowGroups := true;
              AllowIDKinds := None |} (AllowedAudience r) ++
  validate {| Field := "target_service"; AllowReservedWords := ["*"%string]; AllowGroups := false;
              AllowIDKinds := Some [Service] |} (TargetService r) ++
  (if MaxValidityDuration r =? 0 then [DurationRequired]
   else if MaxValidityDuration r <? 0 then [DurationNegative]
   else if 24 * 3600 <? MaxValidityDuration r then [DurationTooLarge] else []).

Fixpoint validate_rules (names : gset string) (rules : list DelegationRule) : list ValidationError :=
  match rules with
  | [] => []
  | r :: rules =>
      (if negb (String.eqb (Name r) "") && bool_decide (Name r ∈ names)
       then [DuplicateName (Name r)] else []) ++
      validateRule r ++
      validate_rules (if String.eqb (Name r) "" then names else {[Name r]} ∪ names) rules
  end.

Definition validateConfigs (rules : list DelegationRule) : list ValidationError :=
  validate_rules ∅ rules.

(** * Preprocessed rules (config.go) *)
Record delegationRule := {
  rule : DelegationRule;
  requestors : ISet; delegators : ISet; audience : ISet; services : ISet;
  addRequestorAsDelegator : bool; addRequestorToAudience : bool
}.

Record Rules := { revision : string; rules : list delegationRule; rules_requestors : ISet }.

Record RulesQuery := {
  q_Requestor : Identity; q_Delegator : Identity; q_Audience : ISet; q_Services : ISet
}.

Definition skipRequestor (s : string) : bool := String.eqb s Requestor.
Definition skip_nothing (s : string) : bool := false.

Fixpoint sliceHasString (slice : list string) (str : string) : bool :=
  match slice with
  | [] => false
  | s :: slice => if String.eqb s str then true else sliceHasString slice str
  end.

(** [if err != nil { panic(err) }]. *)
Definition must {E A} (r : result E A) : outcome A :=
  match r with Ok a => Ret a | Err _ => Panic end.

Definition makeDelegationRule (r : DelegationRule)
  : outcome (result (list ValidationError) delegationRule) :=
  match validateRule r with
  | [] =>
      requestors ← must (FromStrings (RequestorField r) skip_nothing);
      delegators ← must (FromStrings (AllowedToImpersonate r) skipRequestor);
      audience ← must (FromStrings (AllowedAudience r) skipRequestor);
      services ← must (FromStrings (TargetService r) skip_nothing);
      Ret (Ok {| rule := r; requestors := requestors; delegators := delegators;
                 audience := audience; services := services;
                 addRequestorAsDelegator := sliceHasString (AllowedToImpersonate r) Requestor;
                 addRequestorToAudience := sliceHasString (AllowedAudience r) Requestor |})
  | errs => Ret (Err errs)
  end.

Fixpoint make_rules (rs : list DelegationRule)
  : outcome (result (list ValidationError) (list delegationRule)) :=
  match rs with
  | [] => Ret (Ok [])
  | r :: rs =>
      dr ← makeDelegationRule r;
      match dr with
      | Err e => Ret (Err e)
      | Ok d =>
          rest ← make_rules rs;
          Ret (match rest with Err e => Err e | Ok ds => Ok (d :: ds) end)
      end
  end.

Definition prepareRules (cfg : list DelegationRule) (rev : string)
  : outcome (result (list ValidationError) Rules) :=
  ds ← make_rules cfg;
  Ret (match ds with
       | Err e => Err e
       | Ok ds => Ok {| revision := rev; rules := ds;
                        rules_requestors := Union (map (fun d => Some (requestors d)) ds) |}
       end).

(** * Messages *)
Inductive SubtokenKind := UNKNOWN_KIND | BEARER_DELEGATION_TOKEN.

Record Subtoken := {
  st_Kind : SubtokenKind; SubtokenId : Z; DelegatedIdentity : string; RequestorIdentity : string;
  CreationTime : Z; ValidityDuration : Z; Audience : list string; Services : list string
}.

Record DelegationToken := {
  SignerId : string; SigningKeyId : string; Pkcs1Sha256Sig : bytes; SerializedSubtoken : bytes
}.

Record MintDelegationTokenRequest := {
  req_DelegatedIdentity : string; req_ValidityDuration : Z;
  req_Audience : list string; req_Services : list string
}.

(** Marshalling (protobuf), certificates and signatures are services of other
    code: a record of operations. *)
Record TokenCrypto (Cert : Type) := {
  MarshalSubtoken : Subtoken -> option bytes;
  UnmarshalSubtoken : bytes -> option Subtoken;
  MarshalToken : DelegationToken -> option bytes;
  UnmarshalToken : bytes -> option DelegationToken;
  SignBytes : bytes -> option (string * bytes);
  ParseCertificate : string -> option Cert;
  Cert_CheckSignature : Cert -> bytes -> bytes -> bool
}.
Arguments MarshalSubtoken {Cert}. Arguments UnmarshalSubtoken {Cert}.
Arguments MarshalToken {Cert}. Arguments UnmarshalToken {Cert}.
Arguments SignBytes {Cert}. Arguments ParseCertificate {Cert}. Arguments Cert_CheckSignature {Cert}.

(** * Rules against a groups database (config.go) *)
Section Queries.
Context {D : Type} `{GroupsDB D} (db : D).

Definition IsAuthorizedRequestor (r : Rules) (id : Identity) : result DBError bool :=
  Set_IsMember db (Some (rules_requestors r)) id.

Definition matchesQuery (dr : delegationRule) (q : RulesQuery) : result DBError bool :=
  found ← Set_IsMember db (Some (requestors dr)) (q_Requestor q);
  if negb found then Ok false else
  let allowedDelegators :=
    if addRequestorAsDelegator dr then Extend (Some (delegators dr)) (q_Requestor q)
    else Some (delegators dr) in
  found ← Set_IsMember db allowedDelegators (q_Delegator q);
  if negb found then Ok false else
  let allowedAudience :=
    if addRequestorToAudience dr then Extend (Some (audience dr)) (q_Requestor q)
    else Some (audience dr) in
  if negb (IsSuperset allowedAudience (Some (q_Audience q))) then Ok false
  else if negb (IsSuperset (Some (services dr)) (Some (q_Services q))) then Ok false
  else Ok true.

Inductive FindError := FindDB (e : DBError) | NoMatchingRule | AmbiguousRules (names : list string).

Fixpoint find_matches (l : list delegationRule) (q : RulesQuery) : result DBError (list DelegationRule) :=
  match l with
  | [] => Ok []
  | dr :: l =>
      match matchesQuery dr q with
      | Err e => Err e
      | Ok yes => (fun ms => if yes : bool then rule dr :: ms else ms) <$> find_matches l q
      end
  end.

Definition FindMatchingRule (r : Rules) (q : RulesQuery) : result FindError DelegationRule :=
  match find_matches (rules r) q with
  | Err e => Err (FindDB e)
  | Ok [] => Err NoMatchingRule
  | Ok [m] => Ok m
  | Ok ms => Err (AmbiguousRules (map Name ms))
  end.
End Queries.

(** * The request (rpc_mint_delegation_token.go, buildRulesQuery) *)
Record FetchError := { fetch_transient : bool }.

Inductive QueryError :=
| DelegatedIdentityRequired | BadDelegatedIdentity (e : IdentityError)
| AudienceRequired | BadAudience (e : FromStringsError)
| ServicesRequired | BadServices (e : FromStringsError) | ServicesGroups | NotAServiceID
| ServiceTransient | ServiceUnresolved (url : string).

Section BuildQuery.
(** [fetchLUCIServiceIdentity], called concurrently, and the order in which
    the replies come. *)
Context (fetch : string -> result FetchError Identity) (arrival : list string -> list string).

Fixpoint receive (urls : list string) (out : ISet) : result QueryError ISet :=
  match urls with
  | [] => Ok out
  | url :: urls =>
      match fetch url with
      | Err e => Err (if fetch_transient e then ServiceTransient else ServiceUnresolved url)
      | Ok id => receive urls (AddIdentity out id)
      end
  end.

Definition resolveServiceIDs (urls : list string) (out : ISet) : result QueryError ISet :=
  receive (arrival urls) out.

Definition buildRulesQuery (req : MintDelegationTokenRequest) (requestor : Identity)
  : result QueryError RulesQuery :=
  if String.eqb (req_DelegatedIdentity req) "" then Err DelegatedIdentityRequired else
  delegator ← (if String.eqb (req_DelegatedIdentity req) Requestor then Ok requestor
               else match MakeIdentity (req_DelegatedIdentity req) with
                    | Err e => Err (BadDelegatedIdentity e)
                    | Ok id => Ok id
                    end);
  if bool_decide (req_Audience req = []) then Err AudienceRequired else
  audienceSet ← (match FromStrings (req_Audience req) skipRequestor with
                 | Err e => Err (BadAudience e) | Ok s => Ok s end);
  let audienceSet := if sliceHasString (req_Audience req) Requestor
                     then AddIdentity audienceSet requestor else audienceSet in
  if bool_decide (req_Services req = []) then Err ServicesRequired else
  let urls := filter (fun srv => HasPrefix srv "https://" = true) (req_Services req) in
  let rest := filter (fun srv => HasPrefix srv "https://" = false) (req_Services req) in
  servicesSet ← (match FromStrings rest skip_nothing with
                 | Err e => Err (BadServices e) | Ok s => Ok s end);
  if negb (size (Groups servicesSet) =? 0)%nat then Err ServicesGroups
  else if existsb (fun ident => negb (String.eqb (Identity_Kind ident) Service)) (elements (IDs servicesSet))
  then Err NotAServiceID
  else
  servicesSet ← (if negb (All servicesSet) && bool_decide (urls <> [])
                 then resolveServiceIDs urls servicesSet else Ok servicesSet);
  Ok {| q_Requestor := requestor; q_Delegator := delegator;
        q_Audience := audienceSet; q_Services := servicesSet |}.
End BuildQuery.

(** * Minting (rpc_mint_delegation_token.go) *)
Inductive Code := PermissionDenied | Unauthenticated | Internal | InvalidArgument.

Record MintDelegationTokenResponse := {
  Token : bytes; DelegationSubtoken : Subtoken; ServiceVersion : string
}.

(** What the handler gets from its surroundings; an error there is [None]. *)
Record MintEnv (D : Type) := {
  env_User : Identity; env_Peer : Identity;
  env_ServiceVersion : option string; env_Rules : option Rules; env_DB : D;
  env_fetch : string -> result FetchError Identity; env_arrival : list string -> list string;
  env_GenerateTokenID : option Z; env_Now : Z; env_ServiceAccount : option string
}.
Arguments env_User {D}. Arguments env_Peer {D}. Arguments env_ServiceVersion {D}.
Arguments env_Rules {D}. Arguments env_DB {D}. Arguments env_fetch {D}. Arguments env_arrival {D}.
Arguments env_GenerateTokenID {D}. Arguments env_Now {D}. Arguments env_ServiceAccount {D}.

Section Mint.
Context {D : Type} `{GroupsDB D} {Cert : Type} (crypto : TokenCrypto Cert) (env : MintEnv D).

(** [SignToken] of token.go and of tokensigning/signer.go; the signing context
    is empty, so the blob is signed as it is. *)
Definition prependSigningContext (blob ctx : bytes) : bytes :=
  match ctx with [] => blob | _ => ctx ++ [0] ++ blob end.
Definition tokenSigningContext : bytes := [].

Definition SignToken (subtok : Subtoken) : option bytes :=
  account ← env_ServiceAccount env;
  blob ← MarshalSubtoken crypto subtok;
  '(keyID, sig) ← SignBytes crypto (prependSigningContext blob tokenSigningContext);
  tok ← MarshalToken crypto {| SignerId := String.append "user:" account; SigningKeyId := keyID;
          Pkcs1Sha256Sig := sig; SerializedSubtoken := blob |};
  Some (EncodeToString tok).

Definition mint (validity : Z) (q : RulesQuery) (serviceVer : string)
  : result Code MintDelegationTokenResponse :=
  match env_GenerateTokenID env with
  | None => Err Internal
  | Some id =>
      let subtok := {| st_Kind := BEARER_DELEGATION_TOKEN; SubtokenId := id;
        DelegatedIdentity := q_Delegator q; RequestorIdentity := q_Requestor q;
        CreationTime := env_Now env; ValidityDuration := i32 validity;
        Audience := ToStrings (Some (q_Audience q)); Services := ToStrings (Some (q_Services q)) |} in
      match SignToken subtok with
      | None => Err Internal
      | Some signed =>
          Ok {| Token := signed; DelegationSubtoken := subtok; ServiceVersion := serviceVer |}
      end
  end.

Definition MintDelegationToken (req : MintDelegationTokenRequest)
  : result Code MintDelegationTokenResponse :=
  let callerID := env_User env in
  if negb (String.eqb callerID (env_Peer env)) then Err PermissionDenied
  else if String.eqb callerID AnonymousIdentity then Err Unauthenticated
  else match env_ServiceVersion env, env_Rules env with
  | None, _ => Err Internal
  | _, None => Err Internal
  | Some serviceVer, Some rules =>
      match IsAuthorizedRequestor (env_DB env) rules callerID with
      | Err _ => Err Internal
      | Ok false => Err PermissionDenied
      | Ok true =>
          let validity := if req_ValidityDuration req =? 0 then 3600 else req_ValidityDuration req in
          if validity <? 0 then Err InvalidArgument
          else match buildRulesQuery (env_fetch env) (env_arrival env) req callerID with
          | Err ServiceTransient => Err Internal
          | Err _ => Err InvalidArgument
          | Ok query =>
              match FindMatchingRule (env_DB env) rules query with
              | Err (FindDB e) => Err (if db_transient e then Internal else PermissionDenied)
              | Err _ => Err PermissionDenied
              | Ok rule =>
                  if MaxValidityDuration rule <? validity then Err PermissionDenied
                  else mint validity query serviceVer
              end
          end
      end
  end.
End Mint.

(** * Certificates (server/auth/signing/certs.go) *)
Record Certificate := { KeyName : string; X509CertificatePEM : string }.

Record PublicCertificates (Cert : Type) := { Certificates : list Certificate; cert_cache : gmap string Cert }.
Arguments Certificates {Cert}. Arguments cert_cache {Cert}.

Section Check.
Context {D : Type} `{GroupsDB D} {Cert : Type} (crypto : TokenCrypto Cert).

(** The first certificate of that name decides. *)
Fixpoint find_certificate (l : list Certificate) (key : string) : option Cert :=
  match l with
  | [] => None
  | c :: l => if String.eqb (KeyName c) key then ParseCertificate crypto (X509CertificatePEM c)
              else find_certificate l key
  end.

Definition CertificateForKey (pc : PublicCertificates Cert) (key : string)
  : option Cert * PublicCertificates Cert :=
  match cert_cache pc !! key with
  | Some cert => (Some cert, pc)
  | None =>
      match find_certificate (Certificates pc) key with
      | None => (None, pc)
      | Some cert => (Some cert, {| Certificates := Certificates pc;
                                   cert_cache := <[key := cert]> (cert_cache pc) |})
      end
  end.

Definition CheckSignature (pc : PublicCertificates Cert) (key : string) (signed signature : bytes) : bool :=
  match (CertificateForKey pc key).1 with
  | None => false
  | Some cert => Cert_CheckSignature crypto cert signed signature
  end.

(** * Verification (server/auth/delegation/checker.go) *)
Inductive CheckError :=
| ErrMalformedDelegationToken | ErrUnsignedDelegationToken | ErrForbiddenDelegationToken | ErrTransient.

Definition maxTokenSize : Z := 8 * 1024.
Definition allowedClockDriftSec : Z := 30.

(** [GetCertificates]: an error, with its transient tag, or the bundle if the
    signer is trusted. *)
Record CheckTokenParams := {
  p_Token : bytes; p_PeerID : Identity;
  p_GetCertificates : Identity -> result bool (option (PublicCertificates Cert));
  p_GroupsChecker : D; p_OwnServiceIdentity : Identity
}.

Definition deserializeToken (token : bytes) : option DelegationToken :=
  blob ← DecodeString token;
  if maxTokenSize <? Z.of_nat (List.length blob) then None else UnmarshalToken crypto blob.

(** The error is whether it has the transient tag: [fmt.Errorf] makes a new
    error, without the tag of the error it prints. *)
Definition unsealToken (tok : DelegationToken)
    (getCerts : Identity -> result bool (option (PublicCertificates Cert))) : result bool Subtoken :=
  match MakeIdentity (SignerId tok) with
  | Err _ => Err false
  | Ok signerID =>
      match getCerts signerID with
      | Err _ => Err false
      | Ok None => Err false
      | Ok (Some certs) =>
          if CheckSignature certs (SigningKeyId tok) (SerializedSubtoken tok) (Pkcs1Sha256Sig tok)
          then match UnmarshalSubtoken crypto (SerializedSubtoken tok) with
               | None => Err false | Some st => Ok st end
          else Err false
      end
  end.

(** [true] is a nil error. *)
Definition checkSubtokenExpiration (t : Subtoken) (now : Z) : bool :=
  if CreationTime t <=? 0 then false
  else let dur := ValidityDuration t in
  if dur <=? 0 then false
  else if i64 (now + allowedClockDriftSec) <=? CreationTime t then false
  else if i64 (CreationTime t + dur) <? now then false
  else true.

Definition checkSubtokenServices (t : Subtoken) (serviceID : Identity) : bool :=
  match Services t with
  | [] => false
  | l => existsb (fun allowed => String.eqb allowed "*" || String.eqb allowed serviceID) l
  end.

(** A direct hit, or the groups of the audience. *)
Fixpoint scan_audience (l : list string) (ident : Identity) : option (list string) :=
  match l with
  | [] => Some []
  | aud :: l =>
      if String.eqb aud "*" || String.eqb aud ident then None
      else gs ← scan_audience l ident;
           Some (if HasPrefix aud "group:" then TrimPrefix aud "group:" :: gs else gs)
  end.

Definition checkSubtokenAudience (t : Subtoken) (ident : Identity) (checker : D) : result bool unit :=
  match Audience t with
  | [] => Err false
  | l =>
      match scan_audience l ident with
      | None => Ok ()
      | Some groups =>
          match db_IsMember checker ident groups with
          | Err e => Err (db_transient e)
          | Ok true => Ok ()
          | Ok false => Err false
          end
      end
  end.

Definition checkSubtoken (subtoken : Subtoken) (now : Z) (params : CheckTokenParams)
  : result CheckError Identity :=
  match st_Kind subtoken with
  | UNKNOWN_KIND => Err ErrForbiddenDelegationToken
  | BEARER_DELEGATION_TOKEN =>
      if negb (checkSubtokenExpiration subtoken now) then Err ErrForbiddenDelegationToken
      else if negb (checkSubtokenServices subtoken (p_OwnServiceIdentity params))
      then Err ErrForbiddenDelegationToken
      else match checkSubtokenAudience subtoken (p_PeerID params) (p_GroupsChecker params) with
      | Err true => Err ErrTransient
      | Err false => Err ErrForbiddenDelegationToken
      | Ok _ =>
          match MakeIdentity (DelegatedIdentity subtoken) with
          | Err _ => Err ErrMalformedDelegationToken
          | Ok ident => Ok ident
          end
      end
  end.

Definition CheckToken (now : Z) (params : CheckTokenParams) : result CheckError Identity :=
  match deserializeToken (p_Token params) with
  | None => Err ErrMalformedDelegationToken
  | Some tok =>
      match unsealToken tok (p_GetCertificates params) with
      | Err true => Err ErrTransient
      | Err false => Err ErrUnsignedDelegationToken
      | Ok subtoken => checkSubtoken subtoken now params
      end
  end.
End Check.

(** * What lists of entries mean *)
Section Listed.
Context {D : Type} `{GroupsDB D} (db : D).

(** An identity is covered by a list: the star, itself, or a group. *)
Definition listed (l : list string) (id : Identity) : Prop :=
  "*"%string ∈ l \/ id ∈ l \/ exists g, g <> ""%string /\ group_item g ∈ l /\ db_belongs db id g.

Lemma group_item_not_requestor g : skipRequestor (group_item g) = false.
Proof. done. Qed.

Lemma valid_not_requestor id : Validate id = None -> skipRequestor id = false.
Proof. unfold skipRequestor. destruct (String.eqb_spec id Requestor) as [->|]; done. Qed.

Lemma valid_not_group g : Validate (group_item g) <> None.
Proof. apply group_item_not_id. Qed.

(** The shape of a parsed set, for the two ways of skipping. *)
Definition parsed (l : list string) (s : ISet) : Prop :=
  set_ok s /\ (All s = true <-> "*"%string ∈ l) /\
  (All s = false -> (forall id, id ∈ IDs s <-> id ∈ l /\ Validate id = None) /\
                    (forall g, g ∈ Groups s <-> g <> ""%string /\ group_item g ∈ l)).

Lemma FromStrings_parsed str skip s : skip = skipRequestor \/ skip = skip_nothing ->
  FromStrings str skip = Ok s -> parsed str s.
Proof.
  intros Hskip HF. pose proof (FromStrings_cases str skip) as Hc. rewrite HF in Hc.
  destruct Hc as (_ & Hok & Ha & Hf). split; [done|].
  assert (Hs : skip "*"%string = false) by (by destruct Hskip as [-> | ->]).
  assert (Hid : forall id, Validate id = None -> skip id = false)
    by (destruct Hskip as [-> | ->]; [apply valid_not_requestor|done]).
  assert (Hg : forall g, skip (group_item g) = false) by (by destruct Hskip as [-> | ->]).
  split; [rewrite Ha; tauto|]. intros E. destruct (Hf E) as [H1 H2]. split.
  - intros id. rewrite H1. split; [tauto|]. intros [? ?]. auto.
  - intros g. rewrite H2. split; [tauto|]. intros [? ?]. auto.
Qed.

Lemma FromStrings_ok str skip : is_ok (FromStrings str skip) = true <->
  forall x, x ∈ str -> skip x = false -> item_ok x.
Proof.
  pose proof (FromStrings_cases str skip) as Hc. destruct (FromStrings str skip); cbn.
  - split; [|done]. intros _. apply Hc.
  - split; [done|]. destruct Hc as (x & Hx & Hs & Hn). intros Hall. destruct (Hn (Hall x Hx Hs)).
Qed.

Lemma parsed_listed l s id : parsed l s -> Validate id = None ->
  in_set db (Some s) id <-> listed l id.
Proof.
  intros (_ & Ha & Hf) Hv. unfold in_set, listed. destruct (All s) eqn:E.
  - split; [|by left]. intros _. left. by apply Ha.
  - destruct (Hf eq_refl) as [Hi Hg]. rewrite Hi. setoid_rewrite Hg.
    assert (Hn : "*"%string ∉ l) by (intros Hs; apply Ha in Hs; done). split.
    + intros [?|[[? _]|(g & [? ?] & ?)]]; [done|tauto|]. right. right. eauto.
    + intros [?|[?|(g & ? & ? & ?)]]; [done|tauto|]. right. right. eauto.
Qed.

(** Printing a well-formed set keeps its members. *)
Lemma ToStrings_listed s id : set_ok s -> Validate id = None ->
  in_set db (Some s) id <-> listed (ToStrings (Some s)) id.
Proof.
  intros (Hall & Hids & Hgr) Hv. unfold listed. destruct (All s) eqn:E.
  - unfold ToStrings. cbn [IsEmpty]. rewrite E. cbn. rewrite E. split; [intros _; left; by left|by left].
  - setoid_rewrite elem_of_ToStrings; [|done..]. cbn. rewrite E. split.
    + intros [?|[?|(g & ? & ?)]]; [done|by right; left; left|]. right. right. exists g. eauto 10.
    + intros [[Hs|(g & Hg & _)]|[[?|(g & -> & _)]|(g & Hne & [Hg|(g' & ->%group_item_inj & ?)] & ?)]].
      * by apply Hids in Hs.
      * done.
      * tauto.
      * by apply valid_not_group in Hv.
      * apply Hids in Hg. by apply valid_not_group in Hg.
      * eauto.
Qed.
End Listed.

(** * Validated rules *)
Lemma validate_item_nil v x : validate_item v x = [] ->
  x ∈ AllowReservedWords v \/ (exists g, g <> ""%string /\ x = group_item g) \/ Validate x = None.
Proof.
  unfold validate_item. destruct (existsb _ _) eqn:Er.
  { apply existsb_exists in Er as (y & Hy & ->%String.eqb_eq). left. by apply list_elem_of_In. }
  intros Hx. right. destruct (HasPrefix x "group:") eqn:Ep.
  - left. apply HasPrefix_spec in Ep as [g ->]. exists g. split; [|done]. intros ->.
    destruct (AllowGroups v); cbn in Hx; done.
  - right. unfold MakeIdentity in Hx. by destruct (Validate x).
Qed.

Lemma validate_nil v items x : validate v items = [] -> x ∈ items ->
  x ∈ AllowReservedWords v \/ (exists g, g <> ""%string /\ x = group_item g) \/ Validate x = None.
Proof.
  unfold validate. destruct items as [|y items]; [set_solver|]. generalize (y :: items). clear.
  intros l Hl Hx. apply validate_item_nil. induction l as [|z l IH]; [set_solver|].
  cbn in Hl. apply app_eq_nil in Hl as [Hz Hl]. apply elem_of_cons in Hx as [->|Hx]; auto.
Qed.

(** A field of a valid rule parses, if its reserved words do or are skipped. *)
Lemma validated_parses v items skip :
  (forall w, w ∈ AllowReservedWords v -> w = "*"%string \/ skip w = true) ->
  validate v items = [] -> exists s, FromStrings items skip = Ok s.
Proof.
  intros Hr Hv. assert (Hok : is_ok (FromStrings items skip) = true).
  { apply FromStrings_ok. intros x Hx Hs. destruct (validate_nil v items x Hv Hx) as [Hw|[Hg|Hid]].
    - destruct (Hr x Hw) as [->|?]; [by left|congruence].
    - right. by left.
    - right. by right. }
  destruct (FromStrings items skip) as [s|]; [by exists s|done].
Qed.

Lemma sliceHasString_spec l x : sliceHasString l x = true <-> x ∈ l.
Proof.
  induction l as [|y l IH]; cbn; [set_solver|]. rewrite elem_of_cons.
  destruct (String.eqb_spec y x) as [->|]; [naive_solver|]. rewrite IH. naive_solver.
Qed.

(** What preprocessing keeps of a rule. *)
Definition prepared (r : DelegationRule) (d : delegationRule) : Prop :=
  rule d = r /\ validateRule r = [] /\
  parsed (RequestorField r) (requestors d) /\ parsed (AllowedToImpersonate r) (delegators d) /\
  parsed (AllowedAudience r) (audience d) /\ parsed (TargetService r) (services d) /\
  (addRequestorAsDelegator d = true <-> Requestor ∈ AllowedToImpersonate r) /\
  (addRequestorToAudience d = true <-> Requestor ∈ AllowedAudience r).

Lemma makeDelegationRule_spec r :
  (exists d, makeDelegationRule r = Ret (Ok d) /\ prepared r d) \/
  (validateRule r <> [] /\ makeDelegationRule r = Ret (Err (validateRule r))).
Proof.
  unfold makeDelegationRule. destruct (validateRule r) as [|e es] eqn:Ev; [left|by right].
  pose proof Ev as Hv. unfold validateRule in Hv.
  apply app_eq_nil in Hv as [_ [H1 [H2 [H3 [H4 _]%app_eq_nil]%app_eq_nil]%app_eq_nil]%app_eq_nil].
  apply (validated_parses _ _ skip_nothing) in H1 as [s1 E1]; [|set_solver].
  apply (validated_parses _ _ skipRequestor) in H2 as [s2 E2]; [|cbn; set_solver].
  apply (validated_parses _ _ skipRequestor) in H3 as [s3 E3]; [|cbn; set_solver].
  apply (validated_parses _ _ skip_nothing) in H4 as [s4 E4]; [|cbn; set_solver].
  rewrite E1, E2, E3, E4. cbn. eexists. split; [done|].
  split; [done|]. split; [done|].
  do 4 (split; [eapply FromStrings_parsed; [|eassumption]; auto|]).
  split; apply sliceHasString_spec.
Qed.

(** * Matching *)
Section Matching.
Context {D : Type} `{GroupsDB D} (db : D).

(** What a rule of the config permits, read off its fields: who may request,
    whom for, for which audience and for which services. *)
Definition rule_permits (r : DelegationRule) (req del : Identity) (aud svc : list string) : Prop :=
  listed db (RequestorField r) req /\
  ((Requestor ∈ AllowedToImpersonate r /\ del = req) \/ listed db (AllowedToImpersonate r) del) /\
  (forall x, x ∈ aud -> "*"%string ∈ AllowedAudience r \/ x ∈ AllowedAudience r \/
     (Requestor ∈ AllowedAudience r /\ x = req)) /\
  (forall x, x ∈ svc -> "*"%string ∈ TargetService r \/ x ∈ TargetService r).

Definition query_ok (q : RulesQuery) : Prop :=
  Validate (q_Requestor q) = None /\ Validate (q_Delegator q) = None /\
  set_ok (q_Audience q) /\ set_ok (q_Services q).

Definition query_permitted (r : DelegationRule) (q : RulesQuery) : Prop :=
  rule_permits r (q_Requestor q) (q_Delegator q) (ToStrings (Some (q_Audience q)))
    (ToStrings (Some (q_Services q))).

(** Inclusion in a parsed set, perhaps extended by one identity. *)
Lemma parsed_superset L a (add : bool) x s : parsed L a -> set_ok s -> Validate x = None ->
  set_incl (Some s) (if add then Extend (Some a) x else Some a) <->
  forall y, y ∈ ToStrings (Some s) -> "*"%string ∈ L \/ y ∈ L \/ (add = true /\ y = x).
Proof.
  intros (_ & Ha & Hf) (Hall & Hids & Hgr) Hx.
  assert (Ht : exists t, (if add then Extend (Some a) x else Some a) = Some t /\ All t = All a /\
     (All a = false -> (forall id, id ∈ IDs t <-> (add = true /\ id = x) \/ id ∈ IDs a) /\
        Groups t = Groups a)).
  { destruct add; [|exists a; split; [done|]; split; [done|]; intros _; split; [|done]; naive_solver].
    destruct (Extend_spec a x) as (t & Et & Hta & Htf). exists t. split; [done|]. split; [done|].
    intros E. destruct (Htf E) as [-> ->]. split; [|done]. set_solver. }
  destruct Ht as (t & -> & Hta & Htf). unfold set_incl. rewrite Hta. destruct (All a) eqn:E.
  { split; [|by left]. intros _ y _. left. by apply Ha. }
  assert (Hns : "*"%string ∉ L) by (intros Hs; apply Ha in Hs; done).
  destruct (Htf eq_refl) as [Hti ->]. destruct (Hf eq_refl) as [Hi Hg]. clear Htf Hf.
  destruct (All s) eqn:Es.
  { split; [intros [?|[? _]]; done|]. intros Hy. exfalso.
    destruct (Hy "*"%string) as [?|[?|[_ <-]]]; try done.
    unfold ToStrings. cbn [IsEmpty]. rewrite Es. by left. }
  setoid_rewrite elem_of_ToStrings; [|done]. split.
  - intros [?|(_ & Hsi & Hsg)]; [done|]. intros y [Hy|(g & -> & Hy)].
    + apply Hsi, Hti in Hy as [?|Hy]; [tauto|]. apply Hi in Hy. tauto.
    + apply Hsg, Hg in Hy. tauto.
  - intros Hy. right. split; [done|]. split.
    + intros id Hid. apply Hti. specialize (Hids id Hid).
      destruct (Hy id (or_introl Hid)) as [?|[?|?]]; [done| |tauto]. right. apply Hi. auto.
    + intros g Hin. apply Hg. specialize (Hgr g Hin). split; [done|].
      destruct (Hy (group_item g)) as [?|[?|[_ <-]]]; [eauto|done..|]. by apply valid_not_group in Hx.
Qed.

Lemma matchesQuery_spec r d q b : prepared r d -> query_ok q ->
  matchesQuery db d q = Ok b -> (b = true <-> query_permitted r q).
Proof.
  intros (Hr & _ & Hreq & Hdel & Haud & Hsvc & Hadd & Hadd') (Hvr & Hvd & Hqa & Hqs).
  unfold matchesQuery, query_permitted, rule_permits.
  destruct (Set_IsMember db (Some (requestors d)) _) as [f|] eqn:E1; [|done].
  apply Set_IsMember_spec in E1. rewrite (parsed_listed db _ _ _ Hreq Hvr) in E1. cbn.
  destruct f; cbn; [|intros [= <-]; split; [done|]; intros (? & _); by apply E1].
  destruct (Set_IsMember db (if addRequestorAsDelegator d then _ else _) _) as [f|] eqn:E2; [|done].
  apply Set_IsMember_spec in E2. cbn.
  assert (E2' : f = true <-> (Requestor ∈ AllowedToImpersonate r /\ q_Delegator q = q_Requestor q) \/
    listed db (AllowedToImpersonate r) (q_Delegator q)).
  { rewrite E2, <-(parsed_listed db _ _ _ Hdel Hvd), <-Hadd.
    destruct (addRequestorAsDelegator d); [rewrite Extend_in_set; tauto|]. naive_solver. }
  destruct f; cbn; [|intros [= <-]; split; [done|]; intros (_ & ? & _); by apply E2'].
  unfold IsSuperset. pose proof (IsSubset_spec (Some (q_Audience q))
    (if addRequestorToAudience d then Extend (Some (audience d)) (q_Requestor q) else Some (audience d))) as E3.
  rewrite (parsed_superset _ _ _ _ _ Haud Hqa Hvr) in E3. setoid_rewrite Hadd' in E3.
  destruct (IsSubset _ _); cbn; [|intros [= <-]; split; [done|]; intros (_ & _ & ? & _); by apply E3].
  pose proof (IsSubset_spec (Some (q_Services q)) (Some (services d))) as E4.
  rewrite (parsed_superset _ _ false _ _ Hsvc Hqs Hvr) in E4.
  assert (E4' : IsSubset (Some (q_Services q)) (Some (services d)) = true <->
    forall x, x ∈ ToStrings (Some (q_Services q)) -> "*"%string ∈ TargetService r \/ x ∈ TargetService r).
  { rewrite E4. split; intros Hx y Hy; specialize (Hx y Hy); naive_solver. }
  destruct (IsSubset _ _); cbn; intros [= <-]; [|split; [done|]; intros (_ & _ & _ & ?); by apply E4'].
  split; [|done]. intros _. tauto.
Qed.

Lemma make_rules_spec cfg :
  (exists ds, make_rules cfg = Ret (Ok ds) /\ Forall2 prepared cfg ds) \/
  (exists e r, make_rules cfg = Ret (Err e) /\ r ∈ cfg /\ validateRule r <> []).
Proof.
  induction cfg as [|r cfg IH]; cbn; [left; by exists []|].
  destruct (makeDelegationRule_spec r) as [(d & -> & Hd)|[Hv ->]]; cbn.
  - destruct IH as [(ds & -> & Hds)|(e & r' & -> & Hr & Hv)]; cbn.
    + left. exists (d :: ds). split; [done|]. by constructor.
    + right. exists e, r'. split; [done|]. split; [by right|done].
  - right. exists (validateRule r), r. split; [done|]. split; [by left|done].
Qed.

(** The rules that match are those that permit the query, in order. *)
Lemma find_matches_spec cfg ds q ms : Forall2 prepared cfg ds -> query_ok q ->
  find_matches db ds q = Ok ms ->
  match ms with
  | [] => Forall (fun r => ~ query_permitted r q) cfg
  | r :: ms' => exists l1 l2, cfg = l1 ++ r :: l2 /\ query_permitted r q /\
      Forall (fun r => ~ query_permitted r q) l1 /\
      (ms' = [] -> Forall (fun r => ~ query_permitted r q) l2)
  end.
Proof.
  intros Hp Hq. revert ms. induction Hp as [|r d cfg ds Hrd Hp IH]; intros ms; cbn [find_matches].
  { intros [= <-]. constructor. }
  destruct (matchesQuery db d q) as [b|] eqn:Em; [|done].
  apply (matchesQuery_spec r) in Em; [|done..].
  destruct (find_matches db ds q) as [ms'|]; [|done]. cbn. intros [= <-].
  specialize (IH ms' eq_refl). destruct b.
  - destruct Hrd as (-> & _). exists [], cfg. split; [done|]. split; [by apply Em|]. split; [constructor|].
    intros ->. done.
  - assert (Hn : ~ query_permitted r q) by (intros ?%Em; done). destruct ms' as [|r' ms'].
    + by constructor.
    + destruct IH as (l1 & l2 & -> & Hr' & Hl1 & Hl2). exists (r :: l1), l2. split; [done|]. split; [done|]. split; [by constructor|done].
Qed.
End Matching.

(** * The query of a request *)
Lemma set_ok_AddIdentity s id : set_ok s -> Validate id = None -> set_ok (AddIdentity s id).
Proof.
  intros (Hall & Hids & Hgr) Hv. unfold AddIdentity. destruct (All s) eqn:E; [by split; [rewrite E|]|].
  split; [done|]. split; cbn; [|done]. intros x [->%elem_of_singleton|?]%elem_of_union; auto.
Qed.

Lemma FromStrings_set_ok str skip s : FromStrings str skip = Ok s -> set_ok s.
Proof. intros E. pose proof (FromStrings_cases str skip) as H. rewrite E in H. apply H. Qed.

Section Query.
Context (fetch : string -> result FetchError Identity) (arrival : list string -> list string)
  (fetch_valid : forall url id, fetch url = Ok id -> Validate id = None).

Lemma receive_ok urls s s' : set_ok s -> receive fetch urls s = Ok s' -> set_ok s'.
Proof.
  revert s. induction urls as [|u urls IH]; intros s Hs; cbn; [by intros [= <-]|].
  destruct (fetch u) as [id|] eqn:E; [|done]. apply IH, set_ok_AddIdentity; eauto.
Qed.

Lemma buildRulesQuery_ok req requestor q : Validate requestor = None ->
  buildRulesQuery fetch arrival req requestor = Ok q ->
  query_ok q /\ q_Requestor q = requestor /\
  q_Delegator q = (if String.eqb (req_DelegatedIdentity req) Requestor then requestor
                   else req_DelegatedIdentity req).
Proof.
  intros Hv. unfold buildRulesQuery, MakeIdentity.
  destruct (String.eqb _ ""); [done|].
  destruct (String.eqb _ Requestor) eqn:Er; [|destruct (Validate (req_DelegatedIdentity req)) eqn:Ed; [done|]]; cbn;
    (case_bool_decide; [done|]);
    (destruct (FromStrings (req_Audience req) skipRequestor) as [aud|] eqn:Ea; [|done]; cbn);
    (case_bool_decide; [done|]);
    (destruct (FromStrings (filter _ _) skip_nothing) as [svc|] eqn:Es; [|done]; cbn);
    (destruct (negb _); [done|]); (destruct (existsb _ _); [done|]).
  all: destruct (if negb (All svc) && _ then _ else _) as [svc'|] eqn:Ev; [|done]; cbn; intros [= <-].
  all: unfold query_ok; cbn; (split; [|done]); repeat (split; [done|]).
  all: split; [destruct (sliceHasString _ _); eauto using set_ok_AddIdentity, FromStrings_set_ok|].
  all: destruct (negb _ && _); [|injection Ev as <-; eauto using FromStrings_set_ok].
  all: eapply receive_ok; [|exact Ev]; eauto using FromStrings_set_ok.
Qed.
End Query.

(** Replies in any order. *)
Lemma AddIdentity_comm s a b : AddIdentity (AddIdentity s a) b = AddIdentity (AddIdentity s b) a.
Proof.
  unfold AddIdentity. destruct (All s) eqn:E; cbn; rewrite ?E; [done|]. f_equal.
  rewrite !(assoc_L (∪)). f_equal. apply (comm_L (∪)).
Qed.

(** The identities of the target services may be resolved in any order: one
    order of the replies succeeds exactly when every other does, and with the
    same set. *)
Theorem receive_order fetch urls urls' s :
  Permutation urls urls' ->
  (forall s', receive fetch urls s = Ok s' <-> receive fetch urls' s = Ok s').
Proof.
  intros Hp. revert s. induction Hp as [|u l l' _ IH|u v l|l l' l'' _ IH1 _ IH2]; intros s s'; cbn.
  - done.
  - destruct (fetch u); [apply IH|done].
  - destruct (fetch u), (fetch v); cbn; try done. by rewrite AddIdentity_comm.
  - by rewrite IH1.
Qed.

Lemma i32_small z : - 2 ^ 31 <= z < 2 ^ 31 -> i32 z = z.
Proof. unfold i32. intros. rewrite Z.mod_small; lia. Qed.

Lemma validateRule_duration r : validateRule r = [] -> 0 < MaxValidityDuration r <= 86400.
Proof.
  unfold validateRule. rewrite !app_assoc. intros [_ Hd]%app_eq_nil. revert Hd.
  destruct (Z.eqb_spec (MaxValidityDuration r) 0); [done|].
  destruct (Z.ltb_spec (MaxValidityDuration r) 0); [done|].
  destruct (Z.ltb_spec (24 * 3600) (MaxValidityDuration r)); [done|]. lia.
Qed.

Section Minting.
Context {D : Type} `{GroupsDB D} {Cert : Type} (crypto : TokenCrypto Cert) (env : MintEnv D)
  (cfg : list DelegationRule) (rev : string) (rs : Rules)
  (Hrules : prepareRules cfg rev = Ret (Ok rs)) (Henv : env_Rules env = Some rs)
  (Huser : Validate (env_User env) = None)
  (Hfetch : forall url id, env_fetch env url = Ok id -> Validate id = None).

Lemma rules_prepared : Forall2 prepared cfg (rules rs).
Proof.
  unfold prepareRules in Hrules. destruct (make_rules_spec cfg) as [(ds & E & Hds)|(e & r & E & _)];
    rewrite E in Hrules; cbn in Hrules; [|done]. by injection Hrules as <-.
Qed.

(** What a minted token says and which rule allowed it. *)
Record mint_facts (req : MintDelegationTokenRequest) (resp : MintDelegationTokenResponse)
    (q : RulesQuery) (r : DelegationRule) (l1 l2 : list DelegationRule) : Prop := {
  mf_peer : env_User env = env_Peer env;
  mf_anon : env_User env <> AnonymousIdentity;
  mf_query : query_ok q;
  mf_requestor : q_Requestor q = env_User env;
  mf_delegator : q_Delegator q = (if String.eqb (req_DelegatedIdentity req) Requestor then env_User env
                                  else req_DelegatedIdentity req);
  mf_cfg : cfg = l1 ++ r :: l2;
  mf_rule : query_permitted (env_DB env) r q;
  mf_others : Forall (fun r' => ~ query_permitted (env_DB env) r' q) (l1 ++ l2);
  mf_max : MaxValidityDuration r <= 86400;
  mf_dur : 0 < ValidityDuration (DelegationSubtoken resp) <= MaxValidityDuration r;
  mf_kind : st_Kind (DelegationSubtoken resp) = BEARER_DELEGATION_TOKEN;
  mf_del : DelegatedIdentity (DelegationSubtoken resp) = q_Delegator q;
  mf_req : RequestorIdentity (DelegationSubtoken resp) = q_Requestor q;
  mf_time : CreationTime (DelegationSubtoken resp) = env_Now env;
  mf_aud : Audience (DelegationSubtoken resp) = ToStrings (Some (q_Audience q));
  mf_svc : Services (DelegationSubtoken resp) = ToStrings (Some (q_Services q));
  mf_signed : SignToken crypto env (DelegationSubtoken resp) = Some (Token resp)
}.

Lemma FindMatchingRule_spec q r : query_ok q -> FindMatchingRule (env_DB env) rs q = Ok r ->
  exists l1 l2, cfg = l1 ++ r :: l2 /\ query_permitted (env_DB env) r q /\ validateRule r = [] /\
    Forall (fun r' => ~ query_permitted (env_DB env) r' q) (l1 ++ l2).
Proof.
  intros Hq. unfold FindMatchingRule. destruct (find_matches _ _ _) as [ms|] eqn:E; [|done].
  pose proof rules_prepared as Hp. pose proof (find_matches_spec _ _ _ _ _ Hp Hq E) as Hm.
  destruct ms as [|r' [|]]; [done| |done]. intros [= ->].
  destruct Hm as (l1 & l2 & Hcfg & Hr & H1 & H2). exists l1, l2. split; [done|]. split; [done|]. split.
  - rewrite Hcfg in Hp. apply Forall2_app_inv_l in Hp as (? & ? & _ & Hp & _).
    apply Forall2_cons_inv_l in Hp as (d & ? & (_ & ? & _) & _). done.
  - apply Forall_app. auto.
Qed.

Lemma mint_spec validity q ver resp : - 2 ^ 31 <= validity < 2 ^ 31 ->
  mint crypto env validity q ver = Ok resp ->
  let st := DelegationSubtoken resp in
  st_Kind st = BEARER_DELEGATION_TOKEN /\ DelegatedIdentity st = q_Delegator q /\
  RequestorIdentity st = q_Requestor q /\ CreationTime st = env_Now env /\ ValidityDuration st = validity /\
  Audience st = ToStrings (Some (q_Audience q)) /\ Services st = ToStrings (Some (q_Services q)) /\
  SignToken crypto env st = Some (Token resp).
Proof.
  intros Hv. unfold mint. destruct (env_GenerateTokenID env) as [i|]; [|done].
  destruct (SignToken _ _ _) as [tok|] eqn:E; [|done]. intros [= <-]. cbn. rewrite i32_small in * by done.
  by repeat (split; [done|]).
Qed.

Lemma MintDelegationToken_spec req resp : MintDelegationToken crypto env req = Ok resp ->
  exists q r l1 l2, mint_facts req resp q r l1 l2.
Proof.
  unfold MintDelegationToken.
  destruct (String.eqb_spec (env_User env) (env_Peer env)) as [Hp|]; [|done]. cbn [negb].
  destruct (String.eqb_spec (env_User env) AnonymousIdentity) as [|Ha]; [done|].
  destruct (env_ServiceVersion env) as [ver|]; [|done]. rewrite Henv.
  destruct (IsAuthorizedRequestor _ _ _) as [[]|]; [|done..].
  set (validity := if req_ValidityDuration req =? 0 then 3600 else req_ValidityDuration req).
  destruct (Z.ltb_spec validity 0) as [|Hpos]; [done|].
  destruct (buildRulesQuery _ _ req (env_User env)) as [q|[]] eqn:Eq; try done.
  apply buildRulesQuery_ok in Eq as (Hq & Hreq & Hdel); [|done..].
  destruct (FindMatchingRule _ _ _) as [r|[]] eqn:Ef; [|by destruct (db_transient e)|done..].
  apply FindMatchingRule_spec in Ef as (l1 & l2 & Hcfg & Hr & Hvr & Ho); [|done].
  pose proof (validateRule_duration r Hvr) as Hmax.
  destruct (Z.ltb_spec (MaxValidityDuration r) validity) as [|Hle]; [done|]. intros Hm.
  apply mint_spec in Hm as (Hk & Hd & Hrq & Ht & Hval & Haud & Hsvc & Hsig); [|lia].
  exists q, r, l1, l2. split; try done; [lia|]. rewrite Hval.
  assert (validity <> 0); [|lia]. unfold validity. destruct (Z.eqb_spec (req_ValidityDuration req) 0); lia.
Qed.
End Minting.

(** C31. Whenever the token server mints a token, the caller presents its own
    identity and is not anonymous, and exactly one rule of the config permits
    what the token says: its requestor, delegated identity, audience and
    services; the token is valid for a positive time, at most the rule's
    maximum and a day, starting now. *)
Theorem minted_token_authorized {D} `{GroupsDB D} {Cert} (crypto : TokenCrypto Cert) (env : MintEnv D)
    cfg rev rs req resp :
  prepareRules cfg rev = Ret (Ok rs) -> env_Rules env = Some rs ->
  Validate (env_User env) = None ->
  (forall url id, env_fetch env url = Ok id -> Validate id = None) ->
  MintDelegationToken crypto env req = Ok resp ->
  let st := DelegationSubtoken resp in
  let permits r := rule_permits (env_DB env) r (RequestorIdentity st) (DelegatedIdentity st)
                     (Audience st) (Services st) in
  env_User env = env_Peer env /\ env_User env <> AnonymousIdentity /\
  RequestorIdentity st = env_User env /\ CreationTime st = env_Now env /\
  exists l1 r l2, cfg = l1 ++ r :: l2 /\ permits r /\ (forall r', r' ∈ l1 ++ l2 -> ~ permits r') /\
    0 < ValidityDuration st <= MaxValidityDuration r /\ MaxValidityDuration r <= 86400.
Proof.
  intros Hrs Henv Hu Hf Hm. destruct (MintDelegationToken_spec crypto env cfg rev rs Hrs Henv Hu Hf _ _ Hm)
    as (q & r & l1 & l2 & []). cbn.
  rewrite mf_req0, mf_del0, mf_aud0, mf_svc0. split; [done|]. split; [done|]. split; [done|]. split; [done|].
  exists l1, r, l2. rewrite Forall_forall in mf_others0. split; [done|]. split; [done|]. split; [done|]. lia.
Qed.

(** Preprocessing the rules never panics; it succeeds exactly when every
    rule is valid. *)
Theorem prepareRules_total cfg rev :
  exists res, prepareRules cfg rev = Ret res /\
    (is_ok res = true <-> forall r, r ∈ cfg -> validateRule r = []).
Proof.
  unfold prepareRules. destruct (make_rules_spec cfg) as [(ds & -> & Hds)|(e & r & -> & Hr & Hv)]; cbn.
  - eexists. split; [done|]. split; [|done]. intros _ r Hr.
    apply list_elem_of_lookup in Hr as [i Hi]. destruct (Forall2_lookup_l _ _ _ _ _ Hds Hi) as (d & _ & _ & ? & _). done.
  - eexists. split; [done|]. split; [done|]. intros Hall. by destruct Hv; apply Hall.
Qed.

(** * Checking a token *)
Lemma scan_audience_spec l ident :
  match scan_audience l ident with
  | None => "*"%string ∈ l \/ ident ∈ l
  | Some gs => "*"%string ∉ l /\ ident ∉ l /\ forall g, g ∈ gs <-> group_item g ∈ l
  end.
Proof.
  induction l as [|a l IH]; cbn [scan_audience]; [set_solver|].
  destruct (String.eqb_spec a "*") as [->|Hs]; [by left; left|]. cbn [orb].
  destruct (String.eqb_spec a ident) as [->|Hi]; [by right; left|].
  destruct (scan_audience l ident) as [gs|]; cbn; [|set_solver].
  destruct IH as (Hns & Hni & Hg). split; [set_solver|]. split; [set_solver|].
  intros g. rewrite elem_of_cons. destruct (HasPrefix a "group:") eqn:Ep.
  - apply HasPrefix_spec in Ep as [h ->]. change (String.append "group:" h) with (group_item h).
    rewrite elem_of_cons, <-Hg. unfold group_item at 1. rewrite TrimPrefix_app.
    split; intros [E|?]; [left; by rewrite E|by right|left; by apply group_item_inj in E|by right].
  - rewrite Hg. split; [by right|]. intros [<-|?]; [|done]. unfold group_item in Ep.
    by rewrite HasPrefix_app in Ep.
Qed.

Section Checking.
Context {D : Type} `{GroupsDB D} {Cert : Type} (crypto : TokenCrypto Cert).

(** The audience check of a printed set. *)
Lemma checkSubtokenAudience_spec t s ident checker :
  Audience t = ToStrings (Some s) -> set_ok s ->
  (forall gs, is_ok (db_IsMember checker ident gs) = true) ->
  match checkSubtokenAudience t ident checker with
  | Ok _ => listed checker (Audience t) ident
  | Err tr => tr = false /\ ~ listed checker (Audience t) ident
  end.
Proof.
  intros Ha (Hall & Hids & Hgr) Hok. unfold checkSubtokenAudience.
  assert (Hne : forall g, group_item g ∈ Audience t -> g <> ""%string).
  { intros g Hg ->. rewrite Ha in Hg. destruct (All s) eqn:E.
    - unfold ToStrings in Hg. cbn in Hg. rewrite E in Hg. cbn in Hg. set_solver.
    - apply elem_of_ToStrings in Hg as [Hg|(g & Heq%group_item_inj & Hg)]; [|subst|done].
      + apply Hids in Hg. by apply valid_not_group in Hg.
      + by apply Hgr in Hg. }
  clear Ha. destruct (Audience t) as [|a l]; [split; [done|]; intros [?|[?|(g & _ & ? & _)]]; set_solver|].
  remember (a :: l) as aud. clear Heqaud a l. pose proof (scan_audience_spec aud ident) as Hs.
  destruct (scan_audience aud ident) as [gs|]; [|unfold listed; tauto].
  destruct Hs as (Hns & Hni & Hg). specialize (Hok gs).
  destruct (db_IsMember checker ident gs) as [b|] eqn:Eb; [|done]. apply db_IsMember_law in Eb.
  assert (Hb : b = true <-> listed checker aud ident).
  { rewrite Eb. unfold listed. setoid_rewrite Hg. split.
    - intros (g & ? & ?). right. right. exists g. auto.
    - intros [?|[?|(g & ? & ? & ?)]]; [done..|]. by exists g. }
  destruct b; [by apply Hb|]. split; [done|]. intros ?%Hb. done.
Qed.

Lemma checkSubtokenServices_spec t serviceID :
  checkSubtokenServices t serviceID = true <-> "*"%string ∈ Services t \/ serviceID ∈ Services t.
Proof.
  unfold checkSubtokenServices. destruct (Services t) as [|a l]; [set_solver|].
  rewrite existsb_exists. setoid_rewrite orb_true_iff. setoid_rewrite String.eqb_eq.
  setoid_rewrite <-list_elem_of_In. naive_solver.
Qed.

Lemma checkSubtokenExpiration_spec t now :
  0 < CreationTime t < 2 ^ 62 -> 0 < ValidityDuration t < 2 ^ 31 -> 0 <= now < 2 ^ 62 ->
  checkSubtokenExpiration t now = true <->
  CreationTime t < now + 30 /\ now <= CreationTime t + ValidityDuration t.
Proof.
  intros Hc Hd Hn. unfold checkSubtokenExpiration, allowedClockDriftSec.
  rewrite !i64_small by (unfold in_i64; lia). split_matches; bool_to_prop; lia.
Qed.

(** What the checker relies on: messages survive the wire, and signatures of
    the server verify under its published certificates. *)
Record CryptoLaws (certs : PublicCertificates Cert) : Prop := {
  subtoken_wire st b : MarshalSubtoken crypto st = Some b -> UnmarshalSubtoken crypto b = Some st;
  token_wire tok b : MarshalToken crypto tok = Some b -> UnmarshalToken crypto b = Some tok /\ bytes_ok b;
  sign_verifies b k sig : SignBytes crypto b = Some (k, sig) -> CheckSignature crypto certs k b sig = true
}.

Lemma unseal_minted (env : MintEnv D) certs st token account getCerts :
  CryptoLaws certs -> env_ServiceAccount env = Some account ->
  Validate (String.append "user:" account) = None ->
  getCerts (String.append "user:" account) = Ok (Some certs) ->
  SignToken crypto env st = Some token ->
  (forall blob, DecodeString token = Some blob -> Z.of_nat (List.length blob) <= maxTokenSize) ->
  exists tok, deserializeToken crypto token = Some tok /\ unsealToken crypto tok getCerts = Ok st.
Proof.
  intros [Hst Htok Hsig] Hacc Hv Hcerts Hs Hsize. unfold SignToken in Hs. rewrite Hacc in Hs. cbn in Hs.
  destruct (MarshalSubtoken crypto st) as [blob|] eqn:Em; [|done]. cbn in Hs.
  destruct (SignBytes crypto blob) as [[k sig]|] eqn:Es; [|done]. cbn in Hs.
  destruct (MarshalToken crypto _) as [b|] eqn:Et; [|done]. cbn in Hs. injection Hs as <-.
  destruct (Htok _ _ Et) as [Hun Hb]. rewrite Decode_Encode in Hsize by done. specialize (Hsize b eq_refl).
  eexists. unfold deserializeToken. rewrite Decode_Encode by done. cbn.
  destruct (Z.ltb_spec maxTokenSize (Z.of_nat (List.length b))); [lia|]. split; [exact Hun|].
  unfold unsealToken, MakeIdentity. cbn [SignerId SigningKeyId Pkcs1Sha256Sig SerializedSubtoken].
  rewrite Hv, Hcerts, (Hsig _ _ _ Es). by rewrite (Hst _ _ Em).
Qed.
End Checking.

(** Errors of the certificate lookup lose their transient tag. *)
Lemma unsealToken_never_transient {Cert} (crypto : TokenCrypto Cert) tok getCerts :
  unsealToken crypto tok getCerts <> Err true.
Proof.
  unfold unsealToken. destruct (MakeIdentity _) as [id|]; [|done].
  destruct (getCerts id) as [[certs|]|]; [|done..].
  destruct (CheckSignature _ _ _ _ _); [|done]. by destruct (UnmarshalSubtoken _ _).
Qed.

(** C30. A service accepts a minted token exactly from its creation (with the
    allowed clock drift) until its expiration, when the service is one of the
    target services and the presenter is in the audience, groups looked into;
    the caller then acts as the delegated identity.  Otherwise the token is
    forbidden, never malformed or unsigned. *)
Theorem CheckToken_minted {D} `{GroupsDB D} {Cert} (crypto : TokenCrypto Cert) (env : MintEnv D)
    cfg rev rs req resp certs account (params : CheckTokenParams) now :
  prepareRules cfg rev = Ret (Ok rs) -> env_Rules env = Some rs ->
  Validate (env_User env) = None ->
  (forall url id, env_fetch env url = Ok id -> Validate id = None) ->
  MintDelegationToken crypto env req = Ok resp ->
  CryptoLaws crypto certs ->
  env_ServiceAccount env = Some account -> Validate (String.append "user:" account) = None ->
  p_GetCertificates params (String.append "user:" account) = Ok (Some certs) ->
  p_Token params = Token resp ->
  (forall blob, DecodeString (Token resp) = Some blob -> Z.of_nat (List.length blob) <= maxTokenSize) ->
  (forall gs, is_ok (db_IsMember (p_GroupsChecker params) (p_PeerID params) gs) = true) ->
  0 < env_Now env < 2 ^ 62 -> 0 <= now < 2 ^ 62 ->
  let st := DelegationSubtoken resp in
  let accepted := env_Now env < now + 30 /\ now <= env_Now env + ValidityDuration st /\
    ("*"%string ∈ Services st \/ p_OwnServiceIdentity params ∈ Services st) /\
    listed (p_GroupsChecker params) (Audience st) (p_PeerID params) in
  (CheckToken crypto now params = Ok (DelegatedIdentity st) /\ accepted) \/
  (CheckToken crypto now params = Err ErrForbiddenDelegationToken /\ ~ accepted).
Proof.
  intros Hrs Henv Hu Hf Hm Hlaws Hacc Hav Hcerts Htok Hsize Hdb Hnow Hnow' st accepted.
  destruct (MintDelegationToken_spec crypto env cfg rev rs Hrs Henv Hu Hf _ _ Hm) as (q & r & l1 & l2 & []).
  destruct (unseal_minted crypto env certs _ _ account _ Hlaws Hacc Hav Hcerts mf_signed0 Hsize) as (tok & Hd & Hun).
  unfold CheckToken. rewrite Htok, Hd, Hun. fold st. unfold checkSubtoken.
  destruct mf_query0 as (_ & Hvd & Hqa & _). fold st in mf_kind0, mf_dur0, mf_time0, mf_del0, mf_aud0.
  rewrite mf_kind0.
  pose proof (checkSubtokenExpiration_spec st now ltac:(lia) ltac:(lia) Hnow') as He. rewrite mf_time0 in He.
  destruct (checkSubtokenExpiration st now); cbn [negb];
    [|right; split; [done|]; intros (? & ? & _); assert (false = true) by (by apply He); done].
  pose proof (checkSubtokenServices_spec st (p_OwnServiceIdentity params)) as Hs.
  destruct (checkSubtokenServices _ _); cbn [negb];
    [|right; split; [done|]; intros (_ & _ & ? & _); assert (false = true) by (by apply Hs); done].
  pose proof (checkSubtokenAudience_spec st _ (p_PeerID params) _ mf_aud0 Hqa Hdb) as Ha.
  destruct (checkSubtokenAudience _ _ _) as [u|tr].
  - left. unfold MakeIdentity. rewrite mf_del0, Hvd. split; [done|]. split; [by apply He|]. split; [by apply He|].
    split; [by apply Hs|done].
  - right. destruct Ha as [-> Ha]. split; [done|]. intros (_ & _ & _ & ?). done.
Qed.

(** * The theorems on a concrete server and service *)
#[export] Instance SubtokenKind_eq_dec : EqDecision SubtokenKind.
Proof. solve_decision. Defined.
#[export] Instance Subtoken_eq_dec : EqDecision Subtoken.
Proof. solve_decision. Defined.
#[export] Instance DelegationToken_eq_dec : EqDecision DelegationToken.
Proof. solve_decision. Defined.

Section Example.
Local Open Scope string_scope.

Definition example_rule : DelegationRule := {|
  Name := "rule"; Owner := []; RequestorField := ["group:a"]; AllowedToImpersonate := ["REQUESTOR"];
  AllowedAudience := ["REQUESTOR"; "group:b"]; TargetService := ["service:s1"; "service:s2"];
  MaxValidityDuration := 3600 |}.

Definition example_rules : Rules := {|
  revision := "r1";
  rules := [ {| rule := example_rule;
    requestors := {| All := false; IDs := ∅; Groups := {["a"]} |};
    delegators := empty_set;
    audience := {| All := false; IDs := ∅; Groups := {["b"]} |};
    services := {| All := false; IDs := {["service:s1"; "service:s2"]}; Groups := ∅ |};
    addRequestorAsDelegator := true; addRequestorToAudience := true |} ];
  rules_requestors := {| All := false; IDs := ∅; Groups := {["a"]} |} |}.

Definition example_subtoken : Subtoken := {|
  st_Kind := BEARER_DELEGATION_TOKEN; SubtokenId := 5; DelegatedIdentity := "user:x@y";
  RequestorIdentity := "user:x@y"; CreationTime := 1000; ValidityDuration := 3600;
  Audience := ["group:b"; "user:x@y"]; Services := ["service:s1"] |}.

Definition example_token : DelegationToken := {|
  SignerId := "user:token@server"; SigningKeyId := "key"; Pkcs1Sha256Sig := [9]; SerializedSubtoken := [1] |}.

Definition example_crypto : TokenCrypto unit := {|
  MarshalSubtoken st := if decide (st = example_subtoken) then Some [1] else None;
  UnmarshalSubtoken b := if decide (b = [1]) then Some example_subtoken else None;
  MarshalToken t := if decide (t = example_token) then Some [2; 250] else None;
  UnmarshalToken b := if decide (b = [2; 250]) then Some example_token else None;
  SignBytes b := Some ("key", [9]);
  ParseCertificate pem := if String.eqb pem "pem" then Some () else None;
  Cert_CheckSignature _ _ sig := bool_decide (sig = [9])
|}.

Definition example_certs : PublicCertificates unit := {|
  Certificates := [{| KeyName := "key"; X509CertificatePEM := "pem" |}]; cert_cache := ∅ |}.

Definition example_env : MintEnv SnapshotDB := {|
  env_User := "user:x@y"; env_Peer := "user:x@y"; env_ServiceVersion := Some "v1";
  env_Rules := Some example_rules; env_DB := example_snapshot;
  env_fetch _ := Err {| fetch_transient := true |}; env_arrival l := l;
  env_GenerateTokenID := Some 5; env_Now := 1000; env_ServiceAccount := Some "token@server" |}.

Definition example_req : MintDelegationTokenRequest := {|
  req_DelegatedIdentity := "REQUESTOR"; req_ValidityDuration := 0;
  req_Audience := ["REQUESTOR"; "group:b"]; req_Services := ["service:s1"] |}.

Definition example_resp : MintDelegationTokenResponse := {|
  Token := EncodeToString [2; 250]; DelegationSubtoken := example_subtoken; ServiceVersion := "v1" |}.

Definition example_params (peer : Identity) : CheckTokenParams (D := SnapshotDB) (Cert := unit) := {|
  p_Token := EncodeToString [2; 250]; p_PeerID := peer;
  p_GetCertificates id := Ok (if String.eqb id "user:token@server" then Some example_certs else None);
  p_GroupsChecker := example_snapshot; p_OwnServiceIdentity := "service:s1" |}.

Lemma example_prepared : prepareRules [example_rule] "r1" = Ret (Ok example_rules).
Proof. vm_compute. reflexivity. Qed.
Lemma example_minted : MintDelegationToken example_crypto example_env example_req = Ok example_resp.
Proof. vm_compute. reflexivity. Qed.

Example example_checked :
  map (fun '(peer, now) => CheckToken example_crypto now (example_params peer))
    [("user:x@y", 980); ("user:x@y", 960); ("user:x@y", 4600); ("user:x@y", 4601); ("user:z@y", 1000)] =
  [Ok "user:x@y"; Err ErrForbiddenDelegationToken; Ok "user:x@y";
   Err ErrForbiddenDelegationToken; Err ErrForbiddenDelegationToken].
Proof. vm_compute. reflexivity. Qed.

Lemma example_laws : CryptoLaws example_crypto example_certs.
Proof.
  split; cbn.
  - intros st b. destruct (decide (st = example_subtoken)) as [->|]; [|done]. by intros [= <-].
  - intros t b. destruct (decide (t = example_token)) as [->|]; [|done]. intros [= <-].
    split; [done|]. repeat constructor; done.
  - intros b k sig [= <- <-]. reflexivity.
Qed.

Lemma receive_order_witness :
  Permutation ["u"; "v"] ["v"; "u"] /\
  (let f u := Ok (String.append "service:" u) in
   receive f ["u"; "v"] empty_set = Ok {| All := false; IDs := {["service:u"; "service:v"]}; Groups := ∅ |} /\
   receive f ["v"; "u"] empty_set = Ok {| All := false; IDs := {["service:u"; "service:v"]}; Groups := ∅ |}).
Proof.
  assert (Hp : Permutation ["u"; "v"] ["v"; "u"]) by constructor.
  split; [exact Hp|]. intros f.
  assert (H : receive f ["u"; "v"] empty_set = Ok {| All := false; IDs := {["service:u"; "service:v"]}; Groups := ∅ |})
    by (vm_compute; reflexivity).
  split; [exact H|]. apply (receive_order f _ _ _ Hp). exact H.
Defined.

Lemma minted_token_authorized_witness :
  RequestorIdentity (DelegationSubtoken example_resp) = "user:x@y" /\
  exists l1 r l2, [example_rule] = (l1 ++ r :: l2)%list /\ 0 < 3600 <= MaxValidityDuration r.
Proof.
  destruct (minted_token_authorized example_crypto example_env [example_rule] "r1" example_rules example_req
    example_resp example_prepared eq_refl eq_refl ltac:(intros url id Hf; discriminate Hf) example_minted)
    as (_ & _ & Hr & _ & l1 & r & l2 & Hc & _ & _ & Hd & _).
  split; [exact Hr|]. exists l1, r, l2. split; [exact Hc|exact Hd].
Defined.

Lemma CheckToken_minted_witness :
  CheckToken example_crypto 2000 (example_params "user:z@y") = Err ErrForbiddenDelegationToken.
Proof.
  destruct (CheckToken_minted example_crypto example_env [example_rule] "r1" example_rules example_req
    example_resp example_certs "token@server" (example_params "user:z@y") 2000
    example_prepared eq_refl eq_refl ltac:(intros url id Hf; discriminate Hf) example_minted
    example_laws eq_refl eq_refl eq_refl eq_refl) as [[E _]|[E _]].
  - intros blob Hb. vm_compute in Hb. injection Hb as <-. vm_compute. discriminate.
  - intros gs. cbn. unfold snapshot_IsMember. destruct (IsMember_spec example_snapshot "user:z@y" gs) as (b & Hb & _).
    rewrite Hb. reflexivity.
  - cbn; lia.
  - lia.
  - vm_compute in E. discriminate E.
  - exact E.
Defined.
End Example.
