(* ===== verification/Varint.v ===== *)
(** Unsigned varints of the Go library (encoding/binary), which the record and
    bit field formats are made of. *)
From S2P Require Import Prelude.
Local Open Scope Z_scope.

(** [binary.PutUvarint]; a 64-bit number takes at most ten rounds. *)
Fixpoint put_loop (fuel : nat) (x : Z) : bytes :=
  match fuel with
  | O => []
  | S fuel => if 0x80 <=? x then Z.lor (u8 x) 0x80 :: put_loop fuel (Z.shiftr x 7) else [u8 x]
  end.
Definition PutUvarint (x : Z) : bytes := put_loop 10 x.
Arguments PutUvarint : simpl never.

Inductive VarintError := VarintEOF | VarintOverflow.

(** [binary.ReadUvarint] on a byte reader: the value and what is left. *)
Fixpoint read_loop (l : bytes) (i : Z) (x s : Z) : result VarintError (Z * bytes) :=
  match l with
  | [] => Err VarintEOF
  | b :: l =>
      if b <? 0x80 then
        if (9 <? i) || ((i =? 9) && (1 <? b)) then Err VarintOverflow
        else Ok (Z.lor x (u64 (Z.shiftl b s)), l)
      else read_loop l (i + 1) (Z.lor x (u64 (Z.shiftl (Z.land b 0x7f) s))) (s + 7)
  end.
Definition ReadUvarint (l : bytes) : result VarintError (Z * bytes) := read_loop l 0 0 0.

Example put_300 : PutUvarint 300 = [0xac; 0x02].
Proof. reflexivity. Qed.
Example read_300 : ReadUvarint [0xac; 0x02; 7] = Ok (300, [7]).
Proof. reflexivity. Qed.

Lemma lor_0x80 b : 0 <= b < 128 -> Z.lor b 0x80 = b + 128.
Proof. intros. rewrite Z.lor_comm. change 0x80 with (1 * 2 ^ 7). rewrite lor_disjoint_add by lia. lia. Qed.

Lemma u8_lor_0x80 x : 0 <= x -> Z.lor (u8 x) 0x80 = x mod 128 + 128.
Proof.
  intros Hx. rewrite <-lor_0x80 by (apply Z.mod_pos_bound; lia).
  assert (Hbit : forall i, Z.testbit 0x80 i = (7 =? i)) by (intros i; change 0x80 with (2 ^ 7); by rewrite Z.pow2_bits_eqb).
  change (x mod 128) with (x mod 2 ^ 7). unfold u8.
  apply Z.bits_inj'. intros i Hi. rewrite !Z.lor_spec, Hbit.
  destruct (Z.eqb_spec 7 i); [by rewrite !orb_true_r|]. rewrite !orb_false_r.
  destruct (decide (i < 7)); [by rewrite !Z.mod_pow2_bits_low by lia|].
  by rewrite !Z.mod_pow2_bits_high by lia.
Qed.

Lemma land_0x7f b : Z.land b 0x7f = b mod 128.
Proof. change 0x7f with (Z.ones 7). by rewrite Z.land_ones by lia. Qed.

Lemma put_loop_ok fuel x : bytes_ok (put_loop fuel x).
Proof.
  revert x. induction fuel as [|fuel IH]; intros x; cbn; [constructor|].
  destruct (0x80 <=? x) eqn:E; [|repeat constructor; apply u8_range].
  constructor; [|apply IH]. bool_to_prop. rewrite u8_lor_0x80 by lia.
  pose proof (Z.mod_pos_bound x 128). unfold in_u8. lia.
Qed.
Lemma PutUvarint_ok x : bytes_ok (PutUvarint x).
Proof. apply put_loop_ok. Qed.
#[export] Hint Resolve PutUvarint_ok : luci.

(** Reading what was put, from any state of the loop. *)
Lemma read_put_loop fuel x k acc l :
  0 <= x < 2 ^ (7 * Z.of_nat fuel) -> (fuel > 0)%nat ->
  0 <= k -> k + Z.of_nat fuel <= 10 -> x * 2 ^ (7 * k) < 2 ^ 64 -> 0 <= acc < 2 ^ (7 * k) ->
  read_loop (put_loop fuel x ++ l) k acc (7 * k) = Ok (acc + x * 2 ^ (7 * k), l).
Proof.
  revert x k acc. induction fuel as [|fuel IH]; intros x k acc Hx Hf Hk Hk' Hb Hacc; [lia|].
  assert (Hp : 0 < 2 ^ (7 * k)) by (apply Z.pow_pos_nonneg; lia).
  assert (Hlor : forall y, 0 <= y -> y * 2 ^ (7 * k) < 2 ^ 64 ->
    Z.lor acc (u64 (Z.shiftl y (7 * k))) = acc + y * 2 ^ (7 * k)).
  { intros y Hy Hyb. rewrite Z.shiftl_mul_pow2 by lia. rewrite u64_small by (unfold in_u64; nia).
    rewrite Z.lor_comm, lor_disjoint_add by lia. lia. }
  cbn [put_loop]. destruct (Z.leb_spec 0x80 x) as [Hge|Hlt]; cbn [app read_loop].
  - rewrite u8_lor_0x80 by lia. pose proof (Z.mod_pos_bound x 128 ltac:(lia)) as Hm.
    destruct (Z.ltb_spec (x mod 128 + 128) 128); [lia|].
    rewrite land_0x7f, Z.add_mod, Z.mod_same, Z.add_0_r, !Z.mod_mod by lia.
    pose proof (Z.div_mod x 128 ltac:(lia)) as Hdm.
    assert (Hpow : 2 ^ (7 * (k + 1)) = 128 * 2 ^ (7 * k)).
    { replace (7 * (k + 1)) with (7 + 7 * k) by lia. rewrite Z.pow_add_r by lia. done. }
    rewrite Hlor by nia. replace (7 * k + 7) with (7 * (k + 1)) by lia.
    rewrite Z.shiftr_div_pow2 by lia. change (2 ^ 7) with 128.
    rewrite IH; [f_equal; f_equal; nia| | |lia|lia|nia|nia].
    + split; [apply Z.div_pos; lia|]. apply Z.div_lt_upper_bound; [lia|].
      change 128 with (2 ^ 7). rewrite <-Z.pow_add_r by lia. replace (7 + 7 * Z.of_nat fuel) with (7 * Z.of_nat (S fuel)) by lia. lia.
    + destruct fuel; [|lia]. cbn in Hx. lia.
  - rewrite u8_small by (unfold in_u8; lia).
    destruct (Z.ltb_spec x 0x80); [|lia].
    assert (Hov : (9 <? k) || ((k =? 9) && (1 <? x)) = false).
    { apply orb_false_iff. split; [lia|]. apply andb_false_iff. destruct (Z.eqb_spec k 9) as [->|]; [right|by left].
      apply Z.ltb_ge. change (2 ^ (7 * 9)) with (2 ^ 63) in Hb. lia. }
    rewrite Hov, Hlor by nia. done.
Qed.

(** The varint of a 64-bit number reads back, and what follows is left. *)
Lemma Read_Put x l : in_u64 x -> ReadUvarint (PutUvarint x ++ l) = Ok (x, l).
Proof.
  intros Hx. unfold ReadUvarint, PutUvarint, in_u64 in *.
  change 0 with (7 * 0) at 3. rewrite (read_put_loop 10 x 0 0 l); [f_equal; f_equal; lia|split; [lia|]|lia..].
  eapply Z.lt_le_trans; [apply Hx|]. apply Z.pow_le_mono_r; lia.
Qed.
#[export] Hint Rewrite Read_Put using assumption : luci.
