(* ===== verification/RecordIO.v ===== *)
(** RecordIO framing (common/data/recordio): a frame is the uvarint of its
    size followed by its bytes. *)
From S2P Require Import Prelude Varint.
Local Open Scope Z_scope.

(** * Writing (writer.go)

    An [io.Writer] is what it has received and how it will answer: each Write
    takes the next answer, [None] for a full write, [Some n] for an error
    after [n] bytes. *)
Record Sink := { received : bytes; answers : list (option nat) }.

(** The count, whether it failed, and the writer afterwards. *)
Definition Sink_Write (w : Sink) (data : bytes) : Z * bool * Sink :=
  match answers w with
  | [] | None :: _ =>
      (Z.of_nat (length data), false, {| received := received w ++ data; answers := tail (answers w) |})
  | Some n :: rest =>
      (Z.of_nat (length (take n data)), true, {| received := received w ++ take n data; answers := rest |})
  end.

Definition writeFrameHeader (w : Sink) (frameSize : Z) : Z * bool * Sink :=
  Sink_Write w (PutUvarint frameSize).

Definition WriteFrame (w : Sink) (frame : bytes) : Z * bool * Sink :=
  let '(count, err, w) := writeFrameHeader w (u64 (Z.of_nat (length frame))) in
  if err then (count, true, w) else
  let '(amount, err, w) := Sink_Write w frame in
  (count + amount, err, w).

(** [type writer]: the frame being buffered and the inner writer. *)
Record writer := { inner : Sink; buf : bytes }.

Definition NewWriter (w : Sink) : writer := {| inner := w; buf := [] |}.
Definition writer_Write (w : writer) (data : bytes) : writer :=
  {| inner := inner w; buf := buf w ++ data |}.
Definition Flush (w : writer) : bool * writer :=
  let '(_, err, i) := WriteFrame (inner w) (buf w) in
  if err then (true, {| inner := i; buf := buf w |}) else (false, {| inner := i; buf := [] |}).
Definition writer_Reset (w : writer) (i : Sink) : writer := {| inner := i; buf := [] |}.

(** [FrameHeaderSize] (size.go), ten rounds for a 64-bit number. *)
Fixpoint header_loop (fuel : nat) (s size : Z) : Z :=
  match fuel with
  | O => size
  | S fuel => if 0 <? s then header_loop fuel (Z.shiftr s 7) (size + 1) else size
  end.
Definition FrameHeaderSize (s : Z) : Z := header_loop 10 (Z.shiftr s 7) 1.

(** * Reading (reader.go)

    An [io.Reader] is the chunks it will deliver: a Read gives at most one. *)
Inductive ReadError := EOF | Overflow | ErrFrameTooLarge.

Definition Source := list bytes.

Definition src_Read (n : nat) (s : Source) : result ReadError (bytes * Source) :=
  match s with
  | [] => Err EOF
  | c :: s => Ok (take n c, if decide (length c <= n)%nat then s else drop n c :: s)
  end.

(** [simpleByteReader]: [rb_buf] is the byte of the last Read. *)
Record reader := { src : Source; rb_buf : Z; maxSize : Z }.

Definition NewReader (s : Source) (maxSize : Z) : reader :=
  {| src := s; rb_buf := 0; maxSize := maxSize |}.

Definition ReadByte (r : reader) : result ReadError (Z * reader) :=
  '(p, s) ← src_Read 1 (src r);
  let b := match p with b :: _ => b | [] => rb_buf r end in
  Ok (b, {| src := s; rb_buf := b; maxSize := maxSize r |}).

(** [binary.ReadUvarint] through [ReadByte]; [None] is running out of fuel. *)
Fixpoint reader_uvarint (fuel : nat) (r : reader) (i x s : Z) : option (result ReadError (Z * reader)) :=
  match fuel with
  | O => None
  | S fuel =>
      match ReadByte r with
      | Err e => Some (Err e)
      | Ok (b, r) =>
          if b <? 0x80 then
            if (9 <? i) || ((i =? 9) && (1 <? b)) then Some (Err Overflow)
            else Some (Ok (Z.lor x (u64 (Z.shiftl b s)), r))
          else reader_uvarint fuel r (i + 1) (Z.lor x (u64 (Z.shiftl (Z.land b 0x7f) s))) (s + 7)
      end
  end.

(** Every round takes a byte or a chunk of the source. *)
Definition src_size (s : Source) : nat := sum_list_with (fun c => S (length c)) s.

(** The size of the next frame; its bytes follow, through a reader limited to
    that many. *)
Definition ReadFrame (r : reader) : option (result ReadError (Z * reader)) :=
  res ← reader_uvarint (S (src_size (src r))) r 0 0 0;
  Some (match res with
        | Err e => Err e
        | Ok (count, r) => if u64 (maxSize r) <? count then Err ErrFrameTooLarge else Ok (i64 count, r)
        end).

(** One Read of the limited reader into a zeroed slice of the frame's size;
    the count Read returns is not looked at. *)
Definition ReadFrameAll (r : reader) : option (result ReadError (bytes * reader)) :=
  res ← ReadFrame r;
  Some (match res with
        | Err e => Err e
        | Ok (count, r) =>
            if count =? 0 then Ok ([], r)
            else match src_Read (Z.to_nat count) (src r) with
            | Err e => Err e
            | Ok (p, s) =>
                Ok (p ++ replicate (Z.to_nat count - length p) 0,
                    {| src := s; rb_buf := rb_buf r; maxSize := maxSize r |})
            end
        end).

(** [Split]: the records and the error met, if any.  Each round takes at least
    a byte, so the length of the data is enough fuel. *)
Fixpoint split_loop (fuel : nat) (data : bytes) : option (list bytes * option ReadError) :=
  match data with
  | [] => Some ([], None)
  | _ =>
      match fuel with
      | O => None
      | S fuel =>
          match ReadUvarint data with
          | Err VarintEOF => Some ([], Some EOF)
          | Err VarintOverflow => Some ([], Some Overflow)
          | Ok (size, rest) =>
              if u64 (Z.of_nat (length rest)) <? size then Some ([], Some ErrFrameTooLarge)
              else '(records, err) ← split_loop fuel (drop (Z.to_nat size) rest);
                   Some (take (Z.to_nat size) rest :: records, err)
          end
      end
  end.
Definition Split (data : bytes) : option (list bytes * option ReadError) :=
  split_loop (length data) data.

Definition frame_bytes (frame : bytes) : bytes := PutUvarint (Z.of_nat (length frame)) ++ frame.

Example split_two : Split (concat (map frame_bytes [[1; 2]; []; [3]])) = Some ([[1; 2]; []; [3]], None).
Proof. reflexivity. Qed.
Example read_two : ReadFrameAll (NewReader [[2]; [7; 8; 0]] 10) =
  Some (Ok ([7; 8], {| src := [[0]]; rb_buf := 2; maxSize := 10 |})).
Proof. reflexivity. Qed.

(** * Frame sizes *)
Lemma header_put fuel s size : 0 <= s -> (fuel > 0)%nat -> s < 2 ^ (7 * Z.of_nat fuel) ->
  header_loop fuel (Z.shiftr s 7) size + Z.of_nat 1 = size + Z.of_nat (length (put_loop fuel s)).
Proof.
  revert s size. induction fuel as [|fuel IH]; intros s size Hs Hf Hb; [lia|].
  cbn [header_loop put_loop]. rewrite Z.shiftr_div_pow2 by lia.
  assert (Hd : 0 < s / 2 ^ 7 <-> 0x80 <= s).
  { change (2 ^ 7) with 128. split; intros; [|apply Z.div_str_pos; lia].
    destruct (Z.le_gt_cases 128 s); [done|]. rewrite Z.div_small in *; lia. }
  destruct (Z.ltb_spec 0 (s / 2 ^ 7)), (Z.leb_spec 0x80 s); try lia; cbn [length]; [|lia].
  rewrite <-Z.shiftr_div_pow2 by lia.
  assert (Hlt : s / 2 ^ 7 < 2 ^ (7 * Z.of_nat fuel)).
  { apply Z.div_lt_upper_bound; [lia|]. rewrite <-Z.pow_add_r by lia.
    replace (7 + 7 * Z.of_nat fuel) with (7 * Z.of_nat (S fuel)) by lia. done. }
  destruct fuel as [|fuel]; [cbn in Hlt; lia|].
  assert (Hpos : 0 <= s / 2 ^ 7) by (apply Z.div_pos; lia).
  rewrite <-(Z.shiftr_div_pow2 s 7) in Hlt, Hpos by lia.
  specialize (IH (Z.shiftr s 7) (size + 1) Hpos ltac:(lia) Hlt). lia.
Qed.

(** The header size computed for a frame is the number of bytes its header
    takes, for every size a frame can have. *)
Lemma FrameHeaderSize_exact s :
  0 <= s < 2 ^ 63 -> FrameHeaderSize s = Z.of_nat (length (PutUvarint s)).
Proof.
  intros Hs. pose proof (header_put 10 s 1 ltac:(lia) ltac:(lia)) as H.
  unfold FrameHeaderSize, PutUvarint. rewrite <-(Z.add_cancel_l _ _ 1), <-H; [lia|].
  eapply Z.lt_le_trans; [apply Hs|]. apply Z.pow_le_mono_r; lia.
Qed.

(** * Splitting *)
Definition small (frame : bytes) : Prop := Z.of_nat (length frame) < 2 ^ 63.

Lemma small_u64 frame : small frame -> in_u64 (Z.of_nat (length frame)).
Proof. unfold small, in_u64. lia. Qed.

Lemma PutUvarint_nonempty x : PutUvarint x <> [].
Proof. unfold PutUvarint. cbn [put_loop]. by destruct (0x80 <=? x). Qed.

Lemma read_loop_shrinks l i x s v rest : read_loop l i x s = Ok (v, rest) -> (length rest < length l)%nat.
Proof.
  revert i x s. induction l as [|b l IH]; intros i x s; cbn [read_loop]; [done|].
  destruct (b <? 0x80); [destruct (_ || _); [done|]; intros [= _ <-]; cbn; lia|].
  intros H%IH. cbn. lia.
Qed.

Lemma split_loop_total fuel data : (length data <= fuel)%nat -> exists r, split_loop fuel data = Some r.
Proof.
  revert data. induction fuel as [|fuel IH]; intros [|b data] Hf; cbn [length] in Hf; try lia; [by eexists..|].
  cbn [split_loop]. destruct (ReadUvarint (b :: data)) as [[size rest]|[]] eqn:E; [|by eexists..].
  apply read_loop_shrinks in E. cbn in E. destruct (_ <? size); [by eexists|].
  destruct (IH (drop (Z.to_nat size) rest)) as [[rs err] ->]; [rewrite length_drop; lia|]. by eexists.
Qed.

Lemma split_loop_frames fuel fs : Z.of_nat (length (concat (map frame_bytes fs))) < 2 ^ 63 -> (length (concat (map frame_bytes fs)) <= fuel)%nat ->
  split_loop fuel (concat (map frame_bytes fs)) = Some (fs, None).
Proof.
  revert fuel. induction fs as [|f fs IH]; intros fuel Hs Hlen; [by destruct fuel|].
  cbn [map concat] in *. unfold frame_bytes at 1 in Hs. unfold frame_bytes at 1 in Hlen. unfold frame_bytes at 1.
  rewrite <-app_assoc. rewrite !length_app in Hlen, Hs.
  assert (Hf : small f) by (unfold small; lia).
  pose proof (PutUvarint_nonempty (Z.of_nat (length f))) as Hne.
  pose proof (Read_Put (Z.of_nat (length f)) (f ++ concat (map frame_bytes fs)) (small_u64 f Hf)) as Hr.
  destruct (PutUvarint (Z.of_nat (length f))) as [|b p]; [done|]. cbn [length app] in *.
  destruct fuel as [|fuel]; [lia|]. cbn [split_loop]. rewrite Hr.
  rewrite length_app, u64_small by (unfold in_u64; lia).
  destruct (Z.ltb_spec (Z.of_nat (length f + length (concat (map frame_bytes fs)))) (Z.of_nat (length f))); [lia|].
  rewrite Nat2Z.id, drop_app_length, take_app_length. by rewrite IH by lia.
Qed.

(** Splitting always ends, and splits what was framed into the frames. *)
Lemma Split_frames :
  (forall data, exists r, Split data = Some r) /\
  (forall fs, Z.of_nat (length (concat (map frame_bytes fs))) < 2 ^ 63 ->
     Split (concat (map frame_bytes fs)) = Some (fs, None)).
Proof.
  split; [intros data; by apply split_loop_total|]. intros fs Hs. by apply split_loop_frames.
Qed.

(** * The buffering writer *)
Inductive WriterOp := OpWrite (data : bytes) | OpFlush.

Definition writer_step (w : writer) (op : WriterOp) : writer :=
  match op with OpWrite data => writer_Write w data | OpFlush => (Flush w).2 end.

(** The frames a sequence of calls means: the flushed ones and the pending one. *)
Fixpoint meant (ops : list WriterOp) (pending : bytes) : list bytes * bytes :=
  match ops with
  | [] => ([], pending)
  | OpWrite data :: ops => meant ops (pending ++ data)
  | OpFlush :: ops => let '(fs, p) := meant ops [] in (pending :: fs, p)
  end.

Lemma WriteFrame_ok w frame : small frame -> answers w = [] ->
  WriteFrame w frame = (Z.of_nat (length (frame_bytes frame)), false,
    {| received := received w ++ frame_bytes frame; answers := [] |}).
Proof.
  intros Hs Ha. unfold WriteFrame, writeFrameHeader, Sink_Write. rewrite Ha. cbn.
  rewrite u64_small by by apply small_u64. unfold frame_bytes. rewrite length_app, app_assoc. feq.
Qed.

(** A writer over a working sink emits exactly the frames its calls mean, in
    order, and keeps the unfinished one; splitting what the sink received
    gives those frames. *)
Theorem writer_stream ops w0 fs p :
  answers w0 = [] -> meant ops [] = (fs, p) ->
  Z.of_nat (length (concat (map frame_bytes fs))) < 2 ^ 63 ->
  let w := foldl writer_step (NewWriter w0) ops in
  received (inner w) = received w0 ++ concat (map frame_bytes fs) /\ buf w = p /\
  Split (concat (map frame_bytes fs)) = Some (fs, None).
Proof.
  intros Ha Hm Hs. cbn zeta.
  assert (Hgen : forall ops w fs p, answers (inner w) = [] -> meant ops (buf w) = (fs, p) ->
    Z.of_nat (length (concat (map frame_bytes fs))) < 2 ^ 63 ->
    received (inner (foldl writer_step w ops)) = received (inner w) ++ concat (map frame_bytes fs) /\
    buf (foldl writer_step w ops) = p).
  { clear. induction ops as [|[data|] ops IH]; intros w fs p Ha Hm Hs; cbn in *.
    - injection Hm as <- <-. by rewrite app_nil_r.
    - by apply (IH (writer_Write w data)).
    - destruct (meant ops []) as [fs' p'] eqn:E. injection Hm as <- <-. cbn in *.
      rewrite length_app in Hs. unfold Flush.
      assert (Hl : (length (buf w) <= length (frame_bytes (buf w)))%nat) by (unfold frame_bytes; rewrite length_app; lia).
      rewrite WriteFrame_ok; [cbn|unfold small; lia|done].
      destruct (IH {| inner := {| received := received (inner w) ++ frame_bytes (buf w); answers := [] |};
        buf := [] |} fs' p' eq_refl E ltac:(lia)) as [Hr ->]. split; [|done].
      rewrite Hr. cbn. by rewrite app_assoc. }
  destruct (Hgen ops (NewWriter w0) fs p Ha Hm Hs) as [Hr Hb].
  split; [exact Hr|]. split; [exact Hb|]. by apply split_loop_frames.
Qed.

(** * Reading *)
Definition chunk (l : bytes) : Source := match l with [] => [] | _ => [l] end.

Lemma reader_uvarint_chunk fuel l m b0 i x s : (length l < fuel)%nat ->
  match read_loop l i x s, reader_uvarint fuel {| src := chunk l; rb_buf := b0; maxSize := m |} i x s with
  | Ok (v, rest), Some (Ok (v', r)) => v' = v /\ src r = chunk rest /\ maxSize r = m
  | Err VarintEOF, Some (Err EOF) => True
  | Err VarintOverflow, Some (Err Overflow) => True
  | _, _ => False
  end.
Proof.
  revert l b0 i x s. induction fuel as [|fuel IH]; intros l b0 i x s Hf; [lia|].
  destruct l as [|b l]; [done|].
  assert (Hb : ReadByte {| src := chunk (b :: l); rb_buf := b0; maxSize := m |} =
    Ok (b, {| src := chunk l; rb_buf := b; maxSize := m |})).
  { unfold ReadByte. cbn. destruct l; [done|]. by rewrite decide_False by (cbn; lia). }
  cbn [read_loop reader_uvarint]. rewrite Hb. cbn in Hf.
  destruct (b <? 128); [by destruct (_ || _)|]. apply IH. lia.
Qed.

(** Over a source that delivers a whole stream at once, ReadFrameAll returns
    the next frame and leaves what follows, unless the frame is larger than
    allowed, which is an error. *)
Theorem ReadFrameAll_exact f rest m :
  small f -> 0 <= m < 2 ^ 63 ->
  match ReadFrameAll (NewReader [frame_bytes f ++ rest] m) with
  | Some (Ok (data, r)) => Z.of_nat (length f) <= m /\ data = f /\ src r = chunk rest /\ maxSize r = m
  | Some (Err e) => m < Z.of_nat (length f) /\ e = ErrFrameTooLarge
  | None => False
  end.
Proof.
  intros Hs Hm. unfold ReadFrameAll, ReadFrame, NewReader.
  assert (Hc : [frame_bytes f ++ rest] = chunk (frame_bytes f ++ rest)).
  { unfold frame_bytes. pose proof (PutUvarint_nonempty (Z.of_nat (length f))). by destruct (PutUvarint _). }
  rewrite Hc. cbn [src].
  pose proof (reader_uvarint_chunk (S (src_size (chunk (frame_bytes f ++ rest)))) (frame_bytes f ++ rest) m 0 0 0 0) as H.
  assert (Hlen : (length (frame_bytes f ++ rest) < S (src_size (chunk (frame_bytes f ++ rest))))%nat)
    by (rewrite <-Hc; cbn; lia).
  specialize (H Hlen). unfold frame_bytes in H at 1. rewrite <-app_assoc in H.
  change (read_loop ?l 0 0 0) with (ReadUvarint l) in H.
  rewrite Read_Put in H by by apply small_u64.
  destruct (reader_uvarint _ _ _ _ _) as [[[v r]|]|]; [|done..].
  destruct H as (-> & Hsrc & Hmax). cbn. rewrite Hmax, u64_small by (unfold in_u64; lia).
  unfold small in Hs. destruct (Z.ltb_spec m (Z.of_nat (length f))); cbn; [done|].
  rewrite i64_small by (unfold in_i64; lia). rewrite Hsrc.
  destruct (Z.eqb_spec (Z.of_nat (length f)) 0) as [Hz|Hz]; cbn.
  { destruct f; [|cbn in Hz; lia]. done. }
  destruct (f ++ rest) as [|b l] eqn:E; [destruct f; [done|discriminate E]|]. cbn [chunk src_Read].
  rewrite <-E, Nat2Z.id, take_app_length, Nat.sub_diag, app_nil_r, length_app, drop_app_length. cbn.
  split; [done|]. split; [done|]. rewrite Hmax. split; [|done].
  destruct rest; [by rewrite decide_True by (cbn; lia)|by rewrite decide_False by (cbn; lia)].
Qed.

(** A frame that arrives in two reads is returned padded with zeros, without an
    error, and the reader is left inside the frame. *)
Lemma ReadFrameAll_short :
  ReadFrameAll (NewReader [[4; 1; 2]; [3; 4]] 10) =
  Some (Ok ([1; 2; 0; 0], {| src := [[3; 4]]; rb_buf := 4; maxSize := 10 |})).
Proof. reflexivity. Qed.

Lemma writer_stream_witness :
  let ops := [OpWrite [1]; OpWrite [2; 3]; OpFlush; OpFlush; OpWrite [9]] in
  meant ops [] = ([[1; 2; 3]; []], [9]) /\
  received (inner (foldl writer_step (NewWriter {| received := []; answers := [] |}) ops)) = [3; 1; 2; 3; 0] /\
  Split [3; 1; 2; 3; 0] = Some ([[1; 2; 3]; []], None).
Proof.
  intros ops. split; [reflexivity|].
  destruct (writer_stream ops {| received := []; answers := [] |} [[1; 2; 3]; []] [9] eq_refl eq_refl
    ltac:(vm_compute; reflexivity)) as (Hr & _ & Hsp).
  split; [exact Hr|exact Hsp].
Defined.

Lemma ReadFrameAll_exact_witness :
  small [7; 8] /\
  match ReadFrameAll (NewReader [frame_bytes [7; 8] ++ [1]] 5) with
  | Some (Ok (data, r)) => 2 <= 5 /\ data = [7; 8] /\ src r = [[1]] /\ maxSize r = 5
  | _ => False
  end.
Proof.
  assert (Hs : small [7; 8]) by (unfold small; cbn; lia).
  split; [exact Hs|]. exact (ReadFrameAll_exact [7; 8] [1] 5 Hs ltac:(lia)).
Defined.
