(* ===== verification/BitField.v ===== *)
(** Bit fields (common/data/bit_field): an array of bits that serializes. *)
From S2P Require Import Prelude Varint.
Local Open Scope Z_scope.

Record BitField := { data : bytes; size : Z }.

(** bf_table.gen.go. *)
Definition bitCount : list Z :=
  [0; 1; 1; 2; 1; 2; 2; 3; 1; 2; 2; 3; 2; 3; 3; 4; 1; 2; 2; 3; 2; 3; 3; 4; 2; 3; 3; 4; 3; 4; 4; 5;
   1; 2; 2; 3; 2; 3; 3; 4; 2; 3; 3; 4; 3; 4; 4; 5; 2; 3; 3; 4; 3; 4; 4; 5; 3; 4; 4; 5; 4; 5; 5; 6;
   1; 2; 2; 3; 2; 3; 3; 4; 2; 3; 3; 4; 3; 4; 4; 5; 2; 3; 3; 4; 3; 4; 4; 5; 3; 4; 4; 5; 4; 5; 5; 6;
   2; 3; 3; 4; 3; 4; 4; 5; 3; 4; 4; 5; 4; 5; 5; 6; 3; 4; 4; 5; 4; 5; 5; 6; 4; 5; 5; 6; 5; 6; 6; 7;
   1; 2; 2; 3; 2; 3; 3; 4; 2; 3; 3; 4; 3; 4; 4; 5; 2; 3; 3; 4; 3; 4; 4; 5; 3; 4; 4; 5; 4; 5; 5; 6;
   2; 3; 3; 4; 3; 4; 4; 5; 3; 4; 4; 5; 4; 5; 5; 6; 3; 4; 4; 5; 4; 5; 5; 6; 4; 5; 5; 6; 5; 6; 6; 7;
   2; 3; 3; 4; 3; 4; 4; 5; 3; 4; 4; 5; 4; 5; 5; 6; 3; 4; 4; 5; 4; 5; 5; 6; 4; 5; 5; 6; 5; 6; 6; 7;
   3; 4; 4; 5; 4; 5; 5; 6; 4; 5; 5; 6; 5; 6; 6; 7; 4; 5; 5; 6; 5; 6; 6; 7; 5; 6; 6; 7; 6; 7; 7; 8].

(** The number of bytes of a field, in 32-bit arithmetic. *)
Definition byte_size (size : Z) : Z := Z.shiftr (u32 (size + 8 - 1)) 3.

Definition MarshalBinary (bf : BitField) : bytes := PutUvarint (size bf) ++ data bf.

Inductive BitFieldError := ErrVarint (e : VarintError) | ErrSizeRange (n : Z) | ErrMismatchedSize (size len : Z).

(** An error leaves the receiver as it was. *)
Definition UnmarshalBinary (bs : bytes) : result BitFieldError BitField :=
  match ReadUvarint bs with
  | Err e => Err (ErrVarint e)
  | Ok (n, data) =>
      if 2 ^ 32 - 1 <? n then Err (ErrSizeRange n)
      else let size := u32 n in
      if size =? 0 then Ok {| data := []; size := 0 |}
      else if negb (u32 (Z.of_nat (length data)) =? byte_size size)
      then Err (ErrMismatchedSize size (Z.of_nat (length data)))
      else Ok {| data := data; size := size |}
  end.

Definition Reset (bf : BitField) : BitField := {| data := []; size := 0 |}.

Definition Make (size : Z) : BitField :=
  if size =? 0 then {| data := []; size := 0 |}
  else {| data := replicate (Z.to_nat (byte_size size)) 0; size := size |}.

Definition Size (bf : BitField) : Z := size bf.

Definition byte_index (idx : Z) : nat := Z.to_nat (Z.shiftr idx 3).

(** [Set] is a keyword here.  An index out of the slice panics, too. *)
Definition BF_Set (bf : BitField) (idx : Z) : outcome BitField :=
  if size bf <=? idx then Panic
  else match data bf !! byte_index idx with
  | None => Panic
  | Some b => Ret {| data := <[byte_index idx := Z.lor b (u8 (Z.shiftl 1 (idx mod 8)))]> (data bf);
                     size := size bf |}
  end.

Definition Clear (bf : BitField) (idx : Z) : outcome BitField :=
  if size bf <=? idx then Panic
  else match data bf !! byte_index idx with
  | None => Panic
  | Some b => Ret {| data := <[byte_index idx := Z.ldiff b (u8 (Z.shiftl 1 (idx mod 8)))]> (data bf);
                     size := size bf |}
  end.

Definition CountSet (bf : BitField) : Z :=
  foldl (fun ret b => if b =? 0 then ret else u32 (ret + nth (Z.to_nat b) bitCount 0)) 0 (data bf).

Definition All (bf : BitField) (val : bool) : bool :=
  let targ := if val then size bf else 0 in CountSet bf =? targ.

Definition IsSet (bf : BitField) (idx : Z) : outcome bool :=
  if size bf <=? idx then Ret false
  else match data bf !! byte_index idx with
  | None => Panic
  | Some b => Ret (negb (Z.land b (u8 (Z.shiftl 1 (idx mod 8))) =? 0))
  end.

Example set_one : BF_Set (Make 10) 9 = Ret {| data := [0; 2]; size := 10 |}.
Proof. reflexivity. Qed.

(** * Well-formed fields *)
Definition wf (bf : BitField) : Prop :=
  0 <= size bf <= 2 ^ 32 - 8 /\ Z.of_nat (length (data bf)) = (size bf + 7) / 8 /\ bytes_ok (data bf).

(** The bits of a byte string. *)
Definition bit (l : bytes) (i : Z) : bool :=
  match l !! byte_index i with Some b => Z.testbit b (i mod 8) | None => false end.

(** No bit beyond the size is set: what [Make] gives and [Set], [Clear] keep. *)
Definition clean (bf : BitField) : Prop := forall i, size bf <= i -> bit (data bf) i = false.

Lemma byte_size_div n : 0 <= n <= 2 ^ 32 - 8 -> byte_size n = (n + 7) / 8.
Proof.
  intros Hn. unfold byte_size. rewrite u32_small by (unfold in_u32; lia).
  rewrite Z.shiftr_div_pow2 by lia. change (2 ^ 3) with 8. f_equal. lia.
Qed.

Lemma byte_index_div i : 0 <= i -> byte_index i = Z.to_nat (i / 8).
Proof. intros. unfold byte_index. by rewrite Z.shiftr_div_pow2 by lia. Qed.

Lemma shift_bit k : 0 <= k < 8 -> u8 (Z.shiftl 1 k) = 2 ^ k.
Proof.
  intros Hk. rewrite Z.shiftl_mul_pow2, Z.mul_1_l by lia. apply u8_small. split; [apply Z.pow_nonneg; lia|].
  apply Z.pow_lt_mono_r; lia.
Qed.

Lemma land_bit b k : 0 <= k < 8 -> negb (Z.land b (u8 (Z.shiftl 1 k)) =? 0) = Z.testbit b k.
Proof.
  intros Hk. rewrite shift_bit by done. destruct (Z.testbit b k) eqn:E.
  - apply negb_true_iff, Z.eqb_neq. intros H0.
    assert (Ht : Z.testbit (Z.land b (2 ^ k)) k = true) by (rewrite Z.land_spec, E, Z.pow2_bits_true by lia; done).
    rewrite H0, Z.bits_0 in Ht. done.
  - apply negb_false_iff, Z.eqb_eq. apply Z.bits_inj'. intros i Hi.
    rewrite Z.land_spec, Z.bits_0, Z.pow2_bits_eqb by lia.
    destruct (Z.eqb_spec k i) as [<-|]; [by rewrite E|apply andb_false_r].
Qed.

Lemma byte_ext a b : in_u8 a -> in_u8 b -> (forall k, 0 <= k < 8 -> Z.testbit a k = Z.testbit b k) -> a = b.
Proof.
  intros Ha Hb H. apply Z.bits_inj'. intros i Hi. destruct (decide (i < 8)); [apply H; lia|].
  rewrite <-(u8_small a Ha), <-(u8_small b Hb). unfold u8. by rewrite !Z.mod_pow2_bits_high by lia.
Qed.

Lemma lor_u8 a b : in_u8 a -> in_u8 b -> in_u8 (Z.lor a b).
Proof.
  intros Ha Hb. rewrite <-(u8_small a Ha), <-(u8_small b Hb). unfold u8.
  rewrite <-!Z.land_ones, <-Z.land_lor_distr_l, Z.land_ones by lia. by apply Z.mod_pos_bound.
Qed.

Lemma ldiff_u8 a b : in_u8 a -> in_u8 (Z.ldiff a b).
Proof.
  intros Ha. assert (E : Z.ldiff a b = Z.ldiff a b mod 2 ^ 8).
  { apply Z.bits_inj'. intros i Hi. destruct (decide (i < 8)).
    - by rewrite Z.mod_pow2_bits_low by lia.
    - rewrite Z.mod_pow2_bits_high, Z.ldiff_spec by lia. rewrite <-(u8_small a Ha). unfold u8.
      by rewrite Z.mod_pow2_bits_high by lia. }
  rewrite E. by apply Z.mod_pos_bound.
Qed.

(** Writing one bit of a byte string. *)
Lemma bit_insert l i j b b' :
  0 <= i -> 0 <= j -> l !! byte_index i = Some b ->
  bit (<[byte_index i := b']> l) j =
  if decide (byte_index j = byte_index i) then Z.testbit b' (j mod 8) else bit l j.
Proof.
  intros Hi Hj Hb. unfold bit. destruct (decide (byte_index j = byte_index i)) as [->|Hne].
  - rewrite list_lookup_insert_eq; [done|]. by eapply lookup_lt_Some.
  - by rewrite list_lookup_insert_ne.
Qed.

Lemma same_byte i j : 0 <= i -> 0 <= j -> byte_index j = byte_index i -> (j mod 8 = i mod 8 <-> j = i).
Proof.
  intros Hi Hj. rewrite !byte_index_div by done. intros H. assert (i / 8 = j / 8).
  { apply Z2Nat.inj; [apply Z.div_pos; lia|apply Z.div_pos; lia|done]. }
  pose proof (Z.div_mod i 8). pose proof (Z.div_mod j 8). split; [lia|by intros ->].
Qed.

Section WellFormed.
Context (bf : BitField) (Hwf : wf bf).

Lemma wf_lookup idx : 0 <= idx < size bf -> exists b, data bf !! byte_index idx = Some b /\ in_u8 b.
Proof.
  intros Hi. destruct Hwf as (Hs & Hl & Hb). destruct (data bf !! byte_index idx) as [b|] eqn:E.
  - exists b. split; [done|]. by eapply Forall_lookup_1 in Hb.
  - apply lookup_ge_None in E. rewrite byte_index_div in E by lia. exfalso.
    Z.to_euclidean_division_equations; lia.
Qed.

Lemma wf_update idx b b' : data bf !! byte_index idx = Some b -> in_u8 b' ->
  wf {| data := <[byte_index idx := b']> (data bf); size := size bf |}.
Proof.
  intros Hb Hb'. destruct Hwf as (Hs & Hl & Hok). split; [done|]. cbn. rewrite length_insert.
  split; [done|]. by apply Forall_insert.
Qed.

Lemma IsSet_bit idx : 0 <= idx < size bf -> IsSet bf idx = Ret (bit (data bf) idx).
Proof.
  intros Hi. destruct (wf_lookup idx Hi) as (b & Hb & _). unfold IsSet, bit. rewrite Hb.
  destruct (Z.leb_spec (size bf) idx); [lia|]. f_equal. apply land_bit, Z.mod_pos_bound. lia.
Qed.

Lemma Set_bit idx : 0 <= idx < size bf ->
  exists bf', BF_Set bf idx = Ret bf' /\ wf bf' /\ size bf' = size bf /\
    forall j, 0 <= j -> bit (data bf') j = (j =? idx) || bit (data bf) j.
Proof.
  intros Hi. destruct (wf_lookup idx Hi) as (b & Hb & Hb8). unfold BF_Set. rewrite Hb.
  destruct (Z.leb_spec (size bf) idx); [lia|]. eexists. split; [done|].
  pose proof (Z.mod_pos_bound idx 8 ltac:(lia)) as Hm.
  split; [eapply wf_update; eauto using lor_u8, u8_range|]. split; [done|]. intros j Hj. cbn [data].
  rewrite (bit_insert _ _ _ b) by (done || lia). destruct (decide _) as [E|E].
  - rewrite Z.lor_spec, shift_bit, Z.pow2_bits_eqb by lia. unfold bit. rewrite E, Hb, orb_comm. f_equal.
    apply same_byte in E; [|lia..]. destruct (Z.eqb_spec (idx mod 8) (j mod 8)), (Z.eqb_spec j idx); naive_solver.
  - destruct (Z.eqb_spec j idx) as [->|]; [done|]. done.
Qed.

Lemma Clear_bit idx : 0 <= idx < size bf ->
  exists bf', Clear bf idx = Ret bf' /\ wf bf' /\ size bf' = size bf /\
    forall j, 0 <= j -> bit (data bf') j = negb (j =? idx) && bit (data bf) j.
Proof.
  intros Hi. destruct (wf_lookup idx Hi) as (b & Hb & Hb8). unfold Clear. rewrite Hb.
  destruct (Z.leb_spec (size bf) idx); [lia|]. eexists. split; [done|].
  pose proof (Z.mod_pos_bound idx 8 ltac:(lia)) as Hm.
  split; [eapply wf_update; eauto using ldiff_u8|]. split; [done|]. intros j Hj. cbn [data].
  rewrite (bit_insert _ _ _ b) by (done || lia). destruct (decide _) as [E|E].
  - rewrite Z.ldiff_spec, shift_bit, Z.pow2_bits_eqb by lia. unfold bit. rewrite E, Hb, andb_comm. f_equal. f_equal.
    apply same_byte in E; [|lia..]. destruct (Z.eqb_spec (idx mod 8) (j mod 8)), (Z.eqb_spec j idx); naive_solver.
  - destruct (Z.eqb_spec j idx) as [->|]; [done|]. done.
Qed.
End WellFormed.

(** * Counting *)
Definition popcount (l : bytes) (n : nat) : nat :=
  length (filter (fun i => bit l i = true) (seqZ 0 (Z.of_nat n))).

Lemma table_ok b : in_u8 b ->
  nth (Z.to_nat b) bitCount 0 = Z.of_nat (length (filter (fun i => Z.testbit b i = true) (seqZ 0 8))) /\
  0 <= nth (Z.to_nat b) bitCount 0 <= 8.
Proof.
  intros Hb. assert (H : Forall (fun b => nth (Z.to_nat b) bitCount 0 =
      Z.of_nat (length (filter (fun i => Z.testbit b i = true) (seqZ 0 8))) /\
      0 <= nth (Z.to_nat b) bitCount 0 <= 8) (seqZ 0 256)) by (apply (bool_decide_unpack _); vm_compute; exact I).
  rewrite Forall_forall in H. apply H, elem_of_seqZ. unfold in_u8 in Hb. lia.
Qed.

Lemma filter_length_ext {A} (f g : A -> bool) l : (forall x, x ∈ l -> f x = g x) ->
  length (filter (fun x => f x = true) l) = length (filter (fun x => g x = true) l).
Proof.
  induction l as [|x l IH]; intros H; [done|]. rewrite !filter_cons.
  rewrite (H x) by (by left). case_decide; cbn; rewrite IH; auto; intros; apply H; by right.
Qed.

Lemma filter_length_map {A} (f : A -> bool) (h : A -> A) l :
  length (filter (fun x => f x = true) (map h l)) = length (filter (fun x => f (h x) = true) l).
Proof. induction l as [|x l IH]; [done|]. cbn [map]. rewrite !filter_cons. case_decide; cbn; auto. Qed.

Lemma bit_shift b l i : 0 <= i -> bit (b :: l) (8 + i) = bit l i.
Proof.
  intros Hi. unfold bit. rewrite !byte_index_div by lia.
  replace ((8 + i) / 8) with (i / 8 + 1) by (Z.to_euclidean_division_equations; lia).
  replace ((8 + i) mod 8) with (i mod 8) by (Z.to_euclidean_division_equations; lia).
  rewrite Z2Nat.inj_add by (try apply Z.div_pos; lia). change (Z.to_nat 1) with 1%nat.
  by rewrite Nat.add_1_r.
Qed.

Lemma popcount_cons b l :
  popcount (b :: l) (8 * S (length l)) =
  (length (filter (fun i => Z.testbit b i = true) (seqZ 0 8)) + popcount l (8 * length l))%nat.
Proof.
  unfold popcount. replace (Z.of_nat (8 * S (length l))) with (8 + Z.of_nat (8 * length l)) by lia.
  rewrite seqZ_app, filter_app, length_app by lia. apply (f_equal2 Nat.add).
  - apply filter_length_ext. intros i Hi%elem_of_seqZ. unfold bit. rewrite byte_index_div by lia.
    rewrite Z.div_small by lia. cbn. by rewrite Z.mod_small by lia.
  - change (0 + 8) with (8 + 0). rewrite <-(fmap_add_seqZ 8 0), filter_length_map. apply filter_length_ext.
    intros i Hi%elem_of_seqZ. apply bit_shift. lia.
Qed.

Lemma CountSet_popcount l acc :
  bytes_ok l -> 0 <= acc -> acc + 8 * Z.of_nat (length l) < 2 ^ 32 ->
  foldl (fun ret b => if b =? 0 then ret else u32 (ret + nth (Z.to_nat b) bitCount 0)) acc l =
  acc + Z.of_nat (popcount l (8 * length l)).
Proof.
  intros Hl. revert acc. induction Hl as [|b l Hb Hl IH]; intros acc Ha Hs; [change (popcount [] (8 * length [])) with 0%nat; cbn; lia|].
  cbn [length foldl] in *. rewrite popcount_cons. destruct (table_ok b Hb) as [Ht Hr].
  assert (E : (if b =? 0 then acc else u32 (acc + nth (Z.to_nat b) bitCount 0)) = acc + nth (Z.to_nat b) bitCount 0).
  { destruct (Z.eqb_spec b 0) as [->|]; [change (nth (Z.to_nat 0) bitCount 0) with 0; lia|]. apply u32_small. unfold in_u32. lia. }
  rewrite E, IH by lia. rewrite Ht. lia.
Qed.

(** The bits of a field that are set, as indices. *)
Definition set_bits (bf : BitField) : list Z := filter (fun i => bit (data bf) i = true) (seqZ 0 (size bf)).

Lemma filter_nil {A} (f : A -> bool) l : (forall x, x ∈ l -> f x = false) -> filter (fun x => f x = true) l = [].
Proof.
  induction l as [|x l IH]; intros H; [done|]. rewrite filter_cons, decide_False.
  - apply IH. intros y Hy. apply H. by right.
  - rewrite (H x) by (by left). done.
Qed.

Lemma CountSet_spec bf : wf bf -> clean bf -> CountSet bf = Z.of_nat (length (set_bits bf)).
Proof.
  intros (Hs & Hl & Hok) Hc. unfold CountSet. rewrite CountSet_popcount; [|done|lia|].
  2:{ Z.to_euclidean_division_equations; lia. }
  rewrite Z.add_0_l. f_equal. unfold popcount, set_bits.
  replace (Z.of_nat (8 * length (data bf))) with (size bf + (8 * Z.of_nat (length (data bf)) - size bf)) by lia.
  rewrite seqZ_app by (Z.to_euclidean_division_equations; lia).
  rewrite filter_app, (filter_nil (bit (data bf)) (seqZ (0 + size bf) _)); [by rewrite app_nil_r|].
  intros i Hi%elem_of_seqZ. apply Hc. lia.
Qed.

Lemma filter_length_all {A} (f : A -> bool) l :
  length (filter (fun x => f x = true) l) = length l <-> forall x, x ∈ l -> f x = true.
Proof.
  induction l as [|x l IH]; [set_solver|]. rewrite filter_cons. pose proof (length_filter (fun x => f x = true) l) as Hle.
  case_decide as Hx; cbn; [rewrite Nat.succ_inj_wd, IH; set_solver|].
  split; [lia|]. intros Hall. destruct Hx. apply Hall. by left.
Qed.

Lemma Make_ok n : 0 <= n <= 2 ^ 32 - 8 ->
  wf (Make n) /\ clean (Make n) /\ size (Make n) = n /\ forall i, bit (data (Make n)) i = false.
Proof.
  intros Hn. unfold Make. destruct (Z.eqb_spec n 0) as [->|Hne].
  - repeat split; try done. by constructor.
  - assert (Hbit : forall i, bit (replicate (Z.to_nat (byte_size n)) 0) i = false).
    { intros i. unfold bit. destruct (_ !! _) as [b|] eqn:E; [|done].
      apply lookup_replicate in E as [-> _]. apply Z.bits_0. }
    split; [|split; [intros i _; apply Hbit|by split]].
    split; [done|]. cbn. rewrite length_replicate, byte_size_div by done. split.
    + rewrite Z2Nat.id; [done|]. apply Z.div_pos; lia.
    + apply Forall_replicate. unfold in_u8. lia.
Qed.

(** * A bit field is a finite map to booleans *)
Definition models (bf : BitField) (n : Z) (f : Z -> bool) : Prop :=
  wf bf /\ clean bf /\ size bf = n /\ forall i, 0 <= i < n -> bit (data bf) i = f i.

Lemma Set_models bf n f idx : models bf n f -> 0 <= idx ->
  if decide (idx < n) then exists bf', BF_Set bf idx = Ret bf' /\ models bf' n (fun i => (i =? idx) || f i)
  else BF_Set bf idx = Panic.
Proof.
  intros (Hwf & Hc & <- & Hf) Hi. case_decide as Hlt.
  - destruct (Set_bit bf Hwf idx) as (bf' & E & Hwf' & Hs & Hb); [lia|]. exists bf'. split; [done|].
    split; [done|]. split; [|split; [done|]].
    + intros i Hge. rewrite Hs in Hge. rewrite Hb, Hc by lia. destruct (Z.eqb_spec i idx); [lia|done].
    + intros i Hr. by rewrite Hb, Hf by lia.
  - unfold BF_Set. by destruct (Z.leb_spec (size bf) idx); [|lia].
Qed.

Lemma Clear_models bf n f idx : models bf n f -> 0 <= idx ->
  if decide (idx < n) then exists bf', Clear bf idx = Ret bf' /\ models bf' n (fun i => negb (i =? idx) && f i)
  else Clear bf idx = Panic.
Proof.
  intros (Hwf & Hc & <- & Hf) Hi. case_decide as Hlt.
  - destruct (Clear_bit bf Hwf idx) as (bf' & E & Hwf' & Hs & Hb); [lia|]. exists bf'. split; [done|].
    split; [done|]. split; [|split; [done|]].
    + intros i Hge. rewrite Hs in Hge. rewrite Hb, Hc by lia. apply andb_false_r.
    + intros i Hr. by rewrite Hb, Hf by lia.
  - unfold Clear. by destruct (Z.leb_spec (size bf) idx); [|lia].
Qed.

Lemma Marshal_roundtrip bf : wf bf -> UnmarshalBinary (MarshalBinary bf) = Ok bf.
Proof.
  intros (Hs & Hl & Hb). unfold UnmarshalBinary, MarshalBinary.
  rewrite Read_Put by (unfold in_u64; lia).
  destruct (Z.ltb_spec (2 ^ 32 - 1) (size bf)); [lia|]. rewrite u32_small by (unfold in_u32; lia).
  destruct bf as [d n]. cbn in *. destruct (Z.eqb_spec n 0) as [->|Hne].
  - destruct d as [|x d]; [done|]. change ((0 + 7) / 8) with 0 in Hl. cbn [length] in Hl. lia.
  - rewrite byte_size_div, u32_small, Hl, Z.eqb_refl; [done| |lia].
    unfold in_u32. Z.to_euclidean_division_equations; lia.
Qed.

Lemma count_models bf n f : models bf n f ->
  CountSet bf = Z.of_nat (length (filter (fun i => f i = true) (seqZ 0 n))).
Proof.
  intros (Hwf & Hc & <- & Hf). rewrite CountSet_spec by done. unfold set_bits. f_equal.
  apply filter_length_ext. intros i Hi%elem_of_seqZ. apply Hf. lia.
Qed.

Lemma All_models bf n f b : models bf n f -> All bf b = true <-> forall i, 0 <= i < n -> f i = b.
Proof.
  intros Hm. pose proof (count_models _ _ _ Hm) as Hc. destruct Hm as ((Hs & _) & _ & <- & _).
  unfold All. rewrite Z.eqb_eq, Hc. destruct b.
  - pose proof (filter_length_all f (seqZ 0 (size bf))) as H. rewrite length_seqZ in H.
    setoid_rewrite elem_of_seqZ in H. rewrite <-(Z2Nat.id (size bf)) at 2 by lia.
    rewrite Nat2Z.inj_iff, H. split; intros Hall i Hi; apply Hall; lia.
  - split.
    + intros H i Hi. destruct (f i) eqn:E; [|done]. exfalso.
      assert (Hin : i ∈ filter (fun i => f i = true) (seqZ 0 (size bf))).
      { apply list_elem_of_filter. split; [done|]. apply elem_of_seqZ. lia. }
      destruct (filter _ _); [set_solver|]. cbn in H. lia.
    + intros H. rewrite filter_nil; [done|]. intros i Hi%elem_of_seqZ. apply H. lia.
Qed.

(** A bit field made with a size (at most 2^32-8) behaves as a map from
    indices below the size to booleans: every operation has the effect the map
    says, indices out of range panic on writes and read as false, the counts
    agree, and serializing and deserializing gives the field back. *)
Theorem BitField_refines bf n f idx :
  models bf n f -> 0 <= idx ->
  (if decide (idx < n) then exists bf', BF_Set bf idx = Ret bf' /\ models bf' n (fun i => (i =? idx) || f i)
   else BF_Set bf idx = Panic) /\
  (if decide (idx < n) then exists bf', Clear bf idx = Ret bf' /\ models bf' n (fun i => negb (i =? idx) && f i)
   else Clear bf idx = Panic) /\
  IsSet bf idx = Ret ((idx <? n) && f idx) /\
  CountSet bf = Z.of_nat (length (filter (fun i => f i = true) (seqZ 0 n))) /\
  (forall b, All bf b = true <-> forall i, 0 <= i < n -> f i = b) /\
  UnmarshalBinary (MarshalBinary bf) = Ok bf.
Proof.
  intros Hm Hi. split; [by apply Set_models|]. split; [by apply Clear_models|].
  split; [|split; [by apply count_models|split; [intros b; by apply All_models|apply Marshal_roundtrip, Hm]]].
  destruct Hm as (Hwf & _ & <- & Hf). destruct (Z.ltb_spec idx (size bf)).
  - rewrite IsSet_bit, Hf by (done || lia). done.
  - unfold IsSet. by destruct (Z.leb_spec (size bf) idx); [|lia].
Qed.

Lemma Make_models n : 0 <= n <= 2 ^ 32 - 8 -> models (Make n) n (fun _ => false).
Proof. intros Hn. destruct (Make_ok n Hn) as (? & ? & ? & Hb). repeat (split; [done|]). intros i _. apply Hb. Qed.

(** Beyond that size the 32-bit count of bytes wraps: a field of 2^32-1 bits
    has no bytes, and every access panics. *)
Lemma Make_wraps : data (Make (2 ^ 32 - 1)) = [] /\ IsSet (Make (2 ^ 32 - 1)) 0 = Panic.
Proof. by vm_compute. Qed.

(** Deserializing does not check the bits beyond the size, and counts them. *)
Lemma Unmarshal_stray_bits :
  UnmarshalBinary [1; 255] = Ok {| data := [255]; size := 1 |} /\
  IsSet {| data := [255]; size := 1 |} 0 = Ret true /\ CountSet {| data := [255]; size := 1 |} = 8 /\
  All {| data := [255]; size := 1 |} true = false.
Proof. by vm_compute. Qed.

Lemma BitField_refines_witness :
  models (Make 10) 10 (fun _ => false) /\
  (exists bf', BF_Set (Make 10) 9 = Ret bf' /\ models bf' 10 (fun i => (i =? 9) || false)) /\
  UnmarshalBinary (MarshalBinary (Make 10)) = Ok (Make 10).
Proof.
  assert (Hm : models (Make 10) 10 (fun _ => false)) by (apply Make_models; lia).
  split; [exact Hm|].
  destruct (BitField_refines (Make 10) 10 (fun _ => false) 9 Hm ltac:(lia)) as (Hs & _ & _ & _ & _ & Hr).
  split; [|exact Hr]. rewrite decide_True in Hs by lia. exact Hs.
Defined.
