(* ===== verification/Base128.v ===== *)
(** Base-128 strings (common/data/base128): seven bits to a byte. *)
From S2P Require Import Prelude.
Local Open Scope Z_scope.

Inductive Base128Error := ErrLength | ErrBit.
#[export] Instance Base128Error_eq_dec : EqDecision Base128Error.
Proof. solve_decision. Defined.

Definition EncodedLen (dataLen : Z) : Z := (dataLen * 8 + 6) / 7.
Definition DecodedLen (encLen : Z) : Z := encLen * 7 / 8.

(** What is kept of [v] for the next byte.  In Go [&] binds tighter than [-]:
    [v&(1<<whichByte) - 1] is [(v & (1<<whichByte)) - 1], on a byte. *)
Definition carry (whichByte v : Z) : Z :=
  u8 (Z.shiftl (u8 (Z.land v (u8 (Z.shiftl 1 whichByte)) - 1)) (7 - whichByte)).

Fixpoint encode_loop (src : bytes) (whichByte bufByte : Z) : bytes :=
  match src with
  | [] => [bufByte]
  | v :: src =>
      let out := Z.lor bufByte (Z.shiftr v whichByte) in
      let bufByte := carry whichByte v in
      if whichByte =? 7 then out :: bufByte :: encode_loop src 1 0
      else out :: encode_loop src (whichByte + 1) bufByte
  end.

(** The destination after the call, a slice used to its capacity: bytes are
    appended from its start, and one append past the end goes elsewhere. *)
Definition Encode (dst src : bytes) : outcome (Z * bytes) :=
  let ret := EncodedLen (Z.of_nat (length src)) in
  if Z.of_nat (length dst) <? ret then Panic
  else let out := encode_loop src 1 0 in
       Ret (ret, take (length dst) out ++ drop (length out) dst).

Definition EncodeToString (src : bytes) : outcome bytes :=
  '(_, dst) ← Encode (replicate (Z.to_nat (EncodedLen (Z.of_nat (length src)))) 0) src;
  Ret dst.

(** The bytes decoded before the end or an error. *)
Fixpoint decode_loop (src : bytes) (whichByte bufByte : Z) : bytes * option Base128Error :=
  match src with
  | [] => ([], None)
  | v :: src =>
      if negb (Z.land v 0x80 =? 0) then ([], Some ErrBit)
      else
        let app := if 1 <? whichByte then [Z.lor bufByte (Z.shiftr v (8 - whichByte))] else [] in
        let '(rest, err) := decode_loop src (if whichByte =? 8 then 1 else whichByte + 1)
                                        (u8 (Z.shiftl v whichByte)) in
        (app ++ rest, err)
  end.

Definition Decode (dst src : bytes) : outcome (Z * option Base128Error * bytes) :=
  let dLen := DecodedLen (Z.of_nat (length src)) in
  if negb (EncodedLen dLen =? Z.of_nat (length src)) then Ret (0, Some ErrLength, dst)
  else if Z.of_nat (length dst) <? dLen then Panic
  else let '(out, err) := decode_loop src 1 0 in
       Ret (Z.of_nat (length out), err, take (length dst) out ++ drop (length out) dst).

Definition DecodeString (s : bytes) : outcome (result Base128Error bytes) :=
  '(n, err, dst) ← Decode (replicate (Z.to_nat (DecodedLen (Z.of_nat (length s)))) 0) s;
  Ret (match err with Some e => Err e | None => Ok dst end).

(** * The encoding meant

    The low [whichByte] bits are kept. *)
Fixpoint pack (src : bytes) (whichByte bufByte : Z) : bytes :=
  match src with
  | [] => if whichByte =? 1 then [] else [bufByte]
  | v :: src =>
      let out := bufByte + v / 2 ^ whichByte in
      let bufByte := (v mod 2 ^ whichByte) * 2 ^ (7 - whichByte) in
      if whichByte =? 7 then out :: bufByte :: pack src 1 0
      else out :: pack src (whichByte + 1) bufByte
  end.

Definition encoding (src : bytes) : bytes := pack src 1 0.

Example encoding_two : encoding [0; 255] = [0; 63; 96].
Proof. reflexivity. Qed.
Example decode_two : DecodeString [0; 63; 96] = Ret (Ok [0; 255]).
Proof. reflexivity. Qed.

(** ** The loops, byte by byte

    The decoder at position [w] holds the high bits of the last byte; the
    packer holds its low bits. *)
Lemma land_0x80 c : 0 <= c < 128 -> Z.land c 0x80 = 0.
Proof. intros. rewrite Z.land_comm. change 0x80 with (1 * 2 ^ 7). apply land_disjoint; lia. Qed.

Lemma byte_step_ok w b v : 1 <= w <= 8 -> in_u8 b -> in_u8 v -> (w = 8 -> v = 0) ->
  let low := (b mod 2 ^ (w - 1)) * 2 ^ (8 - w) in
  let c := low + v / 2 ^ w in
  Z.land c 0x80 = 0 /\ Z.lor ((b / 2 ^ (w - 1)) * 2 ^ (w - 1)) (Z.shiftr c (8 - w)) = b /\
  u8 (Z.shiftl c w) = (v / 2 ^ w) * 2 ^ w.
Proof.
  intros Hw Hb Hv H8 low c. unfold in_u8 in *.
  assert (Hm : 0 <= b mod 2 ^ (w - 1) < 2 ^ (w - 1)) by (apply Z.mod_pos_bound, Z.pow_pos_nonneg; lia).
  assert (Hd : 0 <= v / 2 ^ w < 2 ^ (8 - w)).
  { split; [apply Z.div_pos; [lia|apply Z.pow_pos_nonneg; lia]|].
    apply Z.div_lt_upper_bound; [apply Z.pow_pos_nonneg; lia|]. rewrite <-Z.pow_add_r by lia.
    replace (w + (8 - w)) with 8 by lia. lia. }
  assert (Hc : 0 <= c < 128).
  { unfold c, low. assert (2 ^ (w - 1) * 2 ^ (8 - w) = 128) by (rewrite <-Z.pow_add_r by lia; by replace (w - 1 + (8 - w)) with 7 by lia). nia. }
  split; [by apply land_0x80|]. split.
  - unfold c, low. rewrite Z.shiftr_div_pow2, Z.add_comm, Z.div_add by (try apply Z.pow_nonzero; lia).
    rewrite (Z.div_small (v / 2 ^ w)), Z.add_0_l, lor_disjoint_add by lia.
    pose proof (Z.div_mod b (2 ^ (w - 1)) ltac:(apply Z.pow_nonzero; lia)). lia.
  - unfold c, low. rewrite Z.shiftl_mul_pow2, Z.mul_add_distr_r by lia.
    rewrite <-Z.mul_assoc, <-Z.pow_add_r by lia. replace (8 - w + w) with 8 by lia.
    unfold u8. rewrite Z.add_comm, Z.mod_add by lia. apply Z.mod_small.
    assert (2 ^ (8 - w) * 2 ^ w = 256) by (rewrite <-Z.pow_add_r by lia; by replace (8 - w + w) with 8 by lia).
    assert (0 < 2 ^ w) by (apply Z.pow_pos_nonneg; lia). nia.
Qed.

Lemma decode_pack src w b : 1 <= w <= 7 -> in_u8 b -> bytes_ok src ->
  decode_loop (pack src w ((b mod 2 ^ (w - 1)) * 2 ^ (8 - w))) w ((b / 2 ^ (w - 1)) * 2 ^ (w - 1)) =
  ((if 1 <? w then [b] else []) ++ src, None).
Proof.
  intros Hw Hb Hs. revert w b Hw Hb. induction Hs as [|v src Hv Hs IH]; intros w b Hw Hb.
  - cbn [pack]. rewrite app_nil_r. destruct (Z.eqb_spec w 1) as [->|Hne]; [done|].
    destruct (byte_step_ok w b 0) as (H1 & H2 & _); [lia|done|unfold in_u8; lia|done|].
    rewrite Z.div_0_l, Z.add_0_r in H1, H2 by (apply Z.pow_nonzero; lia).
    cbn [decode_loop]. rewrite H1, H2. cbn. rewrite (proj2 (Z.ltb_lt 1 w)) by lia. done.
  - destruct (byte_step_ok w b v) as (H1 & H2 & H3); [lia|done|done|lia|].
    assert (Hcons : forall rest, decode_loop ((b mod 2 ^ (w - 1)) * 2 ^ (8 - w) + v / 2 ^ w :: rest) w
        ((b / 2 ^ (w - 1)) * 2 ^ (w - 1)) =
      let '(r, e) := decode_loop rest (w + 1) ((v / 2 ^ w) * 2 ^ w) in ((if 1 <? w then [b] else []) ++ r, e)).
    { intros rest. cbn [decode_loop]. rewrite H1, H2, H3. cbn [negb Z.eqb].
      by rewrite (proj2 (Z.eqb_neq w 8)) by lia. }
    cbn [pack]. destruct (Z.eqb_spec w 7) as [->|Hne].
    + rewrite Hcons. change (7 + 1) with 8.
      destruct (byte_step_ok 8 v 0) as (G1 & G2 & G3); [lia|done|unfold in_u8; lia|done|].
      change (8 - 1) with 7 in *. change (0 / 2 ^ 8) with 0 in *. rewrite Z.add_0_r in G1, G2, G3.
      change (2 ^ (7 - 7)) with (2 ^ (8 - 8)). cbn [decode_loop]. rewrite G1, G2, G3. cbn [negb Z.eqb app].
      specialize (IH 1 0 ltac:(lia) ltac:(unfold in_u8; lia)).
      change ((0 mod 2 ^ (1 - 1)) * 2 ^ (8 - 1)) with 0 in IH.
      change ((0 / 2 ^ (1 - 1)) * 2 ^ (1 - 1)) with 0 in IH. change (0 * 2 ^ 8) with 0.
      cbn [Pos.eqb]. rewrite IH. done.
    + rewrite Hcons. specialize (IH (w + 1) v ltac:(lia) Hv).
      replace (w + 1 - 1) with w in IH by lia. replace (8 - (w + 1)) with (7 - w) in IH by lia.
      rewrite IH. rewrite (proj2 (Z.ltb_lt 1 (w + 1))) by lia. done.
Qed.

Lemma length_pack src w buf : 1 <= w <= 7 ->
  Z.of_nat (length (pack src w buf)) = (w - 1 + 8 * Z.of_nat (length src) + 6) / 7.
Proof.
  revert w buf. induction src as [|v src IH]; intros w buf Hw; cbn [pack length].
  - destruct (Z.eqb_spec w 1) as [->|]; [done|]. cbn [length]. Z.to_euclidean_division_equations; lia.
  - destruct (Z.eqb_spec w 7) as [->|]; cbn [length].
    + specialize (IH 1 0 ltac:(lia)). Z.to_euclidean_division_equations; lia.
    + specialize (IH (w + 1) ((v mod 2 ^ w) * 2 ^ (7 - w)) ltac:(lia)). Z.to_euclidean_division_equations; lia.
Qed.

Lemma length_encoding src : Z.of_nat (length (encoding src)) = EncodedLen (Z.of_nat (length src)).
Proof. unfold encoding, EncodedLen. rewrite length_pack by lia. f_equal. lia. Qed.

Lemma DecodedLen_EncodedLen n : 0 <= n -> DecodedLen (EncodedLen n) = n.
Proof. intros. unfold DecodedLen, EncodedLen. Z.to_euclidean_division_equations; lia. Qed.

(** Decoding inverts the packing of bytes, seven bits to a byte, and accepts
    no other length than that of a packing. *)
Theorem DecodeString_inverts :
  (forall src, bytes_ok src -> DecodeString (encoding src) = Ret (Ok src)) /\
  (forall s, (forall n, 0 <= n -> Z.of_nat (length s) <> EncodedLen n) -> DecodeString s = Ret (Err ErrLength)).
Proof.
  split.
  - intros src Hs. unfold DecodeString, Decode.
    pose proof (length_encoding src) as Hl. pose proof (DecodedLen_EncodedLen (Z.of_nat (length src)) ltac:(lia)) as Hd.
    rewrite Hl, Hd, Z.eqb_refl. cbn [negb]. rewrite length_replicate, Nat2Z.id, Z.ltb_irrefl.
    pose proof (decode_pack src 1 0 ltac:(lia) ltac:(unfold in_u8; lia) Hs) as H.
    change (decode_loop (encoding src) 1 0 = (src, None)) in H. rewrite H. cbn.
    rewrite firstn_all, drop_ge, app_nil_r; [done|]. rewrite length_replicate. lia.
  - intros s Hs. unfold DecodeString, Decode.
    destruct (Z.eqb_spec (EncodedLen (DecodedLen (Z.of_nat (length s)))) (Z.of_nat (length s))) as [E|_]; [|done].
    exfalso. eapply Hs; [|by symmetry]. unfold DecodedLen. Z.to_euclidean_division_equations; lia.
Qed.

(** The carry is right exactly when the bits it keeps, and one more, are set. *)
Definition carry_ok (w v : Z) : bool := carry w v =? (v mod 2 ^ w) * 2 ^ (7 - w).

Lemma carry_ok_iff w v : 1 <= w <= 7 -> in_u8 v ->
  carry_ok w v = true <-> v mod 2 ^ (w + 1) = 2 ^ (w + 1) - 1.
Proof.
  intros Hw Hv. assert (H : Forall (fun w => Forall (fun v =>
    carry_ok w v = true <-> v mod 2 ^ (w + 1) = 2 ^ (w + 1) - 1) (seqZ 0 256)) (seqZ 1 7)).
  { apply (bool_decide_unpack _). vm_compute. exact I. }
  rewrite Forall_forall in H. specialize (H w). rewrite Forall_forall in H. apply H; apply elem_of_seqZ; [lia|].
  unfold in_u8 in Hv. lia.
Qed.

(** A byte is encoded in a way that decodes only if its two low bits are set:
    the encoding of every other single byte has a high bit or another value. *)
Lemma Encode_single v : in_u8 v ->
  (s ← EncodeToString [v]; DecodeString s) = Ret (Ok [v]) <-> Z.land v 3 = 3.
Proof.
  intros Hv. assert (H : Forall (fun v => (s ← EncodeToString [v]; DecodeString s) = Ret (Ok [v]) <-> Z.land v 3 = 3)
    (seqZ 0 256)) by (apply (bool_decide_unpack _); vm_compute; exact I).
  rewrite Forall_forall in H. apply H, elem_of_seqZ. unfold in_u8 in Hv. lia.
Qed.
