(* ===== verification/ChunkStream.v ===== *)
(** Chunk streams (common/data/chunkstream): a byte buffer that is a linked list
    of chunks, and views that read it without copying.  Nodes live in a store
    that the buffer and its views share. *)
From S2P Require Import Prelude.
From stdpp Require Import fin_maps.
Local Open Scope Z_scope.

(** * The store of nodes (chunkNode)

    Releasing a node frees its address; addresses are not reused, and touching
    a freed one is an error like a nil dereference. *)
Record node := { nbytes : bytes; next : option nat }.
Record Store := { nodes : gmap nat node; fresh_id : nat }.

(** * Buffers (buffer.go) *)
Record Buffer := { first : option nat; last : option nat; bsize : Z; fidx : nat }.

Definition empty_buffer : Buffer := {| first := None; last := None; bsize := 0; fidx := 0 |}.

Definition set_next (n : node) (p : option nat) : node := {| nbytes := nbytes n; next := p |}.

Definition appendChunk (st : Store) (b : Buffer) (c : bytes) : Store * Buffer :=
  if (length c =? 0)%nat then (st, b)
  else
    let cn := fresh_id st in
    let m := <[cn := {| nbytes := c; next := None |}]> (nodes st) in
    match last b with
    | None => ({| nodes := m; fresh_id := S cn |},
               {| first := Some cn; last := Some cn; bsize := bsize b + Z.of_nat (length c); fidx := fidx b |})
    | Some l => ({| nodes := alter (fun n => set_next n (Some cn)) l m; fresh_id := S cn |},
                 {| first := first b; last := Some cn; bsize := bsize b + Z.of_nat (length c); fidx := fidx b |})
    end.

Definition Append (st : Store) (b : Buffer) (cs : list bytes) : Store * Buffer :=
  foldl (fun '(st, b) c => appendChunk st b c) (st, b) cs.

(** The loop of [Bytes]; a list in the store is no longer than the store. *)
Fixpoint bytes_loop (fuel : nat) (st : Store) (cur : option nat) (idx : nat) : outcome bytes :=
  match cur with
  | None => Ret []
  | Some i =>
      match fuel, nodes st !! i with
      | S fuel, Some n => rest ← bytes_loop fuel st (next n) 0; Ret (drop idx (nbytes n) ++ rest)
      | _, _ => Panic
      end
  end.

Definition Buffer_Len (b : Buffer) : Z := bsize b.

Definition Buffer_Bytes (st : Store) (b : Buffer) : outcome bytes :=
  if Buffer_Len b =? 0 then Ret [] else bytes_loop (size (nodes st)) st (first b) (fidx b).

Definition FirstChunk (st : Store) (b : Buffer) : option bytes :=
  i ← first b; nbytes <$> (nodes st !! i).

Fixpoint consume_loop (fuel : nat) (st : Store) (b : Buffer) (c : Z) : outcome (Store * Buffer) :=
  if 0 <? c then
    match fuel, first b with
    | S fuel, Some i =>
        match nodes st !! i with
        | None => Panic
        | Some n =>
            let avail := Z.of_nat (length (nbytes n)) - Z.of_nat (fidx b) in
            if c <? avail
            then Ret (st, {| first := first b; last := last b; bsize := bsize b;
                             fidx := (fidx b + Z.to_nat c)%nat |})
            else consume_loop fuel {| nodes := delete i (nodes st); fresh_id := fresh_id st |}
                   {| first := next n; last := match next n with None => None | _ => last b end;
                      bsize := bsize b; fidx := 0 |} (c - avail)
        end
    | _, _ => Panic
    end
  else Ret (st, b).

Definition Consume (st : Store) (b : Buffer) (c : Z) : outcome (Store * Buffer) :=
  if c =? 0 then Ret (st, b)
  else if bsize b <? c then Panic
  else consume_loop (S (size (nodes st))) st
         {| first := first b; last := last b; bsize := bsize b - c; fidx := fidx b |} c.

(** * Views (view.go) *)
Record View := { cur : option nat; cidx : nat; vsize : Z; consumed : Z }.

Definition ViewLimit (b : Buffer) (limit : Z) : View :=
  {| cur := first b; cidx := fidx b; vsize := if bsize b <? limit then bsize b else limit; consumed := 0 |}.
Definition Buffer_View (b : Buffer) : View := ViewLimit b (bsize b).

Definition Remaining (v : View) : Z := vsize v.
Definition CloneLimit (v : View) (limit : Z) : View :=
  {| cur := cur v; cidx := cidx v; vsize := if limit <? vsize v then limit else vsize v;
     consumed := consumed v |}.
Definition Clone (v : View) : View := CloneLimit v (vsize v).

Section ViewOps.
Context (st : Store).

Definition chunkBytes (v : View) : outcome bytes :=
  match cur v with
  | None => Ret []
  | Some i =>
      match nodes st !! i with
      | None => Panic
      | Some n =>
          let data := drop (cidx v) (nbytes n) in
          if Remaining v <? 0 then Panic
          else Ret (if Remaining v <? Z.of_nat (length data) then take (Z.to_nat (Remaining v)) data else data)
      end
  end.

Definition chunkRemaining (v : View) (n : node) : Z :=
  let result := Z.of_nat (length (nbytes n)) - Z.of_nat (cidx v) in
  if vsize v <? result then vsize v else result.

Fixpoint Skip_loop (fuel : nat) (v : View) (count : Z) : outcome View :=
  if 0 <? count then
    match fuel, cur v with
    | S fuel, Some i =>
        match nodes st !! i with
        | None => Panic
        | Some n =>
            let amount := chunkRemaining v n in
            if count <? amount
            then Ret {| cur := cur v; cidx := (cidx v + Z.to_nat count)%nat;
                        vsize := vsize v - count; consumed := consumed v + count |}
            else Skip_loop fuel {| cur := next n; cidx := 0; vsize := vsize v - amount;
                                   consumed := consumed v + amount |} (count - amount)
        end
    | _, _ => Panic
    end
  else Ret v.

(** A view walks nodes of the store, each at most once. *)
Definition Skip (v : View) (count : Z) : outcome View := Skip_loop (S (size (nodes st))) v count.

Definition View_ReadByte (v : View) : outcome (option Z * View) :=
  chunk ← chunkBytes v;
  match chunk with
  | [] => Ret (None, v)
  | c :: _ => v ← Skip v 1; Ret (Some c, v)
  end.

(** [n] is the room left in the slice; every round fills some of it. *)
Fixpoint Read_loop (n : nat) (fuel : nat) (v : View) : outcome (bytes * View) :=
  match n, fuel with
  | O, _ => Ret ([], v)
  | _, O => Panic
  | _, S fuel =>
      chunk ← chunkBytes v;
      match chunk with
      | [] => Ret ([], v)
      | _ =>
          let got := take n chunk in
          v ← Skip v (Z.of_nat (length got));
          '(rest, v) ← Read_loop (n - length got) fuel v;
          Ret (got ++ rest, v)
      end
  end.

(** What was read, whether [io.EOF] was returned, and the view after. *)
Definition Read (v : View) (n : nat) : outcome (bytes * bool * View) :=
  '(data, v) ← Read_loop n n v;
  Ret (data, negb (length data =? n)%nat || (Remaining v =? 0), v).
End ViewOps.

(** [bytes.Index]: the first place the needle starts, or -1. *)
Fixpoint bytes_Index (data needle : bytes) : Z :=
  if bool_decide (take (length needle) data = needle) then 0
  else match data with
  | [] => -1
  | _ :: data => let i := bytes_Index data needle in if i <? 0 then -1 else i + 1
  end.

Section IndexOps.
Context (st : Store).

(** [None] is running out of fuel; every round but the last skips a byte. *)
Fixpoint indexDestructive (fuel : nat) (v : View) (needle : bytes) : option (outcome (bool * View)) :=
  match fuel with
  | O => None
  | S fuel =>
      match chunkBytes st v with
      | Panic => Some Panic
      | Ret data =>
          if (length data =? 0)%nat then Some (Ret (false, v))
          else
          let idx := bytes_Index data needle in
          if 0 <=? idx then Some (v ← Skip st v idx; Ret (true, v))
          else
          match (if (length needle <? length data)%nat
                 then Skip st v (Z.of_nat (length data) - Z.of_nat (length needle)) else Ret v) with
          | Panic => Some Panic
          | Ret v =>
              match Read st (Clone v) (2 * length needle) with
              | Panic => Some Panic
              | Ret (tbuf, _, _) =>
                  if (length tbuf <? length needle)%nat then Some (Ret (false, v))
                  else
                  let idx := bytes_Index tbuf needle in
                  if 0 <=? idx then Some (v ← Skip st v idx; Ret (true, v))
                  else match Skip st v (Z.of_nat (length needle)) with
                  | Panic => Some Panic
                  | Ret v => indexDestructive fuel v needle
                  end
              end
          end
      end
  end.

Definition Index (v : View) (needle : bytes) : option (outcome Z) :=
  if Remaining v =? 0 then Some (Ret (-1))
  else if (length needle =? 0)%nat then Some (Ret 0)
  else match indexDestructive (S (Z.to_nat (Remaining v))) (Clone v) needle with
  | None => None
  | Some r => Some ('(found, rc) ← r; Ret (if found : bool then consumed rc - consumed v else -1))
  end.
End IndexOps.

Definition example_store : Store * Buffer :=
  Append {| nodes := ∅; fresh_id := 0 |} empty_buffer [[65; 65]; [78]; []; [68]; [76; 65]].
Example bytes_ex : Buffer_Bytes example_store.1 example_store.2 = Ret [65; 65; 78; 68; 76; 65].
Proof. vm_compute. reflexivity. Qed.
Example index_ex : Index example_store.1 (Buffer_View example_store.2) [78; 68; 76] = Some (Ret 2).
Proof. vm_compute. reflexivity. Qed.

(** * Chains of nodes *)
Fixpoint linked (m : gmap nat node) (p : option nat) (cs : list (nat * bytes)) : Prop :=
  match cs with
  | [] => p = None
  | (i, c) :: cs => p = Some i /\ exists n, m !! i = Some n /\ nbytes n = c /\ linked m (next n) cs
  end.

(** A chain read from an offset in its first chunk. *)
Record chain (st : Store) (p : option nat) (idx : nat) (cs : list (nat * bytes)) : Prop := {
  ch_linked : linked (nodes st) p cs;
  ch_nodup : NoDup (map fst cs);
  ch_full : Forall (fun x => x.2 <> []) cs;
  ch_idx : match cs with [] => True | (_, c) :: _ => (idx < length c)%nat end
}.

Definition content (idx : nat) (cs : list (nat * bytes)) : bytes := drop idx (concat (map snd cs)).

Lemma linked_ids m p cs i : linked m p cs -> i ∈ map fst cs -> is_Some (m !! i).
Proof.
  revert p. induction cs as [|[j c] cs IH]; intros p; cbn; [set_solver|].
  intros (_ & n & Hn & _ & Hl) [->|Hi]%elem_of_cons; eauto.
Qed.

Lemma chain_length st p idx cs : chain st p idx cs -> (length cs <= size (nodes st))%nat.
Proof.
  intros [Hl Hnd _ _]. rewrite <-(length_map fst), <-size_dom, <-(size_list_to_set (C:=gset nat)) by done.
  apply subseteq_size. intros i. rewrite elem_of_list_to_set, elem_of_dom. by eapply linked_ids.
Qed.

Lemma content_nil idx : content idx [] = [].
Proof. apply drop_nil. Qed.

Lemma content_cons idx i c cs : (idx <= length c)%nat ->
  content idx ((i, c) :: cs) = drop idx c ++ content 0 cs.
Proof. intros Hi. unfold content. cbn. by rewrite drop_app_le. Qed.

Lemma chain_tail st i n idx c cs : chain st (Some i) idx ((i, c) :: cs) ->
  nodes st !! i = Some n -> chain st (next n) 0 cs.
Proof.
  intros [(_ & n' & Hn' & _ & Hl) Hnd Hf _] Hn. rewrite Hn in Hn'. injection Hn' as <-.
  cbn in Hnd. apply NoDup_cons in Hnd as [_ Hnd]. apply Forall_cons in Hf as [_ Hf].
  split; [done..|]. destruct cs as [|[j d] cs]; [done|].
  apply Forall_cons in Hf as [Hd _]. destruct d; [done|]. cbn. lia.
Qed.

Lemma chain_head st p idx i c cs : chain st p idx ((i, c) :: cs) ->
  p = Some i /\ (idx < length c)%nat /\ exists n, nodes st !! i = Some n /\ nbytes n = c /\ chain st (next n) 0 cs.
Proof.
  intros Hc. destruct (ch_linked _ _ _ _ Hc) as (-> & n & Hn & Hb & _). split; [done|].
  split; [exact (ch_idx _ _ _ _ Hc)|]. exists n. split; [done|]. split; [done|]. eapply chain_tail; [exact Hc|done].
Qed.

Lemma chain_advance st p idx idx' i c cs :
  chain st p idx ((i, c) :: cs) -> (idx' < length c)%nat -> chain st p idx' ((i, c) :: cs).
Proof. intros [H1 H2 H3 _] Hi. by split. Qed.

(** * Views *)

(** A view of the bytes [l]. *)
Definition views (st : Store) (v : View) (l : bytes) : Prop :=
  exists cs, chain st (cur v) (cidx v) cs /\ 0 <= vsize v <= Z.of_nat (length (content (cidx v) cs)) /\
    l = take (Z.to_nat (vsize v)) (content (cidx v) cs).

Lemma views_size st v l : views st v l -> vsize v = Z.of_nat (length l).
Proof. intros (cs & _ & Hs & ->). rewrite length_take. lia. Qed.

Lemma take_app_split {A} (a b : list A) n :
  take n (a ++ b) = if decide (n <= length a)%nat then take n a else a ++ take (n - length a) b.
Proof.
  case_decide; [by rewrite take_app_le|]. rewrite take_app. f_equal. by rewrite take_ge by lia.
Qed.

Lemma Skip_loop_spec st cs fuel v count :
  chain st (cur v) (cidx v) cs -> 0 <= count <= vsize v ->
  vsize v <= Z.of_nat (length (content (cidx v) cs)) -> (length cs < fuel)%nat ->
  exists v', Skip_loop st fuel v count = Ret v' /\ consumed v' = consumed v + count /\
    views st v' (drop (Z.to_nat count) (take (Z.to_nat (vsize v)) (content (cidx v) cs))).
Proof.
  revert fuel v count. induction cs as [|[i c] cs IH]; intros fuel v count Hc Hcnt Hs Hf.
  { rewrite content_nil in *. cbn in Hs. assert (count = 0) as -> by lia. exists v.
    split; [by destruct fuel|]. split; [lia|]. exists []. rewrite content_nil. split; [done|]. cbn. by split; [lia|]. }
  destruct fuel as [|fuel]; [lia|]. cbn [Skip_loop].
  destruct (Z.ltb_spec 0 count) as [Hpos|Hz].
  2:{ assert (count = 0) as -> by lia. exists v. split; [done|]. split; [lia|]. exists ((i, c) :: cs).
      split; [done|]. split; [lia|done]. }
  destruct (chain_head _ _ _ _ _ _ Hc) as (Hcur & Hidx & n & Hn & Hb & Ht). rewrite Hcur, Hn.
  unfold chunkRemaining. rewrite Hb. rewrite content_cons in Hs |- * by lia.
  rewrite length_app, length_drop in Hs.
  destruct (Z.ltb_spec (vsize v) (Z.of_nat (length c) - Z.of_nat (cidx v))) as [Hlim|Hlim].
  - (* the view ends in this chunk *)
    assert (Hlen : (Z.to_nat (vsize v) <= length (drop (cidx v) c))%nat) by (rewrite length_drop; lia).
    rewrite take_app_le by done. destruct (Z.ltb_spec count (vsize v)) as [Hlt|Hge].
    + eexists. split; [done|]. cbn [consumed]. split; [done|]. exists ((i, c) :: cs). cbn [cur cidx vsize].
      assert (Hi : (cidx v + Z.to_nat count < length c)%nat) by lia.
      split; [rewrite <-Hcur; by eapply chain_advance|].
      rewrite content_cons by lia. rewrite length_app, length_drop. split; [lia|].
      rewrite <-drop_drop, take_app_le by (rewrite !length_drop; lia). rewrite skipn_firstn_comm. feq.
    + eexists. assert (count = vsize v) as -> by lia. rewrite Z.sub_diag.
      split; [by destruct fuel|]. split; [cbn; lia|]. exists cs. cbn [cur cidx vsize].
      split; [done|]. split; [lia|]. rewrite take_0. apply drop_ge. rewrite length_take. lia.
  - destruct (Z.ltb_spec count (Z.of_nat (length c) - Z.of_nat (cidx v))) as [Hlt|Hge].
    + eexists. split; [done|]. split; [done|]. exists ((i, c) :: cs). cbn [cur cidx vsize].
      assert (Hi : (cidx v + Z.to_nat count < length c)%nat) by lia.
      split; [rewrite <-Hcur; by eapply chain_advance|].
      rewrite content_cons, length_app, length_drop by lia. split; [lia|].
      rewrite skipn_firstn_comm. rewrite drop_app_le, drop_drop by (rewrite length_drop; lia). feq.
    + set (amount := Z.of_nat (length c) - Z.of_nat (cidx v)) in *.
      edestruct (IH fuel {| cur := next n; cidx := 0; vsize := vsize v - amount;
        consumed := consumed v + amount |} (count - amount)) as (v' & E & Hcons & Hv); cbn [cur cidx vsize];
        [done|lia|lia|cbn in Hf; lia|].
      exists v'. split; [exact E|]. split; [rewrite Hcons; cbn; lia|].
      cbn [vsize cidx] in Hv. replace (drop (Z.to_nat count) _) with
        (drop (Z.to_nat (count - amount)) (take (Z.to_nat (vsize v - amount)) (content 0 cs))); [done|].
      rewrite take_app_split. case_decide as Hd; rewrite length_drop in *.
      * rewrite drop_ge by (rewrite length_take; lia). rewrite (drop_ge (take _ (drop _ _))); [done|].
        rewrite length_take, length_drop. lia.
      * rewrite drop_app_ge, length_drop by (rewrite length_drop; lia). feq.
Qed.

Lemma Skip_spec st v l count : views st v l -> 0 <= count <= Z.of_nat (length l) ->
  exists v', Skip st v count = Ret v' /\ consumed v' = consumed v + count /\
    views st v' (drop (Z.to_nat count) l).
Proof.
  intros Hv Hc. pose proof (views_size _ _ _ Hv) as Hs. destruct Hv as (cs & Hch & Hr & ->).
  pose proof (chain_length _ _ _ _ Hch).
  apply (Skip_loop_spec st cs); [done|lia|lia|lia].
Qed.

Lemma chunkBytes_spec st v l : views st v l ->
  exists chunk rest, chunkBytes st v = Ret chunk /\ l = chunk ++ rest /\ (chunk = [] -> l = []).
Proof.
  intros (cs & Hch & Hr & ->). unfold chunkBytes, Remaining. destruct cs as [|[i c] cs].
  { destruct Hch as [Hl _ _ _]. cbn in Hl. rewrite Hl, content_nil, take_nil. by exists [], []. }
  destruct (chain_head _ _ _ _ _ _ Hch) as (Hcur & Hidx & n & Hn & Hb & _).
  rewrite Hcur, Hn, Hb. destruct (Z.ltb_spec (vsize v) 0); [lia|].
  rewrite content_cons in Hr |- * by lia. rewrite take_app_split, length_drop in *.
  assert (Hne : drop (cidx v) c <> []).
  { intros E. apply (f_equal length) in E. rewrite length_drop in E. cbn in E. lia. }
  destruct (Z.ltb_spec (vsize v) (Z.of_nat (length c - cidx v))) as [Hlt|Hge].
  - rewrite decide_True by lia. exists (take (Z.to_nat (vsize v)) (drop (cidx v) c)), [].
    rewrite app_nil_r. done.
  - case_decide.
    + exists (drop (cidx v) c), []. rewrite app_nil_r, take_ge by (rewrite length_drop; lia). done.
    + eexists _, _. split; [done|]. split; [done|]. done.
Qed.

Lemma ReadByte_spec st v l : views st v l ->
  match l with
  | [] => View_ReadByte st v = Ret (None, v)
  | c :: l => exists v', View_ReadByte st v = Ret (Some c, v') /\ views st v' l /\ consumed v' = consumed v + 1
  end.
Proof.
  intros Hv. destruct (chunkBytes_spec st v l Hv) as (chunk & rest & E & -> & Hnil).
  unfold View_ReadByte. rewrite E. cbn [mbind outcome_bind].
  destruct chunk as [|c chunk]; [by rewrite (Hnil eq_refl)|]. cbn [app].
  destruct (Skip_spec st v _ 1 Hv ltac:(cbn [app length]; lia)) as (v' & -> & Hc & Hv').
  exists v'. by cbn.
Qed.

Lemma Read_loop_spec st fuel n v l : views st v l -> (n <= fuel)%nat ->
  exists v', Read_loop st n fuel v = Ret (take n l, v') /\ views st v' (drop n l) /\
    consumed v' = consumed v + Z.of_nat (length (take n l)).
Proof.
  revert n v l. induction fuel as [|fuel IH]; intros [|n] v l Hv Hf; try lia.
  1,2: exists v; rewrite take_0, drop_0; split; [done|]; split; [done|cbn; lia].
  cbn [Read_loop]. destruct (chunkBytes_spec st v l Hv) as (chunk & rest & -> & Hl & Hnil). cbn [mbind outcome_bind].
  destruct chunk as [|c chunk].
  { rewrite (Hnil eq_refl) in *. exists v. split; [done|]. split; [by rewrite drop_nil|cbn; lia]. }
  assert (Hg : take (S n) (c :: chunk) = take (length (take (S n) (c :: chunk))) l).
  { rewrite length_take, Hl, take_app_le by lia.
    destruct (Nat.min_spec (S n) (length (c :: chunk))) as [[? ->]|[? ->]]; [done|]. by rewrite firstn_all, take_ge by lia. }
  assert (Hgl : (1 <= length (take (S n) (c :: chunk)) <= S n)%nat) by (rewrite length_take; cbn [length]; lia).
  assert (Hgl' : (length (take (S n) (c :: chunk)) <= length l)%nat) by (rewrite Hl, length_app, length_take; lia).
  remember (take (S n) (c :: chunk)) as got eqn:Egot. clear Egot.
  destruct (Skip_spec st v l (Z.of_nat (length got)) Hv ltac:(lia)) as (v1 & -> & Hc1 & Hv1).
  cbn [mbind outcome_bind]. rewrite Nat2Z.id in Hv1.
  destruct (IH (S n - length got)%nat v1 _ Hv1 ltac:(lia)) as (v2 & E2 & Hv2 & Hc2). rewrite E2.
  assert (Htake : got ++ take (S n - length got) (drop (length got) l) = take (S n) l).
  { rewrite Hg at 1. rewrite <-(take_drop (length got) (take (S n) l)) at 1.
    rewrite take_take, skipn_firstn_comm. f_equal. f_equal. lia. }
  exists v2. rewrite <-Htake. split; [done|]. split.
  - rewrite drop_drop in Hv2. by replace (length got + (S n - length got))%nat with (S n) in Hv2 by lia.
  - rewrite Hc2, Hc1, length_app. lia.
Qed.

Lemma Read_spec st v l n : views st v l ->
  exists v', Read st v n = Ret (take n l, bool_decide (length l <= n)%nat, v') /\ views st v' (drop n l) /\
    consumed v' = consumed v + Z.of_nat (length (take n l)).
Proof.
  intros Hv. destruct (Read_loop_spec st n n v l Hv ltac:(lia)) as (v' & E & Hv' & Hc).
  exists v'. unfold Read. rewrite E. cbn [mbind outcome_bind]. split; [|done]. do 3 f_equal.
  unfold Remaining. rewrite (views_size _ _ _ Hv'), length_take, length_drop.
  case_bool_decide; [|apply orb_false_iff; split; [apply negb_false_iff, Nat.eqb_eq|apply Z.eqb_neq]; lia].
  apply orb_true_iff. right. apply Z.eqb_eq. lia.
Qed.

Lemma Clone_views st v l : views st v l -> views st (Clone v) l.
Proof. intros Hv. unfold Clone, CloneLimit. rewrite Z.ltb_irrefl. exact Hv. Qed.

(** * Searching *)
Definition occ (l needle : bytes) (k : nat) : Prop := take (length needle) (drop k l) = needle.

Lemma Index_first l needle : needle <> [] ->
  (bytes_Index l needle = -1 /\ forall k, ~ occ l needle k) \/
  (exists k, bytes_Index l needle = Z.of_nat k /\ occ l needle k /\ forall j, (j < k)%nat -> ~ occ l needle j).
Proof.
  intros Hne. induction l as [|x l IH]; cbn [bytes_Index].
  - rewrite bool_decide_false by (rewrite take_nil; congruence). left. split; [done|].
    intros k. unfold occ. rewrite drop_nil, take_nil. congruence.
  - case_bool_decide as H0.
    { right. exists O. split; [done|]. split; [exact H0|lia]. }
    destruct IH as [[-> Hn]|(k & -> & Hk & Hmin)].
    + left. split; [done|]. intros [|k]; [exact H0|apply Hn].
    + right. exists (S k). rewrite (proj2 (Z.ltb_ge _ 0)) by lia. split; [lia|]. split; [exact Hk|].
      intros [|j] Hj; [exact H0|]. apply Hmin. lia.
Qed.

Lemma occ_bound l needle k : needle <> [] -> occ l needle k -> (k + length needle <= length l)%nat.
Proof.
  intros Hne H. apply (f_equal length) in H. rewrite length_take, length_drop in H.
  destruct needle; [done|]. cbn [length] in *. lia.
Qed.

Lemma Index_unique l needle k : needle <> [] -> occ l needle k ->
  (forall j, (j < k)%nat -> ~ occ l needle j) -> bytes_Index l needle = Z.of_nat k.
Proof.
  intros Hne Hk Hmin. destruct (Index_first l needle Hne) as [[_ Hn]|(k' & -> & Hk' & Hmin')].
  - by destruct (Hn k).
  - destruct (decide (k < k')%nat); [by destruct (Hmin' k)|]. destruct (decide (k' < k)%nat); [by destruct (Hmin k')|]. lia.
Qed.

Lemma occ_app a b needle k : (k + length needle <= length a)%nat -> occ (a ++ b) needle k <-> occ a needle k.
Proof. intros Hk. unfold occ. by rewrite drop_app_le, take_app_le by (rewrite ?length_drop; lia). Qed.

(** A hit in a prefix is the hit. *)
Lemma Index_app a b needle : needle <> [] -> 0 <= bytes_Index a needle ->
  bytes_Index (a ++ b) needle = bytes_Index a needle.
Proof.
  intros Hne Hi. destruct (Index_first a needle Hne) as [[E _]|(k & -> & Hk & Hmin)]; [lia|].
  pose proof (occ_bound a needle k Hne Hk). apply Index_unique; [done|by apply occ_app|].
  intros j Hj. rewrite occ_app by lia. by apply Hmin.
Qed.

(** Nothing starts before [d]. *)
Lemma Index_drop l needle d : needle <> [] -> (forall j, (j < d)%nat -> ~ occ l needle j) ->
  bytes_Index l needle = (let i := bytes_Index (drop d l) needle in if i <? 0 then -1 else Z.of_nat d + i).
Proof.
  intros Hne Hd. assert (Hshift : forall k, occ (drop d l) needle k <-> occ l needle (d + k))
    by (intros k; unfold occ; by rewrite drop_drop).
  destruct (Index_first (drop d l) needle Hne) as [[-> Hn]|(k & -> & Hk & Hmin)]; cbn zeta.
  - rewrite (proj2 (Z.ltb_lt _ _)) by lia. destruct (Index_first l needle Hne) as [[-> _]|(k & _ & Hk & _)]; [done|].
    exfalso. destruct (decide (k < d)%nat); [by eapply Hd|]. apply (Hn (k - d)%nat), Hshift.
    by replace (d + (k - d))%nat with k by lia.
  - rewrite (proj2 (Z.ltb_ge _ 0)) by lia. rewrite <-Nat2Z.inj_add. apply Index_unique; [done|by apply Hshift|].
    intros j Hj Ho. destruct (decide (j < d)%nat); [by eapply Hd|]. apply (Hmin (j - d)%nat); [lia|].
    apply Hshift. by replace (d + (j - d))%nat with j by lia.
Qed.

Lemma Index_none_app a b needle j : needle <> [] -> bytes_Index a needle < 0 -> occ (a ++ b) needle j ->
  (length a < j + length needle)%nat.
Proof.
  intros Hne Hi Ho. destruct (Index_first a needle Hne) as [[_ Hn]|(k & E & _)]; [|lia].
  destruct (decide (j + length needle <= length a)%nat) as [Hle|]; [|lia].
  apply occ_app in Ho; [|done]. by destruct (Hn j).
Qed.

(** What the destructive search does to a view of [l]. *)
Definition search_post (v : View) (l needle : bytes) (r : outcome (bool * View)) : Prop :=
  match r with
  | Panic => False
  | Ret (found, v') => if found then bytes_Index l needle = consumed v' - consumed v else bytes_Index l needle = -1
  end.

Lemma search_post_shift v v' l needle d r : needle <> [] -> (forall j, (j < d)%nat -> ~ occ l needle j) ->
  consumed v' = consumed v + Z.of_nat d ->
  search_post v' (drop d l) needle r -> (forall f w, r = Ret (f, w) -> consumed v' <= consumed w) ->
  search_post v l needle r.
Proof.
  intros Hne Hd Hc Hr Hmono. unfold search_post in *. destruct r as [[f w]|]; [|done].
  specialize (Hmono f w eq_refl). rewrite (Index_drop l needle d Hne Hd). cbn zeta.
  destruct f; rewrite Hr; [rewrite (proj2 (Z.ltb_ge _ 0)); lia|done].
Qed.

Lemma indexDestructive_spec st fuel v l needle :
  views st v l -> needle <> [] -> (length l < fuel)%nat ->
  exists r, indexDestructive st fuel v needle = Some r /\ search_post v l needle r /\
    (forall f w, r = Ret (f, w) -> consumed v <= consumed w).
Proof.
  intros Hv Hne. revert v l Hv. induction fuel as [|fuel IH]; intros v l Hv Hf; [lia|].
  assert (HN : (0 < length needle)%nat) by (destruct needle; [done|cbn; lia]).
  cbn [indexDestructive]. destruct (chunkBytes_spec st v l Hv) as (data & rest & -> & Hl & Hnil).
  destruct (Nat.eqb_spec (length data) 0) as [Hz|Hz].
  { exists (Ret (false, v)). split; [done|]. split; [|intros f w [= _ <-]; lia]. cbn.
    destruct data; [|done]. rewrite (Hnil eq_refl). destruct needle; done. }
  destruct (Z.leb_spec 0 (bytes_Index data needle)) as [Hi|Hi].
  { destruct (Index_first data needle Hne) as [[E _]|(k & E & Hk & _)]; [lia|].
    pose proof (occ_bound _ _ _ Hne Hk).
    destruct (Skip_spec st v l (bytes_Index data needle) Hv) as (v' & -> & Hc & _); [rewrite Hl, length_app; lia|].
    exists (Ret (true, v')). split; [done|]. split; [|intros f w [= _ <-]; lia]. cbn.
    rewrite Hl, Index_app by done. lia. }
  set (d := (length data - length needle)%nat).
  assert (Hskip : exists v1, (if (length needle <? length data)%nat
      then Skip st v (Z.of_nat (length data) - Z.of_nat (length needle)) else Ret v) = Ret v1 /\
      consumed v1 = consumed v + Z.of_nat d /\ views st v1 (drop d l)).
  { destruct (Nat.ltb_spec (length needle) (length data)).
    - destruct (Skip_spec st v l (Z.of_nat (length data) - Z.of_nat (length needle)) Hv) as (v1 & -> & Hc & Hv1);
        [rewrite Hl, length_app; lia|]. exists v1. split; [done|]. split; [rewrite Hc; lia|].
      by replace d with (Z.to_nat (Z.of_nat (length data) - Z.of_nat (length needle))) by lia.
    - exists v. replace d with O by lia. rewrite drop_0. split; [done|]. split; [lia|done]. }
  destruct Hskip as (v1 & -> & Hc1 & Hv1).
  assert (Hbefore : forall j, (j < d)%nat -> ~ occ l needle j).
  { intros j Hj Ho. rewrite Hl in Ho. pose proof (Index_none_app _ _ _ _ Hne Hi Ho). lia. }
  assert (Hgo : forall r, search_post v1 (drop d l) needle r ->
    (forall f w, r = Ret (f, w) -> consumed v1 <= consumed w) ->
    search_post v l needle r /\ (forall f w, r = Ret (f, w) -> consumed v <= consumed w)).
  { intros r Hr Hm. split; [by eapply search_post_shift|]. intros f w E. specialize (Hm f w E). lia. }
  clear Hbefore. set (l1 := drop d l) in *.
  assert (Hl1 : (length l1 <= length l)%nat) by (unfold l1; rewrite length_drop; lia).
  destruct (Read_spec st (Clone v1) l1 (2 * length needle) (Clone_views _ _ _ Hv1)) as (v2 & -> & _ & _).
  destruct (Nat.ltb_spec (length (take (2 * length needle) l1)) (length needle)) as [Hshort|Hlong].
  { exists (Ret (false, v1)). split; [done|]. apply Hgo; [|intros f w [= _ <-]; lia]. cbn.
    destruct (Index_first l1 needle Hne) as [[E _]|(k & _ & Hk & _)]; [done|].
    apply occ_bound in Hk; [|done]. rewrite length_take in Hshort. lia. }
  destruct (Z.leb_spec 0 (bytes_Index (take (2 * length needle) l1) needle)) as [Hi1|Hi1].
  { destruct (Index_first (take (2 * length needle) l1) needle Hne) as [[E _]|(k & E & Hk & _)]; [lia|].
    apply occ_bound in Hk; [|done]. rewrite length_take in Hk.
    destruct (Skip_spec st v1 l1 (bytes_Index (take (2 * length needle) l1) needle) Hv1) as (v' & -> & Hc & _); [lia|].
    exists (Ret (true, v')). split; [done|]. apply Hgo; [|intros f w [= _ <-]; lia]. cbn.
    rewrite <-(take_drop (2 * length needle) l1) at 1. rewrite Index_app by done. lia. }
  rewrite length_take in Hlong.
  destruct (Skip_spec st v1 l1 (Z.of_nat (length needle)) Hv1 ltac:(lia)) as (v3 & -> & Hc3 & Hv3).
  rewrite Nat2Z.id in Hv3.
  destruct (IH v3 _ Hv3) as (r & -> & Hr & Hm); [rewrite length_drop; lia|].
  exists r. split; [done|]. apply Hgo.
  - eapply (search_post_shift v1 v3); [done| |exact Hc3|exact Hr|exact Hm].
    intros j Hj Ho. rewrite <-(take_drop (2 * length needle) l1) in Ho.
    pose proof (Index_none_app _ _ _ _ Hne Hi1 Ho) as Hb. rewrite length_take in Hb.
    rewrite take_drop in Ho. apply occ_bound in Ho; [|done]. lia.
  - intros f w E. specialize (Hm f w E). lia.
Qed.

(** * Buffers *)

(** A buffer of the bytes [l]; all addresses in the store are below the next
    fresh one. *)
Definition buffers (st : Store) (b : Buffer) (l : bytes) : Prop :=
  exists cs, chain st (first b) (fidx b) cs /\ last b = list.last (map fst cs) /\
    (forall i, is_Some (nodes st !! i) -> (i < fresh_id st)%nat) /\
    bsize b = Z.of_nat (length l) /\ l = content (fidx b) cs /\ (cs = [] -> fidx b = 0%nat).

(** Linking a new node after the last one extends the chains that end in it and
    leaves the others. *)
Lemma linked_append m p cs lst cn c :
  linked m p cs -> m !! cn = None -> NoDup (map fst cs) ->
  (forall n, m !! lst = Some n -> next n = None) ->
  let m' := alter (fun n => set_next n (Some cn)) lst (<[cn := {| nbytes := c; next := None |}]> m) in
  is_Some (m !! lst) ->
  linked m' p (if decide (list.last (map fst cs) = Some lst) then cs ++ [(cn, c)] else cs).
Proof.
  intros Hl Hcn Hnd Hlast m' [nl Hlst]. revert p Hl Hnd.
  assert (Hother : forall i n, m !! i = Some n -> i <> lst -> m' !! i = Some n).
  { intros i n Hi Hne. unfold m'. rewrite lookup_alter_ne by done. rewrite lookup_insert_ne; [done|]. congruence. }
  assert (Hl' : m' !! lst = Some (set_next nl (Some cn))).
  { unfold m'. rewrite lookup_alter, decide_True, lookup_insert_ne by congruence. by rewrite Hlst. }
  assert (Hnew : m' !! cn = Some {| nbytes := c; next := None |}).
  { unfold m'. rewrite lookup_alter_ne by congruence. apply lookup_insert_eq. }
  induction cs as [|[i d] cs IH]; intros p; cbn [linked map fst]; [by intros ->|].
  intros (-> & n & Hn & Hd & Hln) Hnd. apply NoDup_cons in Hnd as [Hni Hnd].
  destruct cs as [|[j e] cs].
  - cbn [linked] in Hln. cbn [map list.last]. destruct (decide (Some i = Some lst)) as [[= ->]|Hne]; cbn [app linked].
    + split; [done|]. rewrite Hlst in Hn. injection Hn as <-. exists (set_next nl (Some cn)).
      split; [done|]. split; [done|]. cbn. split; [done|]. eexists. by split.
    + split; [done|]. exists n. split; [by apply Hother; congruence|]. done.
  - specialize (IH _ Hln Hnd). change (list.last (i :: map fst ((j, e) :: cs))) with (list.last (map fst ((j, e) :: cs))).
    assert (Hi : i <> lst).
    { intros ->. rewrite Hlst in Hn. injection Hn as <-. rewrite (Hlast nl Hlst) in Hln. by destruct Hln as [? _]. }
    case_decide; cbn [app linked]; (split; [done|]; exists n; split; [by apply Hother|]; split; [done|]); exact IH.
Qed.

Lemma linked_last m p cs i : linked m p cs -> list.last (map fst cs) = Some i ->
  exists n, m !! i = Some n /\ next n = None.
Proof.
  revert p. induction cs as [|[j c] cs IH]; intros p; cbn [linked]; [done|].
  intros (-> & n & Hn & _ & Hl). destruct cs as [|[k d] cs].
  - cbn. intros [= ->]. exists n. by cbn in Hl.
  - change (list.last (map fst ((j, c) :: (k, d) :: cs))) with (list.last (map fst ((k, d) :: cs))). by apply IH with (p := next n).
Qed.

Lemma last_snoc_ids cs (i : nat) (c : bytes) : list.last (map fst (cs ++ [(i, c)])) = Some i.
Proof. rewrite map_app. apply last_snoc. Qed.

Lemma content_snoc idx cs i c : (idx <= length (concat (map snd cs)))%nat ->
  content idx (cs ++ [(i, c)]) = content idx cs ++ c.
Proof. intros Hi. unfold content. rewrite map_app, concat_app, drop_app_le by done. cbn. by rewrite app_nil_r. Qed.

Lemma chain_idx_le st p idx cs : chain st p idx cs -> (cs = [] -> idx = 0%nat) -> (idx <= length (concat (map snd cs)))%nat.
Proof.
  intros [_ _ _ Hi] Hn. destruct cs as [|[i c] cs]; [rewrite Hn by done; cbn; lia|].
  cbn. rewrite length_app. lia.
Qed.

Lemma linked_fresh m p cs cn n : linked m p cs -> m !! cn = None -> linked (<[cn := n]> m) p cs.
Proof.
  intros Hl Hcn. revert p Hl. induction cs as [|[i c] cs IH]; intros p; cbn; [done|].
  intros (-> & n' & Hn & Hb & Hl). split; [done|]. exists n'.
  rewrite lookup_insert_ne by congruence. auto.
Qed.

Lemma buffers_fresh st b l : buffers st b l -> nodes st !! fresh_id st = None.
Proof.
  intros (cs & _ & _ & Hfr & _). destruct (nodes st !! fresh_id st) eqn:E; [|done].
  pose proof (Hfr (fresh_id st) ltac:(eauto)). lia.
Qed.

(** [st'] is [st] with one more chunk at the end of one of its chains. *)
Definition grows (st st' : Store) (c : bytes) : Prop :=
  nodes st !! fresh_id st = None /\
  forall p ds, linked (nodes st) p ds -> NoDup (map fst ds) ->
    linked (nodes st') p ds \/ (ds <> [] /\ linked (nodes st') p (ds ++ [(fresh_id st, c)])).

Lemma chain_snoc st p idx ds st' c : chain st p idx ds -> ds <> [] -> c <> [] ->
  nodes st !! fresh_id st = None -> linked (nodes st') p (ds ++ [(fresh_id st, c)]) ->
  chain st' p idx (ds ++ [(fresh_id st, c)]).
Proof.
  intros [Hlk Hnd Hf Hi] Hne Hc Hfresh Hl. split; [done| | |].
  - rewrite map_app. apply NoDup_app. split; [done|]. split; [|apply NoDup_singleton].
    intros i Hin Hin'%list_elem_of_singleton. destruct (linked_ids _ _ _ _ Hlk Hin) as [n Hn]. cbn in Hin'. congruence.
  - apply Forall_app. split; [done|]. by constructor.
  - destruct ds as [|[i d] ds]; [done|exact Hi].
Qed.

Lemma views_grow st st' c v k : c <> [] -> grows st st' c -> views st v k -> views st' v k.
Proof.
  intros Hc [Hfresh Hg] (ds & Hch & Hs & ->). pose proof Hch as [Hlk Hnd Hf Hi].
  destruct (Hg _ _ Hlk Hnd) as [Hl|[Hne Hl]].
  - exists ds. split; [by split|]. done.
  - exists (ds ++ [(fresh_id st, c)]). split; [by eapply chain_snoc|].
    rewrite content_snoc by (eapply chain_idx_le; [exact Hch|done]). rewrite length_app. split; [lia|].
    rewrite take_app_le; [done|lia].
Qed.

Lemma append_linked st lst c nl : nodes st !! fresh_id st = None -> nodes st !! lst = Some nl -> next nl = None ->
  grows st {| nodes := alter (fun n => set_next n (Some (fresh_id st))) lst
                (<[fresh_id st := {| nbytes := c; next := None |}]> (nodes st)); fresh_id := S (fresh_id st) |} c.
Proof.
  intros Hfresh Hlst Hnn. split; [done|]. intros p ds Hlk Hnd.
  pose proof (linked_append (nodes st) p ds lst (fresh_id st) c Hlk Hfresh Hnd
    ltac:(intros n Hn; congruence) ltac:(by eexists)) as H.
  case_decide as Hd; [right|by left]. split; [by intros ->|done].
Qed.

Lemma append_first st c : nodes st !! fresh_id st = None ->
  grows st {| nodes := <[fresh_id st := {| nbytes := c; next := None |}]> (nodes st); fresh_id := S (fresh_id st) |} c.
Proof. intros Hfresh. split; [done|]. intros p ds Hlk _. left. by apply linked_fresh. Qed.

Lemma appendChunk_spec st b l c : buffers st b l ->
  let '(st', b') := appendChunk st b c in
  buffers st' b' (l ++ c) /\ (forall v k, views st v k -> views st' v k).
Proof.
  intros Hb. unfold appendChunk. destruct (Nat.eqb_spec (length c) 0) as [Hz|Hz].
  { destruct c; [|done]. rewrite app_nil_r. auto. }
  pose proof (buffers_fresh _ _ _ Hb) as Hfresh.
  destruct Hb as (cs & Hch & Hlast & Hfr & Hsz & Hl & Hidx0). pose proof Hch as [Hlk Hnd Hfull Hidx].
  assert (Hcn : c <> []) by (by destruct c). assert (Hcl : (0 < length c)%nat) by lia.
  destruct (last b) as [lst|].
  - destruct (linked_last _ _ _ _ Hlk (eq_sym Hlast)) as (nl & Hnl & Hnn).
    pose proof (append_linked st lst c nl Hfresh Hnl Hnn) as Hg. split; [|intros v k; by apply (views_grow st _ c)].
    assert (Hne : cs <> []) by (by intros ->).
    pose proof (linked_append (nodes st) _ cs lst (fresh_id st) c Hlk Hfresh Hnd
      ltac:(intros n Hn; congruence) ltac:(by eexists)) as Hlk'. rewrite decide_True in Hlk' by done.
    exists (cs ++ [(fresh_id st, c)]). split; [by apply (chain_snoc st)|].
    cbn [last bsize fidx fresh_id nodes]. split; [by rewrite last_snoc_ids|]. split.
    { intros i. rewrite lookup_alter. case_decide as Hi; [subst i; rewrite fmap_is_Some|];
        intros [n [[<- _]|[_ Hn]]%lookup_insert_Some]; try lia; (eapply Nat.lt_trans; [apply Hfr; by eexists|lia]). }
    split; [rewrite length_app; lia|]. split; [|by destruct cs].
    rewrite content_snoc by by eapply chain_idx_le. by rewrite Hl.
  - destruct cs as [|x cs]; [|by symmetry in Hlast; apply last_None in Hlast].
    rewrite content_nil in Hl. subst l. rewrite (Hidx0 eq_refl) in *.
    split; [|intros v k; apply (views_grow st _ c); [done|by apply append_first]].
    exists [(fresh_id st, c)]. cbn [last first bsize fidx fresh_id nodes]. split; [|split; [done|]].
    { split; [|apply NoDup_singleton|by constructor|lia]. cbn. split; [done|].
      eexists. split; [apply lookup_insert_eq|]. done. }
    split.
    { intros i [n [[<- _]|[_ Hn]]%lookup_insert_Some]; [lia|]. eapply Nat.lt_trans; [apply Hfr; by eexists|lia]. }
    split; [cbn in *; lia|]. split; [|done]. unfold content. cbn. by rewrite app_nil_r.
Qed.

Lemma bytes_loop_spec st fuel p idx cs : chain st p idx cs -> (length cs <= fuel)%nat ->
  bytes_loop fuel st p idx = Ret (content idx cs).
Proof.
  revert fuel p idx. induction cs as [|[i c] cs IH]; intros fuel p idx Hc Hf.
  - destruct Hc as [-> _ _ _]. rewrite content_nil. by destruct fuel.
  - destruct (chain_head _ _ _ _ _ _ Hc) as (-> & Hi & n & Hn & Hb & Ht). destruct fuel as [|fuel]; [cbn in Hf; lia|].
    cbn [bytes_loop]. rewrite Hn, (IH fuel _ _ Ht) by (cbn in Hf; lia). cbn. rewrite Hb, content_cons by lia. done.
Qed.

Lemma linked_delete m p cs i : linked m p cs -> i ∉ map fst cs -> linked (delete i m) p cs.
Proof.
  revert p. induction cs as [|[j c] cs IH]; intros p; cbn; [done|].
  intros (-> & n & Hn & Hb & Hl) Hi. split; [done|]. exists n. rewrite lookup_delete_ne by set_solver. set_solver.
Qed.

Lemma consume_loop_spec cs st b c fuel :
  chain st (first b) (fidx b) cs -> last b = list.last (map fst cs) -> (cs = [] -> fidx b = 0%nat) ->
  (forall i, is_Some (nodes st !! i) -> (i < fresh_id st)%nat) ->
  0 <= c <= Z.of_nat (length (content (fidx b) cs)) ->
  bsize b = Z.of_nat (length (content (fidx b) cs)) - c -> (length cs < fuel)%nat ->
  exists st' b', consume_loop fuel st b c = Ret (st', b') /\ buffers st' b' (drop (Z.to_nat c) (content (fidx b) cs)).
Proof.
  revert st b c fuel. induction cs as [|[i d] cs IH]; intros st b c fuel Hch Hlast Hnil Hfr Hc Hsz Hf.
  { rewrite content_nil in *. cbn in Hc. assert (c = 0) as -> by lia. exists st, b. split; [by destruct fuel|].
    exists []. rewrite content_nil. by repeat (split; [done|]). }
  destruct fuel as [|fuel]; [lia|]. cbn [consume_loop].
  destruct (chain_head _ _ _ _ _ _ Hch) as (Hfirst & Hi & n & Hn & Hb & Ht).
  rewrite Hfirst, Hn, Hb. rewrite Hfirst in Hch. rewrite content_cons in * by lia. rewrite length_app, length_drop in *.
  destruct (Z.ltb_spec 0 c) as [Hpos|].
  2:{ assert (c = 0) as -> by lia. exists st, b. split; [done|]. exists ((i, d) :: cs). split; [by rewrite Hfirst|].
      split; [done|]. split; [done|]. rewrite content_cons by lia. rewrite length_drop, length_app, length_drop.
      split; [lia|]. by split. }
  destruct (Z.ltb_spec c (Z.of_nat (length d) - Z.of_nat (fidx b))) as [Hlt|Hge].
  - eexists _, _. split; [done|]. exists ((i, d) :: cs). cbn [first last bsize fidx].
    split; [eapply chain_advance; [exact Hch|lia]|]. split; [done|]. split; [done|].
    rewrite content_cons by lia. rewrite length_drop, length_app, length_drop. split; [lia|]. split; [|done].
    rewrite drop_app_le, drop_drop by (rewrite length_drop; lia). done.
  - set (avail := Z.of_nat (length d) - Z.of_nat (fidx b)) in *.
    destruct Hch as [_ Hnd _ _]. cbn in Hnd. apply NoDup_cons in Hnd as [Hni _].
    edestruct (IH {| nodes := delete i (nodes st); fresh_id := fresh_id st |}
      {| first := next n; last := match next n with None => None | _ => last b end; bsize := bsize b; fidx := 0 |}
      (c - avail) fuel) as (st' & b' & E & Hb'); cbn [first last bsize fidx nodes fresh_id]; try done; try lia.
    + destruct Ht as [T1 T2 T3 T4]. split; [by apply linked_delete|done..].
    + destruct cs as [|[j e] cs]; [by destruct Ht as [-> _ _ _]|]. destruct Ht as [[-> _] _ _ _].
      rewrite Hlast. done.
    + intros j [_ Hj]%lookup_delete_is_Some. auto.
    + cbn [length] in Hf. lia.
    + exists st', b'. split; [exact E|]. rewrite drop_app_ge by (rewrite length_drop; lia).
      rewrite length_drop. by replace (Z.to_nat c - (length d - fidx b))%nat with (Z.to_nat (c - avail)) by lia.
Qed.

Lemma Append_spec st b l cs : buffers st b l ->
  let '(st', b') := Append st b cs in
  buffers st' b' (l ++ concat cs) /\ (forall v k, views st v k -> views st' v k).
Proof.
  unfold Append. revert st b l. induction cs as [|c cs IH]; intros st b l Hb; cbn [foldl concat].
  { rewrite app_nil_r. auto. }
  pose proof (appendChunk_spec st b l c Hb) as H. destruct (appendChunk st b c) as [st1 b1].
  destruct H as [Hb1 Hv1]. specialize (IH st1 b1 _ Hb1). destruct (foldl _ (st1, b1) cs) as [st2 b2].
  rewrite app_assoc. destruct IH as [? Hv2]. auto.
Qed.

Lemma empty_buffers : buffers {| nodes := ∅; fresh_id := 0 |} empty_buffer [].
Proof.
  exists []. split; [by split; [|constructor|constructor|]|]. split; [done|]. split; [|done].
  intros i [n Hn]. cbn in Hn. by rewrite lookup_empty in Hn.
Qed.

Lemma Consume_spec st b l c : buffers st b l -> 0 <= c ->
  if decide (c <= Z.of_nat (length l)) then
    exists st' b', Consume st b c = Ret (st', b') /\ buffers st' b' (drop (Z.to_nat c) l)
  else Consume st b c = Panic.
Proof.
  intros Hb Hc. pose proof Hb as (cs & Hch & Hlast & Hfr & Hsz & Hl & Hnil). unfold Consume.
  destruct (Z.eqb_spec c 0) as [->|Hne]; case_decide; try lia; [exists st, b; by rewrite drop_0|..].
  - destruct (Z.ltb_spec (bsize b) c); [lia|]. rewrite Hl in *.
    apply (consume_loop_spec cs st {| first := first b; last := last b; bsize := bsize b - c; fidx := fidx b |}); cbn [first last bsize fidx]; try done; try lia.
    pose proof (chain_length _ _ _ _ Hch). lia.
  - by destruct (Z.ltb_spec (bsize b) c); [|lia].
Qed.

(** A buffer is a byte queue: what is appended goes to the end, its bytes
    and length are those of the queue, and consuming drops from the front, or
    panics when there is not enough. *)
Theorem Buffer_refines st b l :
  buffers st b l ->
  (forall cs, let '(st', b') := Append st b cs in buffers st' b' (l ++ concat cs)) /\
  Buffer_Bytes st b = Ret l /\ Buffer_Len b = Z.of_nat (length l) /\
  (forall c, 0 <= c ->
    if decide (c <= Z.of_nat (length l)) then
      exists st' b', Consume st b c = Ret (st', b') /\ buffers st' b' (drop (Z.to_nat c) l)
    else Consume st b c = Panic).
Proof.
  intros Hb. split.
  { intros cs. pose proof (Append_spec st b l cs Hb) as H. destruct (Append st b cs). apply H. }
  split; [|split; [|intros c; by apply Consume_spec]].
  - destruct Hb as (cs & Hch & _ & _ & Hsz & -> & _). unfold Buffer_Bytes, Buffer_Len. rewrite Hsz.
    destruct (Z.eqb_spec (Z.of_nat (length (content (fidx b) cs))) 0) as [Hz|_].
    + by destruct (content (fidx b) cs).
    + apply bytes_loop_spec; [done|]. by eapply chain_length.
  - destruct Hb as (cs & _ & _ & _ & Hsz & _). exact Hsz.
Qed.

(** A view sees the bytes of the buffer at the time it was taken, up to its
    limit, whatever is appended afterwards; reading returns them in order and
    reports the end exactly when nothing is left, and skipping drops them. *)
Theorem View_reads st b l limit more :
  buffers st b l -> 0 <= limit ->
  let v0 := ViewLimit b limit in
  let st' := (Append st b more).1 in
  views st' v0 (take (Z.to_nat limit) l) /\
  forall v k, views st' v k ->
    Remaining v = Z.of_nat (length k) /\
    (forall n, exists v', Read st' v n = Ret (take n k, bool_decide (length k <= n)%nat, v') /\
       views st' v' (drop n k) /\ consumed v' = consumed v + Z.of_nat (length (take n k))) /\
    (forall n, 0 <= n <= Z.of_nat (length k) ->
       exists v', Skip st' v n = Ret v' /\ consumed v' = consumed v + n /\ views st' v' (drop (Z.to_nat n) k)) /\
    match k with
    | [] => View_ReadByte st' v = Ret (None, v)
    | c :: k => exists v', View_ReadByte st' v = Ret (Some c, v') /\ views st' v' k /\ consumed v' = consumed v + 1
    end.
Proof.
  intros Hb Hlim v0 st'. split.
  - pose proof (Append_spec st b l more Hb) as H. subst st'. destruct (Append st b more) as [st' b']. cbn.
    apply H. destruct Hb as (cs & Hch & _ & _ & Hsz & -> & _). exists cs. unfold v0, ViewLimit. cbn [cur cidx vsize].
    split; [done|]. rewrite Hsz. destruct (Z.ltb_spec (Z.of_nat (length (content (fidx b) cs))) limit).
    + split; [lia|]. rewrite !take_ge by lia. done.
    + split; [lia|done].
  - intros v k Hv. split; [by eapply views_size|]. split; [intros n; by apply Read_spec|].
    split; [intros n Hn; by apply Skip_spec|]. by apply ReadByte_spec.
Qed.

Lemma Index_spec st v l needle : views st v l -> needle <> [] ->
  Index st v needle = Some (Ret (bytes_Index l needle)).
Proof.
  intros Hv Hne. unfold Index, Remaining.
  rewrite (views_size _ _ _ Hv). destruct (Z.eqb_spec (Z.of_nat (length l)) 0) as [Hz|_].
  { destruct l; [|cbn in Hz; lia]. by destruct needle. }
  destruct (Nat.eqb_spec (length needle) 0) as [Hz|_]; [by destruct needle|]. rewrite Nat2Z.id.
  destruct (indexDestructive_spec st (S (length l)) (Clone v) l needle (Clone_views _ _ _ Hv) Hne ltac:(lia))
    as (r & -> & Hr & _).
  destruct r as [[[] w]|]; cbn in *; [|by rewrite Hr|done]. by rewrite Hr.
Qed.

(** Searching a view, over its chunks, finds the first place the needle
    starts in the bytes of the view, and -1 exactly when it is nowhere. *)
Theorem Index_exact st v l needle :
  views st v l -> needle <> [] ->
  exists i, Index st v needle = Some (Ret i) /\
    ((i = -1 /\ forall k, ~ occ l needle k) \/
     (exists k, i = Z.of_nat k /\ occ l needle k /\ forall j, (j < k)%nat -> ~ occ l needle j)).
Proof.
  intros Hv Hne. exists (bytes_Index l needle).
  split; [by apply Index_spec|by apply Index_first].
Qed.

(** * On a concrete stream *)
Lemma example_buffers : buffers example_store.1 example_store.2 [65; 65; 78; 68; 76; 65].
Proof.
  pose proof (Append_spec _ _ _ [[65; 65]; [78]; []; [68]; [76; 65]] empty_buffers) as H.
  unfold example_store. destruct (Append _ _ _) as [st b]. apply H.
Qed.

Lemma Buffer_refines_witness :
  buffers example_store.1 example_store.2 [65; 65; 78; 68; 76; 65] /\
  Buffer_Bytes example_store.1 example_store.2 = Ret [65; 65; 78; 68; 76; 65] /\
  Consume example_store.1 example_store.2 7 = Panic.
Proof.
  destruct (Buffer_refines _ _ _ example_buffers) as (_ & Hb & _ & Hc).
  split; [exact example_buffers|]. split; [exact Hb|]. exact (Hc 7 ltac:(discriminate)).
Defined.

Lemma View_reads_witness :
  views (Append example_store.1 example_store.2 [[9; 9]]).1 (ViewLimit example_store.2 3) [65; 65; 78].
Proof.
  destruct (View_reads example_store.1 example_store.2 _ 3 [[9; 9]] example_buffers ltac:(lia)) as [Hv _].
  exact Hv.
Defined.

Lemma Index_exact_witness :
  views example_store.1 (ViewLimit example_store.2 6) [65; 65; 78; 68; 76; 65] /\
  exists i, Index example_store.1 (ViewLimit example_store.2 6) [78; 68; 76] = Some (Ret i) /\
    ((i = -1 /\ forall k, ~ occ [65; 65; 78; 68; 76; 65] [78; 68; 76] k) \/
     (exists k, i = Z.of_nat k /\ occ [65; 65; 78; 68; 76; 65] [78; 68; 76] k /\
        forall j, (j < k)%nat -> ~ occ [65; 65; 78; 68; 76; 65] [78; 68; 76] j)).
Proof.
  assert (Hv : views example_store.1 (ViewLimit example_store.2 6) [65; 65; 78; 68; 76; 65]).
  { destruct example_buffers as (cs & Hch & _ & _ & Hsz & Hl & _). exists cs. cbn [ViewLimit cur cidx vsize].
    split; [exact Hch|]. rewrite Hsz, <-Hl. split; [split; discriminate|reflexivity]. }
  split; [exact Hv|]. exact (Index_exact _ _ _ [78; 68; 76] Hv ltac:(discriminate)).
Defined.
