(* ===== verification/LRU.v ===== *)
(** The LRU cache (common/data/caching/lru): a map of list elements and a list
    of elements, the most recently used first.  The locks make every operation
    atomic. *)
From S2P Require Import Prelude.
From stdpp Require Import fin_maps.
Local Open Scope Z_scope.

Section Cache.
Context {K V : Type} `{Countable K}.

(** ** The concrete cache

    Elements of [container/list] have an address; a nil value is [None]. *)
Record Cache := {
  heuristic : option (Z -> V -> bool);
  elems : gmap nat (K * V);
  cache : gmap K nat;
  lru : list nat;
  fresh_elem : nat
}.

Definition sizeHeuristic (maxElements : Z) : Z -> V -> bool := fun curElements _ => curElements <=? maxElements.

Definition newCache (h : option (Z -> V -> bool)) : Cache :=
  {| heuristic := h; elems := ∅; cache := ∅; lru := []; fresh_elem := 0 |}.
Definition New (size : Z) : Cache := newCache (Some (sizeHeuristic size)).

Definition value_of (c : Cache) (e : nat) : option V := snd <$> (elems c !! e).

Definition list_Remove (e : nat) (l : list nat) : list nat := filter (fun x => x <> e) l.
Definition MoveToFront (e : nat) (l : list nat) : list nat := e :: list_Remove e l.

Definition Peek (c : Cache) (key : K) : option V := e ← cache c !! key; value_of c e.

Definition with_lru (c : Cache) (l : list nat) : Cache :=
  {| heuristic := heuristic c; elems := elems c; cache := cache c; lru := l; fresh_elem := fresh_elem c |}.

Definition Get (c : Cache) (key : K) : option V * Cache :=
  match cache c !! key with
  | Some e => (value_of c e, with_lru c (MoveToFront e (lru c)))
  | None => (None, c)
  end.

(** Deleting a key and its element. *)
Definition drop_key (c : Cache) (key : K) (e : nat) : Cache :=
  {| heuristic := heuristic c; elems := delete e (elems c); cache := delete key (cache c);
     lru := list_Remove e (lru c); fresh_elem := fresh_elem c |}.

(** Every round drops an element; [None] is running out of fuel or a dangling
    element. *)
Fixpoint prune_loop (fuel : nat) (h : Z -> V -> bool) (c : Cache) : option Cache :=
  match last (lru c) with
  | None => Some c
  | Some e =>
      match fuel, elems c !! e with
      | S fuel, Some (k, v) =>
          if h (Z.of_nat (size (cache c))) v then Some c else prune_loop fuel h (drop_key c k e)
      | _, _ => None
      end
  end.

Definition pruneLocked (c : Cache) : option Cache :=
  match heuristic c with None => Some c | Some h => prune_loop (length (lru c)) h c end.

Definition Mutate (c : Cache) (key : K) (gen : option V -> option V) : option (option V * Cache) :=
  let e := cache c !! key in
  let value := gen (e ← e; value_of c e) in
  match value with
  | None => Some (None, match e with Some e => drop_key c key e | None => c end)
  | Some v =>
      match e with
      | None =>
          let e := fresh_elem c in
          c ← pruneLocked {| heuristic := heuristic c; elems := <[e := (key, v)]> (elems c);
                cache := <[key := e]> (cache c); lru := e :: lru c; fresh_elem := S e |};
          Some (Some v, c)
      | Some e =>
          Some (Some v, {| heuristic := heuristic c; elems := <[e := (key, v)]> (elems c);
                 cache := cache c; lru := MoveToFront e (lru c); fresh_elem := fresh_elem c |})
      end
  end.

Definition Put (c : Cache) (key : K) (value : option V) : option (bool * Cache) :=
  '(_, c') ← Mutate c key (fun _ => value);
  Some (bool_decide (is_Some (e ← cache c !! key; value_of c e)), c').

Definition Remove (c : Cache) (key : K) : option V * Cache :=
  match cache c !! key with
  | Some e => (value_of c e, drop_key c key e)
  | None => (None, c)
  end.

Definition Purge (c : Cache) : Cache :=
  {| heuristic := heuristic c; elems := elems c; cache := ∅; lru := []; fresh_elem := fresh_elem c |}.

Definition Len (c : Cache) : Z := Z.of_nat (size (cache c)).

Definition keys (c : Cache) : list K := (map_to_list (cache c)).*1.

Definition snapshot (c : Cache) : gmap K V := omap (value_of c) (cache c).

(** ** What it means: an association list by recency *)
Notation assoc := (list (K * V)).

Definition alookup (l : assoc) (k : K) : option V := snd <$> List.find (fun p => bool_decide (p.1 = k)) l.
Definition aremove (l : assoc) (k : K) : assoc := filter (fun p => p.1 <> k) l.

(** Least recently used entries go while the heuristic does not allow them. *)
Fixpoint aprune_rev (h : Z -> V -> bool) (r : assoc) : assoc :=
  match r with
  | [] => []
  | (k, v) :: r' => if h (Z.of_nat (length r)) v then r else aprune_rev h r'
  end.
Definition aprune (h : option (Z -> V -> bool)) (l : assoc) : assoc :=
  match h with None => l | Some h => rev (aprune_rev h (rev l)) end.

Definition aget (l : assoc) (k : K) : option V * assoc :=
  match alookup l k with Some v => (Some v, (k, v) :: aremove l k) | None => (None, l) end.

Definition amutate (h : option (Z -> V -> bool)) (l : assoc) (k : K) (gen : option V -> option V)
  : option V * assoc :=
  let value := gen (alookup l k) in
  (value, match value, alookup l k with
          | None, _ => aremove l k
          | Some v, Some _ => (k, v) :: aremove l k
          | Some v, None => aprune h ((k, v) :: l)
          end).

(** The cache holds exactly the entries of the list, in its order. *)
Record holds (c : Cache) (l : assoc) : Prop := {
  h_elems : mapM (fun e => elems c !! e) (lru c) = Some l;
  h_nodup : NoDup (map fst l);
  h_nodup_lru : NoDup (lru c);
  h_cache : forall k e, cache c !! k = Some e <-> e ∈ lru c /\ fst <$> (elems c !! e) = Some k;
  h_fresh : forall e, e ∈ lru c -> (e < fresh_elem c)%nat
}.
End Cache.
Arguments Cache K V {_ _}.
Arguments newCache {K V _ _}. Arguments New {K V _ _}.

Section Proofs.
Context {K V : Type} `{Countable K}.
Implicit Types (c : Cache K V) (l : list (K * V)).

Lemma holds_elems c l : holds c l -> Forall2 (fun e p => elems c !! e = Some p) (lru c) l.
Proof. intros Hh. by apply mapM_Some, h_elems. Qed.

Lemma holds_in c l e : holds c l -> e ∈ lru c -> exists p, elems c !! e = Some p /\ p ∈ l.
Proof.
  intros Hh [i Hi]%list_elem_of_lookup. destruct (Forall2_lookup_l _ _ _ _ _ (holds_elems c l Hh) Hi) as (p & Hp & E).
  exists p. split; [done|]. by eapply list_elem_of_lookup_2.
Qed.

Lemma holds_cache_elem c l k e : holds c l -> cache c !! k = Some e ->
  exists v, elems c !! e = Some (k, v) /\ e ∈ lru c /\ (k, v) ∈ l.
Proof.
  intros Hh [Hin Hk]%(h_cache c l Hh). destruct (holds_in c l e Hh Hin) as ([k' v] & E & Hp).
  rewrite E in Hk. cbn in Hk. injection Hk as ->. by exists v.
Qed.

Lemma alookup_spec l k v : NoDup (map fst l) -> (k, v) ∈ l -> alookup l k = Some v.
Proof.
  unfold alookup. induction l as [|[k' v'] l IH]; cbn; [by intros _ ?%elem_of_nil|]. rewrite NoDup_cons. intros [Hn Hnd] Hin.
  apply elem_of_cons in Hin as [[= -> ->]|Hin].
  - by rewrite bool_decide_true by done.
  - rewrite bool_decide_false; [auto|]. intros ->. destruct Hn. by apply (list_elem_of_fmap_2 fst _ (k, v)).
Qed.

Lemma alookup_none l k : (forall v, (k, v) ∉ l) -> alookup l k = None.
Proof.
  unfold alookup. induction l as [|[k' v'] l IH]; intros Hn; cbn; [done|].
  rewrite bool_decide_false by (intros ->; apply (Hn v'); by left). apply IH. intros v Hv. apply (Hn v). by right.
Qed.

Lemma holds_lookup c l k : holds c l -> (e ← cache c !! k; value_of c e) = alookup l k.
Proof.
  intros Hh. destruct (cache c !! k) as [e|] eqn:E; cbn.
  - destruct (holds_cache_elem c l k e Hh E) as (v & He & _ & Hin). unfold value_of. rewrite He. cbn.
    symmetry. apply alookup_spec; [apply Hh|done].
  - symmetry. apply alookup_none. intros v [i Hi]%list_elem_of_lookup.
    destruct (Forall2_lookup_r _ _ _ _ _ (holds_elems c l Hh) Hi) as (e & He & Hel).
    assert (cache c !! k = Some e); [|congruence]. apply (h_cache c l Hh). rewrite Hel.
    split; [by eapply list_elem_of_lookup_2|done].
Qed.

(** Dropping an element and dropping its key. *)
Lemma holds_filter c l k e : holds c l -> cache c !! k = Some e ->
  Forall2 (fun e' p => elems c !! e' = Some p) (list_Remove e (lru c)) (aremove l k).
Proof.
  intros Hh E. destruct (holds_cache_elem c l k e Hh E) as (v & He & _ & _).
  assert (Hk : forall e' p, e' ∈ lru c -> elems c !! e' = Some p -> (e' <> e <-> p.1 <> k)).
  { intros e' p Hin Hp. split; intros Hne Heq; apply Hne.
    - assert (cache c !! k = Some e') by (apply (h_cache c l Hh); rewrite Hp; cbn; by rewrite Heq). congruence.
    - subst e'. rewrite He in Hp. by injection Hp as <-. }
  pose proof (holds_elems c l Hh) as Hf. revert Hk Hf. unfold list_Remove, aremove. generalize (lru c). clear.
  intros es Hk Hf. induction Hf as [|e' p es l He Hf IH]; [constructor|].
  specialize (IH ltac:(intros; apply Hk; [by right|done])). pose proof (Hk e' p ltac:(by left) He) as Hd.
  destruct (decide (e' <> e)) as [Hne|Hne].
  - rewrite filter_cons_True by done. rewrite (filter_cons_True (fun p : K * V => p.1 <> k)) by tauto. by constructor.
  - rewrite filter_cons_False by done. rewrite (filter_cons_False (fun p : K * V => p.1 <> k)) by tauto. done.
Qed.

Lemma NoDup_aremove l k : NoDup (map fst l) -> NoDup (map fst (aremove l k)) /\ k ∉ map fst (aremove l k).
Proof.
  unfold aremove. induction l as [|p l IH]; intros Hnd; [split; [constructor|apply not_elem_of_nil]|].
  change (NoDup (p.1 :: map fst l)) in Hnd. apply NoDup_cons in Hnd as [Hn Hnd]. destruct (IH Hnd) as [H1 H2].
  rewrite filter_cons. case_decide as Hp; [|done]. cbn [map]. split.
  - apply NoDup_cons. split; [|done]. intros (q & Hq & [_ Hin]%list_elem_of_filter)%list_elem_of_fmap.
    apply Hn. rewrite Hq. by apply list_elem_of_fmap_2.
  - intros [E|?]%elem_of_cons; [congruence|done].
Qed.

Lemma elem_of_list_Remove e e' es : e' ∈ list_Remove e es <-> e' <> e /\ e' ∈ es.
Proof. unfold list_Remove. by rewrite list_elem_of_filter. Qed.

(** The elements of a list, looked up. *)
Definition elements_are (m : gmap nat (K * V)) (es : list nat) l : Prop :=
  Forall2 (fun e p => m !! e = Some p) es l.

Lemma elements_change m m' es l : (forall e, e ∈ es -> m' !! e = m !! e) ->
  elements_are m es l -> elements_are m' es l.
Proof.
  intros Hm He. induction He as [|e p es l Hep He IH]; [constructor|]. constructor.
  - rewrite Hm; [done|by left].
  - apply IH. intros e' He'. apply Hm. by right.
Qed.

Lemma holds_drop c l k e : holds c l -> cache c !! k = Some e -> holds (drop_key c k e) (aremove l k).
Proof.
  intros Hh E. pose proof (holds_filter c l k e Hh E) as Hf.
  destruct (NoDup_aremove l k (h_nodup c l Hh)) as [Hnd Hni].
  destruct (holds_cache_elem c l k e Hh E) as (v & He & Hin & _). split; cbn.
  - apply mapM_Some. eapply elements_change; [|exact Hf]. intros e' [Hne _]%elem_of_list_Remove.
    by apply lookup_delete_ne.
  - done.
  - apply NoDup_filter, Hh.
  - intros k' e'. rewrite lookup_delete_Some, (h_cache c l Hh), elem_of_list_Remove. split.
    + intros (Hk & Hin' & Hke). assert (Hne : e' <> e) by (intros ->; rewrite He in Hke; cbn in Hke; congruence).
      split; [done|]. by rewrite lookup_delete_ne.
    + intros ([Hne Hin'] & Hke). rewrite lookup_delete_ne in Hke by done. split; [|done]. intros ->.
      assert (cache c !! k' = Some e') by (by apply (h_cache c l Hh)). congruence.
  - intros e' [_ He']%elem_of_list_Remove. by apply (h_fresh c l Hh).
Qed.

(** Giving an element a new value and moving it to the front. *)
Lemma holds_touch c l k e v : holds c l -> cache c !! k = Some e ->
  holds {| heuristic := heuristic c; elems := <[e := (k, v)]> (elems c); cache := cache c;
           lru := MoveToFront e (lru c); fresh_elem := fresh_elem c |} ((k, v) :: aremove l k).
Proof.
  intros Hh E. pose proof (holds_filter c l k e Hh E) as Hf.
  destruct (NoDup_aremove l k (h_nodup c l Hh)) as [Hnd Hni].
  destruct (holds_cache_elem c l k e Hh E) as (v0 & He & Hin & _). unfold MoveToFront. split; cbn [lru elems cache fresh_elem].
  - apply mapM_Some. constructor; [apply lookup_insert_eq|]. eapply elements_change; [|exact Hf].
    intros e' [Hne _]%elem_of_list_Remove. by apply lookup_insert_ne.
  - cbn. by apply NoDup_cons.
  - apply NoDup_cons. split; [by intros [? _]%elem_of_list_Remove|]. apply NoDup_filter, Hh.
  - intros k' e'. rewrite (h_cache c l Hh), elem_of_cons, elem_of_list_Remove.
    destruct (decide (e' = e)) as [->|Hne].
    + rewrite lookup_insert_eq, He. cbn. tauto.
    + rewrite lookup_insert_ne by done. tauto.
  - intros e' [->|[_ He']%elem_of_list_Remove]%elem_of_cons; by apply (h_fresh c l Hh).
Qed.

Lemma holds_get c l k e : holds c l -> cache c !! k = Some e ->
  exists v, alookup l k = Some v /\ value_of c e = Some v /\ holds (with_lru c (MoveToFront e (lru c))) ((k, v) :: aremove l k).
Proof.
  intros Hh E. destruct (holds_cache_elem c l k e Hh E) as (v & He & Hin & Hl). exists v.
  split; [by apply alookup_spec; [apply Hh|]|]. split; [unfold value_of; by rewrite He|].
  pose proof (holds_touch c l k e v Hh E) as Ht. by rewrite insert_id in Ht by done.
Qed.

(** A new element in front. *)
Lemma holds_new c l k v : holds c l -> cache c !! k = None ->
  holds {| heuristic := heuristic c; elems := <[fresh_elem c := (k, v)]> (elems c);
           cache := <[k := fresh_elem c]> (cache c); lru := fresh_elem c :: lru c;
           fresh_elem := S (fresh_elem c) |} ((k, v) :: l).
Proof.
  intros Hh E. assert (Hfr : fresh_elem c ∉ lru c) by (intros Hin%(h_fresh c l Hh); lia).
  assert (Hk : k ∉ map fst l).
  { intros (p & -> & [i Hi]%list_elem_of_lookup)%list_elem_of_fmap.
    destruct (Forall2_lookup_r _ _ _ _ _ (holds_elems c l Hh) Hi) as (e & He & Hel).
    assert (cache c !! p.1 = Some e); [|congruence]. apply (h_cache c l Hh). rewrite Hel.
    split; [by eapply list_elem_of_lookup_2|done]. }
  split; cbn [lru elems cache fresh_elem].
  - apply mapM_Some. constructor; [apply lookup_insert_eq|]. eapply elements_change; [|by apply holds_elems].
    intros e' He'. apply lookup_insert_ne. set_solver.
  - cbn. apply NoDup_cons. split; [done|apply Hh].
  - apply NoDup_cons. split; [done|apply Hh].
  - intros k' e'. rewrite lookup_insert_Some, elem_of_cons, (h_cache c l Hh).
    destruct (decide (e' = fresh_elem c)) as [->|Hne].
    + rewrite lookup_insert_eq. cbn. split; [intros [[-> _]|(_ & ? & _)]; [auto|done]|]. intros [_ [= ->]]. auto.
    + rewrite (lookup_insert_ne (elems c)) by done. split.
      * intros [[_ <-]|(_ & ? & ?)]; [done|auto].
      * intros [[?|Hin] Hke]; [done|]. right. split; [|done]. intros <-.
        assert (cache c !! k = Some e') by (by apply (h_cache c l Hh)). congruence.
  - intros e' [->|He'%(h_fresh c l Hh)]%elem_of_cons; lia.
Qed.

Lemma holds_size c l : holds c l -> size (cache c) = length l.
Proof.
  intros Hh. rewrite <-size_dom, <-(length_map fst l), <-(size_list_to_set (C:=gset K) (map fst l)) by apply Hh.
  f_equal. apply leibniz_equiv. intros k. rewrite elem_of_dom, elem_of_list_to_set. split.
  - intros [e E]. destruct (holds_cache_elem c l k e Hh E) as (v & _ & _ & Hin).
    by apply (list_elem_of_fmap_2 fst _ (k, v)).
  - intros (p & -> & [i Hi]%list_elem_of_lookup)%list_elem_of_fmap.
    destruct (Forall2_lookup_r _ _ _ _ _ (holds_elems c l Hh) Hi) as (e & He & Hel). exists e.
    apply (h_cache c l Hh). rewrite Hel. split; [by eapply list_elem_of_lookup_2|done].
Qed.

Lemma aremove_last l k v : NoDup (map fst (l ++ [(k, v)])) -> aremove (l ++ [(k, v)]) k = l.
Proof.
  rewrite map_app, NoDup_app. intros (_ & Hd & _). unfold aremove. rewrite filter_app.
  rewrite filter_cons_False by (cbn; tauto). rewrite filter_nil, app_nil_r.
  induction l as [|p l IH]; [done|]. rewrite filter_cons_True.
  - rewrite IH; [done|]. intros x Hx. apply Hd. cbn. by right.
  - intros E. apply (Hd p.1); [cbn; by left|]. cbn. rewrite E. by left.
Qed.

Lemma prune_loop_spec h fuel c l : holds c l -> (length l <= fuel)%nat ->
  exists c', prune_loop fuel h c = Some c' /\ holds c' (rev (aprune_rev h (rev l))) /\ heuristic c' = heuristic c.
Proof.
  revert c l. induction fuel as [|fuel IH]; intros c l Hh Hf; pose proof (holds_elems c l Hh) as He.
  { destruct l; [|cbn in Hf; lia]. apply Forall2_nil_inv_r in He. exists c. cbn. rewrite He. auto. }
  destruct l as [|[k v] l0 _] using rev_ind.
  { apply Forall2_nil_inv_r in He. exists c. cbn. rewrite He. auto. }
  apply Forall2_app_inv_r in He as (es & es' & _ & He' & Hlru).
  apply Forall2_cons_inv_r in He' as (e & es'' & He & ->%Forall2_nil_inv_r & ->).
  cbn [prune_loop]. rewrite Hlru, last_snoc, He. rewrite rev_app_distr. cbn [rev app aprune_rev].
  assert (Ec : cache c !! k = Some e).
  { apply (h_cache c _ Hh). rewrite Hlru, He. split; [|done]. apply elem_of_app. right. by left. }
  assert (Hs : size (cache c) = length ((k, v) :: rev l0)).
  { rewrite (holds_size c _ Hh), length_app. cbn. rewrite length_rev. lia. }
  rewrite Hs. destruct (h _ v).
  - exists c. split; [done|]. split; [|done]. cbn [rev]. by rewrite rev_involutive.
  - destruct (IH (drop_key c k e) (aremove (l0 ++ [(k, v)]) k)) as (c' & E & Hh' & Hheur).
    + by apply holds_drop.
    + rewrite aremove_last by apply Hh. rewrite length_app in Hf. cbn in Hf. lia.
    + exists c'. split; [done|]. rewrite aremove_last in Hh' by apply Hh. split; [done|]. by rewrite Hheur.
Qed.

Lemma pruneLocked_spec c l : holds c l ->
  exists c', pruneLocked c = Some c' /\ holds c' (aprune (heuristic c) l) /\ heuristic c' = heuristic c.
Proof.
  intros Hh. unfold pruneLocked, aprune. destruct (heuristic c) as [h|] eqn:E; [|by exists c].
  rewrite <-E. apply prune_loop_spec; [done|].
  by rewrite (Forall2_length _ _ _ (holds_elems c l Hh)).
Qed.
End Proofs.

Section Theorems.
Context {K V : Type} `{Countable K}.
Implicit Types (c : Cache K V) (l : list (K * V)).

Lemma aremove_none l k : alookup l k = None -> aremove l k = l.
Proof.
  unfold alookup, aremove. induction l as [|p l IH]; cbn [List.find]; [done|]. case_bool_decide as Hp; [done|].
  intros Hn. rewrite filter_cons_True by done. by rewrite IH.
Qed.

Lemma holds_none c l k : holds c l -> cache c !! k = None <-> alookup l k = None.
Proof.
  intros Hh. pose proof (holds_lookup c l k Hh) as Hl. destruct (cache c !! k) as [e|] eqn:E; cbn in Hl.
  - destruct (holds_cache_elem c l k e Hh E) as (v & He & _ & _). unfold value_of in Hl. rewrite He in Hl. by rewrite <-Hl.
  - by rewrite <-Hl.
Qed.

Lemma Mutate_spec c l k gen : holds c l ->
  exists c', Mutate c k gen = Some ((amutate (heuristic c) l k gen).1, c') /\
    holds c' (amutate (heuristic c) l k gen).2 /\ heuristic c' = heuristic c.
Proof.
  intros Hh. unfold Mutate, amutate. rewrite (holds_lookup c l k Hh). cbn [fst snd].
  pose proof (holds_none c l k Hh) as Hn.
  destruct (gen (alookup l k)) as [v|].
  - destruct (cache c !! k) as [e|] eqn:E.
    + destruct (alookup l k) as [v0|] eqn:El; [|by specialize (proj2 Hn eq_refl)].
      eexists. split; [done|]. split; [by apply holds_touch|done].
    + rewrite (proj1 Hn eq_refl).
      destruct (pruneLocked_spec _ _ (holds_new c l k v Hh E)) as (c' & Ep & Hc' & Hheur).
      rewrite Ep. exists c'. split; [done|]. by split.
  - destruct (cache c !! k) as [e|] eqn:E.
    + eexists. split; [done|]. split; [by apply holds_drop|done].
    + exists c. split; [done|]. by rewrite aremove_none by by apply Hn.
Qed.

Lemma Get_spec c l k : holds c l -> (Get c k).1 = (aget l k).1 /\ holds (Get c k).2 (aget l k).2.
Proof.
  intros Hh. pose proof (holds_none c l k Hh) as Hn. unfold Get, aget.
  destruct (cache c !! k) as [e|] eqn:E.
  - destruct (holds_get c l k e Hh E) as (v & -> & -> & Hg). by split.
  - by rewrite (proj1 Hn eq_refl).
Qed.

Lemma Put_spec c l k v : holds c l -> exists c', Put c k v = Some (bool_decide (is_Some (alookup l k)), c') /\
  holds c' (amutate (heuristic c) l k (fun _ => v)).2 /\ heuristic c' = heuristic c.
Proof.
  intros Hh. destruct (Mutate_spec c l k (fun _ => v) Hh) as (c' & E & Hc' & Hheur).
  exists c'. unfold Put. rewrite E, (holds_lookup c l k Hh). by split.
Qed.

Lemma Remove_spec c l k : holds c l -> (Remove c k).1 = alookup l k /\ holds (Remove c k).2 (aremove l k).
Proof.
  intros Hh. pose proof (holds_none c l k Hh) as Hn. pose proof (holds_lookup c l k Hh) as Hl. unfold Remove.
  destruct (cache c !! k) as [e|] eqn:E.
  - split; [exact Hl|]. by apply holds_drop.
  - rewrite (proj1 Hn eq_refl). split; [done|]. by rewrite aremove_none by by apply Hn.
Qed.

Lemma Purge_spec c l : holds c l -> holds (Purge c) [].
Proof. intros Hh. split; cbn; [done|constructor|constructor| |set_solver]. intros k' e. rewrite lookup_empty. set_solver. Qed.


(** ** Bounded caches *)
Inductive Op := OpGet (k : K) | OpPut (k : K) (v : option V) | OpRemove (k : K) | OpPurge.

Definition step (c : Cache K V) (op : Op) : option (Cache K V) :=
  match op with
  | OpGet k => Some (Get c k).2
  | OpPut k v => snd <$> Put c k v
  | OpRemove k => Some (Remove c k).2
  | OpPurge => Some (Purge c)
  end.

Fixpoint run (c : Cache K V) (ops : list Op) : option (Cache K V) :=
  match ops with [] => Some c | op :: ops => c ← step c op; run c ops end.

Lemma length_aremove l k : (length (aremove l k) <= length l)%nat.
Proof. apply length_filter. Qed.

Lemma length_aremove_in l k v : alookup l k = Some v -> (length (aremove l k) < length l)%nat.
Proof.
  unfold alookup, aremove. induction l as [|p l IH]; cbn [List.find length]; [done|].
  pose proof (length_aremove l k) as Hle. unfold aremove in Hle. case_bool_decide as Hp.
  - intros _. rewrite filter_cons_False by tauto. lia.
  - intros Hf. rewrite filter_cons_True by done. cbn [length]. specialize (IH Hf). lia.
Qed.

Lemma aprune_size n l : 0 <= n -> Z.of_nat (length l) <= n + 1 ->
  Z.of_nat (length (aprune (Some (sizeHeuristic n)) l)) <= n.
Proof.
  intros Hn Hl. unfold aprune. rewrite length_rev.
  assert (Hgen : forall r, Z.of_nat (length (aprune_rev (V := V) (K := K) (sizeHeuristic n) r)) <= n); [|apply Hgen].
  induction r as [|[k v] r IH]; cbn [aprune_rev]; [cbn; lia|].
  unfold sizeHeuristic at 1. destruct (Z.leb_spec (Z.of_nat (length ((k, v) :: r))) n); [done|exact IH].
Qed.

Lemma aprune_keep n l : Z.of_nat (length l) <= n -> aprune (Some (sizeHeuristic n)) l = l.
Proof.
  intros Hl. unfold aprune. rewrite <-(rev_involutive l) at 2. f_equal.
  rewrite <-(length_rev l) in Hl. destruct (rev l) as [|[k v] r]; [done|]. cbn [aprune_rev].
  unfold sizeHeuristic at 1. by rewrite (proj2 (Z.leb_le _ _)) by done.
Qed.

Definition bounded_by (n : Z) c : Prop :=
  heuristic c = Some (sizeHeuristic n) /\ exists l, holds c l /\ Z.of_nat (length l) <= n.

Lemma amutate_size n l k (v : option V) : 0 <= n -> Z.of_nat (length l) <= n ->
  Z.of_nat (length (amutate (Some (sizeHeuristic n)) l k (fun _ => v)).2) <= n.
Proof.
  intros Hn Hl. unfold amutate. cbn [snd]. pose proof (length_aremove l k). destruct v as [v|]; [|lia].
  destruct (alookup l k) as [v0|] eqn:E.
  - pose proof (length_aremove_in l k v0 E). cbn [length]. lia.
  - apply aprune_size; [done|]. cbn [length]. lia.
Qed.

Lemma heuristic_get c k : heuristic (Get c k).2 = heuristic c.
Proof. unfold Get. by destruct (cache c !! k). Qed.
Lemma heuristic_remove c k : heuristic (Remove c k).2 = heuristic c.
Proof. unfold Remove. by destruct (cache c !! k). Qed.

Lemma step_bounded n c op : 0 <= n -> bounded_by n c -> exists c', step c op = Some c' /\ bounded_by n c'.
Proof.
  intros Hn (Hheur & l & Hh & Hlen). destruct op as [k|k v|k|]; cbn [step].
  - eexists. split; [done|]. split; [by rewrite heuristic_get|]. eexists. split; [by apply Get_spec|].
    unfold aget. destruct (alookup l k) as [v|] eqn:E; [|done]. pose proof (length_aremove_in l k v E). cbn [snd length]. lia.
  - destruct (Put_spec c l k v Hh) as (c' & -> & Hh' & Hheur'). exists c'. split; [done|].
    split; [by rewrite Hheur'|]. eexists. split; [exact Hh'|]. rewrite Hheur. by apply amutate_size.
  - eexists. split; [done|]. split; [by rewrite heuristic_remove|]. eexists. split; [by apply Remove_spec|].
    pose proof (length_aremove l k). lia.
  - eexists. split; [done|]. split; [done|]. exists []. split; [by eapply Purge_spec|done].
Qed.

Lemma New_bounded n : 0 <= n -> bounded_by n (New (K := K) (V := V) n).
Proof. intros Hn. split; [done|]. exists []. split; [|done]. split; cbn; [done|constructor|constructor| |set_solver]. intros k e. rewrite lookup_empty. set_solver. Qed.

(** A cache made for [n] entries never holds more, whatever operations are
    applied to it, and none of them fails; and it only evicts when full: storing
    a new key with room left keeps every entry. *)
Theorem LRU_bounded n ops :
  0 <= n ->
  exists c l, run (New n) ops = Some c /\ holds c l /\ Len c <= n /\
    forall k v, Len c < n -> alookup l k = None ->
      exists c', Put c k (Some v) = Some (false, c') /\ holds c' ((k, v) :: l).
Proof.
  intros Hn. assert (Hrun : forall c, bounded_by n c -> exists c', run c ops = Some c' /\ bounded_by n c').
  { induction ops as [|op ops IH]; intros c Hc; cbn [run]; [by exists c|].
    destruct (step_bounded n c op Hn Hc) as (c1 & -> & Hc1). by apply IH. }
  destruct (Hrun _ (New_bounded n Hn)) as (c & Hc & Hheur & l & Hh & Hlen). exists c, l.
  unfold Len. rewrite (holds_size c l Hh). split; [done|]. split; [done|]. split; [done|].
  intros k v Hroom Hk. destruct (Put_spec c l k (Some v) Hh) as (c' & E & Hh' & _). exists c'.
  rewrite Hk, bool_decide_false in E by by intros [? ?]. split; [done|].
  unfold amutate in Hh'. rewrite Hk, Hheur in Hh'. cbn [snd] in Hh'.
  rewrite aprune_keep in Hh' by (cbn [length]; lia). done.
Qed.
End Theorems.

Definition example_run : option (Cache Z Z) :=
  run (New 2) [OpPut 1 (Some 10); OpPut 2 (Some 20); OpGet 1; OpPut 3 (Some 30)].

(** The least recently used entry, 2, is gone. *)
Example example_evicts : (fun c => (Peek c 1, Peek c 2, Peek c 3, Len c)) <$> example_run =
  Some (Some 10, None, Some 30, 2).
Proof. vm_compute. reflexivity. Qed.


Lemma LRU_bounded_witness :
  0 <= 2 /\ exists c l, example_run = Some c /\ holds c l /\ Len c <= 2.
Proof.
  split; [lia|].
  destruct (LRU_bounded (K := Z) (V := Z) 2 [OpPut 1 (Some 10); OpPut 2 (Some 20); OpGet 1; OpPut 3 (Some 30)]
    ltac:(lia)) as (c & l & Hr & Hh & Hl & _).
  exists c, l. split; [exact Hr|]. split; [exact Hh|exact Hl].
Defined.
