(* ===== verification/DM.v ===== *)
(** DM, the dependency manager: attempts, executions and the mutations that
    drive them (dm/appengine/mutate, dm/appengine/model, the state tables of
    dm/api/service/v1, and ensureGraphData of dm/appengine/deps).

    The datastore is a store of entities by key.  A mutation runs in a
    transaction of the datastore: it reads and writes the store, and an error or
    a panic leaves the store as it was. *)
From S2P Require Import Prelude BitField.
From stdpp Require Import fin_maps.
Local Open Scope Z_scope.

(** * Identifiers *)

(** Attempt_ID: a quest and a number; Execution_ID: an attempt and a number. *)
Notation AID := (string * Z)%type.
Notation EID := (AID * Z)%type.

(** * States (attempt_state_evolve.go, execution_state_evolve.go) *)
Inductive Attempt_State :=
| Attempt_SCHEDULING | Attempt_EXECUTING | Attempt_WAITING | Attempt_FINISHED | Attempt_ABNORMAL_FINISHED.
Inductive Execution_State :=
| Execution_SCHEDULING | Execution_RUNNING | Execution_STOPPING | Execution_FINISHED | Execution_ABNORMAL_FINISHED.
#[export] Instance Attempt_State_eq_dec : EqDecision Attempt_State.
Proof. solve_decision. Defined.
#[export] Instance Execution_State_eq_dec : EqDecision Execution_State.
Proof. solve_decision. Defined.

Definition validAttemptStateEvolution (s : Attempt_State) : list Attempt_State :=
  match s with
  | Attempt_SCHEDULING => [Attempt_EXECUTING; Attempt_ABNORMAL_FINISHED]
  | Attempt_EXECUTING => [Attempt_SCHEDULING; Attempt_WAITING; Attempt_FINISHED; Attempt_ABNORMAL_FINISHED]
  | Attempt_WAITING => [Attempt_SCHEDULING; Attempt_ABNORMAL_FINISHED]
  | Attempt_FINISHED | Attempt_ABNORMAL_FINISHED => []
  end.
Definition validExecutionStateEvolution (s : Execution_State) : list Execution_State :=
  match s with
  | Execution_SCHEDULING => [Execution_RUNNING; Execution_ABNORMAL_FINISHED]
  | Execution_RUNNING => [Execution_STOPPING; Execution_ABNORMAL_FINISHED]
  | Execution_STOPPING => [Execution_FINISHED; Execution_ABNORMAL_FINISHED]
  | Execution_FINISHED | Execution_ABNORMAL_FINISHED => []
  end.

(** Codes of gRPC errors, and errors without a code. *)
Inductive Code := Internal | PermissionDenied | InvalidArgument | Unauthenticated.
Inductive DMError :=
| Coded (c : Code)
| ErrNoSuchEntity | ErrEvolve | ErrWrongExecution | ErrAttemptNotExecuting | ErrNotRunning | ErrToken
| ErrWrongState | ErrDistributor.
#[export] Instance Code_eq_dec : EqDecision Code.
Proof. solve_decision. Defined.
#[export] Instance DMError_eq_dec : EqDecision DMError.
Proof. solve_decision. Defined.

(** [Evolve]: the new state, which is the old one when nothing changes. *)
Definition Attempt_Evolve (s newState : Attempt_State) : result DMError Attempt_State :=
  if bool_decide (newState = s) then Ok s
  else if bool_decide (newState ∈ validAttemptStateEvolution s) then Ok newState else Err ErrEvolve.
Definition Execution_Evolve (s newState : Execution_State) : result DMError Execution_State :=
  if bool_decide (newState = s) then Ok s
  else if bool_decide (newState ∈ validExecutionStateEvolution s) then Ok newState else Err ErrEvolve.

Definition Attempt_Terminal (s : Attempt_State) : bool :=
  (length (validAttemptStateEvolution s) =? 0)%nat.
Definition Execution_Terminal (s : Execution_State) : bool :=
  (length (validExecutionStateEvolution s) =? 0)%nat.

(** * Entities (dm/appengine/model, messages of graph_data.proto) *)
Inductive AbnormalFinish_Status :=
| INVALID | FAILED | CRASHED | EXPIRED | TIMED_OUT | CANCELLED | REJECTED | MISSING | RESULT_MALFORMED.
#[export] Instance AbnormalFinish_Status_eq_dec : EqDecision AbnormalFinish_Status.
Proof. solve_decision. Defined.

Definition CouldRetry (s : AbnormalFinish_Status) : bool :=
  match s with FAILED | CRASHED | EXPIRED | TIMED_OUT => true | _ => false end.

Record AbnormalFinish := { Status : AbnormalFinish_Status; Reason : string }.
Record JsonResult := { Object : string; JSize : Z; Expiration : option Z }.
Record Result := { Data : option JsonResult; AbnormalFin : option AbnormalFinish }.

(** The four 32-bit counters of AttemptRetryState and of Meta.Retry. *)
Record Retry := { RFailed : Z; RExpired : Z; RTimedOut : Z; RCrashed : Z }.
Definition Retry_zero : Retry := {| RFailed := 0; RExpired := 0; RTimedOut := 0; RCrashed := 0 |}.

Record Attempt := {
  a_Created : Z;
  a_Modified : Z;
  a_State : Attempt_State;
  RetryState : Retry;
  a_IsAbnormal : bool;
  a_Result : Result;
  CurExecution : Z;
  LastSuccessfulExecution : Z;
  DepMap : BitField;
}.

(** [Token]: nil and the empty slice are the same list. *)
Record Execution := {
  e_Created : Z;
  e_Modified : Z;
  DistributorConfigName : string;
  DistributorConfigVersion : string;
  DistributorToken : string;
  e_State : Execution_State;
  e_IsAbnormal : bool;
  e_Result : Result;
  TimeToStart : Z;
  TimeToRun : Z;
  TimeToStop : Z;
  Token : bytes;
}.

Record FwdDep := { BitIndex : Z; ForExecution : Z }.

(** Meta.Retry and Meta.Timeouts are part of the description. *)
Record Quest_Desc := {
  Desc_DistributorConfigName : string;
  Parameters : string;
  DistributorParameters : string;
  Meta_Retry : Retry;
  Start : Z;
  Run : Z;
  Stop : Z;
}.
(** A TemplateInfo is kept sorted and without duplicates: a set. *)
Notation TemplateSpec := (string * string * string * string)%type.
Record Quest := { Quest_ID : string; Desc : Quest_Desc; BuiltBy : gset TemplateSpec; q_Created : Z }.

(** * Mutations *)
Record Execution_Auth := { Auth_Id : EID; Auth_Token : bytes }.
(** AttemptList.To. *)
Notation AttemptList := (gmap string (list Z)).

Record TimeoutExec := { T_For : EID; T_State : Execution_State; TimeoutAttempt : Z; Deadline : Z }.

Inductive Mutation :=
| AckFwdDep (From To : AID)
| AddBackDep (From To : AID) (NeedsAck : bool)
| EnsureAttempt (ID : AID)
| ScheduleExecution (For : AID)
| FinishExecution (EID : EID) (Res : Result)
| RecordCompletion (For : AID)
| TimeoutExecution (t : TimeoutExec)
| MergeQuest (q : Quest) (AndThen : list Mutation)
| EnsureQuestAttempts (q : Quest) (AIDs : list Z) (DoNotMergeQuest : bool).

(** * The datastore *)

(** Entities by key.  A BackDep's key is its dependee and its depender;
    [timeouts] are the mutations named "timeout", by their parent execution;
    an AttemptResult is keyed by its attempt. *)
Record Store := {
  attempts : gmap AID Attempt;
  executions : gmap EID Execution;
  fwdDeps : gmap (AID * AID) FwdDep;
  groups : gmap AID bool;
  backDeps : gmap (AID * AID) bool;
  quests : gmap string Quest;
  results : gmap AID JsonResult;
  timeouts : gmap EID TimeoutExec;
}.
Definition empty_store : Store :=
  {| attempts := ∅; executions := ∅; fwdDeps := ∅; groups := ∅; backDeps := ∅; quests := ∅;
     results := ∅; timeouts := ∅ |}.

(** A transaction: the value and the new store, an error, or a panic. *)
Inductive tres (A : Type) : Type :=
| Done (a : A) (s : Store)
| Fail (e : DMError)
| Crash.
Arguments Done {A} a s.
Arguments Fail {A} e.
Arguments Crash {A}.
Definition txn (A : Type) : Type := Store -> tres A.

#[export] Instance txn_ret : MRet txn := fun _ a s => Done a s.
#[export] Instance txn_bind : MBind txn := fun _ _ f m s =>
  match m s with Done a s' => f a s' | Fail e => Fail e | Crash => Crash end.

Definition fail {A} (e : DMError) : txn A := fun _ => Fail e.
Definition panic {A} : txn A := fun _ => Crash.
Definition lift {A} (r : result DMError A) : txn A :=
  match r with Ok a => mret a | Err e => fail e end.
Definition lift_outcome {A} (o : outcome A) : txn A :=
  match o with Ret a => mret a | Panic => panic end.
Definition get {A} (f : Store -> option A) : txn A :=
  fun s => match f s with Some a => Done a s | None => Fail ErrNoSuchEntity end.
(** A Get that tells a missing entity. *)
Definition lookupEntity {A} (f : Store -> option A) : txn (option A) := fun s => Done (f s) s.

(** Put of one entity. *)
Definition putAttempt (k : AID) (v : Attempt) : txn unit := fun s =>
  Done tt (Build_Store (<[k:=v]> (attempts s)) (executions s) (fwdDeps s) (groups s)
                       (backDeps s) (quests s) (results s) (timeouts s)).
Definition putExecution (k : EID) (v : Execution) : txn unit := fun s =>
  Done tt (Build_Store (attempts s) (<[k:=v]> (executions s)) (fwdDeps s) (groups s)
                       (backDeps s) (quests s) (results s) (timeouts s)).
Definition putFwdDep (k : AID * AID) (v : FwdDep) : txn unit := fun s =>
  Done tt (Build_Store (attempts s) (executions s) (<[k:=v]> (fwdDeps s)) (groups s)
                       (backDeps s) (quests s) (results s) (timeouts s)).
Definition putGroup (k : AID) (v : bool) : txn unit := fun s =>
  Done tt (Build_Store (attempts s) (executions s) (fwdDeps s) (<[k:=v]> (groups s))
                       (backDeps s) (quests s) (results s) (timeouts s)).
Definition putBackDep (k : AID * AID) (v : bool) : txn unit := fun s =>
  Done tt (Build_Store (attempts s) (executions s) (fwdDeps s) (groups s)
                       (<[k:=v]> (backDeps s)) (quests s) (results s) (timeouts s)).
Definition putQuest (k : string) (v : Quest) : txn unit := fun s =>
  Done tt (Build_Store (attempts s) (executions s) (fwdDeps s) (groups s)
                       (backDeps s) (<[k:=v]> (quests s)) (results s) (timeouts s)).
Definition putResult (k : AID) (v : JsonResult) : txn unit := fun s =>
  Done tt (Build_Store (attempts s) (executions s) (fwdDeps s) (groups s)
                       (backDeps s) (quests s) (<[k:=v]> (results s)) (timeouts s)).
Definition setTimeout (k : EID) (v : TimeoutExec) : txn unit := fun s =>
  Done tt (Build_Store (attempts s) (executions s) (fwdDeps s) (groups s)
                       (backDeps s) (quests s) (results s) (<[k:=v]> (timeouts s))).
Definition delTimeout (k : EID) : txn unit := fun s =>
  Done tt (Build_Store (attempts s) (executions s) (fwdDeps s) (groups s)
                       (backDeps s) (quests s) (results s) (delete k (timeouts s))).

(** Errors of a transaction, changed. *)
Definition catch {A} (m : txn A) (f : DMError -> DMError) : txn A := fun s =>
  match m s with Fail e => Fail (f e) | r => r end.

(** * What a mutation is given from outside

    A distributor (interface D of dm/appengine/distributor) runs the tasks of
    executions: [D_Run] gives a token, a poll timeout and an error, transient
    or not; [D_GetStatus] a result, if there is one yet. *)
Record Distributor := {
  D_Run : Quest_Desc -> Execution_Auth -> option JsonResult -> string * Z * option (bool * string);
  D_GetStatus : Quest_Desc -> string -> result string (option Result);
}.

(** The clock, the random token of a new execution, the distributor registry
    (configs by name), and the answer to the query for back dependencies. *)
Record Env := {
  now : Z;
  randomToken : bytes;
  MakeDistributor : string -> result unit (Distributor * string);
  needProp : list AID;
}.

(** * Attempts and executions *)
Definition modified (old now : Z) : Z := if old <? now then now else old + 1000.

Definition a_with_State (a : Attempt) (s : Attempt_State) (m : Z) : Attempt :=
  Build_Attempt (a_Created a) m s (RetryState a) (a_IsAbnormal a) (a_Result a) (CurExecution a)
    (LastSuccessfulExecution a) (DepMap a).
Definition a_with_DepMap (a : Attempt) (d : BitField) : Attempt :=
  Build_Attempt (a_Created a) (a_Modified a) (a_State a) (RetryState a) (a_IsAbnormal a) (a_Result a)
    (CurExecution a) (LastSuccessfulExecution a) d.
Definition a_with_Result (a : Attempt) (r : Result) : Attempt :=
  Build_Attempt (a_Created a) (a_Modified a) (a_State a) (RetryState a) (a_IsAbnormal a) r
    (CurExecution a) (LastSuccessfulExecution a) (DepMap a).
Definition a_with_Retry (a : Attempt) (r : Retry) : Attempt :=
  Build_Attempt (a_Created a) (a_Modified a) (a_State a) r (a_IsAbnormal a) (a_Result a)
    (CurExecution a) (LastSuccessfulExecution a) (DepMap a).
Definition a_with_Abnormal (a : Attempt) (b : bool) : Attempt :=
  Build_Attempt (a_Created a) (a_Modified a) (a_State a) (RetryState a) b (a_Result a)
    (CurExecution a) (LastSuccessfulExecution a) (DepMap a).
Definition a_with_Cur (a : Attempt) (n : Z) : Attempt :=
  Build_Attempt (a_Created a) (a_Modified a) (a_State a) (RetryState a) (a_IsAbnormal a) (a_Result a)
    n (LastSuccessfulExecution a) (DepMap a).
Definition a_with_Last (a : Attempt) (n : Z) : Attempt :=
  Build_Attempt (a_Created a) (a_Modified a) (a_State a) (RetryState a) (a_IsAbnormal a) (a_Result a)
    (CurExecution a) n (DepMap a).

Definition Attempt_ModifyState (now : Z) (a : Attempt) (newState : Attempt_State) : result DMError Attempt :=
  if bool_decide (a_State a = newState) then Ok a
  else s ← Attempt_Evolve (a_State a) newState; Ok (a_with_State a s (modified (a_Modified a) now)).

Definition MakeAttempt (now : Z) : Attempt :=
  {| a_Created := now; a_Modified := now; a_State := Attempt_SCHEDULING; RetryState := Retry_zero;
     a_IsAbnormal := false; a_Result := {| Data := None; AbnormalFin := None |}; CurExecution := 0;
     LastSuccessfulExecution := 0; DepMap := {| data := []; BitField.size := 0 |} |}.

Definition e_with_State (e : Execution) (s : Execution_State) (m : Z) : Execution :=
  Build_Execution (e_Created e) m (DistributorConfigName e) (DistributorConfigVersion e) (DistributorToken e) s
    (e_IsAbnormal e) (e_Result e) (TimeToStart e) (TimeToRun e) (TimeToStop e) (Token e).
Definition e_with_Token (e : Execution) (t : bytes) : Execution :=
  Build_Execution (e_Created e) (e_Modified e) (DistributorConfigName e) (DistributorConfigVersion e)
    (DistributorToken e) (e_State e) (e_IsAbnormal e) (e_Result e) (TimeToStart e) (TimeToRun e) (TimeToStop e) t.
Definition e_with_Result (e : Execution) (r : Result) (abnormal : bool) : Execution :=
  Build_Execution (e_Created e) (e_Modified e) (DistributorConfigName e) (DistributorConfigVersion e)
    (DistributorToken e) (e_State e) abnormal r (TimeToStart e) (TimeToRun e) (TimeToStop e) (Token e).
Definition e_with_Run (e : Execution) (tok : string) (stop : Z) : Execution :=
  Build_Execution (e_Created e) (e_Modified e) (DistributorConfigName e) (DistributorConfigVersion e)
    tok (e_State e) (e_IsAbnormal e) (e_Result e) (TimeToStart e) (TimeToRun e) stop (Token e).

Definition Execution_ModifyState (now : Z) (e : Execution) (newState : Execution_State) : result DMError Execution :=
  if bool_decide (e_State e = newState) then Ok e
  else s ← Execution_Evolve (e_State e) newState; Ok (e_with_State e s (modified (e_Modified e) now)).

(** [MakeExecution], with the times to start and to run filled in. *)
Definition MakeExecution (now : Z) (tok : bytes) (cfgName cfgVers : string) (start run : Z) : Execution :=
  {| e_Created := now; e_Modified := now; DistributorConfigName := cfgName; DistributorConfigVersion := cfgVers;
     DistributorToken := EmptyString; e_State := Execution_SCHEDULING; e_IsAbnormal := false;
     e_Result := {| Data := None; AbnormalFin := None |}; TimeToStart := start; TimeToRun := run;
     TimeToStop := 0; Token := tok |}.

Definition makeError (e : DMError) : DMError := match e with Coded c => Coded c | _ => Coded PermissionDenied end.
(** What [tumbleNow] makes of an error. *)
Definition tumbleNow_error (e : DMError) : DMError := match e with Coded c => Coded c | _ => Coded Internal end.

Definition loadExecution (eid : EID) : txn (Attempt * Execution) :=
  a ← catch (get (fun s => attempts s !! eid.1)) (fun _ => Coded Internal);
  e ← catch (get (fun s => executions s !! eid)) (fun _ => Coded Internal);
  if CurExecution a =? eid.2 then mret (a, e) else fail ErrWrongExecution.

(** [subtle.ConstantTimeCompare(x, y) == 1]. *)
Definition sameToken (x y : bytes) : bool := bool_decide (x = y).

Definition verifyExecutionAndCheckExTok (auth : Execution_Auth) : txn (Attempt * Execution) :=
  '(a, e) ← loadExecution (Auth_Id auth);
  if negb (bool_decide (a_State a = Attempt_EXECUTING)) then fail ErrAttemptNotExecuting
  else if negb (bool_decide (e_State e = Execution_RUNNING)) then fail ErrNotRunning
  else if negb (sameToken (Token e) (Auth_Token auth)) then fail ErrToken
  else mret (a, e).

Definition AuthenticateExecution (auth : Execution_Auth) : txn (Attempt * Execution) :=
  catch (verifyExecutionAndCheckExTok auth) makeError.

Definition Revoke (now : Z) (eid : EID) (e : Execution) : txn Execution :=
  e ← lift (Execution_ModifyState now (e_with_Token e []) Execution_STOPPING);
  _ ← putExecution eid e; mret e.

Definition InvalidateExecution (now : Z) (auth : Execution_Auth) : txn (Attempt * Execution) :=
  '(a, e) ← catch (verifyExecutionAndCheckExTok auth) makeError;
  e ← catch (Revoke now (Auth_Id auth) e) makeError;
  mret (a, e).

Definition verifyExecutionAndActivate (auth : Execution_Auth) (actTok : bytes) : txn (Attempt * Execution) :=
  '(a, e) ← loadExecution (Auth_Id auth);
  if negb (bool_decide (a_State a = Attempt_EXECUTING)) then fail ErrAttemptNotExecuting
  else match e_State e with
  | Execution_SCHEDULING =>
      if negb (sameToken (Token e) (Auth_Token auth)) then fail ErrToken
      else match Execution_Evolve (e_State e) Execution_RUNNING with
      | Err _ => panic
      | Ok s =>
          let e := e_with_Token (e_with_State e s (e_Modified e)) actTok in
          _ ← putExecution (Auth_Id auth) e; mret (a, e)
      end
  | Execution_RUNNING => if negb (sameToken (Token e) actTok) then fail ErrToken else mret (a, e)
  | _ => fail ErrWrongState
  end.

Definition model_ActivateExecution (auth : Execution_Auth) (actToken : bytes) : txn (Attempt * Execution) :=
  catch (verifyExecutionAndActivate auth actToken) makeError.

(** * Timeouts (timeout_execution.go) *)

(** [GetEID] panics on the execution number zero. *)
Definition ResetExecutionTimeout (now : Z) (eid : EID) (e : Execution) : txn unit :=
  let howLong := match e_State e with
    | Execution_SCHEDULING => TimeToStart e
    | Execution_RUNNING => TimeToRun e
    | Execution_STOPPING => TimeToStop e
    | _ => 0
    end in
  if eid.2 =? 0 then panic
  else if howLong =? 0 then delTimeout eid
  else setTimeout eid {| T_For := eid; T_State := e_State e; TimeoutAttempt := 0; Deadline := now + howLong |}.

Definition maxTimeoutAttempts : Z := 3.

Definition Execution_State_String (s : Execution_State) : string :=
  match s with
  | Execution_SCHEDULING => "SCHEDULING" | Execution_RUNNING => "RUNNING" | Execution_STOPPING => "STOPPING"
  | Execution_FINISHED => "FINISHED" | Execution_ABNORMAL_FINISHED => "ABNORMAL_FINISHED"
  end.

Definition abnormal (status : AbnormalFinish_Status) (reason : string) : Result :=
  {| Data := None; AbnormalFin := Some {| Status := status; Reason := reason |} |}.

Definition TimeoutExecution_RollForward (env : Env) (t : TimeoutExec) : txn (list Mutation) :=
  e ← get (fun s => executions s !! T_For t);
  if negb (bool_decide (e_State e = T_State t)) then mret []
  else
    let reason := String.append "DM timeout (" (String.append (Execution_State_String (e_State e)) ")") in
    let rslt := abnormal TIMED_OUT reason in
    if bool_decide (e_State e = Execution_STOPPING) then
      match MakeDistributor env (DistributorConfigName e) with
      | Err _ => fail ErrDistributor
      | Ok (dist, _) =>
          q ← get (fun s => quests s !! (T_For t).1.1);
          let realRslt := D_GetStatus dist (Desc q) (DistributorToken e) in
          let again := match realRslt with Ok (Some _) => false | _ => true end in
          if again && (TimeoutAttempt t <? maxTimeoutAttempts) then
            mret [TimeoutExecution {| T_For := T_For t; T_State := T_State t;
                                      TimeoutAttempt := TimeoutAttempt t + 1;
                                      Deadline := Deadline t + 30 * 10 ^ 9 |}]
          else
            let rslt := match realRslt with
              | Err err => abnormal TIMED_OUT (String.append reason (String.append " w/ error: " err))
              | Ok (Some r) => r
              | Ok None => rslt
              end in
            mret [FinishExecution (T_For t) rslt]
      end
    else mret [FinishExecution (T_For t) rslt].

(** * Dependencies *)

(** The attempts a list names, quests sorted. *)
Definition aids_of (l : AttemptList) : list AID :=
  concat (map (fun q => map (pair q) (default [] (l !! q))) (merge_sort string_le (map fst (map_to_list l)))).

Definition FwdDepsFromList (l : AttemptList) : list (AID * FwdDep) :=
  imap (fun i d => (d, {| BitIndex := u32 (Z.of_nat i); ForExecution := 0 |})) (aids_of l).

(** [filterExisting]: those of [deps], dependencies of [From], that are not in
    the datastore. *)
Definition filterExisting (From : AID) (deps : list (AID * FwdDep)) : txn (list (AID * FwdDep)) :=
  fun s => Done (filter (fun d => fwdDeps s !! (From, d.1) = None) deps) s.

Fixpoint putFwdDeps (From : AID) (deps : list (AID * FwdDep)) : txn unit :=
  match deps with
  | [] => mret tt
  | (d, fd) :: deps => _ ← putFwdDep (From, d) fd; putFwdDeps From deps
  end.

Definition AckFwdDep_RollForward (env : Env) (From To : AID) : txn (list Mutation) :=
  atmpt ← get (fun s => attempts s !! From);
  fdep ← get (fun s => fwdDeps s !! (From, To));
  if negb (bool_decide (a_State atmpt = Attempt_EXECUTING) || bool_decide (a_State atmpt = Attempt_WAITING))
     || negb (CurExecution atmpt =? ForExecution fdep)
  then mret []
  else
    let idx := BitIndex fdep in
    isSet ← lift_outcome (IsSet (DepMap atmpt) idx);
    if (isSet : bool) then mret []
    else
      depMap ← lift_outcome (BF_Set (DepMap atmpt) idx);
      let atmpt := a_with_DepMap atmpt depMap in
      if All depMap true && bool_decide (a_State atmpt = Attempt_WAITING) then
        atmpt ← lift (Attempt_ModifyState (now env) atmpt Attempt_SCHEDULING);
        let atmpt := a_with_DepMap atmpt (Reset (DepMap atmpt)) in
        _ ← putAttempt From atmpt; mret [ScheduleExecution From]
      else
        _ ← putAttempt From atmpt; mret [].

Definition AddBackDep_RollForward (From To : AID) (NeedsAck : bool) : txn (list Mutation) :=
  bdg ← lookupEntity (fun s => groups s !! To);
  _ ← match bdg with None => putGroup To false | Some _ => mret tt end;
  let AttemptFinished := default false bdg in
  _ ← putBackDep (To, From) AttemptFinished;
  mret (if NeedsAck && AttemptFinished then [AckFwdDep From To] else []).

Definition in_list (l : AttemptList) (d : AID) : bool := bool_decide (d.2 ∈ default [] (l !! d.1)).

(** One turn of the loop of AddDeps over the new dependencies: mutations go to
    the list, or behind the MergeQuest of their quest. *)
Definition append_dep (From : AID) (atts : AttemptList)
    (acc : list Mutation * gmap string (Quest * list Mutation)) (d : AID)
  : list Mutation * gmap string (Quest * list Mutation) :=
  let new := (if in_list atts d then [EnsureAttempt d] else []) ++ [AddBackDep From d true] in
  let '(muts, mqs) := acc in
  match mqs !! d.1 with
  | Some (q, th) => (muts, <[d.1 := (q, th ++ new)]> mqs)
  | None => (muts ++ new, mqs)
  end.

Definition mergeQuestMap (qs : list Quest) : gmap string (Quest * list Mutation) :=
  foldl (fun m q => <[Quest_ID q := (q, [])]> m) ∅ qs.

Definition dep_mutations (From : AID) (qs : list Quest) (atts : AttemptList) (ds : list AID) : list Mutation :=
  let '(muts, mqs) := foldl (append_dep From atts) ([], mergeQuestMap qs) ds in
  muts ++ map (fun q => MergeQuest q.2.1 q.2.2) (map_to_list mqs).

Definition AddDeps_RollForward (env : Env) (auth : Execution_Auth) (qs : list Quest) (atts deps : AttemptList)
  : txn (list Mutation) :=
  '(atmpt, ex) ← InvalidateExecution (now env) auth;
  _ ← ResetExecutionTimeout (now env) (Auth_Id auth) ex;
  let From := (Auth_Id auth).1 in
  fds ← filterExisting From (FwdDepsFromList deps);
  if bool_decide (fds = []) then mret []
  else
    let atmpt := a_with_DepMap atmpt (Make (u32 (Z.of_nat (length fds)))) in
    let fds := imap (fun i d => (d.1, {| BitIndex := u32 (Z.of_nat i); ForExecution := CurExecution atmpt |})) fds in
    _ ← putFwdDeps From fds;
    _ ← putAttempt From atmpt;
    _ ← putExecution (Auth_Id auth) ex;
    mret (dep_mutations From qs atts (map fst fds)).

Definition AddFinishedDeps_RollForward (auth : Execution_Auth) (qs : list Quest) (deps : AttemptList)
  : txn (list Mutation) :=
  '(atmpt, _) ← AuthenticateExecution auth;
  let From := (Auth_Id auth).1 in
  fds ← filterExisting From (FwdDepsFromList deps);
  if bool_decide (fds = []) then mret []
  else
    let fds := map (fun d => (d.1, {| BitIndex := BitIndex d.2; ForExecution := CurExecution atmpt |})) fds in
    _ ← putFwdDeps From fds;
    mret (map (fun d => AddBackDep From d.1 false) fds ++ map (fun q => MergeQuest q []) qs).

(** * Completion *)
Definition completionLimit : nat := 64.

Fixpoint propagate (To : AID) (deps : list AID) : txn unit :=
  match deps with
  | [] => mret tt
  | d :: deps => _ ← putBackDep (To, d) true; propagate To deps
  end.

Definition RecordCompletion_RollForward (env : Env) (For : AID) : txn (list Mutation) :=
  bdg ← lookupEntity (fun s => groups s !! For);
  let found := needProp env in
  _ ← propagate For found;
  _ ← (if default false bdg then mret tt else putGroup For true);
  mret (map (fun d => AckFwdDep d For) found ++
        (if (length found =? completionLimit)%nat then [RecordCompletion For] else [])).

(** What the query of RecordCompletion may answer: unpropagated BackDeps of the
    group, all of them unless there are too many. *)
Definition query_ok (s : Store) (For : AID) (found : list AID) : Prop :=
  NoDup found /\ (length found <= completionLimit)%nat /\
  (forall d, d ∈ found -> backDeps s !! (For, d) = Some false) /\
  ((length found < completionLimit)%nat -> forall d, backDeps s !! (For, d) = Some false -> d ∈ found).

(** * Attempts and quests *)
Definition EnsureAttempt_RollForward (env : Env) (ID : AID) : txn (list Mutation) :=
  a ← lookupEntity (fun s => attempts s !! ID);
  match a with
  | Some _ => mret []
  | None => _ ← putAttempt ID (MakeAttempt (now env)); mret [ScheduleExecution ID]
  end.

Definition q_with_BuiltBy (q : Quest) (b : gset TemplateSpec) : Quest :=
  {| Quest_ID := Quest_ID q; Desc := Desc q; BuiltBy := b; q_Created := q_Created q |}.

Definition MergeQuest_RollForward (q : Quest) (AndThen : list Mutation) : txn (list Mutation) :=
  cur ← lookupEntity (fun s => quests s !! Quest_ID q);
  _ ← match cur with
      | None => putQuest (Quest_ID q) q
      | Some cur =>
          let merged := BuiltBy cur ∪ BuiltBy q in
          if (size (BuiltBy cur) <? size merged)%nat
          then putQuest (Quest_ID q) (q_with_BuiltBy cur merged) else mret tt
      end;
  mret AndThen.

Definition MaxEnsureAttempts : nat := 10.

(** The loop of EnsureQuestAttempts from index [i]. *)
Fixpoint ensure_loop (q : Quest) (i : nat) (AIDs : list Z) : list Mutation :=
  match AIDs with
  | [] => []
  | aid :: AIDs' =>
      if (MaxEnsureAttempts <? i)%nat then [EnsureQuestAttempts q AIDs true]
      else EnsureAttempt (Quest_ID q, aid) :: ensure_loop q (S i) AIDs'
  end.

Definition EnsureQuestAttempts_RollForward (q : Quest) (AIDs : list Z) (DoNotMergeQuest : bool) : txn (list Mutation) :=
  _ ← (if DoNotMergeQuest then mret [] else MergeQuest_RollForward q []);
  mret (ensure_loop q 0 AIDs).

(** * The life of an execution *)
Definition ActivateExecution_RollForward (env : Env) (auth : Execution_Auth) (NewTok : bytes) : txn (list Mutation) :=
  '(_, e) ← model_ActivateExecution auth NewTok;
  _ ← ResetExecutionTimeout (now env) (Auth_Id auth) e;
  mret [].

Definition FinishAttempt_RollForward (env : Env) (auth : Execution_Auth) (d : JsonResult) : txn (list Mutation) :=
  '(atmpt, ex) ← InvalidateExecution (now env) auth;
  _ ← ResetExecutionTimeout (now env) (Auth_Id auth) ex;
  let aid := (Auth_Id auth).1 in
  let rslt := {| Object := EmptyString; JSize := JSize d; Expiration := Expiration d |} in
  _ ← putAttempt aid (a_with_Result atmpt {| Data := Some rslt; AbnormalFin := AbnormalFin (a_Result atmpt) |});
  _ ← putResult aid d;
  mret [].

Definition Retry_incr (r : Retry) (s : AbnormalFinish_Status) : Retry :=
  match s with
  | FAILED => Build_Retry (u32 (RFailed r + 1)) (RExpired r) (RTimedOut r) (RCrashed r)
  | EXPIRED => Build_Retry (RFailed r) (u32 (RExpired r + 1)) (RTimedOut r) (RCrashed r)
  | TIMED_OUT => Build_Retry (RFailed r) (RExpired r) (u32 (RTimedOut r + 1)) (RCrashed r)
  | CRASHED => Build_Retry (RFailed r) (RExpired r) (RTimedOut r) (u32 (RCrashed r + 1))
  | _ => r
  end.
Definition Retry_count (r : Retry) (s : AbnormalFinish_Status) : option Z :=
  match s with
  | FAILED => Some (RFailed r) | EXPIRED => Some (RExpired r)
  | TIMED_OUT => Some (RTimedOut r) | CRASHED => Some (RCrashed r)
  | _ => None
  end.

(** Whether to retry, and the attempt with its counter incremented. *)
Definition shouldRetry (aid : AID) (a : Attempt) (stat : AbnormalFinish_Status) : txn (bool * Attempt) :=
  if negb (CouldRetry stat) then mret (false, a)
  else
    q ← get (fun s => quests s !! aid.1);
    match Retry_count (RetryState a) stat, Retry_count (Meta_Retry (Desc q)) stat with
    | Some cur, Some max => mret (cur <? max, a_with_Retry a (Retry_incr (RetryState a) stat))
    | _, _ => panic
    end.

(** The end of an execution that went wrong, for its attempt. *)
Definition finish_abnormal (env : Env) (aid : AID) (a : Attempt) (ab : AbnormalFinish)
  : txn (Attempt * list Mutation) :=
  '(retry, a) ← shouldRetry aid a (Status ab);
  if (retry : bool) then
    a ← lift (Attempt_ModifyState (now env) a Attempt_SCHEDULING);
    mret (a_with_DepMap a (Reset (DepMap a)), [ScheduleExecution aid])
  else
    a ← lift (Attempt_ModifyState (now env) a Attempt_ABNORMAL_FINISHED);
    mret (a_with_Result a {| Data := Data (a_Result a); AbnormalFin := Some ab |}, []).

(** The end of an execution that went well. *)
Definition finish_normal (env : Env) (eid : EID) (a : Attempt) : txn (Attempt * list Mutation) :=
  let a := a_with_Retry (a_with_Last a eid.2) Retry_zero in
  if 0 <? BitField.Size (DepMap a) then
    if All (DepMap a) true then
      a ← lift (Attempt_ModifyState (now env) a Attempt_SCHEDULING);
      mret (a_with_DepMap a (Reset (DepMap a)), [ScheduleExecution eid.1])
    else
      a ← lift (Attempt_ModifyState (now env) a Attempt_WAITING); mret (a, [])
  else
    a ← lift (Attempt_ModifyState (now env) a Attempt_FINISHED); mret (a, [RecordCompletion eid.1]).

Definition FinishExecution_RollForward (env : Env) (eid : EID) (Res : Result) : txn (list Mutation) :=
  a ← get (fun s => attempts s !! eid.1);
  e ← get (fun s => executions s !! eid);
  if negb (bool_decide (a_State a = Attempt_EXECUTING)) || negb (CurExecution a =? eid.2)
     || Execution_Terminal (e_State e)
  then mret []
  else
    let Res := match AbnormalFin Res with
      | None => if bool_decide (e_State e = Execution_STOPPING) then Res
                else {| Data := Data Res;
                        AbnormalFin := Some {| Status := FAILED;
                          Reason := String.append "distributor finished execution while it was in the "
                                      (String.append (Execution_State_String (e_State e)) " state.") |} |}
      | Some _ => Res
      end in
    r ← match AbnormalFin Res with
        | Some ab =>
            e ← lift (Execution_ModifyState (now env) (e_with_Result e Res true) Execution_ABNORMAL_FINISHED);
            '(a, muts) ← finish_abnormal env eid.1 (a_with_Abnormal a true) ab;
            mret (a, e, muts)
        | None =>
            e ← lift (Execution_ModifyState (now env) (e_with_Result e Res (e_IsAbnormal e)) Execution_FINISHED);
            '(a, muts) ← finish_normal env eid a;
            mret (a, e, muts)
        end;
    let '(a, e, muts) := r in
    _ ← ResetExecutionTimeout (now env) eid e;
    _ ← putAttempt eid.1 a;
    _ ← putExecution eid e;
    mret muts.

(** [FinishExecutionFn]; [normalized] is what JsonResult.Normalize makes of the
    data, or its error. *)
Definition FinishExecutionFn (normalized : JsonResult -> result string JsonResult) (eid : EID) (rslt : Result)
  : list Mutation :=
  let rslt := match Data rslt with
    | None => rslt
    | Some d => match normalized d with
                | Ok d => {| Data := Some d; AbnormalFin := AbnormalFin rslt |}
                | Err reason => abnormal RESULT_MALFORMED reason
                end
    end in
  [FinishExecution eid rslt].

Definition ScheduleExecution_RollForward (env : Env) (For : AID) : txn (list Mutation) :=
  a ← get (fun s => attempts s !! For);
  if negb (bool_decide (a_State a = Attempt_SCHEDULING)) then mret []
  else
    q ← get (fun s => quests s !! For.1);
    prevResult ← (if LastSuccessfulExecution a =? 0 then mret None
                  else prev ← get (fun s => executions s !! (For, LastSuccessfulExecution a));
                       mret (Data (e_Result prev)));
    match MakeDistributor env (Desc_DistributorConfigName (Desc q)) with
    | Err _ => fail ErrDistributor
    | Ok (dist, ver) =>
        a ← lift (Attempt_ModifyState (now env) (a_with_Cur a (u32 (CurExecution a + 1))) Attempt_EXECUTING);
        let eid := (For, CurExecution a) in
        let e := MakeExecution (now env) (randomToken env) (Desc_DistributorConfigName (Desc q)) ver
                   (Start (Desc q)) (Run (Desc q)) in
        let '(distTok, stop, err) := D_Run dist (Desc q) {| Auth_Id := eid; Auth_Token := Token e |} prevResult in
        let e := e_with_Run e distTok (if stop <=? 0 then Stop (Desc q) else stop) in
        match err with
        | Some (true, _) => fail ErrDistributor
        | Some (false, reason) =>
            _ ← putAttempt For a;
            _ ← putExecution eid e;
            FinishExecution_RollForward env eid
              (abnormal REJECTED (String.append "rejected during scheduling with non-transient error: " reason))
        | None =>
            _ ← ResetExecutionTimeout (now env) eid e;
            _ ← putAttempt For a;
            _ ← putExecution eid e;
            mret []
        end
    end.

Definition RollForward (env : Env) (m : Mutation) : txn (list Mutation) :=
  match m with
  | AckFwdDep From To => AckFwdDep_RollForward env From To
  | AddBackDep From To NeedsAck => AddBackDep_RollForward From To NeedsAck
  | EnsureAttempt ID => EnsureAttempt_RollForward env ID
  | ScheduleExecution For => ScheduleExecution_RollForward env For
  | FinishExecution eid Res => FinishExecution_RollForward env eid Res
  | RecordCompletion For => RecordCompletion_RollForward env For
  | TimeoutExecution t => TimeoutExecution_RollForward env t
  | MergeQuest q AndThen => MergeQuest_RollForward q AndThen
  | EnsureQuestAttempts q AIDs b => EnsureQuestAttempts_RollForward q AIDs b
  end.

(** * EnsureGraphData (dm/appengine/deps/ensure_graph_data.go)

    What the graph walk found: quests and attempts that exist or not, and the
    attempts' states. *)
Record QuestNode := { qn_DNE : bool; qn_BuiltBy : gset TemplateSpec; qn_Attempts : gmap Z (option Attempt_State) }.
Notation GraphData := (gmap string QuestNode).

Definition allFinished (gd : GraphData) : bool :=
  forallb (fun q => negb (qn_DNE q.2) &&
    forallb (fun a => bool_decide (a.2 = Some Attempt_FINISHED)) (map_to_list (qn_Attempts q.2))) (map_to_list gd).

(** A quest the walk has no node for is a nil pointer. *)
Fixpoint filterQuestsByNewTemplateData (g : GraphData) (newQuests : list Quest) : outcome (list Quest) :=
  match newQuests with
  | [] => Ret []
  | q :: qs =>
      match g !! Quest_ID q with
      | None => Panic
      | Some cur =>
          rest ← filterQuestsByNewTemplateData g qs;
          Ret (if qn_DNE cur || negb (bool_decide (BuiltBy q = qn_BuiltBy cur)) then q :: rest else rest)
      end
  end.

(** [AddAIDs], one attempt after the other. *)
Definition AddAIDs (l : AttemptList) (ds : list AID) : AttemptList :=
  foldl (fun l d => <[d.1 := default [] (l !! d.1) ++ [d.2]]> l) l ds.

(** The attempts of [ds] that the walk did not find. *)
Fixpoint absent_aids (g : GraphData) (ds : list AID) : outcome (list AID) :=
  match ds with
  | [] => Ret []
  | d :: ds =>
      match g !! d.1 ≫= fun q => qn_Attempts q !! d.2 with
      | None => Panic
      | Some st => rest ← absent_aids g ds; Ret (match st with None => d :: rest | Some _ => rest end)
      end
  end.

Definition filterAttemptsByDNE (g : GraphData) (newAttempts : AttemptList) (newQuestSet : list string)
  : outcome (result DMError AttemptList) :=
  if existsb (fun q => match g !! q with Some n => qn_DNE n && negb (bool_decide (q ∈ newQuestSet)) | None => false end)
       (map fst (map_to_list newAttempts))
  then Ret (Err (Coded InvalidArgument))
  else ds ← absent_aids g (aids_of newAttempts); Ret (Ok (AddAIDs ∅ ds)).

(** [fwdDepKeys] and [exists] go together. *)
Definition depsFromMissing (exists_ : AID -> bool) (newAttempts : AttemptList) : AttemptList :=
  AddAIDs ∅ (filter (fun d => exists_ d = false) (aids_of newAttempts)).

Definition journalQuestAttempts (newQuests : list Quest) (newAttempts : AttemptList) (blank : string -> Quest)
  : list Mutation :=
  map (fun q => EnsureQuestAttempts q (default [] (newAttempts !! Quest_ID q)) false) newQuests ++
  map (fun qn => EnsureQuestAttempts (blank qn.1) qn.2 true)
      (map_to_list (filter (fun qn => qn.1 ∉ map Quest_ID newQuests) newAttempts)).

(** What the request comes to: mutations for the journal, a transaction to run
    at once (and whether the execution has to halt), or nothing. *)
Inductive GraphDecision :=
| DoJournal (muts : list Mutation)
| DoAddFinishedDeps (auth : Execution_Auth) (qs : list Quest) (deps : AttemptList)
| DoAddDeps (auth : Execution_Auth) (qs : list Quest) (atts deps : AttemptList)
| DoNothing.

(** [blank] is the quest that has only an ID. *)
Definition ensureGraphData (blank : string -> Quest) (gd : GraphData) (exists_ : AID -> bool)
    (forExecution : option Execution_Auth) (newQuests : list Quest) (newAttempts : AttemptList)
  : outcome (result DMError GraphDecision) :=
  newQuests ← filterQuestsByNewTemplateData gd newQuests;
  r ← filterAttemptsByDNE gd newAttempts (map Quest_ID newQuests);
  match r with
  | Err e => Ret (Err e)
  | Ok absent =>
      match forExecution with
      | None => Ret (Ok (DoJournal (journalQuestAttempts newQuests absent blank)))
      | Some auth =>
          let missingDeps := depsFromMissing exists_ newAttempts in
          if bool_decide (missingDeps = ∅) || allFinished gd then
            if bool_decide (newQuests = []) && bool_decide (missingDeps = ∅)
            then Ret (Ok DoNothing)
            else Ret (Ok (DoAddFinishedDeps auth newQuests missingDeps))
          else Ret (Ok (DoAddDeps auth newQuests absent missingDeps))
      end
  end.

Definition ShouldHalt (d : GraphDecision) : bool := match d with DoAddDeps _ _ _ _ => true | _ => false end.

Definition run_decision (env : Env) (d : GraphDecision) : txn (list Mutation) :=
  match d with
  | DoJournal muts => mret muts
  | DoAddFinishedDeps auth qs deps => AddFinishedDeps_RollForward auth qs deps
  | DoAddDeps auth qs atts deps => AddDeps_RollForward env auth qs atts deps
  | DoNothing => mret []
  end.

(** * The system

    The journal of tumble: [pending] mutations are to be run; a mutation is
    deleted after the transaction that ran it, so it may run more than once:
    [issued] has every mutation ever journaled. *)
Record World := { store : Store; pending : list Mutation; issued : list Mutation }.
Definition empty_world : World := {| store := empty_store; pending := []; issued := [] |}.

(** A transaction committed: its mutations join the journal. *)
Definition commit (w : World) (rest : list Mutation) (muts : list Mutation) (s : Store) : World :=
  {| store := s; pending := muts ++ rest; issued := muts ++ issued w |}.

(** What was read from [s0] before still holds of [s], as far as attempts go:
    they are not deleted, and finished ones stay so. *)
Definition older (s0 s : Store) : Prop :=
  forall d a0, attempts s0 !! d = Some a0 ->
    exists a, attempts s !! d = Some a /\ (a_State a0 = Attempt_FINISHED -> a_State a = Attempt_FINISHED).

(** The walk reports the listed attempts as they are in the store it reads. *)
Definition walk_of (s0 : Store) (newAttempts : AttemptList) (gd : GraphData) : Prop :=
  forall d, d ∈ aids_of newAttempts ->
    exists q, gd !! d.1 = Some q /\ qn_Attempts q !! d.2 = Some (a_State <$> attempts s0 !! d).

(** Fewer dependencies in a request than fit a BitField. *)
Definition fits (l : AttemptList) : Prop := Z.of_nat (length (aids_of l)) <= 2 ^ 32 - 8.

(** An attempt list has no duplicates (Normalize). *)
Definition normal (l : AttemptList) : Prop := forall q nums, l !! q = Some nums -> NoDup nums.

(** What may be run at all: a query answers as the datastore does, and
    execution numbers stay within their 32 bits. *)
Definition runnable (env : Env) (s : Store) (m : Mutation) : Prop :=
  match m with
  | RecordCompletion For => query_ok s For (needProp env)
  | ScheduleExecution For => forall a, attempts s !! For = Some a -> CurExecution a < 2 ^ 32 - 1
  | _ => True
  end.

Section Steps.
Context (blank : string -> Quest) (normalized : JsonResult -> result string JsonResult).

(** One step.  With [afd = false] no step records dependencies on attempts that
    the walk found finished (AddFinishedDeps). *)
Inductive step (afd : bool) (w : World) : World -> Prop :=
| step_once env l1 m l2 muts s
    (Hp : pending w = l1 ++ m :: l2) (Hr : runnable env (store w) m)
    (Hrun : RollForward env m (store w) = Done muts s) : step afd w (commit w (l1 ++ l2) muts s)
| step_again env m muts s
    (Hi : m ∈ issued w) (Hr : runnable env (store w) m)
    (Hrun : RollForward env m (store w) = Done muts s) : step afd w (commit w (pending w) muts s)
| step_timeout env t muts s
    (* A timeout, current or stale; the one named after its execution goes. *)
    (Hrun : (muts ← TimeoutExecution_RollForward env t; _ ← delTimeout (T_For t); mret muts) (store w) = Done muts s)
    : step afd w (commit w (pending w) muts s)
| step_notify eid rslt
    (* A distributor reports the result of an execution. *)
    : step afd w (commit w (pending w) (FinishExecutionFn normalized eid rslt) (store w))
| step_activate env auth tok muts s
    (Hrun : ActivateExecution_RollForward env auth tok (store w) = Done muts s) : step afd w (commit w (pending w) muts s)
| step_finish env auth d muts s
    (Hrun : FinishAttempt_RollForward env auth d (store w) = Done muts s) : step afd w (commit w (pending w) muts s)
| step_ensure env s0 gd exists_ forExecution newQuests newAttempts d muts s
    (Hold : older s0 (store w)) (Hwalk : walk_of s0 newAttempts gd)
    (Hfits : fits newAttempts) (Hnormal : normal newAttempts)
    (Hd : ensureGraphData blank gd exists_ forExecution newQuests newAttempts = Ret (Ok d))
    (Hafd : afd = false -> forall auth qs deps, d <> DoAddFinishedDeps auth qs deps)
    (Hrun : run_decision env d (store w) = Done muts s) : step afd w (commit w (pending w) muts s).

Definition reachable (afd : bool) (w : World) : Prop := rtc (step afd) empty_world w.
End Steps.
