(* ===== verification/DMInvariants.v ===== *)
(** Invariants of the dependency manager: what every step of DM.v keeps. *)
From S2P Require Import Prelude BitField DM.
From stdpp Require Import fin_maps.
Local Open Scope Z_scope.

(** * Inverting transactions *)
Lemma bind_Done {A B} (m : txn A) (f : A -> txn B) s b s' :
  (m ≫= f) s = Done b s' -> exists a s1, m s = Done a s1 /\ f a s1 = Done b s'.
Proof. unfold mbind, txn_bind. destruct (m s); [eauto|done..]. Qed.
Lemma ret_Done {A} (a b : A) s s' : (mret a : txn A) s = Done b s' -> b = a /\ s' = s.
Proof. by intros [= -> ->]. Qed.
Lemma get_Done {A} (f : Store -> option A) s a s' : get f s = Done a s' -> f s = Some a /\ s' = s.
Proof. unfold get. destruct (f s); [by intros [= -> ->]|done]. Qed.
Lemma lookupEntity_Done {A} (f : Store -> option A) s a s' : lookupEntity f s = Done a s' -> a = f s /\ s' = s.
Proof. by intros [= -> ->]. Qed.
Lemma lift_Done {A} (r : result DMError A) s a s' : lift r s = Done a s' -> r = Ok a /\ s' = s.
Proof. destruct r; [by intros [= -> ->]|done]. Qed.
Lemma lift_outcome_Done {A} (o : outcome A) s a s' : lift_outcome o s = Done a s' -> o = Ret a /\ s' = s.
Proof. destruct o; [by intros [= -> ->]|done]. Qed.
Lemma catch_Done {A} (m : txn A) f s a s' : catch m f s = Done a s' -> m s = Done a s'.
Proof. unfold catch. by destruct (m s). Qed.

(** Take a hypothesis [m s = Done a s'] apart. *)
Ltac txn_step H :=
  match type of H with
  | (_ ≫= _) _ = Done _ _ =>
      let a := fresh "v" in let s1 := fresh "s" in let H1 := fresh "Hm" in
      apply bind_Done in H as (a & s1 & H1 & H); txn_step H1
  | mret _ _ = Done _ _ => apply ret_Done in H as [? ?]; subst
  | get _ _ = Done _ _ => apply get_Done in H as [H ?]; subst
  | lookupEntity _ _ = Done _ _ => apply lookupEntity_Done in H as [? ?]; subst
  | lift _ _ = Done _ _ => apply lift_Done in H as [H ?]; subst
  | lift_outcome _ _ = Done _ _ => apply lift_outcome_Done in H as [H ?]; subst
  | catch _ _ _ = Done _ _ => apply catch_Done in H; txn_step H
  | fail _ _ = Done _ _ => discriminate H
  | panic _ = Done _ _ => discriminate H
  | (if ?b then _ else _) _ = Done _ _ => let E := fresh "E" in destruct b eqn:E
  | (let '(_, _) := ?x in _) _ = Done _ _ => destruct x
  | (match ?x with _ => _ end) _ = Done _ _ => let E := fresh "E" in destruct x eqn:E
  | _ => idtac
  end.
Ltac txn_inv H := repeat (progress txn_step H; try (cbn beta iota zeta in H)).

(** Putting one entity leaves the others. *)
Ltac puts :=
  repeat match goal with
  | H : putAttempt _ _ _ = Done _ _ |- _ => injection H as ? ?; subst
  | H : putExecution _ _ _ = Done _ _ |- _ => injection H as ? ?; subst
  | H : putFwdDep _ _ _ = Done _ _ |- _ => injection H as ? ?; subst
  | H : putGroup _ _ _ = Done _ _ |- _ => injection H as ? ?; subst
  | H : putBackDep _ _ _ = Done _ _ |- _ => injection H as ? ?; subst
  | H : putQuest _ _ _ = Done _ _ |- _ => injection H as ? ?; subst
  | H : putResult _ _ _ = Done _ _ |- _ => injection H as ? ?; subst
  | H : setTimeout _ _ _ = Done _ _ |- _ => injection H as ? ?; subst
  | H : delTimeout _ _ = Done _ _ |- _ => injection H as ? ?; subst
  end.

(** * The journal *)

(** [m] is in the journal, or will be once a MergeQuest has run. *)
Definition in_journal (m : Mutation) (P : list Mutation) : Prop :=
  m ∈ P \/ exists q th, MergeQuest q th ∈ P /\ m ∈ th.
Notation "m ∈J P" := (in_journal m P) (at level 70).

Lemma in_journal_elem m P : m ∈ P -> m ∈J P.
Proof. by left. Qed.
Lemma in_journal_app m P Q : m ∈J P ++ Q <-> m ∈J P \/ m ∈J Q.
Proof. unfold in_journal. setoid_rewrite elem_of_app. naive_solver. Qed.
Lemma in_journal_nil m : ~ m ∈J [].
Proof. intros [H|(? & ? & H & _)]; by apply elem_of_nil in H. Qed.
Lemma in_journal_singleton m n : m ∈J [n] <-> m = n \/ exists q th, n = MergeQuest q th /\ m ∈ th.
Proof. unfold in_journal. setoid_rewrite list_elem_of_singleton. naive_solver. Qed.
#[export] Hint Resolve in_journal_elem : luci.

(** From one journal to the next everything stays but [gone]. *)
Definition covers (gone : option Mutation) (P P' : list Mutation) : Prop :=
  forall x, x ∈J P -> gone = Some x \/ x ∈J P'.

Lemma covers_refl gone P : covers gone P P.
Proof. by right. Qed.
Lemma covers_app gone muts P P' : covers gone P P' -> covers gone P (muts ++ P').
Proof. intros H x Hx. destruct (H x Hx); [by left|right]. apply in_journal_app. by right. Qed.

(** Running [m] takes one occurrence away; what a MergeQuest held comes out. *)
Lemma covers_once m l1 l2 muts :
  (forall q th, m = MergeQuest q th -> muts = th) ->
  covers (Some m) (l1 ++ m :: l2) (muts ++ l1 ++ l2).
Proof.
  intros Hq x Hx. change (m :: l2) with ([m] ++ l2) in Hx.
  rewrite !in_journal_app, in_journal_singleton in Hx. rewrite !in_journal_app.
  destruct Hx as [?|[[->|(q & th & Hm & Hx)]|?]]; [tauto|by left| |tauto].
  right. left. left. by rewrite (Hq q th Hm).
Qed.

(** * The invariant *)
Definition active (a : Attempt) : Prop := a_State a = Attempt_EXECUTING \/ a_State a = Attempt_WAITING.
Definition finished (s : Store) (D : AID) : Prop :=
  exists a, attempts s !! D = Some a /\ a_State a = Attempt_FINISHED.
Definition depmap_ok (b : BitField) : Prop := wf b /\ clean b.

(** The acknowledgement that [D] is done is on its way to [A]: its back
    dependency is to be added, waits for [D], or has been propagated. *)
Definition on_way (s : Store) (P I : list Mutation) (A D : AID) : Prop :=
  AddBackDep A D true ∈J I /\
  (AddBackDep A D true ∈J P \/ AckFwdDep A D ∈J P \/ backDeps s !! (D, A) = Some false).

Definition current_ended (s : Store) (A : AID) (a : Attempt) : Prop :=
  forall e, executions s !! (A, CurExecution a) = Some e -> Execution_Terminal (e_State e) = true.

Definition state_ok (s : Store) (P : list Mutation) (A : AID) (a : Attempt) : Prop :=
  match a_State a with
  | Attempt_SCHEDULING =>
      BitField.size (DepMap a) = 0 /\ ScheduleExecution A ∈J P /\ current_ended s A a
  | Attempt_EXECUTING =>
      exists e, executions s !! (A, CurExecution a) = Some e /\ Execution_Terminal (e_State e) = false /\
        (e_State e <> Execution_STOPPING -> BitField.size (DepMap a) = 0)
  | Attempt_WAITING => 0 < BitField.size (DepMap a) /\ All (DepMap a) true = false /\ current_ended s A a
  | Attempt_FINISHED => (RecordCompletion A ∈J P \/ groups s !! A = Some true) /\ current_ended s A a
  | Attempt_ABNORMAL_FINISHED => AbnormalFin (a_Result a) <> None /\ current_ended s A a
  end.

Definition att_ok (s : Store) (P : list Mutation) (A : AID) (a : Attempt) : Prop :=
  depmap_ok (DepMap a) /\ 0 <= CurExecution a < 2 ^ 32 /\ 0 <= LastSuccessfulExecution a <= CurExecution a /\
  (forall n, 1 <= n <= CurExecution a -> is_Some (executions s !! (A, n))) /\ state_ok s P A a.

Definition wait_ok (s : Store) (P I : list Mutation) (A : AID) (a : Attempt) : Prop :=
  active a -> forall i, 0 <= i < BitField.size (DepMap a) -> bit (data (DepMap a)) i = false ->
    exists D fd, fwdDeps s !! (A, D) = Some fd /\ BitIndex fd = i /\ ForExecution fd = CurExecution a /\
      on_way s P I A D.

Definition exec_ok (A : AID) (a : Attempt) (n : Z) (e : Execution) : Prop :=
  1 <= n <= CurExecution a /\ (n < CurExecution a -> Execution_Terminal (e_State e) = true).

Definition fwd_ok (s : Store) (P : list Mutation) (A D : AID) (fd : FwdDep) : Prop :=
  (exists a, attempts s !! A = Some a /\ ForExecution fd <= CurExecution a) /\ 0 <= BitIndex fd /\
  (is_Some (attempts s !! D) \/ EnsureAttempt D ∈J P).

Definition back_ok (s : Store) (P : list Mutation) (D A : AID) (b : bool) : Prop :=
  is_Some (fwdDeps s !! (A, D)) /\
  exists g, groups s !! D = Some g /\ (b = true -> g = true) /\
    (b = false -> g = true -> RecordCompletion D ∈J P).

Definition issued_ok (s : Store) (m : Mutation) : Prop :=
  match m with
  | AckFwdDep A D => is_Some (fwdDeps s !! (A, D)) /\ finished s D
  | AddBackDep A D _ => is_Some (fwdDeps s !! (A, D))
  | RecordCompletion D => finished s D
  | _ => True
  end.

(** Mutations other than new back dependencies. *)
Definition harmless (s : Store) (m : Mutation) : Prop :=
  match m with AddBackDep _ _ _ => False | _ => issued_ok s m end.
Lemma harmless_issued s m : harmless s m -> issued_ok s m.
Proof. by destruct m. Qed.

Record inv (s : Store) (P I : list Mutation) : Prop := {
  inv_att A a : attempts s !! A = Some a -> att_ok s P A a;
  inv_wait A a : attempts s !! A = Some a -> wait_ok s P I A a;
  inv_exec A n e : executions s !! (A, n) = Some e -> exists a, attempts s !! A = Some a /\ exec_ok A a n e;
  inv_fwd A D fd : fwdDeps s !! (A, D) = Some fd -> fwd_ok s P A D fd;
  inv_back A D b : backDeps s !! (D, A) = Some b -> back_ok s P D A b;
  inv_group D : groups s !! D = Some true -> finished s D;
  inv_issued m : m ∈J I -> issued_ok s m;
  inv_pending m : m ∈J P -> m ∈J I;
  inv_kind A D : AddBackDep A D true ∈J I -> ~ AddBackDep A D false ∈J I;
}.

Lemma inv_empty : inv empty_store [] [].
Proof.
  split; intros *; cbn; rewrite ?lookup_empty; try done.
  all: first [by intros ?%in_journal_nil|by intros _ ?%in_journal_nil].
Qed.

(** The invariant does not look at quests, results and timeouts. *)
Definition same_core (s s' : Store) : Prop :=
  attempts s' = attempts s /\ executions s' = executions s /\ fwdDeps s' = fwdDeps s /\
  groups s' = groups s /\ backDeps s' = backDeps s.

Lemma same_core_refl s : same_core s s.
Proof. done. Qed.
#[export] Hint Resolve same_core_refl : luci.

(** What the rest of the system does not need any more once it has run:
    mutations on behalf of [A] alone, and those no invariant mentions. *)
Definition private (A : AID) (m : Mutation) : Prop :=
  match m with
  | AckFwdDep B _ => B = A
  | ScheduleExecution B => B = A
  | AddBackDep _ _ _ | EnsureAttempt _ | RecordCompletion _ => False
  | _ => True
  end.
Definition idle (m : Mutation) : Prop :=
  match m with
  | FinishExecution _ _ | TimeoutExecution _ | MergeQuest _ _ | EnsureQuestAttempts _ _ _ => True
  | _ => False
  end.

Section Frame.
Context (P P' I I' : list Mutation) (gone : option Mutation).
Hypothesis Hc : covers gone P P'.
Hypothesis Hgrow : forall m, m ∈J I -> m ∈J I'.

Lemma covers_in x : x ∈J P -> gone <> Some x -> x ∈J P'.
Proof. intros Hx Hne. destruct (Hc x Hx); [done|assumption]. Qed.

Lemma on_way_covers s s' A D :
  on_way s P I A D ->
  (backDeps s !! (D, A) = Some false -> backDeps s' !! (D, A) = Some false \/ AckFwdDep A D ∈J P') ->
  gone <> Some (AddBackDep A D true) -> gone <> Some (AckFwdDep A D) ->
  on_way s' P' I' A D.
Proof.
  intros [HI [H|[H|H]]] Hb H1 H2; (split; [auto|]);
    [left; by apply covers_in|right; left; by apply covers_in|].
  destruct (Hb H); [by right; right|by right; left].
Qed.

(** Attempts whose own entities stay as they are. *)
Lemma att_ok_covers s s' A a :
  att_ok s P A a ->
  (forall n, executions s' !! (A, n) = executions s !! (A, n)) ->
  (groups s !! A = Some true -> groups s' !! A = Some true) ->
  gone <> Some (ScheduleExecution A) ->
  (gone = Some (RecordCompletion A) -> groups s' !! A = Some true) ->
  att_ok s' P' A a.
Proof.
  intros (H1 & H2 & H3 & H4 & H5) He Hg Hs Hr.
  assert (Hce : current_ended s A a -> current_ended s' A a) by (intros H e; rewrite He; apply H).
  split; [done|]. split; [done|]. split; [done|]. split; [intros n Hn; rewrite He; by apply H4|].
  unfold state_ok in *. destruct (a_State a); rewrite ?He; try tauto.
  - destruct H5 as (? & ? & ?). split; [done|]. split; [by apply covers_in|auto].
  - destruct H5 as ([H5|H5] & ?); (split; [|auto]); [|by right; apply Hg].
    destruct (Hc _ H5) as [Hgone|?]; [right; by apply Hr|by left].
Qed.

Lemma wait_ok_covers s s' A a :
  wait_ok s P I A a -> (forall D fd, fwdDeps s !! (A, D) = Some fd -> fwdDeps s' !! (A, D) = Some fd) ->
  (forall D, backDeps s !! (D, A) = Some false -> backDeps s' !! (D, A) = Some false \/ AckFwdDep A D ∈J P') ->
  (forall D, gone <> Some (AddBackDep A D true)) -> (forall D, gone <> Some (AckFwdDep A D)) ->
  wait_ok s' P' I' A a.
Proof.
  intros Hw Hf Hb H1 H2 Ha i Hi Hbit. destruct (Hw Ha i Hi Hbit) as (D & fd & Hfd & Hidx & Hfor & Hway).
  exists D, fd. split; [by apply Hf|]. split; [done|]. split; [done|]. eapply on_way_covers; eauto.
Qed.

Lemma fwd_ok_covers s s' A D fd :
  fwd_ok s P A D fd ->
  (forall a, attempts s !! A = Some a -> exists a', attempts s' !! A = Some a' /\ CurExecution a <= CurExecution a') ->
  (is_Some (attempts s !! D) -> is_Some (attempts s' !! D)) ->
  (gone = Some (EnsureAttempt D) -> is_Some (attempts s' !! D)) ->
  fwd_ok s' P' A D fd.
Proof.
  intros ((a & Ha & Hle) & Hb & HD) H1 H2 H3. destruct (H1 a Ha) as (a' & Ha' & Hle').
  split; [exists a'; split; [done|lia]|]. split; [done|].
  destruct HD as [HD|HD]; [left; auto|]. destruct (Hc _ HD); [left; auto|by right].
Qed.

Lemma back_ok_covers s s' D A b :
  back_ok s P D A b -> (is_Some (fwdDeps s !! (A, D)) -> is_Some (fwdDeps s' !! (A, D))) ->
  groups s' !! D = groups s !! D -> gone <> Some (RecordCompletion D) -> back_ok s' P' D A b.
Proof.
  intros (Hf & g & Hg & H1 & H2) Hf' Hg' Hne. split; [auto|]. exists g. rewrite Hg'. split; [done|].
  split; [done|]. intros Hb Hgt. apply covers_in; auto.
Qed.
End Frame.

Lemma issued_ok_mono s s' m :
  (forall k, is_Some (fwdDeps s !! k) -> is_Some (fwdDeps s' !! k)) ->
  (forall D, finished s D -> finished s' D) -> issued_ok s m -> issued_ok s' m.
Proof. intros Hf Hfin. destruct m; cbn; try done; try (intros []; split); auto. Qed.

(** * Changing the store *)
Lemma private_other A B m : private A m -> B <> A ->
  m <> ScheduleExecution B /\ m <> RecordCompletion B /\ (forall D n, m <> AddBackDep B D n) /\
  (forall D, m <> AckFwdDep B D) /\ (forall D, m <> EnsureAttempt D) /\ (forall D, m <> RecordCompletion D).
Proof. destruct m; cbn; try done; intros ? ?; repeat split; congruence. Qed.

(** [s'] differs from [s] in attempt [A], now [a'], and in its executions. *)
Record updates (s s' : Store) (A : AID) (a' : Attempt) : Prop := {
  up_att : attempts s' = <[A := a']> (attempts s);
  up_exec B n : B <> A -> executions s' !! (B, n) = executions s !! (B, n);
  up_fwd : fwdDeps s' = fwdDeps s;
  up_groups : groups s' = groups s;
  up_back : backDeps s' = backDeps s;
}.

Section Update.
Context (s s' : Store) (P P' I I' : list Mutation) (A : AID) (a a' : Attempt) (gone : option Mutation).
Hypothesis Hinv : inv s P I.
Hypothesis Ha : attempts s !! A = Some a.
Hypothesis Hup : updates s s' A a'.
Hypothesis Hgone : forall m, gone = Some m -> private A m.
Hypothesis Hc : covers gone P P'.
Hypothesis Hgrow : forall m, m ∈J I -> m ∈J I'.
Hypothesis Hcur : CurExecution a <= CurExecution a'.
Hypothesis Hfin : a_State a = Attempt_FINISHED -> a_State a' = Attempt_FINISHED.

Lemma update_lookup B b' : attempts s' !! B = Some b' ->
  (B = A /\ b' = a') \/ (B <> A /\ attempts s !! B = Some b').
Proof. rewrite (up_att _ _ _ _ Hup), lookup_insert_Some. naive_solver. Qed.

Lemma update_keeps B b : attempts s !! B = Some b ->
  exists b', attempts s' !! B = Some b' /\ CurExecution b <= CurExecution b' /\
    (a_State b = Attempt_FINISHED -> a_State b' = Attempt_FINISHED).
Proof.
  intros Hb. rewrite (up_att _ _ _ _ Hup). destruct (decide (B = A)) as [->|Hne].
  - rewrite lookup_insert_eq. exists a'. replace b with a by congruence. done.
  - rewrite lookup_insert_ne by done. by exists b.
Qed.

Lemma update_finished D : finished s D -> finished s' D.
Proof. intros (b & Hb & Hf). destruct (update_keeps D b Hb) as (b' & ? & _ & ?). exists b'. auto. Qed.

Lemma gone_other B : B <> A ->
  gone <> Some (ScheduleExecution B) /\ (forall D n, gone <> Some (AddBackDep B D n)) /\
  (forall D, gone <> Some (AckFwdDep B D)).
Proof.
  intros Hne. destruct gone as [m|]; [|done].
  destruct (private_other A B m (Hgone m eq_refl) Hne) as (? & ? & ? & ? & ? & ?).
  repeat split; congruence.
Qed.
Lemma gone_never D : gone <> Some (EnsureAttempt D) /\ gone <> Some (RecordCompletion D).
Proof. destruct gone as [m|]; [|done]. specialize (Hgone m eq_refl). split; intros [= ->]; done. Qed.

Lemma inv_update :
  att_ok s' P' A a' -> wait_ok s' P' I' A a' ->
  (forall n e, executions s' !! (A, n) = Some e -> exec_ok A a' n e) ->
  (forall m, m ∈J I' -> m ∈J I \/ harmless s' m) -> (forall m, m ∈J P' -> m ∈J I') ->
  inv s' P' I'.
Proof.
  intros Hatt Hwait Hexec HI HPI. destruct Hup as [_ Uexec Ufwd Ugr Uback].
  split.
  - intros B b' [[-> ->]|[Hne Hb]]%update_lookup; [done|]. destruct (gone_other B Hne) as (G1 & G2 & G3).
    eapply att_ok_covers; [exact Hc|by eapply inv_att| | |done|].
    + intros n. by apply Uexec.
    + by rewrite Ugr.
    + intros G. by destruct (gone_never B).
  - intros B b' [[-> ->]|[Hne Hb]]%update_lookup; [done|]. destruct (gone_other B Hne) as (G1 & G2 & G3).
    eapply wait_ok_covers; [exact Hc|exact Hgrow|by eapply inv_wait|by rewrite Ufwd|rewrite Uback; auto|done..].
  - intros B n e He. destruct (decide (B = A)) as [->|Hne].
    + exists a'. split; [by rewrite (up_att _ _ _ _ Hup), lookup_insert_eq|by apply Hexec].
    + rewrite Uexec in He by done. destruct (inv_exec _ _ _ Hinv _ _ _ He) as (b & Hb & Hok).
      exists b. split; [by rewrite (up_att _ _ _ _ Hup), lookup_insert_ne|done].
  - intros B D fd. rewrite Ufwd. intros Hfd. eapply fwd_ok_covers; [exact Hc|by eapply inv_fwd| | |].
    + intros b Hb. destruct (update_keeps B b Hb) as (b' & ? & ? & _). eauto.
    + intros [b Hb]. destruct (update_keeps D b Hb) as (b' & ? & _). eauto.
    + intros G. by destruct (gone_never D).
  - intros B D b. rewrite Uback. intros Hb. eapply back_ok_covers; [exact Hc|by eapply inv_back|by rewrite Ufwd| |].
    + by rewrite Ugr.
    + apply gone_never.
  - intros D. rewrite Ugr. intros HD. by apply update_finished, (inv_group _ _ _ Hinv).
  - intros m [Hm|Hm]%HI; [|by apply harmless_issued]. eapply issued_ok_mono; [| |by eapply inv_issued].
    + by rewrite Ufwd.
    + apply update_finished.
  - done.
  - intros B D [H1|H1]%HI [H2|H2]%HI; try done. by eapply inv_kind.
Qed.
End Update.

(** A step that changes none of the entities, and journals mutations about
    which the invariant has nothing to say. *)
Lemma inv_same s s' P P' I I' gone :
  inv s P I -> same_core s s' -> (forall m, gone = Some m -> idle m) -> covers gone P P' ->
  (forall m, m ∈J I -> m ∈J I') -> (forall m, m ∈J I' -> m ∈J I \/ harmless s' m) -> (forall m, m ∈J P' -> m ∈J I') -> inv s' P' I'.
Proof.
  intros Hinv (E1 & E2 & E3 & E4 & E5) Hg Hc Hgrow HI HPI.
  assert (G : forall x, ~ idle x -> gone <> Some x) by (intros x Hx ->; by apply Hx, Hg).
  split; try done.
  - intros A a. rewrite E1. intros Ha. eapply att_ok_covers; [exact Hc|by eapply inv_att|by rewrite E2|by rewrite E4| |].
    + apply G; cbn; tauto.
    + intros Hx. exfalso. revert Hx. apply G; cbn; tauto.
  - intros A a. rewrite E1. intros Ha.
    eapply wait_ok_covers; [exact Hc|exact Hgrow|by eapply inv_wait|by rewrite E3|rewrite E5; auto|..]; (intros D; apply G; cbn; tauto).
  - intros A n e. rewrite E1, E2. apply Hinv.
  - intros A D fd. rewrite E3. intros Hfd. eapply fwd_ok_covers; [exact Hc|by eapply inv_fwd|intros x Hx; exists x; rewrite E1; split; [done|lia]| |].
    + by rewrite E1.
    + intros Hx. exfalso. revert Hx. apply G; cbn; tauto.
  - intros A D b. rewrite E5. intros Hb. eapply back_ok_covers; [exact Hc|by eapply inv_back|by rewrite E3|by rewrite E4|].
    apply G; cbn; tauto.
  - intros D. rewrite E4. unfold finished. rewrite E1. apply Hinv.
  - intros m [Hm|Hm]%HI; [|by apply harmless_issued].
    eapply issued_ok_mono; [| |by eapply inv_issued]; unfold finished; by rewrite ?E1, ?E3.
  - intros B D [H1|H1]%HI [H2|H2]%HI; try done. by eapply inv_kind.
Qed.

(** * Steps of the journal *)
Record journal_step (gone : option Mutation) (muts P P' I I' : list Mutation) : Prop := {
  js_covers : covers gone P P';
  js_muts m : m ∈J muts -> m ∈J P';
  js_issued m : m ∈J I' -> m ∈J muts \/ m ∈J I;
  js_pending m : m ∈J P' -> m ∈J I';
  js_grow m : m ∈J I -> m ∈J I';
}.

Lemma journal_once m l1 l2 muts I :
  (forall q th, m = MergeQuest q th -> muts = th) -> (forall x, x ∈J l1 ++ m :: l2 -> x ∈J I) ->
  journal_step (Some m) muts (l1 ++ m :: l2) (muts ++ l1 ++ l2) I (muts ++ I).
Proof.
  intros Hq HP. split.
  - by apply covers_once.
  - intros x Hx. apply in_journal_app. by left.
  - intros x. apply in_journal_app.
  - intros x. rewrite !in_journal_app. intros [?|Hx]; [by left|]. right. apply HP.
    change (m :: l2) with ([m] ++ l2). rewrite !in_journal_app. tauto.
  - intros x Hx. apply in_journal_app. by right.
Qed.

Lemma journal_more gone muts P I :
  (forall x, x ∈J P -> x ∈J I) -> journal_step gone muts P (muts ++ P) I (muts ++ I).
Proof.
  intros HP. split.
  - apply covers_app, covers_refl.
  - intros x Hx. apply in_journal_app. by left.
  - intros x. apply in_journal_app.
  - intros x. rewrite !in_journal_app. intros [?|?]; auto.
  - intros x Hx. apply in_journal_app. by right.
Qed.

(** * States *)
Lemma Attempt_ModifyState_spec now a st a' :
  Attempt_ModifyState now a st = Ok a' ->
  a_State a' = st /\ CurExecution a' = CurExecution a /\ LastSuccessfulExecution a' = LastSuccessfulExecution a /\
  DepMap a' = DepMap a /\ a_Result a' = a_Result a /\
  (a_State a = st \/ st ∈ validAttemptStateEvolution (a_State a)).
Proof.
  unfold Attempt_ModifyState, Attempt_Evolve. case_bool_decide as E1; [intros [= <-]; auto 10|].
  case_bool_decide as E2; [congruence|]. case_bool_decide as E3; [|done]. intros [= <-]. cbn. auto 10.
Qed.

Lemma Execution_ModifyState_spec now e st e' :
  Execution_ModifyState now e st = Ok e' ->
  e_State e' = st /\ Token e' = Token e /\ (e_State e = st \/ st ∈ validExecutionStateEvolution (e_State e)).
Proof.
  unfold Execution_ModifyState, Execution_Evolve. case_bool_decide as E1; [intros [= <-]; auto|].
  case_bool_decide as E2; [congruence|]. case_bool_decide as E3; [|done]. intros [= <-]. cbn. auto.
Qed.

Lemma depmap_models b : depmap_ok b -> models b (BitField.size b) (bit (data b)).
Proof. intros [? ?]. by do 3 (split; [done|]). Qed.

(** Setting a bit that is in range. *)
Lemma depmap_set b i b' : depmap_ok b -> 0 <= i -> BF_Set b i = Ret b' ->
  i < BitField.size b /\ depmap_ok b' /\ BitField.size b' = BitField.size b /\
  forall j, 0 <= j < BitField.size b -> bit (data b') j = (j =? i) || bit (data b) j.
Proof.
  intros Hb Hi E. pose proof (Set_models b _ _ i (depmap_models b Hb) Hi) as H. case_decide as Hlt.
  - destruct H as (b'' & E' & Hwf & Hcl & Hs & Hbits). rewrite E in E'. injection E' as <-. split; [done|]. split; [by split|]. split; [done|]. intros j Hj. by apply Hbits.
  - by rewrite E in H.
Qed.

Lemma depmap_isset b i : depmap_ok b -> 0 <= i ->
  IsSet b i = Ret ((i <? BitField.size b) && bit (data b) i).
Proof.
  intros [Hwf _] Hi. destruct (Z.ltb_spec i (BitField.size b)); [by apply IsSet_bit|].
  unfold IsSet. by destruct (Z.leb_spec (BitField.size b) i); [|lia].
Qed.

Lemma depmap_all b : depmap_ok b ->
  All b true = true <-> forall i, 0 <= i < BitField.size b -> bit (data b) i = true.
Proof. intros Hb. by apply All_models, depmap_models. Qed.

Lemma depmap_Reset b : depmap_ok (Reset b).
Proof.
  split; [|intros i _; done]. repeat split; cbn; try lia. constructor.
Qed.

Lemma depmap_Make n : 0 <= n <= 2 ^ 32 - 8 ->
  depmap_ok (Make n) /\ BitField.size (Make n) = n /\ forall i, bit (data (Make n)) i = false.
Proof. intros Hn. destruct (Make_ok n Hn) as (? & ? & ? & ?). split; [by split|]. by split. Qed.

Lemma active_test a fd :
  negb (bool_decide (a_State a = Attempt_EXECUTING) || bool_decide (a_State a = Attempt_WAITING))
    || negb (CurExecution a =? ForExecution fd) = false <-> active a /\ CurExecution a = ForExecution fd.
Proof.
  rewrite orb_false_iff, !negb_false_iff, orb_true_iff, !bool_decide_eq_true, Z.eqb_eq. done.
Qed.

Lemma AckFwdDep_cases env A D s s' muts :
  AckFwdDep_RollForward env A D s = Done muts s' ->
  exists a fd, attempts s !! A = Some a /\ fwdDeps s !! (A, D) = Some fd /\
  ((s' = s /\ muts = [] /\
    (~ (active a /\ CurExecution a = ForExecution fd) \/ IsSet (DepMap a) (BitIndex fd) = Ret true)) \/
   (active a /\ CurExecution a = ForExecution fd /\ IsSet (DepMap a) (BitIndex fd) = Ret false /\
    exists b a', BF_Set (DepMap a) (BitIndex fd) = Ret b /\ updates s s' A a' /\ executions s' = executions s /\
      CurExecution a' = CurExecution a /\ LastSuccessfulExecution a' = LastSuccessfulExecution a /\
      ((All b true = true /\ a_State a = Attempt_WAITING /\ a_State a' = Attempt_SCHEDULING /\
        DepMap a' = Reset b /\ muts = [ScheduleExecution A]) \/
       (~ (All b true = true /\ a_State a = Attempt_WAITING) /\ a_State a' = a_State a /\
        DepMap a' = b /\ muts = [])))).
Proof.
  unfold AckFwdDep_RollForward. intros H. txn_inv H; exists v, v0; (split; [done|]); (split; [done|]).
  { left. split; [done|]. split; [done|]. left. intros Hn%active_test. congruence. }
  all: apply active_test in E as [Hact Hcur].
  - left. auto.
  - right. do 3 (split; [done|]). apply andb_true_iff in E0 as [E1 E2%bool_decide_eq_true].
    apply Attempt_ModifyState_spec in Hm3 as (F1 & F2 & F3 & F4 & F5 & _). puts.
    exists v2, (a_with_DepMap v1 (Reset (DepMap v1))). split; [done|]. split; [by split|].
    split; [done|]. split; [done|]. split; [done|]. left. by repeat split.
  - right. do 3 (split; [done|]). puts. exists v2, (a_with_DepMap v v2). split; [done|]. split; [by split|].
    split; [done|]. split; [done|]. split; [done|]. right. split; [|by repeat split].
    intros [E1 E2]. by rewrite E1, bool_decide_true in E0.
Qed.

(** An acknowledgement that is gone has done its work. *)
Lemma wait_ok_ack s s' P P' I I' A D fd a a' :
  wait_ok s P I A a -> covers (Some (AckFwdDep A D)) P P' -> (forall m, m ∈J I -> m ∈J I') -> fwdDeps s' = fwdDeps s -> backDeps s' = backDeps s ->
  fwdDeps s !! (A, D) = Some fd ->
  CurExecution a' = CurExecution a -> (active a' -> active a) ->
  (active a' -> forall i, 0 <= i < BitField.size (DepMap a') -> bit (data (DepMap a')) i = false ->
     i < BitField.size (DepMap a) /\ bit (data (DepMap a)) i = false /\
     (CurExecution a = ForExecution fd -> i <> BitIndex fd)) ->
  wait_ok s' P' I' A a'.
Proof.
  intros Hw Hc Hgrow Ef Eb Hfd Hcur Hact Hbits Ha i Hi Hbit. destruct (Hbits Ha i Hi Hbit) as (Hlt & Hbit' & Hne).
  destruct (Hw (Hact Ha) i) as (D' & fd' & Hfd' & Hidx & Hfor & Hway); [lia|done|].
  exists D', fd'. rewrite Ef, Hcur. split; [done|]. split; [done|]. split; [done|].
  eapply on_way_covers; [exact Hc|exact Hgrow|exact Hway|rewrite Eb; auto|done|].
  intros [= <-]. apply Hne; [|]; congruence.
Qed.

Lemma current_ended_same s s' A a a' :
  current_ended s A a -> executions s' = executions s -> CurExecution a' = CurExecution a -> current_ended s' A a'.
Proof. intros H E1 E2 e. rewrite E1, E2. apply H. Qed.

Lemma AckFwdDep_inv env A D s s' P P' I I' muts :
  inv s P I -> AckFwdDep_RollForward env A D s = Done muts s' ->
  journal_step (Some (AckFwdDep A D)) muts P P' I I' -> inv s' P' I'.
Proof.
  intros Hinv (a & fd & Ha & Hfd & Hcase)%AckFwdDep_cases [Hc Hmuts HI HPI Hgrow].
  pose proof (inv_att _ _ _ Hinv _ _ Ha) as (Hdm & Hn & Hlast & Hex & Hst).
  pose proof (inv_wait _ _ _ Hinv _ _ Ha) as Hw.
  pose proof (inv_fwd _ _ _ Hinv _ _ _ Hfd) as (_ & Hidx & _).
  assert (Hpriv : forall m, Some (AckFwdDep A D) = Some m -> private A m) by by intros m [= <-].
  assert (HI' : (muts = [] \/ muts = [ScheduleExecution A]) -> forall m, m ∈J I' -> m ∈J I \/ harmless s' m).
  { intros Hm m [Hx|Hx]%HI; [|by left]. destruct Hm as [-> | ->]; [by apply in_journal_nil in Hx|].
    apply in_journal_singleton in Hx as [->|(? & ? & ? & _)]; [by right|done]. }
  assert (Hexec : executions s' = executions s -> forall a', CurExecution a' = CurExecution a ->
    forall n e, executions s' !! (A, n) = Some e -> exec_ok A a' n e).
  { intros E1 a' E2 n e. rewrite E1. intros He. destruct (inv_exec _ _ _ Hinv _ _ _ He) as (a0 & Ha0 & Hok).
    replace a0 with a in * by congruence. unfold exec_ok in *. by rewrite E2. }
  destruct Hcase as [(-> & -> & Hno)|(Hact & Hcur & Hset & b & a' & Hb & Hup & Eex & E1 & E2 & Hres)].
  - eapply (inv_update s s P P' I I' A a a); eauto; [|lia|..].
    + split; try done. by rewrite insert_id.
    + eapply att_ok_covers; [exact Hc|by eapply inv_att|done..].
    + eapply wait_ok_ack; eauto. intros Hact i Hi Hbit. split; [lia|]. split; [done|]. intros Hcur ->.
      destruct Hno as [Hno|Hno]; [tauto|]. rewrite depmap_isset in Hno by done. injection Hno as Hno.
      apply andb_true_iff in Hno as [_ Hno]. congruence.
  - destruct (depmap_set _ _ _ Hdm Hidx Hb) as (Hlt & Hdm' & Hsz & Hbits).
    eapply (inv_update s s' P P' I I' A a a'); eauto.
    + lia.
    + intros Hf. destruct Hact; congruence.
    + assert (Hce : current_ended s A a -> current_ended s' A a') by (intros H; by eapply current_ended_same).
      split; [destruct Hres as [(_ & _ & _ & -> & _)|(_ & _ & -> & _)]; [apply depmap_Reset|done]|].
      rewrite E1, E2, Eex. split; [done|]. split; [done|]. split; [done|].
      unfold state_ok in *. destruct Hres as [(_ & Hwt & Es & Ed & Em)|(Hno & Es & Ed & Em)].
      * rewrite Es. rewrite Hwt in Hst. split; [by rewrite Ed|]. split; [|apply Hce, Hst].
        apply Hmuts. rewrite Em. by apply in_journal_elem, list_elem_of_singleton.
      * rewrite Es, Ed, E1, Eex, Hsz. destruct Hact as [Hact|Hact]; rewrite Hact in *; [done|].
        destruct Hst as (H1 & H2 & H3). split; [done|]. split; [|auto].
        apply not_true_iff_false. tauto.
    + eapply wait_ok_ack; eauto; [apply Hup..|].
      destruct Hres as [(_ & _ & Es & Ed & _)|(_ & Es & -> & _)].
      * rewrite Ed. cbn. intros _ i Hi. lia.
      * intros _ i Hi Hbit. rewrite Hsz in Hi. rewrite Hbits in Hbit by lia.
        apply orb_false_iff in Hbit as [Hne%Z.eqb_neq Hbit]. by split; [lia|].
    + apply HI'. destruct Hres as [(_ & _ & _ & _ & ->)|(_ & _ & _ & ->)]; auto.
Qed.

(** * The end of an execution *)
Lemma ResetExecutionTimeout_core now eid e s u s' :
  ResetExecutionTimeout now eid e s = Done u s' -> same_core s s' /\ quests s' = quests s.
Proof. unfold ResetExecutionTimeout. intros H. txn_inv H; puts; done. Qed.

Inductive ending (aid : AID) (a a' : Attempt) (st : Execution_State) : list Mutation -> Prop :=
| ending_retry (Hs : a_State a' = Attempt_SCHEDULING) (Hd : DepMap a' = Reset (DepMap a))
    (He : st = Execution_ABNORMAL_FINISHED) : ending aid a a' st [ScheduleExecution aid]
| ending_unblocked (Hs : a_State a' = Attempt_SCHEDULING) (Hd : DepMap a' = Reset (DepMap a))
    (Hall : All (DepMap a) true = true) (He : st = Execution_FINISHED) : ending aid a a' st [ScheduleExecution aid]
| ending_wait (Hs : a_State a' = Attempt_WAITING) (Hd : DepMap a' = DepMap a) (Hsize : 0 < BitField.size (DepMap a))
    (Hall : All (DepMap a) true = false) (He : st = Execution_FINISHED) : ending aid a a' st []
| ending_finished (Hs : a_State a' = Attempt_FINISHED) (Hd : DepMap a' = DepMap a)
    (Hsize : BitField.size (DepMap a) <= 0) (He : st = Execution_FINISHED) : ending aid a a' st [RecordCompletion aid]
| ending_abnormal (Hs : a_State a' = Attempt_ABNORMAL_FINISHED) (Hd : DepMap a' = DepMap a)
    (Hr : AbnormalFin (a_Result a') <> None) (He : st = Execution_ABNORMAL_FINISHED) : ending aid a a' st [].

Lemma shouldRetry_spec aid a st s retry a' s' :
  shouldRetry aid a st s = Done (retry, a') s' ->
  s' = s /\ a_State a' = a_State a /\ CurExecution a' = CurExecution a /\
  LastSuccessfulExecution a' = LastSuccessfulExecution a /\ DepMap a' = DepMap a /\ (retry = true -> CouldRetry st = true).
Proof.
  unfold shouldRetry. intros H. txn_inv H; simplify_eq/=; try done.
  by apply negb_false_iff in E.
Qed.

Lemma finish_abnormal_spec env aid a ab s a' muts s' :
  finish_abnormal env aid a ab s = Done (a', muts) s' ->
  s' = s /\ CurExecution a' = CurExecution a /\ LastSuccessfulExecution a' = LastSuccessfulExecution a /\
  ending aid a a' Execution_ABNORMAL_FINISHED muts.
Proof.
  unfold finish_abnormal. intros H. txn_inv H; simplify_eq/=;
    apply shouldRetry_spec in Hm as (-> & E1 & E2 & E3 & E4 & _);
    apply Attempt_ModifyState_spec in Hm0 as (F1 & F2 & F3 & F4 & F5 & _); (split; [done|]); cbn;
    (split; [congruence|]); (split; [congruence|]).
  - apply ending_retry; cbn; congruence.
  - apply ending_abnormal; cbn; congruence.
Qed.

Lemma finish_normal_spec env eid a s a' muts s' :
  finish_normal env eid a s = Done (a', muts) s' ->
  s' = s /\ CurExecution a' = CurExecution a /\ LastSuccessfulExecution a' = eid.2 /\
  ending eid.1 a a' Execution_FINISHED muts.
Proof.
  unfold finish_normal. intros H. txn_inv H; simplify_eq/=;
    match goal with H : Attempt_ModifyState _ _ _ = _ |- _ =>
      apply Attempt_ModifyState_spec in H as (F1 & F2 & F3 & F4 & F5 & _) end; (split; [done|]); cbn in *;
    (split; [congruence|]); (split; [congruence|]).
  - apply ending_unblocked; cbn; congruence.
  - apply Z.ltb_lt in E. by apply ending_wait.
  - apply Z.ltb_ge in E. by apply ending_finished.
Qed.

(** What is recorded: a success counts only from the STOPPING state. *)
Definition recorded (Res : Result) (st : Execution_State) : Result :=
  match AbnormalFin Res with
  | None => if bool_decide (st = Execution_STOPPING) then Res
            else {| Data := Data Res;
                    AbnormalFin := Some {| Status := FAILED;
                      Reason := String.append "distributor finished execution while it was in the "
                                  (String.append (Execution_State_String st) " state.") |} |}
  | Some _ => Res
  end.
Lemma recorded_ok Res st : AbnormalFin (recorded Res st) = None -> st = Execution_STOPPING.
Proof.
  unfold recorded. destruct (AbnormalFin Res) eqn:E; [congruence|]. case_bool_decide; [done|]. by intros [=].
Qed.

Lemma runs_test a e n :
  negb (bool_decide (a_State a = Attempt_EXECUTING)) || negb (CurExecution a =? n) || Execution_Terminal (e_State e)
    = false <->
  a_State a = Attempt_EXECUTING /\ CurExecution a = n /\ Execution_Terminal (e_State e) = false.
Proof. rewrite !orb_false_iff, !negb_false_iff, bool_decide_eq_true, Z.eqb_eq. tauto. Qed.

Lemma FinishExecution_cases env eid Res s s' muts :
  FinishExecution_RollForward env eid Res s = Done muts s' ->
  exists a e, attempts s !! eid.1 = Some a /\ executions s !! eid = Some e /\
  ((s' = s /\ muts = [] /\
    ~ (a_State a = Attempt_EXECUTING /\ CurExecution a = eid.2 /\ Execution_Terminal (e_State e) = false)) \/
   (a_State a = Attempt_EXECUTING /\ CurExecution a = eid.2 /\ Execution_Terminal (e_State e) = false /\
    exists a' e', updates s s' eid.1 a' /\ executions s' = <[eid := e']> (executions s) /\ quests s' = quests s /\
      Execution_Terminal (e_State e') = true /\
      (e_State e' = Execution_FINISHED -> e_State e = Execution_STOPPING) /\ CurExecution a' = CurExecution a /\
      (LastSuccessfulExecution a' = LastSuccessfulExecution a \/ LastSuccessfulExecution a' = CurExecution a) /\
      ending eid.1 a a' (e_State e') muts)).
Proof.
  unfold FinishExecution_RollForward. intros H. txn_inv H; exists v, v0; (split; [done|]); (split; [done|]).
  { left. split; [done|]. split; [done|]. intros Hn%runs_test. congruence. }
  all: apply runs_test in E as (H1 & H2 & H3); right; do 3 (split; [done|]);
    fold (recorded Res (e_State v0)) in *; txn_inv Hm1; simplify_eq/=;
    apply ResetExecutionTimeout_core in Hm2 as ((C1 & C2 & C3 & C4 & C5) & C6); puts;
    apply Execution_ModifyState_spec in Hm5 as (F1 & _ & _).
  - apply finish_abnormal_spec in Hm6 as (-> & G1 & G2 & G3).
    exists a1, v4. split; [split; cbn; [by rewrite C1| |done..]|].
    { intros B n HB. rewrite C2, lookup_insert_ne; [done|]. by intros ->. }
    cbn. rewrite C2, C6, F1. do 5 (split; [done|]). split; [by left|].
    inversion G3; by constructor.
  - apply finish_normal_spec in Hm6 as (-> & G1 & G2 & G3).
    exists a0, v4. split; [split; cbn; [by rewrite C1| |done..]|].
    { intros B n HB. rewrite C2, lookup_insert_ne; [done|]. by intros ->. }
    cbn. rewrite C2, C6, F1. do 3 (split; [done|]). split; [intros _; by eapply recorded_ok|]. split; [done|]. split; [right; congruence|done].
Qed.

(** The executions of [A] after its current one has changed. *)
Lemma exec_ok_update s s' P I A a a' e' :
  inv s P I -> attempts s !! A = Some a -> executions s' = <[(A, CurExecution a) := e']> (executions s) ->
  is_Some (executions s !! (A, CurExecution a)) -> CurExecution a' = CurExecution a ->
  forall n e, executions s' !! (A, n) = Some e -> exec_ok A a' n e.
Proof.
  intros Hinv Ha Eex [e0 He0] Ecur n e. rewrite Eex, lookup_insert_Some.
  assert (Hk : forall n e, executions s !! (A, n) = Some e -> exec_ok A a n e).
  { intros n1 e1 He1. destruct (inv_exec _ _ _ Hinv _ _ _ He1) as (a1 & Ha1 & Hok). by simplify_eq. }
  unfold exec_ok in *. rewrite Ecur. intros [[[= <-] <-]|[_ He]]; [|by apply Hk].
  split; [by eapply Hk|lia].
Qed.

Lemma executions_grow s s' A n e' :
  executions s' = <[(A, n) := e']> (executions s) ->
  forall k, is_Some (executions s !! k) -> is_Some (executions s' !! k).
Proof. intros -> k Hk. apply lookup_insert_is_Some. destruct (decide ((A, n) = k)); auto. Qed.

Lemma ending_ok s s' P' A a a' e' muts :
  depmap_ok (DepMap a) -> (forall m, m ∈J muts -> m ∈J P') ->
  executions s' = <[(A, CurExecution a) := e']> (executions s) ->
  CurExecution a' = CurExecution a -> Execution_Terminal (e_State e') = true ->
  ending A a a' (e_State e') muts ->
  depmap_ok (DepMap a') /\ state_ok s' P' A a'.
Proof.
  intros Hdm Hm Eex Ecur Hterm Hend.
  assert (Hce : current_ended s' A a').
  { intros e. rewrite Eex, Ecur, lookup_insert_eq. by intros [= <-]. }
  assert (Hone : forall m, m ∈J [m]) by (intros m; by apply in_journal_elem, list_elem_of_singleton).
  unfold state_ok. destruct Hend; rewrite Hs, Hd; (split; [apply depmap_Reset || done|]).
  - split; [done|]. split; [auto|done].
  - split; [done|]. split; [auto|done].
  - done.
  - split; [left; auto|done].
  - done.
Qed.

Lemma ending_wait_ok s s' P P' I I' A a a' st muts gone :
  wait_ok s P I A a -> active a -> covers gone P P' -> (forall m, m ∈J I -> m ∈J I') -> (forall m, gone = Some m -> idle m \/ m = ScheduleExecution A) ->
  fwdDeps s' = fwdDeps s -> backDeps s' = backDeps s -> CurExecution a' = CurExecution a ->
  ending A a a' st muts -> wait_ok s' P' I' A a'.
Proof.
  intros Hw Ha Hc Hgrow Hg Ef Eb Ecur Hend Ha' i Hi Hbit.
  assert (Hd : DepMap a' = DepMap a).
  { destruct Hend; [destruct Ha'; congruence|destruct Ha'; congruence|done..]. }
  rewrite Hd in *. destruct (Hw Ha i Hi Hbit) as (D & fd & Hfd & Hidx & Hfor & Hway).
  exists D, fd. rewrite Ef, Ecur. split; [done|]. split; [done|]. split; [done|].
  eapply on_way_covers; [exact Hc|exact Hgrow|exact Hway|rewrite Eb; auto|..]; intros E; by destruct (Hg _ E).
Qed.

Lemma ending_update gone s s' P P' I I' A a a' e e' muts :
  inv s P I -> attempts s !! A = Some a -> a_State a = Attempt_EXECUTING ->
  executions s !! (A, CurExecution a) = Some e -> Execution_Terminal (e_State e') = true ->
  updates s s' A a' -> executions s' = <[(A, CurExecution a) := e']> (executions s) ->
  CurExecution a' = CurExecution a ->
  LastSuccessfulExecution a' = LastSuccessfulExecution a \/ LastSuccessfulExecution a' = CurExecution a ->
  ending A a a' (e_State e') muts ->
  (forall m, gone = Some m -> idle m \/ m = ScheduleExecution A) ->
  journal_step gone muts P P' I I' -> inv s' P' I'.
Proof.
  intros Hinv Ha Hex He Hterm Hup Eex Ecur Elast Hend Hg [Hc Hmuts HI HPI Hgrow].
  pose proof (inv_att _ _ _ Hinv _ _ Ha) as (Hdm & Hn & Hlast & Hexs & _).
  destruct (ending_ok s s' P' A a a' e' muts) as [Hdm' Hst']; try done.
  apply (inv_update s s' P P' I I' A a a' gone); try done.
  - intros m Hm. destruct (Hg m Hm) as [Hi| ->]; [by destruct m|done].
  - lia.
  - by rewrite Hex.
  - split; [done|]. rewrite Ecur. split; [done|]. split; [lia|]. split; [|done].
    intros n Hn'. eapply executions_grow; [done|by apply Hexs].
  - eapply (ending_wait_ok s s' P P' I I' A a a'); try done; [by eapply inv_wait|by left|apply Hup..].
  - by eapply (exec_ok_update s s' P I A a a' e').
  - intros m [Hm|Hm]%HI; [|by left]. right. destruct Hend; try by apply in_journal_nil in Hm.
    all: apply in_journal_singleton in Hm as [->|(? & ? & ? & _)]; [|done].
    all: cbn; try done. exists a'. split; [by rewrite (up_att _ _ _ _ Hup), lookup_insert_eq|done].
Qed.

Lemma FinishExecution_inv env eid Res gone s s' P P' I I' muts :
  inv s P I -> FinishExecution_RollForward env eid Res s = Done muts s' ->
  (forall m, gone = Some m -> idle m) -> journal_step gone muts P P' I I' -> inv s' P' I'.
Proof.
  intros Hinv (a & e & Ha & He & [(-> & -> & _)|H])%FinishExecution_cases Hg Hj.
  - eapply inv_same; [done|apply same_core_refl|done|apply Hj|apply Hj| |apply Hj].
    intros m [Hm%in_journal_nil|]%(js_issued _ _ _ _ _ _ Hj); [done|by left].
  - destruct H as (Hex & Hcur & Hnt & a' & e' & Hup & Eex & _ & Hterm & _ & Ecur & Elast & Hend).
    destruct eid as [A n]. cbn in *. subst n.
    eapply ending_update; try done. intros m Hm. left. by apply Hg.
Qed.

(** * Calls of an execution *)
Definition auth_ok (s : Store) (auth : Execution_Auth) (a : Attempt) (e : Execution) : Prop :=
  attempts s !! (Auth_Id auth).1 = Some a /\ executions s !! Auth_Id auth = Some e /\
  CurExecution a = (Auth_Id auth).2.

Lemma loadExecution_cases auth s a e s' :
  loadExecution (Auth_Id auth) s = Done (a, e) s' -> s' = s /\ auth_ok s auth a e.
Proof.
  unfold loadExecution. intros H. txn_inv H; simplify_eq. apply Z.eqb_eq in E. done.
Qed.

Lemma verify_cases auth s a e s' :
  verifyExecutionAndCheckExTok auth s = Done (a, e) s' ->
  s' = s /\ auth_ok s auth a e /\ a_State a = Attempt_EXECUTING /\ e_State e = Execution_RUNNING /\
  Token e = Auth_Token auth.
Proof.
  unfold verifyExecutionAndCheckExTok. intros H. apply bind_Done in H as ([a0 e0] & s1 & H1 & H).
  apply loadExecution_cases in H1 as [-> Hok]. txn_inv H; simplify_eq.
  apply negb_false_iff in E, E0, E1. unfold sameToken in E1.
  apply bool_decide_eq_true in E, E0, E1. done.
Qed.

Lemma Invalidate_cases now auth s a e' s' :
  InvalidateExecution now auth s = Done (a, e') s' ->
  exists e, auth_ok s auth a e /\ a_State a = Attempt_EXECUTING /\ e_State e = Execution_RUNNING /\
    Token e = Auth_Token auth /\ e_State e' = Execution_STOPPING /\ Token e' = [] /\
    attempts s' = attempts s /\ executions s' = <[Auth_Id auth := e']> (executions s) /\ fwdDeps s' = fwdDeps s /\
    groups s' = groups s /\ backDeps s' = backDeps s /\ quests s' = quests s.
Proof.
  unfold InvalidateExecution. intros H. apply bind_Done in H as ([a0 e0] & s1 & H1%catch_Done & H).
  apply verify_cases in H1 as (-> & Hok & Hex & Hrun & Htok).
  apply bind_Done in H as (e1 & s1 & H1%catch_Done & [[= <- <-] <-]%ret_Done).
  unfold Revoke in H1. txn_inv H1. puts. apply Execution_ModifyState_spec in Hm as (F1 & F2 & _).
  exists e0. auto 20.
Qed.

Lemma Activate_cases env auth tok s muts s' :
  ActivateExecution_RollForward env auth tok s = Done muts s' ->
  exists a e e', muts = [] /\ auth_ok s auth a e /\ a_State a = Attempt_EXECUTING /\
    ((e_State e = Execution_SCHEDULING /\ Token e = Auth_Token auth) \/ (e_State e = Execution_RUNNING /\ Token e = tok)) /\
    e_State e' = Execution_RUNNING /\ Token e' = tok /\
    attempts s' = attempts s /\ executions s' = <[Auth_Id auth := e']> (executions s) /\ fwdDeps s' = fwdDeps s /\
    groups s' = groups s /\ backDeps s' = backDeps s.
Proof.
  unfold ActivateExecution_RollForward, model_ActivateExecution. intros H.
  apply bind_Done in H as ([a1 e1] & s1 & H1%catch_Done & H).
  apply bind_Done in H as (u & s2 & ((C1 & C2 & C3 & C4 & C5) & _)%ResetExecutionTimeout_core & [-> ->]%ret_Done).
  unfold verifyExecutionAndActivate in H1. apply bind_Done in H1 as ([a e] & s3 & H3 & H1).
  apply loadExecution_cases in H3 as [-> Hok]. exists a, e. txn_inv H1; puts; simplify_eq.
  - exists (e_with_Token (e_with_State e a0 (e_Modified e)) tok).
    rewrite C1, C2, C3, C4, C5. apply negb_false_iff, bool_decide_eq_true in E, E1.
    injection E2 as <-.
    split; [done|]. split; [done|]. split; [done|]. split; [by left|]. done.
  - exists e. apply negb_false_iff, bool_decide_eq_true in E, E1.
    split; [done|]. split; [done|]. split; [done|]. split; [by right|]. rewrite C1, C2, C3, C4, C5.
    do 3 (split; [done|]). split; [|done]. symmetry. apply insert_id, Hok.
Qed.

(** The attempt goes on executing; its execution has moved. *)
Lemma executing_update s s' P P' I I' A a a' e e' :
  inv s P I -> attempts s !! A = Some a -> a_State a = Attempt_EXECUTING ->
  executions s !! (A, CurExecution a) = Some e -> Execution_Terminal (e_State e') = false ->
  updates s s' A a' -> executions s' = <[(A, CurExecution a) := e']> (executions s) ->
  CurExecution a' = CurExecution a -> LastSuccessfulExecution a' = LastSuccessfulExecution a ->
  a_State a' = Attempt_EXECUTING -> depmap_ok (DepMap a') ->
  (e_State e' <> Execution_STOPPING -> BitField.size (DepMap a') = 0) -> wait_ok s' P' I' A a' ->
  journal_step None [] P P' I I' -> inv s' P' I'.
Proof.
  intros Hinv Ha Hex He Hterm Hup Eex Ecur Elast Hex' Hdm' Hsize Hw [Hc Hmuts HI HPI Hgrow].
  pose proof (inv_att _ _ _ Hinv _ _ Ha) as (Hdm & Hn & Hlast & Hexs & _).
  apply (inv_update s s' P P' I I' A a a' None); try done.
  - lia.
  - by rewrite Hex.
  - split; [done|]. rewrite Ecur, Elast. do 2 (split; [done|]). split.
    + intros n Hn'. eapply executions_grow; [done|by apply Hexs].
    + unfold state_ok. rewrite Hex', Ecur, Eex. exists e'. by rewrite lookup_insert_eq.
  - by eapply (exec_ok_update s s' P I A a a' e').
  - intros m [Hm%in_journal_nil|Hm]%HI; [done|by left].
Qed.

(** The same attempt, or one that differs where the dependencies do not look. *)
Lemma wait_ok_same s s' P P' I I' A a a' :
  wait_ok s P I A a -> covers None P P' -> (forall m, m ∈J I -> m ∈J I') -> fwdDeps s' = fwdDeps s -> backDeps s' = backDeps s ->
  CurExecution a' = CurExecution a -> a_State a' = a_State a -> DepMap a' = DepMap a -> wait_ok s' P' I' A a'.
Proof.
  intros Hw Hc Hgrow Ef Eb E1 E2 E3. unfold wait_ok, active. rewrite E1, E2, E3.
  eapply (wait_ok_covers P P' I I' None Hc Hgrow s s' A a); try done; [by rewrite Ef|rewrite Eb; auto].
Qed.

Lemma Activate_inv env auth tok s s' P P' I I' muts :
  inv s P I -> ActivateExecution_RollForward env auth tok s = Done muts s' ->
  journal_step None muts P P' I I' -> inv s' P' I'.
Proof.
  intros Hinv (a & e & e' & -> & (Ha & He & Hcur) & Hex & Hst & Hrun & _ & E1 & E2 & E3 & E4 & E5)%Activate_cases Hj.
  pose proof (inv_att _ _ _ Hinv _ _ Ha) as (Hdm & _ & _ & _ & Hok). unfold state_ok in Hok. rewrite Hex in Hok.
  destruct (Auth_Id auth) as [A n]. cbn in *. subst n. destruct Hok as (e0 & He0 & _ & Hsize). simplify_eq.
  eapply (executing_update s s' P P' I I' A a a e e'); try done.
  - by rewrite Hrun.
  - split; try done; [by rewrite E1, insert_id|]. intros B n HB. rewrite E2, lookup_insert_ne; [done|]. congruence.
  - intros _. apply Hsize. destruct Hst as [[-> _]|[-> _]]; done.
  - eapply (wait_ok_same s s' P P' I I' A a); try done; [by eapply inv_wait|apply Hj|apply Hj].
Qed.

Lemma FinishAttempt_inv env auth d s s' P P' I I' muts :
  inv s P I -> FinishAttempt_RollForward env auth d s = Done muts s' ->
  journal_step None muts P P' I I' -> inv s' P' I'.
Proof.
  intros Hinv H Hj. unfold FinishAttempt_RollForward in H.
  apply bind_Done in H as ([a e'] & s1 & H1 & H).
  apply Invalidate_cases in H1 as (e & (Ha & He & Hcur) & Hex & _ & _ & Hstop & _ & E1 & E2 & E3 & E4 & E5 & _).
  apply bind_Done in H as (u & s2 & ((C1 & C2 & C3 & C4 & C5) & _)%ResetExecutionTimeout_core & H).
  txn_inv H. puts. pose proof (inv_att _ _ _ Hinv _ _ Ha) as (Hdm & _ & _ & _ & Hok).
  destruct (Auth_Id auth) as [A n]. cbn in *. subst n.
  eapply (executing_update s _ P P' I I' A a (a_with_Result a
    {| Data := Some {| Object := EmptyString; JSize := JSize d; Expiration := Expiration d |};
       AbnormalFin := AbnormalFin (a_Result a) |}) e e'); try done; cbn; try done.
  - by rewrite Hstop.
  - split; cbn; try congruence. intros B n HB. rewrite C2, E2, lookup_insert_ne; [done|]. congruence.
  - congruence.
  - eapply (wait_ok_same s _ P P' I I' A a); [by eapply inv_wait|apply Hj|apply Hj|cbn; congruence..].
Qed.

(** * Scheduling *)
Lemma FinishExecution_rejected env eid reason s muts s' :
  FinishExecution_RollForward env eid (abnormal REJECTED reason) s = Done muts s' -> muts = [].
Proof.
  unfold FinishExecution_RollForward. intros H. txn_inv H; [done| |done].
  injection E0 as <-. txn_inv Hm1. simplify_eq/=. unfold finish_abnormal in *.
  match goal with H : (shouldRetry _ _ _ ≫= _) _ = _ |- _ => unfold shouldRetry in H; cbn in H; txn_inv H end.
  by simplify_eq/=.
Qed.

Lemma Schedule_cases env A s muts s' :
  ScheduleExecution_RollForward env A s = Done muts s' ->
  exists a, attempts s !! A = Some a /\
  ((s' = s /\ muts = [] /\ a_State a <> Attempt_SCHEDULING) \/
   (a_State a = Attempt_SCHEDULING /\ exists a1 e1 s1,
      updates s s1 A a1 /\ executions s1 = <[(A, CurExecution a1) := e1]> (executions s) /\
      a_State a1 = Attempt_EXECUTING /\ CurExecution a1 = u32 (CurExecution a + 1) /\
      LastSuccessfulExecution a1 = LastSuccessfulExecution a /\ DepMap a1 = DepMap a /\
      e_State e1 = Execution_SCHEDULING /\ muts = [] /\
      (same_core s1 s' \/ exists reason,
         FinishExecution_RollForward env (A, CurExecution a1) (abnormal REJECTED reason) s1 = Done muts s'))).
Proof.
  unfold ScheduleExecution_RollForward. intros H. txn_inv H; exists v; (split; [done|]).
  { left. by apply negb_true_iff, bool_decide_eq_false in E. }
  all: right; apply negb_false_iff, bool_decide_eq_true in E; (split; [done|]).
  all: txn_inv Hm1.
  all: apply Attempt_ModifyState_spec in Hm2 as (F1 & F2 & F3 & F4 & F5 & _); cbn in F2, F3, F4.
  all: match goal with
    | H : FinishExecution_RollForward _ _ _ ?s1 = _ |- _ => pose proof (FinishExecution_rejected _ _ _ _ _ _ H)
    | H : putExecution _ ?e _ = Done _ ?s1 |- _ => idtac end.
  all: match goal with H : putExecution _ ?e _ = Done _ ?s1 |- _ => exists v2, e, s1 end.
  all: try match goal with H : ResetExecutionTimeout _ _ _ _ = _ |- _ =>
    apply ResetExecutionTimeout_core in H as ((C1 & C2 & C3 & C4 & C5) & _) end.
  all: puts; cbn; rewrite ?C1, ?C2, ?C3, ?C4, ?C5; (split; [split; cbn; try congruence|]).
  all: try (intros B n HB; rewrite lookup_insert_ne; [congruence|by intros [=]]).
  all: do 7 (split; [done|]); first [by left|right; eauto].
Qed.

(** A new execution has been recorded. *)
Lemma scheduled_update s s1 P P' I I' A a a1 e1 :
  inv s P I -> attempts s !! A = Some a -> a_State a = Attempt_SCHEDULING -> CurExecution a < 2 ^ 32 - 1 ->
  updates s s1 A a1 -> executions s1 = <[(A, CurExecution a1) := e1]> (executions s) ->
  a_State a1 = Attempt_EXECUTING -> CurExecution a1 = u32 (CurExecution a + 1) ->
  LastSuccessfulExecution a1 = LastSuccessfulExecution a -> DepMap a1 = DepMap a ->
  e_State e1 = Execution_SCHEDULING -> journal_step (Some (ScheduleExecution A)) [] P P' I I' -> inv s1 P' I'.
Proof.
  intros Hinv Ha Hst Hmax Hup Eex Hex Ecur Elast Ed He [Hc Hmuts HI HPI Hgrow].
  pose proof (inv_att _ _ _ Hinv _ _ Ha) as (Hdm & Hn & Hlast & Hexs & Hok). unfold state_ok in Hok.
  rewrite Hst in Hok. destruct Hok as (Hsize & _ & Hce).
  rewrite u32_small in Ecur by (unfold in_u32; lia).
  apply (inv_update s s1 P P' I I' A a a1 (Some (ScheduleExecution A))); try done.
  - by intros m [= <-].
  - lia.
  - by rewrite Hst.
  - split; [congruence|]. rewrite Ecur, Elast. split; [lia|]. split; [lia|]. split.
    + intros n Hn'. rewrite Eex, Ecur. destruct (decide (n = CurExecution a + 1)) as [->|Hne].
      * rewrite lookup_insert_eq. eauto.
      * rewrite lookup_insert_ne by congruence. apply Hexs. lia.
    + unfold state_ok. rewrite Hex, Eex. exists e1. rewrite lookup_insert_eq, He, Ed. done.
  - intros _ i Hi. rewrite Ed, Hsize in Hi. lia.
  - intros n e. rewrite Eex, lookup_insert_Some. intros [[[= <-] <-]|[Hne Hen]].
    + split; [lia|]. lia.
    + destruct (inv_exec _ _ _ Hinv _ _ _ Hen) as (a0 & Ha0 & Hb & Ht). simplify_eq.
      split; [lia|]. intros _. destruct (decide (n = CurExecution a)) as [->|]; [by apply Hce|apply Ht; lia].
  - intros m [Hm%in_journal_nil|Hm]%HI; [done|by left].
Qed.

Lemma journal_step_nil gone P I : (forall x, x ∈J P -> x ∈J I) -> journal_step gone [] P P I I.
Proof. intros H. split; auto using covers_refl. by intros m ?%in_journal_nil. Qed.

Lemma Schedule_inv env A s s' P P' I I' muts :
  inv s P I -> ScheduleExecution_RollForward env A s = Done muts s' ->
  (forall a, attempts s !! A = Some a -> CurExecution a < 2 ^ 32 - 1) ->
  journal_step (Some (ScheduleExecution A)) muts P P' I I' -> inv s' P' I'.
Proof.
  intros Hinv (a & Ha & [(-> & -> & Hne)|H])%Schedule_cases Hmax Hj.
  - (* nothing to do: the mutation was not the one that the attempt waits for *)
    pose proof Hj as [Hc _ HI HPI Hgrow].
    apply (inv_update s s P P' I I' A a a (Some (ScheduleExecution A))); try done.
    + split; try done. by rewrite insert_id.
    + by intros m [= <-].
    + destruct (inv_att _ _ _ Hinv _ _ Ha) as (H1 & H2 & H3 & H4 & H5). do 4 (split; [done|]).
      unfold state_ok in *. destruct (a_State a); try done. destruct H5 as ([H5|H5] & ?); (split; [|done]).
      * left. by destruct (Hc _ H5).
      * by right.
    + eapply (wait_ok_covers P P' I I' _ Hc Hgrow s s A a); try done; [by eapply inv_wait|auto].
    + intros n e He. destruct (inv_exec _ _ _ Hinv _ _ _ He) as (a0 & Ha0 & Hok). by simplify_eq.
    + intros m [Hm%in_journal_nil|Hm]%HI; [done|by left].
  - destruct H as (Hst & a1 & e1 & s1 & Hup & Eex & Hex & Ecur & Elast & Ed & He & -> & Hend).
    assert (Hinv1 : inv s1 P' I') by (eapply scheduled_update; eauto).
    destruct Hend as [Hsame|[reason Hfin]].
    + eapply (inv_same s1 s' P' P' I' I' None); eauto using covers_refl; [done|apply Hj].
    + eapply (FinishExecution_inv env _ _ None s1 s' P' P' I' I' []); eauto; [done|].
      apply journal_step_nil, Hj.
Qed.

(** * New attempts *)
Lemma MakeAttempt_ok s P A now :
  ScheduleExecution A ∈J P -> (forall n, executions s !! (A, n) = None) -> att_ok s P A (MakeAttempt now).
Proof.
  intros HP Hex. split; [apply (depmap_Reset (DepMap (MakeAttempt now)))|]. cbn. split; [lia|]. split; [lia|].
  split; [intros n Hn; lia|]. split; [done|]. split; [done|]. intros e. by rewrite Hex.
Qed.

Lemma EnsureAttempt_inv env A s s' P P' I I' muts :
  inv s P I -> EnsureAttempt_RollForward env A s = Done muts s' ->
  journal_step (Some (EnsureAttempt A)) muts P P' I I' -> inv s' P' I'.
Proof.
  intros Hinv H [Hc Hmuts HI HPI Hgrow]. unfold EnsureAttempt_RollForward in H.
  assert (Hcase : attempts s' !! A <> None /\ (forall B b, attempts s !! B = Some b -> attempts s' !! B = Some b) /\
    (forall B b, attempts s' !! B = Some b -> attempts s !! B = Some b \/
       (B = A /\ attempts s !! A = None /\ ScheduleExecution A ∈J P' /\ exists t, b = MakeAttempt t)) /\
    executions s' = executions s /\ fwdDeps s' = fwdDeps s /\ groups s' = groups s /\ backDeps s' = backDeps s /\
    (forall m, m ∈J muts -> m = ScheduleExecution A)).
  { txn_inv H; puts; cbn.
    - split; [congruence|]. split; [done|]. split; [auto|]. repeat split. by intros m ?%in_journal_nil.
    - rewrite lookup_insert_eq. split; [done|]. split; [|split].
      + intros B b Hb. rewrite lookup_insert_ne; [done|congruence].
      + intros B b [[<- <-]|[_ ?]]%lookup_insert_Some; [right|by left].
        split; [done|]. split; [done|]. split; [|eauto]. apply Hmuts. by apply in_journal_elem, list_elem_of_singleton.
      + repeat split. intros m [->|(? & ? & ? & _)]%in_journal_singleton; done. }
  destruct Hcase as (HA & Hold & Hnew & E2 & E3 & E4 & E5 & Hm).
  assert (Hfin : forall D, finished s D -> finished s' D) by (intros D (a & Ha & ?); exists a; auto).
  split.
  - intros B b [Hb|(-> & HN & HS & t & ->)]%Hnew.
    + eapply att_ok_covers; [exact Hc|by eapply inv_att|by rewrite E2|by rewrite E4|done|done].
    + apply MakeAttempt_ok; [done|]. intros n. rewrite E2.
      destruct (executions s !! (A, n)) eqn:He; [|done].
      destruct (inv_exec _ _ _ Hinv _ _ _ He) as (? & ? & _). congruence.
  - intros B b [Hb|(-> & HN & HS & t & ->)]%Hnew.
    + eapply wait_ok_covers; [exact Hc|exact Hgrow|by eapply inv_wait|by rewrite E3|rewrite E5; auto|done|done].
    + by intros [?|?].
  - intros B n e. rewrite E2. intros He. destruct (inv_exec _ _ _ Hinv _ _ _ He) as (b & Hb & ?). exists b. auto.
  - intros B D fd. rewrite E3. intros Hfd. eapply fwd_ok_covers; [exact Hc|by eapply inv_fwd|..].
    + intros b Hb. exists b. split; [auto|lia].
    + intros [b Hb]. eauto.
    + intros [= <-]. by apply not_eq_None_Some.
  - intros B D b. rewrite E5. intros Hb. eapply back_ok_covers; [exact Hc|by eapply inv_back|by rewrite E3|by rewrite E4|done].
  - intros D. rewrite E4. intros HD. by apply Hfin, (inv_group _ _ _ Hinv).
  - intros m [->%Hm|Hx]%HI; [done|]. eapply (issued_ok_mono s s'); [by rewrite E3|exact Hfin|by eapply inv_issued].
  - done.
  - intros B D [Hm1%Hm|H1]%HI [Hm2%Hm|H2]%HI; try done. by eapply inv_kind.
Qed.

(** * Back dependencies *)
Lemma AddBackDep_cases A D na s s' muts :
  AddBackDep_RollForward A D na s = Done muts s' ->
  let g := default false (groups s !! D) in
  attempts s' = attempts s /\ executions s' = executions s /\ fwdDeps s' = fwdDeps s /\
  groups s' = <[D := g]> (groups s) /\ backDeps s' = <[(D, A) := g]> (backDeps s) /\
  muts = (if na && g then [AckFwdDep A D] else []).
Proof.
  unfold AddBackDep_RollForward. intros H.
  destruct (groups s !! D) as [b|] eqn:Eg; txn_inv H; puts; cbn in *; rewrite ?Eg in *; simplify_eq/=; try done.
  apply ret_Done in Hm as [_ ->]. by rewrite insert_id.
Qed.

Lemma AddBackDep_inv A D na s s' P P' I I' muts :
  inv s P I -> AddBackDep_RollForward A D na s = Done muts s' -> AddBackDep A D na ∈J I ->
  journal_step (Some (AddBackDep A D na)) muts P P' I I' -> inv s' P' I'.
Proof.
  intros Hinv (E1 & E2 & E3 & E4 & E5 & Em)%AddBackDep_cases Hiss [Hc Hmuts HI HPI Hgrow].
  pose proof (inv_issued _ _ _ Hinv _ Hiss) as Hfd. cbn in Hfd.
  set (g := default false (groups s !! D)) in *.
  assert (Hg : forall B b, groups s !! B = Some b -> groups s' !! B = Some b).
  { intros B b Hb. rewrite E4, lookup_insert_Some. destruct (decide (D = B)) as [->|]; [left|by right].
    split; [done|]. unfold g. by rewrite Hb. }
  assert (Hfin : forall B, finished s B <-> finished s' B) by (intros B; unfold finished; by rewrite E1).
  assert (Hgt : g = true -> groups s !! D = Some true).
  { unfold g. destruct (groups s !! D) as [[]|]; by cbn. }
  split.
  - intros B b. rewrite E1. intros Hb. eapply att_ok_covers; [exact Hc|by eapply inv_att|by rewrite E2|auto|done|done].
  - (* the dependency was waited for: it is recorded, or its acknowledgement is journaled *)
    intros B b. rewrite E1. intros Hb Hact i Hi Hbit.
    destruct (inv_wait _ _ _ Hinv _ _ Hb Hact i Hi Hbit) as (D' & fd & Hfd' & Hidx & Hfor & [HI0 Hway]).
    exists D', fd. rewrite E3. do 3 (split; [done|]). split; [auto|]. rewrite E5.
    destruct (decide ((D', B) = (D, A))) as [[= -> ->]|Hne].
    + destruct na; [|by destruct (inv_kind _ _ _ Hinv A D)]. rewrite lookup_insert_eq.
      destruct g eqn:Eg; [|auto]. right; left. apply Hmuts. rewrite Em. by apply in_journal_elem, list_elem_of_singleton.
    + rewrite lookup_insert_ne by congruence.
      destruct Hway as [Hway|[Hway|Hway]]; [left|right; left|by right; right]; eapply covers_in; try done; congruence.
  - intros B n e. rewrite E1, E2. apply Hinv.
  - intros B D' fd. rewrite E3. intros Hfd'.
    eapply fwd_ok_covers; [exact Hc|by eapply inv_fwd|intros b Hb; exists b; rewrite E1; split; [done|lia]|by rewrite E1|done].
  - intros B D' b. rewrite E5. intros [[[= <- <-] <-]|[Hne Hb]]%lookup_insert_Some.
    + split; [by rewrite E3|]. exists g. rewrite E4, lookup_insert_eq. split; [done|]. split; [done|]. by intros ->.
    + destruct (inv_back _ _ _ Hinv _ _ _ Hb) as (Hf & g' & Hg' & H1 & H2). split; [by rewrite E3|].
      exists g'. split; [auto|]. split; [done|]. intros Hb' Hg''. eapply covers_in; [exact Hc|auto|done].
  - intros B. rewrite E4, lookup_insert_Some. intros [[<- Hgt']|[_ HB]]; apply Hfin, (inv_group _ _ _ Hinv); auto.
  - intros m [Hm|Hm]%HI; [|].
    + rewrite Em in Hm. destruct na, g eqn:Eg; cbn in Hm; try by apply in_journal_nil in Hm.
      apply in_journal_singleton in Hm as [->|(? & ? & ? & _)]; [|done]. split; [by rewrite E3|].
      by apply Hfin, (inv_group _ _ _ Hinv), Hgt.
    + eapply (issued_ok_mono s s'); [by rewrite E3|intros B; apply Hfin|by eapply inv_issued].
  - done.
  - assert (Hm : forall B C b, AddBackDep B C b ∈J muts -> False).
    { intros B C b. rewrite Em. destruct na, g; cbn; try by intros ?%in_journal_nil.
      by intros [?|(? & ? & ? & _)]%in_journal_singleton. }
    intros B C [H1|H1]%HI [H2|H2]%HI; try by eapply Hm. by eapply inv_kind.
Qed.

(** * Completion *)
Lemma propagate_spec To ds s u s' : propagate To ds s = Done u s' ->
  attempts s' = attempts s /\ executions s' = executions s /\ fwdDeps s' = fwdDeps s /\ groups s' = groups s /\
  quests s' = quests s /\
  forall k, backDeps s' !! k = if decide (k.1 = To /\ k.2 ∈ ds) then Some true else backDeps s !! k.
Proof.
  revert s. induction ds as [|d ds IH]; intros s H; cbn in H.
  - apply ret_Done in H as [_ ->]. do 5 (split; [done|]). intros k. rewrite decide_False; [done|].
    intros [_ ?%elem_of_nil]. done.
  - apply bind_Done in H as (u1 & s1 & H1 & H). puts. apply IH in H as (E1 & E2 & E3 & E4 & E5 & E6).
    do 5 (split; [done|]). intros [T x]. rewrite E6. cbn. clear. destruct (decide ((To, d) = (T, x))) as [[= <- <-]|Hne].
    + rewrite lookup_insert_eq, (decide_True (P := _ /\ _ ∈ _ :: _)) by (split; [done|left]). by case_decide.
    + rewrite lookup_insert_ne by done. apply decide_ext. rewrite elem_of_cons. intuition congruence.
Qed.

Lemma Record_cases env D s muts s' :
  RecordCompletion_RollForward env D s = Done muts s' ->
  attempts s' = attempts s /\ executions s' = executions s /\ fwdDeps s' = fwdDeps s /\
  groups s' = <[D := true]> (groups s) /\
  (forall k, backDeps s' !! k = if decide (k.1 = D /\ k.2 ∈ needProp env) then Some true else backDeps s !! k) /\
  muts = map (fun d => AckFwdDep d D) (needProp env) ++
         (if (length (needProp env) =? completionLimit)%nat then [RecordCompletion D] else []).
Proof.
  unfold RecordCompletion_RollForward. intros H.
  apply bind_Done in H as (g & s1 & [-> ->]%lookupEntity_Done & H).
  apply bind_Done in H as (u & s1 & (E1 & E2 & E3 & E4 & _ & E6)%propagate_spec & H).
  apply bind_Done in H as (u1 & s2 & H1 & [-> ->]%ret_Done).
  destruct (groups s !! D) as [[]|] eqn:Eg; cbn in H1; txn_inv H1; puts; cbn;
    rewrite ?E1, ?E2, ?E3, ?E4; (do 3 (split; [done|])); (split; [|by split]); try done. by rewrite insert_id.
Qed.

Lemma Record_muts D ds (b : bool) m :
  m ∈J map (fun d => AckFwdDep d D) ds ++ (if b then [RecordCompletion D] else []) ->
  (exists d, d ∈ ds /\ m = AckFwdDep d D) \/ (b = true /\ m = RecordCompletion D).
Proof.
  rewrite in_journal_app. intros [[Hm|(q & th & Hm & _)]|Hm].
  - apply list_elem_of_fmap in Hm as (d & -> & Hd). left. eauto.
  - apply list_elem_of_fmap in Hm as (d & ? & _). done.
  - destruct b; [|by apply in_journal_nil in Hm]. right.
    by apply in_journal_singleton in Hm as [->|(? & ? & ? & _)].
Qed.

Lemma RecordCompletion_inv env D s s' P P' I I' muts :
  inv s P I -> RecordCompletion_RollForward env D s = Done muts s' -> RecordCompletion D ∈J I ->
  query_ok s D (needProp env) -> journal_step (Some (RecordCompletion D)) muts P P' I I' -> inv s' P' I'.
Proof.
  intros Hinv (E1 & E2 & E3 & E4 & E5 & Em)%Record_cases Hiss (Hnd & Hlen & Hq & Hall) [Hc Hmuts HI HPI Hgrow].
  set (ds := needProp env) in *.
  pose proof (inv_issued _ _ _ Hinv _ Hiss : finished s D) as HD.
  assert (Hfin : forall B, finished s B <-> finished s' B) by (intros B; unfold finished; by rewrite E1).
  assert (Hack : forall d, d ∈ ds -> AckFwdDep d D ∈J P').
  { intros d Hd. apply Hmuts. rewrite Em. apply in_journal_app. left. apply in_journal_elem, list_elem_of_fmap. eauto. }
  split.
  - intros B b. rewrite E1. intros Hb.
    eapply att_ok_covers; [exact Hc|by eapply inv_att|by rewrite E2| |done|].
    + rewrite E4. intros HB. destruct (decide (D = B)) as [->|]; [by rewrite lookup_insert_eq|by rewrite lookup_insert_ne].
    + intros [= ->]. by rewrite E4, lookup_insert_eq.
  - intros B b. rewrite E1. intros Hb.
    eapply wait_ok_covers; [exact Hc|exact Hgrow|by eapply inv_wait|by rewrite E3| |done|done].
    intros D' HD'. rewrite E5. cbn. case_decide as Hcase; [right|by left]. destruct Hcase as [-> Hcase]. auto.
  - intros B n e. rewrite E1, E2. apply Hinv.
  - intros B D' fd. rewrite E3. intros Hfd.
    eapply fwd_ok_covers; [exact Hc|by eapply inv_fwd|intros b Hb; exists b; rewrite E1; split; [done|lia]|by rewrite E1|done].
  - intros B D' b. rewrite E5. cbn. intros Hb. assert (Hsome : exists b0, backDeps s !! (D', B) = Some b0).
    { case_decide as Hcase; [|eauto]. destruct Hcase as [-> Hcase]. eauto. }
    destruct Hsome as [b0 Hb0]. destruct (inv_back _ _ _ Hinv _ _ _ Hb0) as (Hf & g & Hg & H1 & H2).
    split; [by rewrite E3|]. rewrite E4. destruct (decide (D = D')) as [<-|Hne].
    + exists true. rewrite lookup_insert_eq. do 2 (split; [done|]). intros -> _.
      case_decide as Hcase; [done|]. apply Hmuts. rewrite Em. apply in_journal_app. right.
      destruct (Nat.eqb_spec (length ds) completionLimit); [by apply in_journal_elem, list_elem_of_singleton|].
      exfalso. apply Hcase. split; [done|]. apply Hall; [lia|done].
    + exists g. rewrite lookup_insert_ne by done. split; [done|]. case_decide as Hcase; [by destruct Hcase|].
      replace b with b0 by congruence. split; [done|]. intros. eapply covers_in; [exact Hc|auto|congruence].
  - intros B. rewrite E4, lookup_insert_Some. intros [[<- _]|[_ HB]]; apply Hfin; [done|by eapply inv_group].
  - intros m [Hm|Hm]%HI.
    + rewrite Em in Hm. apply Record_muts in Hm as [(d & Hd & ->)|[_ ->]]; cbn.
      * destruct (inv_back _ _ _ Hinv _ _ _ (Hq d Hd)) as (Hf & _). split; [by rewrite E3|by apply Hfin].
      * by apply Hfin.
    + eapply (issued_ok_mono s s'); [by rewrite E3|intros B; apply Hfin|by eapply inv_issued].
  - done.
  - assert (Hm : forall B C b, AddBackDep B C b ∈J muts -> False).
    { intros B C b. rewrite Em. by intros [(d & _ & ?)|[_ ?]]%Record_muts. }
    intros B C [H1|H1]%HI [H2|H2]%HI; try by eapply Hm. by eapply inv_kind.
Qed.

(** * Quests *)
Lemma MergeQuest_core q th s muts s' :
  MergeQuest_RollForward q th s = Done muts s' -> muts = th /\ same_core s s'.
Proof.
  unfold MergeQuest_RollForward. intros H. apply bind_Done in H as (cur & s1 & [_ ->]%lookupEntity_Done & H).
  apply bind_Done in H as (u & s2 & H1 & [-> ->]%ret_Done). split; [done|].
  destruct cur as [c|]; [case_match|]; try (apply ret_Done in H1 as [_ ->]); by puts.
Qed.

Lemma EnsureQuest_core q aids b s muts s' :
  EnsureQuestAttempts_RollForward q aids b s = Done muts s' -> muts = ensure_loop q 0 aids /\ same_core s s'.
Proof.
  unfold EnsureQuestAttempts_RollForward. intros H. apply bind_Done in H as (u & s1 & H1 & [-> ->]%ret_Done).
  split; [done|]. destruct b; [by apply ret_Done in H1 as [_ ->]|by eapply MergeQuest_core].
Qed.

Lemma ensure_loop_muts s q i aids m : m ∈J ensure_loop q i aids -> harmless s m.
Proof.
  revert i. induction aids as [|aid aids IH]; intros i; cbn [ensure_loop]; [by intros ?%in_journal_nil|].
  destruct (MaxEnsureAttempts <? i)%nat.
  - by intros [->|(? & ? & ? & _)]%in_journal_singleton.
  - change (?x :: ?l) with ([x] ++ l). intros [[->|(? & ? & ? & _)]%in_journal_singleton|Hm]%in_journal_app; try done.
    by eapply IH.
Qed.

Lemma Timeout_core env t s muts s' :
  TimeoutExecution_RollForward env t s = Done muts s' ->
  s' = s /\ (muts = [] \/ (exists t', muts = [TimeoutExecution t']) \/ exists r, muts = [FinishExecution (T_For t) r]).
Proof. unfold TimeoutExecution_RollForward. intros H. txn_inv H; eauto 10. Qed.

(** * Lists of dependencies *)
Lemma elem_of_aids_of l d : d ∈ aids_of l <-> exists nums, l !! d.1 = Some nums /\ d.2 ∈ nums.
Proof.
  unfold aids_of. rewrite list_elem_of_In, in_concat. destruct d as [q n]. cbn. split.
  - intros (x & Hx & Hd). apply list_elem_of_In, list_elem_of_fmap in Hx as (q' & -> & Hq).
    apply list_elem_of_In, list_elem_of_fmap in Hd as (n' & [= -> ->] & Hn).
    destruct (l !! q') as [nums|]; [eauto|by apply elem_of_nil in Hn].
  - intros (nums & Hq & Hn). exists (map (pair q) nums). rewrite <-!list_elem_of_In. split.
    + apply list_elem_of_fmap. exists q. rewrite Hq. split; [done|].
      rewrite merge_sort_Permutation. apply list_elem_of_fmap. exists (q, nums). split; [done|]. by apply elem_of_map_to_list.
    + by apply list_elem_of_fmap_2.
Qed.

Lemma NoDup_aids_of l : normal l -> NoDup (aids_of l).
Proof.
  intros Hl. unfold aids_of.
  assert (Hk : NoDup (merge_sort string_le (map fst (map_to_list l)))).
  { rewrite merge_sort_Permutation. apply NoDup_fst_map_to_list. }
  induction Hk as [|q ks Hq _ IH]; [constructor|]. cbn. apply NoDup_app. split; [|split; [|done]].
  - apply NoDup_fmap_2; [by intros ? ? [=]|]. destruct (l !! q) as [nums|] eqn:E; [by eapply Hl|constructor].
  - intros d Hd Hd'. apply list_elem_of_fmap in Hd as (n & -> & _).
    apply list_elem_of_In, in_concat in Hd' as (x & Hx & Hd'). apply list_elem_of_In, list_elem_of_fmap in Hx as (q' & -> & Hq').
    apply list_elem_of_In, list_elem_of_fmap in Hd' as (n' & [= <- <-] & _). done.
Qed.

Lemma AddAIDs_spec l ds : normal l -> NoDup ds -> (forall d, d ∈ ds -> d ∉ aids_of l) ->
  normal (AddAIDs l ds) /\ forall d, d ∈ aids_of (AddAIDs l ds) <-> d ∈ aids_of l \/ d ∈ ds.
Proof.
  unfold AddAIDs. revert l. induction ds as [|d ds IH]; intros l Hl Hnd Hdis; cbn.
  { split; [done|]. set_solver. }
  apply NoDup_cons in Hnd as [Hd Hnd].
  assert (Hel : forall x, x ∈ aids_of (<[d.1:=default [] (l !! d.1) ++ [d.2]]> l) <-> x ∈ aids_of l \/ x = d).
  { intros x. rewrite !elem_of_aids_of. destruct (decide (d.1 = x.1)) as [E|Hne].
    - rewrite E, lookup_insert_eq. destruct x as [q n], d as [q' n']. cbn in *. subst q'. split.
      + intros (nums & [= <-] & [Hn|Hn%list_elem_of_singleton]%elem_of_app); [left|right; congruence].
        destruct (l !! q); [eauto|by apply elem_of_nil in Hn].
      + intros [(nums & Hq & Hn)|[= ->]]; eexists; (split; [done|]); rewrite elem_of_app; [left; by rewrite Hq|right; left].
    - rewrite lookup_insert_ne by done. split; [by left|]. intros [?|<-]; done. }
  assert (Hl' : normal (<[d.1:=default [] (l !! d.1) ++ [d.2]]> l)).
  { intros q nums. rewrite lookup_insert_Some. intros [[<- <-]|[_ Hq]]; [|by eapply Hl]. apply NoDup_app. split; [|split].
    - destruct (l !! d.1) eqn:E; [by eapply Hl|constructor].
    - intros n Hn ->%list_elem_of_singleton. apply (Hdis d); [left|]. apply elem_of_aids_of.
      destruct (l !! d.1); [eauto|by apply elem_of_nil in Hn].
    - apply NoDup_singleton. }
  destruct (IH _ Hl' Hnd) as [H1 H2].
  { intros x Hx. rewrite Hel. intros [?| ->]; [|done]. apply (Hdis x); [by right|done]. }
  split; [done|]. intros x. rewrite H2, Hel, elem_of_cons. tauto.
Qed.

(** Renumbering keeps the keys. *)
Lemma imap_fst {A B C} (f : nat -> A -> B) (k : A -> C) (g : B -> C) (l : list A) :
  (forall i x, g (f i x) = k x) -> map g (imap f l) = map k l.
Proof.
  intros H. apply list_eq. intros i. rewrite !list_lookup_fmap, list_lookup_imap. destruct (l !! i); cbn; [|done].
  by rewrite H.
Qed.

Lemma FwdDepsFromList_fst l : map fst (FwdDepsFromList l) = aids_of l.
Proof. unfold FwdDepsFromList. rewrite (imap_fst _ id); [|done]. apply map_id. Qed.

Lemma putFwdDeps_spec A fds s u s' : putFwdDeps A fds s = Done u s' -> NoDup (map fst fds) ->
  attempts s' = attempts s /\ executions s' = executions s /\ groups s' = groups s /\ backDeps s' = backDeps s /\
  quests s' = quests s /\ (forall d fd, (d, fd) ∈ fds -> fwdDeps s' !! (A, d) = Some fd) /\
  (forall B d, B <> A \/ d ∉ map fst fds -> fwdDeps s' !! (B, d) = fwdDeps s !! (B, d)).
Proof.
  revert s. induction fds as [|[d fd] fds IH]; intros s H Hnd; cbn in H, Hnd.
  - apply ret_Done in H as [_ ->]. do 5 (split; [done|]). split; [|done]. by intros d fd ?%elem_of_nil.
  - apply NoDup_cons in Hnd as [Hd Hnd]. apply bind_Done in H as (u1 & s1 & H1 & H). puts.
    apply IH in H as (E1 & E2 & E3 & E4 & E5 & E6 & E7); [|done]. do 5 (split; [done|]). split.
    + intros d' fd' [[= -> ->]|Hin]%elem_of_cons; [|by apply E6].
      rewrite E7 by by right. cbn. by rewrite lookup_insert_eq.
    + intros B d' Hne. rewrite E7; cbn.
      * rewrite lookup_insert_ne; [done|]. intros [= -> ->]. cbn in Hne. rewrite elem_of_cons in Hne. tauto.
      * cbn in Hne. rewrite elem_of_cons in Hne. tauto.
Qed.

(** * The mutations of AddDeps *)
Definition new_dep (A : AID) (atts : AttemptList) (d : AID) : list Mutation :=
  (if in_list atts d then [EnsureAttempt d] else []) ++ [AddBackDep A d true].
Definition content (acc : list Mutation * gmap string (Quest * list Mutation)) (m : Mutation) : Prop :=
  m ∈ acc.1 \/ exists qid q th, acc.2 !! qid = Some (q, th) /\ m ∈ th.

Lemma append_dep_content A atts acc d m :
  content (append_dep A atts acc d) m <-> content acc m \/ m ∈ new_dep A atts d.
Proof.
  unfold append_dep, content. fold (new_dep A atts d). destruct acc as [muts mqs]. cbn.
  destruct (mqs !! d.1) as [[q th]|] eqn:E; cbn; [|rewrite elem_of_app; tauto]. split.
  - intros [?|(qid & q' & th' & Hl & Hm)]; [tauto|]. apply lookup_insert_Some in Hl as [[<- [= <- <-]]|[_ Hl]].
    + apply elem_of_app in Hm as [?|?]; [left; right; eauto|by right].
    + left; right; eauto.
  - intros [[?|(qid & q' & th' & Hl & Hm)]|Hm]; [tauto|right..].
    + destruct (decide (d.1 = qid)) as [<-|Hne].
      * exists d.1, q, (th ++ new_dep A atts d). rewrite lookup_insert_eq, elem_of_app. simplify_eq. auto.
      * exists qid, q', th'. by rewrite lookup_insert_ne.
    + exists d.1, q, (th ++ new_dep A atts d). rewrite lookup_insert_eq, elem_of_app. auto.
Qed.

Lemma foldl_content A atts ds acc m :
  content (foldl (append_dep A atts) acc ds) m <-> content acc m \/ exists d, d ∈ ds /\ m ∈ new_dep A atts d.
Proof.
  revert acc. induction ds as [|d ds IH]; intros acc; cbn; [set_solver|].
  rewrite IH, append_dep_content. setoid_rewrite elem_of_cons. naive_solver.
Qed.

Lemma mergeQuestMap_content qs m : ~ content ([], mergeQuestMap qs) m.
Proof.
  unfold mergeQuestMap. intros [?%elem_of_nil|(qid & q & th & Hl & Hm)]; [done|]. cbn in Hl.
  assert (H : forall m0 : gmap string (Quest * list Mutation), (forall k q th, m0 !! k = Some (q, th) -> th = []) ->
    forall k q th, foldl (fun m q => <[Quest_ID q := (q, [])]> m) m0 qs !! k = Some (q, th) -> th = []).
  { clear. induction qs as [|q0 qs IH]; intros m0 H0; cbn; [done|]. apply IH. intros k q th.
    rewrite lookup_insert_Some. intros [[_ [= _ <-]]|[_ ?]]; [done|eauto]. }
  rewrite (H ∅ ltac:(by intros *; rewrite lookup_empty) _ _ _ Hl) in Hm. by apply elem_of_nil in Hm.
Qed.

Lemma dep_mutations_spec A qs atts ds m :
  (exists d, d ∈ ds /\ m ∈ new_dep A atts d) -> m ∈J dep_mutations A qs atts ds.
Proof.
  intros H. unfold dep_mutations. destruct (foldl _ _ _) as [muts mqs] eqn:E.
  assert (Hc : content (muts, mqs) m) by (rewrite <-E; apply foldl_content; by right).
  destruct Hc as [Hm|(qid & q & th & Hl & Hm)]; apply in_journal_app; [left; by left|right; right].
  exists q, th. split; [|done]. apply list_elem_of_fmap. exists (qid, (q, th)). split; [done|]. by apply elem_of_map_to_list.
Qed.

Lemma dep_mutations_inv A qs atts ds m :
  m ∈J dep_mutations A qs atts ds ->
  (exists d, d ∈ ds /\ m ∈ new_dep A atts d) \/ exists q th, m = MergeQuest q th.
Proof.
  unfold dep_mutations. destruct (foldl _ _ _) as [muts mqs] eqn:E.
  assert (Hc : forall m, content (muts, mqs) m -> exists d, d ∈ ds /\ m ∈ new_dep A atts d).
  { intros m' Hm. rewrite <-E in Hm. apply foldl_content in Hm as [Hm|?]; [by apply mergeQuestMap_content in Hm|done]. }
  rewrite in_journal_app. intros [[Hm|(q & th & Hm & _)]|[Hm|(q & th & Hm & Hm')]].
  - left. apply Hc. by left.
  - destruct (Hc (MergeQuest q th)) as (d & _ & Hd); [by left|]. unfold new_dep in Hd.
    apply elem_of_app in Hd as [Hd|Hd%list_elem_of_singleton]; [|done].
    destruct (in_list atts d); [by apply list_elem_of_singleton in Hd|by apply elem_of_nil in Hd].
  - apply list_elem_of_fmap in Hm as (x & -> & _). eauto.
  - apply list_elem_of_fmap in Hm as ([qid [q' th']] & [= -> ->] & Hl%elem_of_map_to_list). left. apply Hc. right. eauto.
Qed.

(** * New dependencies *)

(** The dependencies [fds] of [A] are new in [s']. *)
Record adds_deps (s s' : Store) (A : AID) (fds : list (AID * FwdDep)) : Prop := {
  ad_att : attempts s' = attempts s;
  ad_exec : executions s' = executions s;
  ad_groups : groups s' = groups s;
  ad_back : backDeps s' = backDeps s;
  ad_new d fd : (d, fd) ∈ fds -> fwdDeps s' !! (A, d) = Some fd;
  ad_fresh d : d ∈ map fst fds -> fwdDeps s !! (A, d) = None;
  ad_old B d : B <> A \/ d ∉ map fst fds -> fwdDeps s' !! (B, d) = fwdDeps s !! (B, d);
}.

Lemma adds_deps_keeps s s' A fds k fd : adds_deps s s' A fds -> fwdDeps s !! k = Some fd -> fwdDeps s' !! k = Some fd.
Proof.
  intros H Hk. destruct k as [B d]. rewrite (ad_old _ _ _ _ H); [done|].
  destruct (decide (B = A)) as [->|]; [|by left]. right. intros Hin. by rewrite (ad_fresh _ _ _ _ H) in Hk.
Qed.

Lemma adds_deps_lookup s s' A fds B d fd : adds_deps s s' A fds -> fwdDeps s' !! (B, d) = Some fd ->
  fwdDeps s !! (B, d) = Some fd \/ (B = A /\ (d, fd) ∈ fds).
Proof.
  intros H Hk. destruct (decide (B = A /\ d ∈ map fst fds)) as [[-> Hin]|Hne].
  - right. split; [done|]. apply list_elem_of_fmap in Hin as ([d' fd'] & -> & Hin). cbn in Hk.
    rewrite (ad_new _ _ _ _ H _ _ Hin) in Hk. by simplify_eq.
  - left. rewrite <-Hk. symmetry. apply (ad_old _ _ _ _ H).
    destruct (decide (B = A)); [right; tauto|by left].
Qed.

(** Mutations that go with new dependencies of [A]. *)
Definition dep_muts_ok (A : AID) (na : bool) (ds : list AID) (muts : list Mutation) : Prop :=
  forall m, m ∈J muts ->
    match m with
    | AddBackDep B D b => B = A /\ D ∈ ds /\ b = na
    | EnsureAttempt _ | MergeQuest _ _ => True
    | _ => False
    end.

Lemma inv_add_fwd s s' P P' I I' A a fds na muts :
  inv s P I -> attempts s !! A = Some a -> adds_deps s s' A fds ->
  (forall d fd, (d, fd) ∈ fds -> 0 <= BitIndex fd /\ ForExecution fd <= CurExecution a) ->
  (forall d, d ∈ map fst fds -> is_Some (attempts s !! d) \/ EnsureAttempt d ∈J P') ->
  dep_muts_ok A na (map fst fds) muts -> journal_step None muts P P' I I' -> inv s' P' I'.
Proof.
  intros Hinv Ha Had Hfds Hds Hok [Hc Hmuts HI HPI Hgrow].
  pose proof (adds_deps_keeps s s' A fds) as Hkeep.
  assert (Hfin : forall D, finished s D -> finished s' D) by (intros D; unfold finished; by rewrite (ad_att _ _ _ _ Had)).
  split.
  - intros B b. rewrite (ad_att _ _ _ _ Had). intros Hb.
    eapply att_ok_covers; [exact Hc|by eapply inv_att|by rewrite (ad_exec _ _ _ _ Had)|by rewrite (ad_groups _ _ _ _ Had)|done|done].
  - intros B b. rewrite (ad_att _ _ _ _ Had). intros Hb.
    eapply wait_ok_covers; [exact Hc|exact Hgrow|by eapply inv_wait|eauto|rewrite (ad_back _ _ _ _ Had); auto|done|done].
  - intros B n e. rewrite (ad_att _ _ _ _ Had), (ad_exec _ _ _ _ Had). apply Hinv.
  - intros B D fd [Hfd|[-> Hin]]%(adds_deps_lookup _ _ _ _ _ _ _ Had).
    + eapply fwd_ok_covers; [exact Hc|by eapply inv_fwd|..]; rewrite ?(ad_att _ _ _ _ Had); [|done|done].
      intros b Hb. exists b. split; [done|lia].
    + destruct (Hfds _ _ Hin) as [H1 H2]. split; [exists a; by rewrite (ad_att _ _ _ _ Had)|]. split; [done|].
      rewrite (ad_att _ _ _ _ Had). apply Hds. apply list_elem_of_fmap. by exists (D, fd).
  - intros B D b. rewrite (ad_back _ _ _ _ Had). intros Hb.
    eapply back_ok_covers; [exact Hc|by eapply inv_back| |by rewrite (ad_groups _ _ _ _ Had)|done].
    intros [fd Hfd]. eauto.
  - intros D. rewrite (ad_groups _ _ _ _ Had). intros HD. by apply Hfin, (inv_group _ _ _ Hinv).
  - intros m [Hm|Hm]%HI.
    + specialize (Hok m Hm). destruct m; try done. destruct Hok as (-> & Hd & _).
      apply list_elem_of_fmap in Hd as ([d fd] & -> & Hd). exists fd. by apply (ad_new _ _ _ _ Had).
    + eapply (issued_ok_mono s s'); [intros k [fd Hk]; eauto|exact Hfin|by eapply inv_issued].
  - done.
  - assert (Hold : forall D b, D ∈ map fst fds -> ~ AddBackDep A D b ∈J I).
    { intros D b HD Hx%(inv_issued _ _ _ Hinv). cbn in Hx. rewrite (ad_fresh _ _ _ _ Had) in Hx by done. by destruct Hx. }
    intros B D [H1|H1]%HI [H2|H2]%HI; try apply Hok in H1; try apply Hok in H2.
    + destruct H1 as (_ & _ & ?), H2 as (_ & _ & ?). congruence.
    + destruct H1 as (-> & HD & _). by eapply Hold.
    + destruct H2 as (-> & HD & _). by eapply Hold.
    + by eapply inv_kind.
Qed.

(** What [filterExisting] and the renumbering leave of a request. *)
Lemma filterExisting_fst A deps s fds s' : filterExisting A (FwdDepsFromList deps) s = Done fds s' ->
  s' = s /\ (normal deps -> NoDup (map fst fds)) /\ Z.of_nat (length fds) <= Z.of_nat (length (aids_of deps)) /\
  (forall d fd, (d, fd) ∈ fds -> 0 <= BitIndex fd) /\
  forall d, d ∈ map fst fds -> d ∈ aids_of deps /\ fwdDeps s !! (A, d) = None.
Proof.
  intros [= <- ->]. split; [done|]. split; [|split; [|split]].
  - intros Hn.
    assert (H : NoDup (map fst (FwdDepsFromList deps))) by (rewrite FwdDepsFromList_fst; by apply NoDup_aids_of).
    eapply sublist_NoDup; [exact H|]. apply (fmap_sublist fst), sublist_filter.
  - rewrite <-FwdDepsFromList_fst, length_map. apply Nat2Z.inj_le, length_filter.
  - intros d fd Hin. apply list_elem_of_filter in Hin as [_ Hin]. unfold FwdDepsFromList in Hin.
    apply list_elem_of_lookup in Hin as [i Hi]. rewrite list_lookup_imap in Hi.
    destruct (aids_of deps !! i); [|done]. injection Hi as _ <-. cbn. unfold u32. apply Z.mod_pos_bound. lia.
  - intros d Hd. apply list_elem_of_fmap in Hd as (x & -> & Hx). apply list_elem_of_filter in Hx as [HN Hx].
    split; [|done]. rewrite <-FwdDepsFromList_fst. by apply list_elem_of_fmap_2.
Qed.

(** Nothing happens. *)
Lemma inv_idle_step s P P' I I' : inv s P I -> journal_step None [] P P' I I' -> inv s P' I'.
Proof.
  intros Hinv Hj. apply (inv_same s s P P' I I' None); try done; try apply Hj.
  intros m [Hm%in_journal_nil|]%(js_issued _ _ _ _ _ _ Hj); [done|by left].
Qed.

Lemma AddFinishedDeps_inv auth qs deps s s' P P' I I' muts :
  inv s P I -> AddFinishedDeps_RollForward auth qs deps s = Done muts s' -> normal deps ->
  (forall d, d ∈ aids_of deps -> is_Some (attempts s !! d)) -> journal_step None muts P P' I I' -> inv s' P' I'.
Proof.
  intros Hinv H Hnormal Hall Hj. unfold AddFinishedDeps_RollForward in H.
  apply bind_Done in H as ([a e] & s1 & H1%catch_Done & H).
  apply verify_cases in H1 as (-> & (Ha & He & Hcur) & _).
  apply bind_Done in H as (fds & s1 & (-> & Hnd & _ & Hbit & Hin)%filterExisting_fst & H).
  case_bool_decide as Hnil.
  { apply ret_Done in H as [-> ->]. by eapply inv_idle_step. }
  apply bind_Done in H as (u & s1 & H1 & [-> ->]%ret_Done).
  set (fds' := map (fun d : AID * FwdDep => (d.1, {| BitIndex := BitIndex d.2; ForExecution := CurExecution a |})) fds) in *.
  assert (Efst : map fst fds' = map fst fds) by (unfold fds'; by rewrite map_map).
  apply putFwdDeps_spec in H1 as (E1 & E2 & E3 & E4 & _ & E6 & E7); [|rewrite Efst; auto].
  eapply (inv_add_fwd s s1 P P' I I' (Auth_Id auth).1 a fds' false); try done.
  - split; try done. rewrite Efst. intros d Hd. by apply Hin.
  - intros d fd Hd. apply list_elem_of_fmap in Hd as ([d' fd'] & [= -> ->] & Hd). cbn. split; [by eapply Hbit|lia].
  - rewrite Efst. intros d Hd. left. by apply Hall, Hin.
  - rewrite Efst. intros m [[Hm|(q & th & Hm & _)]|[Hm|(q & th & Hm & Hm')]]%in_journal_app.
    + apply list_elem_of_fmap in Hm as ([d fd] & -> & Hd). split; [done|]. split; [|done].
      rewrite <-Efst. apply list_elem_of_fmap. by exists (d, fd).
    + by apply list_elem_of_fmap in Hm as (x & ? & _).
    + by apply list_elem_of_fmap in Hm as (q & -> & _).
    + apply list_elem_of_fmap in Hm as (q' & [= -> ->] & _). by apply elem_of_nil in Hm'.
Qed.

(** The dependencies [ds] of execution [n], numbered. *)
Definition numbered (n : Z) (ds : list AID) : list (AID * FwdDep) :=
  imap (fun i d => (d, {| BitIndex := Z.of_nat i; ForExecution := n |})) ds.

Lemma numbered_fst n ds : map fst (numbered n ds) = ds.
Proof. unfold numbered. rewrite (imap_fst _ id); [|done]. apply map_id. Qed.
Lemma elem_of_numbered n ds d fd :
  (d, fd) ∈ numbered n ds <-> exists i, ds !! i = Some d /\ fd = {| BitIndex := Z.of_nat i; ForExecution := n |}.
Proof.
  unfold numbered. rewrite list_elem_of_lookup. setoid_rewrite list_lookup_imap. split.
  - intros [i Hi]. destruct (ds !! i) eqn:E; [|done]. injection Hi as <- <-. eauto.
  - intros (i & Hi & ->). exists i. by rewrite Hi.
Qed.

Lemma dep_muts_of_AddDeps A qs atts ds : dep_muts_ok A true ds (dep_mutations A qs atts ds).
Proof.
  intros m [(d & Hd & Hm)|(q & th & ->)]%dep_mutations_inv; [|done].
  unfold new_dep in Hm. apply elem_of_app in Hm as [Hm|Hm%list_elem_of_singleton].
  - destruct (in_list atts d); [|by apply elem_of_nil in Hm]. by apply list_elem_of_singleton in Hm as ->.
  - by subst m.
Qed.

(** The new dependencies become those of the execution, under a DepMap of
    their number; without any, only the execution is stopped. *)
Record adding (auth : Execution_Auth) (deps : AttemptList) (s s' : Store) (a : Attempt) (e e' : Execution)
    (ds : list AID) : Prop := {
  adding_auth : auth_ok s auth a e;
  adding_executing : a_State a = Attempt_EXECUTING;
  adding_running : e_State e = Execution_RUNNING;
  adding_stopping : e_State e' = Execution_STOPPING;
  adding_exec : executions s' = <[Auth_Id auth := e']> (executions s);
  adding_groups : groups s' = groups s;
  adding_back : backDeps s' = backDeps s;
  adding_nodup : NoDup ds;
  adding_length : Z.of_nat (length ds) <= 2 ^ 32 - 8;
  adding_new d : d ∈ ds -> d ∈ aids_of deps /\ fwdDeps s !! ((Auth_Id auth).1, d) = None;
  adding_att : attempts s' = <[(Auth_Id auth).1 :=
    match ds with [] => a | _ => a_with_DepMap a (Make (Z.of_nat (length ds))) end]> (attempts s);
  adding_fwd d fd : (d, fd) ∈ numbered (CurExecution a) ds -> fwdDeps s' !! ((Auth_Id auth).1, d) = Some fd;
  adding_old B d : B <> (Auth_Id auth).1 \/ d ∉ ds -> fwdDeps s' !! (B, d) = fwdDeps s !! (B, d);
}.

Lemma AddDeps_cases env auth qs atts deps s s' muts :
  AddDeps_RollForward env auth qs atts deps s = Done muts s' -> normal deps -> fits deps ->
  exists a e e' ds, adding auth deps s s' a e e' ds /\
    muts = match ds with [] => [] | _ => dep_mutations (Auth_Id auth).1 qs atts ds end.
Proof.
  intros H Hnormal Hfits. unfold AddDeps_RollForward in H.
  apply bind_Done in H as ([a e'] & s1 & H1 & H).
  apply Invalidate_cases in H1 as (e & Hok & Hex & Hrun & _ & Hstop & _ & E1 & E2 & E3 & E4 & E5 & _).
  apply bind_Done in H as (u & s2 & ((C1 & C2 & C3 & C4 & C5) & _)%ResetExecutionTimeout_core & H).
  apply bind_Done in H as (fds & s2' & (-> & Hnd & Hlen & _ & Hin)%filterExisting_fst & H).
  rewrite C3, E3 in Hin. unfold fits in Hfits. exists a, e, e', (map fst fds).
  assert (Hle : Z.of_nat (length fds) <= 2 ^ 32 - 8) by lia.
  case_bool_decide as Hnil.
  { apply ret_Done in H as [-> ->]. subst fds. cbn. split; [|done].
    split; try done; try congruence; cbn; [constructor|by rewrite C1, E1, insert_id; [|apply Hok]|by intros d fd ?%elem_of_nil]. }
  apply bind_Done in H as (u1 & s3 & H3 & H). txn_inv H. puts.
  rewrite u32_small by (unfold in_u32; lia). cbn [CurExecution a_with_DepMap] in *.
  set (fds' := imap (fun i (d : AID * FwdDep) => (d.1, {| BitIndex := u32 (Z.of_nat i); ForExecution := CurExecution a |})) fds) in *.
  assert (Enum : fds' = numbered (CurExecution a) (map fst fds)).
  { apply list_eq. intros i. unfold fds', numbered. rewrite !list_lookup_imap, list_lookup_fmap.
    destruct (fds !! i) eqn:Ei; [|done]. cbn. apply lookup_lt_Some in Ei. rewrite u32_small by (unfold in_u32; lia). done. }
  rewrite Enum in *. clearbody fds'. clear fds' Enum.
  apply putFwdDeps_spec in H3 as (F1 & F2 & F3 & F4 & _ & F6 & F7); rewrite numbered_fst in *; [|auto].
  split; [|destruct fds; [done|reflexivity]].
  split; cbn; try done; try congruence; try lia.
  - rewrite F2, C2, E2. by rewrite insert_insert_eq.
  - auto.
  - by rewrite length_map.
  - rewrite F1, C1, E1, length_map. destruct fds; done.
  - intros B d Hne. by rewrite F7, C3, E3.
Qed.

Lemma adding_updates auth deps s s' a e e' ds :
  adding auth deps s s' a e e' ds -> ds = [] -> updates s s' (Auth_Id auth).1 a.
Proof.
  intros [] ->. split; try done.
  - intros B n HB. rewrite adding_exec0, lookup_insert_ne; [done|]. intros E. apply HB. by rewrite E.
  - apply map_eq. intros [B d]. apply adding_old0. right. by intros ?%elem_of_nil.
Qed.

Lemma AddDeps_inv env auth qs atts deps s s' P P' I I' muts :
  inv s P I -> AddDeps_RollForward env auth qs atts deps s = Done muts s' -> normal deps -> fits deps ->
  (forall d, d ∈ aids_of deps -> is_Some (attempts s !! d) \/ in_list atts d = true) ->
  journal_step None muts P P' I I' -> inv s' P' I'.
Proof.
  intros Hinv H Hnormal Hfits Hall Hj.
  destruct (AddDeps_cases _ _ _ _ _ _ _ _ H Hnormal Hfits) as (a & e & e' & ds & Hadd & Em).
  pose proof Hadd as [(Ha & He & Hcur) Hex Hrun Hstop Eex Eg Eb Hnd Hlen Hnew Eatt Hfwd Hold].
  pose proof (inv_att _ _ _ Hinv _ _ Ha) as (Hdm & _).
  destruct (decide (ds = [])) as [->|Hds].
  { pose proof (adding_updates _ _ _ _ _ _ _ _ Hadd eq_refl) as Hup. subst muts.
    destruct (Auth_Id auth) as [A n]. cbn in *. subst n.
    eapply (executing_update s s' P P' I I' A a a e e'); try done; [by rewrite Hstop|].
    eapply (wait_ok_same s s' P P' I I' A a); try done; [by eapply inv_wait|apply Hj|apply Hj|apply Hup]. }
  assert (Em' : muts = dep_mutations (Auth_Id auth).1 qs atts ds) by (by destruct ds). clear Em.
  assert (Ea' : attempts s' = <[(Auth_Id auth).1 := a_with_DepMap a (Make (Z.of_nat (length ds)))]> (attempts s)) by (by destruct ds).
  clear Eatt. destruct (Auth_Id auth) as [A n]. cbn in *. subst n muts.
  set (sm := Build_Store (attempts s) (executions s) (fwdDeps s') (groups s) (backDeps s) (quests s) (results s) (timeouts s)).
  assert (Hm : forall d, d ∈ ds -> AddBackDep A d true ∈J P' /\ (in_list atts d = true -> EnsureAttempt d ∈J P')).
  { intros d Hd. split; [|intros HL]; apply Hj, dep_mutations_spec; exists d; (split; [done|]); unfold new_dep;
      [apply elem_of_app; right; left|rewrite HL; left]. }
  assert (Hinv1 : inv sm P' I').
  { eapply (inv_add_fwd s sm P P' I I' A a (numbered (CurExecution a) ds) true); rewrite ?numbered_fst; try done.
    - split; rewrite ?numbered_fst; try done. intros d Hd. by apply Hnew.
    - intros d fd (i & _ & ->)%elem_of_numbered. cbn. lia.
    - intros d Hd. destruct (Hall d) as [?|HL]; [by apply Hnew|by left|right]. by apply Hm.
    - apply dep_muts_of_AddDeps. }
  destruct (depmap_Make (Z.of_nat (length ds))) as (M1 & M2 & M3); [lia|].
  eapply (executing_update sm s' P' P' I' I' A a (a_with_DepMap a (Make (Z.of_nat (length ds)))) e e'); try done.
  - by rewrite Hstop.
  - split; cbn; try done. intros B n HB. rewrite Eex, lookup_insert_ne; congruence.
  - intros _ i Hi _. cbn in Hi. rewrite M2 in Hi.
    destruct (lookup_lt_is_Some_2 ds (Z.to_nat i)) as [d Hd]; [lia|].
    exists d, {| BitIndex := i; ForExecution := CurExecution a |}. cbn.
    split; [apply Hfwd, elem_of_numbered; exists (Z.to_nat i); rewrite Z2Nat.id by lia; done|]. split; [done|]. split; [done|].
    destruct (Hm d) as [? _]; [by eapply list_elem_of_lookup_2|]. split; [by apply Hj|by left].
  - apply journal_step_nil, Hj.
Qed.
