(* ===== verification/DMSystem.v ===== *)
(** The dependency manager as a whole: what EnsureGraphData hands to the
    mutations, and the invariant of every reachable state. *)
From S2P Require Import Prelude BitField DM DMInvariants.
From stdpp Require Import fin_maps.
Local Open Scope Z_scope.

(** * EnsureGraphData *)
Lemma absent_aids_spec gd ds l : absent_aids gd ds = Ret l ->
  (forall d, d ∈ l <-> d ∈ ds /\ gd !! d.1 ≫= (fun q => qn_Attempts q !! d.2) = Some None) /\ (NoDup ds -> NoDup l).
Proof.
  revert l. induction ds as [|d ds IH]; intros l H; cbn in H.
  { injection H as <-. split; [|done]. intros d. by split; [intros ?%elem_of_nil|intros [?%elem_of_nil _]]. }
  destruct (gd !! d.1 ≫= fun q => qn_Attempts q !! d.2) as [st|] eqn:Est; [|done].
  destruct (absent_aids gd ds) as [rest|] eqn:Er; [|done]. injection H as <-.
  destruct (IH _ eq_refl) as [H1 H2]. split.
  - intros x. rewrite elem_of_cons. destruct st as [st|].
    + rewrite H1. split; [tauto|]. intros [[-> |?] E]; [congruence|done].
    + rewrite elem_of_cons, H1. split; [intros [-> |?]; tauto|tauto].
  - intros [Hd Hnd]%NoDup_cons. destruct st; [auto|]. apply NoDup_cons. split; [|auto]. rewrite H1. tauto.
Qed.

Lemma aids_of_empty d : d ∉ aids_of ∅.
Proof. rewrite elem_of_aids_of. intros (nums & H & _). by rewrite lookup_empty in H. Qed.
Lemma normal_empty : normal ∅.
Proof. intros q nums. by rewrite lookup_empty. Qed.

Lemma AddAIDs_empty ds : NoDup ds -> normal (AddAIDs ∅ ds) /\ forall d, d ∈ aids_of (AddAIDs ∅ ds) <-> d ∈ ds.
Proof.
  intros H. destruct (AddAIDs_spec ∅ ds normal_empty H) as [H1 H2]; [intros d _; apply aids_of_empty|].
  split; [done|]. intros d. rewrite H2. split; [|tauto]. intros [?%aids_of_empty|?]; done.
Qed.

Lemma in_list_aids l d : in_list l d = true <-> d ∈ aids_of l.
Proof.
  unfold in_list. rewrite bool_decide_eq_true, elem_of_aids_of. destruct (l !! d.1); cbn; [naive_solver|].
  rewrite elem_of_nil. naive_solver.
Qed.

Lemma allFinished_spec gd d q st : allFinished gd = true -> gd !! d.1 = Some q -> qn_Attempts q !! d.2 = Some st ->
  st = Some Attempt_FINISHED.
Proof.
  unfold allFinished. rewrite forallb_forall. intros H Hq Hst.
  specialize (H (d.1, q)). rewrite <-list_elem_of_In, elem_of_map_to_list in H.
  apply H in Hq as [_ Hall]%andb_true_iff. cbn in Hall. rewrite forallb_forall in Hall.
  specialize (Hall (d.2, st)). rewrite <-list_elem_of_In, elem_of_map_to_list in Hall.
  by apply Hall, bool_decide_eq_true in Hst.
Qed.

Lemma depsFromMissing_spec ex l : normal l ->
  normal (depsFromMissing ex l) /\ (forall d, d ∈ aids_of (depsFromMissing ex l) <-> d ∈ aids_of l /\ ex d = false) /\
  (length (aids_of (depsFromMissing ex l)) <= length (aids_of l))%nat.
Proof.
  intros Hl. pose proof (NoDup_aids_of l Hl) as Hnd. unfold depsFromMissing.
  destruct (AddAIDs_empty (filter (fun d => ex d = false) (aids_of l))) as [H1 H2]; [by apply NoDup_filter|].
  assert (H3 : forall d, d ∈ aids_of (AddAIDs ∅ (filter (fun d => ex d = false) (aids_of l))) <-> d ∈ aids_of l /\ ex d = false).
  { intros d. rewrite H2, list_elem_of_filter. tauto. }
  split; [done|]. split; [done|]. apply submseteq_length, NoDup_submseteq; [by apply NoDup_aids_of|].
  intros d. rewrite H3. tauto.
Qed.

(** What a decision promises to the transaction that carries it out. *)
Definition promises (s : Store) (d : GraphDecision) : Prop :=
  match d with
  | DoJournal muts => forall m, m ∈ muts -> exists q aids b, m = EnsureQuestAttempts q aids b
  | DoAddFinishedDeps _ _ deps => normal deps /\ forall x, x ∈ aids_of deps -> finished s x
  | DoAddDeps _ _ atts deps =>
      normal deps /\ fits deps /\ forall x, x ∈ aids_of deps -> is_Some (attempts s !! x) \/ in_list atts x = true
  | DoNothing => True
  end.

Lemma ensureGraphData_promises blank s0 s gd ex forExecution qs l d :
  older s0 s -> walk_of s0 l gd -> fits l -> normal l ->
  ensureGraphData blank gd ex forExecution qs l = Ret (Ok d) -> promises s d.
Proof.
  intros Hold Hwalk Hfits Hl H. unfold ensureGraphData in H.
  destruct (filterQuestsByNewTemplateData gd qs) as [qs'|]; [|done]. cbn in H. unfold filterAttemptsByDNE in H.
  destruct (existsb _ _); [done|]. destruct (absent_aids gd (aids_of l)) as [absent|] eqn:Eabs; [|done]. cbn in H.
  pose proof (NoDup_aids_of l Hl) as Hnd. apply absent_aids_spec in Eabs as [Habs Hnd'].
  destruct (AddAIDs_empty absent (Hnd' Hnd)) as [_ Hatts].
  destruct (depsFromMissing_spec ex l Hl) as (Hn & Hmem & Hlen).
  destruct forExecution as [auth|].
  - destruct (bool_decide _ || allFinished gd) eqn:Eall.
    + destruct (bool_decide (qs' = []) && _); injection H as <-; [done|]. split; [done|]. intros x Hx.
      apply orb_true_iff in Eall as [Eall%bool_decide_eq_true|Eall].
      { rewrite Eall in Hx. by apply aids_of_empty in Hx. }
      apply Hmem in Hx as [Hx _]. destruct (Hwalk x Hx) as (q & Hq & Hst).
      pose proof (allFinished_spec gd x q _ Eall Hq Hst) as Hf. destruct (attempts s0 !! x) as [a0|] eqn:Ea; [|done].
      destruct (Hold _ _ Ea) as (a & Ha & Hfin). exists a. split; [done|]. apply Hfin. by injection Hf.
    + injection H as <-. split; [done|]. split; [unfold fits in *; lia|]. intros x Hx.
      apply Hmem in Hx as [Hx _]. destruct (Hwalk x Hx) as (q & Hq & Hst).
      destruct (attempts s0 !! x) as [a0|] eqn:Ea.
      * left. destruct (Hold _ _ Ea) as (a & Ha & _). by exists a.
      * right. apply in_list_aids, Hatts, Habs. split; [done|]. by rewrite Hq.
  - injection H as <-. intros m Hm. unfold journalQuestAttempts in Hm.
    apply elem_of_app in Hm as [Hm|Hm]; apply list_elem_of_fmap in Hm as (x & -> & _); eauto.
Qed.

(** * Every step keeps the invariant *)
(** Steps that leave the entities, and journal what the invariant does not
    mention. *)
Lemma quiet_step gone s s' P P' I I' muts :
  inv s P I -> same_core s s' -> (forall m, gone = Some m -> idle m) -> (forall m, m ∈J muts -> harmless s' m) ->
  journal_step gone muts P P' I I' -> inv s' P' I'.
Proof.
  intros Hinv Hs Hg Hm [Hc Hmuts HI HPI Hgrow]. eapply (inv_same s s' P P' I I' gone); eauto.
  intros m [Hx|Hx]%HI; [right; auto|by left].
Qed.

Lemma Timeout_inv env t gone s s' s1 P P' I I' muts :
  inv s P I -> TimeoutExecution_RollForward env t s = Done muts s1 -> same_core s1 s' ->
  (forall m, gone = Some m -> idle m) -> journal_step gone muts P P' I I' -> inv s' P' I'.
Proof.
  intros Hinv (-> & Hm)%Timeout_core Hs Hg Hj. eapply quiet_step; try done. intros m Hx.
  destruct Hm as [-> |[[t' ->]|[r ->]]]; [by apply in_journal_nil in Hx|..].
  all: by apply in_journal_singleton in Hx as [->|(? & ? & ? & _)].
Qed.

(** A MergeQuest never holds another MergeQuest. *)
Definition mergeless (l : list Mutation) : Prop := forall q th, MergeQuest q th ∉ l.
Definition flat (l : list Mutation) : Prop := forall q th, MergeQuest q th ∈ l -> mergeless th.

Lemma mergeless_nil : mergeless [].
Proof. by intros q th ?%elem_of_nil. Qed.
Lemma mergeless_cons m l : (forall q th, m <> MergeQuest q th) -> mergeless l -> mergeless (m :: l).
Proof. intros Hm Hl q th [H|H]%elem_of_cons; [by eapply Hm|by eapply Hl]. Qed.
Lemma mergeless_app k l : mergeless k -> mergeless l -> mergeless (k ++ l).
Proof. intros Hk Hl q th [H|H]%elem_of_app; [by eapply Hk|by eapply Hl]. Qed.
Lemma mergeless_map {A} (f : A -> Mutation) l : (forall x q th, f x <> MergeQuest q th) -> mergeless (map f l).
Proof. intros H q th (x & E & _)%list_elem_of_fmap. by eapply H. Qed.
#[export] Hint Resolve mergeless_nil mergeless_app : luci.
Lemma mergeless_flat l : mergeless l -> flat l.
Proof. intros H q th Hm. by destruct (H q th). Qed.
Lemma flat_app k l : flat k -> flat l -> flat (k ++ l).
Proof. intros Hk Hl q th [H|H]%elem_of_app; [by eapply Hk|by eapply Hl]. Qed.

Lemma ensure_loop_mergeless q i aids : mergeless (ensure_loop q i aids).
Proof.
  revert i. induction aids as [|aid aids IH]; intros i; cbn [ensure_loop]; [auto with luci|].
  destruct (MaxEnsureAttempts <? i)%nat; by apply mergeless_cons; auto with luci.
Qed.

Lemma ending_mergeless A a a' st muts : ending A a a' st muts -> mergeless muts.
Proof. intros []; try apply mergeless_nil; by apply mergeless_cons, mergeless_nil. Qed.

Lemma new_dep_mergeless A atts d : mergeless (new_dep A atts d).
Proof. unfold new_dep. destruct (in_list atts d); by repeat apply mergeless_cons; auto with luci. Qed.

Lemma dep_mutations_flat A qs atts ds : flat (dep_mutations A qs atts ds).
Proof.
  unfold dep_mutations. destruct (foldl _ _ _) as [muts mqs] eqn:E.
  assert (Hc : forall q th, ~ content (muts, mqs) (MergeQuest q th)).
  { intros q th Hm. rewrite <-E in Hm. apply foldl_content in Hm as [Hm|(d & _ & Hd)];
      [by apply mergeQuestMap_content in Hm|by eapply new_dep_mergeless]. }
  apply flat_app; [apply mergeless_flat; intros q th Hm; apply (Hc q th); by left|].
  intros q th ([qid [q' th']] & [= -> ->] & Hl%elem_of_map_to_list)%list_elem_of_fmap q0 th0 Hm.
  apply (Hc q0 th0). right. eauto.
Qed.

Lemma RollForward_merges env m s muts s' :
  RollForward env m s = Done muts s' ->
  match m with MergeQuest _ th => muts = th | _ => mergeless muts end.
Proof.
  destruct m; cbn [RollForward]; intros H.
  - apply AckFwdDep_cases in H as (a & fd & _ & _ & [(_ & -> & _)|(_ & _ & _ & b & a' & _ & _ & _ & _ & _ & H)]); [auto with luci|].
    destruct H as [(_ & _ & _ & _ & ->)|(_ & _ & _ & ->)]; auto with luci. by apply mergeless_cons; auto with luci.
  - apply AddBackDep_cases in H as (_ & _ & _ & _ & _ & ->). destruct (_ && _); auto with luci; by apply mergeless_cons; auto with luci.
  - unfold EnsureAttempt_RollForward in H. txn_inv H; subst; auto with luci; by apply mergeless_cons; auto with luci.
  - apply Schedule_cases in H as (a & _ & [(_ & -> & _)|(_ & a1 & e1 & s1 & _ & _ & _ & _ & _ & _ & _ & -> & _)]); auto with luci.
  - apply FinishExecution_cases in H as (a & e & _ & _ & [(_ & -> & _)|(_ & _ & _ & a' & e' & _ & _ & _ & _ & _ & _ & _ & H)]); [auto with luci|].
    by eapply ending_mergeless.
  - apply Record_cases in H as (_ & _ & _ & _ & _ & ->). apply mergeless_app; [by apply mergeless_map|].
    destruct (_ =? _)%nat; [by apply mergeless_cons; auto with luci|auto with luci].
  - apply Timeout_core in H as (_ & [-> |[[t' ->]|[r ->]]]); [auto with luci|by apply mergeless_cons; auto with luci..].
  - by apply MergeQuest_core in H as [-> _].
  - apply EnsureQuest_core in H as [-> _]. apply ensure_loop_mergeless.
Qed.

Lemma RollForward_flat env m s muts s' I :
  RollForward env m s = Done muts s' -> flat I -> m ∈ I -> flat muts.
Proof.
  intros H Hflat Hi. pose proof (RollForward_merges _ _ _ _ _ H) as Hm. apply mergeless_flat.
  destruct m; try done. subst. by eapply Hflat.
Qed.

Lemma MergeQuest_inv q th s s' P P' I I' muts :
  inv s P I -> MergeQuest_RollForward q th s = Done muts s' -> MergeQuest q th ∈ I -> mergeless th ->
  journal_step (Some (MergeQuest q th)) muts P P' I I' -> inv s' P' I'.
Proof.
  intros Hinv (-> & Hs)%MergeQuest_core Hi Hth [Hc Hmuts HI HPI Hgrow].
  apply (inv_same s s' P P' I I' (Some (MergeQuest q th))); try done; [by intros m [= <-]|].
  intros m [[Hm|(q' & th' & Hm & Hm')]|Hm]%HI; [left; right; eauto|by destruct (Hth q' th')|by left].
Qed.

Lemma RollForward_inv env m s s' P P' I I' muts :
  inv s P I -> flat I -> RollForward env m s = Done muts s' -> runnable env s m -> m ∈ I ->
  journal_step (Some m) muts P P' I I' -> inv s' P' I'.
Proof.
  intros Hinv Hflat H Hr Hi Hj. pose proof (in_journal_elem _ _ Hi) as HiJ. destruct m; cbn [RollForward] in H.
  - by eapply AckFwdDep_inv.
  - by eapply AddBackDep_inv.
  - by eapply EnsureAttempt_inv.
  - by eapply Schedule_inv.
  - refine (FinishExecution_inv env _ _ _ s s' P P' I I' muts Hinv H _ Hj). by intros m [= <-].
  - by eapply RecordCompletion_inv.
  - refine (Timeout_inv env _ _ s s' s' P P' I I' muts Hinv H (same_core_refl s') _ Hj). by intros m [= <-].
  - eapply MergeQuest_inv; try done. by eapply Hflat.
  - apply EnsureQuest_core in H as [-> Hs].
    refine (quiet_step _ s s' P P' I I' _ Hinv Hs _ _ Hj); [by intros m [= <-]|]. intros m. apply ensure_loop_muts.
Qed.

Lemma run_decision_inv env d s s' P P' I I' muts :
  inv s P I -> promises s d -> run_decision env d s = Done muts s' -> journal_step None muts P P' I I' -> inv s' P' I'.
Proof.
  intros Hinv Hp H Hj. destruct d as [l|auth qs deps|auth qs atts deps|]; cbn in H, Hp.
  - apply ret_Done in H as [-> ->]. apply (quiet_step None s s P P' I I' l); try done.
    intros m [Hm|(q & th & Hm & _)]; apply Hp in Hm as (? & ? & ? & ?); by subst.
  - destruct Hp as [Hn Hf]. eapply AddFinishedDeps_inv; try done. intros x Hx.
    destruct (Hf x Hx) as (a & Ha & _). by exists a.
  - destruct Hp as (Hn & Hf & Hall). by eapply AddDeps_inv.
  - apply ret_Done in H as [-> ->]. by eapply inv_idle_step.
Qed.

Lemma run_decision_flat env d s s' muts : promises s d -> run_decision env d s = Done muts s' -> flat muts.
Proof.
  intros Hp H. destruct d as [l|auth qs deps|auth qs atts deps|]; cbn in H, Hp.
  - apply ret_Done in H as [-> ->]. apply mergeless_flat. intros q th Hm. by apply Hp in Hm as (? & ? & ? & ?).
  - unfold AddFinishedDeps_RollForward in H. txn_inv H; subst; [by apply mergeless_flat, mergeless_nil|].
    apply flat_app; [by apply mergeless_flat, mergeless_map|].
    intros q th (x & [= -> ->] & _)%list_elem_of_fmap. apply mergeless_nil.
  - unfold AddDeps_RollForward in H. txn_inv H; subst; [by apply mergeless_flat, mergeless_nil|]. apply dep_mutations_flat.
  - apply ret_Done in H as [-> _]. by apply mergeless_flat, mergeless_nil.
Qed.

(** The invariant of the system. *)
Record ok (w : World) : Prop := {
  ok_inv : inv (store w) (pending w) (issued w);
  ok_flat : flat (issued w);
  ok_issued : pending w ⊆ issued w;
}.

Section System.
Context (blank : string -> Quest) (normalized : JsonResult -> result string JsonResult) (afd : bool).

(** A transaction that was not in the journal. *)
Lemma ok_more w muts s' :
  ok w -> flat muts ->
  (journal_step None muts (pending w) (muts ++ pending w) (issued w) (muts ++ issued w) ->
   inv s' (muts ++ pending w) (muts ++ issued w)) ->
  ok (commit w (pending w) muts s').
Proof.
  intros [Hinv Hflat HPI] Hm H. split; cbn.
  - apply H, journal_more, Hinv.
  - by apply flat_app.
  - set_solver.
Qed.

Lemma step_ok w w' : ok w -> step blank normalized afd w w' -> ok w'.
Proof.
  intros Hok Hs. pose proof Hok as [Hinv Hflat HPI]. inversion Hs; subst; clear Hs.
  - rewrite Hp in *. assert (Hi : m ∈ issued w) by set_solver. split; cbn.
    + eapply RollForward_inv; try done. apply journal_once; [|apply Hinv].
      intros q th ->. by apply RollForward_merges in Hrun.
    + apply flat_app; [by eapply RollForward_flat|done].
    + set_solver.
  - apply ok_more; [done|by eapply RollForward_flat|]. intros _.
    eapply RollForward_inv; try done. apply journal_more, Hinv.
  - apply bind_Done in Hrun as (l & s1 & H1 & H2). txn_inv H2. puts.
    assert (Hm : mergeless l).
    { destruct (Timeout_core _ _ _ _ _ H1) as (_ & [-> |[[t' ->]|[r ->]]]); [auto with luci|by apply mergeless_cons; auto with luci..]. }
    apply ok_more; [done|by apply mergeless_flat|]. intros Hj. by eapply (Timeout_inv env t None _ _ s1).
  - apply ok_more; [done|by apply mergeless_flat, mergeless_cons; auto with luci|]. intros Hj.
    eapply (quiet_step None); try done. by intros m [->|(? & ? & ? & _)]%in_journal_singleton.
  - apply ok_more; [done| |by eapply Activate_inv].
    apply Activate_cases in Hrun as (a & e & e' & -> & _). apply mergeless_flat, mergeless_nil.
  - apply ok_more; [done| |by eapply FinishAttempt_inv].
    unfold FinishAttempt_RollForward in Hrun. txn_inv Hrun. subst. apply mergeless_flat, mergeless_nil.
  - assert (Hpr : promises (store w) d) by by eapply ensureGraphData_promises.
    apply ok_more; [done|by eapply run_decision_flat|by eapply run_decision_inv].
Qed.

Lemma empty_ok : ok empty_world.
Proof. split; cbn; [apply inv_empty|by apply mergeless_flat, mergeless_nil|done]. Qed.

Lemma reachable_ok w : reachable blank normalized afd w -> ok w.
Proof.
  revert w. apply (rtc_ind_r ok empty_world); [apply empty_ok|]. intros w w' _ Hs Hok. by eapply step_ok.
Qed.
End System.

(** * Dependencies that are acknowledged in time

    As long as no dependencies on finished attempts are recorded behind the
    DepMap's back (AddFinishedDeps), the bits of a DepMap are exactly the
    dependencies of the current execution, and a set bit is a finished one. *)
Definition bit_of (s : Store) (A : AID) (a : Attempt) (i : Z) (D : AID) : Prop :=
  exists fd, fwdDeps s !! (A, D) = Some fd /\ BitIndex fd = i /\ ForExecution fd = CurExecution a.

Record exact (s : Store) : Prop := {
  exact_unique A D1 D2 fd1 fd2 :
    fwdDeps s !! (A, D1) = Some fd1 -> fwdDeps s !! (A, D2) = Some fd2 ->
    ForExecution fd1 = ForExecution fd2 -> BitIndex fd1 = BitIndex fd2 -> D1 = D2;
  exact_bound A a D i :
    attempts s !! A = Some a -> active a -> bit_of s A a i D -> i < BitField.size (DepMap a);
  exact_set A a i :
    attempts s !! A = Some a -> active a -> 0 <= i < BitField.size (DepMap a) -> bit (data (DepMap a)) i = true ->
    exists D, bit_of s A a i D /\ finished s D;
}.

Lemma exact_empty : exact empty_store.
Proof. split; intros *; cbn; by rewrite lookup_empty. Qed.

(** How an active attempt of [s'] comes from [s]. *)
Definition from (s : Store) (A : AID) (a' : Attempt) : Prop :=
  (exists a, attempts s !! A = Some a /\ active a /\ CurExecution a' = CurExecution a /\
     BitField.size (DepMap a') = BitField.size (DepMap a) /\
     forall i, 0 <= i < BitField.size (DepMap a) -> bit (data (DepMap a')) i = true ->
       bit (data (DepMap a)) i = true \/ exists D, bit_of s A a i D /\ finished s D) \/
  (BitField.size (DepMap a') = 0 /\ forall D fd, fwdDeps s !! (A, D) = Some fd -> ForExecution fd <> CurExecution a').

Lemma from_same s A a a' : attempts s !! A = Some a -> active a -> CurExecution a' = CurExecution a ->
  DepMap a' = DepMap a -> from s A a'.
Proof. intros Ha Hact Hc Hd. left. exists a. rewrite Hd. do 4 (split; [done|]). auto. Qed.

Section Keep.
Context (s s' : Store).
Hypothesis Hex : exact s.
Hypothesis Hf : fwdDeps s' = fwdDeps s.
Hypothesis Hfin : forall D, finished s D -> finished s' D.

Lemma exact_keep :
  (forall A a', attempts s' !! A = Some a' -> active a' -> from s A a') -> exact s'.
Proof.
  intros Hfrom. split.
  - intros A D1 D2 fd1 fd2. rewrite Hf. apply Hex.
  - intros A a' D i Ha' Hact (fd & Hfd & Hi & Hcur). rewrite Hf in Hfd.
    destruct (Hfrom A a' Ha' Hact) as [(a & Ha & Ha0 & Hc & Hs & _)|[_ H]]; [|by destruct (H D fd)].
    rewrite Hs. eapply (exact_bound s Hex A a D); try done. exists fd. split; [done|]. split; [done|]. congruence.
  - intros A a' i Ha' Hact Hi Hbit.
    destruct (Hfrom A a' Ha' Hact) as [(a & Ha & Ha0 & Hc & Hs & Hset)|[H _]]; [|lia].
    rewrite Hs in Hi. assert (Hold : exists D, bit_of s A a i D /\ finished s D).
    { destruct (Hset i Hi Hbit); [|done]. by eapply exact_set. }
    destruct Hold as (D & (fd & Hfd & Hidx & Hfor) & HD). exists D. split; [|auto].
    exists fd. rewrite Hf, Hc. done.
Qed.

Lemma exact_same : attempts s' = attempts s -> exact s'.
Proof. intros E. apply exact_keep. intros A a'. rewrite E. intros Ha Hact. by eapply from_same. Qed.

Lemma exact_update A a' : attempts s' = <[A := a']> (attempts s) -> (active a' -> from s A a') -> exact s'.
Proof.
  intros E HA. apply exact_keep. intros B b. rewrite E, lookup_insert_Some.
  intros [[<- <-]|[_ Hb]] Hact; [auto|by eapply from_same].
Qed.
End Keep.

Lemma updates_finished s s' A a a' : attempts s !! A = Some a -> attempts s' = <[A := a']> (attempts s) ->
  (a_State a = Attempt_FINISHED -> a_State a' = Attempt_FINISHED) -> forall D, finished s D -> finished s' D.
Proof.
  intros Ha E Hst D (d & Hd & Hfd). destruct (decide (A = D)) as [<-|Hne].
  - exists a'. rewrite E, lookup_insert_eq. split; [done|]. apply Hst. congruence.
  - exists d. by rewrite E, lookup_insert_ne.
Qed.

Lemma ending_exact s s' A a a' st muts :
  exact s -> attempts s !! A = Some a -> a_State a = Attempt_EXECUTING -> updates s s' A a' ->
  CurExecution a' = CurExecution a -> ending A a a' st muts -> exact s'.
Proof.
  intros Hex Ha Hrun Hup Hcur Hend. eapply (exact_update s s'); [done|apply Hup| |apply Hup|].
  - eapply updates_finished; [done|apply Hup|]. congruence.
  - intros Hact. assert (Hd : DepMap a' = DepMap a).
    { destruct Hend; [destruct Hact; congruence|destruct Hact; congruence|done..]. }
    eapply from_same; [done|by left|done|done].
Qed.

Lemma FinishExecution_exact env eid Res s s' muts :
  exact s -> FinishExecution_RollForward env eid Res s = Done muts s' -> exact s'.
Proof.
  intros Hex (a & e & Ha & _ & [(-> & _)|(Hrun & _ & _ & a' & e' & Hup & _ & _ & _ & _ & Hcur & _ & Hend)])%FinishExecution_cases; [done|].
  by eapply ending_exact.
Qed.

(** A wakeup comes when every dependency of the execution has finished. *)
Definition deps_done (s : Store) (A : AID) (a : Attempt) : Prop :=
  forall D fd, fwdDeps s !! (A, D) = Some fd -> ForExecution fd = CurExecution a -> finished s D.

Lemma exact_deps_done s P I A a b :
  exact s -> inv s P I -> attempts s !! A = Some a -> active a -> depmap_ok b ->
  BitField.size b = BitField.size (DepMap a) -> All b true = true ->
  (forall i, 0 <= i < BitField.size (DepMap a) -> bit (data b) i = true ->
     bit (data (DepMap a)) i = true \/ exists D, bit_of s A a i D /\ finished s D) -> deps_done s A a.
Proof.
  intros Hex Hinv Ha Hact Hb Hs Hall Hset D fd Hfd Hfor.
  destruct (inv_fwd _ _ _ Hinv _ _ _ Hfd) as (_ & Hi & _).
  assert (Hlt : BitIndex fd < BitField.size (DepMap a)) by (eapply (exact_bound s Hex A a D); try done; by exists fd).
  pose proof (proj1 (depmap_all b Hb) Hall (BitIndex fd)) as Hbit.
  assert (Hold : exists D', bit_of s A a (BitIndex fd) D' /\ finished s D').
  { destruct (Hset (BitIndex fd)) as [H|H]; [lia|apply Hbit; lia| |done]. by eapply exact_set. }
  destruct Hold as (D' & (fd' & Hfd' & Hidx & Hfor') & HD'). replace D with D'; [done|].
  by eapply (exact_unique s Hex A D' D fd' fd); try congruence.
Qed.

Lemma ack_bits s P I A D a fd b :
  inv s P I -> AckFwdDep A D ∈J I -> attempts s !! A = Some a -> fwdDeps s !! (A, D) = Some fd ->
  CurExecution a = ForExecution fd -> BF_Set (DepMap a) (BitIndex fd) = Ret b ->
  depmap_ok b /\ BitField.size b = BitField.size (DepMap a) /\
  forall i, 0 <= i < BitField.size (DepMap a) -> bit (data b) i = true ->
     bit (data (DepMap a)) i = true \/ exists D, bit_of s A a i D /\ finished s D.
Proof.
  intros Hinv Hi Ha Hfd Hcur Hb. destruct (inv_att _ _ _ Hinv _ _ Ha) as (Hdm & _).
  destruct (inv_fwd _ _ _ Hinv _ _ _ Hfd) as (_ & Hidx & _).
  destruct (depmap_set _ _ _ Hdm Hidx Hb) as (_ & Hb' & Hs & Hbits). do 2 (split; [done|]).
  intros i Hir. rewrite Hbits by done. intros [Heq%Z.eqb_eq|?]%orb_true_iff; [right|by left].
  exists D. split; [by exists fd|]. by apply (inv_issued _ _ _ Hinv _ Hi).
Qed.

Lemma AckFwdDep_exact env A D s s' P I muts :
  exact s -> inv s P I -> AckFwdDep A D ∈J I -> AckFwdDep_RollForward env A D s = Done muts s' -> exact s'.
Proof.
  intros Hex Hinv Hi (a & fd & Ha & Hfd & Hcase)%AckFwdDep_cases.
  destruct Hcase as [(-> & _)|(Hact & Hcur & _ & b & a' & Hb & Hup & _ & Ecur & _ & Hres)]; [done|].
  destruct (ack_bits _ _ _ _ _ _ _ _ Hinv Hi Ha Hfd Hcur Hb) as (_ & Hs & Hbits).
  eapply (exact_update s s'); [done|apply Hup| |apply Hup|].
  - eapply updates_finished; [done|apply Hup|]. destruct Hact; congruence.
  - intros Hact'. destruct Hres as [(_ & _ & Es & _)|(_ & Es & Ed & _)]; [destruct Hact'; congruence|].
    left. exists a. rewrite Ed. done.
Qed.

Lemma Schedule_exact env A s s' P I muts :
  exact s -> inv s P I -> ScheduleExecution_RollForward env A s = Done muts s' ->
  (forall a, attempts s !! A = Some a -> CurExecution a < 2 ^ 32 - 1) -> exact s'.
Proof.
  intros Hex Hinv (a & Ha & [(-> & _)|(Hst & a1 & e1 & s1 & Hup & Eex & Hrun & Ecur & _ & Ed & _ & _ & Hend)])%Schedule_cases Hmax; [done|].
  destruct (inv_att _ _ _ Hinv _ _ Ha) as (_ & Hn & _ & _ & Hok). unfold state_ok in Hok. rewrite Hst in Hok.
  assert (H1 : exact s1).
  { eapply (exact_update s s1); [done|apply Hup| |apply Hup|].
    - eapply updates_finished; [done|apply Hup|]. congruence.
    - intros _. right. rewrite Ed. split; [apply Hok|]. intros D fd Hfd.
      destruct (inv_fwd _ _ _ Hinv _ _ _ Hfd) as ((a0 & Ha0 & Hle) & _). simplify_eq.
      specialize (Hmax a Ha). rewrite Ecur, u32_small by (unfold in_u32; lia). lia. }
  destruct Hend as [(E1 & E2 & E3 & _)|[reason Hfin]]; [|by eapply FinishExecution_exact].
  eapply (exact_same s1 s'); [done|done| |done]. intros D. unfold finished. by rewrite E1.
Qed.

Lemma AddDeps_exact env auth qs atts deps s s' P I muts :
  exact s -> inv s P I -> AddDeps_RollForward env auth qs atts deps s = Done muts s' -> normal deps -> fits deps ->
  exact s'.
Proof.
  intros Hex Hinv H Hnormal Hfits.
  destruct (AddDeps_cases _ _ _ _ _ _ _ _ H Hnormal Hfits) as (a & e & e' & ds & Hadd & _).
  destruct (decide (ds = [])) as [->|Hds].
  { pose proof (adding_updates _ _ _ _ _ _ _ _ Hadd eq_refl) as Hup. destruct (adding_auth _ _ _ _ _ _ _ _ Hadd) as (Ha & _).
    eapply (exact_update s s'); [done|apply Hup| |apply Hup|].
    - by eapply updates_finished; [|apply Hup|].
    - intros Hact. by eapply from_same. }
  pose proof Hadd as [(Ha & He & Hcur) Hrun He0 _ _ _ _ Hnd Hlen Hnew Eatt Hfwd Hold].
  assert (Ea' : attempts s' = <[(Auth_Id auth).1 := a_with_DepMap a (Make (Z.of_nat (length ds)))]> (attempts s)) by (by destruct ds).
  clear Eatt. set (A := (Auth_Id auth).1) in *.
  destruct (depmap_Make (Z.of_nat (length ds))) as (M1 & M2 & M3); [lia|].
  (* the execution has had no dependencies so far *)
  assert (Hnone : forall D fd, fwdDeps s !! (A, D) = Some fd -> ForExecution fd <> CurExecution a).
  { intros D fd Hfd Hfor. destruct (inv_fwd _ _ _ Hinv _ _ _ Hfd) as (_ & Hi & _).
    assert (Hlt : BitIndex fd < BitField.size (DepMap a)).
    { eapply (exact_bound s Hex A a D); [done|by left|]. by exists fd. }
    destruct (inv_att _ _ _ Hinv _ _ Ha) as (_ & _ & _ & _ & Hok). unfold state_ok in Hok. rewrite Hrun in Hok.
    destruct Hok as (e0 & He1 & _ & Hsz). rewrite Hcur in He1. unfold A in He1. destruct (Auth_Id auth). cbn in He1. simplify_eq.
    rewrite Hsz in Hlt by congruence. lia. }
  assert (Hfin : forall D, finished s D -> finished s' D) by (by eapply updates_finished; [exact Ha|exact Ea'|]).
  assert (Hlk : forall B D fd, fwdDeps s' !! (B, D) = Some fd ->
    (fwdDeps s !! (B, D) = Some fd /\ (B <> A \/ D ∉ ds)) \/
    (B = A /\ exists i, ds !! i = Some D /\ fd = {| BitIndex := Z.of_nat i; ForExecution := CurExecution a |})).
  { intros B D fd Hfd. destruct (decide (B = A)) as [->|HB]; [|left; rewrite Hold in Hfd; auto].
    destruct (decide (D ∈ ds)) as [[i Hi]%list_elem_of_lookup|HD]; [right|left; rewrite Hold in Hfd; auto].
    split; [done|]. exists i. split; [done|].
    assert (Hi' : (D, {| BitIndex := Z.of_nat i; ForExecution := CurExecution a |}) ∈ numbered (CurExecution a) ds)
      by (apply elem_of_numbered; eauto).
    apply Hfwd in Hi'. congruence. }
  split.
  - intros B D1 D2 fd1 fd2 H1 H2 Hfor Hidx.
    apply Hlk in H1 as [[H1 HB1]|[-> (i & Hi & ->)]], H2 as [[H2 HB2]|[HB (j & Hj & ->)]].
    + by eapply (exact_unique s Hex B D1 D2).
    + subst B. cbn in Hfor. by destruct (Hnone D1 fd1).
    + cbn in Hfor. by destruct (Hnone D2 fd2).
    + cbn in Hidx. replace j with i in * by lia. congruence.
  - intros B b D i Hb Hact (fd & Hfd & Hidx & Hfor). rewrite Ea', lookup_insert_Some in Hb.
    apply Hlk in Hfd as [[Hfd _]|[-> (j & Hj & ->)]].
    + destruct Hb as [[<- <-]|[_ Hb]]; [by destruct (Hnone D fd)|]. eapply (exact_bound s Hex B b D); try done. by exists fd.
    + destruct Hb as [[_ <-]|[? _]]; [|done]. cbn in *. rewrite M2. apply lookup_lt_Some in Hj. lia.
  - intros B b i Hb Hact Hi Hbit. rewrite Ea', lookup_insert_Some in Hb. destruct Hb as [[<- <-]|[HB Hb]].
    { cbn in Hbit. by rewrite M3 in Hbit. }
    destruct (exact_set s Hex B b i Hb Hact Hi Hbit) as (D & (fd & Hfd & Hx) & HD). exists D. split; [|auto].
    exists fd. split; [|done]. rewrite Hold; auto.
Qed.

Lemma RollForward_exact env m s s' P I muts :
  exact s -> inv s P I -> RollForward env m s = Done muts s' -> runnable env s m -> m ∈J I -> exact s'.
Proof.
  intros Hex Hinv H Hr Hi.
  assert (Hsame : same_core s s' -> exact s').
  { intros (E1 & E2 & E3 & _). eapply (exact_same s s'); try done. intros D. unfold finished. by rewrite E1. }
  destruct m; cbn [RollForward] in H.
  - by eapply AckFwdDep_exact.
  - apply AddBackDep_cases in H as (E1 & _ & E3 & _). eapply (exact_same s s'); try done.
    intros D. unfold finished. by rewrite E1.
  - unfold EnsureAttempt_RollForward in H. txn_inv H; puts; [done|].
    match goal with |- exact ?t => refine (exact_update s t Hex eq_refl _ ID _ eq_refl _) end; [|by intros [?|?]].
    intros D (d & Hd & Hf). exists d. cbn. rewrite lookup_insert_ne; [done|congruence].
  - by eapply Schedule_exact.
  - by eapply FinishExecution_exact.
  - apply Record_cases in H as (E1 & E2 & E3 & _). eapply (exact_same s s'); try done.
    intros D. unfold finished. by rewrite E1.
  - by apply Timeout_core in H as [-> _].
  - apply MergeQuest_core in H as [_ Hs]. auto.
  - apply EnsureQuest_core in H as [_ Hs]. auto.
Qed.

(** Steps other than AddFinishedDeps keep the DepMaps exact. *)
Section Exact.
Context (blank : string -> Quest) (normalized : JsonResult -> result string JsonResult).

Lemma step_exact w w' : ok w -> exact (store w) -> step blank normalized false w w' -> exact (store w').
Proof.
  intros Hok Hex Hs. pose proof Hok as [Hinv Hflat HPI]. inversion Hs; subst; clear Hs; cbn.
  - eapply RollForward_exact; try done. apply in_journal_elem, HPI. rewrite Hp. set_solver.
  - eapply RollForward_exact; try done. by apply in_journal_elem.
  - apply bind_Done in Hrun as (l & s1 & (-> & _)%Timeout_core & H2). txn_inv H2. puts. by eapply (exact_same (store w)).
  - done.
  - apply Activate_cases in Hrun as (a & e & e' & _ & _ & _ & _ & _ & _ & E1 & _ & E3 & _).
    eapply (exact_same (store w) s); try done. intros D. unfold finished. by rewrite E1.
  - unfold FinishAttempt_RollForward in Hrun. apply bind_Done in Hrun as ([a e'] & s1 & H1 & H).
    apply Invalidate_cases in H1 as (e & (Ha & He & Hcur) & Hrun & _ & _ & _ & _ & E1 & _ & E3 & _).
    apply bind_Done in H as (u & s2 & ((C1 & C2 & C3 & C4 & C5) & _)%ResetExecutionTimeout_core & H).
    txn_inv H. puts. match goal with |- exact ?t =>
      refine (exact_update (store w) t Hex _ _ (Auth_Id auth).1 _ _ _) end; cbn; try congruence.
    + eapply updates_finished; [exact Ha|cbn; by rewrite C1, E1|done].
    + by rewrite C1, E1.
    + intros Hact. by eapply from_same.
  - assert (Hpr : promises (store w) d) by by eapply ensureGraphData_promises.
    destruct d as [l|auth qs deps|auth qs atts deps|]; cbn in Hrun, Hpr.
    + by apply ret_Done in Hrun as [_ ->].
    + by destruct (Hafd eq_refl auth qs deps).
    + destruct Hpr as (Hn & Hf & _). by eapply AddDeps_exact.
    + by apply ret_Done in Hrun as [_ ->].
Qed.

Lemma reachable_exact w : reachable blank normalized false w -> exact (store w).
Proof.
  revert w. apply (rtc_ind_r (fun w => exact (store w)) empty_world); [apply exact_empty|].
  intros w w' Hr Hs Hex. eapply step_exact; [by eapply reachable_ok|done..].
Qed.
End Exact.

(** * How attempts and executions evolve *)
Definition attempt_move (s s' : Attempt_State) : Prop := s' ∈ validAttemptStateEvolution s.
Definition execution_move (s s' : Execution_State) : Prop := s' ∈ validExecutionStateEvolution s.

(** Along the tables, and not at all from a terminal state. *)
Record attempt_evolves (a a' : Attempt) : Prop := {
  ae_moves : rtc attempt_move (a_State a) (a_State a');
  ae_cur : CurExecution a <= CurExecution a';
  ae_terminal : Attempt_Terminal (a_State a) = true -> a' = a;
}.
Record execution_evolves (e e' : Execution) : Prop := {
  ee_moves : rtc execution_move (e_State e) (e_State e');
  ee_terminal : Execution_Terminal (e_State e) = true -> e' = e;
}.
#[export] Instance attempt_evolves_preorder : PreOrder attempt_evolves.
Proof.
  split; [done|]. intros a b c [H1 H2 H3] [H4 H5 H6]. split; [by etrans|lia|].
  intros Ht. rewrite <-(H3 Ht) in Ht |- *. auto.
Qed.
#[export] Instance execution_evolves_preorder : PreOrder execution_evolves.
Proof.
  split; [done|]. intros a b c [H1 H2] [H4 H5]. split; [by etrans|].
  intros Ht. rewrite <-(H2 Ht) in Ht |- *. auto.
Qed.

#[local] Hint Extern 0 (attempt_evolves _ _) => reflexivity : core.
#[local] Hint Extern 0 (execution_evolves _ _) => reflexivity : core.

Record evolves (s s' : Store) : Prop := {
  ev_att A a : attempts s !! A = Some a -> exists a', attempts s' !! A = Some a' /\ attempt_evolves a a';
  ev_exec k e : executions s !! k = Some e -> exists e', executions s' !! k = Some e' /\ execution_evolves e e';
}.
#[export] Instance evolves_preorder : PreOrder evolves.
Proof.
  split; [split; eauto|]. intros s0 s1 s2 [H1 H2] [H3 H4]. split.
  - intros A a Ha. destruct (H1 A a Ha) as (b & Hb & Hab). destruct (H3 A b Hb) as (c & ? & ?).
    exists c. split; [done|by etrans].
  - intros k e He. destruct (H2 k e He) as (f & Hf & Hef). destruct (H4 k f Hf) as (g & ? & ?).
    exists g. split; [done|by etrans].
Qed.

Lemma evolves_one s s' A a a' k e' :
  attempts s !! A = Some a -> attempts s' = <[A := a']> (attempts s) -> attempt_evolves a a' ->
  executions s' = <[k := e']> (executions s) ->
  (forall e, executions s !! k = Some e -> execution_evolves e e') -> evolves s s'.
Proof.
  intros Ha E1 Hae E2 Hee. split.
  - intros B b Hb. rewrite E1. destruct (decide (A = B)) as [<-|Hne].
    + rewrite lookup_insert_eq. simplify_eq. eauto.
    + rewrite lookup_insert_ne by done. eauto.
  - intros j f Hf. rewrite E2. destruct (decide (k = j)) as [<-|Hne].
    + rewrite lookup_insert_eq. eauto.
    + rewrite lookup_insert_ne by done. eauto.
Qed.
Lemma evolves_attempt s s' A a a' :
  attempts s !! A = Some a -> attempts s' = <[A := a']> (attempts s) -> attempt_evolves a a' ->
  executions s' = executions s -> evolves s s'.
Proof.
  intros Ha E1 Hae E2. split; [|rewrite E2; eauto].
  intros B b Hb. rewrite E1. destruct (decide (A = B)) as [<-|Hne].
  - rewrite lookup_insert_eq. simplify_eq. eauto.
  - rewrite lookup_insert_ne by done. eauto.
Qed.
Lemma evolves_same s s' : attempts s' = attempts s -> executions s' = executions s -> evolves s s'.
Proof. intros E1 E2. split; rewrite ?E1, ?E2; eauto. Qed.

(** One move, from a state that is not terminal. *)
Lemma attempt_evolves_move a a' : attempt_move (a_State a) (a_State a') -> CurExecution a <= CurExecution a' ->
  attempt_evolves a a'.
Proof.
  intros Hm Hc. split; [by apply rtc_once|done|]. unfold attempt_move, Attempt_Terminal in *.
  by destruct (validAttemptStateEvolution (a_State a)); [apply elem_of_nil in Hm|].
Qed.
Lemma attempt_evolves_stay a a' : a_State a' = a_State a -> CurExecution a <= CurExecution a' ->
  Attempt_Terminal (a_State a) = false -> attempt_evolves a a'.
Proof. intros Hs Hc Ht. split; [by rewrite Hs|done|congruence]. Qed.
Lemma execution_evolves_move e e' : execution_move (e_State e) (e_State e') -> execution_evolves e e'.
Proof.
  intros Hm. split; [by apply rtc_once|]. unfold execution_move, Execution_Terminal in *.
  by destruct (validExecutionStateEvolution (e_State e)); [apply elem_of_nil in Hm|].
Qed.
Lemma execution_evolves_stay e e' : e_State e' = e_State e -> Execution_Terminal (e_State e) = false ->
  execution_evolves e e'.
Proof. intros Hs Ht. split; [by rewrite Hs|congruence]. Qed.

Lemma execution_ends e e' : Execution_Terminal (e_State e) = false -> Execution_Terminal (e_State e') = true ->
  (e_State e' = Execution_FINISHED -> e_State e = Execution_STOPPING) -> execution_evolves e e'.
Proof.
  intros H1 H2 H3. apply execution_evolves_move. unfold execution_move.
  destruct (e_State e), (e_State e'); try done; try (by discriminate H3); cbn; set_solver.
Qed.

Lemma ending_evolves A a a' st muts : a_State a = Attempt_EXECUTING -> CurExecution a' = CurExecution a ->
  ending A a a' st muts -> attempt_evolves a a'.
Proof.
  intros Ha Hc Hend. apply attempt_evolves_move; [|lia]. unfold attempt_move. rewrite Ha.
  destruct Hend; rewrite Hs; cbn; set_solver.
Qed.

Lemma FinishExecution_evolves env eid Res s s' muts :
  FinishExecution_RollForward env eid Res s = Done muts s' -> evolves s s'.
Proof.
  intros (a & e & Ha & He & [(-> & _)|(Hrun & _ & Hnt & a' & e' & Hup & Eex & _ & Ht & Hfin & Hcur & _ & Hend)])%FinishExecution_cases; [done|].
  eapply (evolves_one s s' eid.1 a a' eid e'); [done|apply Hup|by eapply ending_evolves|done|].
  intros e0 He0. simplify_eq. by apply execution_ends.
Qed.

Lemma AckFwdDep_evolves env A D s s' muts : AckFwdDep_RollForward env A D s = Done muts s' -> evolves s s'.
Proof.
  intros (a & fd & Ha & Hfd & [(-> & _)|(Hact & _ & _ & b & a' & _ & Hup & Eex & Ecur & _ & Hres)])%AckFwdDep_cases; [done|].
  eapply (evolves_attempt s s' A a a'); [done|apply Hup| |done]. destruct Hres as [(_ & Hw & Hs & _)|(_ & Hs & _)].
  - apply attempt_evolves_move; [|lia]. unfold attempt_move. rewrite Hw, Hs. cbn. set_solver.
  - apply attempt_evolves_stay; [done|lia|]. by destruct Hact as [-> | ->].
Qed.

Lemma Schedule_evolves env A s s' P I muts :
  inv s P I -> ScheduleExecution_RollForward env A s = Done muts s' ->
  (forall a, attempts s !! A = Some a -> CurExecution a < 2 ^ 32 - 1) -> evolves s s'.
Proof.
  intros Hinv (a & Ha & [(-> & _)|(Hst & a1 & e1 & s1 & Hup & Eex & Hrun & Ecur & _ & _ & _ & _ & Hend)])%Schedule_cases Hmax; [done|].
  destruct (inv_att _ _ _ Hinv _ _ Ha) as (_ & Hn & _). specialize (Hmax a Ha).
  rewrite u32_small in Ecur by (unfold in_u32; lia). trans s1.
  - eapply (evolves_one s s1 A a a1 (A, CurExecution a1) e1); [done|apply Hup| |done|].
    + apply attempt_evolves_move; [|lia]. unfold attempt_move. rewrite Hst, Hrun. cbn. set_solver.
    + intros e He. destruct (inv_exec _ _ _ Hinv _ _ _ He) as (a0 & Ha0 & Hb & _). simplify_eq. lia.
  - destruct Hend as [(E1 & E2 & _)|[reason Hfin]]; [by apply evolves_same|by eapply FinishExecution_evolves].
Qed.

Lemma RollForward_evolves env m s s' P I muts :
  inv s P I -> RollForward env m s = Done muts s' -> runnable env s m -> evolves s s'.
Proof.
  intros Hinv H Hr. destruct m; cbn [RollForward] in H.
  - by eapply AckFwdDep_evolves.
  - apply AddBackDep_cases in H as (E1 & E2 & _). by apply evolves_same.
  - unfold EnsureAttempt_RollForward in H. txn_inv H; puts; [done|]. split; cbn; [|eauto].
    intros B b Hb. exists b. rewrite lookup_insert_ne; [done|congruence].
  - by eapply Schedule_evolves.
  - by eapply FinishExecution_evolves.
  - apply Record_cases in H as (E1 & E2 & _). by apply evolves_same.
  - by apply Timeout_core in H as [-> _].
  - apply MergeQuest_core in H as [_ (E1 & E2 & _)]. by apply evolves_same.
  - apply EnsureQuest_core in H as [_ (E1 & E2 & _)]. by apply evolves_same.
Qed.

Lemma putFwdDeps_frame A fds s u s' : putFwdDeps A fds s = Done u s' ->
  attempts s' = attempts s /\ executions s' = executions s.
Proof.
  revert s. induction fds as [|[d fd] fds IH]; intros s H; cbn in H; [by apply ret_Done in H as [_ ->]|].
  apply bind_Done in H as (u1 & s1 & H1 & H). puts. by apply IH in H.
Qed.
Lemma AddFinishedDeps_frame auth qs deps s muts s' : AddFinishedDeps_RollForward auth qs deps s = Done muts s' ->
  attempts s' = attempts s /\ executions s' = executions s.
Proof.
  unfold AddFinishedDeps_RollForward. intros H. apply bind_Done in H as ([a e] & s1 & H1%catch_Done & H).
  apply verify_cases in H1 as [-> _]. apply bind_Done in H as (fds & s1 & (-> & _)%filterExisting_fst & H).
  case_bool_decide; [by apply ret_Done in H as [_ ->]|].
  apply bind_Done in H as (u & s1 & H1%putFwdDeps_frame & [_ ->]%ret_Done). done.
Qed.

(** A call of a running execution that stops it. *)
Lemma stopping_evolves s s' auth a a' e e' :
  auth_ok s auth a e -> a_State a = Attempt_EXECUTING -> e_State e = Execution_RUNNING -> e_State e' = Execution_STOPPING ->
  attempts s' = <[(Auth_Id auth).1 := a']> (attempts s) -> executions s' = <[Auth_Id auth := e']> (executions s) ->
  a_State a' = a_State a -> CurExecution a' = CurExecution a -> evolves s s'.
Proof.
  intros (Ha & He & _) Hex Hrun Hstop E1 E2 Hs Hc. eapply (evolves_one s s'); [done|done| |done|].
  - apply attempt_evolves_stay; [done|lia|by rewrite Hex].
  - intros e0 He0. simplify_eq. apply execution_evolves_move. unfold execution_move. rewrite Hrun, Hstop. cbn. set_solver.
Qed.

Section Evolution.
Context (blank : string -> Quest) (normalized : JsonResult -> result string JsonResult) (afd : bool).

Lemma step_evolves w w' : ok w -> step blank normalized afd w w' -> evolves (store w) (store w').
Proof.
  intros Hok Hs. pose proof Hok as [Hinv Hflat HPI]. inversion Hs; subst; clear Hs; cbn.
  - by eapply RollForward_evolves.
  - by eapply RollForward_evolves.
  - apply bind_Done in Hrun as (l & s1 & (-> & _)%Timeout_core & H2). txn_inv H2. puts. by apply evolves_same.
  - done.
  - apply Activate_cases in Hrun as (a & e & e' & _ & (Ha & He & _) & Hex & Hst & Hrun & _ & E1 & E2 & _).
    eapply (evolves_one (store w) s); [done|by rewrite E1, insert_id|done|done|].
    intros e0 He0. simplify_eq. destruct Hst as [[Hst _]|[Hst _]].
    + apply execution_evolves_move. unfold execution_move. rewrite Hst, Hrun. cbn. set_solver.
    + apply execution_evolves_stay; [congruence|by rewrite Hst].
  - unfold FinishAttempt_RollForward in Hrun. apply bind_Done in Hrun as ([a e'] & s1 & H1 & H).
    apply Invalidate_cases in H1 as (e & Hauth & Hex & Hrun & _ & Hstop & _ & E1 & E2 & _).
    apply bind_Done in H as (u & s2 & ((C1 & C2 & _) & _)%ResetExecutionTimeout_core & H).
    txn_inv H. puts. eapply (stopping_evolves (store w) _ auth a _ e e'); [done..|cbn; by rewrite C1, E1|cbn; by rewrite C2|done|done].
  - assert (Hpr : promises (store w) d) by by eapply ensureGraphData_promises.
    destruct d as [l|auth qs deps|auth qs atts deps|]; cbn in Hrun, Hpr.
    + by apply ret_Done in Hrun as [_ ->].
    + apply AddFinishedDeps_frame in Hrun as [E1 E2]. by apply evolves_same.
    + destruct Hpr as (Hn & Hf & _).
      destruct (AddDeps_cases _ _ _ _ _ _ _ _ Hrun Hn Hf) as (a & e & e' & ds & Hadd & _).
      eapply stopping_evolves; [apply Hadd..| |]; by destruct ds.
    + by apply ret_Done in Hrun as [_ ->].
Qed.

Lemma steps_evolve w w' : ok w -> rtc (step blank normalized afd) w w' -> evolves (store w) (store w').
Proof.
  intros Hok H. induction H as [w|w w1 w' Hs _ IH]; [done|].
  trans (store w1); [by apply step_evolves|]. apply IH. by eapply step_ok.
Qed.
End Evolution.
