(* ===== verification/DMDrain.v ===== *)
(** The journal of the dependency manager drains: every mutation that is run
    and deleted takes something away from a measure, whatever the order. *)
From S2P Require Import Prelude BitField DM DMInvariants DMSystem.
From stdpp Require Import fin_maps.
Local Open Scope nat_scope.

(** What a mutation can still set off. *)
Fixpoint weight (m : Mutation) : nat :=
  match m with
  | ScheduleExecution _ | RecordCompletion _ => 1
  | AckFwdDep _ _ | EnsureAttempt _ | FinishExecution _ _ => 2
  | AddBackDep _ _ _ => 4
  | TimeoutExecution t => 3 + Z.to_nat (maxTimeoutAttempts - TimeoutAttempt t)
  | MergeQuest _ th => S (list_sum (map weight th))
  | EnsureQuestAttempts _ aids _ => S (3 * length aids)
  end.
Definition weights (l : list Mutation) : nat := list_sum (map weight l).

Lemma weights_app k l : weights (k ++ l) = weights k + weights l.
Proof. unfold weights. by rewrite map_app, list_sum_app. Qed.
Lemma weights_cons m l : weights (m :: l) = weight m + weights l.
Proof. done. Qed.

(** Back dependencies that a completion has yet to acknowledge. *)
Definition unpropagated (s : Store) : nat :=
  size (filter (fun kv : AID * AID * bool => kv.2 = false) (backDeps s)).
Definition measure (w : World) : nat := weights (pending w) + 3 * unpropagated (store w).

Lemma unpropagated_insert s s' (k : AID * AID) (b : bool) : backDeps s' = <[k := b]> (backDeps s) ->
  unpropagated s' <= unpropagated s + (if b then 0 else 1).
Proof.
  unfold unpropagated. intros ->. destruct b.
  - rewrite map_filter_insert_False by done. rewrite map_filter_delete, map_size_delete. case_match; cbn; lia.
  - rewrite map_filter_insert_True by done. rewrite map_size_insert. case_match; cbn; lia.
Qed.

Lemma size_foldr_delete {A} (m : gmap (AID * AID) A) ks :
  NoDup ks -> (forall k, k ∈ ks -> is_Some (m !! k)) -> size (foldr delete m ks) + length ks = size m.
Proof.
  intros Hnd. induction Hnd as [|k ks Hk Hnd IH]; intros Hm; cbn; [lia|].
  rewrite map_size_delete_Some by (rewrite lookup_foldr_delete_not_elem_of by done; apply Hm; left).
  assert (H : size (foldr delete m ks) + length ks = size m) by (apply IH; intros x Hx; apply Hm; by right).
  assert (0 < size (foldr delete m ks)); [|lia].
  apply Nat.neq_0_lt_0. intros Hz%map_size_empty_inv.
  destruct (Hm k) as [a Ha]; [left|]. rewrite <-(lookup_foldr_delete_not_elem_of m ks k Hk), Hz, lookup_empty in Ha. done.
Qed.

Lemma unpropagated_same s s' : backDeps s' = backDeps s -> unpropagated s' = unpropagated s.
Proof. unfold unpropagated. by intros ->. Qed.

Lemma unpropagated_record s s' D ds :
  NoDup ds -> (forall d, d ∈ ds -> backDeps s !! (D, d) = Some false) ->
  (forall k, backDeps s' !! k = if decide (k.1 = D /\ k.2 ∈ ds) then Some true else backDeps s !! k) ->
  unpropagated s' + length ds = unpropagated s.
Proof.
  intros Hnd Hds Hs'. unfold unpropagated. rewrite <-(length_map (pair D) ds).
  rewrite <-(size_foldr_delete (filter (fun kv : AID * AID * bool => kv.2 = false) (backDeps s)) (map (pair D) ds)).
  - do 2 f_equal. apply map_eq. intros k. apply option_eq. intros b.
    rewrite lookup_foldr_delete_Some, !map_lookup_filter_Some, Hs', list_elem_of_fmap. cbn. split.
    + case_decide as Hk; intros [Hb Hf]; [congruence|]. split; [|done]. intros (d & -> & Hd). by apply Hk.
    + intros (Hk & Hb & Hf). rewrite decide_False; [done|]. intros [HD Hd]. apply Hk. exists k.2. split; [|done].
      destruct k. cbn in *. congruence.
  - apply NoDup_fmap_2; [by intros ? ? [=]|done].
  - intros k (d & -> & Hd)%list_elem_of_fmap. exists false. apply map_lookup_filter_Some. auto.
Qed.

Lemma weights_ensure_loop q i aids : (i <= S MaxEnsureAttempts)%nat ->
  weights (ensure_loop q i aids) + length aids `min` (S MaxEnsureAttempts - i) <= S (3 * length aids).
Proof.
  unfold MaxEnsureAttempts. revert i. induction aids as [|aid aids IH]; intros i Hi; [cbn; lia|]. cbn [ensure_loop].
  unfold MaxEnsureAttempts. destruct (Nat.ltb_spec 10 i); rewrite weights_cons; cbn [weight length].
  - replace (11 - i) with 0 by lia. rewrite Nat.min_0_r. change (weights []) with 0. lia.
  - specialize (IH (S i)). unfold MaxEnsureAttempts in IH. lia.
Qed.

Lemma weights_map_Ack D ds : weights (map (fun d => AckFwdDep d D) ds) = 2 * length ds.
Proof. induction ds as [|d ds IH]; [done|]. cbn [map length]. rewrite weights_cons, IH. cbn. lia. Qed.

Lemma weights_ending A a a' st muts : ending A a a' st muts -> weights muts <= 1.
Proof. intros []; cbn; lia. Qed.

Lemma RollForward_weight env m s muts s' :
  RollForward env m s = Done muts s' -> runnable env s m ->
  weights muts + 3 * unpropagated s' < weight m + 3 * unpropagated s.
Proof.
  destruct m; cbn [RollForward]; intros H Hr.
  - apply AckFwdDep_cases in H as (a & fd & _ & _ & [(-> & -> & _)|(_ & _ & _ & b & a' & _ & Hup & _ & _ & _ & Hres)]); [cbn; lia|].
    rewrite (unpropagated_same s s') by apply Hup. destruct Hres as [(_ & _ & _ & _ & ->)|(_ & _ & _ & ->)]; cbn; lia.
  - apply AddBackDep_cases in H as (_ & _ & _ & _ & Hb & ->). apply unpropagated_insert in Hb.
    destruct NeedsAck, (default false (groups s !! To)); cbn in *; lia.
  - unfold EnsureAttempt_RollForward in H. txn_inv H; puts; cbn; [lia|]. rewrite (unpropagated_same s) by done. lia.
  - apply Schedule_cases in H as (a & _ & [(-> & -> & _)|(_ & a1 & e1 & s1 & Hup & _ & _ & _ & _ & _ & _ & -> & Hend)]); [cbn; lia|].
    rewrite (unpropagated_same s s'); [cbn; lia|]. rewrite <-(up_back _ _ _ _ Hup).
    destruct Hend as [(_ & _ & _ & _ & ->)|[reason (a2 & e2 & _ & _ & Hf)%FinishExecution_cases]]; [done|].
    destruct Hf as [(-> & _)|(_ & _ & _ & a' & e' & Hup' & _)]; [done|apply Hup'].
  - apply FinishExecution_cases in H as (a & e & _ & _ & [(-> & -> & _)|(_ & _ & _ & a' & e' & Hup & _ & _ & _ & _ & _ & _ & Hend)]); [cbn; lia|].
    rewrite (unpropagated_same s s') by apply Hup. apply weights_ending in Hend. cbn. lia.
  - destruct Hr as (Hnd & Hlen & Hq & _). apply Record_cases in H as (_ & _ & _ & _ & Hb & ->).
    apply unpropagated_record in Hb; [|done..]. rewrite weights_app, weights_map_Ack. unfold completionLimit in *.
    destruct (Nat.eqb_spec (length (needProp env)) 64); cbn; lia.
  - destruct t as [eid st att dl]. unfold TimeoutExecution_RollForward in H. cbn in *.
    txn_inv H; puts; cbn [weights map list_sum weight foldr]; try lia; cbn.
    apply andb_true_iff in E2 as [_ Hlt%Z.ltb_lt]. cbn in Hlt. unfold maxTimeoutAttempts in *. lia.
  - apply MergeQuest_core in H as (-> & _ & _ & _ & _ & Hb). rewrite (unpropagated_same s s') by done.
    cbn [weight]. unfold weights. lia.
  - apply EnsureQuest_core in H as (-> & _ & _ & _ & _ & Hb). rewrite (unpropagated_same s s') by done.
    pose proof (weights_ensure_loop q 0 AIDs ltac:(lia)). unfold MaxEnsureAttempts in *. cbn [weight].
    destruct AIDs; cbn in *; lia.
Qed.

(** A mutation of the journal is run, and deleted. *)
Inductive drain (w : World) : World -> Prop :=
| drain_once env l1 m l2 muts s
    (Hp : pending w = l1 ++ m :: l2) (Hr : runnable env (store w) m)
    (Hrun : RollForward env m (store w) = Done muts s) : drain w (commit w (l1 ++ l2) muts s).

Lemma drain_measure w w' : drain w w' -> measure w' < measure w.
Proof.
  intros []. apply RollForward_weight in Hrun; [|done]. unfold measure, commit. cbn [pending store]. rewrite Hp, !weights_app, weights_cons. lia.
Qed.

Lemma drain_step blank normalized afd w w' : drain w w' -> step blank normalized afd w w'.
Proof. intros []. by eapply step_once. Qed.
