(* ===== verification/DMSim.v ===== *)
(** Running the dependency manager: an executable scheduler of the steps of
    DM.v, whose runs are runs of the system.  It answers the datastore queries
    and the graph walk from the store, so that a run is given by the events
    alone. *)
From S2P Require Import Prelude BitField DM DMInvariants.
From stdpp Require Import fin_maps.
Local Open Scope Z_scope.

(** * Queries *)

(** Unpropagated BackDeps of an attempt, up to the limit. *)
Definition waiting_for (s : Store) (For : AID) : list AID :=
  map (fun kv => kv.1.2) (map_to_list (filter (fun kv : AID * AID * bool => kv.1.1 = For /\ kv.2 = false) (backDeps s))).
Definition query (s : Store) (For : AID) : list AID := take completionLimit (waiting_for s For).

Lemma elem_of_waiting_for s For d : d ∈ waiting_for s For <-> backDeps s !! (For, d) = Some false.
Proof.
  unfold waiting_for. rewrite list_elem_of_fmap. split.
  - intros ([[F x] b] & -> & H%elem_of_map_to_list). apply map_lookup_filter_Some in H as [H [H1 H2]]. cbn in *. by subst.
  - intros H. exists (For, d, false). split; [done|]. by apply elem_of_map_to_list, map_lookup_filter_Some.
Qed.

Lemma query_answers s For : query_ok s For (query s For).
Proof.
  unfold query. assert (Hnd : NoDup (waiting_for s For)).
  { apply NoDup_fmap_2_strong; [|apply NoDup_map_to_list]. intros [[F1 x] b1] [[F2 y] b2]. cbn. intros H1 H2 ->.
    apply elem_of_map_to_list, map_lookup_filter_Some in H1 as [_ [E1 E2]], H2 as [_ [E3 E4]]. cbn in *. by subst. }
  split; [|split; [|split]].
  - eapply sublist_NoDup; [exact Hnd|apply sublist_take].
  - rewrite length_take. lia.
  - intros d Hd. apply elem_of_waiting_for. by apply elem_of_take in Hd as (? & ? & _); eapply list_elem_of_lookup_2.
  - intros Hlen d Hd%elem_of_waiting_for. rewrite length_take in Hlen. by rewrite take_ge by lia.
Qed.

(** What the graph walk finds. *)
Definition quest_node (s : Store) (q : string) (nums : list Z) : QuestNode :=
  {| qn_DNE := bool_decide (quests s !! q = None);
     qn_BuiltBy := match quests s !! q with Some x => BuiltBy x | None => ∅ end;
     qn_Attempts := list_to_map (map (fun n => (n, a_State <$> attempts s !! (q, n))) nums) |}.
Definition walk (s : Store) (l : AttemptList) (qs : list Quest) : GraphData :=
  map_imap (fun q nums => Some (quest_node s q nums)) l
  ∪ list_to_map (map (fun q => (Quest_ID q, quest_node s (Quest_ID q) [])) qs).

Lemma walk_finds s l qs : walk_of s l (walk s l qs).
Proof.
  intros d (nums & Hl & Hn)%elem_of_aids_of. exists (quest_node s d.1 nums). split.
  - unfold walk. apply lookup_union_Some_l. by rewrite map_lookup_imap, Hl.
  - cbn. destruct d as [q n]. cbn in *. clear Hl. induction nums as [|x nums IH]; [by apply elem_of_nil in Hn|]. cbn.
    destruct (decide (x = n)) as [->|Hne]; [by rewrite lookup_insert_eq|]. rewrite lookup_insert_ne by done.
    apply IH. by apply elem_of_cons in Hn as [?|?].
Qed.

(** * Events *)
Inductive Event :=
| Run (n : nat)       (* the n-th mutation of the journal is run, and deleted *)
| Again (n : nat)     (* the n-th mutation ever journaled is run once more *)
| Expire (t : TimeoutExec)
| Notify (eid : EID) (r : Result)
| Activate (auth : Execution_Auth) (tok : bytes)
| Finish (auth : Execution_Auth) (d : JsonResult)
| Ensure (forExecution : option Execution_Auth) (qs : list Quest) (l : AttemptList).

Section Sim.
Context (blank : string -> Quest) (normalized : JsonResult -> result string JsonResult) (env : Env) (afd : bool).

Definition env_for (np : list AID) : Env :=
  {| now := now env; randomToken := randomToken env; MakeDistributor := MakeDistributor env; needProp := np |}.

(** The environment for a mutation, if it may run. *)
Definition surroundings (s : Store) (m : Mutation) : option Env :=
  match m with
  | RecordCompletion For => Some (env_for (query s For))
  | ScheduleExecution For =>
      match attempts s !! For with
      | Some a => if CurExecution a <? 2 ^ 32 - 1 then Some env else None
      | None => Some env
      end
  | _ => Some env
  end.

Lemma surroundings_runnable s m e : surroundings s m = Some e -> runnable e s m.
Proof.
  destruct m; cbn; try done.
  - destruct (attempts s !! For) as [a|]; [|intros _ a Ha; done].
    destruct (Z.ltb_spec (CurExecution a) (2 ^ 32 - 1)); [|done]. intros _ a' [= <-]. lia.
  - intros [= <-]. apply query_answers.
Qed.

Definition known (s : Store) (forExecution : option Execution_Auth) (d : AID) : bool :=
  match forExecution with
  | Some auth => bool_decide (is_Some (fwdDeps s !! ((Auth_Id auth).1, d)))
  | None => false
  end.

Definition no_finished (d : GraphDecision) : bool := match d with DoAddFinishedDeps _ _ _ => false | _ => true end.

Definition committed (w : World) (rest : list Mutation) (r : tres (list Mutation)) : option World :=
  match r with Done muts s => Some (commit w rest muts s) | _ => None end.

Definition sim (w : World) (ev : Event) : option World :=
  let s := store w in
  match ev with
  | Run n =>
      m ← pending w !! n;
      e ← surroundings s m;
      committed w (take n (pending w) ++ drop (S n) (pending w)) (RollForward e m s)
  | Again n => m ← issued w !! n; e ← surroundings s m; committed w (pending w) (RollForward e m s)
  | Expire t =>
      committed w (pending w) ((muts ← TimeoutExecution_RollForward env t; _ ← delTimeout (T_For t); mret muts) s)
  | Notify eid r => Some (commit w (pending w) (FinishExecutionFn normalized eid r) s)
  | Activate auth tok => committed w (pending w) (ActivateExecution_RollForward env auth tok s)
  | Finish auth d => committed w (pending w) (FinishAttempt_RollForward env auth d s)
  | Ensure forExecution qs l =>
      if bool_decide (fits l) && bool_decide (map_Forall (fun _ nums => NoDup nums) l) then
        match ensureGraphData blank (walk s l qs) (known s forExecution) forExecution qs l with
        | Ret (Ok d) => if afd || no_finished d then committed w (pending w) (run_decision env d s) else None
        | _ => None
        end
      else None
  end.

Definition sims (w : World) (evs : list Event) : option World :=
  foldl (fun w ev => w ≫= fun w => sim w ev) (Some w) evs.

Lemma committed_Some w rest r w' : committed w rest r = Some w' -> exists muts s, r = Done muts s /\ w' = commit w rest muts s.
Proof. destruct r; cbn; [intros [= <-]; eauto|done..]. Qed.

Lemma sim_step w ev w' : sim w ev = Some w' -> step blank normalized afd w w'.
Proof.
  destruct ev; cbn [sim]; intros H.
  - apply bind_Some in H as (m & Hm & (e & He & (muts & s & Hr & ->)%committed_Some)%bind_Some).
    eapply (step_once _ _ _ w e); [|by apply surroundings_runnable|done]. by rewrite take_drop_middle.
  - apply bind_Some in H as (m & Hm & (e & He & (muts & s & Hr & ->)%committed_Some)%bind_Some).
    eapply (step_again _ _ _ w e); [by eapply list_elem_of_lookup_2|by apply surroundings_runnable|done].
  - apply committed_Some in H as (muts & s & Hr & ->). by eapply step_timeout.
  - injection H as <-. apply step_notify.
  - apply committed_Some in H as (muts & s & Hr & ->). by eapply step_activate.
  - apply committed_Some in H as (muts & s & Hr & ->). by eapply step_finish.
  - destruct (bool_decide (fits l)) eqn:Hf; [|done]. case_bool_decide as Hn; [|done]. cbn [andb] in H.
    destruct (ensureGraphData _ _ _ _ _ _) as [[d|]|] eqn:Hd; try done.
    destruct (afd || no_finished d) eqn:Ha; [|done]. apply committed_Some in H as (muts & s & Hr & ->).
    eapply (step_ensure _ _ _ w env (store w) (walk (store w) l qs)); try done.
    + intros x a Hx. eauto.
    + apply walk_finds.
    + by eapply bool_decide_eq_true.
    + intros ->. by destruct d.
Qed.

Lemma sims_steps w evs w' : sims w evs = Some w' -> rtc (step blank normalized afd) w w'.
Proof.
  unfold sims. revert w. induction evs as [|ev evs IH]; intros w; cbn [foldl].
  - intros [= ->]. done.
  - change (Some w ≫= (fun w => sim w ev)) with (sim w ev). destruct (sim w ev) as [w1|] eqn:E.
    + intros H. eapply rtc_l; [by eapply sim_step|by apply IH].
    + intros H. exfalso. clear -H. induction evs; cbn in H; [done|auto].
Qed.

Lemma sims_reachable evs w : sims empty_world evs = Some w -> reachable blank normalized afd w.
Proof. apply sims_steps. Qed.
End Sim.
