(* ===== verification/DMTheorems.v ===== *)
(** What the dependency manager guarantees, with runs of it as examples. *)
From S2P Require Import Prelude BitField DM DMInvariants DMSystem DMDrain DMSim.
From stdpp Require Import fin_maps.
Local Open Scope Z_scope.

(** * Examples

    A distributor that takes every task, three quests [a], [b] and [c] of one
    attempt each, and results that need no normalization. *)
Module Ex.
Local Open Scope string_scope.
Definition desc : Quest_Desc := Build_Quest_Desc "dist" "{}" "{}" (Build_Retry 1 0 0 0) 10 20 30.
Definition quest (s : string) : Quest := Build_Quest s desc ∅ 0.
Definition dist : Distributor := Build_Distributor (fun _ _ _ => ("token", 5, None)) (fun _ _ => Ok None).
Definition env : Env := Build_Env 100 [7] (fun _ => Ok (dist, "version")) [].
Definition norm (d : JsonResult) : result string JsonResult := Ok d.
Definition A : AID := ("a", 1).
Definition B : AID := ("b", 1).
Definition C : AID := ("c", 1).
Definition auth (x : AID) (tok : Z) : Execution_Auth := Build_Execution_Auth (x, 1) [tok].
Definition answer : JsonResult := Build_JsonResult "{}" 2 None.
Definition success : Result := Build_Result (Some answer) None.
Definition run (afd : bool) (evs : list Event) : World := default empty_world (sims quest norm env afd empty_world evs).
Definition runs (afd : bool) (evs : list Event) : bool := match sims quest norm env afd empty_world evs with Some _ => true | None => false end.
Definition state_of (w : World) (x : AID) : option Attempt_State := a_State <$> attempts (store w) !! x.
Definition att (w : World) (x : AID) : Attempt := default (MakeAttempt 0) (attempts (store w) !! x).

Lemma state_of_att w x st : state_of w x = Some st -> attempts (store w) !! x = Some (att w x) /\ a_State (att w x) = st.
Proof. unfold state_of, att. destruct (attempts (store w) !! x); [|done]. by intros [= <-]. Qed.
Lemma run_reachable afd evs : runs afd evs = true -> reachable quest norm afd (run afd evs).
Proof.
  unfold runs, run. destruct (sims _ _ _ _ _ _) eqn:E; [|done]. intros _. by eapply sims_reachable.
Qed.
Lemma run_step afd evs ev : runs afd (evs ++ [ev]) = true -> step quest norm afd (run afd evs) (run afd (evs ++ [ev])).
Proof.
  unfold runs, run, sims. rewrite foldl_app. cbn. destruct (foldl _ _ evs) as [w|]; [|done]. cbn.
  destruct (sim _ _ _ _ w ev) eqn:E; [|done]. intros _. by eapply sim_step.
Qed.

(** Both executions run. *)
Definition started : list Event :=
  [Ensure None [quest "a"; quest "b"] {["a" := [1]; "b" := [1]]};
   Run 0; Run 0; Run 0; Run 0; Run 0; Run 0;
   Activate (auth A 7) [9]; Activate (auth B 7) [8]].
(** [a] depends on [b], and ends its execution; the journal is empty then. *)
Definition depends : list Event := started ++ [Ensure (Some (auth A 9)) [] {["b" := [1]]}].
Definition waits : list Event := depends ++ [Run 0; Notify (A, 1) success; Run 0].
(** [b] finishes, which wakes [a] up. *)
Definition acked : list Event :=
  waits ++ [Finish (auth B 8) answer; Notify (B, 1) success; Run 0; Run 0].
Definition resumed : list Event := acked ++ [Run 0].

(** [b] has finished, its completion is still in the journal; [a] declares it
    as a dependency. *)
Definition declares : list Event :=
  started ++ [Finish (auth B 8) answer; Notify (B, 1) success; Run 0; Ensure (Some (auth A 9)) [] {["b" := [1]]}].
(** The back dependency is recorded, the completion runs. *)
Definition panics : list Event := declares ++ [Run 0; Run 0].
(** Before that, [a] also declares a dependency on [c], and ends its
    execution. *)
Definition races : list Event :=
  declares ++ [Ensure (Some (auth A 9)) [quest "c"] {["c" := [1]]}; Notify (A, 1) success; Run 0; Run 1; Run 1].
Definition spurious : list Event := races ++ [Run 0].
End Ex.

Example resumed_runs : Ex.runs false Ex.resumed = true.
Proof. vm_compute. reflexivity. Qed.
Example waits_state : Ex.state_of (Ex.run false Ex.waits) Ex.A = Some Attempt_WAITING.
Proof. vm_compute. reflexivity. Qed.
Example acked_pending : pending (Ex.run false Ex.acked) = [AckFwdDep Ex.A Ex.B].
Proof. vm_compute. reflexivity. Qed.
Example acked_state : Ex.state_of (Ex.run false Ex.acked) Ex.A = Some Attempt_WAITING.
Proof. vm_compute. reflexivity. Qed.
Example resumed_state : Ex.state_of (Ex.run false Ex.resumed) Ex.A = Some Attempt_SCHEDULING.
Proof. vm_compute. reflexivity. Qed.

(** * The invariant *)

(** C32. Whatever order the transactions run in, and however often a mutation is repeated,
    attempts, executions, dependencies and the journal stay consistent: every state is what
    its executions and its DepMap say, and for every dependency that a running or waiting
    attempt still needs the acknowledgement is on its way. *)
Theorem reachable_consistent blank normalized afd w :
  reachable blank normalized afd w -> inv (store w) (pending w) (issued w).
Proof. intros H%reachable_ok. apply H. Qed.

Lemma reachable_consistent_witness :
  inv (store (Ex.run false Ex.resumed)) (pending (Ex.run false Ex.resumed)) (issued (Ex.run false Ex.resumed)).
Proof. apply (reachable_consistent Ex.quest Ex.norm false), Ex.run_reachable. vm_compute. reflexivity. Defined.

(** * Nothing is forgotten *)

(** [A] waits for [D], which has not finished and knows about it. *)
Definition waits_for (s : Store) (A D : AID) : Prop :=
  exists a d fd, attempts s !! A = Some a /\ a_State a = Attempt_WAITING /\ attempts s !! D = Some d /\
    a_State d <> Attempt_FINISHED /\ fwdDeps s !! (A, D) = Some fd /\ ForExecution fd = CurExecution a /\
    backDeps s !! (D, A) = Some false.

Lemma unset_bit b : depmap_ok b -> All b true = false -> exists i, 0 <= i < BitField.size b /\ bit (data b) i = false.
Proof.
  intros Hb Hall. destruct (decide (Exists (fun i => bit (data b) i = false) (seqZ 0 (BitField.size b)))) as [H|H].
  - apply Exists_exists in H as (i & Hi%elem_of_seqZ & Hbit). exists i. split; [lia|done].
  - exfalso. apply not_true_iff_false in Hall. apply Hall, depmap_all; [done|]. intros i Hi.
    apply not_false_iff_true. intros Hbit. apply H, Exists_exists. exists i. split; [apply elem_of_seqZ; lia|done].
Qed.

Lemma quiescent_waits s I A a : inv s [] I -> attempts s !! A = Some a -> a_State a = Attempt_WAITING ->
  exists D, waits_for s A D.
Proof.
  intros Hinv Ha Hw. destruct (inv_att _ _ _ Hinv _ _ Ha) as (Hdm & _ & _ & _ & Hok). unfold state_ok in Hok.
  rewrite Hw in Hok. destruct Hok as (_ & Hall & _). destruct (unset_bit _ Hdm Hall) as (i & Hi & Hbit).
  destruct (inv_wait _ _ _ Hinv _ _ Ha (or_intror Hw) i Hi Hbit) as (D & fd & Hfd & _ & Hfor & _ & Hway).
  destruct Hway as [Hx%in_journal_nil|[Hx%in_journal_nil|Hb]]; [done..|].
  destruct (inv_fwd _ _ _ Hinv _ _ _ Hfd) as (_ & _ & [[d Hd]|Hx%in_journal_nil]); [|done].
  exists D, a, d, fd. split; [done|]. split; [done|]. split; [done|]. split; [|done]. intros Hfin.
  destruct (inv_att _ _ _ Hinv _ _ Hd) as (_ & _ & _ & _ & Hok). unfold state_ok in Hok. rewrite Hfin in Hok.
  destruct Hok as ([Hx%in_journal_nil|Hg] & _); [done|].
  destruct (inv_back _ _ _ Hinv _ _ _ Hb) as (_ & g & Hg' & _ & Hrec). simplify_eq.
  by eapply in_journal_nil, Hrec.
Qed.

(** C34. When the journal is empty and dependencies are not cyclic, every attempt has
    finished and said so, or waits, through unfinished attempts that know who waits for
    them, for one whose execution runs or that ended abnormally: no wakeup is lost. *)
Theorem quiescent_progress blank normalized afd w (rank : AID -> nat) A a :
  reachable blank normalized afd w -> pending w = [] ->
  (forall B D fd, fwdDeps (store w) !! (B, D) = Some fd -> (rank D < rank B)%nat) ->
  attempts (store w) !! A = Some a ->
  a_State a = Attempt_FINISHED /\ groups (store w) !! A = Some true \/
  exists D d, rtc (waits_for (store w)) A D /\ attempts (store w) !! D = Some d /\
    ((a_State d = Attempt_EXECUTING /\ exists e, executions (store w) !! (D, CurExecution d) = Some e /\
        Execution_Terminal (e_State e) = false) \/
     (a_State d = Attempt_ABNORMAL_FINISHED /\ AbnormalFin (a_Result d) <> None)).
Proof.
  intros [Hinv _ _]%reachable_ok Hp Hrank. rewrite Hp in Hinv. set (s := store w) in *.
  remember (rank A) as n eqn:En. revert A a En. induction n as [n IH] using lt_wf_ind. intros A a En Ha.
  destruct (inv_att _ _ _ Hinv _ _ Ha) as (_ & _ & _ & _ & Hok). unfold state_ok in Hok.
  destruct (a_State a) eqn:Hst.
  - by destruct Hok as (_ & ?%in_journal_nil & _).
  - right. exists A, a. split; [done|]. split; [done|]. left. destruct Hok as (e & ? & ? & _). eauto.
  - right. destruct (quiescent_waits _ _ _ _ Hinv Ha Hst) as [D Hwait].
    pose proof Hwait as (a0 & d & fd & _ & _ & Hd & Hne & Hfd & _). specialize (Hrank _ _ _ Hfd).
    destruct (IH (rank D) ltac:(lia) D d eq_refl Hd) as [[? _]|(E & e & HDE & Hrest)]; [done|].
    exists E, e. split; [by eapply rtc_l|done].
  - left. by destruct Hok as [[?%in_journal_nil|?] _].
  - right. exists A, a. split; [done|]. split; [done|]. right. split; [done|]. apply Hok.
Qed.


(** [a] waits for [b], whose execution runs. *)
Lemma quiescent_progress_witness :
  exists D d, rtc (waits_for (store (Ex.run false Ex.waits))) Ex.A D /\
    attempts (store (Ex.run false Ex.waits)) !! D = Some d /\
    (a_State d = Attempt_EXECUTING \/ a_State d = Attempt_ABNORMAL_FINISHED).
Proof.
  destruct (Ex.state_of_att _ _ _ waits_state) as [Ha Hst].
  destruct (quiescent_progress Ex.quest Ex.norm false _ (fun x => if decide (x = Ex.A) then 1%nat else 0%nat) Ex.A _
    (Ex.run_reachable false Ex.waits ltac:(vm_compute; reflexivity)) ltac:(vm_compute; reflexivity)
    ltac:(assert (H : map_Forall (fun k (_ : FwdDep) => k = (Ex.A, Ex.B)) (fwdDeps (store (Ex.run false Ex.waits))));
          [eapply bool_decide_eq_true; vm_compute; reflexivity|intros E D fd [= -> ->]%H; vm_compute; lia]) Ha)
    as [[Hf _]|(D & d & H1 & H2 & [[H3 _]|[H3 _]])]; [congruence|exists D, d; auto..].
Defined.

(** * Wakeups *)

(** Calls of executions leave the states of attempts alone. *)
Lemma FinishAttempt_att env auth d s muts s' A a a' :
  FinishAttempt_RollForward env auth d s = Done muts s' -> attempts s !! A = Some a -> attempts s' !! A = Some a' ->
  a_State a' = a_State a.
Proof.
  unfold FinishAttempt_RollForward. intros Hrun Ha Ha'. apply bind_Done in Hrun as ([b e'] & s1 & H1 & H).
  apply Invalidate_cases in H1 as (e & (Hb & _) & _ & _ & _ & _ & _ & E1 & _).
  apply bind_Done in H as (u & s2 & ((C1 & _) & _)%ResetExecutionTimeout_core & H).
  txn_inv H. puts. cbn in Ha'. rewrite C1, E1, lookup_insert_Some in Ha'. destruct Ha' as [[<- <-]|[_ Ha']]; simplify_eq; done.
Qed.

Lemma run_decision_att env d s muts s' A a a' :
  promises s d -> run_decision env d s = Done muts s' -> attempts s !! A = Some a -> attempts s' !! A = Some a' ->
  a_State a' = a_State a.
Proof.
  intros Hp H Ha Ha'. destruct d as [l|auth qs deps|auth qs atts deps|]; cbn in H, Hp.
  - apply ret_Done in H as [_ ->]. congruence.
  - apply AddFinishedDeps_frame in H as [E _]. congruence.
  - destruct Hp as (Hn & Hf & _). destruct (AddDeps_cases _ _ _ _ _ _ _ _ H Hn Hf) as (b & e & e' & ds & Hadd & _).
    destruct (adding_auth _ _ _ _ _ _ _ _ Hadd) as (Hb & _). rewrite (adding_att _ _ _ _ _ _ _ _ Hadd), lookup_insert_Some in Ha'.
    destruct Ha' as [[<- <-]|[_ Ha']]; [|congruence]. simplify_eq. by destruct ds.
  - apply ret_Done in H as [_ ->]. congruence.
Qed.

(** [A] goes from active to SCHEDULING because of [m]: either all of its
    dependencies have finished, or its execution ended abnormally. *)
Definition justified (s s' : Store) (A : AID) (a : Attempt) : Prop :=
  deps_done s A a \/
  (a_State a = Attempt_EXECUTING /\ exists e, executions s' !! (A, CurExecution a) = Some e /\
     e_State e = Execution_ABNORMAL_FINISHED).

Lemma AckFwdDep_wakes env B D s P I muts s' A a a' :
  exact s -> inv s P I -> AckFwdDep B D ∈J I -> AckFwdDep_RollForward env B D s = Done muts s' ->
  attempts s !! A = Some a -> active a -> attempts s' !! A = Some a' -> a_State a' = Attempt_SCHEDULING -> deps_done s A a.
Proof.
  intros Hex Hinv Hi (b & fd & Hb & Hfd & Hcase)%AckFwdDep_cases Ha Hact Ha' Hs.
  destruct Hcase as [(-> & _)|(_ & Hcur & _ & bf & b' & Hset & Hup & _ & _ & _ & Hres)].
  { exfalso. simplify_eq. destruct Hact; congruence. }
  rewrite (up_att _ _ _ _ Hup), lookup_insert_Some in Ha'. destruct Ha' as [[<- <-]|[_ Ha']];
    [|exfalso; simplify_eq; destruct Hact; congruence]. assert (b = a) as -> by congruence.
  destruct Hres as [(Hall & _ & _)|(_ & Es & _)]; [|exfalso; destruct Hact; congruence].
  destruct (ack_bits _ _ _ _ _ _ _ _ Hinv Hi Ha Hfd Hcur Hset) as (Hbf & Hsz & Hbits).
  by eapply exact_deps_done.
Qed.

Lemma FinishExecution_wakes env eid Res s P I muts s' A a a' :
  exact s -> inv s P I -> FinishExecution_RollForward env eid Res s = Done muts s' ->
  attempts s !! A = Some a -> active a -> attempts s' !! A = Some a' -> a_State a' = Attempt_SCHEDULING -> justified s s' A a.
Proof.
  intros Hex Hinv (b & e & Hb & He & Hcase)%FinishExecution_cases Ha Hact Ha' Hs.
  destruct Hcase as [(-> & _)|(Hrun & Hcur & _ & b' & e' & Hup & Eex & _ & _ & _ & _ & _ & Hend)].
  { exfalso. simplify_eq. destruct Hact; congruence. }
  rewrite (up_att _ _ _ _ Hup), lookup_insert_Some in Ha'. destruct Ha' as [[<- <-]|[_ Ha']];
    [|exfalso; simplify_eq; destruct Hact; congruence]. assert (b = a) as -> by congruence.
  destruct Hend; try congruence.
  - right. split; [done|]. exists e'. split; [|done]. rewrite Eex, Hcur. destruct eid. apply lookup_insert_eq.
  - left. eapply (exact_deps_done s P I _ a (DepMap a)); try done; [by eapply inv_att|auto].
Qed.

Lemma RollForward_wakes env m s P I muts s' A a a' :
  exact s -> inv s P I -> m ∈J I -> RollForward env m s = Done muts s' ->
  attempts s !! A = Some a -> active a -> attempts s' !! A = Some a' -> a_State a' = Attempt_SCHEDULING -> justified s s' A a.
Proof.
  intros Hex Hinv Hi H Ha Hact Ha' Hs.
  assert (Hsame : attempts s' = attempts s -> justified s s' A a).
  { intros E. exfalso. destruct Hact; congruence. }
  destruct m; cbn [RollForward] in H.
  - left. by eapply AckFwdDep_wakes.
  - apply AddBackDep_cases in H as (E & _). auto.
  - unfold EnsureAttempt_RollForward in H. txn_inv H; puts; [auto|]. exfalso. cbn in Ha'.
    rewrite lookup_insert_ne in Ha' by congruence. destruct Hact; congruence.
  - apply Schedule_cases in H as (b & Hb & [(-> & _)|(Hst & b1 & e1 & s1 & Hup & _ & Hrun & _ & _ & _ & _ & _ & Hend)]); [auto|].
    exfalso. assert (Hne : For <> A) by (intros ->; simplify_eq; destruct Hact; congruence).
    assert (E1 : attempts s1 !! A = Some a) by (by rewrite (up_att _ _ _ _ Hup), lookup_insert_ne).
    destruct Hend as [(E2 & _)|[reason (c & e & _ & _ & Hf)%FinishExecution_cases]]; [destruct Hact; congruence|].
    destruct Hf as [(-> & _)|(_ & _ & _ & c' & e' & Hup' & _)]; [destruct Hact; congruence|].
    rewrite (up_att _ _ _ _ Hup'), lookup_insert_ne, E1 in Ha' by done. simplify_eq. destruct Hact; congruence.
  - by eapply FinishExecution_wakes.
  - apply Record_cases in H as (E & _). auto.
  - apply Timeout_core in H as [-> _]. auto.
  - apply MergeQuest_core in H as [_ (E & _)]. auto.
  - apply EnsureQuest_core in H as [_ (E & _)]. auto.
Qed.

(** C33. As long as no dependency is declared on an attempt that has finished already, an
    attempt is scheduled again only when every dependency of its execution has finished, or
    when that execution ended abnormally. *)
Theorem wakeup_justified blank normalized w w' A a a' :
  reachable blank normalized false w -> step blank normalized false w w' ->
  attempts (store w) !! A = Some a -> active a ->
  attempts (store w') !! A = Some a' -> a_State a' = Attempt_SCHEDULING ->
  justified (store w) (store w') A a.
Proof.
  intros Hr Hstep Ha Hact Ha' Hs. pose proof (reachable_ok _ _ _ _ Hr) as [Hinv Hflat HPI].
  pose proof (reachable_exact _ _ _ Hr) as Hex.
  assert (Hsame : a_State a' <> a_State a) by (intros E; destruct Hact; congruence).
  inversion Hstep; subst; clear Hstep; cbn in *.
  - eapply RollForward_wakes; try done. apply in_journal_elem, HPI. rewrite Hp. set_solver.
  - eapply RollForward_wakes; try done. by apply in_journal_elem.
  - apply bind_Done in Hrun as (l & s1 & (-> & _)%Timeout_core & H2). txn_inv H2. puts. cbn in Ha'. congruence.
  - congruence.
  - apply Activate_cases in Hrun as (b & e & e' & _ & _ & _ & _ & _ & _ & E1 & _). congruence.
  - by destruct Hsame; eapply FinishAttempt_att.
  - destruct Hsame. eapply run_decision_att; try done. by eapply ensureGraphData_promises.
Qed.

Lemma wakeup_justified_witness :
  justified (store (Ex.run false Ex.acked)) (store (Ex.run false Ex.resumed)) Ex.A (Ex.att (Ex.run false Ex.acked) Ex.A).
Proof.
  destruct (Ex.state_of_att _ _ _ acked_state) as [Ha Hst], (Ex.state_of_att _ _ _ resumed_state) as [Ha' Hst'].
  apply (wakeup_justified Ex.quest Ex.norm _ _ Ex.A _ _
    (Ex.run_reachable false Ex.acked ltac:(vm_compute; reflexivity))
    (Ex.run_step false Ex.acked (Run 0) ltac:(vm_compute; reflexivity)) Ha (or_intror Hst) Ha' Hst').
Defined.

(** * The journal *)

(** Mutations that ask nothing of a distributor or of a caller. *)
Definition internal (m : Mutation) : bool :=
  match m with
  | AckFwdDep _ _ | AddBackDep _ _ _ | EnsureAttempt _ | RecordCompletion _ | MergeQuest _ _ | EnsureQuestAttempts _ _ _ => true
  | _ => false
  end.

Lemma AckFwdDep_runs env A D s P I : exact s -> inv s P I -> AckFwdDep A D ∈J I ->
  exists muts s', AckFwdDep_RollForward env A D s = Done muts s'.
Proof.
  intros Hex Hinv [[fd Hfd] _]%(inv_issued _ _ _ Hinv).
  destruct (inv_fwd _ _ _ Hinv _ _ _ Hfd) as ((a & Ha & _) & Hidx & _).
  destruct (inv_att _ _ _ Hinv _ _ Ha) as (Hdm & _).
  unfold AckFwdDep_RollForward, get, mbind, txn_bind. rewrite Ha, Hfd.
  destruct (negb _ || negb _) eqn:Etest; [by eexists _, _|]. apply active_test in Etest as [Hact Hcur].
  rewrite depmap_isset by done. cbn [lift_outcome mret txn_ret].
  destruct (_ && _) eqn:Eset; [by eexists _, _|].
  assert (Hlt : BitIndex fd < BitField.size (DepMap a)) by (eapply (exact_bound s Hex A a D); try done; by exists fd).
  pose proof (Set_models _ _ _ _ (depmap_models _ Hdm) Hidx) as Hset. rewrite decide_True in Hset by done.
  destruct Hset as (b & -> & _). cbn [lift_outcome mret txn_ret].
  destruct (All b true); cbn [andb]; [|by eexists _, _]. case_bool_decide as Hw; [|by eexists _, _].
  unfold Attempt_ModifyState. cbn in Hw |- *. rewrite Hw. by eexists _, _.
Qed.

Lemma propagate_runs To ds s : exists s', propagate To ds s = Done tt s'.
Proof. revert s. induction ds as [|d ds IH]; intros s; cbn; [eauto|]. apply IH. Qed.

Lemma MergeQuest_runs q th s : exists s', MergeQuest_RollForward q th s = Done th s'.
Proof.
  unfold MergeQuest_RollForward, lookupEntity, mbind, txn_bind. destruct (quests s !! Quest_ID q); [destruct (_ <? _)%nat|]; by eexists.
Qed.

Lemma internal_runnable m s : internal m = true -> exists env, runnable env s m.
Proof.
  intros Hm. destruct m; try done; try (by exists Ex.env). exists (env_for Ex.env (query s For)). apply query_answers.
Qed.
Lemma internal_runs m s P I env : exact s -> inv s P I -> m ∈J I -> internal m = true -> exists muts s', RollForward env m s = Done muts s'.
Proof.
  intros Hex Hinv Hi Hm. destruct m; try done; cbn [RollForward].
  - by eapply AckFwdDep_runs.
  - unfold AddBackDep_RollForward, lookupEntity, mbind, txn_bind. destruct (groups s !! To); by eexists _, _.
  - unfold EnsureAttempt_RollForward, lookupEntity, mbind, txn_bind. destruct (attempts s !! ID); by eexists _, _.
  - unfold RecordCompletion_RollForward, lookupEntity, mbind, txn_bind.
    destruct (propagate_runs For (needProp env) s) as [s1 ->]. destruct (default false (groups s !! For)); by eexists _, _.
  - destruct (MergeQuest_runs q AndThen s) as [s' E]. eauto.
  - unfold EnsureQuestAttempts_RollForward, mbind, txn_bind. destruct DoNotMergeQuest; [by eexists _, _|].
    destruct (MergeQuest_runs q [] s) as [s' ->]. by eexists _, _.
Qed.

Lemma pending_runs blank normalized w m env :
  reachable blank normalized false w -> m ∈ pending w -> internal m = true -> exists muts s', RollForward env m (store w) = Done muts s'.
Proof.
  intros Hr Hm Hint. pose proof (reachable_ok _ _ _ _ Hr) as [Hinv _ HPI].
  apply (internal_runs m (store w) (pending w) (issued w)); [by eapply reachable_exact|done| |done]. by apply in_journal_elem, HPI.
Qed.
Lemma pending_drains blank normalized w m :
  reachable blank normalized false w -> m ∈ pending w -> internal m = true -> exists w', drain w w'.
Proof.
  intros Hr Hm Hint. destruct (internal_runnable m (store w) Hint) as [env He], (pending_runs _ _ _ _ env Hr Hm Hint) as (muts & s' & E).
  apply list_elem_of_split in Hm as (l1 & l2 & Hp). eexists. by eapply drain_once.
Qed.

(** C35. As long as no dependency is declared on an attempt that has finished already, every
    mutation of the journal that needs neither a distributor nor a caller can be run at
    any time: whatever it meets (its environment and the answer of its query), it neither
    panics nor fails, and the transaction takes it out of the journal. *)
Theorem journal_never_sticks blank normalized w m :
  reachable blank normalized false w -> m ∈ pending w -> internal m = true ->
  (exists env, runnable env (store w) m) /\
  forall env, runnable env (store w) m -> exists l1 l2 muts s',
    pending w = l1 ++ m :: l2 /\ RollForward env m (store w) = Done muts s' /\ drain w (commit w (l1 ++ l2) muts s').
Proof.
  intros Hr Hm Hint. split; [by apply internal_runnable|]. intros env He.
  destruct (pending_runs _ _ _ _ env Hr Hm Hint) as (muts & s' & E). apply list_elem_of_split in Hm as (l1 & l2 & Hp).
  exists l1, l2, muts, s'. split; [done|]. split; [done|]. by eapply drain_once.
Qed.

Lemma acked_has_ack : AckFwdDep Ex.A Ex.B ∈ pending (Ex.run false Ex.acked).
Proof. rewrite acked_pending. by apply list_elem_of_singleton. Qed.

Lemma journal_never_sticks_witness : exists l1 l2 muts s',
  pending (Ex.run false Ex.acked) = l1 ++ AckFwdDep Ex.A Ex.B :: l2 /\
  RollForward Ex.env (AckFwdDep Ex.A Ex.B) (store (Ex.run false Ex.acked)) = Done muts s'.
Proof.
  destruct (journal_never_sticks Ex.quest Ex.norm (Ex.run false Ex.acked) (AckFwdDep Ex.A Ex.B)) as [_ H].
  - apply Ex.run_reachable. vm_compute. reflexivity.
  - apply acked_has_ack.
  - reflexivity.
  - destruct (H Ex.env I) as (l1 & l2 & muts & s' & H1 & H2 & _). exists l1, l2, muts, s'. exact (conj H1 H2).
Defined.

(** C36. Running the journal without calls from outside ends: a measure of the mutations and
    of the unpropagated back dependencies bounds the number of transactions, in any order.
    *)
Theorem drain_terminates n w w' : nsteps drain n w w' -> (n + measure w' <= measure w)%nat.
Proof. induction 1 as [|n w w1 w' H%drain_measure _ IH]; lia. Qed.

Lemma drain_terminates_witness : exists w', nsteps drain 1 (Ex.run false Ex.acked) w' /\ (1 + measure w' <= 2)%nat.
Proof.
  assert (Hm : measure (Ex.run false Ex.acked) = 2%nat) by (vm_compute; reflexivity).
  destruct (pending_drains _ _ _ _ (Ex.run_reachable false Ex.acked ltac:(vm_compute; reflexivity)) acked_has_ack eq_refl) as [w' Hd].
  exists w'. split; [by apply nsteps_once|]. rewrite <-Hm. apply drain_terminates. by apply nsteps_once.
Defined.

(** * Dependencies on finished attempts

    AddFinishedDeps records dependencies without a DepMap.  When the completion
    of the dependee has not run yet, its acknowledgement comes all the same. *)

(** A dependency declared on a finished attempt whose completion is still in the
    journal is acknowledged without a bit of its own: the acknowledgement panics for good,
    or wakes up an attempt whose only other dependency does not exist. *)
Theorem finished_deps_race :
  (* the acknowledgement of b panics, and can never be run *)
  (reachable Ex.quest Ex.norm true (Ex.run true Ex.panics) /\
   AckFwdDep Ex.A Ex.B ∈ pending (Ex.run true Ex.panics) /\
   forall env, RollForward env (AckFwdDep Ex.A Ex.B) (store (Ex.run true Ex.panics)) = Crash) /\
  (* or it is taken for the one of c: a is woken up while it waits for c alone,
     which does not exist yet *)
  (reachable Ex.quest Ex.norm true (Ex.run true Ex.races) /\
   step Ex.quest Ex.norm true (Ex.run true Ex.races) (Ex.run true Ex.spurious) /\
   Ex.state_of (Ex.run true Ex.races) Ex.A = Some Attempt_WAITING /\
   Ex.state_of (Ex.run true Ex.spurious) Ex.A = Some Attempt_SCHEDULING /\
   fwdDeps (store (Ex.run true Ex.races)) !! (Ex.A, Ex.C) =
     Some {| BitIndex := 0; ForExecution := CurExecution (Ex.att (Ex.run true Ex.races) Ex.A) |} /\
   attempts (store (Ex.run true Ex.spurious)) !! Ex.C = None).
Proof.
  split; [split; [|split]|split; [|split]].
  - apply Ex.run_reachable. vm_compute. reflexivity.
  - replace (pending (Ex.run true Ex.panics)) with [AckFwdDep Ex.A Ex.B] by (vm_compute; reflexivity).
    by apply list_elem_of_singleton.
  - intros env. vm_compute. reflexivity.
  - apply Ex.run_reachable. vm_compute. reflexivity.
  - apply Ex.run_step. vm_compute. reflexivity.
  - vm_compute. auto.
Qed.

(** * The past does not come back *)

(** No call of the execution succeeds. *)
Definition mute (s : Store) (eid : EID) : Prop :=
  forall auth env, Auth_Id auth = eid ->
    (forall tok muts s', ActivateExecution_RollForward env auth tok s <> Done muts s') /\
    (forall d muts s', FinishAttempt_RollForward env auth d s <> Done muts s') /\
    (forall qs atts deps muts s', AddDeps_RollForward env auth qs atts deps s <> Done muts s') /\
    (forall qs deps muts s', AddFinishedDeps_RollForward auth qs deps s <> Done muts s').

Lemma stopped_mute s eid e : executions s !! eid = Some e ->
  e_State e <> Execution_SCHEDULING -> e_State e <> Execution_RUNNING -> mute s eid.
Proof.
  intros He H1 H2 auth env <-. split; [|split; [|split]].
  - intros tok muts s' (a & e0 & e' & _ & (_ & He0 & _) & _ & Hst & _)%Activate_cases. simplify_eq. destruct Hst as [[? _]|[? _]]; done.
  - intros d muts s' H. unfold FinishAttempt_RollForward in H. apply bind_Done in H as ([a e'] & s1 & H & _).
    apply Invalidate_cases in H as (e0 & (_ & He0 & _) & _ & Hrun & _). congruence.
  - intros qs atts deps muts s' H. unfold AddDeps_RollForward in H. apply bind_Done in H as ([a e'] & s1 & H & _).
    apply Invalidate_cases in H as (e0 & (_ & He0 & _) & _ & Hrun & _). congruence.
  - intros qs deps muts s' H. unfold AddFinishedDeps_RollForward in H. apply bind_Done in H as ([a e'] & s1 & H%catch_Done & _).
    apply verify_cases in H as (_ & (_ & He0 & _) & _ & Hrun & _). congruence.
Qed.

Lemma execution_moves_on s s' : rtc execution_move s s' -> s <> Execution_SCHEDULING -> s <> Execution_RUNNING ->
  s' <> Execution_SCHEDULING /\ s' <> Execution_RUNNING.
Proof.
  induction 1 as [s|s s1 s' H _ IH]; [done|]. intros H1 H2. unfold execution_move in H.
  apply IH; destruct s; cbn in H; try done; intros ->; set_solver.
Qed.

(** Attempts and executions move only along their tables, execution numbers only grow
    and terminal entities never change; once an execution has stopped, no call with its name
    ever succeeds again, whatever the token. *)
Theorem history blank normalized afd w w' :
  reachable blank normalized afd w -> rtc (step blank normalized afd) w w' ->
  evolves (store w) (store w') /\
  forall eid e, executions (store w) !! eid = Some e ->
    e_State e <> Execution_SCHEDULING -> e_State e <> Execution_RUNNING -> mute (store w') eid.
Proof.
  intros Hok%reachable_ok Hs. pose proof (steps_evolve _ _ _ _ _ Hok Hs) as Hev. split; [done|].
  intros eid e He H1 H2. destruct (ev_exec _ _ Hev _ _ He) as (e' & He' & Hm & _).
  destruct (execution_moves_on _ _ Hm H1 H2). by eapply stopped_mute.
Qed.

Lemma history_witness :
  evolves (store (Ex.run false Ex.acked)) (store (Ex.run false Ex.resumed)) /\
  mute (store (Ex.run false Ex.resumed)) (Ex.A, 1).
Proof.
  destruct (history Ex.quest Ex.norm false _ _ (Ex.run_reachable false Ex.acked ltac:(vm_compute; reflexivity))
    (rtc_once _ _ (Ex.run_step false Ex.acked (Run 0) ltac:(vm_compute; reflexivity)))) as [Hev Hmute].
  split; [exact Hev|]. destruct (executions (store (Ex.run false Ex.acked)) !! (Ex.A, 1)) as [e|] eqn:He.
  - assert (Hs : e_State <$> executions (store (Ex.run false Ex.acked)) !! (Ex.A, 1) = Some Execution_FINISHED) by (vm_compute; reflexivity).
    rewrite He in Hs. injection Hs as Hs. apply (Hmute (Ex.A, 1) e He); congruence.
  - exfalso. revert He. vm_compute. discriminate.
Defined.
