(* ===== verification/StreamName.v ===== *)
(** LogDog stream names and paths (logdog/common/types/streamname.go).  Strings
    are their bytes; a byte below 0x80 is a rune of its own, so the loops over
    runes are loops over bytes except where runes are counted. *)
From S2P Require Import Prelude.
Local Open Scope Z_scope.

Definition of_string (s : string) : bytes :=
  map (fun c => Z.of_nat (Ascii.nat_of_ascii c)) (String.list_ascii_of_string s).

Definition StreamNameSep : Z := 47.
Definition StreamPathSep : Z := 43.
Definition MaxStreamNameLength : Z := 4096.

Definition isAlnum (r : Z) : bool :=
  ((65 <=? r) && (r <=? 90)) || ((97 <=? r) && (r <=? 122)) || ((48 <=? r) && (r <=? 57)).

(** [.], [_], [-] and [:]. *)
Definition isPunct (r : Z) : bool := (r =? 46) || (r =? 95) || (r =? 45) || (r =? 58).

(** * Strings of the Go library *)
Fixpoint trim_left (s : bytes) : bytes :=
  match s with c :: s' => if c =? StreamNameSep then trim_left s' else s | [] => [] end.

(** [strings.Trim(s, "/")], which [trimString] spells out as two loops. *)
Definition trimString (s : bytes) : bytes := rev (trim_left (rev (trim_left s))).

(** [strings.Split(s, "/")]. *)
Fixpoint split (s : bytes) : list bytes :=
  match s with
  | [] => [[]]
  | c :: s =>
      if c =? StreamNameSep then [] :: split s
      else match split s with h :: t => (c :: h) :: t | [] => [[c]] end
  end.

(** [strings.Join(l, "/")]. *)
Fixpoint join (l : list bytes) : bytes :=
  match l with
  | [] => []
  | [s] => s
  | s :: l => s ++ StreamNameSep :: join l
  end.

(** [utf8.DecodeRuneInString]: the rune and its width; an invalid encoding is
    U+FFFD of width one, an empty string of width zero. *)
Definition cont (lo hi : Z) (b : Z) : bool := (lo <=? b) && (b <=? hi).
Definition rune_width (s : bytes) : nat :=
  match s with
  | [] => 0%nat
  | b0 :: s =>
      let more (lo hi : Z) (n : nat) :=
        match s with
        | b1 :: s =>
            if cont lo hi b1 && forallb (cont 0x80 0xBF) (take n s) && (n <=? length s)%nat
            then S (S n) else 1%nat
        | [] => 1%nat
        end in
      if b0 <? 0x80 then 1%nat
      else if cont 0xC2 0xDF b0 then more 0x80 0xBF 0%nat
      else if b0 =? 0xE0 then more 0xA0 0xBF 1%nat
      else if b0 =? 0xED then more 0x80 0x9F 1%nat
      else if cont 0xE1 0xEF b0 then more 0x80 0xBF 1%nat
      else if b0 =? 0xF0 then more 0x90 0xBF 2%nat
      else if cont 0xF1 0xF3 b0 then more 0x80 0xBF 2%nat
      else if b0 =? 0xF4 then more 0x80 0x8F 2%nat
      else 1%nat
  end.

(** * Stream names *)
Inductive NameError :=
| ErrEmptyName | ErrTooLong (n : Z) | ErrSegmentStart (at_ : Z) | ErrIllegal (r at_ : Z) | ErrEndsWithSep
| ErrNoSegments | ErrBadFill.

(** The loop of [Validate]: an error, or the last rune.  A rune above 0x7f ends
    it at its first byte, which [ErrIllegal] reports in place of the rune. *)
Fixpoint validate_loop (s : bytes) (idx segmentIdx lastRune : Z) : result NameError Z :=
  match s with
  | [] => Ok lastRune
  | r :: s =>
      if isAlnum r then validate_loop s (idx + 1) segmentIdx r
      else if idx =? segmentIdx then Err (ErrSegmentStart segmentIdx)
      else if r =? StreamNameSep then validate_loop s (idx + 1) (idx + 1) r
      else if isPunct r then validate_loop s (idx + 1) segmentIdx r
      else Err (ErrIllegal r idx)
  end.

(** [None] is a nil error. *)
Definition Validate (s : bytes) : option NameError :=
  match s with
  | [] => Some ErrEmptyName
  | _ =>
      if MaxStreamNameLength <? Z.of_nat (length s) then Some (ErrTooLong (Z.of_nat (length s)))
      else match validate_loop s 0 0 0 with
      | Err e => Some e
      | Ok lastRune => if lastRune =? StreamNameSep then Some ErrEndsWithSep else None
      end
  end.

Definition Construct (parts : list bytes) : bytes :=
  join (map trimString (filter (fun v => v <> []) parts)).

(** [strings.Map] of the disallowed runes to underscores. *)
Fixpoint map_segment (fuel : nat) (s : bytes) : bytes :=
  match fuel, s with
  | S fuel, r :: _ =>
      (if isAlnum r || isPunct r then r else 95) :: map_segment fuel (drop (rune_width s) s)
  | _, _ => []
  end.

Definition starts_alnum (v : bytes) : bool := match v with r :: _ => isAlnum r | [] => false end.

Fixpoint make_segments (fill : bytes) (s : list bytes) (fillValidated : bool) : result NameError (list bytes) :=
  match s with
  | [] => Ok []
  | v :: s =>
      let v := map_segment (length v) v in
      if starts_alnum v then cons v <$> make_segments fill s fillValidated
      else if fillValidated then cons (fill ++ v) <$> make_segments fill s true
      else match Validate fill with
      | Some _ => Err ErrBadFill
      | None => cons (fill ++ v) <$> make_segments fill s true
      end
  end.

Definition MakeStreamName (fill : bytes) (s : list bytes) : result NameError bytes :=
  match s with
  | [] => Err ErrNoSegments
  | _ =>
      s ← make_segments fill s false;
      let result := Construct s in
      match Validate result with Some e => Err e | None => Ok result end
  end.

Definition Trim (s : bytes) : bytes := trimString s.
Definition Join (s o : bytes) : bytes := Trim s ++ [StreamNameSep; StreamPathSep; StreamNameSep] ++ Trim o.
Definition Concat (s : bytes) (o : list bytes) : bytes := Construct (s :: o).
Definition AsPathPrefix (s name : bytes) : bytes := Construct [s; [StreamPathSep]; name].
Definition Segments (s : bytes) : list bytes := match s with [] => [] | _ => split s end.
Definition segmentCount (s : bytes) : Z :=
  match s with [] => 0 | _ => Z.of_nat (length (filter (fun c => c = StreamNameSep) s)) + 1 end.

(** [strings.LastIndex(s, "/")]. *)
Fixpoint LastIndex (s : bytes) (idx : Z) (best : Z) : Z :=
  match s with [] => best | c :: s => LastIndex s (idx + 1) (if c =? StreamNameSep then idx else best) end.

Definition StreamName_Split (s : bytes) : bytes * bytes :=
  let lidx := LastIndex s 0 (-1) in
  if lidx <? 0 then ([], s) else (take (Z.to_nat lidx) s, drop (Z.to_nat (lidx + 1)) s).

(** * Stream paths *)

(** [SplitParts]: [p] is the whole path, [rest] what is left from index [i]. *)
Fixpoint parts_loop (p rest : bytes) (i : nat) (inside sep hasPrefix : bool) (segIdx : nat) (prefix : bytes)
  : bytes * bool * bytes :=
  match rest with
  | [] =>
      if hasPrefix then (prefix, sep, [])
      else (if sep then take segIdx p else p, sep, [])
  | r :: rest' =>
      if hasPrefix then (prefix, sep, rest)
      else if r =? StreamPathSep then parts_loop p rest' (S i) true (negb inside) false segIdx prefix
      else if r =? StreamNameSep then
        if sep then parts_loop p rest' (S i) false sep true i (take segIdx p)
        else parts_loop p rest' (S i) false sep false i prefix
      else parts_loop p rest' (S i) true false false segIdx prefix
  end.

Definition SplitParts (p : bytes) : bytes * bool * bytes := parts_loop p p 0 false false false 0 [].
Definition StreamPath_Split (p : bytes) : bytes * bytes :=
  let '(prefix, _, name) := SplitParts p in (prefix, name).

Definition validateImpl (p : bytes) (complete : bool) : option NameError :=
  let '(prefix, name) := StreamPath_Split p in
  match (if complete || negb (bool_decide (prefix = [])) then Validate prefix else None) with
  | Some e => Some e
  | None => if complete || negb (bool_decide (name = [])) then Validate name else None
  end.
Definition StreamPath_Validate (p : bytes) : option NameError := validateImpl p true.
Definition ValidatePartial (p : bytes) : option NameError := validateImpl p false.

Definition Append (p n : bytes) : bytes := Construct [p; n].
Definition SplitLast (p : bytes) : bytes * bytes :=
  let idx := LastIndex p 0 (-1) in
  if 0 <? idx then (take (Z.to_nat idx) p, drop (Z.to_nat (idx + 1)) p) else ([], p).

Example split_path : StreamPath_Split (of_string "foo/bar/+/baz") = (of_string "foo/bar", of_string "baz").
Proof. reflexivity. Qed.
Example split_partial : SplitParts (of_string "foo/+") = (of_string "foo", true, []).
Proof. reflexivity. Qed.
Example make_name : MakeStreamName (of_string "x") [of_string "a b"; [0xE2; 0x82; 0xAC; 46]] = Ok (of_string "a_b/x_.").
Proof. reflexivity. Qed.
Example bad_names : map Validate [of_string "a//b"; of_string "a/"; of_string "a+"; of_string "a.b/c"] =
  [Some (ErrSegmentStart 2); Some ErrEndsWithSep; Some (ErrIllegal 43 1); None].
Proof. reflexivity. Qed.

(** * What a valid name is *)
Definition name_char (c : Z) : bool := isAlnum c || isPunct c.
Definition segment_ok (s : bytes) : Prop := starts_alnum s = true /\ Forall (fun c => name_char c = true) s.

(** A recursive reading of "every segment is well formed", and the part of it
    that remains inside a segment. *)
Fixpoint tail_ok (s : bytes) : bool :=
  match s with
  | [] => true
  | c :: s => if c =? StreamNameSep then starts_alnum s && tail_ok s else name_char c && tail_ok s
  end.
Definition segs_ok (s : bytes) : bool := starts_alnum s && tail_ok s.

Lemma sep_not_alnum : isAlnum StreamNameSep = false.
Proof. done. Qed.
Lemma name_char_ne_sep c : name_char c = true -> c <> StreamNameSep.
Proof. by intros H ->. Qed.
Lemma name_char_ne_plus c : name_char c = true -> c <> StreamPathSep.
Proof. by intros H ->. Qed.

Lemma split_app_sep a b : split (a ++ StreamNameSep :: b) = split a ++ split b.
Proof.
  induction a as [|c a IH]; [done|]. cbn [app split]. destruct (c =? StreamNameSep); [by rewrite IH|].
  rewrite IH. destruct (split a) as [|h t] eqn:E; [|done].
  exfalso. destruct a as [|d a]; [done|]. cbn in E. repeat case_match; done.
Qed.

Lemma split_no_sep s : Forall (fun c => c <> StreamNameSep) s -> split s = [s].
Proof.
  induction 1 as [|c s Hc _ IH]; [done|]. cbn. rewrite (proj2 (Z.eqb_neq c _)) by done. by rewrite IH.
Qed.

Lemma split_cons s : exists h t, split s = h :: t /\ (h = [] <-> (s = [] \/ head s = Some StreamNameSep))
  /\ (h <> [] -> head h = head s).
Proof.
  destruct s as [|c s]; cbn; [by exists [], []; intuition|].
  destruct (Z.eqb_spec c StreamNameSep) as [->|Hne]; [exists [], (split s); intuition done|].
  destruct (split s) as [|h t]; [exists [c], []|exists (c :: h), t]; cbn; intuition (try done; congruence).
Qed.

Lemma starts_alnum_split s h t : split s = h :: t -> starts_alnum h = starts_alnum s.
Proof.
  destruct s as [|c s]; cbn; [by intros [= <- <-]|].
  destruct (Z.eqb_spec c StreamNameSep) as [->|Hne]; [by intros [= <- <-]|].
  destruct (split s); by intros [= <- <-].
Qed.

Lemma tail_ok_spec s h t :
  split s = h :: t -> (tail_ok s = true <-> Forall (fun c => name_char c = true) h /\ Forall segment_ok t).
Proof.
  revert h t. induction s as [|c s IH]; intros h t; cbn; [by intros [= <- <-]|].
  destruct (split_cons s) as (h' & t' & E & _). pose proof (starts_alnum_split s h' t' E) as Ha.
  specialize (IH h' t' E). rewrite E. destruct (Z.eqb_spec c StreamNameSep) as [->|Hne].
  - intros [= <- <-]. rewrite andb_true_iff, IH, Forall_cons, <-Ha. unfold segment_ok. intuition.
  - intros [= <- <-]. rewrite andb_true_iff, IH, Forall_cons. intuition.
Qed.

Lemma segs_ok_spec s : segs_ok s = true <-> Forall segment_ok (split s).
Proof.
  unfold segs_ok. destruct (split_cons s) as (h & t & E & _). rewrite E, andb_true_iff, (tail_ok_spec s h t E).
  rewrite Forall_cons, <-(starts_alnum_split s h t E). unfold segment_ok. intuition.
Qed.

(** * Validate *)
Definition accepts (r : result NameError Z) : bool :=
  match r with Ok lastRune => negb (lastRune =? StreamNameSep) | Err _ => false end.


Lemma validate_loop_spec s :
  (forall idx seg last, seg < idx -> last <> StreamNameSep -> accepts (validate_loop s idx seg last) = tail_ok s) /\
  (forall idx, accepts (validate_loop s idx idx StreamNameSep) = segs_ok s).
Proof.
  induction s as [|c s [IH1 IH2]]; split.
  - intros idx seg last _ Hl. cbn. by rewrite (proj2 (Z.eqb_neq _ _)).
  - done.
  - intros idx seg last Hi Hl. cbn [validate_loop tail_ok]. unfold name_char. destruct (isAlnum c) eqn:Ec.
    + destruct (Z.eqb_spec c StreamNameSep) as [->|]; [done|]. apply IH1; [lia|done].
    + rewrite (proj2 (Z.eqb_neq idx seg)) by lia.
      destruct (Z.eqb_spec c StreamNameSep) as [->|]; [apply IH2|].
      destruct (isPunct c); cbn; [apply IH1; [lia|done]|done].
  - intros idx. unfold segs_ok. cbn [validate_loop starts_alnum tail_ok]. destruct (isAlnum c) eqn:Ec.
    + destruct (Z.eqb_spec c StreamNameSep) as [->|]; [done|]. unfold name_char. rewrite Ec. cbn.
      apply IH1; [lia|done].
    + by rewrite Z.eqb_refl.
Qed.

Lemma Validate_split s :
  Validate s = None <-> Z.of_nat (length s) <= MaxStreamNameLength /\ segs_ok s = true.
Proof.
  destruct s as [|c s]; [cbn; split; [done|by intros []]|].
  unfold Validate. destruct (Z.ltb_spec MaxStreamNameLength (Z.of_nat (length (c :: s)))) as [Hl|Hl].
  { split; [done|]. intros []. lia. }
  rewrite <-(proj2 (validate_loop_spec (c :: s)) 0).
  change (validate_loop (c :: s) 0 0 StreamNameSep) with (validate_loop (c :: s) 0 0 0).
  destruct (validate_loop (c :: s) 0 0 0) as [r|e]; cbn; [|by split; [|intros []]].
  destruct (r =? StreamNameSep); cbn; [by split; [|intros []]|]. by split.
Qed.

Lemma segs_ok_too_long s :
  segs_ok s = true ->
  Validate s = if MaxStreamNameLength <? Z.of_nat (length s) then Some (ErrTooLong (Z.of_nat (length s))) else None.
Proof.
  intros H. destruct (Z.ltb_spec MaxStreamNameLength (Z.of_nat (length s))) as [Hl|Hl]; [|by apply Validate_split].
  destruct s as [|c s]; [done|]. unfold Validate. by rewrite (proj2 (Z.ltb_lt _ _) Hl).
Qed.

(** * Joining and trimming *)
Lemma tail_ok_app a b : tail_ok a = true -> Forall (fun c => name_char c = true) b -> tail_ok (a ++ b) = true.
Proof.
  induction a as [|c a IH]; cbn.
  - intros _. induction 1 as [|c b Hc _ IH]; [done|]. cbn.
    rewrite (proj2 (Z.eqb_neq _ _)) by by apply name_char_ne_sep. by rewrite Hc.
  - intros Ha Hb. destruct (c =? StreamNameSep); apply andb_true_iff in Ha as [H1 H2]; rewrite IH by done.
    + rewrite andb_true_r. by destruct a.
    + by rewrite H1.
Qed.

Lemma segs_ok_app a b : segs_ok a = true -> Forall (fun c => name_char c = true) b -> segs_ok (a ++ b) = true.
Proof.
  unfold segs_ok. intros [H1 H2]%andb_true_iff Hb. rewrite tail_ok_app, andb_true_r by done. by destruct a.
Qed.

Lemma segs_ok_sep a b : segs_ok (a ++ StreamNameSep :: b) = segs_ok a && segs_ok b.
Proof.
  apply eq_bool_prop_intro. rewrite !Is_true_true, andb_true_iff, !segs_ok_spec, split_app_sep. apply Forall_app.
Qed.

Lemma segs_ok_join l : l <> [] -> segs_ok (join l) = forallb segs_ok l.
Proof.
  induction l as [|s [|s' l] IH]; intros Hl; [done|cbn; by rewrite andb_true_r|].
  change (join (s :: s' :: l)) with (s ++ StreamNameSep :: join (s' :: l)).
  rewrite segs_ok_sep, IH by done. done.
Qed.

Lemma split_join l : l <> [] -> Forall (Forall (fun c => c <> StreamNameSep)) l -> split (join l) = l.
Proof.
  intros Hl H. induction H as [|s l Hs H IH]; [done|]. destruct l as [|s' l]; [by apply split_no_sep|].
  change (join (s :: s' :: l)) with (s ++ StreamNameSep :: join (s' :: l)).
  rewrite split_app_sep, IH, split_no_sep by done. done.
Qed.

Lemma join_split s : join (split s) = s.
Proof.
  induction s as [|c s IH]; [done|]. cbn [split].
  destruct (split_cons s) as (h & t & E & _). rewrite E in *.
  destruct (Z.eqb_spec c StreamNameSep) as [->|Hne].
  - change (join ([] :: h :: t)) with (StreamNameSep :: join (h :: t)). by rewrite IH.
  - destruct t; cbn in *; by f_equal.
Qed.

(** A valid name neither starts nor ends with a separator. *)
Lemma segs_ok_last a : segs_ok (a ++ [StreamNameSep]) = false.
Proof. rewrite segs_ok_sep. apply andb_false_r. Qed.

Lemma trim_left_no_sep c s : c <> StreamNameSep -> trim_left (c :: s) = c :: s.
Proof. intros Hc. cbn. by rewrite (proj2 (Z.eqb_neq _ _) Hc). Qed.

Lemma trimString_fix s : head s <> Some StreamNameSep -> last s <> Some StreamNameSep -> trimString s = s.
Proof.
  intros H1 H2. unfold trimString. destruct s as [|c s]; [done|].
  rewrite trim_left_no_sep by (cbn in H1; congruence).
  destruct (rev (c :: s)) as [|d r] eqn:E.
  { apply (f_equal length) in E. rewrite length_rev in E. done. }
  rewrite trim_left_no_sep; [by rewrite <-E, rev_involutive|].
  intros ->. apply H2. rewrite <-(rev_involutive (c :: s)), E. cbn. by rewrite last_snoc.
Qed.

Lemma trimString_valid s : segs_ok s = true -> trimString s = s.
Proof.
  intros H. apply trimString_fix.
  - destruct s; [done|]. cbn. intros [= ->]. done.
  - intros [l' ->]%last_Some. by rewrite segs_ok_last in H.
Qed.

Lemma segs_ok_nonempty s : segs_ok s = true -> s <> [].
Proof. by destruct s. Qed.

Lemma Construct_valid parts :
  Forall (fun s => segs_ok s = true) parts -> Construct parts = join parts.
Proof.
  intros H. unfold Construct. f_equal. induction H as [|s l Hs H IH]; [done|].
  rewrite filter_cons_True by by apply segs_ok_nonempty. cbn [map]. by rewrite IH, trimString_valid.
Qed.

(** * MakeStreamName *)
Lemma rune_width_pos s : s <> [] -> (1 <= rune_width s)%nat.
Proof. destruct s; [done|]. intros _. unfold rune_width. repeat case_match; lia. Qed.

Lemma map_segment_chars n s : Forall (fun c => name_char c = true) (map_segment n s).
Proof.
  revert s. induction n as [|n IH]; intros [|c s]; cbn; [constructor..|]. constructor; [|apply IH].
  unfold name_char. by destruct (isAlnum c || isPunct c) eqn:E.
Qed.

(** One rune at least is consumed per step, so the length is fuel enough. *)
Lemma map_segment_fuel n m s :
  (length s <= n)%nat -> (length s <= m)%nat -> map_segment n s = map_segment m s.
Proof.
  revert m s. induction n as [|n IH]; intros m s Hn Hm; (destruct s as [|c s]; [by destruct m|]); cbn in Hn, Hm; [lia|].
  destruct m as [|m]; [lia|]. cbn [map_segment]. f_equal.
  pose proof (rune_width_pos (c :: s) ltac:(done)).
  apply IH; rewrite length_drop; cbn [length]; lia.
Qed.

(** The segment [MakeStreamName] makes of [v], and whether it needs [fill]. *)
Definition clean (v : bytes) : bytes := map_segment (length v) v.
Definition needs_fill (v : bytes) : bool := negb (starts_alnum (clean v)).
Definition made (fill v : bytes) : bytes := if needs_fill v then fill ++ clean v else clean v.

Lemma made_ok fill v : (needs_fill v = true -> segs_ok fill = true) -> segs_ok (made fill v) = true.
Proof.
  unfold made, needs_fill. destruct (starts_alnum (clean v)) eqn:E; cbn; intros H.
  - unfold segs_ok. rewrite E. apply (tail_ok_app []); [done|apply map_segment_chars].
  - apply segs_ok_app; [auto|apply map_segment_chars].
Qed.

Lemma make_segments_good fill s b :
  Validate fill = None \/ b = true \/ forallb (fun v => negb (needs_fill v)) s = true ->
  make_segments fill s b = Ok (map (made fill) s).
Proof.
  revert b. induction s as [|v s IH]; intros b H; [done|]. cbn [make_segments map].
  fold (clean v). unfold made at 1, needs_fill. destruct (starts_alnum (clean v)) eqn:E; cbn [negb].
  - rewrite IH; [done|]. cbn in H. unfold needs_fill at 1 in H. rewrite E in H. tauto.
  - cbn in H. unfold needs_fill at 1 in H. rewrite E in H. cbn in H.
    destruct b; [rewrite IH by auto; done|]. destruct H as [->|[?|?]]; [|done..]. rewrite IH by auto. done.
Qed.

Lemma make_segments_bad fill s :
  Validate fill <> None -> existsb needs_fill s = true -> make_segments fill s false = Err ErrBadFill.
Proof.
  intros Hf. induction s as [|v s IH]; cbn [existsb]; [done|]. cbn [make_segments]. fold (clean v).
  unfold needs_fill at 1. destruct (starts_alnum (clean v)); cbn [negb orb]; [intros H; by rewrite IH|].
  intros _. by destruct (Validate fill).
Qed.

(** * Splitting a path *)

(** What the loop has seen: outside a component, [seen] is empty or ends in a
    separator at [segIdx]; with a candidate divider it ends in ["/+"]. *)
Definition parts_inv (seen : bytes) (inside sep : bool) (segIdx : nat) : Prop :=
  (inside = false -> sep = false /\
     ((seen = [] /\ segIdx = O) \/ (exists a, seen = a ++ [StreamNameSep] /\ segIdx = length a))) /\
  (sep = true ->
     ((seen = [StreamPathSep] /\ segIdx = O) \/
      (exists a, seen = a ++ [StreamNameSep; StreamPathSep] /\ segIdx = length a))).

Definition parts_of (p : bytes) (prefix name : bytes) : Prop :=
  p = prefix ++ [StreamNameSep; StreamPathSep; StreamNameSep] ++ name \/
  (prefix = [] /\ p = [StreamPathSep; StreamNameSep] ++ name).

Lemma parts_inv_plus seen inside sep segIdx :
  parts_inv seen inside sep segIdx -> parts_inv (seen ++ [StreamPathSep]) true (negb inside) segIdx.
Proof.
  intros [H _]. split; [done|]. intros ->%negb_true_iff. destruct (H eq_refl) as [_ [[-> ->]|(a & -> & ->)]].
  - by left.
  - right. exists a. by rewrite <-app_assoc.
Qed.

Lemma parts_loop_sound seen rest inside sep segIdx prefix name b :
  parts_inv seen inside sep segIdx ->
  parts_loop (seen ++ rest) rest (length seen) inside sep false segIdx [] = (prefix, b, name) ->
  name <> [] -> parts_of (seen ++ rest) prefix name.
Proof.
  revert seen inside sep segIdx. induction rest as [|r rest IH]; intros seen inside sep segIdx Hinv.
  { cbn. by intros [= _ _ <-]. }
  cbn [parts_loop]. rewrite cons_middle, app_assoc.
  replace (S (length seen)) with (length (seen ++ [r])) by (rewrite length_app; cbn; lia).
  destruct (Z.eqb_spec r StreamPathSep) as [->|Hp]; [by apply IH, (parts_inv_plus _ _ sep)|].
  destruct (Z.eqb_spec r StreamNameSep) as [->|Hs].
  2:{ apply IH. by split. }
  destruct sep; [|apply IH; split; [|done]; intros _; split; [done|]; right; by exists seen].
  intros H Hn. destruct rest as [|c rest]; cbn in H; [congruence|]. injection H as <- _ <-.
  destruct Hinv as [_ Hinv]. destruct (Hinv eq_refl) as [[-> ->]|(a & -> & ->)]; [by right|].
  left. rewrite <-!app_assoc, take_app_length. done.
Qed.

Lemma SplitParts_sound p prefix b name :
  SplitParts p = (prefix, b, name) -> name <> [] -> parts_of p prefix name.
Proof.
  intros H. eapply (parts_loop_sound [] p false false 0); [|exact H]. split; [|done]. intros _. split; [done|by left].
Qed.

(** Components without a plus are passed over. *)
Lemma parts_loop_skip p a rest i inside segIdx :
  Forall (fun c => c <> StreamPathSep) a ->
  exists inside' segIdx',
    parts_loop p (a ++ rest) i inside false false segIdx [] =
    parts_loop p rest (i + length a) inside' false false segIdx' [].
Proof.
  intros H. revert i inside segIdx. induction H as [|c a Hc _ IH]; intros i inside segIdx.
  { exists inside, segIdx. by rewrite Nat.add_0_r. }
  cbn [app parts_loop length]. rewrite (proj2 (Z.eqb_neq c _)) by done. rewrite <-Nat.add_succ_comm.
  destruct (c =? StreamNameSep); apply IH.
Qed.

Lemma parts_loop_stop p name i segIdx prefix :
  parts_loop p name i false true true segIdx prefix = (prefix, true, name).
Proof. by destruct name. Qed.

Lemma SplitParts_complete a name :
  Forall (fun c => c <> StreamPathSep) a ->
  SplitParts (a ++ [StreamNameSep; StreamPathSep; StreamNameSep] ++ name) = (a, true, name).
Proof.
  intros H. unfold SplitParts.
  destruct (parts_loop_skip (a ++ [StreamNameSep; StreamPathSep; StreamNameSep] ++ name) a
    ([StreamNameSep; StreamPathSep; StreamNameSep] ++ name) 0 false 0 H) as (ins & seg & ->).
  cbn -[app take]. cbn [app parts_loop Z.eqb Pos.eqb StreamNameSep StreamPathSep negb].
  rewrite parts_loop_stop, take_app_length. done.
Qed.

Lemma tail_ok_no_plus s : tail_ok s = true -> Forall (fun c => c <> StreamPathSep) s.
Proof.
  induction s as [|c s IH]; [constructor|]. cbn. intros H. constructor.
  - intros ->. done.
  - apply IH. destruct (c =? StreamNameSep); apply andb_true_iff in H; tauto.
Qed.

Lemma segs_ok_no_plus s : segs_ok s = true -> Forall (fun c => c <> StreamPathSep) s.
Proof. intros [_ H]%andb_true_iff. by apply tail_ok_no_plus. Qed.

Lemma Split_divider prefix name :
  segs_ok prefix = true ->
  StreamPath_Split (prefix ++ [StreamNameSep; StreamPathSep; StreamNameSep] ++ name) = (prefix, name).
Proof. intros H. unfold StreamPath_Split. by rewrite SplitParts_complete by by apply segs_ok_no_plus. Qed.

Lemma Validate_segs s : Validate s = None -> segs_ok s = true.
Proof. intros H. by apply Validate_split in H as [_ ?]. Qed.

Lemma validateImpl_none p complete prefix name :
  StreamPath_Split p = (prefix, name) ->
  validateImpl p complete = None <->
  ((complete = false /\ prefix = []) \/ Validate prefix = None) /\ ((complete = false /\ name = []) \/ Validate name = None).
Proof.
  intros E. unfold validateImpl. rewrite E.
  assert (Hv : forall s, (if complete || negb (bool_decide (s = [])) then Validate s else None) = None <->
    (complete = false /\ s = []) \/ Validate s = None).
  { intros s. destruct complete; cbn; [intuition done|]. destruct s; cbn; intuition done. }
  rewrite <-(Hv name), <-(Hv prefix).
  destruct (if complete || negb (bool_decide (prefix = [])) then Validate prefix else None); intuition done.
Qed.

Lemma SplitLast_spec p :
  let lidx := LastIndex p 0 (-1) in
  lidx < 0 /\ ~ StreamNameSep ∈ p \/
  0 <= lidx /\ exists a b, p = a ++ StreamNameSep :: b /\ lidx = Z.of_nat (length a) /\ ~ StreamNameSep ∈ b.
Proof.
  cbn zeta.
  assert (H : forall s i best, ~ StreamNameSep ∈ s /\ LastIndex s i best = best \/
    exists a b, s = a ++ StreamNameSep :: b /\ LastIndex s i best = i + Z.of_nat (length a) /\ ~ StreamNameSep ∈ b).
  { induction s as [|c s IH]; intros i best; [left; split; [apply not_elem_of_nil|done]|]. cbn [LastIndex].
    destruct (IH (i + 1) (if c =? StreamNameSep then i else best)) as [[Hn ->]|(a & b & -> & -> & Hn)].
    - destruct (Z.eqb_spec c StreamNameSep) as [->|Hc].
      + right. exists [], s. cbn. split; [done|]. split; [lia|done].
      + left. split; [|done]. rewrite not_elem_of_cons. by split.
    - right. exists (c :: a), b. cbn [length app]. split; [done|]. split; [lia|done]. }
  destruct (H p 0 (-1)) as [[Hn ->]|(a & b & Hp & Hl & Hn)]; [left; split; [lia|done]|].
  right. rewrite Hl. split; [lia|]. exists a, b. split; [done|]. split; [lia|done].
Qed.

Lemma segmentCount_Segments s : segmentCount s = Z.of_nat (length (Segments s)).
Proof.
  unfold segmentCount, Segments. destruct s as [|c s]; [done|]. generalize (c :: s). clear c s. intros s.
  induction s as [|c s IH]; [done|]. cbn [split]. destruct (split_cons s) as (h & t & E & _). rewrite E in *.
  destruct (Z.eqb_spec c StreamNameSep) as [->|Hc].
  - rewrite filter_cons_True by done. cbn [length] in *. lia.
  - rewrite filter_cons_False by done. done.
Qed.

Lemma MakeStreamName_Ok fill s r : MakeStreamName fill s = Ok r -> Validate r = None.
Proof.
  unfold MakeStreamName. destruct s as [|v s]; [done|]. destruct (make_segments _ _ _) as [l|]; cbn; [|done].
  destruct (Validate (Construct l)) eqn:E; [done|]. by intros [= <-].
Qed.

Lemma MakeStreamName_good fill s :
  s <> [] -> Validate fill = None \/ existsb needs_fill s = false ->
  let r := join (map (made fill) s) in
  MakeStreamName fill s =
  if MaxStreamNameLength <? Z.of_nat (length r) then Err (ErrTooLong (Z.of_nat (length r))) else Ok r.
Proof.
  intros Hs Hf. cbn zeta. assert (Hb : Validate fill = None \/ forallb (fun v => negb (needs_fill v)) s = true).
  { destruct Hf as [?|Hf]; [by left|]. right. apply forallb_forall. intros v Hv. apply negb_true_iff.
    destruct (needs_fill v) eqn:E; [|done]. assert (existsb needs_fill s = true) by (apply existsb_exists; eauto). congruence. }
  assert (Hok : Forall (fun v => segs_ok v = true) (map (made fill) s)).
  { apply Forall_map, Forall_forall. intros v Hv. apply made_ok. intros En. destruct Hb as [Hb|Hb]; [by apply Validate_split|].
    rewrite forallb_forall in Hb. specialize (Hb v ltac:(by apply list_elem_of_In)). by rewrite En in Hb. }
  unfold MakeStreamName. rewrite make_segments_good by tauto. destruct s as [|v s]; [done|].
  cbn [mbind result_bind]. rewrite Construct_valid, segs_ok_too_long; [by destruct (_ <? _)| |done].
  rewrite segs_ok_join by done. apply forallb_forall. intros w Hw%list_elem_of_In. by eapply Forall_forall in Hok.
Qed.

Lemma Join_valid prefix name : segs_ok prefix = true -> segs_ok name = true ->
  Join prefix name = prefix ++ [StreamNameSep; StreamPathSep; StreamNameSep] ++ name.
Proof. intros H1 H2. unfold Join, Trim. by rewrite !trimString_valid. Qed.

(** [Construct] when each part is its own trimmed form. *)
Lemma Construct_trimmed l : Forall (fun s => s <> [] /\ trimString s = s) l -> Construct l = join l.
Proof.
  intros H. unfold Construct. f_equal. induction H as [|s l [Hs Ht] H IH]; [done|].
  rewrite filter_cons_True by done. cbn [map]. by rewrite IH, Ht.
Qed.

Lemma trimmed_valid s : segs_ok s = true -> s <> [] /\ trimString s = s.
Proof. split; [by apply segs_ok_nonempty|by apply trimString_valid]. Qed.

Lemma AsPathPrefix_valid prefix name : segs_ok prefix = true -> segs_ok name = true ->
  AsPathPrefix prefix name = prefix ++ [StreamNameSep; StreamPathSep; StreamNameSep] ++ name.
Proof.
  intros H1 H2. unfold AsPathPrefix. rewrite Construct_trimmed; [done|].
  repeat constructor; try done; by apply trimmed_valid.
Qed.

Lemma AsPathPrefix_partial prefix :
  segs_ok prefix = true -> StreamPath_Split (AsPathPrefix prefix []) = (prefix, []).
Proof.
  intros H. assert (E : AsPathPrefix prefix [] = prefix ++ [StreamNameSep; StreamPathSep]).
  { unfold AsPathPrefix. transitivity (Construct [prefix; [StreamPathSep]]).
    - unfold Construct. by rewrite !(filter_cons_True _ prefix) by by apply segs_ok_nonempty.
    - rewrite Construct_trimmed; [done|]. repeat constructor; try done; by apply trimmed_valid. }
  rewrite E. unfold StreamPath_Split, SplitParts.
  destruct (parts_loop_skip (prefix ++ [StreamNameSep; StreamPathSep]) prefix [StreamNameSep; StreamPathSep] 0 false 0
    (segs_ok_no_plus _ H)) as (ins & seg & ->).
  cbn -[app take]. by rewrite take_app_length.
Qed.

Lemma StreamPath_Validate_intro prefix name :
  Validate prefix = None -> Validate name = None ->
  StreamPath_Validate (prefix ++ [StreamNameSep; StreamPathSep; StreamNameSep] ++ name) = None.
Proof.
  intros H1 H2. apply (validateImpl_none _ _ prefix name); [apply Split_divider; by apply Validate_segs|].
  split; by right.
Qed.

Lemma StreamPath_Validate_elim q :
  StreamPath_Validate q = None ->
  exists prefix name, Validate prefix = None /\ Validate name = None /\
    q = prefix ++ [StreamNameSep; StreamPathSep; StreamNameSep] ++ name.
Proof.
  intros H. destruct (StreamPath_Split q) as [prefix name] eqn:E.
  pose proof (proj1 (validateImpl_none _ true _ _ E) H) as [[[? _]|H1] [[? _]|H2]]; [done..|].
  exists prefix, name. split; [done|]. split; [done|]. unfold StreamPath_Split in E.
  destruct (SplitParts q) as [[pr b] nm] eqn:Es. injection E as -> ->.
  assert (Hn : name <> []) by (intros ->; done). destruct (SplitParts_sound _ _ _ _ Es Hn) as [?|[-> _]]; done.
Qed.

Lemma Concat_valid prefix o :
  Validate prefix = None -> Forall (fun s => Validate s = None) o ->
  let r := Concat prefix o in
  Validate r = if MaxStreamNameLength <? Z.of_nat (length r) then Some (ErrTooLong (Z.of_nat (length r))) else None.
Proof.
  intros Hp Ho. cbn zeta. apply segs_ok_too_long. unfold Concat.
  assert (H : Forall (fun s => segs_ok s = true) (prefix :: o)).
  { constructor; [by apply Validate_segs|]. eapply Forall_impl; [exact Ho|]. apply Validate_segs. }
  rewrite Construct_valid by done. rewrite segs_ok_join by done. apply forallb_forall.
  intros w Hw%list_elem_of_In. by eapply Forall_forall in H.
Qed.

Lemma Append_valid prefix name n : segs_ok prefix = true -> segs_ok name = true -> segs_ok n = true ->
  Append (prefix ++ [StreamNameSep; StreamPathSep; StreamNameSep] ++ name) n =
  prefix ++ [StreamNameSep; StreamPathSep; StreamNameSep] ++ join [name; n].
Proof.
  intros H1 H2 H3. unfold Append. rewrite Construct_trimmed.
  - cbn [join]. by rewrite <-!app_assoc.
  - repeat constructor; [by destruct prefix| |by apply trimmed_valid..].
    apply trimString_fix; [destruct prefix; [done|]; cbn; by intros [= ->]|].
    intros [l' Hl]%last_Some. destruct (exists_last (segs_ok_nonempty _ H2)) as (l & c & ->).
    rewrite !app_assoc in Hl. apply app_inj_tail in Hl as [_ ->]. by rewrite segs_ok_last in H2.
Qed.

(** * The properties *)

(** [Validate] accepts a name exactly when it is short enough and every
    segment between separators is nonempty, begins with a letter or a digit
    and has only letters, digits and [:_-.]; then [Segments] are these
    segments, [segmentCount] is their number and they join to the name. *)
Theorem Validate_exact (s : bytes) :
  (Validate s = None <->
   Z.of_nat (length s) <= MaxStreamNameLength /\ Forall segment_ok (split s)) /\
  join (Segments s) = s /\ segmentCount s = Z.of_nat (length (Segments s)).
Proof.
  rewrite Validate_split, segs_ok_spec. split; [done|]. split; [destruct s; [done|apply join_split]|].
  apply segmentCount_Segments.
Qed.

(** [MakeStreamName], on every input.  Its own validation can fail only on
    the length: what it builds is always made of well-formed segments.  The
    fill string is looked at only when some segment needs it. *)
Theorem MakeStreamName_spec (fill : bytes) (s : list bytes) :
  MakeStreamName fill s =
  (let r := join (map (made fill) s) in
   if bool_decide (s = []) then Err ErrNoSegments
   else if existsb needs_fill s && bool_decide (Validate fill <> None) then Err ErrBadFill
   else if MaxStreamNameLength <? Z.of_nat (length r) then Err (ErrTooLong (Z.of_nat (length r)))
   else Ok r) /\
  (forall r, MakeStreamName fill s = Ok r -> Validate r = None).
Proof.
  split; [|apply MakeStreamName_Ok].
  cbn zeta. destruct s as [|v s]; [done|]. rewrite bool_decide_false by done.
  destruct (existsb needs_fill (v :: s) && bool_decide (Validate fill <> None)) eqn:E.
  - bool_to_prop. unfold MakeStreamName. by rewrite make_segments_bad.
  - apply MakeStreamName_good; [done|]. destruct (existsb needs_fill (v :: s)) eqn:En; [|by right]. left.
    cbn [andb] in E. apply bool_decide_eq_false, dec_stable in E. exact E.
Qed.

(** A path is valid exactly when it is a valid prefix and a valid name
    around ["/+/"]; [Join] and [AsPathPrefix] of valid names build it, [Split]
    takes it apart again, and a prefix alone gives a partial path.  [Concat]
    and [Append] join; their result is valid up to the length of the name. *)
Theorem StreamPath_Validate_exact (prefix name : bytes) (o : list bytes)
    (Hprefix : Validate prefix = None) (Hname : Validate name = None) (Ho : Forall (fun s => Validate s = None) o) :
  let p := prefix ++ [StreamNameSep; StreamPathSep; StreamNameSep] ++ name in
  let long s := if MaxStreamNameLength <? Z.of_nat (length s) then Some (ErrTooLong (Z.of_nat (length s))) else None in
  Join prefix name = p /\ AsPathPrefix prefix name = p /\
  StreamPath_Split p = (prefix, name) /\ StreamPath_Validate p = None /\
  (forall q, StreamPath_Validate q = None ->
     exists prefix name, Validate prefix = None /\ Validate name = None /\
       q = prefix ++ [StreamNameSep; StreamPathSep; StreamNameSep] ++ name) /\
  StreamPath_Split (AsPathPrefix prefix []) = (prefix, []) /\ ValidatePartial (AsPathPrefix prefix []) = None /\
  Validate (Concat prefix o) = long (Concat prefix o) /\
  (forall n, Validate n = None ->
     Append p n = prefix ++ [StreamNameSep; StreamPathSep; StreamNameSep] ++ join [name; n] /\
     StreamPath_Validate (Append p n) = long (join [name; n])).
Proof.
  cbn zeta. pose proof (Validate_segs _ Hprefix) as Sp. pose proof (Validate_segs _ Hname) as Sn.
  split; [by apply Join_valid|]. split; [by apply AsPathPrefix_valid|].
  split; [by apply Split_divider|]. split; [by apply StreamPath_Validate_intro|].
  split; [apply StreamPath_Validate_elim|].
  split; [by apply AsPathPrefix_partial|]. split.
  { apply (validateImpl_none _ _ _ _ (AsPathPrefix_partial _ Sp)). auto. }
  split; [by apply Concat_valid|]. intros n Hn%Validate_segs. split; [by apply Append_valid|].
  rewrite Append_valid by done. unfold StreamPath_Validate, validateImpl. rewrite Split_divider by done. cbn [orb].
  rewrite Hprefix. apply segs_ok_too_long. rewrite segs_ok_join by done. cbn. by rewrite Sn, Hn.
Qed.

Lemma StreamPath_Validate_exact_witness :
  StreamPath_Split (Join (of_string "a/b") (of_string "c.d")) = (of_string "a/b", of_string "c.d").
Proof.
  destruct (StreamPath_Validate_exact (of_string "a/b") (of_string "c.d") [] ltac:(reflexivity) ltac:(reflexivity)
    ltac:(constructor)) as (-> & _ & H & _). exact H.
Defined.
