(* ===== verification/LogEntry.v ===== *)
(** Log entries (logdog/api/logpb/log.proto, common/proto/google/util.go): the
    messages the Butler's parsers produce and the renderer reads, with the
    times and durations they carry. *)
From S2P Require Import Prelude.
Local Open Scope Z_scope.

(** * Times and durations

    A [time.Time] is a number of nanoseconds, and [time.Duration] an int64 of
    them: a difference that does not fit saturates. *)
Notation time := Z (only parsing).

Definition Time_Sub (t u : time) : Z := Z.max (- 2 ^ 63) (Z.min (2 ^ 63 - 1) (t - u)).

(** [duration.Duration]; the zero duration is a nil message. *)
Record Duration := { Seconds : Z; Nanos : Z }.
Definition nanosecondsInASecond : Z := 1000000000.

Definition LoadDuration (d : option Duration) (v : Z) : option Duration :=
  match d with
  | None => if v =? 0 then None
            else Some {| Seconds := Z.quot v nanosecondsInASecond; Nanos := i32 (Z.rem v nanosecondsInASecond) |}
  | Some _ => Some {| Seconds := Z.quot v nanosecondsInASecond; Nanos := i32 (Z.rem v nanosecondsInASecond) |}
  end.
Definition NewDuration (v : Z) : option Duration := LoadDuration None v.
Definition DurationFromProto (d : option Duration) : Z :=
  match d with
  | None => 0
  | Some d => i64 (i64 (Seconds d * nanosecondsInASecond) + i64 (Nanos d * 1))
  end.

(** * Entries *)
Record Text_Line := { Value : bytes; Delimiter : bytes }.
Record Partial := { Index : Z; Size : Z; Last : bool }.

Inductive LogContent :=
| Text (Lines : list Text_Line)
| Binary (Offset : Z) (Data : bytes)
| Datagram (Data : bytes) (partial : option Partial).

Record LogEntry := {
  TimeOffset : option Duration;
  PrefixIndex : Z;
  StreamIndex : Z;
  Sequence : Z;
  Content : LogContent
}.
Definition set_TimeOffset (e : LogEntry) (d : option Duration) : LogEntry :=
  {| TimeOffset := d; PrefixIndex := PrefixIndex e; StreamIndex := StreamIndex e;
     Sequence := Sequence e; Content := Content e |}.

#[export] Instance Duration_eq_dec : EqDecision Duration.
Proof. solve_decision. Defined.
#[export] Instance Text_Line_eq_dec : EqDecision Text_Line.
Proof. solve_decision. Defined.
#[export] Instance Partial_eq_dec : EqDecision Partial.
Proof. solve_decision. Defined.
#[export] Instance LogContent_eq_dec : EqDecision LogContent.
Proof. solve_decision. Defined.
#[export] Instance LogEntry_eq_dec : EqDecision LogEntry.
Proof. solve_decision. Defined.

(** The time an entry carries. *)
Definition entry_offset (e : LogEntry) : Z := DurationFromProto (TimeOffset e).

(** * The counter that numbers the entries of a prefix (bundler/counter.go) *)
Definition counter_next (c : Z) : Z * Z := let v := i64 (c + 1) in (i64 (v - 1), v).

(** * Lemmas *)
Lemma Time_Sub_i64 t u : in_i64 (Time_Sub t u).
Proof. unfold Time_Sub, in_i64. lia. Qed.

Lemma Time_Sub_mono t t' u : t <= t' -> Time_Sub t u <= Time_Sub t' u.
Proof. unfold Time_Sub. lia. Qed.

(** A duration survives the round trip through its message. *)
Lemma Duration_round_trip v : in_i64 v -> DurationFromProto (NewDuration v) = v.
Proof.
  intros Hv. unfold NewDuration, LoadDuration, DurationFromProto.
  destruct (Z.eqb_spec v 0) as [->|_]; [done|]. cbn [Seconds Nanos]. unfold nanosecondsInASecond in *.
  pose proof (Z.quot_rem' v 1000000000) as E. unfold in_i64 in Hv.
  pose proof (Z.rem_bound_abs v 1000000000 ltac:(lia)) as Hr.
  assert (Hs : 0 <= v /\ 0 <= Z.rem v 1000000000 \/ v <= 0 /\ Z.rem v 1000000000 <= 0).
  { destruct (Z.le_ge_cases 0 v); [left|right]; (split; [lia|]);
      [apply Z.rem_nonneg|apply Z.rem_nonpos]; lia. }
  generalize dependent (Z.quot v 1000000000). generalize dependent (Z.rem v 1000000000). intros r Hr Hs q E.
  assert (Hr' : - 1000000000 < r < 1000000000) by lia. clear Hr.
  replace (i32 r) with r by (unfold i32; rewrite Z.mod_small; lia).
  rewrite (i64_small (r * 1)) by (unfold in_i64; lia).
  rewrite (i64_small (q * 1000000000)) by (unfold in_i64; lia).
  rewrite i64_small; unfold in_i64; lia.
Qed.

(** The counter hands out consecutive numbers. *)
Lemma counter_next_spec c k : c = i64 k -> counter_next c = (i64 k, i64 (k + 1)).
Proof.
  intros ->. unfold counter_next. rewrite i64_add_l. f_equal.
  change (i64 (k + 1) - 1) with (i64 (k + 1) + -1). rewrite i64_add_l. f_equal. lia.
Qed.
