(* ===== verification/TimedBuffer.v ===== *)
(** Buffers of timestamped data (bundler/data.go, bundler/parser.go): what the
    stream parsers need of the buffer they read, as an interface with laws, the
    abstract buffer (a list of bytes with their arrival times), and the chunk
    stream as its implementation. *)
From S2P Require Import Prelude ChunkStream LogEntry.
From stdpp Require Import fin_maps.
Local Open Scope Z_scope.

(** * Data (data.go)

    A leased buffer, after [Bind] has cut it to what was read. *)
Record streamData := { buffer : bytes; ts : time }.
Definition Bind (d : streamData) (amount : nat) (t : time) : streamData :=
  {| buffer := take amount (buffer d); ts := t |}.

(** * The interface *)
Class ChunkBuffer (B : Type) := {
  view : Type;
  buf_new : B;
  buf_Append : B -> streamData -> B;
  buf_Len : B -> Z;
  buf_firstTime : B -> option time;
  buf_ViewLimit : B -> Z -> view;
  buf_Consume : B -> Z -> outcome B;
  view_Remaining : view -> Z;
  view_Consumed : view -> Z;
  view_CloneLimit : view -> Z -> view;
  view_Index : B -> view -> bytes -> outcome Z;
  view_ReadByte : B -> view -> outcome (option Z * view);
  view_Read : B -> view -> nat -> outcome (bytes * view)
}.

(** Bytes with the time they arrived. *)
Notation timed := (list (Z * time)).
Definition stamp (t : time) (l : bytes) : timed := map (fun b => (b, t)) l.
Definition unstamp (l : timed) : bytes := map fst l.
Arguments stamp : simpl never.
Arguments unstamp : simpl never.

(** What an implementation promises: it holds a queue of timed bytes, and a view
    sees a prefix of it, having consumed some bytes already. *)
Class ChunkBufferLaws (B : Type) `{CB : ChunkBuffer B} := {
  holds : B -> timed -> Prop;
  sees : B -> view -> bytes -> Z -> Prop;
  law_new : holds buf_new [];
  law_append b l d : holds b l -> holds (buf_Append b d) (l ++ stamp (ts d) (buffer d));
  law_len b l : holds b l -> buf_Len b = Z.of_nat (length l);
  law_first b l : holds b l -> buf_firstTime b = snd <$> head l;
  law_consume b l n : holds b l -> 0 <= n <= Z.of_nat (length l) ->
    exists b', buf_Consume b n = Ret b' /\ holds b' (drop (Z.to_nat n) l);
  law_view b l n : holds b l -> 0 <= n -> sees b (buf_ViewLimit b n) (take (Z.to_nat n) (unstamp l)) 0;
  law_remaining b v l c : sees b v l c -> view_Remaining v = Z.of_nat (length l);
  law_consumed b v l c : sees b v l c -> view_Consumed v = c;
  law_clone b v l c n : sees b v l c -> 0 <= n -> sees b (view_CloneLimit v n) (take (Z.to_nat n) l) c;
  law_index b v l c needle : sees b v l c -> needle <> [] -> view_Index b v needle = Ret (bytes_Index l needle);
  law_readbyte b v l c : sees b v l c ->
    match l with
    | [] => view_ReadByte b v = Ret (None, v)
    | x :: l => exists v', view_ReadByte b v = Ret (Some x, v') /\ sees b v' l (c + 1)
    end;
  law_read b v l c n : sees b v l c ->
    exists v', view_Read b v n = Ret (take n l, v') /\ sees b v' (drop n l) (c + Z.of_nat (length (take n l)))
}.

(** * The abstract buffer *)
#[export] Instance timed_buffer : ChunkBuffer timed := {
  view := bytes * Z;
  buf_new := [];
  buf_Append l d := l ++ stamp (ts d) (buffer d);
  buf_Len l := Z.of_nat (length l);
  buf_firstTime l := snd <$> head l;
  buf_ViewLimit l n := (take (Z.to_nat n) (unstamp l), 0);
  buf_Consume l n := if (0 <=? n) && (n <=? Z.of_nat (length l)) then Ret (drop (Z.to_nat n) l) else Panic;
  view_Remaining v := Z.of_nat (length v.1);
  view_Consumed v := v.2;
  view_CloneLimit v n := (take (Z.to_nat n) v.1, v.2);
  view_Index _ v needle := Ret (bytes_Index v.1 needle);
  view_ReadByte _ v := match v.1 with [] => Ret (None, v) | x :: l => Ret (Some x, (l, v.2 + 1)) end;
  view_Read _ v n := Ret (take n v.1, (drop n v.1, v.2 + Z.of_nat (length (take n v.1))))
}.

#[export] Program Instance timed_buffer_laws : ChunkBufferLaws timed := {
  holds b l := b = l;
  sees b v l c := v = (l, c)
}.
Next Obligation. done. Qed.
Next Obligation. by intros b l d ->. Qed.
Next Obligation. by intros b l ->. Qed.
Next Obligation. by intros b l ->. Qed.
Next Obligation.
  intros b l n -> Hn. cbn. rewrite !(proj2 (Z.leb_le _ _)) by lia. cbn. eauto.
Qed.
Next Obligation. by intros b l n ->. Qed.
Next Obligation. by intros b v l c ->. Qed.
Next Obligation. by intros b v l c ->. Qed.
Next Obligation. by intros b v l c n ->. Qed.
Next Obligation. by intros b v l c needle -> _. Qed.
Next Obligation. intros b v l c ->. destruct l; cbn; eauto. Qed.
Next Obligation. intros b v l c n ->. cbn. eauto. Qed.

(** * The chunk stream (chunkstream.Buffer of Data) *)
Record chunk_buffer := { cb_store : Store; cb_buf : Buffer; cb_ts : gmap nat time }.

Definition cb_Append (b : chunk_buffer) (d : streamData) : chunk_buffer :=
  let '(st, bf) := appendChunk (cb_store b) (cb_buf b) (buffer d) in
  {| cb_store := st; cb_buf := bf; cb_ts := <[fresh_id (cb_store b) := ts d]> (cb_ts b) |}.

Definition cb_firstTime (b : chunk_buffer) : option time := i ← first (cb_buf b); cb_ts b !! i.

Definition cb_Consume (b : chunk_buffer) (n : Z) : outcome chunk_buffer :=
  '(st, bf) ← Consume (cb_store b) (cb_buf b) n;
  Ret {| cb_store := st; cb_buf := bf; cb_ts := cb_ts b |}.

#[export] Instance chunk_stream_buffer : ChunkBuffer chunk_buffer := {
  view := View;
  buf_new := {| cb_store := {| nodes := ∅; fresh_id := 0 |}; cb_buf := empty_buffer; cb_ts := ∅ |};
  buf_Append := cb_Append;
  buf_Len b := Buffer_Len (cb_buf b);
  buf_firstTime := cb_firstTime;
  buf_ViewLimit b n := ViewLimit (cb_buf b) n;
  buf_Consume := cb_Consume;
  view_Remaining := Remaining;
  view_Consumed := consumed;
  view_CloneLimit := CloneLimit;
  view_Index b v needle := match ChunkStream.Index (cb_store b) v needle with Some r => r | None => Panic end;
  view_ReadByte b v := View_ReadByte (cb_store b) v;
  view_Read b v n := '(data, _, v) ← Read (cb_store b) v n; Ret (data, v)
}.

(** ** The chunk stream keeps the promise *)
Definition timed_of (m : gmap nat time) (cs : list (nat * bytes)) : timed :=
  concat (map (fun x => stamp (default 0 (m !! x.1)) x.2) cs).

Lemma unstamp_stamp t (l : bytes) : unstamp (stamp t l) = l.
Proof. unfold unstamp, stamp. rewrite map_map. apply map_id. Qed.

Lemma unstamp_app (a b : timed) : unstamp (a ++ b) = unstamp a ++ unstamp b.
Proof. apply map_app. Qed.

Lemma length_stamp t (l : bytes) : length (stamp t l) = length l.
Proof. apply length_map. Qed.

Lemma length_unstamp (l : timed) : length (unstamp l) = length l.
Proof. apply length_map. Qed.

Lemma stamp_drop t n (l : bytes) : drop n (stamp t l) = stamp t (drop n l).
Proof. symmetry. apply (fmap_drop (fun b => (b, t))). Qed.

Lemma unstamp_drop n (l : timed) : unstamp (drop n l) = drop n (unstamp l).
Proof. apply fmap_drop. Qed.

Lemma unstamp_take n (l : timed) : unstamp (take n l) = take n (unstamp l).
Proof. apply fmap_take. Qed.

Lemma timed_of_cons m i c cs : timed_of m ((i, c) :: cs) = stamp (default 0 (m !! i)) c ++ timed_of m cs.
Proof. done. Qed.

Lemma unstamp_timed_of m cs : unstamp (timed_of m cs) = concat (map snd cs).
Proof.
  induction cs as [|[i c] cs IH]; [done|]. by rewrite timed_of_cons, unstamp_app, unstamp_stamp, IH.
Qed.

Lemma length_timed_of m cs : length (timed_of m cs) = length (concat (map snd cs)).
Proof. by rewrite <-(unstamp_timed_of m), length_unstamp. Qed.

Lemma timed_of_app m a b : timed_of m (a ++ b) = timed_of m a ++ timed_of m b.
Proof. unfold timed_of. by rewrite map_app, concat_app. Qed.

Lemma timed_of_fresh m i t cs : i ∉ map fst cs -> timed_of (<[i := t]> m) cs = timed_of m cs.
Proof.
  intros Hi. unfold timed_of. f_equal. apply map_ext_in. intros [j c] Hj%list_elem_of_In. cbn. f_equal. f_equal.
  apply lookup_insert_ne. intros ->. apply Hi. apply list_elem_of_fmap. by exists (j, c).
Qed.

(** The nodes reached from a pointer are determined by the store. *)
Lemma linked_fun m p cs cs' : linked m p cs -> linked m p cs' -> cs = cs'.
Proof.
  revert p cs'. induction cs as [|[i c] cs IH]; intros p [|[j d] cs']; cbn; [done|by intros -> [? _]|by intros [-> _]|].
  intros (-> & n & Hn & Hc & Hl) ([= <-] & n' & Hn' & Hd & Hl'). rewrite Hn in Hn'. injection Hn' as <-.
  f_equal; [congruence|by eapply IH].
Qed.

Lemma linked_mono m m' p cs : m ⊆ m' -> linked m p cs -> linked m' p cs.
Proof.
  intros Hm. revert p. induction cs as [|[i c] cs IH]; intros p; cbn; [done|].
  intros (-> & n & Hn & Hc & Hl). split; [done|]. exists n. split; [by eapply lookup_weaken|]. auto.
Qed.

(** Consuming keeps the end of the chain. *)
Lemma consume_loop_suffix m fuel st b c st' b' cs :
  consume_loop fuel st b c = Ret (st', b') -> nodes st ⊆ m -> linked m (first b) cs ->
  nodes st' ⊆ nodes st /\ exists k, linked m (first b') (drop k cs).
Proof.
  revert st b c cs. induction fuel as [|fuel IH]; intros st b c cs; cbn [consume_loop].
  { destruct (0 <? c); [done|]. intros [= <- <-] _ Hl. split; [done|]. by exists 0%nat. }
  destruct (0 <? c); [|intros [= <- <-] _ Hl; split; [done|]; by exists 0%nat].
  destruct (first b) as [i|] eqn:Ef; [|done]. destruct (nodes st !! i) as [n|] eqn:Hn; [|done].
  case_match; [intros [= <- <-] _ Hl; split; [done|]; by exists 0%nat|].
  intros E Hm Hl. destruct cs as [|[j d] cs]; [done|]. destruct Hl as ([= <-] & n' & Hn' & _ & Hl).
  rewrite (lookup_weaken _ _ _ _ Hn Hm) in Hn'. injection Hn' as <-.
  pose proof (delete_subseteq (nodes st) i) as Hdel.
  destruct (IH _ _ _ cs E) as (Hsub & k & Hk); [by etrans|done|]. split; [by etrans|]. by exists (S k).
Qed.

Lemma Consume_suffix st b c st' b' cs :
  Consume st b c = Ret (st', b') -> linked (nodes st) (first b) cs ->
  nodes st' ⊆ nodes st /\ exists k, linked (nodes st) (first b') (drop k cs).
Proof.
  unfold Consume. intros H Hl. destruct (c =? 0); [injection H as <- <-; split; [done|]; by exists 0%nat|].
  destruct (bsize b <? c); [done|]. by eapply consume_loop_suffix in H.
Qed.

Lemma suffix_length_eq {A} (a b c : list A) : a `suffix_of` c -> b `suffix_of` c -> length a = length b -> a = b.
Proof. intros [x ->] [y E] Hl. apply app_inj_2 in E as [_ ?]; auto. Qed.

Lemma drop_suffix {A} n (l : list A) : drop n l `suffix_of` l.
Proof. exists (take n l). by rewrite take_drop. Qed.

Definition chunk_holds (b : chunk_buffer) (l : timed) : Prop :=
  exists cs, chain (cb_store b) (first (cb_buf b)) (fidx (cb_buf b)) cs /\
    buffers (cb_store b) (cb_buf b) (unstamp l) /\ l = drop (fidx (cb_buf b)) (timed_of (cb_ts b) cs) /\
    (forall i, i ∈ map fst cs -> is_Some (cb_ts b !! i)).

Lemma chunk_append b l d : chunk_holds b l -> chunk_holds (cb_Append b d) (l ++ stamp (ts d) (buffer d)).
Proof.
  intros (cs & Hch & Hb & -> & Hts). unfold cb_Append.
  pose proof (appendChunk_spec _ _ _ (buffer d) Hb) as Hspec.
  pose proof (buffers_fresh _ _ _ Hb) as Hfresh.
  assert (Hni : fresh_id (cb_store b) ∉ map fst cs).
  { intros Hi. destruct (linked_ids _ _ _ _ (ch_linked _ _ _ _ Hch) Hi) as [n Hn]. congruence. }
  destruct (appendChunk (cb_store b) (cb_buf b) (buffer d)) as [st' bf'] eqn:E. destruct Hspec as [Hb' _].
  rewrite <-(unstamp_stamp (ts d) (buffer d)), <-unstamp_app in Hb'.
  destruct Hb as (cs0 & Hch0 & Hlast & _ & _ & _ & Hn0).
  pose proof (linked_fun _ _ _ _ (ch_linked _ _ _ _ Hch0) (ch_linked _ _ _ _ Hch)) as ->.
  destruct Hb' as (cs' & Hch' & Hb'). unfold appendChunk in E.
  destruct (Nat.eqb_spec (length (buffer d)) 0) as [Hz|Hz].
  - destruct (buffer d); [|done]. injection E as <- <-.
    exists cs. split; [done|]. split; [by exists cs'|]. cbn. split; [by rewrite app_nil_r, timed_of_fresh|].
    intros i Hi. rewrite lookup_insert_ne by congruence. auto.
  - assert (Hcs' : cs' = cs ++ [(fresh_id (cb_store b), buffer d)] /\ fidx bf' = fidx (cb_buf b)).
    { destruct (ChunkStream.last (cb_buf b)) as [lst|] eqn:El; injection E as <- <-; cbn [first fidx nodes] in *; (split; [|done]).
      - destruct (linked_last _ _ _ _ (ch_linked _ _ _ _ Hch) (eq_sym Hlast)) as (nl & Hnl & Hnn).
        pose proof (linked_append (nodes (cb_store b)) _ cs lst _ (buffer d) (ch_linked _ _ _ _ Hch) Hfresh
          (ch_nodup _ _ _ _ Hch) ltac:(intros n Hn; congruence) ltac:(by eexists)) as Hl.
        rewrite decide_True in Hl by done. eapply linked_fun; [apply (ch_linked _ _ _ _ Hch')|exact Hl].
      - destruct cs as [|x cs]; [|by symmetry in Hlast; apply last_None in Hlast].
        eapply linked_fun; [apply (ch_linked _ _ _ _ Hch')|]. cbn. split; [done|]. eexists.
        split; [apply lookup_insert_eq|done]. }
    destruct Hcs' as [-> Hfi]. exists (cs ++ [(fresh_id (cb_store b), buffer d)]). cbn [cb_store cb_buf cb_ts].
    split; [done|]. split; [by exists (cs ++ [(fresh_id (cb_store b), buffer d)])|]. split.
    + rewrite timed_of_app, timed_of_fresh by done. rewrite Hfi, drop_app_le.
      * f_equal. unfold timed_of. cbn. by rewrite lookup_insert_eq, app_nil_r.
      * rewrite length_timed_of. by eapply chain_idx_le.
    + intros i. rewrite map_app. intros [Hi|Hi]%elem_of_app; [rewrite lookup_insert_ne by congruence; auto|].
      apply list_elem_of_singleton in Hi as ->. cbn. rewrite lookup_insert_eq. by eexists.
Qed.

Lemma buffers_timed st b l cs m : buffers st b l -> chain st (first b) (fidx b) cs ->
  length (drop (fidx b) (timed_of m cs)) = length l.
Proof.
  intros (cs' & Hch' & _ & _ & _ & -> & _) Hch.
  pose proof (linked_fun _ _ _ _ (ch_linked _ _ _ _ Hch') (ch_linked _ _ _ _ Hch)) as ->.
  unfold content. by rewrite !length_drop, length_timed_of.
Qed.

Lemma chunk_consume b l n : chunk_holds b l -> 0 <= n <= Z.of_nat (length l) ->
  exists b', cb_Consume b n = Ret b' /\ chunk_holds b' (drop (Z.to_nat n) l).
Proof.
  intros (cs & Hch & Hb & -> & Hts) Hn. pose proof (Consume_spec _ _ _ n Hb ltac:(lia)) as H.
  rewrite length_unstamp, decide_True in H by lia. destruct H as (st' & bf' & E & Hb').
  unfold cb_Consume. rewrite E. cbn. eexists. split; [done|].
  destruct (Consume_suffix _ _ _ _ _ cs E (ch_linked _ _ _ _ Hch)) as (Hsub & k & Hk).
  pose proof Hb' as (cs' & Hch' & _).
  pose proof (linked_fun _ _ _ _ (linked_mono _ _ _ _ Hsub (ch_linked _ _ _ _ Hch')) Hk) as ->.
  exists (drop k cs). cbn [cb_store cb_buf cb_ts]. split; [done|].
  rewrite <-unstamp_drop in Hb'. split; [done|]. split.
  - apply (suffix_length_eq _ _ (timed_of (cb_ts b) cs)).
    + etrans; apply drop_suffix.
    + etrans; [apply drop_suffix|]. rewrite <-(take_drop k cs) at 2. rewrite timed_of_app. by eexists.
    + rewrite (buffers_timed _ _ _ _ (cb_ts b) Hb' Hch'). by rewrite length_unstamp.
  - intros i Hi. apply Hts. rewrite <-(take_drop k cs), map_app. apply elem_of_app. by right.
Qed.

Lemma chunk_view b l n : chunk_holds b l -> 0 <= n ->
  views (cb_store b) (ViewLimit (cb_buf b) n) (take (Z.to_nat n) (unstamp l)).
Proof.
  intros (_ & _ & Hb & _ & _) Hn. destruct Hb as (cs & Hch & _ & _ & Hsz & E & _).
  exists cs. cbn [ViewLimit cur cidx vsize]. split; [done|]. rewrite Hsz, E.
  destruct (Z.ltb_spec (Z.of_nat (length (content (fidx (cb_buf b)) cs))) n).
  - split; [lia|]. rewrite !take_ge by lia. done.
  - split; [lia|done].
Qed.

Lemma CloneLimit_views st v l n : views st v l -> 0 <= n -> views st (CloneLimit v n) (take (Z.to_nat n) l).
Proof.
  intros (cs & Hch & Hs & ->) Hn. exists cs. cbn [CloneLimit cur cidx vsize]. split; [done|].
  rewrite take_take. destruct (Z.ltb_spec n (vsize v)); (split; [lia|]); f_equal; lia.
Qed.

#[export] Program Instance chunk_stream_laws : ChunkBufferLaws chunk_buffer := {
  holds := chunk_holds;
  sees b v l c := views (cb_store b) v l /\ consumed v = c
}.
Next Obligation.
  exists []. split; [by split; [|constructor|constructor|]|]. split; [apply empty_buffers|]. split; [done|].
  intros i Hi. by apply not_elem_of_nil in Hi.
Qed.
Next Obligation. intros b l d. apply chunk_append. Qed.
Next Obligation.
  intros b l (_ & _ & (cs & _ & _ & _ & Hsz & _) & _). cbn. unfold Buffer_Len. by rewrite Hsz, length_unstamp.
Qed.
Next Obligation.
  intros b l (cs & Hch & _ & -> & Hts). cbn. unfold cb_firstTime. destruct cs as [|[i c] cs].
  - destruct Hch as [-> _ _ _]. change (timed_of (cb_ts b) []) with (@nil (Z * time)). by rewrite drop_nil.
  - destruct (chain_head _ _ _ _ _ _ Hch) as (-> & Hlt & _). cbn. destruct (Hts i ltac:(by left)) as [t Ht].
    rewrite Ht. cbn. rewrite drop_app_le by (rewrite length_stamp; lia).
    rewrite stamp_drop. pose proof (length_drop c (fidx (cb_buf b))).
    destruct (drop (fidx (cb_buf b)) c); [cbn in *; lia|done].
Qed.
Next Obligation. intros b l n. apply chunk_consume. Qed.
Next Obligation. intros b l n Hb Hn. split; [by apply chunk_view|done]. Qed.
Next Obligation. intros b v l c [Hv _]. by apply views_size in Hv. Qed.
Next Obligation. by intros b v l c [_ ?]. Qed.
Next Obligation. intros b v l c n [Hv Hc] Hn. split; [by apply CloneLimit_views|done]. Qed.
Next Obligation. intros b v l c needle [Hv _] Hne. cbn. by rewrite (Index_spec _ _ l). Qed.
Next Obligation.
  intros b v l c [Hv Hc]. pose proof (ReadByte_spec _ _ _ Hv) as H. destruct l as [|x l]; cbn; [done|].
  destruct H as (v' & E & Hv' & Hc'). exists v'. split; [done|]. split; [done|]. by rewrite Hc', Hc.
Qed.
Next Obligation.
  intros b v l c n [Hv Hc]. destruct (Read_spec _ _ _ n Hv) as (v' & E & Hv' & Hc'). exists v'. cbn. rewrite E.
  split; [done|]. split; [done|]. by rewrite Hc', Hc.
Qed.
