(* ===== verification/Parsers.v ===== *)
(** The Butler's stream parsers (logdog/client/butler/bundler/parser.go,
    textParser.go, binaryParser.go, datagramParser.go): how the buffered bytes
    of a text, binary or datagram stream are cut into log entries.  Written over
    the interface of TimedBuffer. *)
From S2P Require Import Prelude Varint RecordIO ChunkStream LogEntry TimedBuffer StreamName.
Local Open Scope Z_scope.

Record constraints := { limit : Z; allowSplit : bool; closed : bool }.

Definition blen (l : bytes) : Z := Z.of_nat (length l).

(** * Cutting text (textParser.go) *)
Definition posixNewline : bytes := [10].
Definition windowsNewline : bytes := [13; 10].

(** [utf8.DecodeRune]: whether the rune is RuneError, and its width.  U+FFFD
    itself, encoded in three bytes, is RuneError too. *)
Definition DecodeRune (b : bytes) : bool * nat :=
  let sz := rune_width b in
  (((sz =? 1)%nat && match b with b0 :: _ => 0x80 <=? b0 | [] => true end)
     || bool_decide (take 3 b = [0xEF; 0xBF; 0xBD]), sz).

(** The loop that finds where the last good rune ends; every rune takes a byte. *)
Fixpoint rune_loop (fuel : nat) (b : bytes) (count lidx : Z) : Z :=
  match b, fuel with
  | [], _ | _, O => lidx
  | _, S fuel =>
      let '(err, sz) := DecodeRune b in
      let count := count + Z.of_nat sz in
      rune_loop fuel (drop sz b) count (if err : bool then lidx else count)
  end.

(** What a line is made of: [idx] is the place of the newline in the view,
    [buf] what was read up to it and [plen] the length of the parser's buffer. *)
Definition cut_line (c : constraints) (idx : Z) (buf : bytes) (plen : Z) : option Text_Line :=
  let newline := if 0 <=? idx then posixNewline else [] in
  let '(buf, newline) :=
    if bool_decide (list.last buf = Some 13) then
      let '(newline, split) :=
        if bool_decide (newline <> []) then (windowsNewline, true)
        else (newline, negb (closed c && (blen buf =? plen))) in
      (if split : bool then removelast buf else buf, newline)
    else (buf, newline) in
  if idx <? 0 then
    let lidx := rune_loop (length buf) buf 0 (-1) in
    if lidx <? 0 then None else Some {| Value := take (Z.to_nat lidx) buf; Delimiter := newline |}
  else Some {| Value := buf; Delimiter := newline |}.

Definition line_len (l : Text_Line) : Z := blen (Value l) + blen (Delimiter l).
Definition complete (l : Text_Line) : bool := bool_decide (Delimiter l <> []).

Section Parsers.
Context {B : Type} `{CB : ChunkBuffer B}.

(** * What the parsers share (parser.go)

    The counter is the Bundler's, shared by all streams: it is passed along. *)
Record baseParser := { buf : B; timeBase : time; nextIndex : Z }.
Definition set_buf (p : baseParser) (b : B) : baseParser :=
  {| buf := b; timeBase := timeBase p; nextIndex := nextIndex p |}.

(** The entry, with the sequence and content that its callers fill in. *)
Definition baseLogEntry (p : baseParser) (counter : Z) (t : time) (seq : Z) (content : LogContent)
  : LogEntry * baseParser * Z :=
  let '(idx, counter) := counter_next counter in
  ({| TimeOffset := NewDuration (Time_Sub t (timeBase p)); PrefixIndex := u64 idx;
      StreamIndex := nextIndex p; Sequence := seq; Content := content |},
   {| buf := buf p; timeBase := timeBase p; nextIndex := u64 (nextIndex p + 1) |}, counter).

Definition bufferedBytes (p : baseParser) : Z := buf_Len (buf p).
Definition firstChunkTime (p : baseParser) : option time := buf_firstTime (buf p).
Definition zero_time : time := 0.

(** * Text *)
Record textParser := { tp_base : baseParser; sequence : Z }.

Record text_state := { tx_buf : B; tx_ts : time; tx_lines : list Text_Line; tx_count : Z }.

(** One line after the other; each takes at least one byte of the limit. *)
Fixpoint text_loop (fuel : nat) (c : constraints) (lim : Z) (s : text_state) : outcome text_state :=
  if 0 <? lim then
    match fuel with
    | O => Panic
    | S fuel =>
        let b := tx_buf s in
        let br := buf_ViewLimit b lim in
        if view_Remaining br =? 0 then Ret s
        else
        let ct := default zero_time (buf_firstTime b) in
        if bool_decide (tx_lines s <> []) && negb (ct =? tx_ts s) then Ret s
        else
        idx ← view_Index b br posixNewline;
        if (idx <? 0) && negb (allowSplit c) then Ret s
        else
        let br := if 0 <=? idx then view_CloneLimit br idx else br in
        '(data, _) ← view_Read b br (Z.to_nat (view_Remaining br));
        match cut_line c idx data (buf_Len b) with
        | None => Ret s
        | Some line =>
            b ← buf_Consume b (line_len line);
            text_loop fuel c (lim - line_len line)
              {| tx_buf := b; tx_ts := ct; tx_lines := tx_lines s ++ [line];
                 tx_count := tx_count s + (if idx <? 0 then 0 else 1) |}
        end
    end
  else Ret s.

Definition textParser_nextEntry (c : constraints) (counter : Z) (p : textParser)
  : outcome (option LogEntry * textParser * Z) :=
  s ← text_loop (S (Z.to_nat (limit c))) c (limit c)
        {| tx_buf := buf (tp_base p); tx_ts := zero_time; tx_lines := []; tx_count := 0 |};
  match tx_lines s with
  | [] => Ret (None, p, counter)
  | lines =>
      let '(le, base, counter) :=
        baseLogEntry (set_buf (tp_base p) (tx_buf s)) counter (tx_ts s) (u64 (sequence p)) (Text lines) in
      Ret (Some le, {| tp_base := base; sequence := i64 (sequence p + tx_count s) |}, counter)
  end.

(** * Binary (binaryParser.go) *)
Record binaryParser := { bp_base : baseParser; offset : Z; threshold : Z }.
Definition defaultBinaryThreshold : Z := 8 * 1024.
Definition getThreshold (p : binaryParser) : Z :=
  if threshold p =? 0 then defaultBinaryThreshold else threshold p.

Definition binaryParser_nextEntry (c : constraints) (counter : Z) (p : binaryParser)
  : outcome (option LogEntry * binaryParser * Z) :=
  let thr := if allowSplit c then 0 else getThreshold p in
  let b := buf (bp_base p) in
  let count := buf_Len b in
  if count <=? thr then Ret (None, p, counter)
  else
  let count := if limit c <? count then limit c else count in
  if count <? 0 then Panic
  else
  '(data, _) ← view_Read b (buf_ViewLimit b (buf_Len b)) (Z.to_nat count);
  if negb (blen data =? count) then Panic
  else
  let t := default zero_time (buf_firstTime b) in
  let '(e, base, counter) := baseLogEntry (bp_base p) counter t (u64 (offset p)) (Binary (u64 (offset p)) data) in
  b ← buf_Consume b (blen data);
  Ret (Some e, {| bp_base := set_buf base b; offset := i64 (offset p + blen data); threshold := threshold p |}, counter).

(** * Datagrams (datagramParser.go) *)
Record datagramParser := {
  dp_base : baseParser; maxSize : Z; seq : Z; remaining : Z; index : Z; dsize : Z
}.

(** [binary.ReadUvarint] on a view, which is an [io.ByteReader]. *)
Fixpoint view_ReadUvarint (fuel : nat) (b : B) (v : view) (i x s : Z) : outcome (result ReadError (Z * view)) :=
  match fuel with
  | O => Panic
  | S fuel =>
      '(byte, v) ← view_ReadByte b v;
      match byte with
      | None => Ret (Err EOF)
      | Some byte =>
          if byte <? 0x80 then
            if (9 <? i) || ((i =? 9) && (1 <? byte)) then Ret (Err Overflow)
            else Ret (Ok (Z.lor x (u64 (Z.shiftl byte s)), v))
          else view_ReadUvarint fuel b v (i + 1) (Z.lor x (u64 (Z.shiftl (Z.land byte 0x7f) s))) (s + 7)
      end
  end.

(** [recordio.NewReader(bv, max).ReadFrame()]: the size of the next frame. *)
Definition view_ReadFrame (b : B) (v : view) (max : Z) : outcome (result ReadError (Z * view)) :=
  res ← view_ReadUvarint (S (Z.to_nat (view_Remaining v))) b v 0 0 0;
  Ret (match res with
       | Err e => Err e
       | Ok (count, v) => if u64 max <? count then Err ErrFrameTooLarge else Ok (i64 count, v)
       end).

(** The size header of a datagram, unless one is in progress.  [Ok None] is
    returning without an entry. *)
Definition load_header (p : datagramParser) : outcome (result ReadError (option datagramParser)) :=
  if remaining p =? 0 then
    let b := buf (dp_base p) in
    res ← view_ReadFrame b (buf_ViewLimit b (buf_Len b)) (maxSize p);
    match res with
    | Err EOF => Ret (Ok None)
    | Err ErrFrameTooLarge => Ret (Err ErrFrameTooLarge)
    | Err Overflow => Panic (* memoryCorruption *)
    | Ok (size, bv) =>
        b ← buf_Consume b (view_Consumed bv);
        Ret (Ok (Some {| dp_base := set_buf (dp_base p) b; maxSize := maxSize p; seq := seq p;
                         remaining := size; index := 0; dsize := size |}))
    end
  else Ret (Ok (Some p)).

(** How much of the datagram to emit, and whether it continues. *)
Definition emit_count (lim remaining avail : Z) : Z * bool :=
  let '(emitCount, continued) := if lim <? remaining then (lim, true) else (remaining, false) in
  if avail <? emitCount then (avail, true) else (emitCount, continued).

Definition emit_datagram (c : constraints) (counter : Z) (t : time) (p : datagramParser)
  : outcome (option LogEntry * datagramParser * Z) :=
  let b := buf (dp_base p) in
  let bv := buf_ViewLimit b (remaining p) in
  let '(emitCount, continued) := emit_count (limit c) (remaining p) (view_Remaining bv) in
  if (0 <? remaining p) && (emitCount =? 0) then Ret (None, p, counter)
  else if continued && negb (allowSplit c) then Ret (None, p, counter)
  else
  let partial := if continued || (0 <? index p)
                 then Some {| Index := u32 (index p); Size := u64 (dsize p); Last := negb continued |}
                 else None in
  '(data, b) ← (if 0 <? emitCount
                then '(data, _) ← view_Read b bv (Z.to_nat emitCount); b ← buf_Consume b emitCount; Ret (data, b)
                else Ret ([], b));
  let '(le, base, counter) :=
    baseLogEntry (set_buf (dp_base p) b) counter t (u64 (seq p)) (Datagram data partial) in
  Ret (Some le,
       (if continued
        then {| dp_base := base; maxSize := maxSize p; seq := seq p; remaining := remaining p - emitCount;
                index := index p + 1; dsize := dsize p |}
        else {| dp_base := base; maxSize := maxSize p; seq := i64 (seq p + 1); remaining := 0;
                index := index p; dsize := dsize p |}),
       counter).

Definition datagramParser_nextEntry (c : constraints) (counter : Z) (p : datagramParser)
  : outcome (result ReadError (option LogEntry) * datagramParser * Z) :=
  match firstChunkTime (dp_base p) with
  | None => Ret (Ok None, p, counter)
  | Some t =>
      res ← load_header p;
      match res with
      | Err e => Ret (Err e, p, counter)
      | Ok None => Ret (Ok None, p, counter)
      | Ok (Some p) => '(le, p, counter) ← emit_datagram c counter t p; Ret (Ok le, p, counter)
      end
  end.

(** * Any parser (the [parser] interface and [newParser]) *)
Inductive parser :=
| TextP (p : textParser)
| BinaryP (p : binaryParser)
| DatagramP (p : datagramParser).

Inductive StreamType := TEXT | BINARY | DATAGRAM | OtherType (n : Z).
Definition MaxDatagramSize : Z := 10 * 1024 * 1024.

Definition newParser (st : StreamType) (timestamp : time) : option parser :=
  let base := {| buf := buf_new; timeBase := timestamp; nextIndex := 0 |} in
  match st with
  | TEXT => Some (TextP {| tp_base := base; sequence := 0 |})
  | BINARY => Some (BinaryP {| bp_base := base; offset := 0; threshold := 0 |})
  | DATAGRAM => Some (DatagramP {| dp_base := base; maxSize := MaxDatagramSize; seq := 0;
                                   remaining := 0; index := 0; dsize := 0 |})
  | OtherType _ => None
  end.

Definition parser_base (p : parser) : baseParser :=
  match p with TextP p => tp_base p | BinaryP p => bp_base p | DatagramP p => dp_base p end.
Definition parser_set_base (p : parser) (b : baseParser) : parser :=
  match p with
  | TextP p => TextP {| tp_base := b; sequence := sequence p |}
  | BinaryP p => BinaryP {| bp_base := b; offset := offset p; threshold := threshold p |}
  | DatagramP p => DatagramP {| dp_base := b; maxSize := maxSize p; seq := seq p; remaining := remaining p;
                                index := index p; dsize := dsize p |}
  end.

Definition appendData (p : parser) (d : streamData) : parser :=
  parser_set_base p (set_buf (parser_base p) (buf_Append (buf (parser_base p)) d)).

Definition nextEntry (c : constraints) (counter : Z) (p : parser)
  : outcome (result ReadError (option LogEntry) * parser * Z) :=
  match p with
  | TextP p => '(le, p, counter) ← textParser_nextEntry c counter p; Ret (Ok le, TextP p, counter)
  | BinaryP p => '(le, p, counter) ← binaryParser_nextEntry c counter p; Ret (Ok le, BinaryP p, counter)
  | DatagramP p => '(le, p, counter) ← datagramParser_nextEntry c counter p; Ret (le, DatagramP p, counter)
  end.
End Parsers.

(** * Runes *)

(** The first byte tells how many continuation bytes must follow. *)
Definition follow (lo hi : Z) (n : nat) (s : bytes) : nat :=
  match s with
  | b1 :: s => if cont lo hi b1 && forallb (cont 0x80 0xBF) (take n s) && (n <=? length s)%nat then S (S n) else 1%nat
  | [] => 1%nat
  end.

Lemma rune_width_lead b0 :
  (forall s, rune_width (b0 :: s) = 1%nat) \/
  (exists lo hi n, forall s, rune_width (b0 :: s) = follow lo hi n s).
Proof.
  unfold rune_width. repeat (case_match; [solve [by left | right; by eexists _, _, _]|]).
  by left.
Qed.

Lemma follow_le lo hi n s : (follow lo hi n s <= S (length s))%nat.
Proof.
  destruct s as [|b1 s]; cbn; [lia|]. case_match eqn:E; [|lia]. apply andb_true_iff in E as [_ E%Nat.leb_le]. lia.
Qed.

Lemma follow_take lo hi n s k : follow lo hi n s = S k -> follow lo hi n (take k s) = S k.
Proof.
  destruct s as [|b1 s]; cbn; [by destruct k|]. case_match eqn:E; intros [= <-]; [|done]. cbn.
  apply andb_true_iff in E as [E El%Nat.leb_le].
  by rewrite take_take, Nat.min_id, E, length_take, (proj2 (Nat.leb_le _ _)) by lia.
Qed.

Lemma rune_width_le s : (rune_width s <= length s)%nat.
Proof.
  destruct s as [|b0 s]; [done|]. destruct (rune_width_lead b0) as [H|(lo & hi & n & H)]; rewrite H; cbn; [lia|].
  apply follow_le.
Qed.

Lemma rune_width_take s : rune_width (take (rune_width s) s) = rune_width s.
Proof.
  destruct s as [|b0 s]; [done|]. destruct (rune_width_lead b0) as [H|(lo & hi & n & H)]; rewrite H; [by apply H|].
  pose proof (rune_width_pos (b0 :: s) ltac:(done)) as Hp. rewrite H in Hp.
  destruct (follow lo hi n s) as [|k] eqn:E; [lia|]. cbn [take]. rewrite H. by apply follow_take.
Qed.

(** A good rune that ends a string. *)
Definition good_rune (r : bytes) : Prop := r <> [] /\ DecodeRune r = (false, length r).

Lemma DecodeRune_good b sz : b <> [] -> DecodeRune b = (false, sz) -> good_rune (take sz b) /\ (1 <= sz <= length b)%nat.
Proof.
  unfold good_rune, DecodeRune. intros Hne [= He Hsz]. pose proof (rune_width_pos b Hne) as Hp.
  pose proof (rune_width_le b) as Hl. rewrite Hsz in *. split; [|lia].
  assert (Hlen : length (take sz b) = sz) by (rewrite length_take; lia).
  split; [intros E; rewrite E in Hlen; cbn in Hlen; lia|]. rewrite Hlen, <-Hsz, rune_width_take, Hsz. f_equal.
  apply orb_false_iff in He as [He1 He2]. apply orb_false_iff. split.
  - destruct b as [|b0 b]; [done|]. destruct sz; [lia|]. exact He1.
  - apply bool_decide_eq_false in He2. apply bool_decide_eq_false. intros E. apply He2. rewrite <-E.
    apply (f_equal length) in E. rewrite take_take, length_take in E.
    change (length [0xEF; 0xBF; 0xBD]) with 3%nat in E. rewrite take_take. f_equal. lia.
Qed.

Lemma rune_loop_spec fuel b count lidx : (length b <= fuel)%nat ->
  rune_loop fuel b count lidx = lidx \/
  exists pre r, rune_loop fuel b count lidx = count + blen pre + blen r /\ good_rune r /\
    (exists post, b = pre ++ r ++ post).
Proof.
  revert b count lidx. induction fuel as [|fuel IH]; intros b count lidx Hf; [destruct b; [by left|cbn in Hf; lia]|].
  destruct b as [|b0 b]; [by left|]. cbn [rune_loop]. destruct (DecodeRune (b0 :: b)) as [err sz] eqn:Ed.
  assert (Hsz : (1 <= sz <= length (b0 :: b))%nat).
  { apply (f_equal snd) in Ed. change (rune_width (b0 :: b) = sz) in Ed. rewrite <-Ed.
    split; [by apply rune_width_pos|apply rune_width_le]. }
  destruct (IH (drop sz (b0 :: b)) (count + Z.of_nat sz) (if err then lidx else count + Z.of_nat sz))
    as [->|(pre & r & -> & Hr & post & Hpost)].
  - rewrite length_drop. cbn in *. lia.
  - destruct err; [by left|]. right. apply DecodeRune_good in Ed as [Hg _]; [|done].
    exists [], (take sz (b0 :: b)). unfold blen. rewrite length_take. cbn [length]. split; [cbn in *; lia|]. split; [done|].
    exists (drop sz (b0 :: b)). cbn [app]. by rewrite take_drop.
  - right. exists (take sz (b0 :: b) ++ pre), r. split; [|split; [done|]].
    + unfold blen. rewrite length_app, length_take. cbn [length] in *. lia.
    + exists post. rewrite <-app_assoc, <-Hpost. by rewrite take_drop.
Qed.

(** * Lines *)

(** A line holds no newline; its delimiter is a POSIX or a Windows newline, a
    carriage return before the newline always being taken as part of it; a line
    that is continued is not empty and ends with a whole rune. *)
Definition line_ok (ln : Text_Line) : Prop :=
  10 ∉ Value ln /\
  (Delimiter ln = posixNewline /\ list.last (Value ln) <> Some 13 \/
   Delimiter ln = windowsNewline \/
   Delimiter ln = [] /\ exists pre r, Value ln = pre ++ r /\ good_rune r).

Definition line_raw (ln : Text_Line) : bytes := Value ln ++ Delimiter ln.

Lemma line_len_raw ln : line_len ln = blen (line_raw ln).
Proof. unfold line_len, line_raw, blen. rewrite length_app. lia. Qed.

Lemma line_ok_pos ln : line_ok ln -> 0 < line_len ln.
Proof.
  intros [_ [[E _]|[E|[_ (pre & r & E & Hr & _)]]]]; unfold line_len, blen; rewrite E; cbn; [lia..|].
  rewrite length_app. destruct r; [done|]. cbn. lia.
Qed.

Lemma newline_index v :
  (bytes_Index v posixNewline = -1 /\ 10 ∉ v) \/
  exists a b, v = a ++ 10 :: b /\ 10 ∉ a /\ bytes_Index v posixNewline = blen a.
Proof.
  induction v as [|x v IH]; [left; split; [done|by intros ?%not_elem_of_nil]|].
  cbn [bytes_Index posixNewline length take]. rewrite take_0. case_bool_decide as Hx.
  - injection Hx as ->. right. exists [], v. split; [done|]. split; [by intros ?%not_elem_of_nil|done].
  - assert (x <> 10) by (intros ->; by apply Hx). fold posixNewline in *. destruct IH as [[-> Hn]|(a & b & -> & Hn & ->)].
    + left. split; [done|]. by apply not_elem_of_cons.
    + right. exists (x :: a), b. split; [done|]. split; [by apply not_elem_of_cons|].
      unfold blen. cbn [length]. rewrite (proj2 (Z.ltb_ge _ 0)) by lia. lia.
Qed.

Lemma removelast_last {A} (l : list A) x : list.last l = Some x -> l = removelast l ++ [x].
Proof. intros [l' ->]%last_Some. by rewrite removelast_last. Qed.

Lemma last_removelast_cr (l : bytes) : 10 ∉ l -> 10 ∉ removelast l.
Proof.
  destruct (list.last l) as [x|] eqn:E; [|by apply last_None in E as ->].
  apply removelast_last in E. rewrite E at 1. intros H. apply not_elem_of_app in H. tauto.
Qed.

(** The view [v] is cut at its first newline, or before what may be incomplete. *)
Lemma cut_line_spec c v plen : v <> [] ->
  let idx := bytes_Index v posixNewline in
  let data := if 0 <=? idx then take (Z.to_nat idx) v else v in
  match cut_line c idx data plen with
  | Some ln => line_ok ln /\ complete ln = (0 <=? idx) /\ exists post, v = line_raw ln ++ post
  | None => idx < 0
  end.
Proof.
  intros Hv idx data. subst idx data. destruct (newline_index v) as [[-> Hn]|(a & b & -> & Hn & ->)].
  - cbn [Z.leb Z.compare]. unfold cut_line. cbn [Z.leb Z.compare Z.ltb].
    set (r := if bool_decide (list.last v = Some 13) then _ else _).
    assert (Hr : r.2 = [] /\ 10 ∉ r.1 /\ exists post, v = r.1 ++ post).
    { subst r. case_bool_decide as Hl; [|cbn; split; [done|]; split; [done|]; exists []; by rewrite app_nil_r].
      rewrite bool_decide_false by tauto. case_match; cbn; (split; [done|]); (split; [auto using last_removelast_cr|]).
      - exists [13]. by apply removelast_last. 
      - exists []. by rewrite app_nil_r. }
    destruct r as [d nl]. cbn [fst snd] in Hr. destruct Hr as (-> & Hd & post & ->).
    destruct (rune_loop_spec (length d) d 0 (-1) (le_n _)) as [->|(pre & rr & -> & Hg & post' & Hp)].
    { done. }
    rewrite (proj2 (Z.ltb_ge _ 0)) by (unfold blen; lia).
    assert (Ht : take (Z.to_nat (0 + blen pre + blen rr)) d = pre ++ rr).
    { rewrite Hp, app_assoc. apply take_app_length'. unfold blen. rewrite length_app. lia. }
    rewrite Ht. split; [|split; [done|]].
    + split; cbn [Value Delimiter].
      * rewrite Hp, app_assoc in Hd. apply not_elem_of_app in Hd. tauto.
      * right. right. eauto.
    + exists (post' ++ post). unfold line_raw. cbn [Value Delimiter]. rewrite Hp. by rewrite app_nil_r, <-!app_assoc.
  - assert (H0 : 0 <= blen a) by (unfold blen; lia). rewrite (proj2 (Z.leb_le 0 _)) by lia.
    assert (Ht : take (Z.to_nat (blen a)) (a ++ 10 :: b) = a) by (apply take_app_length'; unfold blen; lia).
    rewrite Ht. unfold cut_line. rewrite (proj2 (Z.leb_le 0 _)), (proj2 (Z.ltb_ge _ 0)) by lia.
    case_bool_decide as Hl; cbn.
    + pose proof (removelast_last _ _ Hl) as Ea. split; [|split; [done|]].
      * split; cbn [Value Delimiter]; [by apply last_removelast_cr|]. by right; left.
      * exists b. unfold line_raw. cbn. rewrite Ea at 1. by rewrite <-!app_assoc.
    + split; [|split; [done|]].
      * split; cbn; [done|]. by left.
      * exists b. unfold line_raw. cbn. by rewrite <-app_assoc.
Qed.

(** ** What a text entry takes from the buffer

    Lines, one after the other from the front, each starting with a byte that
    arrived at time [t]. *)
Inductive cuts (t : time) : timed -> list Text_Line -> timed -> Prop :=
| cuts_nil l : cuts t l [] l
| cuts_cons l1 l lns l' ln :
    line_ok ln -> unstamp l1 = line_raw ln -> snd <$> head l1 = Some t ->
    cuts t l lns l' -> cuts t (l1 ++ l) (ln :: lns) l'.

Definition lines_raw (lns : list Text_Line) : bytes := concat (map line_raw lns).
Definition lines_complete (lns : list Text_Line) : Z := Z.of_nat (length (filter (fun ln => complete ln = true) lns)).

Lemma cuts_raw t l lns l' : cuts t l lns l' -> unstamp l = lines_raw lns ++ unstamp l'.
Proof.
  induction 1 as [|l1 l lns l' ln _ E _ _ IH]; [done|].
  unfold lines_raw in *. cbn. by rewrite unstamp_app, IH, E, app_assoc.
Qed.

Lemma cuts_ok t l lns l' : cuts t l lns l' -> Forall line_ok lns.
Proof. induction 1; by constructor. Qed.

Lemma cuts_suffix t l lns l' : cuts t l lns l' -> exists k, l' = drop k l /\ (length lns <= k <= length l)%nat.
Proof.
  induction 1 as [l|l1 l lns l' ln Hok E _ _ (k & -> & Hk)]; [exists 0%nat; by split; [|cbn; lia]|].
  exists (length l1 + k)%nat. split; [by rewrite <-drop_drop, drop_app_length|].
  pose proof (line_ok_pos _ Hok) as Hp. rewrite line_len_raw, <-E in Hp. unfold blen in Hp.
  rewrite length_unstamp in Hp. rewrite length_app. cbn. lia.
Qed.

Lemma cuts_head t l lns l' : lns <> [] -> cuts t l lns l' -> snd <$> head l = Some t.
Proof. intros Hne Hc. destruct Hc as [|l1 l lns l' ln Hok _ Hh _]; [done|]. by destruct l1. Qed.

Section Laws.
Context {B : Type} `{CL : ChunkBufferLaws B}.

Lemma read_all (b : B) v l c : sees b v l c ->
  exists v', view_Read b v (Z.to_nat (view_Remaining v)) = Ret (l, v').
Proof.
  intros Hv. rewrite (law_remaining _ _ _ _ Hv), Nat2Z.id.
  destruct (law_read _ _ _ _ (length l) Hv) as (v' & -> & _). exists v'. by rewrite firstn_all.
Qed.

(** One round of the loop: it stops, or cuts one line. *)
Definition text_round (c : constraints) (lim : Z) (l : timed) (s : text_state (B := B)) : option (Text_Line * Z) :=
  let v := take (Z.to_nat lim) (unstamp l) in
  if (length v =? 0)%nat then None
  else
  let ct := default zero_time (snd <$> head l) in
  if bool_decide (tx_lines s <> []) && negb (ct =? tx_ts s) then None
  else
  let idx := bytes_Index v posixNewline in
  if (idx <? 0) && negb (allowSplit c) then None
  else (fun ln => (ln, ct)) <$> cut_line c idx (if 0 <=? idx then take (Z.to_nat idx) v else v) (Z.of_nat (length l)).

Lemma text_loop_round fuel c lim s l : holds (tx_buf s) l ->
  text_loop (S fuel) c lim s =
  if 0 <? lim then
    match text_round c lim l s with
    | None => Ret s
    | Some (ln, ct) =>
        b ← buf_Consume (tx_buf s) (line_len ln);
        text_loop fuel c (lim - line_len ln)
          {| tx_buf := b; tx_ts := ct; tx_lines := tx_lines s ++ [ln];
             tx_count := tx_count s + (if bytes_Index (take (Z.to_nat lim) (unstamp l)) posixNewline <? 0 then 0 else 1) |}
    end
  else Ret s.
Proof.
  intros Hb. cbn [text_loop]. destruct (Z.ltb_spec 0 lim) as [Hlim|]; [|done]. unfold text_round.
  pose proof (law_view _ _ lim Hb ltac:(lia)) as Hv. set (v := take (Z.to_nat lim) (unstamp l)) in *.
  rewrite (law_remaining _ _ _ _ Hv), (law_first _ _ Hb), (law_len _ _ Hb).
  destruct (Nat.eqb_spec (length v) 0) as [Hz|Hz]; [by rewrite Hz|].
  rewrite (proj2 (Z.eqb_neq _ _)) by lia. case_match; [done|].
  rewrite (law_index _ _ _ _ _ Hv) by done. cbn [mbind outcome_bind].
  set (idx := bytes_Index v posixNewline). case_match; [done|].
  assert (Hr : exists v', view_Read (tx_buf s) (if 0 <=? idx then view_CloneLimit (buf_ViewLimit (tx_buf s) lim) idx
      else buf_ViewLimit (tx_buf s) lim) (Z.to_nat (view_Remaining (if 0 <=? idx then view_CloneLimit (buf_ViewLimit (tx_buf s) lim) idx
      else buf_ViewLimit (tx_buf s) lim))) = Ret (if 0 <=? idx then take (Z.to_nat idx) v else v, v')).
  { destruct (Z.leb_spec 0 idx); eapply read_all; [by apply law_clone|done]. }
  destruct Hr as [v' ->]. cbn [mbind outcome_bind].
  destruct (cut_line c idx (if 0 <=? idx then take (Z.to_nat idx) v else v) (Z.of_nat (length l))); reflexivity.
Qed.

Lemma text_round_spec c lim l s ln ct : text_round c lim l s = Some (ln, ct) ->
  line_ok ln /\ complete ln = negb (bytes_Index (take (Z.to_nat lim) (unstamp l)) posixNewline <? 0) /\
  (allowSplit c = true \/ complete ln = true) /\
  line_len ln <= lim /\ (tx_lines s <> [] -> ct = tx_ts s) /\
  exists l1 l2, l = l1 ++ l2 /\ unstamp l1 = line_raw ln /\ snd <$> head l1 = Some ct.
Proof.
  unfold text_round. set (v := take (Z.to_nat lim) (unstamp l)).
  destruct (Nat.eqb_spec (length v) 0) as [|Hz]; [done|]. case_match eqn:Ets; [done|]. case_match eqn:Esp; [done|].
  pose proof (cut_line_spec c v (Z.of_nat (length l)) ltac:(by intros E; rewrite E in Hz)) as H. cbn zeta in H.
  destruct (cut_line _ _ _ _) as [ln'|]; [|done]. cbn. intros [= -> <-]. destruct H as (Hok & Hcp & post & Hpost).
  rewrite <-Z.leb_antisym. split; [done|]. split; [done|]. split.
  { rewrite Hcp, Z.leb_antisym. destruct (_ <? 0), (allowSplit c); cbn in *; auto. }
  assert (Hlen : (length (line_raw ln) <= length v)%nat) by (rewrite Hpost, length_app; lia).
  split.
  { rewrite line_len_raw. unfold blen. subst v. rewrite length_take in Hlen, Hz. lia. }
  split.
  { intros Hne. rewrite bool_decide_true in Ets by done. cbn in Ets. apply negb_false_iff, Z.eqb_eq in Ets. done. }
  assert (Hul : unstamp l = line_raw ln ++ post ++ drop (Z.to_nat lim) (unstamp l)).
  { rewrite app_assoc, <-Hpost. subst v. by rewrite take_drop. }
  exists (take (length (line_raw ln)) l), (drop (length (line_raw ln)) l).
  split; [by rewrite take_drop|]. split; [rewrite unstamp_take, Hul; by rewrite take_app_length|].
  pose proof (line_ok_pos _ Hok) as Hp. rewrite line_len_raw in Hp. unfold blen in Hp.
  destruct l as [|[x t] l]; [subst v; rewrite length_take, length_unstamp in Hz; cbn in Hz; lia|].
  destruct (length (line_raw ln)); [cbn in Hp; lia|]. done.
Qed.

Lemma text_loop_spec fuel c lim s l : holds (tx_buf s) l -> (Z.to_nat lim < fuel)%nat ->
  exists s' more l', text_loop fuel c lim s = Ret s' /\ holds (tx_buf s') l' /\
    tx_lines s' = tx_lines s ++ more /\ cuts (tx_ts s') l more l' /\
    tx_count s' = tx_count s + lines_complete more /\
    (more = [] -> s' = s /\ (0 < lim -> text_round c lim l s = None)) /\
    (tx_lines s <> [] -> tx_ts s' = tx_ts s) /\
    (allowSplit c = true \/ Forall (fun ln => complete ln = true) more) /\
    blen (lines_raw more) <= Z.max 0 lim.
Proof.
  revert lim s l. induction fuel as [|fuel IH]; intros lim s l Hb Hf; [lia|].
  rewrite (text_loop_round _ _ _ _ _ Hb). 
  assert (Hstop : (0 < lim -> text_round c lim l s = None) -> exists s' more l', Ret s = Ret s' /\ holds (tx_buf s') l' /\
    tx_lines s' = tx_lines s ++ more /\ cuts (tx_ts s') l more l' /\
    tx_count s' = tx_count s + lines_complete more /\
    (more = [] -> s' = s /\ (0 < lim -> text_round c lim l s = None)) /\
    (tx_lines s <> [] -> tx_ts s' = tx_ts s) /\
    (allowSplit c = true \/ Forall (fun ln => complete ln = true) more) /\
    blen (lines_raw more) <= Z.max 0 lim).
  { intros Hst. exists s, [], l. rewrite app_nil_r. do 3 (split; [done|]). split; [constructor|].
    split; [change (lines_complete []) with 0; lia|]. do 2 (split; [done|]). split; [right; constructor|]. unfold blen. cbn. lia. }
  destruct (Z.ltb_spec 0 lim) as [Hlim|]; [|apply Hstop; lia].
  destruct (text_round c lim l s) as [[ln ct]|] eqn:Er; [|by apply Hstop]. clear Hstop.
  destruct (text_round_spec _ _ _ _ _ _ Er) as (Hok & Hcp & Hsp & Hlen & Hts & l1 & l2 & -> & Hraw & Hh).
  pose proof (line_ok_pos _ Hok) as Hpos.
  assert (El : line_len ln = Z.of_nat (length l1)).
  { rewrite line_len_raw, <-Hraw. unfold blen. by rewrite length_unstamp. }
  destruct (law_consume _ _ (line_len ln) Hb) as (b' & E & Hb'); [rewrite length_app; lia|].
  rewrite E. cbn [mbind outcome_bind]. rewrite El, Nat2Z.id, drop_app_length in Hb'.
  set (s1 := {| tx_buf := b'; tx_ts := ct; tx_lines := _; tx_count := _ |}).
  destruct (IH (lim - line_len ln) s1 l2) as (s' & more & l' & E' & Hb2 & Hl & Hc & Hn & _ & Ht & Hs & Hr); [done|lia|].
  rewrite E'. assert (Ht1 : tx_ts s' = ct) by (apply Ht; cbn; by destruct (tx_lines s)).
  exists s', (ln :: more), l'. split; [done|]. split; [done|]. split; [rewrite Hl; cbn; by rewrite <-app_assoc|].
  split; [econstructor; [done|done|by rewrite Ht1|by rewrite Ht1 in *]|]. split.
  { rewrite Hn. cbn [tx_count s1]. unfold lines_complete. rewrite filter_cons, Hcp. case_decide as Hd.
    - apply negb_true_iff in Hd. rewrite Hd. cbn [length]. lia.
    - apply not_true_is_false, negb_false_iff in Hd. rewrite Hd. lia. }
  split; [done|]. split; [intros Hne; by rewrite Ht1, Hts|]. split.
  { destruct Hsp as [?|?]; [by left|]. destruct Hs as [?|?]; [by left|right; by constructor]. }
  unfold lines_raw in *. cbn [map concat]. unfold blen in *. rewrite length_app.
  assert (Z.of_nat (length (line_raw ln)) = line_len ln) by (rewrite line_len_raw; done). lia.
Qed.
End Laws.
