(* ===== verification/ParserSpec.v ===== *)
(** What the entries of a stream say (bundler's parsers): the logs a text, binary
    or datagram stream may have after any number of calls, as relations on the
    entries and the bytes they stand for, and the proof that each parser keeps
    its log. *)
From S2P Require Import Prelude Varint RecordIO ChunkStream LogEntry TimedBuffer Parsers.
Local Open Scope Z_scope.

(** * Logs *)
Definition entry_raw (e : LogEntry) : bytes :=
  match Content e with
  | Text lns => lines_raw lns
  | Binary _ d => d
  | Datagram d _ => d
  end.
Definition log_raw (es : list LogEntry) : bytes := concat (map entry_raw es).

Definition entry_lines (e : LogEntry) : Z := match Content e with Text lns => lines_complete lns | _ => 0 end.
Fixpoint total_lines (es : list LogEntry) : Z :=
  match es with [] => 0 | e :: es => entry_lines e + total_lines es end.

(** A text entry carries lines and the number of lines completed before it. *)
Inductive text_log : list LogEntry -> Prop :=
| tl_nil : text_log []
| tl_entry es e lns :
    text_log es -> lns <> [] -> Forall line_ok lns -> Content e = Text lns -> Sequence e = u64 (total_lines es) ->
    text_log (es ++ [e]).

(** A binary entry carries bytes and their offset in the stream. *)
Inductive binary_log : list LogEntry -> Prop :=
| bl_nil : binary_log []
| bl_entry es e d :
    binary_log es -> d <> [] -> Content e = Binary (u64 (blen (log_raw es))) d ->
    Sequence e = u64 (blen (log_raw es)) -> binary_log (es ++ [e]).

(** [h] is a size header. *)
Definition header (h : bytes) (n : Z) : Prop := ReadUvarint h = Ok (n, []).

(** The entries [es] stand for the stream bytes [A]: the datagrams [dgs], then
    the fragments of one in progress: what of it was sent, its size and the
    number of fragments.  A datagram sent at once is not marked partial. *)
Inductive datagram_log : list LogEntry -> bytes -> list bytes -> option (bytes * Z * Z) -> Prop :=
| dl_nil : datagram_log [] [] [] None
| dl_header es A dgs h n :
    datagram_log es A dgs None -> header h n -> 0 <= n -> datagram_log es (A ++ h) dgs (Some ([], n, 0))
| dl_part es A dgs acc n i d e :
    datagram_log es A dgs (Some (acc, n, i)) -> d <> [] -> blen (acc ++ d) < n ->
    Content e = Datagram d (Some {| Index := u32 i; Size := u64 n; Last := false |}) ->
    Sequence e = u64 (Z.of_nat (length dgs)) ->
    datagram_log (es ++ [e]) (A ++ d) dgs (Some (acc ++ d, n, i + 1))
| dl_done es A dgs acc n i d e :
    datagram_log es A dgs (Some (acc, n, i)) -> blen (acc ++ d) = n ->
    Content e = Datagram d (if i =? 0 then None else Some {| Index := u32 i; Size := u64 n; Last := true |}) ->
    Sequence e = u64 (Z.of_nat (length dgs)) ->
    datagram_log (es ++ [e]) (A ++ d) (dgs ++ [acc ++ d]) None.

(** What [baseLogEntry] puts in an entry and does to the parser and counter. *)
Record stamped {B : Type} (e : LogEntry) (p p' : baseParser (B := B)) (k k' : Z) (t : time) : Prop := {
  st_time : TimeOffset e = NewDuration (Time_Sub t (timeBase p));
  st_prefix : PrefixIndex e = u64 k;
  st_index : StreamIndex e = nextIndex p;
  st_next : nextIndex p' = u64 (nextIndex p + 1);
  st_base : timeBase p' = timeBase p;
  st_counter : k' = i64 (k + 1)
}.

Lemma log_raw_snoc es e : log_raw (es ++ [e]) = log_raw es ++ entry_raw e.
Proof. unfold log_raw. rewrite map_app, concat_app. cbn. by rewrite app_nil_r. Qed.

Lemma total_lines_snoc es e : total_lines (es ++ [e]) = total_lines es + entry_lines e.
Proof. induction es as [|x es IH]; cbn; lia. Qed.

Section Specs.
Context {B : Type} `{CL : ChunkBufferLaws B}.

Lemma baseLogEntry_stamped (p : baseParser (B := B)) k t sq ct :
  exists e p' k', baseLogEntry p k t sq ct = (e, p', k') /\ stamped e p p' k k' t /\
    Sequence e = sq /\ Content e = ct /\ buf p' = buf p.
Proof.
  unfold baseLogEntry, counter_next. do 3 eexists. split; [reflexivity|]. split; [|done].
  split; cbn; try done. rewrite u64_i64. change (i64 (k + 1) - 1) with (i64 (k + 1) + -1).
  rewrite <-(u64_add_l (i64 (k + 1))), u64_i64, u64_add_l. f_equal. lia.
Qed.

(** * Text *)
Definition text_start (p : textParser (B := B)) : text_state :=
  {| tx_buf := buf (tp_base p); tx_ts := zero_time; tx_lines := []; tx_count := 0 |}.

Lemma text_nextEntry_spec c k p l : holds (buf (tp_base p)) l ->
  exists r p' k', textParser_nextEntry c k p = Ret (r, p', k') /\
    match r with
    | None => p' = p /\ k' = k /\ (0 < limit c -> text_round c (limit c) l (text_start p) = None)
    | Some e => exists lns l' t, lns <> [] /\ cuts t l lns l' /\ holds (buf (tp_base p')) l' /\
        stamped e (tp_base p) (tp_base p') k k' t /\ Content e = Text lns /\
        Sequence e = u64 (sequence p) /\ sequence p' = i64 (sequence p + lines_complete lns) /\
        (allowSplit c = true \/ Forall (fun ln => complete ln = true) lns) /\ blen (lines_raw lns) <= limit c
    end.
Proof.
  intros Hb. unfold textParser_nextEntry. fold (text_start p).
  destruct (text_loop_spec (S (Z.to_nat (limit c))) c (limit c) (text_start p) l Hb ltac:(lia))
    as (s & more & l' & E & Hb' & Hl & Hc & Hn & He & _ & Hsp & Hr).
  rewrite E. cbn [mbind outcome_bind]. cbn [text_start tx_lines app] in Hl. rewrite Hl.
  destruct more as [|ln lns].
  { exists None, p, k. split; [done|]. split; [done|]. split; [done|]. by apply He. }
  destruct (baseLogEntry_stamped (set_buf (tp_base p) (tx_buf s)) k (tx_ts s) (u64 (sequence p)) (Text (ln :: lns)))
    as (e & p' & k' & -> & Hst & Hsq & Hct & Hbuf).
  exists (Some e), {| tp_base := p'; sequence := i64 (sequence p + tx_count s) |}, k'. split; [done|].
  exists (ln :: lns), l', (tx_ts s). split; [done|]. split; [done|]. cbn [tp_base sequence].
  split; [by rewrite Hbuf|]. split; [by destruct Hst|]. split; [done|]. split; [done|].
  split; [rewrite Hn; done|]. split; [done|].
  assert (0 < limit c \/ limit c <= 0) as [|] by lia; [lia|].
  cbn in E. rewrite (proj2 (Z.ltb_ge 0 (limit c))) in E by lia. injection E as <-. done.
Qed.

(** * Binary *)
Lemma binary_nextEntry_spec c k p l : holds (buf (bp_base p)) l -> 0 < limit c -> 0 <= threshold p ->
  exists r p' k', binaryParser_nextEntry c k p = Ret (r, p', k') /\
    match r with
    | None => p' = p /\ k' = k /\ Z.of_nat (length l) <= (if allowSplit c then 0 else getThreshold p)
    | Some e => exists n t, n = Z.min (limit c) (Z.of_nat (length l)) /\ 0 < n /\ snd <$> head l = Some t /\
        holds (buf (bp_base p')) (drop (Z.to_nat n) l) /\ stamped e (bp_base p) (bp_base p') k k' t /\
        Content e = Binary (u64 (offset p)) (take (Z.to_nat n) (unstamp l)) /\
        Sequence e = u64 (offset p) /\ offset p' = i64 (offset p + n) /\ threshold p' = threshold p
    end.
Proof.
  intros Hb Hlim Hthr. unfold binaryParser_nextEntry. rewrite (law_len _ _ Hb), (law_first _ _ Hb).
  assert (Hg : 0 <= getThreshold p).
  { unfold getThreshold, defaultBinaryThreshold. destruct (threshold p =? 0); lia. }
  destruct (Z.leb_spec (Z.of_nat (length l)) (if allowSplit c then 0 else getThreshold p)) as [|Hlen].
  { exists None, p, k. done. }
  assert (Hpos : 0 < Z.of_nat (length l)) by (destruct (allowSplit c); lia).
  replace (if limit c <? Z.of_nat (length l) then limit c else Z.of_nat (length l))
    with (Z.min (limit c) (Z.of_nat (length l))) by (destruct (Z.ltb_spec (limit c) (Z.of_nat (length l))); lia).
  set (n := Z.min _ _). rewrite (proj2 (Z.ltb_ge n 0)) by lia.
  pose proof (law_view _ _ (Z.of_nat (length l)) Hb ltac:(lia)) as Hv.
  destruct (law_read _ _ _ _ (Z.to_nat n) Hv) as (v' & -> & _). cbn [mbind outcome_bind].
  rewrite Nat2Z.id, take_take, Nat.min_l by lia.
  assert (Hd : blen (take (Z.to_nat n) (unstamp l)) = n) by (unfold blen; rewrite length_take, length_unstamp; lia).
  rewrite Hd, Z.eqb_refl. cbn [negb].
  assert (exists t, snd <$> head l = Some t) as [t Hh] by (destruct l as [|[x t] l]; [cbn in Hpos; lia|by exists t]).
  rewrite Hh. cbn [default from_option id].
  destruct (baseLogEntry_stamped (bp_base p) k t (u64 (offset p)) (Binary (u64 (offset p)) (take (Z.to_nat n) (unstamp l))))
    as (e & p' & k' & Ee & Hst & Hsq & Hct & Hbuf).
  rewrite Ee.
  destruct (law_consume _ _ n Hb) as (b' & -> & Hb'); [lia|]. cbn [mbind outcome_bind].
  eexists (Some e), _, k'. split; [done|]. exists n, t. split; [done|]. split; [lia|]. split; [done|].
  cbn [bp_base offset threshold set_buf buf]. split; [done|]. split; [by destruct Hst|]. done.
Qed.
End Specs.

(** * Datagrams *)
Lemma read_loop_nonneg l i x s n rest : 0 <= x -> read_loop l i x s = Ok (n, rest) -> 0 <= n.
Proof.
  revert i x s. induction l as [|b l IH]; intros i x s Hx; cbn [read_loop]; [done|].
  assert (H : forall y, 0 <= Z.lor x (u64 y)) by (intros y; apply Z.lor_nonneg; split; [done|apply u64_range]).
  destruct (b <? 0x80); [destruct (_ || _); [done|]; by intros [= <- _]|]. by apply IH.
Qed.

Lemma read_loop_suffix l i x s n rest : read_loop l i x s = Ok (n, rest) ->
  exists h, l = h ++ rest /\ h <> [] /\ forall m, read_loop (h ++ m) i x s = Ok (n, m).
Proof.
  revert i x s. induction l as [|b l IH]; intros i x s; cbn [read_loop]; [done|].
  destruct (b <? 0x80) eqn:Eb.
  - destruct (_ || _) eqn:Eo; [done|]. intros [= <- <-]. exists [b]. split; [done|]. split; [done|].
    intros m. cbn. by rewrite Eb, Eo.
  - intros (h & -> & Hh & Hm)%IH. exists (b :: h). split; [done|]. split; [done|]. intros m. cbn. by rewrite Eb.
Qed.

Section DatagramSpec.
Context {B : Type} `{CL : ChunkBufferLaws B}.

Lemma view_ReadUvarint_spec fuel (b : B) v l c i x s : sees b v l c -> (length l < fuel)%nat ->
  match read_loop l i x s with
  | Ok (n, rest) => exists v', view_ReadUvarint fuel b v i x s = Ret (Ok (n, v')) /\
      sees b v' rest (c + (blen l - blen rest))
  | Err VarintEOF => view_ReadUvarint fuel b v i x s = Ret (Err EOF)
  | Err VarintOverflow => view_ReadUvarint fuel b v i x s = Ret (Err Overflow)
  end.
Proof.
  revert v l c i x s. induction fuel as [|fuel IH]; intros v l c i x s Hv Hf; [lia|].
  pose proof (law_readbyte _ _ _ _ Hv) as Hr. destruct l as [|y l]; cbn [read_loop view_ReadUvarint]; [by rewrite Hr|].
  destruct Hr as (v' & -> & Hv'). cbn [mbind outcome_bind]. destruct (y <? 0x80).
  - destruct (_ || _); [done|]. exists v'. split; [done|]. unfold blen. cbn [length].
    replace (c + _) with (c + 1) by lia. done.
  - specialize (IH v' l (c + 1) (i + 1) (Z.lor x (u64 (Z.shiftl (Z.land y 0x7f) s))) (s + 7) Hv' ltac:(cbn in Hf; lia)).
    destruct (read_loop l _ _ _) as [[n rest]|[]]; [|done..]. destruct IH as (w & -> & Hw). exists w. split; [done|].
    unfold blen in *. cbn [length]. replace (c + _) with (c + 1 + (Z.of_nat (length l) - Z.of_nat (length rest))) by lia.
    done.
Qed.

Lemma view_ReadFrame_spec (b : B) v l max : sees b v l 0 -> 0 <= max < 2 ^ 63 ->
  match ReadUvarint l with
  | Ok (n, rest) => 0 <= n /\
      if max <? n then view_ReadFrame b v max = Ret (Err ErrFrameTooLarge)
      else exists v', view_ReadFrame b v max = Ret (Ok (n, v')) /\ view_Consumed v' = blen l - blen rest
  | Err VarintEOF => view_ReadFrame b v max = Ret (Err EOF)
  | Err VarintOverflow => view_ReadFrame b v max = Ret (Err Overflow)
  end.
Proof.
  intros Hv Hm. unfold view_ReadFrame. rewrite (law_remaining _ _ _ _ Hv), Nat2Z.id.
  pose proof (view_ReadUvarint_spec (S (length l)) b v l 0 0 0 0 Hv ltac:(lia)) as H. fold (ReadUvarint l) in H.
  destruct (ReadUvarint l) as [[n rest]|[]] eqn:E; [|by rewrite H..]. destruct H as (v' & -> & Hv').
  pose proof (read_loop_nonneg _ _ _ _ _ _ (Z.le_refl 0) E) as Hn. split; [done|].
  cbn [mbind outcome_bind]. rewrite u64_small by (unfold in_u64; lia).
  destruct (Z.ltb_spec max n); [done|]. exists v'. rewrite i64_small by (unfold in_i64; lia). split; [done|].
  rewrite (law_consumed _ _ _ _ Hv'). lia.
Qed.

(** What the parser's fields say of its log. *)
Definition dg_state (p : datagramParser (B := B)) (st : option (bytes * Z * Z)) : Prop :=
  match st with
  | None => remaining p = 0
  | Some (acc, n, i) => 0 < remaining p /\ remaining p = n - blen acc /\ dsize p = n /\ index p = i /\ 0 <= i
  end.
Definition dg_inv (p : datagramParser (B := B)) (l : timed) (es : list LogEntry) (A : bytes) (dgs : list bytes) : Prop :=
  0 <= maxSize p < 2 ^ 63 /\ seq p = i64 (Z.of_nat (length dgs)) /\ holds (buf (dp_base p)) l /\
  exists C st, datagram_log es C dgs st /\ A = C ++ unstamp l /\ dg_state p st.

Lemma emit_count_spec lim rem avail : 0 < lim -> 0 <= avail ->
  0 <= rem -> emit_count lim rem avail = (Z.min (Z.min lim rem) avail, bool_decide (Z.min lim avail < rem)).
Proof.
  intros. unfold emit_count. destruct (Z.ltb_spec lim rem);
  match goal with |- context [avail <? ?x] => destruct (Z.ltb_spec avail x) end; f_equal; try lia;
    symmetry; (apply bool_decide_eq_true || apply bool_decide_eq_false); lia.
Qed.

(** Emitting from a parser that has a header: [acc] was sent before. *)
Lemma emit_datagram_spec c k t p l acc n i :
  holds (buf (dp_base p)) l -> 0 < limit c -> remaining p = n - blen acc -> 0 <= remaining p -> dsize p = n ->
  index p = i -> 0 <= i ->
  let m := Z.min (Z.min (limit c) (remaining p)) (Z.of_nat (length l)) in
  exists r p' k', emit_datagram c k t p = Ret (r, p', k') /\
    match r with
    | None => p' = p /\ k' = k /\ 0 < remaining p /\ (m = 0 \/ m < remaining p /\ allowSplit c = false)
    | Some e => exists d, d = take (Z.to_nat m) (unstamp l) /\ blen d = m /\ holds (buf (dp_base p')) (drop (Z.to_nat m) l) /\
        stamped e (dp_base p) (dp_base p') k k' t /\ Sequence e = u64 (seq p) /\ maxSize p' = maxSize p /\
        (m < remaining p /\ 0 < m /\ Content e = Datagram d (Some {| Index := u32 i; Size := u64 n; Last := false |}) /\
           seq p' = seq p /\ remaining p' = remaining p - m /\ index p' = i + 1 /\ dsize p' = n \/
         m = remaining p /\ Content e = Datagram d (if i =? 0 then None else Some {| Index := u32 i; Size := u64 n; Last := true |}) /\
           seq p' = i64 (seq p + 1) /\ remaining p' = 0)
    end.
Proof.
  intros Hb Hlim Hrem Hr0 Hsz Hi Hi0 m. unfold emit_datagram.
  pose proof (law_view _ _ (remaining p) Hb Hr0) as Hv.
  rewrite (law_remaining _ _ _ _ Hv), length_take, length_unstamp.
  rewrite emit_count_spec by lia.
  replace (Z.min (Z.min (limit c) (remaining p)) (Z.of_nat (Z.to_nat (remaining p) `min` length l))) with m by lia.
  replace (bool_decide (Z.min (limit c) (Z.of_nat (Z.to_nat (remaining p) `min` length l)) < remaining p))
    with (bool_decide (m < remaining p)) by (apply bool_decide_ext; lia).
  destruct ((0 <? remaining p) && (m =? 0)) eqn:E0.
  { apply andb_true_iff in E0 as [?%Z.ltb_lt ?%Z.eqb_eq]. exists None, p, k. split; [done|]. auto. }
  destruct (bool_decide (m < remaining p) && negb (allowSplit c)) eqn:E1.
  { apply andb_true_iff in E1 as [?%bool_decide_eq_true ?%negb_true_iff]. exists None, p, k.
    split; [done|]. do 2 (split; [done|]). split; [lia|]. by right. }
  set (d := take (Z.to_nat m) (unstamp l)).
  assert (Hd : blen d = m) by (unfold blen, d; rewrite length_take, length_unstamp; lia).
  assert (Hx : exists b', (if 0 <? m then '(data, _) ← view_Read (buf (dp_base p)) (buf_ViewLimit (buf (dp_base p)) (remaining p)) (Z.to_nat m);
      b ← buf_Consume (buf (dp_base p)) m; Ret (data, b) else Ret ([], buf (dp_base p))) = Ret (d, b') /\ holds b' (drop (Z.to_nat m) l)).
  { destruct (Z.ltb_spec 0 m).
    - destruct (law_read _ _ _ _ (Z.to_nat m) Hv) as (v' & -> & _). cbn [mbind outcome_bind].
      destruct (law_consume _ _ m Hb) as (b' & -> & Hb'); [lia|]. exists b'. cbn. split; [|done].
      rewrite take_take. do 3 f_equal. lia.
    - exists (buf (dp_base p)). assert (m = 0) as E by lia. unfold d. by rewrite E. }
  destruct Hx as (b' & -> & Hb'). cbn [mbind outcome_bind]. rewrite Hsz, Hi.
  destruct (baseLogEntry_stamped (set_buf (dp_base p) b') k t (u64 (seq p)) (Datagram d
    (if bool_decide (m < remaining p) || (0 <? i)
     then Some {| Index := u32 i; Size := u64 n; Last := negb (bool_decide (m < remaining p)) |} else None)))
    as (e & p' & k' & -> & Hst & Hsq & Hct & Hbuf).
  eexists (Some e), _, k'. split; [done|]. exists d. split; [done|]. split; [done|].
  assert (Hst' : stamped e (dp_base p) p' k k' t) by (by destruct Hst).
  case_bool_decide as Hc; cbn [dp_base seq maxSize remaining index dsize]; rewrite Hbuf; do 4 (split; [done|]).
  - left. cbn in Hct. split; [done|]. split; [|done]. apply andb_false_iff in E0 as [E0%Z.ltb_ge|E0%Z.eqb_neq]; lia.
  - right. split; [lia|]. cbn in Hct. split; [|done]. rewrite Hct.
    destruct (Z.ltb_spec 0 i), (Z.eqb_spec i 0); try lia; done.
Qed.
End DatagramSpec.

Section DatagramStep.
Context {B : Type} `{CL : ChunkBufferLaws B}.

(** Reading a header leaves a parser with a datagram in progress (of size zero
    perhaps, which the same call then emits), or reports why not. *)
Lemma load_header_spec (p : datagramParser (B := B)) l es A dgs : dg_inv p l es A dgs ->
  match load_header p with
  | Ret (Ok (Some q)) => exists l' C acc n i, datagram_log es C dgs (Some (acc, n, i)) /\ A = C ++ unstamp l' /\
      holds (buf (dp_base q)) l' /\ maxSize q = maxSize p /\ seq q = seq p /\ dp_base q = set_buf (dp_base p) (buf (dp_base q)) /\
      remaining q = n - blen acc /\ 0 <= remaining q /\ dsize q = n /\ index q = i /\ 0 <= i /\
      (exists j, l' = drop j l) /\ ((0 < remaining q /\ l' = l) \/ (length l' < length l)%nat)
  | Ret (Ok None) => remaining p = 0 /\ ReadUvarint (unstamp l) = Err VarintEOF
  | Ret (Err e) => e = ErrFrameTooLarge /\ remaining p = 0 /\
      exists n rest, ReadUvarint (unstamp l) = Ok (n, rest) /\ maxSize p < n
  | Panic => remaining p = 0 /\ ReadUvarint (unstamp l) = Err VarintOverflow
  end.
Proof.
  intros (Hmax & Hseq & Hb & C & st & Hlog & -> & Hst). unfold load_header.
  destruct (Z.eqb_spec (remaining p) 0) as [Hz|Hz].
  2:{ destruct st as [[[acc n] i]|]; [|done]. destruct Hst as (H1 & H2 & H3 & H4 & H5).
      exists l, C, acc, n, i. repeat (split; [done || lia|]). split.
      { by destruct p as [[] ? ? ? ? ?]. }
      repeat (split; [done || lia|]). split; [by exists 0%nat|]. left. split; [lia|done]. }
  rewrite (law_len _ _ Hb). pose proof (law_view _ _ (Z.of_nat (length l)) Hb ltac:(lia)) as Hv.
  rewrite Nat2Z.id, take_ge in Hv by (by rewrite length_unstamp).
  pose proof (view_ReadFrame_spec _ _ _ _ Hv Hmax) as Hf.
  destruct (ReadUvarint (unstamp l)) as [[n rest]|[]] eqn:Er; [|by rewrite Hf..].
  destruct Hf as [Hn Hf]. destruct (Z.ltb_spec (maxSize p) n) as [Hlt|Hle]; [rewrite Hf; cbn; eauto 10|].
  destruct Hf as (v' & -> & Hcons). cbn [mbind outcome_bind].
  destruct (read_loop_suffix _ _ _ _ _ _ Er) as (h & Eh & Hne & Hh).
  assert (Hlen : (length l = length h + length rest)%nat) by (by rewrite <-(length_unstamp l), Eh, length_app).
  assert (Hc : view_Consumed v' = Z.of_nat (length h)).
  { rewrite Hcons. unfold blen. rewrite length_unstamp. lia. }
  destruct (law_consume _ _ (view_Consumed v') Hb) as (b' & -> & Hb'); [lia|]. cbn [mbind outcome_bind].
  rewrite Hc, Nat2Z.id in Hb'.
  destruct st as [[[acc n'] i]|]; [by destruct Hst; lia|].
  exists (drop (length h) l), (C ++ h), [], n, 0. split.
  { apply dl_header; [done| |done]. unfold header, ReadUvarint. rewrite <-(app_nil_r h). apply Hh. }
  cbn [dp_base maxSize seq remaining index dsize set_buf buf].
  split. { rewrite <-app_assoc, unstamp_drop, Eh. by rewrite drop_app_length. }
  split; [done|]. do 3 (split; [done|]). unfold blen at 1. cbn [length]. do 5 (split; [done || lia|]).
  split; [eauto|]. right. rewrite length_drop. destruct h; [done|]. cbn in *. lia.
Qed.

Lemma datagram_log_dsize es A dgs acc n i : datagram_log es A dgs (Some (acc, n, i)) -> 0 <= i.
Proof.
  intros H. remember (Some (acc, n, i)) as st. revert acc n i Heqst.
  induction H; intros ? ? ? [= -> -> ->] || intros ? ? ? [=]; subst; try lia.
  specialize (IHdatagram_log _ _ _ eq_refl). lia.
Qed.

Lemma datagram_nextEntry_spec c k p l es A dgs : dg_inv p l es A dgs -> 0 < limit c ->
  (exists r p' k', datagramParser_nextEntry c k p = Ret (r, p', k') /\
    match r with
    | Err e => e = ErrFrameTooLarge /\ p' = p /\ k' = k /\ remaining p = 0 /\
        exists n rest, ReadUvarint (unstamp l) = Ok (n, rest) /\ maxSize p < n
    | Ok None => exists l', dg_inv p' l' es A dgs /\ k' = k /\ dp_base p' = set_buf (dp_base p) (buf (dp_base p')) /\
        (exists j, l' = drop j l) /\
        (allowSplit c = true -> l' = [] \/ (remaining p' = 0 /\ ReadUvarint (unstamp l') = Err VarintEOF))
    | Ok (Some e) => exists l' dgs' t, dg_inv p' l' (es ++ [e]) A dgs' /\ snd <$> head l = Some t /\
        stamped e (dp_base p) (dp_base p') k k' t /\ (exists j, l' = drop j l) /\ (length l' < length l)%nat /\
        blen (entry_raw e) <= limit c
    end) \/
  (datagramParser_nextEntry c k p = Panic /\ remaining p = 0 /\ ReadUvarint (unstamp l) = Err VarintOverflow).
Proof.
  intros Hinv Hlim. pose proof Hinv as (Hmax & Hseq & Hb & _).
  unfold datagramParser_nextEntry, firstChunkTime. rewrite (law_first _ _ Hb).
  destruct (snd <$> head l) as [t|] eqn:Eh.
  2:{ left. exists (Ok None), p, k. split; [done|]. assert (l = []) as -> by (by destruct l).
      exists []. split; [done|]. split; [done|]. split; [by destruct p as [[] ? ? ? ? ?]|]. split; [by exists 0%nat|]. by left. }
  pose proof (load_header_spec p l es A dgs Hinv) as Hlh.
  destruct (load_header p) as [[[q|]|e]|]; cbn [mbind outcome_bind]; [| | |by right].
  - left. destruct Hlh as (l' & C & acc & n & i & Hlog & -> & Hb' & Hm & Hs & Hbase & Hrem & Hr0 & Hsz & Hi & Hi0 & [j Hj] & Hprog).
    destruct (emit_datagram_spec c k t q l' acc n i Hb' Hlim Hrem Hr0 Hsz Hi Hi0) as (r & p' & k' & -> & Hr).
    cbn [mbind outcome_bind]. exists (Ok r), p', k'. split; [done|]. destruct r as [e|].
    + destruct Hr as (d & Hd & Hbd & Hb'' & Hst & Hsq & Hm' & Hcase).
      set (m := Z.min (Z.min (limit c) (remaining q)) (Z.of_nat (length l'))) in *.
      assert (Hst' : stamped e (dp_base p) (dp_base p') k k' t) by (rewrite Hbase in Hst; by destruct Hst).
      assert (HA : C ++ unstamp l' = (C ++ d) ++ unstamp (drop (Z.to_nat m) l')).
      { rewrite <-app_assoc, Hd, unstamp_drop. by rewrite take_drop. }
      assert (Hseq' : Sequence e = u64 (Z.of_nat (length dgs))) by (by rewrite Hsq, Hs, Hseq, u64_i64).
      assert (Hmax' : 0 <= maxSize p' < 2 ^ 63) by (rewrite Hm', Hm; done).
      assert (Hj' : exists j', drop (Z.to_nat m) l' = drop j' l) by (rewrite Hj, drop_drop; eauto).
      assert (Hlt : (0 < m \/ l' <> l) -> (length (drop (Z.to_nat m) l') < length l)%nat).
      { rewrite length_drop. intros Hor. destruct Hprog as [[_ ->]|?]; [destruct Hor as [?|[]]; [lia|done]|lia]. }
      assert (Hraw : blen (entry_raw e) <= limit c).
      { destruct Hcase as [(_ & _ & Hct & _)|(_ & Hct & _)]; unfold entry_raw; rewrite Hct, Hbd; lia. }
      destruct Hcase as [(Hm1 & Hm2 & Hct & Hsq' & Hrm & Hidx & Hds)|(Hm1 & Hct & Hsq' & Hrm)].
      * exists (drop (Z.to_nat m) l'), dgs, t. split; [|by eauto 10]. split; [done|]. split; [by rewrite Hsq', Hs|].
        split; [done|]. exists (C ++ d), (Some (acc ++ d, n, i + 1)). split.
        { eapply dl_part; try done; [intros ->; cbn in Hbd; unfold blen in Hbd; cbn in Hbd; lia|].
          unfold blen in *. rewrite length_app. lia. }
        split; [done|]. unfold dg_state, blen in *. rewrite length_app. split; [lia|]. split; [lia|]. split; [done|]. split; [done|lia].
      * exists (drop (Z.to_nat m) l'), (dgs ++ [acc ++ d]), t. split.
        { split; [done|]. split; [rewrite Hsq', Hs, Hseq, length_app, i64_add_l; f_equal; cbn; lia|]. split; [done|].
          exists (C ++ d), None. split; [|by split].
          eapply dl_done; try done. unfold blen in *. rewrite length_app. lia. }
        split; [done|]. split; [done|]. split; [done|]. split; [|done]. apply Hlt.
        destruct Hprog as [[? ->]|?]; [left|right; intros ->; lia].
        lia.
    + destruct Hr as (-> & -> & Hpos & Hwhy). exists l'. split.
      { split; [by rewrite Hm|]. split; [by rewrite Hs|]. split; [done|]. exists C, (Some (acc, n, i)). by repeat split. }
      split; [done|]. split; [done|]. split; [eauto|]. intros Hsp. destruct Hwhy as [Hm0|[_ Hsp']]; [|congruence].
      left. destruct l'; [done|]. cbn in Hm0. lia.
  - left. exists (Ok None), p, k. split; [done|]. destruct Hlh as [Hz Hr]. exists l. split; [done|]. split; [done|].
    split; [by destruct p as [[] ? ? ? ? ?]|]. split; [by exists 0%nat|]. intros _. by right.
  - left. exists (Err e), p, k. split; [done|]. destruct Hlh as (-> & Hz & Hn). auto.
Qed.
End DatagramStep.

(** * Entries that say the same *)

(** The bundler may move an entry's time: nothing above depends on it. *)
Definition similar (e e' : LogEntry) : Prop :=
  Content e = Content e' /\ Sequence e = Sequence e' /\ StreamIndex e = StreamIndex e'.

#[export] Instance similar_equiv : Equivalence similar.
Proof.
  split; unfold similar; [done|by intros x y (-> & -> & ->)|by intros x y z (-> & -> & ->)].
Qed.

Lemma similar_raw es es' : Forall2 similar es es' -> log_raw es = log_raw es'.
Proof.
  induction 1 as [|e e' es es' (Hc & _) _ IH]; [done|]. unfold log_raw in *. cbn. rewrite IH.
  unfold entry_raw. by rewrite Hc.
Qed.

Lemma similar_lines es es' : Forall2 similar es es' -> total_lines es = total_lines es'.
Proof.
  induction 1 as [|e e' es es' (Hc & _) _ IH]; [done|]. cbn. rewrite IH. unfold entry_lines. by rewrite Hc.
Qed.

Lemma text_log_similar es es' : Forall2 similar es es' -> text_log es -> text_log es'.
Proof.
  intros Hs H. revert es' Hs. induction H as [|es e lns H IH Hne Hok Hc Hsq]; intros es' Hs.
  { apply Forall2_nil_inv_l in Hs as ->. constructor. }
  apply Forall2_app_inv_l in Hs as (es1 & es2 & Hs1 & Hs2 & ->).
  apply Forall2_cons_inv_l in Hs2 as (e' & es3 & (H1 & H2 & _) & Hs3%Forall2_nil_inv_l & ->). subst es3.
  eapply tl_entry; eauto; [congruence|]. by rewrite <-H2, Hsq, (similar_lines _ _ Hs1).
Qed.

Lemma binary_log_similar es es' : Forall2 similar es es' -> binary_log es -> binary_log es'.
Proof.
  intros Hs H. revert es' Hs. induction H as [|es e d H IH Hne Hc Hsq]; intros es' Hs.
  { apply Forall2_nil_inv_l in Hs as ->. constructor. }
  apply Forall2_app_inv_l in Hs as (es1 & es2 & Hs1 & Hs2 & ->).
  apply Forall2_cons_inv_l in Hs2 as (e' & es3 & (H1 & H2 & _) & Hs3%Forall2_nil_inv_l & ->). subst es3.
  rewrite (similar_raw _ _ Hs1) in *. eapply bl_entry; eauto; congruence.
Qed.

Lemma datagram_log_similar es es' A dgs st : Forall2 similar es es' -> datagram_log es A dgs st -> datagram_log es' A dgs st.
Proof.
  intros Hs H. revert es' Hs.
  induction H as [|es A dgs h n H IH Hh Hn|es A dgs acc n i d e H IH Hd Hl Hc Hsq|es A dgs acc n i d e H IH Hl Hc Hsq]; intros es' Hs.
  { apply Forall2_nil_inv_l in Hs as ->. constructor. }
  { apply dl_header; auto. }
  all: apply Forall2_app_inv_l in Hs as (es1 & es2 & Hs1 & Hs2 & ->);
    apply Forall2_cons_inv_l in Hs2 as (e' & es3 & (H1 & H2 & _) & Hs3%Forall2_nil_inv_l & ->); subst es3.
  - eapply dl_part; eauto; congruence.
  - eapply dl_done; eauto; congruence.
Qed.

(** * Any parser *)
Definition indexed (es : list LogEntry) : Prop :=
  forall i e, es !! i = Some e -> StreamIndex e = u64 (Z.of_nat i).

Lemma indexed_snoc es e : indexed es -> StreamIndex e = u64 (Z.of_nat (length es)) -> indexed (es ++ [e]).
Proof.
  intros Hi He i x [Hx|[Hx Hs]]%lookup_app_Some; [by apply Hi|].
  destruct (i - length es)%nat eqn:E; [|done]. injection Hs as <-. rewrite He. f_equal. lia.
Qed.

Lemma indexed_similar es es' : Forall2 similar es es' -> indexed es -> indexed es'.
Proof.
  intros Hs Hi i e He. destruct (Forall2_lookup_r _ _ _ _ _ Hs He) as (e0 & He0 & _ & _ & <-). by apply Hi.
Qed.

Section ParserLog.
Context {B : Type} `{CL : ChunkBufferLaws B}.

(** A parser that was fed the bytes [A], has emitted [es] and still holds [l]. *)
Definition parser_log (p : parser (B := B)) (l : timed) (es : list LogEntry) (A : bytes) : Prop :=
  holds (buf (parser_base p)) l /\ nextIndex (parser_base p) = u64 (Z.of_nat (length es)) /\ indexed es /\
  match p with
  | TextP p => text_log es /\ sequence p = i64 (total_lines es) /\ A = log_raw es ++ unstamp l
  | BinaryP p => binary_log es /\ offset p = i64 (blen (log_raw es)) /\ 0 <= threshold p /\ A = log_raw es ++ unstamp l
  | DatagramP p => exists dgs, dg_inv p l es A dgs
  end.

(** The next size header of a datagram stream does not fit 64 bits. *)
Definition overflow_header (p : parser (B := B)) (l : timed) : Prop :=
  match p with
  | DatagramP p => remaining p = 0 /\ ReadUvarint (unstamp l) = Err VarintOverflow
  | _ => False
  end.
(** It announces a datagram larger than allowed. *)
Definition large_header (p : parser (B := B)) (l : timed) : Prop :=
  match p with
  | DatagramP p => remaining p = 0 /\ exists n rest, ReadUvarint (unstamp l) = Ok (n, rest) /\ maxSize p < n
  | _ => False
  end.

Lemma parser_log_similar p l es es' A : Forall2 similar es es' -> parser_log p l es A -> parser_log p l es' A.
Proof.
  intros Hs (Hb & Hn & Hi & H). split; [done|]. split; [by rewrite <-(Forall2_length _ _ _ Hs)|].
  split; [by eapply indexed_similar|]. destruct p as [p|p|p].
  - rewrite <-(similar_raw _ _ Hs), <-(similar_lines _ _ Hs). destruct H as (? & ? & ?). eauto using text_log_similar.
  - rewrite <-(similar_raw _ _ Hs). destruct H as (? & ? & ? & ?). eauto using binary_log_similar.
  - destruct H as (dgs & ? & ? & ? & C & st & ? & ? & ?). exists dgs. repeat (split; [done|]).
    exists C, st. eauto using datagram_log_similar.
Qed.

Lemma newParser_log st t p : newParser st t = Some p -> parser_log p [] [] [].
Proof.
  intros E. destruct st; cbn in E; try done; injection E as <-; (split; [apply law_new|]); (split; [done|]); (split; [done|]).
  - split; [constructor|done].
  - split; [constructor|done].
  - exists []. split; [done|]. split; [done|]. split; [apply law_new|]. exists [], None.
    split; [constructor|done].
Qed.

Lemma appendData_log p l es A d : parser_log p l es A ->
  parser_log (appendData p d) (l ++ stamp (ts d) (buffer d)) es (A ++ buffer d).
Proof.
  intros (Hb & Hn & Hi & H). unfold appendData, parser_log.
  assert (Hb' : holds (buf_Append (buf (parser_base p)) d) (l ++ stamp (ts d) (buffer d))) by by apply law_append.
  destruct p as [p|p|p]; cbn [parser_set_base parser_base tp_base bp_base dp_base set_buf buf nextIndex sequence offset threshold] in *;
    (split; [done|]); (split; [done|]); (split; [done|]); rewrite ?unstamp_app, ?unstamp_stamp.
  - destruct H as (? & ? & ->). split; [done|]. split; [done|]. by rewrite app_assoc.
  - destruct H as (? & ? & ? & ->). do 3 (split; [done|]). by rewrite app_assoc.
  - destruct H as (dgs & Hm & Hs & _ & C & st & Hl & -> & Hst). exists dgs. split; [done|]. split; [done|].
    split; [done|]. exists C, st. split; [done|]. rewrite unstamp_app, unstamp_stamp, app_assoc. split; [done|].
    by destruct st as [[[? ?] ?]|].
Qed.

Lemma stamped_index e (p p' : baseParser (B := B)) k k' t es : nextIndex p = u64 (Z.of_nat (length es)) -> indexed es ->
  stamped e p p' k k' t -> nextIndex p' = u64 (Z.of_nat (length (es ++ [e]))) /\ indexed (es ++ [e]).
Proof.
  intros Hn Hi Hst. split; [|apply indexed_snoc; [done|]; by rewrite (st_index _ _ _ _ _ _ Hst)].
  rewrite (st_next _ _ _ _ _ _ Hst), Hn, u64_add_l, length_app. f_equal. cbn. lia.
Qed.

Definition parser_type (p : parser (B := B)) : StreamType :=
  match p with TextP _ => TEXT | BinaryP _ => BINARY | DatagramP _ => DATAGRAM end.

Lemma nextEntry_type c k p r p' k' : nextEntry c k p = Ret (r, p', k') -> parser_type p' = parser_type p.
Proof.
  destruct p as [p|p|p]; cbn [nextEntry].
  - destruct (textParser_nextEntry c k p) as [[[? ?] ?]|]; [|done]. by intros [= _ <- _].
  - destruct (binaryParser_nextEntry c k p) as [[[? ?] ?]|]; [|done]. by intros [= _ <- _].
  - destruct (datagramParser_nextEntry c k p) as [[[? ?] ?]|]; [|done]. by intros [= _ <- _].
Qed.

(** What a call of a parser's [nextEntry] does. *)
Lemma nextEntry_spec c k p l es A : parser_log p l es A -> 0 < limit c ->
  (exists r p' k', nextEntry c k p = Ret (r, p', k') /\
    match r with
    | Err e => e = ErrFrameTooLarge /\ p' = p /\ k' = k /\ large_header p l
    | Ok None => exists j, parser_log p' (drop j l) es A /\ k' = k /\ timeBase (parser_base p') = timeBase (parser_base p)
    | Ok (Some e) => exists j t, parser_log p' (drop j l) (es ++ [e]) A /\ (0 < j <= length l)%nat /\
        snd <$> head l = Some t /\ stamped e (parser_base p) (parser_base p') k k' t /\
        blen (entry_raw e) <= limit c
    end) \/
  (nextEntry c k p = Panic /\ overflow_header p l).
Proof.
  intros (Hb & Hn & Hi & H) Hlim. destruct p as [p|p|p]; cbn [nextEntry parser_base] in *.
  - left. destruct H as (Hlog & Hsq & ->).
    destruct (text_nextEntry_spec c k p l Hb) as (r & p' & k' & -> & Hr). cbn [mbind outcome_bind].
    exists (Ok r), (TextP p'), k'. split; [done|]. destruct r as [e|].
    2:{ destruct Hr as (-> & -> & _). exists 0%nat. split; [done|]. done. }
    destruct Hr as (lns & l' & t & Hne & Hc & Hb' & Hst & Hct & Hseq & Hseq' & _ & Hl).
    destruct (cuts_suffix _ _ _ _ Hc) as (j & -> & Hj).
    destruct (stamped_index _ _ _ _ _ _ _ Hn Hi Hst) as [Hn' Hi'].
    exists j, t. split; [|split; [destruct lns; [done|cbn in Hj; lia]|]].
    + split; [done|]. split; [done|]. split; [done|]. split.
      * eapply tl_entry; eauto using cuts_ok. by rewrite Hseq, Hsq, u64_i64.
      * rewrite Hseq', Hsq, i64_add_l, total_lines_snoc, log_raw_snoc. unfold entry_lines, entry_raw. rewrite Hct.
        split; [done|]. by rewrite (cuts_raw _ _ _ _ Hc), app_assoc.
    + split; [by eapply cuts_head|]. split; [done|]. unfold entry_raw. by rewrite Hct.
  - left. destruct H as (Hlog & Hof & Hth & ->).
    destruct (binary_nextEntry_spec c k p l Hb Hlim Hth) as (r & p' & k' & -> & Hr). cbn [mbind outcome_bind].
    exists (Ok r), (BinaryP p'), k'. split; [done|]. destruct r as [e|].
    2:{ destruct Hr as (-> & -> & _). exists 0%nat. split; [done|]. done. }
    destruct Hr as (n & t & Hnn & Hpos & Hh & Hb' & Hst & Hct & Hseq & Hof' & Hth').
    destruct (stamped_index _ _ _ _ _ _ _ Hn Hi Hst) as [Hn' Hi'].
    assert (Hlen : blen (take (Z.to_nat n) (unstamp l)) = n) by (unfold blen; rewrite length_take, length_unstamp; lia).
    exists (Z.to_nat n), t. split; [|split; [lia|]].
    + split; [done|]. split; [done|]. split; [done|]. rewrite Hof, u64_i64 in *. split.
      * eapply bl_entry; eauto. intros E. rewrite E in Hlen. unfold blen in Hlen. cbn in Hlen. lia.
      * rewrite log_raw_snoc, Hof', i64_add_l. unfold entry_raw. rewrite Hct.
        split; [unfold blen in *; rewrite length_app; f_equal; lia|]. rewrite Hth'. split; [done|].
        by rewrite unstamp_drop, <-app_assoc, take_drop.
    + split; [done|]. split; [done|]. unfold entry_raw. rewrite Hct, Hlen. lia.
  - destruct H as (dgs & Hinv). destruct (datagram_nextEntry_spec c k p l es A dgs Hinv Hlim)
      as [(r & p' & k' & -> & Hr)|(-> & Hz & Ho)]; [left|by right].
    cbn [mbind outcome_bind]. exists r, (DatagramP p'), k'. split; [done|]. destruct r as [[e|]|e].
    + destruct Hr as (l' & dgs' & t & Hinv' & Hh & Hst & [j ->] & Hlt & Hraw).
      destruct (stamped_index _ _ _ _ _ _ _ Hn Hi Hst) as [Hn' Hi']. rewrite length_drop in Hlt.
      assert (Hmin : drop j l = drop (j `min` length l) l).
      { destruct (decide (j <= length l)%nat); [by rewrite Nat.min_l|]. rewrite Nat.min_r by lia.
        rewrite drop_all, drop_ge by lia. done. }
      rewrite Hmin in Hinv'. exists (j `min` length l)%nat, t. split; [|split; [lia|done]].
      split; [by apply Hinv'|]. split; [done|]. split; [done|]. by exists dgs'.
    + destruct Hr as (l' & Hinv' & -> & Hbase & [j ->] & _). exists j. split; [|split; [done|cbn; by rewrite Hbase]].
      split; [by apply Hinv'|]. cbn. rewrite Hbase. split; [done|]. split; [done|]. by exists dgs.
    + destruct Hr as (-> & -> & -> & Hz & Hlarge). done.
Qed.
End ParserLog.
