(* ===== verification/LogStream.v ===== *)
(** The Butler's log streams (bundler/stream.go) and the bundles they are packed
    into (bundler/builder.go, bundler/sizer.go): descriptors and their
    validation, the builder with its running size, appending with its limit and
    wake-ups, and the extraction of entries. *)
From S2P Require Import Prelude RecordIO LogEntry TimedBuffer Parsers StreamName.
From stdpp Require Import fin_maps.
Local Open Scope Z_scope.

(** * Descriptors (logpb/utils.go, common/types/tag.go) *)
Record LogStreamDescriptor := {
  Prefix : bytes; Name : bytes; StreamType_ : StreamType; ContentType : bytes;
  Timestamp : option time; Tags : list (bytes * bytes)
}.

Inductive DescriptorError :=
| InvalidPrefix (e : NameError) | InvalidName (e : NameError) | InvalidStreamType | MissingContentType
| MissingTimestamp | InvalidTagKey (e : NameError) | TagKeyTooLong | TagValueTooLong.

Definition MaxTagKeySize : Z := 64.
Definition MaxTagValueSize : Z := 4096.
Definition ValidateTag (k v : bytes) : option DescriptorError :=
  match StreamName.Validate k with
  | Some e => Some (InvalidTagKey e)
  | None => if MaxTagKeySize <? blen k then Some TagKeyTooLong
            else if MaxTagValueSize <? blen v then Some TagValueTooLong else None
  end.

(** The tags are a map: a list of pairs in the order of its iteration. *)
Fixpoint validate_tags (tags : list (bytes * bytes)) : option DescriptorError :=
  match tags with
  | [] => None
  | (k, v) :: tags => match ValidateTag k v with Some e => Some e | None => validate_tags tags end
  end.

Definition Descriptor_Validate (d : LogStreamDescriptor) (prefix : bool) : option DescriptorError :=
  match (if prefix then StreamName.Validate (Prefix d) else None) with
  | Some e => Some (InvalidPrefix e)
  | None =>
      match StreamName.Validate (Name d) with
      | Some e => Some (InvalidName e)
      | None =>
          match StreamType_ d with
          | OtherType _ => Some InvalidStreamType
          | _ =>
              match ContentType d with
              | [] => Some MissingContentType
              | _ => match Timestamp d with None => Some MissingTimestamp | Some _ => validate_tags (Tags d) end
              end
          end
      end
  end.

(** [LogEntry.Validate]: whether the entry has content for its stream. *)
Definition LogEntry_Validate (e : LogEntry) (d : LogStreamDescriptor) : bool :=
  match StreamType_ d with
  | TEXT => match Content e with Text (_ :: _) => true | _ => false end
  | BINARY => match Content e with Binary _ (_ :: _) => true | _ => false end
  | DATAGRAM => match Content e with Datagram _ _ => true | _ => false end
  | OtherType _ => true
  end.

(** * Sizes (sizer.go) *)
Definition varintLength (val : Z) : Z :=
  if val =? 0 then 0
  else if val <? 0x80 then 1
  else if val <? 0x4000 then 2
  else if val <? 0x200000 then 3
  else if val <? 0x10000000 then 4
  else if val <? 0x800000000 then 5
  else if val <? 0x40000000000 then 6
  else if val <? 0x2000000000000 then 7
  else if val <? 0x100000000000000 then 8
  else if val <? 0x8000000000000000 then 9
  else 10.

(** The tag of a field takes the wire type in three bits; the numbers are those
    of butler.proto. *)
Definition calculateTagSize (tag : Z) : Z := varintLength (u64 (Z.shiftl tag 3)).
Definition sizeOfBundleEntryTag : Z := calculateTagSize 3.
Definition sizeOfLogEntryTag : Z := calculateTagSize 5.
Definition sizeOfTerminalTag : Z := calculateTagSize 3.
Definition sizeOfTerminalIndexTag : Z := calculateTagSize 4.
Definition sizeOfBoolTrue : Z := 1.

(** * Bundles (builder.go) *)
Record ButlerLogBundle_Entry := {
  Desc : LogStreamDescriptor; Logs : list LogEntry; Terminal : bool; TerminalIndex : Z
}.
Definition stream_template (d : LogStreamDescriptor) : ButlerLogBundle_Entry :=
  {| Desc := d; Logs := []; Terminal := false; TerminalIndex := 0 |}.

Record ButlerLogBundle := {
  bundle_Timestamp : time; Project : bytes; bundle_Prefix : bytes; Entries : list ButlerLogBundle_Entry
}.

(** [proto.Size] of the messages the builder measures. *)
Class ProtoSize := {
  protoSize_log : LogEntry -> Z;
  protoSize_entry : ButlerLogBundle_Entry -> Z;
  protoSize_bundle : ButlerLogBundle -> Z
}.

Record builderStream := { bs_entry : ButlerLogBundle_Entry; bs_size : Z }.

(** The size of the template is computed once and cached; the template does not
    change, so the cache is not kept here. *)
Record builder := { size : Z; template : ButlerLogBundle; streams : gmap bytes builderStream }.
Definition set_streams (b : builder) (m : gmap bytes builderStream) : builder :=
  {| size := size b; template := template b; streams := m |}.

Section Builder.
Context `{PS : ProtoSize}.

Definition stream_cost (bs : builderStream) : Z :=
  sizeOfBundleEntryTag + varintLength (u64 (bs_size bs)) + bs_size bs.

Definition bundleSize (b : builder) : Z :=
  map_fold (fun _ bs acc => acc + stream_cost bs) (protoSize_bundle (template b)) (streams b).
Definition builder_remaining (b : builder) : Z := size b - bundleSize b.
Definition hasContent (b : builder) : bool := bool_decide (streams b <> ∅).
Definition ready (b : builder) : bool := hasContent b && (size b <=? bundleSize b).

Definition getCreateBuilderStream (b : builder) (tmpl : ButlerLogBundle_Entry) : builderStream :=
  match streams b !! Name (Desc tmpl) with
  | Some bs => bs
  | None => {| bs_entry := tmpl; bs_size := protoSize_entry tmpl |}
  end.

Definition add (b : builder) (tmpl : ButlerLogBundle_Entry) (le : LogEntry) : builder :=
  let bs := getCreateBuilderStream b tmpl in
  let e := bs_entry bs in
  let psize := protoSize_log le in
  set_streams b (<[Name (Desc tmpl) :=
    {| bs_entry := {| Desc := Desc e; Logs := Logs e ++ [le]; Terminal := Terminal e; TerminalIndex := TerminalIndex e |};
       bs_size := bs_size bs + (sizeOfLogEntryTag + varintLength (u64 psize) + psize) |}]> (streams b)).

Definition setStreamTerminal (b : builder) (tmpl : ButlerLogBundle_Entry) (tidx : Z) : outcome builder :=
  let bs := getCreateBuilderStream b tmpl in
  let e := bs_entry bs in
  if Terminal e then
    if TerminalIndex e =? tidx
    then Ret (set_streams b (<[Name (Desc tmpl) := bs]> (streams b)))
    else Panic
  else
    Ret (set_streams b (<[Name (Desc tmpl) :=
      {| bs_entry := {| Desc := Desc e; Logs := Logs e; Terminal := true; TerminalIndex := tidx |};
         bs_size := bs_size bs + ((sizeOfTerminalTag + sizeOfBoolTrue) + (sizeOfTerminalIndexTag + varintLength tidx)) |}]>
      (streams b))).

(** The order of Go strings. *)
Definition name_le (a b : bytes) : Prop := memcmp a b <> Gt.
#[export] Instance name_le_dec : RelDecision name_le.
Proof. intros a b. unfold name_le. apply _. Defined.

Definition bundle (b : builder) : ButlerLogBundle :=
  let names := merge_sort name_le (map fst (map_to_list (streams b))) in
  {| bundle_Timestamp := bundle_Timestamp (template b); Project := Project (template b);
     bundle_Prefix := bundle_Prefix (template b);
     Entries := omap (fun n => bs_entry <$> (streams b !! n)) names |}.
End Builder.

(** * Streams (stream.go) *)
Inductive StreamError :=
| ParseError (e : ReadError)
| FirstIndex (got : Z)
| NonContiguous (got want : Z).

Section Stream.
Context {B : Type} `{CB : ChunkBuffer B} `{PS : ProtoSize}.

Record streamConfig := {
  sc_desc : LogStreamDescriptor;
  maximumBufferedBytes : Z;
  maximumBufferDuration : Z
}.

(** Where the one goroutine that uses the stream is in [Append]: outside, past
    the check of the stream's error, or waiting for the signal, with its data. *)
Inductive appender := Idle | Checked (d : streamData) | BlockedOn (d : streamData).

(** [signal] is whether the channel [dataConsumedSignalC], of capacity one, holds
    a signal. *)
Record streamImpl := {
  sc : streamConfig;
  sparser : parser (B := B);
  drained : bool;
  sclosed : bool;
  lastLogEntry : option LogEntry;
  appendErr : option StreamError;
  signal : bool;
  waiting : appender
}.

Definition set_parser (s : streamImpl) (p : parser) : streamImpl :=
  {| sc := sc s; sparser := p; drained := drained s; sclosed := sclosed s; lastLogEntry := lastLogEntry s;
     appendErr := appendErr s; signal := signal s; waiting := waiting s |}.
Definition set_last (s : streamImpl) (e : LogEntry) : streamImpl :=
  {| sc := sc s; sparser := sparser s; drained := drained s; sclosed := sclosed s; lastLogEntry := Some e;
     appendErr := appendErr s; signal := signal s; waiting := waiting s |}.
Definition set_waiting (s : streamImpl) (w : appender) : streamImpl :=
  {| sc := sc s; sparser := sparser s; drained := drained s; sclosed := sclosed s; lastLogEntry := lastLogEntry s;
     appendErr := appendErr s; signal := signal s; waiting := w |}.
Definition set_signal (s : streamImpl) (b : bool) : streamImpl :=
  {| sc := sc s; sparser := sparser s; drained := drained s; sclosed := sclosed s; lastLogEntry := lastLogEntry s;
     appendErr := appendErr s; signal := b; waiting := waiting s |}.
Definition Close (s : streamImpl) : streamImpl :=
  {| sc := sc s; sparser := sparser s; drained := drained s; sclosed := true; lastLogEntry := lastLogEntry s;
     appendErr := appendErr s; signal := signal s; waiting := waiting s |}.
Definition setDrained (s : streamImpl) : streamImpl :=
  {| sc := sc s; sparser := sparser s; drained := true; sclosed := sclosed s; lastLogEntry := lastLogEntry s;
     appendErr := appendErr s; signal := signal s; waiting := waiting s |}.

Definition newStream (c : streamConfig) (p : parser) : streamImpl :=
  {| sc := c; sparser := p; drained := false; sclosed := false; lastLogEntry := None; appendErr := None;
     signal := false; waiting := Idle |}.

Definition stream_name (s : streamImpl) : bytes := Name (sc_desc (sc s)).
Definition stream_buffered (s : streamImpl) : Z := bufferedBytes (parser_base (sparser s)).
Definition tmpl (s : streamImpl) : ButlerLogBundle_Entry := stream_template (sc_desc (sc s)).

Definition signalDataConsumed (s : streamImpl) : streamImpl := set_signal s true.
Definition setAppendErrorLocked (s : streamImpl) (e : StreamError) : streamImpl :=
  signalDataConsumed (Close
    {| sc := sc s; sparser := sparser s; drained := drained s; sclosed := sclosed s; lastLogEntry := lastLogEntry s;
       appendErr := Some e; signal := signal s; waiting := waiting s |}).

(** Whether an Append of [n] bytes fits now. *)
Definition fits (s : streamImpl) (n : Z) : bool :=
  (stream_buffered s =? 0) || (stream_buffered s + n <=? maximumBufferedBytes (sc s)).

Inductive append_result := Going | Done (err : option StreamError) | Blocked.

(** The loop of [Append], in its critical sections.  The check of the stream's
    error, under the state lock; empty data is dropped. *)
Definition Append_check (s : streamImpl) (d : streamData) : append_result * streamImpl :=
  match appendErr s with
  | Some e => (Done (Some e), set_waiting s Idle)
  | None => if blen (buffer d) =? 0 then (Done None, set_waiting s Idle) else (Going, set_waiting s (Checked d))
  end.
(** The attempt, under the parser lock. *)
Definition Append_attempt (s : streamImpl) (d : streamData) : append_result * streamImpl :=
  if fits s (blen (buffer d)) then (Done None, set_waiting (set_parser s (appendData (sparser s) d)) Idle)
  else (Blocked, set_waiting s (BlockedOn d)).
(** Receiving the signal, and once more. *)
Definition Append_wake (s : streamImpl) : option (append_result * streamImpl) :=
  match waiting s with
  | BlockedOn d => if signal s then Some (Append_check (set_signal s false) d) else None
  | _ => None
  end.

(** One round without interference. *)
Definition Append (s : streamImpl) (d : streamData) : append_result * streamImpl :=
  match Append_check s d with
  | (Going, s) => Append_attempt s d
  | r => r
  end.

Definition noMoreDataLocked (s : streamImpl) : bool :=
  if negb (sclosed s) then false
  else match appendErr s with Some _ => true | None => stream_buffered s =? 0 end.

Definition expireTime (s : streamImpl) : option time :=
  (fun t => t + maximumBufferDuration (sc s)) <$> firstChunkTime (parser_base (sparser s)).

(** The entry, with its time moved up to that of the one before.  Copying the
    time of the previous entry panics when it is a nil message. *)
Definition fixupLogEntry (prev : option LogEntry) (cur : LogEntry) : outcome (result StreamError LogEntry) :=
  match prev with
  | None => Ret (if StreamIndex cur =? 0 then Ok cur else Err (FirstIndex (StreamIndex cur)))
  | Some prev =>
      if negb (StreamIndex cur =? u64 (StreamIndex prev + 1))
      then Ret (Err (NonContiguous (StreamIndex cur) (u64 (StreamIndex prev + 1))))
      else if entry_offset cur <? entry_offset prev then
        match TimeOffset prev with
        | None => Panic
        | Some _ => Ret (Ok (set_TimeOffset cur (TimeOffset prev)))
        end
      else Ret (Ok cur)
  end.

(** The Bundler's state that extraction works on: the builder and the counter. *)
Record bundling := { bb : builder; counter : Z }.

Inductive extracted := Nothing | Emitted (le : LogEntry) | Failed (e : StreamError).

(** One round of the loop of [nextBundleEntryLocked]: under the parser's lock. *)
Definition extract (closed_ aggressive : bool) (g : bundling) (s : streamImpl) : outcome (extracted * bundling * streamImpl) :=
  let c := {| limit := builder_remaining (bb g); allowSplit := aggressive; closed := closed_ |} in
  '(r, p, k) ← nextEntry c (counter g) (sparser s);
  let s := set_parser s p in
  let g := {| bb := bb g; counter := k |} in
  match r with
  | Err e => Ret (Failed (ParseError e), g, s)
  | Ok None => Ret (Nothing, g, s)
  | Ok (Some le) =>
      fixed ← fixupLogEntry (lastLogEntry s) le;
      match fixed with
      | Err e => Ret (Failed e, g, s)
      | Ok le => Ret (Emitted le, {| bb := add (bb g) (tmpl s) le; counter := k |}, set_last s le)
      end
  end.

(** Every entry takes a byte from the buffer: its length is enough fuel. *)
Fixpoint nextBundleEntryLocked (fuel : nat) (closed_ aggressive modified : bool) (g : bundling) (s : streamImpl)
  : outcome (bool * option StreamError * bundling * streamImpl) :=
  if 0 <? builder_remaining (bb g) then
    match fuel with
    | O => Panic
    | S fuel =>
        '(r, g, s) ← extract closed_ aggressive g s;
        match r with
        | Nothing => Ret (modified, None, g, s)
        | Failed e => Ret (modified, Some e, g, s)
        | Emitted _ => nextBundleEntryLocked fuel closed_ aggressive true g s
        end
    end
  else Ret (modified, None, g, s).

(** The end of [nextBundleEntry]: the terminal state. *)
Definition finish (g : bundling) (s : streamImpl) : outcome (bundling * streamImpl) :=
  if noMoreDataLocked s then
    b ← match lastLogEntry s with
        | Some le => setStreamTerminal (bb g) (tmpl s) (StreamIndex le)
        | None => Ret (bb g)
        end;
    Ret ({| bb := b; counter := counter g |}, setDrained s)
  else Ret (g, s).

Definition after_extract (err : option StreamError) (modified : bool) (s : streamImpl) : streamImpl :=
  let s := match err with Some e => setAppendErrorLocked s e | None => s end in
  if modified then signalDataConsumed s else s.

Definition nextBundleEntry (aggressive : bool) (g : bundling) (s : streamImpl) : outcome (bool * bundling * streamImpl) :=
  '(modified, g, s) ←
    (if noMoreDataLocked s then Ret (false, g, s)
     else '(modified, err, g, s) ←
            nextBundleEntryLocked (S (Z.to_nat (stream_buffered s))) (sclosed s) aggressive false g s;
          Ret (modified, g, after_extract err modified s));
  '(g, s) ← finish g s;
  Ret (modified, g, s).
End Stream.
