(* ===== verification/LogStreamSpec.v ===== *)
(** What the Butler's streams and builder promise: the builder's running size is
    the size of what it holds, appending keeps the stream's log, every round of
    extraction extends it by what it adds to the bundle, and a blocked Append is
    woken. *)
From stdpp Require Import fin_maps.
From S2P Require Import Prelude Varint RecordIO LogEntry TimedBuffer Parsers ParserSpec LogStream.
Local Open Scope Z_scope.

(** * The builder *)
Section BuilderSpec.
Context `{PS : ProtoSize}.

(** The size of a stream's part of a bundle, from its parts. *)
Fixpoint logs_cost (les : list LogEntry) : Z :=
  match les with
  | [] => 0
  | le :: les => sizeOfLogEntryTag + varintLength (u64 (protoSize_log le)) + protoSize_log le + logs_cost les
  end.
Definition entry_cost (e : ButlerLogBundle_Entry) : Z :=
  protoSize_entry (stream_template (Desc e)) + logs_cost (Logs e) +
  (if Terminal e then sizeOfTerminalTag + sizeOfBoolTrue + (sizeOfTerminalIndexTag + varintLength (TerminalIndex e)) else 0).

Definition bundle_cost (b : builder) : Z :=
  protoSize_bundle (template b) +
  map_fold (fun _ bs acc => acc + (sizeOfBundleEntryTag + varintLength (u64 (entry_cost (bs_entry bs))) + entry_cost (bs_entry bs)))
    0 (streams b).

(** The builder's streams are filed under their names, with their sizes. *)
Definition builder_ok (b : builder) : Prop :=
  forall n bs, streams b !! n = Some bs ->
    Name (Desc (bs_entry bs)) = n /\ bs_size bs = entry_cost (bs_entry bs).

Lemma logs_cost_snoc les le : logs_cost (les ++ [le]) =
  logs_cost les + (sizeOfLogEntryTag + varintLength (u64 (protoSize_log le)) + protoSize_log le).
Proof. induction les as [|x les IH]; cbn; lia. Qed.

Lemma get_ok b d : builder_ok b ->
  let bs := getCreateBuilderStream b (stream_template d) in
  Name (Desc (bs_entry bs)) = Name d /\ bs_size bs = entry_cost (bs_entry bs).
Proof.
  intros Hb. unfold getCreateBuilderStream. cbn [stream_template Desc].
  destruct (streams b !! Name d) as [bs|] eqn:E; [by apply Hb|]. cbn. split; [done|].
  unfold entry_cost. cbn. unfold stream_template. lia.
Qed.

Lemma insert_ok b n bs : builder_ok b -> Name (Desc (bs_entry bs)) = n -> bs_size bs = entry_cost (bs_entry bs) ->
  builder_ok (set_streams b (<[n := bs]> (streams b))).
Proof.
  intros Hb Hn Hs m x. cbn [set_streams streams]. intros [[<- <-]|[_ Hx]]%lookup_insert_Some; [done|by apply Hb].
Qed.

Lemma add_ok b d le : builder_ok b -> builder_ok (add b (stream_template d) le).
Proof.
  intros Hb. destruct (get_ok b d Hb) as [Hn Hs]. unfold add. apply insert_ok; [done..|].
  cbn [bs_entry bs_size]. rewrite Hs. unfold entry_cost. cbn [Desc Logs Terminal TerminalIndex]. rewrite logs_cost_snoc. lia.
Qed.

Lemma setStreamTerminal_ok b d i b' : builder_ok b -> setStreamTerminal b (stream_template d) i = Ret b' -> builder_ok b'.
Proof.
  intros Hb. destruct (get_ok b d Hb) as [Hn Hs]. unfold setStreamTerminal.
  destruct (Terminal _) eqn:Et.
  - case_match; [|done]. intros [= <-]. by apply insert_ok.
  - intros [= <-]. apply insert_ok; [done..|]. cbn [bs_entry bs_size]. rewrite Hs. unfold entry_cost.
    cbn [Desc Logs Terminal TerminalIndex]. rewrite Et. lia.
Qed.

Lemma map_fold_sum {A} (f g : A -> Z) (z : Z) (m : gmap bytes A) : (forall n x, m !! n = Some x -> f x = g x) ->
  map_fold (fun _ x acc => acc + f x) z m = z + map_fold (fun _ x acc => acc + g x) 0 m.
Proof.
  rewrite !map_fold_foldr. setoid_rewrite <-elem_of_map_to_list. induction (map_to_list m) as [|[n x] l IH]; intros H; [cbn; lia|].
  cbn [foldr uncurry]. rewrite IH, (H n x); [lia|by left|]. intros n' x' Hx. apply (H n'). by right.
Qed.

(** The size the builder keeps as it goes is the size of what it holds. *)
Lemma bundleSize_cost b : builder_ok b -> bundleSize b = bundle_cost b.
Proof.
  intros Hb. unfold bundleSize, bundle_cost.
  apply (map_fold_sum stream_cost). intros n bs Hn. unfold stream_cost. by rewrite (proj2 (Hb n bs Hn)).
Qed.

(** * What a bundle says of a stream *)
Definition builder_logs (b : builder) (n : bytes) : list LogEntry :=
  match streams b !! n with Some bs => Logs (bs_entry bs) | None => [] end.
Definition builder_terminal (b : builder) (n : bytes) : option Z :=
  bs ← streams b !! n; if Terminal (bs_entry bs) then Some (TerminalIndex (bs_entry bs)) else None.

Lemma add_logs b d le n : builder_logs (add b (stream_template d) le) n =
  if decide (n = Name d) then builder_logs b n ++ [le] else builder_logs b n.
Proof.
  unfold builder_logs, add. cbn [set_streams streams stream_template Desc]. case_decide as Hn; [subst n|by rewrite lookup_insert_ne].
  rewrite lookup_insert_eq. cbn [bs_entry Logs]. unfold getCreateBuilderStream. cbn [stream_template Desc].
  destruct (streams b !! Name d); done.
Qed.

Lemma add_terminal b d le n : builder_terminal (add b (stream_template d) le) n = builder_terminal b n.
Proof.
  unfold builder_terminal, add. cbn [set_streams streams stream_template Desc].
  destruct (decide (n = Name d)) as [->|]; [|by rewrite lookup_insert_ne].
  rewrite lookup_insert_eq. cbn [bs_entry Terminal TerminalIndex mbind option_bind]. unfold getCreateBuilderStream. cbn [stream_template Desc].
  by destruct (streams b !! Name d).
Qed.

Lemma setStreamTerminal_spec b d i :
  match setStreamTerminal b (stream_template d) i with
  | Ret b' => (forall n, builder_logs b' n = builder_logs b n) /\
      (forall n, builder_terminal b' n = if decide (n = Name d) then Some i else builder_terminal b n) /\
      template b' = template b /\ size b' = size b
  | Panic => exists j, builder_terminal b (Name d) = Some j /\ j <> i
  end.
Proof.
  unfold setStreamTerminal, getCreateBuilderStream, builder_terminal, builder_logs. cbn [stream_template Desc].
  destruct (streams b !! Name d) as [bs|] eqn:E; cbn [bs_entry Terminal TerminalIndex stream_template mbind option_bind];
    [destruct (Terminal (bs_entry bs)) eqn:Et; [destruct (Z.eqb_spec (TerminalIndex (bs_entry bs)) i) as [Hi|Hi]; [|by eauto]|]|];
    cbn [set_streams streams]; (split; [|split; [|done]]); intros n;
    destruct (decide (n = Name d)) as [->|Hn]; rewrite ?lookup_insert_eq, ?lookup_insert_ne, ?E by done; cbn; rewrite ?Et, ?Hi; done.
Qed.

(** Each stream has one entry in the bundle, in the order of the names. *)
Definition bundle_logs (bu : ButlerLogBundle) (n : bytes) : list LogEntry :=
  concat (map Logs (filter (fun e => Name (Desc e) = n) (Entries bu))).
End BuilderSpec.

(** * The stream *)

(** The times of the entries never go back. *)
Definition offsets_sorted (es : list LogEntry) : Prop :=
  forall i e e', es !! i = Some e -> es !! S i = Some e' -> entry_offset e <= entry_offset e'.

Lemma offsets_snoc es e : offsets_sorted es -> (forall p, last es = Some p -> entry_offset p <= entry_offset e) ->
  offsets_sorted (es ++ [e]).
Proof.
  intros Hs Hl i x y Hx Hy. apply lookup_app_Some in Hy as [Hy|[Hge Hy]].
  - rewrite lookup_app_l in Hx by (apply lookup_lt_Some in Hy; lia). by eapply Hs.
  - destruct (S i - length es)%nat eqn:E; [|done]. injection Hy as <-. apply Hl.
    rewrite lookup_app_l in Hx by lia. rewrite last_lookup. by replace (pred (length es)) with i by lia.
Qed.

Section StreamSpec.
Context {B : Type} `{CL : ChunkBufferLaws B} `{PS : ProtoSize}.

(** A stream that was given the bytes [A], emitted [es] and buffers [l]. *)
Record stream_ok (s : streamImpl (B := B)) (l : timed) (es : list LogEntry) (A : bytes) : Prop := {
  so_log : parser_log (sparser s) l es A;
  so_last : lastLogEntry s = last es;
  so_sorted : offsets_sorted es;
  so_err : appendErr s <> None -> sclosed s = true;
  so_clean : parser_type (sparser s) <> DATAGRAM -> appendErr s = None;
  so_drained : drained s = true -> noMoreDataLocked s = true
}.

Lemma stream_buffered_ok s l es A : stream_ok s l es A -> stream_buffered s = Z.of_nat (length l).
Proof. intros Hs. destruct (so_log _ _ _ _ Hs) as (Hb & _). apply (law_len _ _ Hb). Qed.

(** The panics of extraction: a size header that does not fit 64 bits, and data
    from before the stream's start following an entry from its very start. *)
Definition early (s : streamImpl (B := B)) (l : timed) : Prop :=
  (exists t, snd <$> head l = Some t /\ t < timeBase (parser_base (sparser s))) /\
  exists e, lastLogEntry s = Some e /\ TimeOffset e = None.
Definition extract_panics (s : streamImpl (B := B)) (l : timed) : Prop :=
  overflow_header (sparser s) l \/ early s l.

(** The parts of a stream that extraction leaves alone. *)
Record same_shell (s s' : streamImpl (B := B)) : Prop := {
  sh_sc : sc s' = sc s;
  sh_type : parser_type (sparser s') = parser_type (sparser s);
  sh_base : timeBase (parser_base (sparser s')) = timeBase (parser_base (sparser s));
  sh_drained : drained s' = drained s;
  sh_closed : sclosed s' = sclosed s;
  sh_err : appendErr s' = appendErr s;
  sh_signal : signal s' = signal s;
  sh_waiting : waiting s' = waiting s
}.

Lemma same_shell_refl s : same_shell s s.
Proof. by split. Qed.

Lemma same_shell_trans s1 s2 s3 : same_shell s1 s2 -> same_shell s2 s3 -> same_shell s1 s3.
Proof. intros [] []. split; congruence. Qed.

Lemma fixup_spec prev cur : 
  match fixupLogEntry prev cur with
  | Ret (Ok e) => similar cur e /\ PrefixIndex e = PrefixIndex cur /\
      match prev with
      | None => entry_offset e = entry_offset cur
      | Some p => entry_offset e = Z.max (entry_offset p) (entry_offset cur)
      end
  | Ret (Err (FirstIndex _)) => prev = None /\ StreamIndex cur <> 0
  | Ret (Err (NonContiguous _ _)) => exists p, prev = Some p /\ StreamIndex cur <> u64 (StreamIndex p + 1)
  | Ret (Err (ParseError _)) => False
  | Panic => exists p, prev = Some p /\ TimeOffset p = None /\ entry_offset cur < entry_offset p
  end.
Proof.
  unfold fixupLogEntry. destruct prev as [p|].
  - destruct (Z.eqb_spec (StreamIndex cur) (u64 (StreamIndex p + 1))); cbn [negb]; [|by eexists].
    destruct (Z.ltb_spec (entry_offset cur) (entry_offset p)).
    + destruct (TimeOffset p) eqn:E; [|by eauto]. split; [done|]. split; [done|].
      unfold entry_offset at 1. cbn [set_TimeOffset TimeOffset]. rewrite <-E. fold (entry_offset p). lia.
    + split; [done|]. split; [done|]. lia.
  - by destruct (Z.eqb_spec (StreamIndex cur) 0).
Qed.

Lemma indexed_next p es : last es = Some p -> indexed es -> u64 (StreamIndex p + 1) = u64 (Z.of_nat (length es)).
Proof.
  intros Hl Hi. rewrite last_lookup in Hl. rewrite (Hi _ _ Hl), u64_add_l.
  assert (0 < length es)%nat by (destruct es; [done|cbn; lia]). f_equal. lia.
Qed.

Lemma noMore_drop s s' l j es A es' A' : stream_ok s l es A -> same_shell s s' ->
  parser_log (sparser s') (drop j l) es' A' ->
  noMoreDataLocked s = true -> noMoreDataLocked s' = true.
Proof.
  intros Hs Hsh (Hb & _). unfold noMoreDataLocked. rewrite (sh_closed _ _ Hsh), (sh_err _ _ Hsh).
  destruct (sclosed s); [|done]. cbn [negb]. destruct (appendErr s); [done|].
  rewrite (stream_buffered_ok _ _ _ _ Hs). unfold stream_buffered, bufferedBytes. rewrite (law_len _ _ Hb), length_drop.
  rewrite !Z.eqb_eq. lia.
Qed.

(** One round of extraction. *)
Lemma extract_spec cl agg g s l es A : stream_ok s l es A -> 0 < builder_remaining (bb g) ->
  match extract cl agg g s with
  | Ret (Emitted e, g', s') => exists j t, stream_ok s' (drop j l) (es ++ [e]) A /\ (0 < j <= length l)%nat /\
      same_shell s s' /\ bb g' = add (bb g) (tmpl s) e /\ counter g' = i64 (counter g + 1) /\
      PrefixIndex e = u64 (counter g) /\ snd <$> head l = Some t /\
      entry_offset e = match last es with
                       | None => Time_Sub t (timeBase (parser_base (sparser s)))
                       | Some p => Z.max (entry_offset p) (Time_Sub t (timeBase (parser_base (sparser s))))
                       end /\
      blen (entry_raw e) <= builder_remaining (bb g)
  | Ret (Nothing, g', s') => g' = g /\ same_shell s s' /\ exists j, stream_ok s' (drop j l) es A
  | Ret (Failed e, g', s') => e = ParseError ErrFrameTooLarge /\ large_header (sparser s) l /\ g' = g /\ s' = s
  | Panic => extract_panics s l
  end.
Proof.
  intros Hs Hrem. unfold extract. set (c := {| limit := builder_remaining (bb g); allowSplit := agg; closed := cl |}).
  pose proof (so_log _ _ _ _ Hs) as Hlog.
  destruct (nextEntry_spec c (counter g) (sparser s) l es A Hlog Hrem) as [(r & p' & k' & Enx & Hr)|[-> Ho]]; [|by left].
  pose proof (nextEntry_type _ _ _ _ _ _ Enx) as Hty. rewrite Enx.
  cbn [mbind outcome_bind]. destruct r as [[e|]|e].
  - destruct Hr as (j & t & Hlog' & Hj & Hh & Hst & Hraw).
    pose proof (fixup_spec (lastLogEntry s) e) as Hf. cbn [set_parser lastLogEntry]. rewrite (so_last _ _ _ _ Hs) in *.
    pose proof Hlog as (_ & Hn & Hidx & _).
    assert (Hoff : entry_offset e = Time_Sub t (timeBase (parser_base (sparser s)))).
    { unfold entry_offset. rewrite (st_time _ _ _ _ _ _ Hst). apply Duration_round_trip, Time_Sub_i64. }
    assert (Hix : StreamIndex e = u64 (Z.of_nat (length es))) by by rewrite (st_index _ _ _ _ _ _ Hst).
    destruct (fixupLogEntry (last es) e) as [[e'|[]]|] eqn:Ef; cbn [mbind outcome_bind].
    + destruct Hf as (Hsim & Hpi & Ho). exists j, t.
      assert (Hsh : same_shell s (set_last (set_parser s p') e')).
      { split; try done. cbn. apply (st_base _ _ _ _ _ _ Hst). }
      assert (Hsim' : Forall2 similar (es ++ [e]) (es ++ [e'])).
      { apply Forall2_app; [|by constructor]. apply Forall_Forall2_diag, Forall_true. reflexivity. }
      pose proof (parser_log_similar _ _ _ _ _ Hsim' Hlog') as Hlog2.
      split; [split|].
      * done.
      * cbn. by rewrite last_snoc.
      * apply offsets_snoc; [apply (so_sorted _ _ _ _ Hs)|]. intros p Hp. rewrite Hp in Ho. lia.
      * apply (so_err _ _ _ _ Hs).
      * rewrite (sh_type _ _ Hsh). apply (so_clean _ _ _ _ Hs).
      * intros Hd. eapply noMore_drop; [done|done|done|]. by apply (so_drained _ _ _ _ Hs).
      * split; [done|]. split; [done|]. split; [done|]. split; [by rewrite (st_counter _ _ _ _ _ _ Hst)|].
        split; [by rewrite Hpi, (st_prefix _ _ _ _ _ _ Hst)|]. split; [done|]. split; [|destruct Hsim as [Hc _]; unfold entry_raw in *; rewrite <-Hc; done].
        rewrite <-Hoff. by destruct (last es).
    + done.
    + destruct Hf as [Hn0 Hne]. apply last_None in Hn0 as ->. cbn in Hix. done.
    + destruct Hf as (p & Hp & Hne). by rewrite (indexed_next _ _ Hp Hidx) in Hne.
    + destruct Hf as (p & Hp & Hnone & Hlt). right. split.
      * exists t. split; [done|]. unfold entry_offset in Hlt at 2. rewrite Hnone in Hlt. cbn in Hlt. rewrite Hoff in Hlt.
        unfold Time_Sub in Hlt. lia.
      * exists p. by rewrite (so_last _ _ _ _ Hs).
  - destruct Hr as (j & Hlog' & -> & Hbase). split; [by destruct g|]. assert (Hsh : same_shell s (set_parser s p')) by by split.
    split; [done|]. exists j. split; [done|apply (so_last _ _ _ _ Hs)|apply (so_sorted _ _ _ _ Hs)|apply (so_err _ _ _ _ Hs)| |].
    { rewrite (sh_type _ _ Hsh). apply (so_clean _ _ _ _ Hs). }
    intros Hd. eapply noMore_drop; [done|done|done|]. by apply (so_drained _ _ _ _ Hs).
  - destruct Hr as (-> & -> & -> & Hl). split; [done|]. split; [done|]. split; [by destruct g|]. by destruct s.
Qed.
End StreamSpec.

(** ** Appending *)
Section AppendSpec.
Context {B : Type} `{CL : ChunkBufferLaws B} `{PS : ProtoSize}.

Definition same_but_parser (s s' : streamImpl (B := B)) : Prop :=
  sc s' = sc s /\ drained s' = drained s /\ sclosed s' = sclosed s /\ lastLogEntry s' = lastLogEntry s /\
  appendErr s' = appendErr s.

(** The user of a stream does not append once it has closed it: it is closed for
    an error, or not at all. *)
Definition open_for_user (s : streamImpl (B := B)) : Prop := sclosed s = true -> appendErr s <> None.

Lemma waiting_ok s l es A w : stream_ok s l es A -> stream_ok (set_waiting s w) l es A.
Proof. intros [Hlog Hl Hso He Hcl Hd]. by split. Qed.

Lemma Append_check_spec s d l es A : stream_ok s l es A ->
  match Append_check s d with
  | (Done (Some e), s') => appendErr s = Some e /\ s' = set_waiting s Idle
  | (Done None, s') => appendErr s = None /\ s' = set_waiting s Idle /\ buffer d = []
  | (Going, s') => appendErr s = None /\ s' = set_waiting s (Checked d) /\ buffer d <> []
  | (Blocked, _) => False
  end.
Proof.
  intros Hs. unfold Append_check. destruct (appendErr s); [done|].
  destruct (Z.eqb_spec (blen (buffer d)) 0) as [Hz|Hz]; unfold blen in Hz; split; try done; split; try done.
  - by destruct (buffer d).
  - intros E. by rewrite E in Hz.
Qed.

(** The attempt appends the data, to the end of the log, when the buffer is empty
    or the data fits, and blocks otherwise. *)
Lemma Append_attempt_spec s d l es A : stream_ok s l es A -> open_for_user s ->
  match Append_attempt s d with
  | (Done None, s') => waiting s' = Idle /\ same_but_parser s s' /\ signal s' = signal s /\
      stream_ok s' (l ++ stamp (ts d) (buffer d)) es (A ++ buffer d) /\
      (l = [] \/ Z.of_nat (length l) + blen (buffer d) <= maximumBufferedBytes (sc s))
  | (Blocked, s') => s' = set_waiting s (BlockedOn d) /\ fits s (blen (buffer d)) = false
  | _ => False
  end.
Proof.
  intros Hs Hop. unfold Append_attempt. destruct (fits s (blen (buffer d))) eqn:Ef; [|done].
  do 3 (split; [done|]). split.
  - destruct Hs as [Hlog Hl Hso He Hcl Hd]. split; try done; [by apply appendData_log|by destruct (sparser s)|]. intros Hdr. specialize (Hd Hdr).
    unfold noMoreDataLocked in *. cbn. destruct (sclosed s) eqn:Ec; [|done]. cbn [negb] in *.
    specialize (Hop Ec). by destruct (appendErr s).
  - unfold fits in Ef. rewrite (stream_buffered_ok _ _ _ _ Hs) in Ef.
    apply orb_true_iff in Ef as [Ef%Z.eqb_eq|Ef%Z.leb_le]; [left; destruct l; [done|cbn in Ef; lia]|auto].
Qed.

Lemma Close_ok s l es A : stream_ok s l es A -> stream_ok (Close s) l es A.
Proof.
  intros [Hlog Hl Hso He Hcl Hd]. split; try done. intros H. specialize (Hd H). unfold noMoreDataLocked in *. cbn.
  by destruct (sclosed s).
Qed.

Lemma setAppendError_ok s l es A e : parser_type (sparser s) = DATAGRAM -> stream_ok s l es A -> stream_ok (setAppendErrorLocked s e) l es A.
Proof. intros Hty [Hlog Hl Hso He Hcl Hd]. by split. Qed.

Lemma signal_ok s l es A b : stream_ok s l es A -> stream_ok (set_signal s b) l es A.
Proof. intros [Hlog Hl Hso He Hcl Hd]. by split. Qed.

Lemma newStream_ok c st t p : newParser (B := B) st t = Some p -> stream_ok (newStream c p) [] [] [].
Proof. intros Hp. split; try done. by eapply newParser_log. Qed.

(** ** The end of an extraction *)
Lemma finish_spec g s l es A : stream_ok s l es A ->
  match finish g s with
  | Ret (g', s') => stream_ok s' l es A /\ counter g' = counter g /\
      (forall n, builder_logs (bb g') n = builder_logs (bb g) n) /\
      (if noMoreDataLocked s
       then s' = setDrained s /\
            (forall n, builder_terminal (bb g') n =
               if decide (n = stream_name s) then match last es with Some e => Some (StreamIndex e) | None => builder_terminal (bb g) n end
               else builder_terminal (bb g) n)
       else g' = g /\ s' = s)
  | Panic => exists e j, last es = Some e /\ builder_terminal (bb g) (stream_name s) = Some j /\ j <> StreamIndex e
  end.
Proof.
  intros Hs. unfold finish. destruct (noMoreDataLocked s) eqn:En; [|done]. rewrite (so_last _ _ _ _ Hs).
  assert (Hd : stream_ok (setDrained s) l es A) by (destruct Hs as [Hlog Hl Hso He Hcl Hd]; by split).
  destruct (last es) as [e|].
  - pose proof (setStreamTerminal_spec (bb g) (sc_desc (sc s)) (StreamIndex e)) as H. unfold tmpl.
    destruct (setStreamTerminal _ _ _) as [b'|]; cbn [mbind outcome_bind].
    + destruct H as (H1 & H2 & _). split; [done|]. split; [done|]. split; [done|]. split; [done|]. exact H2.
    + destruct H as (j & Hj & Hne). exists e, j. done.
  - cbn [mbind outcome_bind]. split; [done|]. split; [done|]. split; [done|]. split; [done|]. intros n. by case_decide.
Qed.

(** ** The whole loop *)
Inductive emits (t : ButlerLogBundle_Entry) : bundling -> list LogEntry -> bundling -> Prop :=
| emits_nil g : emits t g [] g
| emits_cons g e es g' :
    PrefixIndex e = u64 (counter g) ->
    emits t {| bb := add (bb g) t e; counter := i64 (counter g + 1) |} es g' -> emits t g (e :: es) g'.

Lemma loop_spec fuel agg m g s l es A : stream_ok s l es A -> (length l < fuel)%nat ->
  match nextBundleEntryLocked fuel (sclosed s) agg m g s with
  | Ret (m', err, g', s') => exists j new, stream_ok s' (drop j l) (es ++ new) A /\ same_shell s s' /\
      emits (tmpl s) g new g' /\ m' = m || bool_decide (new <> []) /\ (length new <= j)%nat /\
      match err with
      | None => builder_remaining (bb g') <= 0 \/
          exists s0 i, stream_ok s0 (drop i l) (es ++ new) A /\ extract (sclosed s) agg g' s0 = Ret (Nothing, g', s')
      | Some e => e = ParseError ErrFrameTooLarge /\ large_header (sparser s') (drop j l)
      end
  | Panic => exists s0 j es0, stream_ok s0 (drop j l) es0 A /\ same_shell s s0 /\ extract_panics s0 (drop j l)
  end.
Proof.
  revert m g s l es. induction fuel as [|fuel IH]; intros m g s l es Hs Hf; [lia|]. cbn [nextBundleEntryLocked].
  destruct (Z.ltb_spec 0 (builder_remaining (bb g))) as [Hrem|Hrem].
  2:{ exists 0%nat, []. rewrite app_nil_r. split; [done|]. split; [apply same_shell_refl|]. split; [constructor|].
      rewrite bool_decide_false, orb_false_r by tauto. split; [done|]. split; [cbn; lia|]. by left. }
  pose proof (extract_spec (sclosed s) agg g s l es A Hs Hrem) as He.
  destruct (extract (sclosed s) agg g s) as [[[[|e|e] g1] s1]|] eqn:Ee; cbn [mbind outcome_bind].
  - destruct He as (-> & Hsh & j & Hs1). exists j, []. rewrite app_nil_r. split; [done|]. split; [done|].
    split; [constructor|]. rewrite bool_decide_false, orb_false_r by tauto. split; [done|]. split; [cbn; lia|]. right. exists s, 0%nat. done.
  - destruct He as (j & t & Hs1 & Hj & Hsh & Hbb & Hk & Hpi & _). rewrite <-(sh_closed _ _ Hsh).
    specialize (IH true g1 s1 (drop j l) (es ++ [e]) Hs1 ltac:(rewrite length_drop; lia)).
    destruct (nextBundleEntryLocked _ _ _ _ _ _) as [[[[m' err] g'] s']|].
    + destruct IH as (j' & new & Hs' & Hsh' & Hem & -> & Hnew & Hend). exists (j + j')%nat, (e :: new).
      rewrite drop_drop, <-app_assoc in Hs'. split; [done|]. split; [by eapply same_shell_trans|]. split.
      { constructor; [done|]. rewrite <-Hbb, <-Hk. destruct g1. unfold tmpl in *. by rewrite <-(sh_sc _ _ Hsh). }
      rewrite (bool_decide_true (e :: new <> [])), orb_true_r by done. split; [done|]. split; [cbn; lia|].
      destruct err as [er|]; [rewrite drop_drop in Hend; exact Hend|].
      destruct Hend as [?|(s0 & i & Hs0 & Hex)]; [by left|]. right. exists s0, (j + i)%nat.
      rewrite drop_drop, <-app_assoc in Hs0. done.
    + destruct IH as (s0 & j' & es0 & Hs0 & Hsh0 & Hp). exists s0, (j + j')%nat, es0. rewrite drop_drop in *.
      split; [done|]. split; [by eapply same_shell_trans|done].
  - destruct He as (-> & Hl & -> & ->). exists 0%nat, []. rewrite app_nil_r. split; [done|]. split; [apply same_shell_refl|].
    split; [constructor|]. rewrite bool_decide_false, orb_false_r by tauto. split; [done|]. split; [cbn; lia|]. done.
  - exists s, 0%nat, es. split; [done|]. split; [apply same_shell_refl|done].
Qed.
End AppendSpec.
