(* ===== verification/GoHeap.v ===== *)
(** The binary heap of the Go standard library (container/heap), as the Bundler
    uses it: a list that [Init], [Fix] and [Remove] keep ordered for a [Less]. *)
From S2P Require Import Prelude.
Local Open Scope nat_scope.

Section Heap.
Context {A : Type} (less : A -> A -> bool).

(** [Swap] and [Less] at two indices of the list. *)
Definition swap (l : list A) (i j : nat) : list A :=
  match l !! i, l !! j with
  | Some x, Some y => <[i := y]> (<[j := x]> l)
  | _, _ => l
  end.
Definition less_at (l : list A) (i j : nat) : bool :=
  match l !! i, l !! j with Some x, Some y => less x y | _, _ => false end.

(** [down] and [up]; an index below [n] moves at most [n] times. *)
Fixpoint down_loop (fuel : nat) (l : list A) (i n : nat) : list A * nat :=
  match fuel with
  | O => (l, i)
  | S fuel =>
      let j1 := 2 * i + 1 in
      if n <=? j1 then (l, i)
      else
      let j := if (j1 + 1 <? n) && less_at l (j1 + 1) j1 then j1 + 1 else j1 in
      if negb (less_at l j i) then (l, i)
      else down_loop fuel (swap l i j) j n
  end.
Definition down (l : list A) (i0 n : nat) : list A * bool :=
  let '(l, i) := down_loop n l i0 n in (l, i0 <? i).

Fixpoint up (fuel : nat) (l : list A) (j : nat) : list A :=
  match fuel with
  | O => l
  | S fuel =>
      let i := (j - 1) / 2 in
      if (i =? j) || negb (less_at l j i) then l
      else up fuel (swap l i j) i
  end.

Fixpoint Init_loop (i : nat) (l : list A) (n : nat) : list A :=
  match i with
  | O => l
  | S i => Init_loop i (down l i n).1 n
  end.
Definition Init (l : list A) : list A := Init_loop (length l / 2) l (length l).

Definition Fix (l : list A) (i : nat) : list A :=
  let '(l, moved) := down l i (length l) in
  if moved then l else up (S i) l i.

(** The element removed and the rest. *)
Definition Remove (l : list A) (i : nat) : list A * option A :=
  let n := length l - 1 in
  let l :=
    if n =? i then l
    else
    let '(l, moved) := down (swap l i n) i n in
    if moved then l else up (S i) l i in
  (take n l, l !! n).

(** * The elements stay the same *)
Lemma swap_perm l i j : swap l i j ≡ₚ l.
Proof.
  unfold swap. destruct (l !! i) as [x|] eqn:Ei; [|done]. destruct (l !! j) as [y|] eqn:Ej; [|done].
  by apply Permutation_insert_swap.
Qed.

Lemma swap_length l i j : length (swap l i j) = length l.
Proof. apply Permutation_length, swap_perm. Qed.

Lemma down_loop_perm fuel l i n : (down_loop fuel l i n).1 ≡ₚ l.
Proof.
  revert l i. induction fuel as [|fuel IH]; intros l i; [done|]. cbn [down_loop].
  destruct (_ <=? _); [done|]. destruct (negb _); [done|]. by rewrite IH, swap_perm.
Qed.

Lemma down_perm l i n : (down l i n).1 ≡ₚ l.
Proof. unfold down. pose proof (down_loop_perm n l i n). by destruct (down_loop n l i n). Qed.

Lemma up_perm fuel l j : up fuel l j ≡ₚ l.
Proof.
  revert l j. induction fuel as [|fuel IH]; intros l j; [done|]. cbn [up].
  destruct (_ || _); [done|]. by rewrite IH, swap_perm.
Qed.

Lemma Init_perm l : Init l ≡ₚ l.
Proof.
  unfold Init. generalize (length l) at 2. intros n. generalize (length l / 2). intros i.
  revert l. induction i as [|i IH]; intros l; [done|]. cbn [Init_loop]. by rewrite IH, down_perm.
Qed.

Lemma Fix_perm l i : Fix l i ≡ₚ l.
Proof.
  unfold Fix. pose proof (down_perm l i (length l)) as Hd. destruct (down l i (length l)) as [l' []]; [done|].
  by rewrite up_perm.
Qed.

Lemma Remove_perm l i x : l !! i = Some x -> exists y, (Remove l i).2 = Some y /\ y :: (Remove l i).1 ≡ₚ l.
Proof.
  intros Hx. unfold Remove. set (n := length l - 1). set (l' := if n =? i then l else _).
  assert (Hp : l' ≡ₚ l).
  { subst l'. destruct (n =? i); [done|]. pose proof (down_perm (swap l i n) i n) as Hd.
    destruct (down (swap l i n) i n) as [l2 []]; cbn in Hd; rewrite ?up_perm, Hd; apply swap_perm. }
  assert (Hl : length l' = S n).
  { rewrite (Permutation_length Hp). apply lookup_lt_Some in Hx. lia. }
  destruct (l' !! n) as [y|] eqn:Ey; [|apply lookup_ge_None in Ey; lia]. exists y. split; [done|].
  cbn [fst]. etrans; [|exact Hp]. rewrite <-(take_drop_middle _ _ _ Ey) at 2.
  rewrite drop_ge by lia. by rewrite Permutation_cons_append.
Qed.
End Heap.
