(* ===== verification/LogBundler.v ===== *)
(** The Butler's Bundler (bundler/bundler.go): the registered streams, the rounds
    that pack their data into bundles in the order of its age, and the loop that
    sends the bundles. *)
From stdpp Require Import fin_maps.
From S2P Require Import Prelude RecordIO LogEntry TimedBuffer Parsers StreamName LogStream GoHeap.
Local Open Scope Z_scope.

Record Config := {
  cfg_Project : bytes; cfg_Prefix : bytes;
  MaxBufferedBytes : Z; MaxBundleSize : Z; MaxBufferDelay : Z
}.

Inductive RegisterError :=
| InvalidProperties (e : DescriptorError) | UnknownStreamType | AlreadyRegistered (name : bytes).

Section Bundler.
Context {B : Type} `{CB : ChunkBuffer B} `{PS : ProtoSize}.

(** The prefix counter is passed along with the builder, in a [bundling]. *)
Record Bundler := { cfg : Config; bstreams : gmap bytes (streamImpl (B := B)); flushing : bool }.
Definition set_bstreams (b : Bundler) (m : gmap bytes streamImpl) : Bundler :=
  {| cfg := cfg b; bstreams := m; flushing := flushing b |}.
Definition put (b : Bundler) (n : bytes) (s : streamImpl) : Bundler := set_bstreams b (<[n := s]> (bstreams b)).

Definition clear_prefix (d : LogStreamDescriptor) : LogStreamDescriptor :=
  {| Prefix := []; Name := Name d; StreamType_ := StreamType_ d; ContentType := ContentType d;
     Timestamp := Timestamp d; Tags := Tags d |}.

Definition Register (b : Bundler) (d : LogStreamDescriptor) : result RegisterError Bundler :=
  match Descriptor_Validate d false with
  | Some e => Err (InvalidProperties e)
  | None =>
      let d := clear_prefix d in
      match newParser (StreamType_ d) (default zero_time (Timestamp d)) with
      | None => Err UnknownStreamType
      | Some p =>
          match bstreams b !! Name d with
          | Some _ => Err (AlreadyRegistered (Name d))
          | None =>
              Ok (put b (Name d)
                    (newStream {| sc_desc := d; maximumBufferedBytes := MaxBufferedBytes (cfg b);
                                  maximumBufferDuration := MaxBufferDelay (cfg b) |} p))
          end
      end
  end.

Definition startFlushing (b : Bundler) : Bundler :=
  {| cfg := cfg b; bstreams := bstreams b; flushing := true |}.
Definition unregisterStreamLocked (b : Bundler) (n : bytes) : Bundler := set_bstreams b (delete n (bstreams b)).

(** * The streams in the order of their age (streamState)

    Streams are named: two of them never share a name. *)
Definition name_expire (b : Bundler) (n : bytes) : option time := bstreams b !! n ≫= expireTime.

Definition Less (b : Bundler) (i j : bytes) : bool :=
  match name_expire b i with
  | Some it => match name_expire b j with Some jt => it <? jt | None => true end
  | None => false
  end.

(** [order] is the order in which the map of the streams is iterated. *)
Definition getStreamStateLocked (b : Bundler) (order : list bytes) : list bytes := Init (Less b) order.

Fixpoint index_of (n : bytes) (st : list bytes) : option nat :=
  match st with
  | [] => None
  | m :: st => if decide (m = n) then Some O else S <$> index_of n st
  end.
Definition streamUpdated (b : Bundler) (st : list bytes) (n : bytes) : list bytes :=
  match index_of n st with Some i => Fix (Less b) st i | None => st end.
Definition removeStream (b : Bundler) (st : list bytes) (n : bytes) : list bytes :=
  match index_of n st with Some i => (Remove (Less b) st i).1 | None => st end.
Definition nextExpire (b : Bundler) (st : list bytes) : option time := head st ≫= name_expire b.

(** * A round (bundleRoundLocked) *)

(** The first pass: streams whose data has expired.  Nothing bounds its loop:
    running out of fuel is [None]. *)
Fixpoint first_pass (fuel : nat) (now : time) (b : Bundler) (g : bundling) (st : list bytes) (sendNow : bool)
  : option (outcome (Bundler * bundling * list bytes * bool)) :=
  if 0 <? builder_remaining (bb g) then
    match fuel with
    | O => None
    | S fuel =>
        match head st with
        | None => Some (Ret (b, g, st, sendNow))
        | Some n =>
            match bstreams b !! n with
            | None => Some Panic
            | Some s =>
                if drained s then Some (Ret (b, g, st, sendNow))
                else
                match expireTime s with
                | None => Some (Ret (b, g, st, sendNow))
                | Some et =>
                    if now <? et then Some (Ret (b, g, st, sendNow))
                    else
                    match nextBundleEntry true g s with
                    | Panic => Some Panic
                    | Ret (modified, g, s) =>
                        let b := put b n s in
                        let st := if modified : bool then streamUpdated b st n else st in
                        let st := if drained s then removeStream b st n else st in
                        first_pass fuel now b g st (sendNow || modified)
                    end
                end
            end
        end
    end
  else Some (Ret (b, g, st, sendNow)).

(** The second pass: whatever is available, over the streams as they were. *)
Fixpoint second_pass (names : list bytes) (b : Bundler) (g : bundling) (st : list bytes)
  : outcome (Bundler * bundling * list bytes) :=
  match names with
  | [] => Ret (b, g, st)
  | n :: names =>
      if builder_remaining (bb g) =? 0 then Ret (b, g, st)
      else
      match bstreams b !! n with
      | None => Panic
      | Some s =>
          '(modified, g, s) ← nextBundleEntry (flushing b) g s;
          let b := put b n s in
          second_pass names b g (if modified : bool then streamUpdated b st n else st)
      end
  end.

Definition bundleRoundLocked (fuel : nat) (now : time) (b : Bundler) (g : bundling) (st : list bytes)
  : option (outcome (Bundler * bundling * list bytes * bool)) :=
  r ← first_pass fuel now b g st false;
  Some ('(b, g, st, sendNow) ← r;
        '(b, g, st) ← second_pass st b g st;
        Ret (b, g, st, sendNow)).

(** * The loop (makeBundles) *)

(** Pruning: the drained streams of the state are removed and unregistered. *)
Fixpoint prune (names : list bytes) (b : Bundler) (st : list bytes) : outcome (Bundler * list bytes) :=
  match names with
  | [] => Ret (b, st)
  | n :: names =>
      match bstreams b !! n with
      | None => Panic
      | Some s =>
          if drained s then prune names (unregisterStreamLocked b n) (removeStream b st n)
          else prune names b st
      end
  end.

Inductive decision := Return | Break | WaitUntil (deadline : option time) | Again.

(** What the inner loop does next, and the time of the oldest content. *)
Definition decide_round (now : time) (b : Bundler) (g : bundling) (st : list bytes) (sendNow : bool) (oldest : option time)
  : decision * option time :=
  let content := hasContent (bb g) in
  let delay := MaxBufferDelay (cfg b) in
  if flushing b && bool_decide (st = []) then (Return, oldest)
  else if content && ((delay =? 0) || sendNow || ready (bb g)) then (Break, oldest)
  else
  let oldest := match oldest with None => if content then Some now else None | Some t => Some t end in
  let next := nextExpire b st in
  match oldest with
  | Some t =>
      if t + delay <=? now then (Break, oldest)
      else
      let next := match next with
                  | Some e => if t + delay <? e then t + delay else e
                  | None => t + delay
                  end in
      if now <? next then (WaitUntil (Some next), oldest) else (Again, oldest)
  | None =>
      match next with
      | Some e => if now <? e then (WaitUntil (Some e), oldest) else (Again, oldest)
      | None => (WaitUntil None, oldest)
      end
  end.

Definition round (fuel : nat) (now : time) (order : list bytes) (b : Bundler) (g : bundling) (oldest : option time)
  : option (outcome (decision * Bundler * bundling * option time)) :=
  r ← bundleRoundLocked fuel now b g (getStreamStateLocked b order);
  Some ('(b, g, st, sendNow) ← r;
        '(b, st) ← prune st b st;
        let '(d, oldest) := decide_round now b g st sendNow oldest in
        Ret (d, b, g, oldest)).

Definition new_builder (b : Bundler) (now : time) : builder :=
  {| size := MaxBundleSize (cfg b);
     template := {| bundle_Timestamp := now; Project := cfg_Project (cfg b); bundle_Prefix := cfg_Prefix (cfg b);
                    Entries := [] |};
     streams := ∅ |}.

(** The goroutine: what it has sent, and whether it waits or has returned. *)
Inductive mb_pc := Running | Waiting (deadline : option time) | Finished.
Record MakeBundles := {
  mb_b : Bundler; mb_g : bundling; mb_oldest : option time; mb_sent : list ButlerLogBundle; mb_at : mb_pc
}.

(** Sending what the builder holds, if anything. *)
Definition send (g : bundling) (sent : list ButlerLogBundle) : list ButlerLogBundle :=
  if hasContent (bb g) then sent ++ [bundle (bb g)] else sent.

(** One turn of the inner loop and what follows it; [now'] is the time at which
    the next builder is made. *)
Definition makeBundles_turn (fuel : nat) (now now' : time) (order : list bytes) (m : MakeBundles)
  : option (outcome MakeBundles) :=
  r ← round fuel now order (mb_b m) (mb_g m) (mb_oldest m);
  Some ('(d, b, g, oldest) ← r;
        Ret (match d with
             | Return => {| mb_b := b; mb_g := g; mb_oldest := oldest; mb_sent := send g (mb_sent m); mb_at := Finished |}
             | Break => {| mb_b := b; mb_g := {| bb := new_builder b now'; counter := counter g |}; mb_oldest := None;
                           mb_sent := send g (mb_sent m); mb_at := Running |}
             | WaitUntil t => {| mb_b := b; mb_g := g; mb_oldest := oldest; mb_sent := mb_sent m; mb_at := Waiting t |}
             | Again => {| mb_b := b; mb_g := g; mb_oldest := oldest; mb_sent := mb_sent m; mb_at := Running |}
             end)).

Definition New (c : Config) (now : time) : MakeBundles :=
  let b := {| cfg := c; bstreams := ∅; flushing := false |} in
  {| mb_b := b; mb_g := {| bb := new_builder b now; counter := 0 |}; mb_oldest := None; mb_sent := []; mb_at := Running |}.
End Bundler.
