(* ===== verification/BundlerSystem.v ===== *)
(** The Butler's Bundler at work: its streams, its loop and their users as one
    transition system, whose steps are the critical sections of the code, and the
    proof that the loop's code takes only such steps. *)
From stdpp Require Import fin_maps relations.
From S2P Require Import Prelude RecordIO LogEntry TimedBuffer Parsers ParserSpec LogStream LogStreamSpec GoHeap LogBundler.
Local Open Scope Z_scope.

(** * The system *)

(** What an observer sees of a step: an entry put in the bundle in the making,
    data a stream accepts, or nothing. *)
Inductive label := LEmit (n : bytes) (e : LogEntry) | LAppend (n : bytes) (d : bytes) | LTau.

Definition emitted (n : bytes) (tr : list label) : list LogEntry :=
  omap (fun l => match l with LEmit m e => if decide (m = n) then Some e else None | _ => None end) tr.
Definition emitted_all (tr : list label) : list LogEntry :=
  omap (fun l => match l with LEmit _ e => Some e | _ => None end) tr.
Definition appended (n : bytes) (tr : list label) : bytes :=
  concat (omap (fun l => match l with LAppend m d => if decide (m = n) then Some d else None | _ => None end) tr).

Section System.
Context {B : Type} `{CB : ChunkBuffer B} `{PS : ProtoSize}.

(** [seen] is the Butler's set of the names it has registered (butler.go);
    [active] is the stream in [nextBundleEntry], whether that is aggressive, and
    its local variable [modified]. *)
Record System := {
  y_b : Bundler (B := B); y_g : bundling; y_sent : list ButlerLogBundle;
  seen : gset bytes; active : option (bytes * bool * bool)
}.

Definition y_put (y : System) (n : bytes) (s : streamImpl) : System :=
  {| y_b := put (y_b y) n s; y_g := y_g y; y_sent := y_sent y; seen := seen y; active := active y |}.
Definition y_extracted (y : System) (n : bytes) (s : streamImpl) (g : bundling) (a : option (bytes * bool * bool)) : System :=
  {| y_b := put (y_b y) n s; y_g := g; y_sent := y_sent y; seen := seen y; active := a |}.
Definition y_set_active (y : System) (a : option (bytes * bool * bool)) : System :=
  {| y_b := y_b y; y_g := y_g y; y_sent := y_sent y; seen := seen y; active := a |}.
Definition y_set_b (y : System) (b : Bundler) : System :=
  {| y_b := b; y_g := y_g y; y_sent := y_sent y; seen := seen y; active := active y |}.

(** [Butler.AddStream]: a name is registered once, ever. *)
Definition AddStream (y : System) (d : LogStreamDescriptor) : option (result RegisterError System) :=
  if decide (Name d ∈ seen y) then None
  else Some (b ← Register (y_b y) d;
             Ok {| y_b := b; y_g := y_g y; y_sent := y_sent y; seen := {[Name d]} ∪ seen y; active := active y |}).

(** One goroutine uses a stream: it appends, blocks, and closes it at the end.
    The loop's goroutine extracts, unregisters and sends. *)
Inductive sys_step : System -> label -> System -> Prop :=
| sy_register y d y' :
    active y = None -> AddStream y d = Some (Ok y') -> sys_step y LTau y'
| sy_append y n s d r s' :
    bstreams (y_b y) !! n = Some s -> waiting s = Idle -> open_for_user s ->
    Append_check s d = (r, s') -> sys_step y LTau (y_put y n s')
| sy_attempt y n s d r s' :
    bstreams (y_b y) !! n = Some s -> waiting s = Checked d -> Append_attempt s d = (r, s') ->
    sys_step y (match r with Done None => LAppend n (buffer d) | _ => LTau end) (y_put y n s')
| sy_wake y n s r s' :
    bstreams (y_b y) !! n = Some s -> Append_wake s = Some (r, s') -> sys_step y LTau (y_put y n s')
| sy_close y n s :
    bstreams (y_b y) !! n = Some s -> waiting s = Idle -> (forall a m, active y <> Some (n, a, m)) ->
    sys_step y LTau (y_put y n (Close s))
| sy_flush y :
    active y = None -> sys_step y LTau (y_set_b y (startFlushing (y_b y)))
| sy_begin y n s a :
    active y = None -> bstreams (y_b y) !! n = Some s -> sys_step y LTau (y_set_active y (Some (n, a, false)))
| sy_emit y n a m s e g s' :
    active y = Some (n, a, m) -> bstreams (y_b y) !! n = Some s -> appendErr s = None ->
    0 < builder_remaining (bb (y_g y)) ->
    extract (sclosed s) a (y_g y) s = Ret (Emitted e, g, s') ->
    sys_step y (LEmit n e) (y_extracted y n s' g (Some (n, a, true)))
| sy_nothing y n a m s g s' :
    active y = Some (n, a, m) -> bstreams (y_b y) !! n = Some s -> appendErr s = None ->
    0 < builder_remaining (bb (y_g y)) ->
    extract (sclosed s) a (y_g y) s = Ret (Nothing, g, s') ->
    sys_step y LTau (y_extracted y n s' g (Some (n, a, m)))
| sy_failed y n a m s er g s' :
    active y = Some (n, a, m) -> bstreams (y_b y) !! n = Some s -> appendErr s = None ->
    0 < builder_remaining (bb (y_g y)) ->
    extract (sclosed s) a (y_g y) s = Ret (Failed er, g, s') ->
    sys_step y LTau (y_extracted y n (setAppendErrorLocked s' er) g (Some (n, a, m)))
| sy_end y n a m s g s' :
    active y = Some (n, a, m) -> bstreams (y_b y) !! n = Some s ->
    finish (y_g y) (if m then signalDataConsumed s else s) = Ret (g, s') ->
    sys_step y LTau (y_extracted y n s' g None)
| sy_unregister y n s :
    active y = None -> bstreams (y_b y) !! n = Some s -> drained s = true ->
    sys_step y LTau (y_set_b y (unregisterStreamLocked (y_b y) n))
| sy_send y now :
    active y = None ->
    sys_step y LTau {| y_b := y_b y; y_g := {| bb := new_builder (y_b y) now; counter := counter (y_g y) |};
                       y_sent := send (y_g y) (y_sent y); seen := seen y; active := None |}.

Inductive sys_steps : System -> list label -> System -> Prop :=
| sys_refl y : sys_steps y [] y
| sys_next y1 l y2 tr y3 : sys_steps y1 tr y2 -> sys_step y2 l y3 -> sys_steps y1 (tr ++ [l]) y3.

Lemma sys_steps_trans y1 t1 y2 t2 y3 : sys_steps y1 t1 y2 -> sys_steps y2 t2 y3 -> sys_steps y1 (t1 ++ t2) y3.
Proof.
  intros H1 H2. induction H2 as [|y2 l y3 tr y4 _ IH Hs]; [by rewrite app_nil_r|].
  rewrite app_assoc. econstructor; eauto.
Qed.

Lemma sys_one y l y' : sys_step y l y' -> sys_steps y [l] y'.
Proof. intros H. apply (sys_next y l y [] y'); [constructor|done]. Qed.

Definition initial (c : Config) (now : time) : System :=
  {| y_b := {| cfg := c; bstreams := ∅; flushing := false |};
     y_g := {| bb := {| size := MaxBundleSize c;
                        template := {| bundle_Timestamp := now; Project := cfg_Project c; bundle_Prefix := cfg_Prefix c;
                                       Entries := [] |};
                        streams := ∅ |}; counter := 0 |};
     y_sent := []; seen := ∅; active := None |}.

(** * The code takes these steps *)
Definition sys_of (b : Bundler) (g : bundling) (sent : list ButlerLogBundle) (sn : gset bytes) (a : option (bytes * bool * bool)) : System :=
  {| y_b := b; y_g := g; y_sent := sent; seen := sn; active := a |}.

Lemma put_put (b : Bundler (B := B)) n s s' : put (put b n s) n s' = put b n s'.
Proof. unfold put, set_bstreams. cbn. by rewrite insert_insert_eq. Qed.

Lemma put_same (b : Bundler (B := B)) n s : bstreams b !! n = Some s -> put b n s = b.
Proof. intros H. unfold put, set_bstreams. rewrite insert_id by done. by destruct b. Qed.

Lemma put_lookup (b : Bundler (B := B)) n s : bstreams (put b n s) !! n = Some s.
Proof. apply lookup_insert_eq. Qed.
End System.

(** * The code takes these steps *)
Section Code.
Context {B : Type} `{CB : ChunkBuffer B} `{PS : ProtoSize}.

Definition err_closed (s : streamImpl (B := B)) : Prop := appendErr s <> None -> sclosed s = true.
Definition err_closed_all (b : Bundler (B := B)) : Prop := forall n s, bstreams b !! n = Some s -> err_closed s.

Lemma err_closed_put b n s : err_closed_all b -> err_closed s -> err_closed_all (put b n s).
Proof. intros Hb Hs m x. cbn. intros [[<- <-]|[_ Hx]]%lookup_insert_Some; [done|by eapply Hb]. Qed.

Lemma extract_shell cl agg g (s : streamImpl (B := B)) r g' s' : extract cl agg g s = Ret (r, g', s') ->
  sclosed s' = sclosed s /\ appendErr s' = appendErr s /\ drained s' = drained s.
Proof.
  unfold extract. destruct (nextEntry _ _ _) as [[[[[e|]|e] p] k]|]; cbn [mbind outcome_bind]; [|by intros [= _ _ <-]..|done].
  destruct (fixupLogEntry _ _) as [[e'|e']|]; cbn [mbind outcome_bind]; [by intros [= _ _ <-]..|done].
Qed.

Lemma loop_steps fuel b n agg m g s m' err g' s' sent sn :
  nextBundleEntryLocked fuel (sclosed s) agg m g s = Ret (m', err, g', s') -> appendErr s = None ->
  exists tr, sys_steps (sys_of (put b n s) g sent sn (Some (n, agg, m))) tr
    (sys_of (put b n (match err with Some e => setAppendErrorLocked s' e | None => s' end)) g' sent sn (Some (n, agg, m'))) /\
    sclosed s' = sclosed s /\ appendErr s' = None /\ drained s' = drained s.
Proof.
  revert m g s. induction fuel as [|fuel IH]; intros m g s; cbn [nextBundleEntryLocked].
  { destruct (0 <? _); [done|]. intros [= <- <- <- <-] He. exists []. split; [constructor|done]. }
  destruct (Z.ltb_spec 0 (builder_remaining (bb g))) as [Hr|Hr].
  2:{ intros [= <- <- <- <-] He. exists []. split; [constructor|done]. }
  destruct (extract (sclosed s) agg g s) as [[[r g1] s1]|] eqn:Ex; cbn [mbind outcome_bind]; [|done].
  destruct (extract_shell _ _ _ _ _ _ _ Ex) as (Hc & Hee & Hd). intros H He. rewrite He in Hee.
  pose proof (put_lookup b n s) as Hl. destruct r as [|e|e].
  - injection H as <- <- <- <-. exists [LTau]. split; [|done]. apply sys_one.
    pose proof (sy_nothing (sys_of (put b n s) g sent sn (Some (n, agg, m))) n agg m s g1 s1 eq_refl Hl He Hr Ex) as Hst.
    unfold y_extracted in Hst. cbn in Hst. by rewrite put_put in Hst.
  - rewrite <-Hc in H. destruct (IH true g1 s1 H Hee) as (tr & Htr & Hc' & He' & Hd'). exists ([LEmit n e] ++ tr).
    split; [|by rewrite Hc', Hd'].
    eapply sys_steps_trans; [|exact Htr]. apply sys_one.
    pose proof (sy_emit (sys_of (put b n s) g sent sn (Some (n, agg, m))) n agg m s e g1 s1 eq_refl Hl He Hr Ex) as Hst.
    unfold y_extracted in Hst. cbn in Hst. by rewrite put_put in Hst.
  - injection H as <- <- <- <-. exists [LTau]. split; [|done]. apply sys_one.
    pose proof (sy_failed (sys_of (put b n s) g sent sn (Some (n, agg, m))) n agg m s e g1 s1 eq_refl Hl He Hr Ex) as Hst.
    unfold y_extracted in Hst. cbn in Hst. by rewrite put_put in Hst.
Qed.

Lemma nextBundleEntry_steps b n agg g s m g' s' sent sn :
  bstreams b !! n = Some s -> err_closed s -> nextBundleEntry agg g s = Ret (m, g', s') ->
  exists tr, sys_steps (sys_of b g sent sn None) tr (sys_of (put b n s') g' sent sn None) /\ err_closed s'.
Proof.
  intros Hs Hec. unfold nextBundleEntry.
  assert (Hbegin : sys_step (sys_of b g sent sn None) LTau (sys_of b g sent sn (Some (n, agg, false)))).
  { by apply (sy_begin (sys_of b g sent sn None) n s agg). }
  assert (Hend : forall g1 s1 s2 m1 g2, finish g1 (if m1 : bool then signalDataConsumed s1 else s1) = Ret (g2, s2) ->
    sys_step (sys_of (put b n s1) g1 sent sn (Some (n, agg, m1))) LTau (sys_of (put b n s2) g2 sent sn None)).
  { intros g1 s1 s2 m1 g2 Hf.
    pose proof (sy_end (sys_of (put b n s1) g1 sent sn (Some (n, agg, m1))) n agg m1 s1 g2 s2 eq_refl (put_lookup b n s1) Hf) as Hst.
    unfold y_extracted in Hst. cbn in Hst. by rewrite put_put in Hst. }
  assert (Hfin : forall g1 s1 g2 s2, err_closed s1 -> finish g1 s1 = Ret (g2, s2) -> err_closed s2).
  { intros g1 s1 g2 s2 H1. unfold finish. destruct (noMoreDataLocked s1); [|by intros [= _ <-]].
    destruct (match lastLogEntry s1 with Some le => _ | None => _ end); cbn [mbind outcome_bind]; [|done].
    by intros [= _ <-]. }
  destruct (noMoreDataLocked s) eqn:En; cbn [mbind outcome_bind].
  - destruct (finish g s) as [[g2 s2]|] eqn:Ef; cbn [mbind outcome_bind]; [|done]. intros [= <- <- <-].
    exists ([LTau] ++ [LTau]). split; [|by eapply Hfin]. eapply sys_steps_trans; apply sys_one; [exact Hbegin|].
    rewrite <-(put_same b n s Hs) at 1. by apply (Hend g s s2 false).
  - destruct (nextBundleEntryLocked _ _ _ _ _ _) as [[[[m1 err] g1] s1]|] eqn:El; cbn [mbind outcome_bind]; [|done].
    assert (He : appendErr s = None).
    { destruct (appendErr s) eqn:Ee; [|done]. unfold noMoreDataLocked in En. rewrite Hec, Ee in En by congruence. done. }
    destruct (loop_steps _ b n _ _ _ _ _ _ _ _ sent sn El He) as (tr & Htr & Hc & He1 & _).
    destruct (finish g1 (after_extract err m1 s1)) as [[g2 s2]|] eqn:Ef; cbn [mbind outcome_bind]; [|done].
    intros [= <- <- <-]. exists ([LTau] ++ tr ++ [LTau]). split.
    + eapply sys_steps_trans; [apply sys_one, Hbegin|]. rewrite <-(put_same b n s Hs) at 1.
      eapply sys_steps_trans; [exact Htr|]. apply sys_one. apply Hend. unfold after_extract in Ef. done.
    + eapply Hfin; [|exact Ef]. unfold after_extract. destruct err as [e|]; destruct m1; intros Hx; try done; cbn in *; congruence.
Qed.

(** A round, its passes and the pruning. *)
Definition reaches (b b' : Bundler (B := B)) (g g' : bundling) : Prop :=
  forall sent sn, exists tr, sys_steps (sys_of b g sent sn None) tr (sys_of b' g' sent sn None).

Lemma reaches_refl b g : reaches b b g g.
Proof. intros sent sn. exists []. constructor. Qed.

Lemma reaches_trans b1 b2 b3 g1 g2 g3 : reaches b1 b2 g1 g2 -> reaches b2 b3 g2 g3 -> reaches b1 b3 g1 g3.
Proof.
  intros H1 H2 sent sn. destruct (H1 sent sn) as [t1 ?], (H2 sent sn) as [t2 ?]. exists (t1 ++ t2).
  by eapply sys_steps_trans.
Qed.

Lemma nextBundleEntry_reaches b n agg g s m g' s' :
  bstreams b !! n = Some s -> err_closed_all b -> nextBundleEntry agg g s = Ret (m, g', s') ->
  reaches b (put b n s') g g' /\ err_closed_all (put b n s').
Proof.
  intros Hs Hb H. split.
  - intros sent sn. destruct (nextBundleEntry_steps b n agg g s m g' s' sent sn Hs (Hb _ _ Hs) H) as (tr & ? & _). eauto.
  - destruct (nextBundleEntry_steps b n agg g s m g' s' [] ∅ Hs (Hb _ _ Hs) H) as (tr & _ & He). by apply err_closed_put.
Qed.

Lemma first_pass_reaches fuel now b g st sn b' g' st' sn' : err_closed_all b ->
  first_pass fuel now b g st sn = Some (Ret (b', g', st', sn')) -> reaches b b' g g' /\ err_closed_all b'.
Proof.
  revert b g st sn. induction fuel as [|fuel IH]; intros b g st sn Hb; cbn [first_pass]; (destruct (0 <? _);
    [|intros [= <- <- <- <-]; split; [apply reaches_refl|done]]); [done|].
  destruct (head st) as [n|]; [|intros [= <- <- <- <-]; split; [apply reaches_refl|done]].
  destruct (bstreams b !! n) as [s|] eqn:Es; [|done].
  destruct (drained s); [intros [= <- <- <- <-]; split; [apply reaches_refl|done]|].
  destruct (expireTime s) as [et|]; [|intros [= <- <- <- <-]; split; [apply reaches_refl|done]].
  destruct (now <? et); [intros [= <- <- <- <-]; split; [apply reaches_refl|done]|].
  destruct (nextBundleEntry true g s) as [[[m g1] s1]|] eqn:En; [|done]. intros H.
  destruct (nextBundleEntry_reaches _ _ _ _ _ _ _ _ Es Hb En) as [Hr Hb1].
  destruct (IH _ _ _ _ Hb1 H) as [Hr' Hb']. split; [by eapply reaches_trans|done].
Qed.

Lemma second_pass_reaches names b g st b' g' st' : err_closed_all b ->
  second_pass names b g st = Ret (b', g', st') -> reaches b b' g g' /\ err_closed_all b'.
Proof.
  revert b g st. induction names as [|n names IH]; intros b g st Hb; cbn [second_pass].
  { intros [= <- <- <-]. split; [apply reaches_refl|done]. }
  destruct (_ =? 0); [intros [= <- <- <-]; split; [apply reaches_refl|done]|].
  destruct (bstreams b !! n) as [s|] eqn:Es; [|done].
  destruct (nextBundleEntry _ g s) as [[[m g1] s1]|] eqn:En; cbn [mbind outcome_bind]; [|done]. intros H.
  destruct (nextBundleEntry_reaches _ _ _ _ _ _ _ _ Es Hb En) as [Hr Hb1].
  destruct (IH _ _ _ Hb1 H) as [Hr' Hb']. split; [by eapply reaches_trans|done].
Qed.

Lemma prune_reaches names b g st b' st' : err_closed_all b -> prune names b st = Ret (b', st') ->
  reaches b b' g g /\ err_closed_all b'.
Proof.
  revert b st. induction names as [|n names IH]; intros b st Hb; cbn [prune].
  { intros [= <- <-]. split; [apply reaches_refl|done]. }
  destruct (bstreams b !! n) as [s|] eqn:Es; [|done]. destruct (drained s) eqn:Ed; [|by apply IH].
  intros H. assert (Hb1 : err_closed_all (unregisterStreamLocked b n)).
  { intros k x. cbn. intros [_ Hx]%lookup_delete_Some. by eapply Hb. }
  destruct (IH _ _ Hb1 H) as [Hr Hb']. split; [|done]. eapply reaches_trans; [|exact Hr].
  intros sent sn. exists [LTau]. apply sys_one. by apply (sy_unregister (sys_of b g sent sn None) n s).
Qed.

(** A turn of the loop is a run of the system; when the loop returns, nothing is
    left in its builder. *)
Lemma turn_steps fuel now now' order m m' sn : err_closed_all (mb_b m) ->
  makeBundles_turn fuel now now' order m = Some (Ret m') ->
  exists tr g', sys_steps (sys_of (mb_b m) (mb_g m) (mb_sent m) sn None) tr (sys_of (mb_b m') g' (mb_sent m') sn None) /\
    (mb_at m' <> Finished -> g' = mb_g m') /\ (mb_at m' = Finished -> streams (bb g') = ∅) /\ err_closed_all (mb_b m').
Proof.
  intros Hb. unfold makeBundles_turn, round, bundleRoundLocked.
  destruct (first_pass _ _ _ _ _ _) as [[[[[b1 g1] st1] sn1]|]|] eqn:E1; cbn [mbind option_bind outcome_bind]; [|done..].
  destruct (first_pass_reaches _ _ _ _ _ _ _ _ _ _ Hb E1) as [Hr1 Hb1].
  destruct (second_pass _ _ _ _) as [[[b2 g2] st2]|] eqn:E2; cbn [mbind option_bind outcome_bind]; [|done].
  destruct (second_pass_reaches _ _ _ _ _ _ _ Hb1 E2) as [Hr2 Hb2].
  destruct (prune _ _ _) as [[b3 st3]|] eqn:E3; cbn [mbind option_bind outcome_bind]; [|done].
  destruct (prune_reaches _ _ g2 _ _ _ Hb2 E3) as [Hr3 Hb3].
  assert (Hr : reaches (mb_b m) b3 (mb_g m) g2) by (eapply reaches_trans; [exact Hr1|by eapply reaches_trans]).
  destruct (decide_round _ _ _ _ _ _) as [d oldest].
  destruct (Hr (mb_sent m) sn) as [tr Htr].
  assert (Hsend : sys_steps (sys_of (mb_b m) (mb_g m) (mb_sent m) sn None) (tr ++ [LTau])
    (sys_of b3 {| bb := new_builder b3 now'; counter := counter g2 |} (send g2 (mb_sent m)) sn None)).
  { econstructor; [exact Htr|]. exact (sy_send (sys_of b3 g2 (mb_sent m) sn None) now' eq_refl). }
  destruct d; intros [= <-]; cbn [mb_at mb_b mb_g mb_sent] in *.
  - eexists _, _. split; [exact Hsend|]. split; [done|]. split; [done|exact Hb3].
  - eexists _, _. split; [exact Hsend|]. split; [done|]. split; [done|exact Hb3].
  - eexists _, _. split; [exact Htr|]. split; [done|]. split; [done|exact Hb3].
  - eexists _, _. split; [exact Htr|]. split; [done|]. split; [done|exact Hb3].
Qed.
End Code.
