(* ===== verification/BundlerInv.v ===== *)
(** The invariant of the Bundler's transition system: what every stream has
    emitted is in the bundles sent and the one in the making, in order, and is
    the log of what was appended to it. *)
From stdpp Require Import fin_maps.
From S2P Require Import Prelude RecordIO LogEntry TimedBuffer Parsers ParserSpec LogStream LogStreamSpec GoHeap LogBundler BundlerSystem.
Local Open Scope Z_scope.

(** * Bundles hold the builder's streams *)
Section Bundles.
Context `{PS : ProtoSize}.

Lemma entries_logs (b : builder) names n : builder_ok b -> NoDup names ->
  concat (map Logs (filter (fun e => Name (Desc e) = n) (omap (fun k => bs_entry <$> (streams b !! k)) names))) =
  if decide (n ∈ names) then builder_logs b n else [].
Proof.
  intros Hb. induction names as [|k names IH]; intros Hnd; [by rewrite decide_False by set_solver|].
  apply NoDup_cons in Hnd as [Hk Hnd]. specialize (IH Hnd). cbn [omap list_omap].
  destruct (streams b !! k) as [bs|] eqn:E; cbn [fmap option_fmap option_map].
  - destruct (Hb k bs E) as [Hname _]. rewrite filter_cons.
    destruct (decide (Name (Desc (bs_entry bs)) = n)) as [Hd|Hd].
    + assert (k = n) as -> by congruence. rewrite decide_True by by left. cbn [map concat].
      rewrite IH, decide_False, app_nil_r by done. unfold builder_logs. by rewrite E.
    + rewrite IH. assert (k <> n) by congruence. destruct (decide (n ∈ names)); [by rewrite decide_True by by right|].
      rewrite decide_False; [done|]. by intros [->|?]%elem_of_cons.
  - rewrite IH. destruct (decide (n ∈ names)); [by rewrite decide_True by by right|].
    destruct (decide (n ∈ k :: names)) as [Hi|]; [|done]. apply elem_of_cons in Hi as [->|]; [|done].
    unfold builder_logs. by rewrite E.
Qed.

Definition bundle_names (b : builder) : list bytes := merge_sort name_le (map fst (map_to_list (streams b))).

Lemma bundle_names_perm b : bundle_names b ≡ₚ map fst (map_to_list (streams b)).
Proof. apply merge_sort_Permutation. Qed.

Lemma bundle_names_elem b n : n ∈ bundle_names b <-> is_Some (streams b !! n).
Proof.
  rewrite (bundle_names_perm b), list_elem_of_fmap. split.
  - intros ([k bs] & -> & H%elem_of_map_to_list). by eexists.
  - intros [bs H]. exists (n, bs). split; [done|]. by apply elem_of_map_to_list.
Qed.

Lemma bundle_names_nodup b : NoDup (bundle_names b).
Proof. rewrite (bundle_names_perm b). apply NoDup_fst_map_to_list. Qed.

(** A bundle has, of each stream, what its builder had. *)
Lemma bundle_logs_builder b n : builder_ok b -> bundle_logs (bundle b) n = builder_logs b n.
Proof.
  intros Hb. unfold bundle_logs, bundle. cbn [Entries]. fold (bundle_names b).
  rewrite entries_logs by auto using bundle_names_nodup. case_decide as Hn; [done|].
  rewrite bundle_names_elem in Hn. unfold builder_logs. destruct (streams b !! n); [by destruct Hn|done].
Qed.

(** The terminal index a bundle gives a stream. *)
Definition bundle_terminal (bu : ButlerLogBundle) (n : bytes) (i : Z) : Prop :=
  exists e, e ∈ Entries bu /\ Name (Desc e) = n /\ Terminal e = true /\ TerminalIndex e = i.

Lemma bundle_terminal_builder b n i : builder_ok b -> bundle_terminal (bundle b) n i <-> builder_terminal b n = Some i.
Proof.
  intros Hb. unfold bundle_terminal, builder_terminal, bundle. cbn [Entries]. fold (bundle_names b). split.
  - intros (e & He & Hn & Ht & Hi). apply list_elem_of_omap in He as (k & Hk & He).
    destruct (streams b !! k) as [bs|] eqn:E; [|done]. injection He as <-. destruct (Hb k bs E) as [Hname _].
    assert (k = n) as -> by congruence. rewrite E. cbn. by rewrite Ht, Hi.
  - destruct (streams b !! n) as [bs|] eqn:E; [|done]. cbn. destruct (Terminal (bs_entry bs)) eqn:Et; [|done]. intros [= <-].
    exists (bs_entry bs). split; [|by destruct (Hb n bs E)].
    apply list_elem_of_omap. exists n. split; [by apply bundle_names_elem; eexists|by rewrite E].
Qed.
End Bundles.

(** * Traces *)
Lemma emitted_snoc n tr l : emitted n (tr ++ [l]) =
  emitted n tr ++ match l with LEmit m e => if decide (m = n) then [e] else [] | _ => [] end.
Proof. unfold emitted. rewrite omap_app. f_equal. destruct l as [m e| |]; cbn; [|done..]. by case_decide. Qed.

Lemma emitted_all_snoc tr l : emitted_all (tr ++ [l]) =
  emitted_all tr ++ match l with LEmit _ e => [e] | _ => [] end.
Proof. unfold emitted_all. rewrite omap_app. f_equal. by destruct l. Qed.

Lemma appended_snoc n tr l : appended n (tr ++ [l]) =
  appended n tr ++ match l with LAppend m d => if decide (m = n) then d else [] | _ => [] end.
Proof.
  unfold appended. rewrite omap_app, concat_app. f_equal. destruct l as [|m d|]; cbn; [done| |done].
  case_decide; cbn; [by rewrite app_nil_r|done].
Qed.

(** * The invariant *)
Section Inv.
Context {B : Type} `{CL : ChunkBufferLaws B} `{PS : ProtoSize}.

Definition delivered (y : System (B := B)) (n : bytes) : list LogEntry :=
  concat (map (fun bu => bundle_logs bu n) (y_sent y)) ++ builder_logs (bb (y_g y)) n.
Definition has_terminal (y : System (B := B)) (n : bytes) (i : Z) : Prop :=
  builder_terminal (bb (y_g y)) n = Some i \/ exists bu, bu ∈ y_sent y /\ bundle_terminal bu n i.

(** The stream registered under a name, or the last state of one that is gone. *)
Definition stream_at (y : System (B := B)) (tr : list label) (n : bytes) (s : streamImpl) (l : timed) : Prop :=
  stream_name s = n /\ stream_ok s l (emitted n tr) (appended n tr) /\ (waiting s <> Idle -> open_for_user s) /\
  (bstreams (y_b y) !! n = Some s \/ bstreams (y_b y) !! n = None /\ drained s = true).

Record sys_inv (y : System (B := B)) (tr : list label) : Prop := {
  i_builder : builder_ok (bb (y_g y));
  i_counter : counter (y_g y) = i64 (Z.of_nat (length (emitted_all tr)));
  i_prefix : forall i e, emitted_all tr !! i = Some e -> PrefixIndex e = u64 (Z.of_nat i);
  i_delivered : forall n, emitted n tr = delivered y n;
  i_unseen : forall n, n ∉ seen y -> bstreams (y_b y) !! n = None /\ emitted n tr = [] /\ appended n tr = [];
  i_seen : forall n, n ∈ seen y -> exists s l, stream_at y tr n s l;
  i_terminal : forall n i, has_terminal y n i -> n ∈ seen y /\
    (forall s, bstreams (y_b y) !! n = Some s -> drained s = true) /\
    exists e, last (emitted n tr) = Some e /\ StreamIndex e = i;
  i_done : forall n, n ∈ seen y -> (forall s, bstreams (y_b y) !! n = Some s -> drained s = true) ->
    forall e, last (emitted n tr) = Some e -> has_terminal y n (StreamIndex e)
}.

Lemma inv_lookup y tr n s : sys_inv y tr -> bstreams (y_b y) !! n = Some s ->
  n ∈ seen y /\ stream_name s = n /\ (waiting s <> Idle -> open_for_user s) /\
  exists l, stream_ok s l (emitted n tr) (appended n tr).
Proof.
  intros Hi Hs. destruct (decide (n ∈ seen y)) as [Hn|Hn].
  2:{ destruct (i_unseen _ _ Hi n Hn) as [E _]. congruence. }
  destruct (i_seen _ _ Hi n Hn) as (s' & l & Hname & Hok & Hw & [E|[E _]]); [|congruence].
  assert (s' = s) as -> by congruence. eauto 10.
Qed.

(** Nothing but a stream's state changes. *)
Lemma inv_put y tr n s s' l' lab :
  sys_inv y tr -> bstreams (y_b y) !! n = Some s -> (lab = LTau \/ exists d, lab = LAppend n d) ->
  stream_name s' = n -> stream_ok s' l' (emitted n tr) (appended n (tr ++ [lab])) -> drained s' = drained s ->
  (waiting s' <> Idle -> open_for_user s') -> forall a,
  sys_inv (y_extracted y n s' (y_g y) a) (tr ++ [lab]).
Proof.
  intros Hi Hs Hlab Hname Hok Hdr Hw a.
  assert (Hem : forall m, emitted m (tr ++ [lab]) = emitted m tr).
  { intros m. rewrite emitted_snoc. destruct Hlab as [->|[d ->]]; by rewrite app_nil_r. }
  assert (Hall : emitted_all (tr ++ [lab]) = emitted_all tr).
  { rewrite emitted_all_snoc. destruct Hlab as [->|[d ->]]; by rewrite app_nil_r. }
  assert (Hap : forall m, m <> n -> appended m (tr ++ [lab]) = appended m tr).
  { intros m Hm. rewrite appended_snoc. destruct Hlab as [->|[d ->]]; [by rewrite app_nil_r|].
    rewrite decide_False by done. by rewrite app_nil_r. }
  destruct (inv_lookup _ _ _ _ Hi Hs) as (Hseen & _).
  assert (Hd : forall m, (forall x, <[n := s']> (bstreams (y_b y)) !! m = Some x -> drained x = true) ->
                         forall x, bstreams (y_b y) !! m = Some x -> drained x = true).
  { intros m H x Hx. destruct (decide (m = n)) as [->|Hm].
    - rewrite Hs in Hx. injection Hx as <-. rewrite <-Hdr. apply H. by rewrite lookup_insert_eq.
    - apply H. by rewrite lookup_insert_ne. }
  split; cbn [y_extracted y_b y_g y_sent seen put set_bstreams bstreams].
  - apply (i_builder _ _ Hi).
  - rewrite Hall. apply (i_counter _ _ Hi).
  - rewrite Hall. apply (i_prefix _ _ Hi).
  - intros m. rewrite Hem. apply (i_delivered _ _ Hi).
  - intros m Hm. rewrite lookup_insert_ne by congruence. rewrite Hem, Hap by congruence. by apply (i_unseen _ _ Hi).
  - intros m Hm. destruct (decide (m = n)) as [->|Hne].
    + exists s', l'. split; [done|]. rewrite Hem. split; [done|]. split; [done|]. left. apply lookup_insert_eq.
    + destruct (i_seen _ _ Hi m Hm) as (x & lx & H1 & H2 & H3 & H4). exists x, lx. split; [done|].
      rewrite Hem, Hap by done. split; [done|]. split; [done|]. cbn. by rewrite lookup_insert_ne.
  - intros m i Ht. destruct (i_terminal _ _ Hi m i Ht) as (H1 & H2 & H3). rewrite Hem. split; [done|]. split; [|done].
    intros x [[<- <-]|[Hne Hx]]%lookup_insert_Some; [rewrite Hdr; by apply H2|by apply H2].
  - intros m Hm Hdm. rewrite Hem. apply (i_done _ _ Hi m Hm). by apply Hd.
Qed.

Lemma stream_name_shell (s s' : streamImpl (B := B)) : sc s' = sc s -> stream_name s' = stream_name s.
Proof. unfold stream_name. by intros ->. Qed.

(** An entry is emitted. *)
Lemma inv_emit y tr n a s e g s' :
  sys_inv y tr -> bstreams (y_b y) !! n = Some s -> appendErr s = None -> 0 < builder_remaining (bb (y_g y)) ->
  extract (sclosed s) a (y_g y) s = Ret (Emitted e, g, s') -> forall act,
  sys_inv (y_extracted y n s' g act) (tr ++ [LEmit n e]).
Proof.
  intros Hi Hs He Hrem Hex act. destruct (inv_lookup _ _ _ _ Hi Hs) as (Hseen & Hname & Hw & l & Hok).
  pose proof (extract_spec (sclosed s) a (y_g y) s l _ _ Hok Hrem) as H. rewrite Hex in H.
  destruct H as (j & t & Hok' & Hj & Hsh & Hbb & Hk & Hpi & _).
  assert (Hnd : drained s = false).
  { destruct (drained s) eqn:Ed; [|done]. apply (so_drained _ _ _ _ Hok) in Ed. unfold noMoreDataLocked in Ed.
    destruct (sclosed s); [|done]. rewrite He in Ed. cbn in Ed. apply Z.eqb_eq in Ed.
    rewrite (stream_buffered_ok _ _ _ _ Hok) in Ed. lia. }
  assert (Hap : forall k, appended k (tr ++ [LEmit n e]) = appended k tr) by (intros k; by rewrite appended_snoc, app_nil_r).
  assert (Hname' : stream_name s' = n) by (rewrite <-Hname; apply stream_name_shell, Hsh).
  assert (Hnoterm : forall i, ~ has_terminal y n i).
  { intros i Ht. destruct (i_terminal _ _ Hi n i Ht) as (_ & Hd & _). rewrite (Hd s Hs) in Hnd. done. }
  assert (Hterm : forall k i, has_terminal (y_extracted y n s' g act) k i <-> has_terminal y k i).
  { intros k i. unfold has_terminal. cbn [y_extracted y_g y_sent]. rewrite Hbb. unfold tmpl. by rewrite add_terminal. }
  split; cbn [y_extracted y_b y_g y_sent seen put set_bstreams bstreams].
  - rewrite Hbb. apply add_ok, (i_builder _ _ Hi).
  - rewrite emitted_all_snoc, length_app, Hk, (i_counter _ _ Hi), i64_add_l. f_equal. cbn. lia.
  - intros i x. rewrite emitted_all_snoc. intros [Hx|[Hge Hx]]%lookup_app_Some; [by apply (i_prefix _ _ Hi)|].
    destruct (i - _)%nat eqn:Ei; [|done]. injection Hx as <-. rewrite Hpi, (i_counter _ _ Hi), u64_i64. f_equal. lia.
  - intros k. rewrite emitted_snoc, (i_delivered _ _ Hi). unfold delivered. cbn [y_extracted y_g y_sent]. rewrite Hbb.
    unfold tmpl. rewrite add_logs. fold (stream_name s). rewrite Hname.
    destruct (decide (k = n)) as [->|]; [rewrite decide_True by done; by rewrite app_assoc|].
    rewrite decide_False by congruence. by rewrite app_nil_r.
  - intros k Hk'. assert (k <> n) by congruence. rewrite lookup_insert_ne, emitted_snoc, Hap, decide_False, app_nil_r by congruence.
    by apply (i_unseen _ _ Hi).
  - intros k Hk'. destruct (decide (k = n)) as [->|Hne].
    + exists s', (drop j l). split; [done|]. rewrite Hap, emitted_snoc, decide_True by done. split; [done|]. split.
      * rewrite (sh_waiting _ _ Hsh). unfold open_for_user. by rewrite (sh_closed _ _ Hsh), (sh_err _ _ Hsh).
      * left. apply lookup_insert_eq.
    + destruct (i_seen _ _ Hi k Hk') as (x & lx & H1 & H2 & H3 & H4). exists x, lx. split; [done|].
      rewrite Hap, emitted_snoc, decide_False, app_nil_r by congruence. split; [done|]. split; [done|]. cbn.
      by rewrite lookup_insert_ne.
  - intros k i Ht%Hterm. assert (k <> n) by (intros ->; by apply (Hnoterm i)).
    destruct (i_terminal _ _ Hi k i Ht) as (H1 & H2 & H3). rewrite emitted_snoc, decide_False, app_nil_r by congruence.
    split; [done|]. split; [|done]. intros x. rewrite lookup_insert_ne by congruence. apply H2.
  - intros k Hk' Hdk x Hx. apply Hterm. destruct (decide (k = n)) as [->|Hne].
    + specialize (Hdk s' (lookup_insert_eq _ _ _)). rewrite (sh_drained _ _ Hsh) in Hdk. congruence.
    + rewrite emitted_snoc, decide_False, app_nil_r in Hx by congruence. apply (i_done _ _ Hi k Hk'); [|done].
      intros z Hz. apply Hdk. by rewrite lookup_insert_ne.
Qed.
End Inv.

Section Steps.
Context {B : Type} `{CL : ChunkBufferLaws B} `{PS : ProtoSize}.

Lemma emitted_tau n tr : emitted n (tr ++ [LTau]) = emitted n tr.
Proof. by rewrite emitted_snoc, app_nil_r. Qed.
Lemma emitted_all_tau tr : emitted_all (tr ++ [LTau]) = emitted_all tr.
Proof. by rewrite emitted_all_snoc, app_nil_r. Qed.
Lemma appended_tau n tr : appended n (tr ++ [LTau]) = appended n tr.
Proof. by rewrite appended_snoc, app_nil_r. Qed.

(** The invariant depends on a trace through what it shows. *)
Lemma inv_tau y y' tr : (sys_inv y tr -> sys_inv y' tr) -> sys_inv y tr -> sys_inv (B := B) y' (tr ++ [LTau]).
Proof.
  intros H Hi. destruct (H Hi) as [H1 H2 H3 H4 H5 H6 H7 H8]. split; try done.
  - by rewrite emitted_all_tau.
  - by rewrite emitted_all_tau.
  - intros n. by rewrite emitted_tau.
  - intros n. rewrite emitted_tau, appended_tau. apply H5.
  - intros n Hn. destruct (H6 n Hn) as (s & l & ? & ? & ?). exists s, l. split; [done|]. by rewrite emitted_tau, appended_tau.
  - intros n i. rewrite emitted_tau. apply H7.
  - intros n Hn. rewrite emitted_tau. by apply H8.
Qed.

(** The end of an extraction. *)
Lemma inv_end y tr n s0 s g s' a :
  sys_inv y tr -> bstreams (y_b y) !! n = Some s0 -> s = s0 \/ s = signalDataConsumed s0 ->
  finish (y_g y) s = Ret (g, s') -> sys_inv (B := B) (y_extracted y n s' g a) tr.
Proof.
  intros Hi Hs Hor Hf. destruct (inv_lookup _ _ _ _ Hi Hs) as (Hseen & Hname & Hw & l & Hok).
  assert (Hok1 : stream_ok s l (emitted n tr) (appended n tr)) by (destruct Hor as [->| ->]; [done|by apply signal_ok]).
  assert (Hsh : sc s = sc s0 /\ drained s = drained s0 /\ waiting s = waiting s0 /\ (open_for_user s0 -> open_for_user s))
    by (by destruct Hor as [->| ->]).
  destruct Hsh as (Hsc & Hdr & Hwt & Hop).
  assert (Hname1 : stream_name s = n) by (rewrite <-Hname; by apply stream_name_shell).
  pose proof (finish_spec (y_g y) s l _ _ Hok1) as H. rewrite Hf in H.
  destruct H as (Hok' & Hk & Hlogs & Hcase).
  assert (Hb' : builder_ok (bb g)).
  { unfold finish in Hf. destruct (noMoreDataLocked s); [|injection Hf as <- _; apply (i_builder _ _ Hi)].
    destruct (lastLogEntry s); [|injection Hf as <- _; apply (i_builder _ _ Hi)].
    destruct (setStreamTerminal _ _ _) as [b'|] eqn:Et; [|done]. injection Hf as <- _. cbn.
    eapply setStreamTerminal_ok; [apply (i_builder _ _ Hi)|exact Et]. }
  set (more := noMoreDataLocked s) in *.
  assert (Hs' : stream_name s' = n /\ waiting s' = waiting s /\ (open_for_user s -> open_for_user s') /\
    (drained s' = true <-> drained s = true \/ more = true)).
  { destruct more; destruct Hcase as [Hc1 Hc2]; [subst s'|subst s'].
    - split; [done|]. split; [done|]. split; [done|]. cbn. tauto.
    - split; [done|]. split; [done|]. split; [done|]. split; [by left|by intros [?|?]]. }
  destruct Hs' as (Hname' & Hwt' & Hop' & Hdr').
  assert (Hterm : forall m i, has_terminal (y_extracted y n s' g a) m i <->
     has_terminal y m i \/ (m = n /\ more = true /\ exists e, last (emitted n tr) = Some e /\ StreamIndex e = i)).
  { intros m i. unfold has_terminal. cbn [y_extracted y_g y_sent].
    destruct more; [|destruct Hcase as [-> _]; naive_solver].
    destruct Hcase as [_ Hbt]. rewrite Hbt, Hname1. destruct (decide (m = n)) as [->|]; [|naive_solver].
    destruct (last (emitted n tr)) as [e|] eqn:El; [|naive_solver]. split.
    - intros [[= <-]|?]; [right; eauto|left; by right].
    - intros [[Ht|?]|(_ & _ & e' & [= <-] & Hx)]; [left|by right|left; congruence].
      destruct (i_terminal _ _ Hi n i (or_introl Ht)) as (_ & _ & e' & He' & Hx'). congruence. }
  split; cbn [y_extracted y_b y_g y_sent seen put set_bstreams bstreams].
  - done.
  - rewrite Hk. apply (i_counter _ _ Hi).
  - apply (i_prefix _ _ Hi).
  - intros m. rewrite (i_delivered _ _ Hi). unfold delivered. cbn [y_extracted y_g y_sent]. by rewrite Hlogs.
  - intros m Hm. rewrite lookup_insert_ne by congruence. by apply (i_unseen _ _ Hi).
  - intros m Hm. destruct (decide (m = n)) as [->|Hne].
    + exists s', l. split; [done|]. split; [done|]. split; [rewrite Hwt', Hwt; auto|]. left. apply lookup_insert_eq.
    + destruct (i_seen _ _ Hi m Hm) as (x & lx & H1 & H2 & H3 & H4). exists x, lx. split; [done|]. split; [done|].
      split; [done|]. cbn. by rewrite lookup_insert_ne.
  - intros m i [Ht|(-> & Hmore & He)]%Hterm.
    + destruct (i_terminal _ _ Hi m i Ht) as (H1 & H2 & H3). split; [done|]. split; [|done].
      intros x [[<- <-]|[Hne Hx]]%lookup_insert_Some; [|by apply H2]. apply Hdr'. left. rewrite Hdr. by apply H2.
    + split; [done|]. split; [|done]. intros x [[_ <-]|[Hne _]]%lookup_insert_Some; [|done]. apply Hdr'. by right.
  - intros m Hm Hdm e He. apply Hterm. destruct (decide (m = n)) as [->|Hne].
    + specialize (Hdm s' (lookup_insert_eq _ _ _)). apply Hdr' in Hdm as [Hd|Hmore]; [|right; eauto].
      left. apply (i_done _ _ Hi n Hm); [|done]. intros x Hx. rewrite Hs in Hx. injection Hx as <-. by rewrite <-Hdr.
    + left. apply (i_done _ _ Hi m Hm); [|done]. intros x Hx. apply Hdm. by rewrite lookup_insert_ne.
Qed.

Lemma inv_unregister y tr n s : sys_inv y tr -> bstreams (y_b y) !! n = Some s -> drained s = true ->
  sys_inv (B := B) (y_set_b y (unregisterStreamLocked (y_b y) n)) tr.
Proof.
  intros Hi Hs Hd. destruct (inv_lookup _ _ _ _ Hi Hs) as (Hseen & Hname & Hw & l & Hok).
  split; cbn [y_set_b y_b y_g y_sent seen unregisterStreamLocked set_bstreams bstreams]; try apply Hi.
  - intros m Hm. destruct (i_unseen _ _ Hi m Hm) as [H1 H2]. split; [|done]. rewrite lookup_delete_None. by right.
  - intros m Hm. destruct (decide (m = n)) as [->|Hne].
    + exists s, l. split; [done|]. split; [done|]. split; [done|]. right. split; [apply lookup_delete_eq|done].
    + destruct (i_seen _ _ Hi m Hm) as (x & lx & H1 & H2 & H3 & H4). exists x, lx. split; [done|]. split; [done|].
      split; [done|]. cbn. by rewrite lookup_delete_ne.
  - intros m i Ht. destruct (i_terminal _ _ Hi m i Ht) as (H1 & H2 & H3). split; [done|]. split; [|done].
    intros x [_ Hx]%lookup_delete_Some. by apply H2.
  - intros m Hm Hdm. apply (i_done _ _ Hi m Hm). intros x Hx. destruct (decide (m = n)) as [->|]; [congruence|].
    apply Hdm. by rewrite lookup_delete_ne.
Qed.

Lemma builder_empty c t : builder_ok {| size := c; template := t; streams := ∅ |}.
Proof. intros n bs. cbn. by rewrite lookup_empty. Qed.

Lemma inv_send y tr now : sys_inv y tr ->
  sys_inv (B := B) {| y_b := y_b y; y_g := {| bb := new_builder (y_b y) now; counter := counter (y_g y) |};
            y_sent := send (y_g y) (y_sent y); seen := seen y; active := None |} tr.
Proof.
  intros Hi. set (y' := {| y_b := _; y_sent := _ |}).
  assert (Hsend : send (y_g y) (y_sent y) = y_sent y /\ streams (bb (y_g y)) = ∅ \/
    send (y_g y) (y_sent y) = y_sent y ++ [bundle (bb (y_g y))]).
  { unfold send, hasContent. case_bool_decide as Hc; [by right|left]. split; [done|]. by destruct (decide (streams (bb (y_g y)) = ∅)). }
  assert (Hlogs : forall n, delivered y' n = delivered y n).
  { intros n. unfold delivered. cbn [y' y_g y_sent bb new_builder]. unfold builder_logs at 1. cbn [streams new_builder].
    rewrite lookup_empty, app_nil_r. destruct Hsend as [[-> He]| ->].
    - unfold builder_logs. by rewrite He, lookup_empty, app_nil_r.
    - rewrite map_app, concat_app. cbn [map concat]. rewrite app_nil_r, bundle_logs_builder; [done|apply (i_builder _ _ Hi)]. }
  assert (Hterm : forall n i, has_terminal y' n i <-> has_terminal y n i).
  { intros n i. unfold has_terminal. cbn [y' y_g y_sent bb new_builder]. unfold builder_terminal at 1. cbn [streams new_builder].
    rewrite lookup_empty. cbn. destruct Hsend as [[-> He]| ->].
    - unfold builder_terminal. rewrite He, lookup_empty. naive_solver.
    - rewrite <-(bundle_terminal_builder _ _ _ (i_builder _ _ Hi)). setoid_rewrite elem_of_app.
      setoid_rewrite list_elem_of_singleton. naive_solver. }
  split; try apply Hi.
  - apply builder_empty.
  - intros n. rewrite Hlogs. apply (i_delivered _ _ Hi).
  - intros n i Ht%Hterm. by apply (i_terminal _ _ Hi).
  - intros n Hn Hd e He. apply Hterm. by apply (i_done _ _ Hi).
Qed.

Lemma inv_register y tr d y' : sys_inv y tr -> AddStream y d = Some (Ok y') -> sys_inv (B := B) y' tr.
Proof.
  intros Hi. unfold AddStream. case_decide as Hn; [done|]. unfold Register.
  destruct (Descriptor_Validate d false); [done|].
  destruct (newParser _ _) as [p|] eqn:Ep; [|done]. cbn [clear_prefix Name].
  destruct (bstreams (y_b y) !! Name d) eqn:Eb; [done|]. cbn. intros [= <-].
  set (s := newStream _ p). destruct (i_unseen _ _ Hi _ Hn) as (_ & Hem & Hap).
  split; cbn [y_b y_g y_sent seen put set_bstreams bstreams]; try apply Hi.
  - intros n Hnn. apply not_elem_of_union in Hnn as [Hne%not_elem_of_singleton Hnn]. rewrite lookup_insert_ne by congruence.
    by apply (i_unseen _ _ Hi).
  - intros n [->%elem_of_singleton|Hs]%elem_of_union.
    + exists s, []. split; [done|]. rewrite Hem, Hap. split; [by eapply newStream_ok|]. split; [done|]. left. apply lookup_insert_eq.
    + assert (n <> Name d) by congruence. destruct (i_seen _ _ Hi n Hs) as (x & lx & H1 & H2 & H3 & H4). exists x, lx.
      split; [done|]. split; [done|]. split; [done|]. cbn. by rewrite lookup_insert_ne.
  - intros n i Ht. destruct (i_terminal _ _ Hi n i Ht) as (H1 & H2 & H3). split; [set_solver|]. split; [|done].
    intros x. rewrite lookup_insert_ne by congruence. apply H2.
  - intros n Hs Hdn. apply elem_of_union in Hs as [->%elem_of_singleton|Hs]; [by rewrite Hem|].
    apply (i_done _ _ Hi n Hs). intros x Hx. apply Hdn. rewrite lookup_insert_ne; [done|]. congruence.
Qed.
End Steps.

Section Reach.
Context {B : Type} `{CL : ChunkBufferLaws B} `{PS : ProtoSize}.

Lemma initial_inv c now : sys_inv (B := B) (initial c now) [].
Proof.
  split; cbn [initial y_b y_g y_sent seen bb counter bstreams]; try done.
  intros n i [Ht|(bu & Hbu & _)]; [|by apply not_elem_of_nil in Hbu]. unfold builder_terminal in Ht. cbn in Ht.
    by rewrite lookup_empty in Ht.
Qed.

Lemma inv_active y tr a : sys_inv (B := B) y tr -> sys_inv (y_set_active y a) tr.
Proof. intros [H1 H2 H3 H4 H5 H6 H7 H8]. by split. Qed.

Lemma y_put_extracted (y : System (B := B)) n s : y_put y n s = y_extracted y n s (y_g y) (active y).
Proof. done. Qed.

Lemma inv_put_tau y tr n s s' l' a : sys_inv y tr -> bstreams (y_b y) !! n = Some s -> stream_name s' = n ->
  stream_ok s' l' (emitted n tr) (appended n tr) -> drained s' = drained s -> (waiting s' <> Idle -> open_for_user s') ->
  sys_inv (B := B) (y_extracted y n s' (y_g y) a) (tr ++ [LTau]).
Proof. intros. eapply inv_put; eauto. by rewrite appended_tau. Qed.

Lemma inv_step y tr lab y' : sys_inv y tr -> sys_step (B := B) y lab y' -> sys_inv y' (tr ++ [lab]).
Proof.
  intros Hi Hst. inversion Hst as [? d ? Ha Hadd|? n s d r s' Hs Hw Hop Ha|? n s d r s' Hs Hw Ha|? n s r s' Hs Ha
    |? n s Hs Hw Hact|? Ha|? n s a Ha Hs|? n a m s e g s' Ha Hs He Hr Hx|? n a m s g s' Ha Hs He Hr Hx
    |? n a m s er g s' Ha Hs He Hr Hx|? n a m s g s' Ha Hs Hf|? n s Ha Hs Hd|? now Ha]; subst.
  - eapply inv_tau; [|done]. intros _. by eapply inv_register.
  - destruct (inv_lookup _ _ _ _ Hi Hs) as (_ & Hname & _ & l & Hok).
    pose proof (Append_check_spec s d l _ _ Hok) as H. rewrite Ha in H. rewrite y_put_extracted.
    destruct r as [|[e|]|]; [| | |done]; destruct H as (_ & H); [destruct H as [-> _]|subst s'|destruct H as [-> _]];
      (eapply inv_put_tau; [done|done|done|by apply waiting_ok|done|by intros _]).
  - destruct (inv_lookup _ _ _ _ Hi Hs) as (_ & Hname & Hopen & l & Hok). rewrite Hw in Hopen.
    pose proof (Append_attempt_spec s d l _ _ Hok (Hopen ltac:(done))) as H. rewrite Ha in H. rewrite y_put_extracted.
    destruct r as [|[e|]|]; [done|done| |].
    + destruct H as (Hw' & (Hsc & Hdr & _) & _ & Hok' & _). eapply inv_put; [done|done|by right; eexists| | |done|by rewrite Hw'].
      * rewrite <-Hname. by apply stream_name_shell.
      * by rewrite appended_snoc, decide_True by done.
    + destruct H as [-> _]. eapply inv_put_tau; [done|done|done|by apply waiting_ok|done|]. intros _. by apply Hopen.
  - destruct (inv_lookup _ _ _ _ Hi Hs) as (_ & Hname & Hopen & l & Hok). unfold Append_wake in Ha.
    destruct (waiting s) as [| |d] eqn:Hw; [done|done|]. destruct (signal s); [|done]. injection Ha as Ha.
    pose proof (Append_check_spec (set_signal s false) d l _ _ (signal_ok _ _ _ _ _ Hok)) as H. rewrite Ha in H.
    rewrite y_put_extracted.
    assert (Hgo : s' = set_waiting (set_signal s false) Idle \/ s' = set_waiting (set_signal s false) (Checked d)).
    { destruct r as [|[e|]|]; [right|left|left|done]; by destruct H as (_ & H & _) || destruct H as (_ & H). }
    destruct Hgo as [->| ->]; (eapply inv_put_tau; [done|done|done|by apply waiting_ok, signal_ok|done|]); [done|].
    intros _. by apply Hopen.
  - destruct (inv_lookup _ _ _ _ Hi Hs) as (_ & Hname & Hopen & l & Hok). rewrite y_put_extracted.
    eapply inv_put_tau; [done|done|done|by apply Close_ok|done|]. cbn. by rewrite Hw.
  - eapply inv_tau; [|done]. intros [H1 H2 H3 H4 H5 H6 H7 H8]. by split.
  - eapply inv_tau; [|done]. apply inv_active.
  - by eapply inv_emit.
  - destruct (inv_lookup _ _ _ _ Hi Hs) as (_ & Hname & Hopen & l & Hok).
    pose proof (extract_spec (sclosed s) a (y_g y) s l _ _ Hok Hr) as H. rewrite Hx in H. destruct H as (-> & Hsh & j & Hok').
    eapply inv_put_tau; [done|done| |done|apply Hsh|].
    + rewrite <-Hname. apply stream_name_shell, Hsh.
    + rewrite (sh_waiting _ _ Hsh). unfold open_for_user. rewrite (sh_closed _ _ Hsh), (sh_err _ _ Hsh). exact Hopen.
  - destruct (inv_lookup _ _ _ _ Hi Hs) as (_ & Hname & Hopen & l & Hok).
    pose proof (extract_spec (sclosed s) a (y_g y) s l _ _ Hok Hr) as H. rewrite Hx in H. destruct H as (-> & Hlg & -> & ->).
    eapply inv_put_tau; [done|done|done|apply setAppendError_ok; [by destruct (sparser s)|done]|done|]. intros _ _. done.
  - eapply inv_tau; [|done]. intros _. eapply inv_end; [done|done| |done]. destruct m; [by right|by left].
  - eapply inv_tau; [|done]. intros _. by eapply inv_unregister.
  - eapply inv_tau; [|done]. intros _. by apply inv_send.
Qed.

Lemma inv_reach c now tr y : sys_steps (initial c now) tr y -> sys_inv (B := B) y tr.
Proof.
  intros H. remember (initial c now) as y0 eqn:E. induction H as [y|y1 l y2 tr y3 _ IH Hs].
  - subst. apply initial_inv.
  - eapply inv_step; [by apply IH|done].
Qed.
End Reach.
