(* ===== verification/BundlerTheorems.v ===== *)
(** What the Bundler guarantees: the bundles reproduce what was written to each
    stream, entries are numbered, terminal indices are final, the loop's code
    runs the transition system, and a blocked writer is woken. *)
From stdpp Require Import fin_maps.
From S2P Require Import Prelude Varint RecordIO LogEntry TimedBuffer Parsers.
From S2P Require Import ParserSpec LogStream LogStreamSpec GoHeap LogBundler BundlerSystem BundlerInv.
Local Open Scope Z_scope.

(** * Reading the logs *)

(** The number of newlines of a text. *)
Fixpoint newlines (l : bytes) : Z :=
  match l with [] => 0 | x :: l => (if x =? 10 then 1 else 0) + newlines l end.

Lemma newlines_app a b : newlines (a ++ b) = newlines a + newlines b.
Proof. induction a as [|x a IH]; cbn; [done|]. rewrite IH. lia. Qed.

Lemma newlines_none l : 10 ∉ l -> newlines l = 0.
Proof.
  induction l as [|x l IH]; [done|]. intros [Hx Hl]%not_elem_of_cons. cbn. rewrite IH by done.
  by rewrite (proj2 (Z.eqb_neq x 10)) by congruence.
Qed.

Lemma newlines_line ln : line_ok ln -> newlines (line_raw ln) = if complete ln then 1 else 0.
Proof.
  intros [Hn H]. unfold line_raw. rewrite newlines_app, newlines_none by done. unfold complete.
  destruct H as [[-> _]|[->|[-> _]]]; done.
Qed.

Lemma newlines_lines lns : Forall line_ok lns -> newlines (lines_raw lns) = lines_complete lns.
Proof.
  induction 1 as [|ln lns Hl _ IH]; [done|]. unfold lines_raw in *. cbn [map concat].
  rewrite newlines_app, IH, newlines_line by done. unfold lines_complete. rewrite filter_cons.
  destruct (complete ln); [rewrite decide_True by done; cbn [length]; lia|]. rewrite decide_False by done. lia.
Qed.

Lemma text_log_lines es : text_log es -> total_lines es = newlines (log_raw es).
Proof.
  induction 1 as [|es e lns H IH Hne Hok Hc Hsq]; [done|].
  rewrite total_lines_snoc, log_raw_snoc, newlines_app, IH. unfold entry_lines, entry_raw. rewrite Hc.
  by rewrite newlines_lines.
Qed.

(** Every entry of a text log has lines and says how many newlines precede it. *)
Lemma text_log_entry es i e : text_log es -> es !! i = Some e ->
  exists lns, Content e = Text lns /\ lns <> [] /\ Forall line_ok lns /\
    Sequence e = u64 (newlines (log_raw (take i es))).
Proof.
  intros H. revert i e. induction H as [|es e lns H IH Hne Hok Hc Hsq]; intros i x; [done|].
  intros [Hx|[Hge Hx]]%lookup_app_Some.
  - rewrite take_app_le; [by apply IH|]. apply lookup_lt_Some in Hx. lia.
  - destruct (i - length es)%nat eqn:E; [|done]. injection Hx as <-. exists lns.
    rewrite take_app_length' by lia. split; [done|]. split; [done|]. split; [done|]. by rewrite Hsq, text_log_lines.
Qed.

Lemma binary_log_entry es i e : binary_log es -> es !! i = Some e ->
  exists d, d <> [] /\ Content e = Binary (u64 (blen (log_raw (take i es)))) d /\
    Sequence e = u64 (blen (log_raw (take i es))).
Proof.
  intros H. revert i e. induction H as [|es e d H IH Hne Hc Hsq]; intros i x; [done|].
  intros [Hx|[Hge Hx]]%lookup_app_Some.
  - rewrite take_app_le; [by apply IH|]. apply lookup_lt_Some in Hx. lia.
  - destruct (i - length es)%nat eqn:E; [|done]. injection Hx as <-. exists d.
    rewrite take_app_length' by lia. done.
Qed.

(** What a reader of the entries does: fragments are collected until the last
    one of their datagram. *)
Fixpoint reassemble (es : list LogEntry) (acc : bytes) : list bytes * bytes :=
  match es with
  | [] => ([], acc)
  | e :: es =>
      match Content e with
      | Datagram d (Some p) =>
          if Last p then let '(dgs, rest) := reassemble es [] in ((acc ++ d) :: dgs, rest)
          else reassemble es (acc ++ d)
      | Datagram d None => let '(dgs, rest) := reassemble es [] in ((acc ++ d) :: dgs, rest)
      | _ => reassemble es acc
      end
  end.

Lemma reassemble_snoc es acc dgs rest e d p : reassemble es acc = (dgs, rest) -> Content e = Datagram d p ->
  reassemble (es ++ [e]) acc =
  if match p with Some p => Last p | None => true end then (dgs ++ [rest ++ d], []) else (dgs, rest ++ d).
Proof.
  intros H Hc. revert acc dgs rest H. induction es as [|x es IH]; intros acc dgs rest; cbn [reassemble app].
  { intros [= <- <-]. rewrite Hc. destruct p as [p|]; [destruct (Last p)|]; done. }
  assert (Hfin : forall dgs0 rest0, reassemble es [] = (dgs0, rest0) ->
    reassemble (es ++ [e]) [] = if match p with Some p => Last p | None => true end then (dgs0 ++ [rest0 ++ d], []) else (dgs0, rest0 ++ d))
    by (intros; by apply IH).
  destruct (Content x) as [lns|o dd|dd pp]; [by apply IH..|].
  destruct pp as [pp|]; [destruct (Last pp); [|by apply IH]|];
    (destruct (reassemble es []) as [dgs0 rest0]; intros [= <- <-]; rewrite (Hfin _ _ eq_refl);
     destruct p as [p|]; [destruct (Last p)|]; done).
Qed.

Lemma datagram_log_reassemble es A dgs st : datagram_log es A dgs st ->
  reassemble es [] = (dgs, match st with Some (acc, _, _) => acc | None => [] end).
Proof.
  induction 1 as [|es A dgs h n H IH Hh Hn|es A dgs acc n i d e H IH Hd Hl Hc Hsq|es A dgs acc n i d e H IH Hl Hc Hsq];
    [done|done|by rewrite (reassemble_snoc _ _ _ _ _ _ _ IH Hc)|].
  rewrite (reassemble_snoc _ _ _ _ _ _ _ IH Hc). by destruct (i =? 0).
Qed.

(** The bytes of a datagram log are framed as a recordio stream is: against a
    sequence of frames, the datagrams read are the first of them. *)
Lemma header_is_put h n rest x more : header h n -> in_u64 x -> h ++ rest = PutUvarint x ++ more -> n = x /\ rest = more.
Proof.
  intros Hh Hx E. pose proof (Read_Put x more Hx) as Hr. rewrite <-E in Hr.
  destruct (read_loop_suffix _ _ _ _ _ _ Hh) as (h' & Eh & _ & Hm). rewrite app_nil_r in Eh. subst h'.
  specialize (Hm rest). unfold ReadUvarint in Hr. rewrite Hm in Hr. by injection Hr.
Qed.

Lemma datagram_log_frames es C dgs st rest fs :
  datagram_log es C dgs st -> Forall small fs -> C ++ rest = concat (map frame_bytes fs) ->
  exists gs, fs = dgs ++ gs /\
    match st with
    | None => rest = concat (map frame_bytes gs)
    | Some (acc, n, _) => exists g gs', gs = g :: gs' /\ n = blen g /\ exists tl, g = acc ++ tl /\ rest = tl ++ concat (map frame_bytes gs')
    end.
Proof.
  intros H Hf. revert rest.
  induction H as [|es A dgs h n H IH Hh Hn|es A dgs acc n i d e H IH Hd Hl Hc Hsq|es A dgs acc n i d e H IH Hl Hc Hsq]; intros rest E.
  - exists fs. done.
  - rewrite <-app_assoc in E. destruct (IH _ E) as (gs & -> & Hg). exists gs. split; [done|].
    apply Forall_app in Hf as [_ Hf]. destruct gs as [|g gs].
    { cbn in Hg. destruct h as [|b h]; [|done]. unfold header, ReadUvarint in Hh. done. }
    apply Forall_cons in Hf as [Hsm _]. cbn [map concat] in Hg. unfold frame_bytes at 1 in Hg. rewrite <-app_assoc in Hg.
    destruct (header_is_put _ _ _ _ _ Hh (small_u64 _ Hsm) Hg) as [-> ->].
    exists g, gs. split; [done|]. split; [done|]. exists g. done.
  - rewrite <-app_assoc in E. destruct (IH _ E) as (gs & -> & g & gs' & -> & Hn & tl & Hg & Hrest).
    exists (g :: gs'). split; [done|]. exists g, gs'. split; [done|]. split; [done|].
    assert (Hpre : exists tl', tl = d ++ tl' /\ rest = tl' ++ concat (map frame_bytes gs')).
    { apply app_eq_inv in Hrest as [(k & -> & Hk)|(k & -> & Hk)]; [|by exists k].
      assert (k = []) as -> by (apply length_zero_iff_nil; subst g n; unfold blen in *; rewrite !length_app in *; lia).
      exists []. by rewrite !app_nil_r. }
    destruct Hpre as (tl' & -> & ->). exists tl'. by rewrite Hg, app_assoc.
  - rewrite <-app_assoc in E. destruct (IH _ E) as (gs & -> & g & gs' & -> & Hn & tl & Hg & Hrest).
    assert (Htl : tl = d /\ rest = concat (map frame_bytes gs')).
    { apply app_inj_1 in Hrest as [<- <-]; [done|]. subst g n. unfold blen in *. rewrite !length_app in *. lia. }
    destruct Htl as [-> ->]. exists gs'. subst g. by rewrite <-app_assoc.
Qed.

(** What an entry adds to the sequence of its stream: the lines it ends, its
    bytes, or the datagram it completes. *)
Definition entry_units (e : LogEntry) : Z :=
  match Content e with
  | Text lns => newlines (lines_raw lns)
  | Binary _ d => blen d
  | Datagram _ (Some p) => if Last p then 1 else 0
  | Datagram _ None => 1
  end.
Fixpoint units (es : list LogEntry) : Z := match es with [] => 0 | e :: es => entry_units e + units es end.

Lemma units_snoc es e : units (es ++ [e]) = units es + entry_units e.
Proof. induction es as [|x es IH]; cbn; lia. Qed.

Lemma text_log_units es : text_log es -> units es = total_lines es.
Proof.
  induction 1 as [|es e lns H IH Hne Hok Hc Hsq]; [done|].
  rewrite units_snoc, total_lines_snoc, IH. unfold entry_units, entry_lines. by rewrite Hc, newlines_lines.
Qed.

Lemma binary_log_units es : binary_log es -> units es = blen (log_raw es).
Proof.
  induction 1 as [|es e d H IH Hne Hc Hsq]; [done|].
  rewrite units_snoc, log_raw_snoc, IH. unfold entry_units, entry_raw, blen. rewrite Hc, length_app. lia.
Qed.

Lemma datagram_log_units es A dgs st : datagram_log es A dgs st -> units es = Z.of_nat (length dgs).
Proof.
  induction 1 as [|es A dgs h n H IH Hh Hn|es A dgs acc n i d e H IH Hd Hl Hc Hsq|es A dgs acc n i d e H IH Hl Hc Hsq];
    [done|done| |]; rewrite units_snoc, IH; unfold entry_units; rewrite Hc; [cbn; lia|].
  rewrite length_app. destruct (i =? 0); cbn; lia.
Qed.

(** The sequence of every entry counts what those before it add. *)
Definition sequence_counts (es : list LogEntry) : Prop :=
  forall i e, es !! i = Some e -> Sequence e = u64 (units (take i es)).

Lemma sequence_counts_snoc es e : sequence_counts es -> Sequence e = u64 (units es) -> sequence_counts (es ++ [e]).
Proof.
  intros H Hs i x [Hx|[Hge Hx]]%lookup_app_Some.
  - rewrite take_app_le; [by apply H|]. apply lookup_lt_Some in Hx. lia.
  - destruct (i - length es)%nat eqn:E; [|done]. injection Hx as <-. by rewrite take_app_length' by lia.
Qed.

Lemma datagram_log_sequence es A dgs st : datagram_log es A dgs st -> sequence_counts es.
Proof.
  induction 1 as [|es A dgs h n H IH Hh Hn|es A dgs acc n i d e H IH Hd Hl Hc Hsq|es A dgs acc n i d e H IH Hl Hc Hsq];
    [by intros i e|done| |]; (apply sequence_counts_snoc; [done|]); by rewrite (datagram_log_units _ _ _ _ H).
Qed.

Lemma text_log_sequence es : text_log es -> sequence_counts es.
Proof.
  induction 1 as [|es e lns H IH Hne Hok Hc Hsq]; [by intros i e|]. apply sequence_counts_snoc; [done|]. by rewrite text_log_units.
Qed.

Lemma binary_log_sequence es : binary_log es -> sequence_counts es.
Proof.
  induction 1 as [|es e d H IH Hne Hc Hsq]; [by intros i e|]. apply sequence_counts_snoc; [done|]. by rewrite binary_log_units.
Qed.

(** * Runs

    The steps of the system as a function of what to do next. *)
Inductive action :=
| ARegister (d : LogStreamDescriptor) | AAppend (n : bytes) (d : streamData) | AAttempt (n : bytes) | AWake (n : bytes)
| AClose (n : bytes) | AFlush | ABegin (n : bytes) (a : bool) | AExtract | AEnd | AUnregister (n : bytes) | ASend (now : time).

Section Runs.
Context {B : Type} `{CB : ChunkBuffer B} `{PS : ProtoSize}.

Definition idle (y : System (B := B)) : bool := match active y with None => true | Some _ => false end.
Definition is_idle (s : streamImpl (B := B)) : bool := match waiting s with Idle => true | _ => false end.

Definition exec (y : System) (a : action) : option (label * System) :=
  match a with
  | ARegister d =>
      if idle y then match AddStream y d with Some (Ok y') => Some (LTau, y') | _ => None end else None
  | AAppend n d =>
      s ← bstreams (y_b y) !! n;
      if is_idle s && (negb (sclosed s) || match appendErr s with Some _ => true | None => false end)
      then Some (LTau, y_put y n (Append_check s d).2) else None
  | AAttempt n =>
      s ← bstreams (y_b y) !! n;
      match waiting s with
      | Checked d => let '(r, s') := Append_attempt s d in
          Some (match r with Done None => LAppend n (buffer d) | _ => LTau end, y_put y n s')
      | _ => None
      end
  | AWake n => s ← bstreams (y_b y) !! n; '(r, s') ← Append_wake s; Some (LTau, y_put y n s')
  | AClose n =>
      s ← bstreams (y_b y) !! n;
      if is_idle s && match active y with Some (m, _, _) => negb (bool_decide (m = n)) | None => true end
      then Some (LTau, y_put y n (Close s)) else None
  | AFlush => if idle y then Some (LTau, y_set_b y (startFlushing (y_b y))) else None
  | ABegin n a => s ← bstreams (y_b y) !! n; if idle y then Some (LTau, y_set_active y (Some (n, a, false))) else None
  | AExtract =>
      '(n, a, m) ← active y; s ← bstreams (y_b y) !! n;
      match appendErr s with
      | Some _ => None
      | None =>
          if 0 <? builder_remaining (bb (y_g y)) then
            match extract (sclosed s) a (y_g y) s with
            | Ret (Emitted e, g, s') => Some (LEmit n e, y_extracted y n s' g (Some (n, a, true)))
            | Ret (Nothing, g, s') => Some (LTau, y_extracted y n s' g (Some (n, a, m)))
            | Ret (Failed er, g, s') => Some (LTau, y_extracted y n (setAppendErrorLocked s' er) g (Some (n, a, m)))
            | Panic => None
            end
          else None
      end
  | AEnd =>
      '(n, a, m) ← active y; s ← bstreams (y_b y) !! n;
      match finish (y_g y) (if m : bool then signalDataConsumed s else s) with
      | Ret (g, s') => Some (LTau, y_extracted y n s' g None)
      | Panic => None
      end
  | AUnregister n =>
      s ← bstreams (y_b y) !! n;
      if idle y && drained s then Some (LTau, y_set_b y (unregisterStreamLocked (y_b y) n)) else None
  | ASend now =>
      if idle y then Some (LTau, {| y_b := y_b y; y_g := {| bb := new_builder (y_b y) now; counter := counter (y_g y) |};
                                    y_sent := send (y_g y) (y_sent y); seen := seen y; active := None |}) else None
  end.

Fixpoint exec_all (y : System) (acts : list action) : option (list label * System) :=
  match acts with
  | [] => Some ([], y)
  | a :: acts => '(l, y) ← exec y a; '(tr, y) ← exec_all y acts; Some (l :: tr, y)
  end.

Lemma exec_sound y a l y' : exec y a = Some (l, y') -> sys_step y l y'.
Proof.
  assert (Hid : idle y = true -> active y = None) by (unfold idle; by destruct (active y)).
  assert (Hw : forall s, is_idle s = true -> waiting s = Idle) by (intros s; unfold is_idle; by destruct (waiting s)).
  destruct a as [d|n d|n|n|n| |n a| | |n|now]; cbn [exec].
  - destruct (idle y); [|done]. destruct (AddStream y d) as [[y1|]|] eqn:E; [|done..]. intros [= <- <-]. eapply sy_register; eauto.
  - destruct (bstreams (y_b y) !! n) as [s|] eqn:Es; cbn [mbind option_bind]; [|done]. destruct (_ && _) eqn:Eg; [|done].
    apply andb_true_iff in Eg as [Ei Eo]. intros [= <- <-]. destruct (Append_check s d) as [r s'] eqn:Ea.
    eapply sy_append; eauto. intros Hc. rewrite Hc in Eo. by destruct (appendErr s).
  - destruct (bstreams (y_b y) !! n) as [s|] eqn:Es; cbn [mbind option_bind]; [|done].
    destruct (waiting s) as [|d|d] eqn:Ew; [done| |done]. destruct (Append_attempt s d) as [r s'] eqn:Ea.
    intros [= <- <-]. eapply sy_attempt; eauto.
  - destruct (bstreams (y_b y) !! n) as [s|] eqn:Es; cbn [mbind option_bind]; [|done].
    destruct (Append_wake s) as [[r s']|] eqn:Ea; cbn; [|done]. intros [= <- <-]. eapply sy_wake; eauto.
  - destruct (bstreams (y_b y) !! n) as [s|] eqn:Es; cbn [mbind option_bind]; [|done]. destruct (_ && _) eqn:Eg; [|done].
    apply andb_true_iff in Eg as [Ei Ea]. intros [= <- <-]. eapply sy_close; eauto. intros a m Hact. rewrite Hact in Ea.
    by rewrite bool_decide_true in Ea.
  - destruct (idle y); [|done]. intros [= <- <-]. apply sy_flush; auto.
  - destruct (bstreams (y_b y) !! n) as [s|] eqn:Es; cbn [mbind option_bind]; [|done]. destruct (idle y); [|done].
    intros [= <- <-]. eapply sy_begin; eauto.
  - destruct (active y) as [[[n a] m]|] eqn:Ea; cbn [mbind option_bind]; [|done].
    destruct (bstreams (y_b y) !! n) as [s|] eqn:Es; cbn [mbind option_bind]; [|done].
    destruct (appendErr s) eqn:Ee; [done|]. destruct (Z.ltb_spec 0 (builder_remaining (bb (y_g y)))); [|done].
    destruct (extract _ _ _ _) as [[[[|e|er] g] s']|] eqn:Ex; [| | |done]; intros [= <- <-].
    + eapply sy_nothing; eauto.
    + eapply sy_emit; eauto.
    + eapply sy_failed; eauto.
  - destruct (active y) as [[[n a] m]|] eqn:Ea; cbn [mbind option_bind]; [|done].
    destruct (bstreams (y_b y) !! n) as [s|] eqn:Es; cbn [mbind option_bind]; [|done].
    destruct (finish _ _) as [[g s']|] eqn:Ef; [|done]. intros [= <- <-]. eapply sy_end; eauto.
  - destruct (bstreams (y_b y) !! n) as [s|] eqn:Es; cbn [mbind option_bind]; [|done]. destruct (_ && _) eqn:Eg; [|done].
    apply andb_true_iff in Eg as [Ei Ed]. intros [= <- <-]. eapply sy_unregister; eauto.
  - destruct (idle y); [|done]. intros [= <- <-]. apply sy_send; auto.
Qed.

Lemma exec_all_sound y acts tr y' : exec_all y acts = Some (tr, y') -> sys_steps y tr y'.
Proof.
  revert y tr. induction acts as [|a acts IH]; intros y tr; cbn [exec_all].
  { intros [= <- <-]. constructor. }
  destruct (exec y a) as [[l y1]|] eqn:E; cbn [mbind option_bind]; [|done].
  destruct (exec_all y1 acts) as [[tr1 y2]|] eqn:E1; cbn [mbind option_bind]; [|done]. intros [= <- <-].
  apply (sys_steps_trans y [l] y1 tr1 y2); [|by apply IH]. apply sys_one. by eapply exec_sound.
Qed.
End Runs.

(** * Messages measured by what they carry *)
#[export] Instance example_sizes : ProtoSize := {
  protoSize_log e := 4 + blen (entry_raw e);
  protoSize_entry e := 2 + blen (Name (Desc e));
  protoSize_bundle b := 8 + blen (bundle_Prefix b)
}.

Definition example_config : Config :=
  {| cfg_Project := [112]; cfg_Prefix := [112]; MaxBufferedBytes := 16; MaxBundleSize := 200; MaxBufferDelay := 5 |}.
Definition example_desc (n : bytes) (t : StreamType) : LogStreamDescriptor :=
  {| Prefix := []; Name := n; StreamType_ := t; ContentType := [116]; Timestamp := Some 100; Tags := [] |}.

(** A text stream [97] and a datagram stream [98]: data is appended, extracted,
    sent, and the text stream is closed, drained and unregistered. *)
Definition example_run : list action :=
  [ARegister (example_desc [97] TEXT); ARegister (example_desc [98] DATAGRAM);
   AAppend [97] {| buffer := [65; 66; 13; 10; 67]; ts := 101 |}; AAttempt [97];
   AAppend [98] {| buffer := [3; 1; 2]; ts := 102 |}; AAttempt [98];
   ABegin [97] false; AExtract; AExtract; AEnd;
   ABegin [98] true; AExtract; AExtract; AEnd;
   ASend 103;
   AAppend [98] {| buffer := [9; 0]; ts := 104 |}; AAttempt [98];
   AClose [97]; AFlush;
   ABegin [97] true; AExtract; AEnd;
   ABegin [98] true; AExtract; AExtract; AExtract; AEnd;
   AUnregister [97]; ASend 106].
Definition example_result : list label * System (B := chunk_buffer) :=
  default ([], initial example_config 100) (exec_all (initial example_config 100) example_run).

Example example_bundles : map (fun b => map (fun e => (Name (Desc e), map Content (Logs e), Terminal e, TerminalIndex e)) (Entries b))
    (y_sent example_result.2) =
  [ [([97], [Text [{| Value := [65; 66]; Delimiter := [13; 10] |}]], false, 0);
     ([98], [Datagram [1; 2] (Some {| LogEntry.Index := 0; Size := 3; Last := false |})], false, 0)];
    [([97], [Text [{| Value := [67]; Delimiter := [] |}]], true, 1);
     ([98], [Datagram [9] (Some {| LogEntry.Index := 1; Size := 3; Last := true |}); Datagram [] None], false, 0)] ].
Proof. vm_compute. reflexivity. Qed.

Lemma example_reached : sys_steps (initial example_config 100) example_result.1 example_result.2.
Proof. apply (exec_all_sound _ example_run). vm_compute. reflexivity. Qed.

(** * The theorems *)
Section Theorems.
Context {B : Type} `{CL : ChunkBufferLaws B} `{PS : ProtoSize}.

(** The state of the stream of that name, its last one when it is gone. *)
Definition current (y : System (B := B)) (n : bytes) (s : streamImpl) : Prop :=
  bstreams (y_b y) !! n = Some s \/ bstreams (y_b y) !! n = None /\ drained s = true.

(** What the entries [es] of a stream must be when the bytes [A] were written to
    it, of which [l] are still buffered. *)
Definition reproduces (p : parser (B := B)) (l : timed) (es : list LogEntry) (A : bytes) : Prop :=
  match p with
  | TextP _ => log_raw es ++ unstamp l = A /\
      forall i e, es !! i = Some e -> exists lns, Content e = Text lns /\ lns <> [] /\ Forall line_ok lns /\
        Sequence e = u64 (newlines (log_raw (take i es)))
  | BinaryP _ => log_raw es ++ unstamp l = A /\
      forall i e, es !! i = Some e -> exists d, d <> [] /\ Content e = Binary (u64 (blen (log_raw (take i es)))) d /\
        Sequence e = u64 (blen (log_raw (take i es)))
  | DatagramP _ => forall fs more, Forall small fs -> A ++ more = concat (map frame_bytes fs) ->
      let '(dgs, part) := reassemble es [] in
      exists gs, fs = dgs ++ gs /\
        (part = [] /\ unstamp l ++ more = concat (map frame_bytes gs) \/
         exists tl gs', gs = (part ++ tl) :: gs' /\ tl <> [] /\ unstamp l ++ more = tl ++ concat (map frame_bytes gs'))
  end.

Lemma frame_bytes_nonempty f : frame_bytes f <> [].
Proof. unfold frame_bytes. pose proof (PutUvarint_nonempty (Z.of_nat (length f))). by destruct (PutUvarint _). Qed.

Lemma parser_log_reproduces p l es A : parser_log p l es A -> reproduces p l es A.
Proof.
  intros (_ & _ & _ & H). destruct p as [p|p|p]; cbn [reproduces].
  - destruct H as (Hlog & _ & ->). split; [done|]. intros i e. by apply text_log_entry.
  - destruct H as (Hlog & _ & _ & ->). split; [done|]. intros i e. by apply binary_log_entry.
  - destruct H as (dgs & _ & _ & _ & C & st & Hlog & -> & Hst). intros fs more Hsm E. rewrite <-app_assoc in E.
    rewrite (datagram_log_reassemble _ _ _ _ Hlog).
    destruct (datagram_log_frames _ _ _ _ _ _ Hlog Hsm E) as (gs & -> & Hg). exists gs. split; [done|].
    destruct st as [[[acc n] i]|]; [|by left]. right.
    destruct Hg as (g & gs' & -> & -> & tl & Hgg & Hr). exists tl, gs'. subst g. split; [done|]. split; [|done].
    intros ->. destruct Hst as (Hpos & Hrem & _). rewrite app_nil_r in Hrem. lia.
Qed.

Lemma parser_log_sequence p l es A : parser_log (B := B) p l es A -> sequence_counts es.
Proof.
  intros (_ & _ & _ & H). destruct p as [p|p|p].
  - by apply text_log_sequence, H.
  - by apply binary_log_sequence, H.
  - destruct H as (dgs & _ & _ & _ & C & st & Hlog & _). by eapply datagram_log_sequence.
Qed.

(** C24. Whatever the order in which streams are written, closed, extracted and
    sent, the entries of a stream in the bundles (sent or in the making) are what
    was written to it, less what is still buffered: the text or binary data
    itself, with the line number or offset of each entry, and for a datagram
    stream that is a sequence of frames, those frames in order, the last one
    perhaps in part: what is still buffered is the rest of it, and the frames that
    follow.  Nothing is buffered for a stream that is gone unless it
    failed. *)
Theorem bundles_reproduce_streams c now tr y n :
  sys_steps (initial c now) tr y -> n ∈ seen y ->
  exists s l, current y n s /\ stream_name s = n /\ holds (buf (parser_base (sparser s))) l /\
    reproduces (sparser s) l (delivered y n) (appended n tr) /\
    (drained s = true -> appendErr s = None -> l = []).
Proof.
  intros Hrun Hn. pose proof (inv_reach _ _ _ _ Hrun) as Hi.
  destruct (i_seen _ _ Hi n Hn) as (s & l & Hname & Hok & _ & Hcur). exists s, l.
  split; [done|]. split; [done|]. split; [apply (so_log _ _ _ _ Hok)|]. rewrite <-(i_delivered _ _ Hi).
  split; [apply parser_log_reproduces, (so_log _ _ _ _ Hok)|].
  intros Hd He. apply (so_drained _ _ _ _ Hok) in Hd. unfold noMoreDataLocked in Hd. destruct (sclosed s); [|done].
  rewrite He, (stream_buffered_ok _ _ _ _ Hok) in Hd. cbn in Hd. apply Z.eqb_eq in Hd. destruct l; [done|cbn in Hd; lia].
Qed.

(** C25. The entries are numbered without gaps, in the order they were made: over
    all the streams by their prefix index, within a stream by their stream index
    in the bundles; the sequence of an entry counts the lines, the bytes or the
    datagrams that the stream's entries before it complete; and the times of a
    stream's entries never go back. *)
Theorem entries_are_numbered c now tr y :
  sys_steps (initial c now) tr y ->
  (forall i e, emitted_all tr !! i = Some e -> PrefixIndex e = u64 (Z.of_nat i)) /\
  forall n, delivered y n = emitted n tr /\ offsets_sorted (delivered y n) /\
    forall i e, delivered y n !! i = Some e ->
      StreamIndex e = u64 (Z.of_nat i) /\ Sequence e = u64 (units (take i (delivered y n))).
Proof.
  intros Hrun. pose proof (inv_reach _ _ _ _ Hrun) as Hi. split; [apply (i_prefix _ _ Hi)|]. intros n.
  rewrite <-(i_delivered _ _ Hi). split; [done|].
  destruct (decide (n ∈ seen y)) as [Hn|Hn].
  - destruct (i_seen _ _ Hi n Hn) as (s & l & _ & Hok & _). split; [apply (so_sorted _ _ _ _ Hok)|].
    intros i e He. split; [by apply (so_log _ _ _ _ Hok)|]. by eapply parser_log_sequence; [apply (so_log _ _ _ _ Hok)|].
  - destruct (i_unseen _ _ Hi n Hn) as (_ & -> & _). split; [by intros i e e'|done].
Qed.

Lemma drained_silent y tr lab y' n : sys_inv (B := B) y tr -> n ∈ seen y ->
  (forall s, bstreams (y_b y) !! n = Some s -> drained s = true) -> sys_step y lab y' ->
  n ∈ seen y' /\ (forall s, bstreams (y_b y') !! n = Some s -> drained s = true) /\ emitted n [lab] = [].
Proof.
  intros Hi Hn Hd Hst.
  assert (Hput : forall m (s s' : streamImpl (B := B)), bstreams (y_b y) !! m = Some s -> (drained s = true -> drained s' = true) ->
    forall x, <[m := s']> (bstreams (y_b y)) !! n = Some x -> drained x = true).
  { intros m s s' Hs Hdr x [[-> <-]|[_ Hx]]%lookup_insert_Some; auto. }
  inversion Hst as [? d y1 Ha Hadd|? m s d r s' Hs Hw Hop Ha|? m s d r s' Hs Hw Ha|? m s r s' Hs Ha
    |? m s Hs Hw Hact|? Ha|? m s a Ha Hs|? m a md s e g s' Ha Hs He Hr Hx|? m a md s g s' Ha Hs He Hr Hx
    |? m a md s er g s' Ha Hs He Hr Hx|? m a md s g s' Ha Hs Hf|? m s Ha Hs Hdd|? nw Ha]; subst; cbn; try done.
  - unfold AddStream in Hadd. case_decide as Hnn; [done|]. unfold Register in Hadd.
    destruct (Descriptor_Validate d false); [done|]. destruct (newParser _ _) as [p|]; [|done]. cbn in Hadd.
    destruct (bstreams (y_b y) !! Name d); [done|]. injection Hadd as <-. cbn. split; [set_solver|]. split; [|done].
    intros x. rewrite lookup_insert_ne by congruence. apply Hd.
  - split; [done|]. split; [|done]. eapply Hput; [done|]. unfold Append_check in Ha.
    destruct (appendErr s); [by injection Ha as _ <-|]. by destruct (_ =? 0); injection Ha as _ <-.
  - split; [done|]. split; [|by destruct r as [|[?|]|]]. eapply Hput; [done|]. unfold Append_attempt in Ha.
    by destruct (fits _ _); injection Ha as _ <-.
  - split; [done|]. split; [|done]. eapply Hput; [done|]. unfold Append_wake in Ha. destruct (waiting s); [done..|].
    destruct (signal s); [|done]. injection Ha as Ha. unfold Append_check in Ha. cbn in Ha.
    destruct (appendErr s); [by injection Ha as _ <-|]. by destruct (_ =? 0); injection Ha as _ <-.
  - split; [done|]. split; [|done]. by eapply Hput.
  - destruct (decide (m = n)) as [->|Hne]; [|split; [done|]; split; [|done]; intros x; rewrite lookup_insert_ne by done; apply Hd].
    exfalso. destruct (inv_lookup _ _ _ _ Hi Hs) as (_ & _ & _ & l & Hok).
    pose proof (extract_spec (sclosed s) a (y_g y) s l _ _ Hok Hr) as H. rewrite Hx in H. destruct H as (j & t & _ & Hj & _).
    specialize (Hd s Hs). apply (so_drained _ _ _ _ Hok) in Hd. unfold noMoreDataLocked in Hd.
    destruct (sclosed s); [|done]. rewrite He, (stream_buffered_ok _ _ _ _ Hok) in Hd. cbn in Hd. apply Z.eqb_eq in Hd. lia.
  - split; [done|]. split; [|done]. eapply Hput; [done|]. by destruct (extract_shell _ _ _ _ _ _ _ Hx) as (_ & _ & ->).
  - split; [done|]. split; [|done]. eapply Hput; [done|]. cbn. by destruct (extract_shell _ _ _ _ _ _ _ Hx) as (_ & _ & ->).
  - split; [done|]. split; [|done]. eapply Hput; [done|]. unfold finish in Hf.
    destruct (noMoreDataLocked _); [|injection Hf as _ <-; by destruct md].
    destruct (match lastLogEntry _ with Some le => _ | None => _ end); [|done]. by injection Hf as _ <-.
  - split; [done|]. split; [|done]. intros x [_ Hx]%lookup_delete_Some. by apply Hd.
Qed.

(** C26. A bundle gives a stream's terminal index exactly when the stream is
    drained and has entries: the index is that of its last entry, and no entry of
    the stream is ever sent after it. *)
Theorem terminal_index_is_final c now tr y n i :
  sys_steps (initial c now) tr y ->
  (has_terminal y n i <-> n ∈ seen y /\ (forall s, bstreams (y_b y) !! n = Some s -> drained s = true) /\
     exists e, last (delivered y n) = Some e /\ StreamIndex e = i) /\
  forall tr' y', has_terminal y n i -> sys_steps y tr' y' -> delivered y' n = delivered y n.
Proof.
  intros Hrun. pose proof (inv_reach _ _ _ _ Hrun) as Hi. rewrite <-(i_delivered _ _ Hi). split.
  { split; [apply (i_terminal _ _ Hi)|]. intros (Hn & Hd & e & He & <-). by apply (i_done _ _ Hi). }
  intros tr' y' Ht Hst. destruct (i_terminal _ _ Hi n i Ht) as (Hn & Hd & _). clear Ht.
  assert (H : n ∈ seen y' /\ (forall s, bstreams (y_b y') !! n = Some s -> drained s = true) /\
    emitted n (tr ++ tr') = emitted n tr).
  { clear i. induction Hst as [y|y l y2 tr2 y3 Hsts IH Hs]; [by rewrite app_nil_r|].
    destruct (IH Hrun Hi Hn Hd) as (Hn' & Hd' & He').
    pose proof (inv_reach _ _ _ _ (sys_steps_trans _ _ _ _ _ Hrun Hsts)) as Hi'.
    destruct (drained_silent _ _ _ _ _ Hi' Hn' Hd' Hs) as (H1 & H2 & H3). split; [done|]. split; [done|].
    rewrite app_assoc. unfold emitted in *. rewrite omap_app, H3, app_nil_r. exact He'. }
  pose proof (inv_reach _ _ _ _ (sys_steps_trans _ _ _ _ _ Hrun Hst)) as Hi'. rewrite <-(i_delivered _ _ Hi'). apply H.
Qed.
End Theorems.

Section Safety.
Context {B : Type} `{CL : ChunkBufferLaws B} `{PS : ProtoSize}.

(** C27. The code of the loop only takes steps of the transition system: from a
    state the system reaches, a turn of makeBundles that ends in a state is a run
    to that state, with the same bundles sent; when the loop returns, nothing is
    left in its builder. *)
Theorem makeBundles_refines c now tr m sn fuel t t' order m' :
  sys_steps (initial (B := B) c now) tr (sys_of (mb_b m) (mb_g m) (mb_sent m) sn None) ->
  makeBundles_turn fuel t t' order m = Some (Ret m') ->
  exists tr' g', sys_steps (initial c now) (tr ++ tr') (sys_of (mb_b m') g' (mb_sent m') sn None) /\
    (mb_at m' <> Finished -> g' = mb_g m') /\ (mb_at m' = Finished -> streams (bb g') = ∅).
Proof.
  intros Hrun Hturn. pose proof (inv_reach _ _ _ _ Hrun) as Hi.
  destruct (turn_steps fuel t t' order m m' sn) as (tr' & g' & Htr & H1 & H2 & _); [|done|].
  - intros n s Hs. destruct (inv_lookup _ _ _ _ Hi Hs) as (_ & _ & _ & l & Hok). exact (so_err _ _ _ _ Hok).
  - exists tr', g'. split; [by eapply sys_steps_trans|done].
Qed.

(** Data that came no earlier than the stream's start, in a stream that is not of
    datagrams, is never behind a panic. *)
Definition calm (s : streamImpl (B := B)) (l : timed) : Prop :=
  parser_type (sparser s) <> DATAGRAM /\
  Forall (fun x => timeBase (parser_base (sparser s)) <= x.2) l.

Lemma emits_terminal d g es g' n : emits (stream_template d) g es g' -> builder_terminal (bb g') n = builder_terminal (bb g) n.
Proof. induction 1 as [|g e es g' _ _ IH]; [done|]. rewrite IH. cbn [bb]. apply add_terminal. Qed.

(** Extraction only panics when the next size header of a datagram stream
    does not fit 64 bits, or when an entry from before the stream's start follows
    one from its very start; in particular the terminal index never changes, the
    loop runs out of data before it runs out of fuel, and text or binary data
    from after the stream's start is always extracted without a panic. *)
Theorem extraction_is_safe c now tr y n s a :
  sys_steps (initial c now) tr y -> bstreams (y_b y) !! n = Some s ->
  exists l, holds (buf (parser_base (sparser s))) l /\
    (nextBundleEntry a (y_g y) s = Panic ->
       exists s0 j es, stream_ok s0 (drop j l) es (appended n tr) /\ same_shell s s0 /\ extract_panics s0 (drop j l)) /\
    (calm s l -> nextBundleEntry a (y_g y) s <> Panic).
Proof.
  intros Hrun Hs. pose proof (inv_reach _ _ _ _ Hrun) as Hi.
  destruct (inv_lookup _ _ _ _ Hi Hs) as (Hn & Hname & _ & l & Hok). exists l.
  split; [apply (so_log _ _ _ _ Hok)|].
  assert (Hfin : forall g1 s1 j new, stream_ok s1 (drop j l) (emitted n tr ++ new) (appended n tr) -> stream_name s1 = n ->
    (forall k, builder_terminal (bb g1) k = builder_terminal (bb (y_g y)) k) -> (new = [] \/ drained s = false) -> finish g1 s1 <> Panic).
  { intros g1 s1 j new Hok1 Hname1 Hbt Hnew Hf. pose proof (finish_spec g1 s1 _ _ _ Hok1) as H. rewrite Hf in H.
    destruct H as (e & i & Hl & Ht & Hne). rewrite Hname1, Hbt in Ht.
    destruct (i_terminal _ _ Hi n i (or_introl Ht)) as (_ & Hd & e' & He' & Hi'). specialize (Hd s Hs).
    destruct Hnew as [->|Hnew]; [|congruence]. rewrite app_nil_r in Hl. congruence. }
  assert (Hmain : nextBundleEntry a (y_g y) s = Panic ->
       exists s0 j es, stream_ok s0 (drop j l) es (appended n tr) /\ same_shell s s0 /\ extract_panics s0 (drop j l)).
  { unfold nextBundleEntry. destruct (noMoreDataLocked s) eqn:En; cbn [mbind outcome_bind].
    - destruct (finish (y_g y) s) as [[g1 s1]|] eqn:Ef; [done|]. intros _. exfalso.
      eapply (Hfin _ s 0%nat []); [by rewrite app_nil_r| done|done|by left|exact Ef].
    - pose proof (loop_spec (S (Z.to_nat (stream_buffered s))) a false (y_g y) s l _ _ Hok) as H.
      rewrite (stream_buffered_ok _ _ _ _ Hok), Nat2Z.id in *. specialize (H ltac:(lia)).
      destruct (nextBundleEntryLocked _ _ _ _ _ _) as [[[[m1 err] g1] s1]|]; cbn [mbind outcome_bind].
      2:{ intros _. destruct H as (s0 & j & es0 & H). eauto. }
      destruct H as (j & new & Hok1 & Hsh & Hem & _ & _ & Herr).
      destruct (finish g1 (after_extract err m1 s1)) as [[g2 s2]|] eqn:Ef; [done|]. intros _. exfalso.
      eapply (Hfin g1 (after_extract err m1 s1) j new); [| | | |exact Ef].
      + assert (forall e, err = Some e -> parser_type (sparser s1) = DATAGRAM) by (intros e ->; destruct Herr; by destruct (sparser s1)).
        unfold after_extract. destruct err, m1; repeat first [exact Hok1|apply setAppendError_ok; [by eauto|]|apply signal_ok].
      + rewrite <-Hname. rewrite <-(stream_name_shell s s1) by apply Hsh. unfold after_extract. by destruct err, m1.
      + intros k. unfold tmpl in Hem. by eapply emits_terminal.
      + right. destruct (drained s) eqn:Ed; [|done]. apply (so_drained _ _ _ _ Hok) in Ed. congruence. }
  split; [exact Hmain|]. intros [Hk Hall] Hp. destruct (Hmain Hp) as (s0 & j & es & Hok0 & Hsh & [Ho|[(t & Ht & Hlt) _]]).
  - rewrite <-(sh_type _ _ Hsh) in Hk. destruct (sparser s0); done.
  - destruct (drop j l) as [|x l'] eqn:Ed; [done|]. injection Ht as <-. rewrite (sh_base _ _ Hsh) in Hlt.
    rewrite Forall_forall in Hall. assert (x ∈ l) as Hx by (rewrite <-(take_drop j l), Ed; set_solver).
    specialize (Hall x Hx). lia.
Qed.
End Safety.

(** * Waking blocked writers *)
Section Wake.
Context {B : Type} `{CL : ChunkBufferLaws B} `{PS : ProtoSize}.

(** A blocked writer is behind a signal, or one that the loop is about to send,
    or its data does not fit and the stream has not failed. *)
Definition wake_ok (y : System (B := B)) (n : bytes) (s : streamImpl) : Prop :=
  match waiting s with
  | Idle => True
  | Checked _ => appendErr s = None \/ signal s = true
  | BlockedOn d => signal s = true \/ (exists a, active y = Some (n, a, true)) \/
                   (appendErr s = None /\ fits s (blen (buffer d)) = false)
  end.
Definition wake_inv (y : System (B := B)) : Prop :=
  forall n s, bstreams (y_b y) !! n = Some s -> parser_type (sparser s) <> DATAGRAM -> wake_ok y n s.

Lemma extract_nothing cl a g (s : streamImpl (B := B)) g' s' l es A : stream_ok s l es A -> 0 < builder_remaining (bb g) ->
  parser_type (sparser s) <> DATAGRAM -> extract cl a g s = Ret (Nothing, g', s') -> s' = s.
Proof.
  intros Hok Hr Hty. unfold extract. pose proof (so_log _ _ _ _ Hok) as Hlog.
  set (c := {| limit := _; allowSplit := _; closed := _ |}).
  assert (H : forall p' k', nextEntry c (counter g) (sparser s) = Ret (Ok None, p', k') -> p' = sparser s).
  { intros p' k'. destruct Hlog as (Hb & _ & _ & H). destruct (sparser s) as [p|p|p]; cbn [nextEntry parser_base] in *; [| |done].
    - destruct (text_nextEntry_spec c (counter g) p l Hb) as (r & q & k & -> & Hq). cbn. intros [= -> <- <-].
      by destruct Hq as (-> & _).
    - destruct H as (_ & _ & Hth & _).
      destruct (binary_nextEntry_spec c (counter g) p l Hb Hr Hth) as (r & q & k & -> & Hq). cbn. intros [= -> <- <-].
      by destruct Hq as (-> & _). }
  destruct (nextEntry _ _ _) as [[[[[e|]|e] p] k]|]; cbn [mbind outcome_bind]; [| |done..].
  - destruct (fixupLogEntry _ _) as [[?|?]|]; done.
  - intros [= _ <-]. rewrite (H _ _ eq_refl). by destruct s.
Qed.

Lemma wake_put (y : System (B := B)) n s' g a :
  wake_inv y -> (forall m b, m <> n -> active y = Some (m, b, true) -> a = Some (m, b, true)) ->
  (parser_type (sparser s') <> DATAGRAM -> wake_ok (y_extracted y n s' g a) n s') -> wake_inv (y_extracted y n s' g a).
Proof.
  intros Hw Ha Hs' m x. cbn [y_extracted y_b put set_bstreams bstreams]. intros [[<- <-]|[Hne Hx]]%lookup_insert_Some; [done|].
  intros Hty. specialize (Hw m x Hx Hty). unfold wake_ok in *. destruct (waiting x); [done..|]. cbn [y_extracted active].
  destruct Hw as [?|[[b Hb]|?]]; [by left| |by right; right]. right. left. exists b. apply Ha; [congruence|done].
Qed.

Lemma wake_same (y : System (B := B)) b g sent sn : wake_inv y -> (forall n s, bstreams b !! n = Some s -> bstreams (y_b y) !! n = Some s) ->
  active y = None -> wake_inv (sys_of b g sent sn None).
Proof.
  intros Hw Hb Ha n s Hs Hty. specialize (Hw n s (Hb _ _ Hs) Hty). unfold wake_ok in *. rewrite Ha in Hw. exact Hw.
Qed.

Lemma wake_step y tr lab y' : sys_inv (B := B) y tr -> wake_inv y -> sys_step y lab y' -> wake_inv y'.
Proof.
  intros Hi Hw Hst. inversion Hst as [? d ? Ha Hadd|? n s d r s' Hs Hwt Hop Ha|? n s d r s' Hs Hwt Ha|? n s r s' Hs Ha
    |? n s Hs Hwt Hact|? Ha|? n s a Ha Hs|? n a m s e g s' Ha Hs He Hr Hx|? n a m s g s' Ha Hs He Hr Hx
    |? n a m s er g s' Ha Hs He Hr Hx|? n a m s g s' Ha Hs Hf|? n s Ha Hs Hd|? now Ha]; subst.
  - unfold AddStream in Hadd. case_decide; [done|]. unfold Register in Hadd. destruct (Descriptor_Validate d false); [done|].
    destruct (newParser _ _) as [p|]; [|done]. destruct (bstreams _ !! _) eqn:Eb; [done|]. injection Hadd as <-.
    intros k x. cbn. intros [[<- <-]|[_ Hx]]%lookup_insert_Some Hty; [done|]. specialize (Hw k x Hx Hty).
    unfold wake_ok in *. by rewrite Ha in *.
  - apply (wake_put y n s' (y_g y) (active y)); [done|done|]. intros _. unfold Append_check in Ha. unfold wake_ok.
    destruct (appendErr s) eqn:Ee; [by injection Ha as _ <-|]. destruct (_ =? 0); injection Ha as _ <-; cbn; auto.
  - apply (wake_put y n s' (y_g y) (active y)); [done|done|]. intros Hty. unfold Append_attempt in Ha.
    destruct (fits s (blen (buffer d))) eqn:Ef; injection Ha as _ <-; [done|]. cbn in Hty. specialize (Hw n s Hs Hty).
    unfold wake_ok in *. rewrite Hwt in Hw. cbn. destruct Hw as [Hw|Hw]; [right; right; by split|by left].
  - apply (wake_put y n s' (y_g y) (active y)); [done|done|]. intros Hty. unfold Append_wake in Ha.
    destruct (waiting s) as [|d|d]; [done..|]. destruct (signal s); [|done]. injection Ha as Ha. unfold Append_check in Ha. cbn in Ha.
    unfold wake_ok. destruct (appendErr s) eqn:Ee; [by injection Ha as _ <-|]. destruct (_ =? 0); injection Ha as _ <-; cbn; auto.
  - apply (wake_put y n (Close s) (y_g y) (active y)); [done|done|]. intros Hty. unfold wake_ok. cbn. by rewrite Hwt.
  - apply (wake_same y (startFlushing (y_b y)) (y_g y) (y_sent y) (seen y)) in Hw; [by rewrite <-Ha in Hw|done|done].
  - intros k x Hx Hty. specialize (Hw k x Hx Hty). unfold wake_ok in *. rewrite Ha in Hw. cbn.
    destruct (waiting x); [done..|]. destruct Hw as [?|[[? ?]|?]]; [by left|done|by right; right].
  - apply wake_put; [done|intros k b Hk; rewrite Ha; congruence|]. intros Hty. unfold wake_ok. cbn [y_extracted active].
    destruct (inv_lookup _ _ _ _ Hi Hs) as (_ & _ & _ & l & Hok).
    pose proof (extract_spec (sclosed s) a (y_g y) s l _ _ Hok Hr) as H. rewrite Hx in H. destruct H as (j & t & _ & _ & Hsh & _).
    destruct (waiting s'); [done| |right; left; by exists a]. left. by rewrite (sh_err _ _ Hsh).
  - destruct (inv_lookup _ _ _ _ Hi Hs) as (_ & _ & _ & l & Hok).
    apply wake_put; [done|intros k b Hk; rewrite Ha; congruence|]. intros Hty.
    assert (Hty0 : parser_type (sparser s) <> DATAGRAM).
    { pose proof (extract_spec (sclosed s) a (y_g y) s l _ _ Hok Hr) as H. rewrite Hx in H. destruct H as (_ & Hsh & _).
      by rewrite <-(sh_type _ _ Hsh). }
    rewrite (extract_nothing _ _ _ _ _ _ _ _ _ Hok Hr Hty0 Hx) in *. specialize (Hw n s Hs Hty0). unfold wake_ok in *.
    rewrite Ha in Hw. exact Hw.
  - apply wake_put; [done|intros k b Hk; rewrite Ha; congruence|]. intros _. unfold wake_ok. cbn.
    destruct (waiting s'); [done|by right|by left].
  - apply wake_put; [done|intros k b Hk; rewrite Ha; congruence|]. intros Hty. unfold finish in Hf.
    set (s1 := if m then signalDataConsumed s else s) in *.
    assert (Hs' : parser_type (sparser s') = parser_type (sparser s) /\ waiting s' = waiting s /\ appendErr s' = appendErr s /\
      signal s' = (if m then true else signal s) /\ (forall k, fits s' k = fits s k)).
    { destruct (noMoreDataLocked s1).
      - destruct (match lastLogEntry s1 with Some le => _ | None => _ end); [|done]. injection Hf as _ <-. subst s1. by destruct m.
      - injection Hf as _ <-. subst s1. by destruct m. }
    destruct Hs' as (H1 & H2 & H3 & H4 & H5). rewrite H1 in Hty. specialize (Hw n s Hs Hty). unfold wake_ok in *.
    rewrite H2, H3, H4. cbn [y_extracted active]. destruct (waiting s) as [|d|d]; [done|destruct m; [by right|done]|].
    rewrite H5. destruct Hw as [Hw|[[b Hb]|Hw]]; [left; by destruct m|left; rewrite Ha in Hb; by injection Hb as _ ->|by right; right].
  - apply (wake_same y (unregisterStreamLocked (y_b y) n) (y_g y) (y_sent y) (seen y)) in Hw; [by rewrite <-Ha in Hw| |done].
    intros k x. cbn. by intros [_ Hx]%lookup_delete_Some.
  - by apply (wake_same y).
Qed.

Lemma wake_reach c now tr y : sys_steps (initial (B := B) c now) tr y -> wake_inv y.
Proof.
  intros Hrun. remember (initial c now) as y0 eqn:E.
  induction Hrun as [y|y1 l y2 tr y3 Hr IH Hst]; [subst; intros k x; cbn; by rewrite lookup_empty|].
  eapply wake_step; [eapply inv_reach; subst; exact Hr|by apply IH|exact Hst].
Qed.

(** An aggressive pass over a binary stream takes something of what is there. *)
Lemma binary_extract cl g (s : streamImpl (B := B)) l es A : stream_ok s l es A -> 0 < builder_remaining (bb g) ->
  parser_type (sparser s) = BINARY -> l <> [] ->
  match extract cl true g s with Ret (Emitted _, _, _) | Panic => True | _ => False end.
Proof.
  intros Hok Hr Hty Hl. pose proof (extract_spec cl true g s l _ _ Hok Hr) as H.
  destruct (extract cl true g s) as [[[[|e|e] g'] s']|] eqn:Ee; [|done| |done].
  - unfold extract in Ee. destruct (so_log _ _ _ _ Hok) as (Hb & _ & _ & Hp).
    destruct (sparser s) as [p|p|p]; [done| |done]. destruct Hp as (_ & _ & Hth & _). cbn [nextEntry] in Ee.
    set (c := {| limit := _; allowSplit := _; closed := _ |}) in Ee.
    destruct (binary_nextEntry_spec c (counter g) p l Hb Hr Hth) as (r & q & k & Eq & Hq). rewrite Eq in Ee.
    destruct r as [e|]; cbn [mbind outcome_bind] in Ee.
    + destruct (fixupLogEntry _ _) as [[?|?]|]; done.
    + destruct Hq as (_ & _ & Hlen). cbn in Hlen. destruct l; [done|cbn in Hlen; lia].
  - destruct H as (_ & Hlarge & _). by destruct (sparser s).
Qed.

Lemma finish_signal g (s : streamImpl (B := B)) g' s' : finish g s = Ret (g', s') -> signal s' = signal s.
Proof.
  unfold finish. destruct (noMoreDataLocked s); [|by intros [= _ <-]].
  destruct (match lastLogEntry s with Some le => _ | None => _ end); [|done]. by intros [= _ <-].
Qed.

(** A pass that took something leaves a signal; on a binary stream with data an
    aggressive pass with room does take something. *)
Lemma pass_signals a g (s : streamImpl (B := B)) l es A m g' s' : stream_ok s l es A ->
  0 < builder_remaining (bb g) -> noMoreDataLocked s = false -> nextBundleEntry a g s = Ret (m, g', s') ->
  (m = true -> signal s' = true) /\ (a = true -> parser_type (sparser s) = BINARY -> l <> [] -> m = true).
Proof.
  intros Hok Hr Hn. unfold nextBundleEntry. rewrite Hn.
  destruct (nextBundleEntryLocked _ _ _ _ _ _) as [[[[m1 err] g1] s1]|] eqn:El; cbn [mbind outcome_bind]; [|done].
  destruct (finish g1 (after_extract err m1 s1)) as [[g2 s2]|] eqn:Ef; cbn [mbind outcome_bind]; [|done].
  intros [= -> _ ->]. apply finish_signal in Ef. split.
  { intros ->. rewrite Ef. by destruct err. }
  intros -> Hty Hl. cbn [nextBundleEntryLocked] in El. rewrite (proj2 (Z.ltb_lt 0 _) Hr) in El.
  pose proof (binary_extract (sclosed s) g s l _ _ Hok Hr Hty Hl) as Hb.
  pose proof (extract_spec (sclosed s) true g s l _ _ Hok Hr) as Hx.
  destruct (extract (sclosed s) true g s) as [[[[|e|e] g3] s3]|]; cbn [mbind outcome_bind] in El; [done| |done..].
  destruct Hx as (j & t & Hok3 & Hj & Hsh & _). rewrite <-(sh_closed _ _ Hsh) in El.
  pose proof (loop_spec (Z.to_nat (stream_buffered s)) true true g3 s3 _ _ _ Hok3) as H.
  rewrite El, (stream_buffered_ok _ _ _ _ Hok), Nat2Z.id, length_drop in H.
  by destruct (H ltac:(lia)) as (? & ? & _ & _ & _ & -> & _).
Qed.

(** C28. A writer blocked on a text or binary stream is not forgotten: at any
    time it has a signal to receive, or the loop is about to give it one, or its
    data does not fit beside what is still buffered.  Every pass of the loop that
    takes something from the stream leaves it a signal; on a binary stream an
    aggressive pass, with room in the bundle, takes something (it does not panic
    unless data was stamped before the stream's start), so the writer is
    woken. *)
Theorem no_lost_wakeup c now tr y n s d :
  sys_steps (initial (B := B) c now) tr y -> bstreams (y_b y) !! n = Some s -> parser_type (sparser s) <> DATAGRAM ->
  waiting s = BlockedOn d ->
  (signal s = true \/ (exists a, active y = Some (n, a, true)) \/
   (appendErr s = None /\ 0 < stream_buffered s /\ maximumBufferedBytes (sc s) < stream_buffered s + blen (buffer d))) /\
  (signal s = false -> active y = None -> 0 < builder_remaining (bb (y_g y)) ->
   (forall a g s', nextBundleEntry a (y_g y) s = Ret (true, g, s') -> signal s' = true) /\
   (parser_type (sparser s) = BINARY -> exists l, holds (buf (parser_base (sparser s))) l /\
      (Forall (fun x => timeBase (parser_base (sparser s)) <= x.2) l ->
       exists g s', nextBundleEntry true (y_g y) s = Ret (true, g, s') /\ signal s' = true))).
Proof.
  intros Hrun Hs Hty Hwt. pose proof (wake_reach _ _ _ _ Hrun n s Hs Hty) as Hw. unfold wake_ok in Hw. rewrite Hwt in Hw.
  pose proof (inv_reach _ _ _ _ Hrun) as Hi. destruct (inv_lookup _ _ _ _ Hi Hs) as (_ & _ & _ & l0 & Hok).
  assert (Hfull : fits s (blen (buffer d)) = false ->
    0 < stream_buffered s /\ maximumBufferedBytes (sc s) < stream_buffered s + blen (buffer d)).
  { unfold fits. intros [H1%Z.eqb_neq H2%Z.leb_gt]%orb_false_iff. rewrite (stream_buffered_ok _ _ _ _ Hok) in *. lia. }
  split; [destruct Hw as [?|[?|[? Hf]]]; [by left|by right; left|right; right; by specialize (Hfull Hf)]|].
  intros Hsig Hact Hr. destruct Hw as [?|[[b Hb]|[He Hf]]]; [congruence..|]. destruct (Hfull Hf) as [Hpos _].
  assert (Hn : noMoreDataLocked s = false).
  { unfold noMoreDataLocked. rewrite He. destruct (sclosed s); [|done]. cbn. apply Z.eqb_neq. lia. }
  split; [intros a g s' H; by destruct (pass_signals a _ s _ _ _ _ _ _ Hok Hr Hn H) as [Hm _]; apply Hm|].
  intros Hbin. destruct (extraction_is_safe _ _ _ _ _ _ true Hrun Hs) as (l & Hl & _ & Hcalm). exists l. split; [done|].
  intros Hall. specialize (Hcalm (conj Hty Hall)).
  destruct (nextBundleEntry true (y_g y) s) as [[[m g] s']|] eqn:En; [|done].
  destruct (pass_signals true _ s _ _ _ _ _ _ Hok Hr Hn En) as [H1 H2].
  assert (l0 <> []) by (intros ->; rewrite (stream_buffered_ok _ _ _ _ Hok) in Hpos; cbn in Hpos; lia).
  rewrite H2 in * by done. exists g, s'. by split; [|apply H1].
Qed.
End Wake.

(** * On the concrete run *)
Lemma bundles_reproduce_streams_witness :
  [98] ∈ seen example_result.2 /\
  exists s l, current example_result.2 [98] s /\ stream_name s = [98] /\ holds (buf (parser_base (sparser s))) l /\
    reproduces (sparser s) l (delivered example_result.2 [98]) (appended [98] example_result.1) /\
    (drained s = true -> appendErr s = None -> l = []).
Proof.
  assert (H : [98] ∈ seen example_result.2) by (apply (bool_decide_unpack _); vm_compute; exact I).
  split; [exact H|]. exact (bundles_reproduce_streams _ _ _ _ _ example_reached H).
Defined.

(** The datagram stream of the run, as its reader sees it. *)
Example example_datagrams : reassemble (delivered example_result.2 [98]) [] = ([[1; 2; 9]; []], []).
Proof. vm_compute. reflexivity. Qed.

Lemma entries_are_numbered_witness :
  length (emitted_all example_result.1) = 5%nat /\
  delivered example_result.2 [97] = emitted [97] example_result.1 /\
  map PrefixIndex (emitted_all example_result.1) = [0; 1; 2; 3; 4].
Proof.
  split; [vm_compute; reflexivity|].
  destruct (entries_are_numbered _ _ _ _ example_reached) as [_ H]. split; [exact (proj1 (H [97]))|].
  vm_compute. reflexivity.
Defined.

Lemma terminal_index_is_final_witness :
  has_terminal example_result.2 [97] 1 /\
  forall tr' y', sys_steps example_result.2 tr' y' -> delivered y' [97] = delivered example_result.2 [97].
Proof.
  assert (H : has_terminal example_result.2 [97] 1).
  { right. exists (nth 1 (y_sent example_result.2) (bundle (bb (y_g example_result.2)))).
    split; [apply list_elem_of_In, nth_In; vm_compute; lia|].
    eexists. split; [vm_compute; left|]. vm_compute. repeat split. }
  split; [exact H|]. intros tr' y' Hst.
  exact (proj2 (terminal_index_is_final _ _ _ _ [97] 1 example_reached) tr' y' H Hst).
Defined.

(** A turn of the loop from the state the run ends in. *)
Definition example_turn : option (outcome (MakeBundles (B := chunk_buffer))) :=
  makeBundles_turn 10 107 108 [[98]]
    {| mb_b := y_b example_result.2; mb_g := y_g example_result.2; mb_oldest := None; mb_sent := y_sent example_result.2;
       mb_at := Running |}.
Definition turn_result : MakeBundles (B := chunk_buffer) :=
  match example_turn with Some (Ret m) => m | _ => New example_config 0 end.

Lemma makeBundles_refines_witness :
  mb_at turn_result = Waiting None /\
  exists tr' g', sys_steps (initial example_config 100) (example_result.1 ++ tr')
    (sys_of (mb_b turn_result) g' (mb_sent turn_result) (seen example_result.2) None).
Proof.
  split; [vm_compute; reflexivity|].
  pose (m0 := {| mb_b := y_b example_result.2; mb_g := y_g example_result.2; mb_oldest := None;
                 mb_sent := y_sent example_result.2; mb_at := Running |}).
  assert (Hr : sys_steps (initial example_config 100) example_result.1
    (sys_of (mb_b m0) (mb_g m0) (mb_sent m0) (seen example_result.2) None)).
  { assert (E : sys_of (mb_b m0) (mb_g m0) (mb_sent m0) (seen example_result.2) None = example_result.2)
      by (vm_compute; reflexivity). rewrite E. exact example_reached. }
  destruct (makeBundles_refines example_config 100 example_result.1 m0 (seen example_result.2) 10 107 108 [[98]] turn_result Hr
    ltac:(vm_compute; reflexivity)) as (tr' & g' & H & _). exists tr', g'. exact H.
Defined.

(** The stream [98] of the run, and the state before the text stream is closed. *)
Definition early_run : list action := take 6 example_run.
Definition early_result : list label * System (B := chunk_buffer) :=
  default ([], initial example_config 100) (exec_all (initial example_config 100) early_run).
Definition early_stream (n : bytes) : streamImpl (B := chunk_buffer) :=
  default (newStream {| sc_desc := example_desc n TEXT; maximumBufferedBytes := 0; maximumBufferDuration := 0 |}
             (TextP {| tp_base := {| buf := buf_new; timeBase := 0; nextIndex := 0 |}; sequence := 0 |}))
    (bstreams (y_b early_result.2) !! n).

Lemma early_reached : sys_steps (initial example_config 100) early_result.1 early_result.2.
Proof. apply (exec_all_sound _ early_run). vm_compute. reflexivity. Qed.

Lemma extraction_is_safe_witness :
  exists l, holds (buf (parser_base (sparser (early_stream [97])))) l /\
    (calm (early_stream [97]) l -> nextBundleEntry true (y_g early_result.2) (early_stream [97]) <> Panic).
Proof.
  destruct (extraction_is_safe _ _ _ _ [97] (early_stream [97]) true early_reached ltac:(vm_compute; reflexivity))
    as (l & Hl & _ & Hc).
  exists l. split; [exact Hl|exact Hc].
Defined.

(** A third chunk does not fit the sixteen bytes of a binary stream. *)
Definition full_run : list action :=
  [ARegister (example_desc [97] BINARY);
   AAppend [97] {| buffer := replicate 10 65; ts := 102 |}; AAttempt [97];
   AAppend [97] {| buffer := replicate 12 66; ts := 105 |}; AAttempt [97]].
Definition full_result : list label * System (B := timed) :=
  default ([], initial example_config 100) (exec_all (initial example_config 100) full_run).
Definition full_stream : streamImpl (B := timed) :=
  default (newStream {| sc_desc := example_desc [97] BINARY; maximumBufferedBytes := 0; maximumBufferDuration := 0 |}
             (BinaryP {| bp_base := {| buf := []; timeBase := 0; nextIndex := 0 |}; offset := 0; threshold := 0 |}))
    (bstreams (y_b full_result.2) !! [97]).

Lemma no_lost_wakeup_witness :
  waiting full_stream = BlockedOn {| buffer := replicate 12 66; ts := 105 |} /\ signal full_stream = false /\
  (signal full_stream = true \/ (exists a, active full_result.2 = Some ([97], a, true)) \/
   (appendErr full_stream = None /\ 0 < stream_buffered full_stream /\
    maximumBufferedBytes (sc full_stream) < stream_buffered full_stream + 12)) /\
  exists g s', nextBundleEntry true (y_g full_result.2) full_stream = Ret (true, g, s') /\ signal s' = true.
Proof.
  assert (Hw : waiting full_stream = BlockedOn {| buffer := replicate 12 66; ts := 105 |}) by (vm_compute; reflexivity).
  assert (Hr : sys_steps (initial example_config 100) full_result.1 full_result.2).
  { apply (exec_all_sound _ full_run). vm_compute. reflexivity. }
  destruct (no_lost_wakeup _ _ _ _ [97] full_stream _ Hr ltac:(vm_compute; reflexivity) ltac:(vm_compute; discriminate) Hw)
    as [H1 H2].
  split; [exact Hw|]. split; [vm_compute; reflexivity|]. split; [exact H1|].
  destruct (H2 ltac:(vm_compute; reflexivity) ltac:(vm_compute; reflexivity) ltac:(vm_compute; reflexivity)) as [_ H3].
  destruct (H3 ltac:(vm_compute; reflexivity)) as (l & <- & H). apply H.
  apply (bool_decide_unpack _). vm_compute. exact I.
Defined.

(** * What goes wrong *)

Definition small_config : Config :=
  {| cfg_Project := [112]; cfg_Prefix := [112]; MaxBufferedBytes := 3; MaxBundleSize := 200; MaxBufferDelay := 5 |}.

(** A text stream whose buffer holds the start of a character takes nothing from
    it before the rest has come; a writer that has the rest, and more than the
    buffer has room for, waits for ever: two aggressive passes later there is no
    signal. *)
Definition cut_run : list action :=
  [ARegister (example_desc [97] TEXT);
   AAppend [97] {| buffer := [0xE2; 0x82]; ts := 102 |}; AAttempt [97];
   AAppend [97] {| buffer := [0xAC; 10]; ts := 103 |}; AAttempt [97];
   ABegin [97] true; AExtract; AEnd; ABegin [97] true; AExtract; AEnd].
Lemma cut_rune_blocks :
  match exec_all (B := chunk_buffer) (initial small_config 100) cut_run with
  | Some (_, y) =>
      match bstreams (y_b y) !! [97] with
      | Some s => waiting s = BlockedOn {| buffer := [0xAC; 10]; ts := 103 |} /\ signal s = false /\ active y = None /\
                  stream_buffered s = 2 /\ fits s 2 = false
      | None => False
      end
  | None => False
  end.
Proof. vm_compute. repeat split. Qed.

(** On a datagram stream a wake-up is lost: the header of a datagram is taken
    from the buffer without an entry, the buffer is empty, the blocked data would
    fit, and no signal comes. *)
Definition lost_run : list action :=
  [ARegister (example_desc [98] DATAGRAM);
   AAppend [98] {| buffer := [4]; ts := 102 |}; AAttempt [98];
   AAppend [98] {| buffer := [1; 2; 3; 4]; ts := 103 |}; AAttempt [98];
   ABegin [98] false; AExtract; AEnd].
Lemma datagram_wakeup_lost :
  match exec_all (B := chunk_buffer) (initial small_config 100) lost_run with
  | Some (_, y) =>
      match bstreams (y_b y) !! [98] with
      | Some s => waiting s = BlockedOn {| buffer := [1; 2; 3; 4]; ts := 103 |} /\ signal s = false /\ active y = None /\
                  stream_buffered s = 0 /\ fits s 4 = true /\ expireTime s = None
      | None => False
      end
  | None => False
  end.
Proof. vm_compute. repeat split. Qed.

Definition stream_with (t : StreamType) (d : streamData) : streamImpl (B := timed) :=
  match newParser t 100 with
  | Some p => (Append (newStream {| sc_desc := example_desc [97] t; maximumBufferedBytes := 100; maximumBufferDuration := 5 |} p) d).2
  | None => newStream {| sc_desc := example_desc [97] t; maximumBufferedBytes := 100; maximumBufferDuration := 5 |}
              (TextP {| tp_base := {| buf := []; timeBase := 0; nextIndex := 0 |}; sequence := 0 |})
  end.
Definition bundling_of (n : Z) : bundling :=
  {| bb := {| size := n; template := {| bundle_Timestamp := 0; Project := []; bundle_Prefix := []; Entries := [] |};
              streams := ∅ |}; counter := 0 |}.

(** Ten bytes that are no varint panic the extraction of a datagram stream. *)
Lemma bad_header_panics :
  nextBundleEntry false (bundling_of 100) (stream_with DATAGRAM {| buffer := replicate 10 255 ++ [1]; ts := 101 |}) = Panic.
Proof. vm_compute. reflexivity. Qed.

(** Data from before the stream's start panics after an entry from its start. *)
Lemma early_data_panics :
  let s := stream_with BINARY {| buffer := [1]; ts := 100 |} in
  match nextBundleEntry true (bundling_of 100) s with
  | Ret (_, g, s) => nextBundleEntry true g (Append s {| buffer := [2]; ts := 99 |}).2 = Panic
  | Panic => False
  end.
Proof. vm_compute. reflexivity. Qed.

(** A closed text stream that ends inside a rune is never drained. *)
Lemma truncated_rune_never_drains :
  let s := Close (stream_with TEXT {| buffer := [0xE2; 0x82]; ts := 101 |}) in
  nextBundleEntry true (bundling_of 100) s = Ret (false, bundling_of 100, s) /\ drained s = false.
Proof. vm_compute. split; reflexivity. Qed.

(** The first pass does not end when the data of a stream has expired and its
    next rune is longer than what the bundle has left. *)
Definition spin_stream : streamImpl (B := timed) := stream_with TEXT {| buffer := [0xE2; 0x82; 0xAC]; ts := 101 |}.
Definition spin_bundler : Bundler (B := timed) :=
  {| cfg := example_config; bstreams := {[ [97] := spin_stream ]}; flushing := false |}.
Lemma first_pass_spins fuel sn : first_pass fuel 200 spin_bundler (bundling_of 10) [[97]] sn = None.
Proof.
  assert (Hn : nextBundleEntry true (bundling_of 10) spin_stream = Ret (false, bundling_of 10, spin_stream)) by (vm_compute; reflexivity).
  assert (Hp : put spin_bundler [97] spin_stream = spin_bundler) by (vm_compute; reflexivity).
  revert sn. induction fuel as [|fuel IH]; intros sn; [reflexivity|].
  change (first_pass (S fuel) 200 spin_bundler (bundling_of 10) [[97]] sn) with
    (match nextBundleEntry true (bundling_of 10) spin_stream with
     | Panic => Some Panic
     | Ret (modified, g, s) =>
         let b := put spin_bundler [97] s in
         let st := if modified : bool then streamUpdated b [[97]] [97] else [[97]] in
         let st := if drained s then removeStream b st [97] else st in
         first_pass fuel 200 b g st (sn || modified)
     end).
  rewrite Hn. cbv zeta. rewrite Hp. apply IH.
Qed.
