(* ===== verification/Renderer.v ===== *)
(** The log renderer (logdog/common/renderer): an [io.Reader] that turns the
    entries of a source into bytes, raw or for people to read. *)
From S2P Require Import Prelude LogEntry Parsers ParserSpec StreamName.
Local Open Scope Z_scope.

(** * Sources (source.go)

    What [NextLogEntry] will answer, call after call; once the answers are
    exhausted it goes on with [io.EOF]. *)
Inductive SourceError := io_EOF | OtherError (n : Z).
Definition Source := list (option LogEntry * option SourceError).

Definition NextLogEntry (s : Source) : option LogEntry * option SourceError * Source :=
  match s with
  | [] => (None, Some io_EOF, [])
  | (le, err) :: s => (le, err, s)
  end.

(** [StaticSource]: the entries of a slice, with [io.EOF] beside the last one. *)
Definition StaticSource_NextLogEntry (s : list LogEntry) : option LogEntry * option SourceError * list LogEntry :=
  let '(le, s) := match s with [] => (None, []) | le :: s => (Some le, s) end in
  (le, match s with [] => Some io_EOF | _ => None end, s).
Fixpoint StaticSource (s : list LogEntry) : Source :=
  match s with
  | [] => []
  | le :: s => (Some le, match s with [] => Some io_EOF | _ => None end) :: StaticSource s
  end.
(** A source that reports its end by itself (archive's channelRendererSource). *)
Definition channelRendererSource (s : list LogEntry) : Source := map (fun le => (Some le, None)) s.

(** * Hexadecimal and decimal output (encoding/hex, fmt) *)
Definition hex_digit (n : Z) : Z := if n <? 10 then 48 + n else 97 + (n - 10).
Definition hex_byte (b : Z) : bytes := [hex_digit (Z.shiftr b 4); hex_digit (Z.land b 0xf)].
Definition EncodeToString (data : bytes) : bytes := concat (map hex_byte data).

Fixpoint decimal_loop (fuel : nat) (n : Z) (acc : bytes) : bytes :=
  match fuel with
  | O => acc
  | S fuel => let acc := (48 + n mod 10) :: acc in if n <? 10 then acc else decimal_loop fuel (n / 10) acc
  end.
(** A uint64 has at most twenty digits. *)
Definition decimal (n : Z) : bytes := decimal_loop 20 n [].

(** [hex.Dumper]: sixteen bytes a line, with their offset and characters. *)
Definition toChar (b : Z) : Z := if (b <? 32) || (126 <? b) then 46 else b.
Definition dump_cell (i : nat) (s : bytes) : bytes :=
  s ++ [32] ++ (if (i =? 7)%nat then [32] else if (i =? 15)%nat then [32; 124] else []).
Fixpoint dump_cells (i : nat) (n : nat) (data : bytes) : bytes :=
  match n with
  | O => []
  | S n =>
      match data with
      | b :: data => dump_cell i (hex_byte b) ++ dump_cells (S i) n data
      | [] => dump_cell i [32; 32] ++ dump_cells (S i) n []
      end
  end.
Definition dump_line (off : Z) (data : bytes) : bytes :=
  concat (map hex_byte (be 4 off)) ++ [32; 32] ++ dump_cells 0 16 data ++ map toChar data ++ [124; 10].
Fixpoint dump_loop (fuel : nat) (off : Z) (data : bytes) : bytes :=
  match fuel, data with
  | O, _ | _, [] => []
  | S fuel, _ => dump_line off (take 16 data) ++ dump_loop fuel (off + 16) (drop 16 data)
  end.
Definition dumpHex (data : bytes) : bytes := dump_loop (length data) 0 data.

(** * The renderer (renderer.go) *)

(** A [DatagramWriter] answers what it wrote and whether it did render. *)
Record Renderer := {
  rsource : Source;
  Raw : bool;
  TextPrefix : option (LogEntry -> Text_Line -> bytes);
  DatagramWriter : option (bytes -> bytes * bool);
  rbuf : bytes;
  bufPos : nat;
  rerr : option SourceError;
  dgBuf : bytes
}.

Definition newline : bytes := [10].

(** The text of an entry, and what is kept of a datagram in parts. *)
Definition render_line (r : Renderer) (le : LogEntry) (line : Text_Line) : bytes :=
  match TextPrefix r with Some f => f le line | None => [] end ++
  Value line ++ (if Raw r then Delimiter line else newline).

Definition of_words (s : string) : bytes := of_string s.
Definition datagram_header (le : LogEntry) (n : Z) : bytes :=
  of_words "Datagram #" ++ decimal (Sequence le) ++ of_words " (" ++ decimal n ++ [32] ++
  of_words (if n =? 1 then "byte" else "bytes") ++ of_words ")" ++ newline.

Definition render_datagram (r : Renderer) (data : bytes) : bytes :=
  match DatagramWriter r with
  | Some f => let '(out, ok) := f data in if ok : bool then out else out ++ dumpHex data
  | None => dumpHex data
  end.

Definition render_entry (r : Renderer) (dg : bytes) (le : LogEntry) : bytes * bytes :=
  match Content le with
  | Text lines => (concat (map (render_line r le) lines), dg)
  | Binary _ data => (if Raw r then data else EncodeToString data, dg)
  | Datagram data partial =>
      if Raw r then (data, dg)
      else
      let dg := dg ++ data in
      if match partial with None => true | Some p => Last p end
      then (datagram_header le (blen dg) ++ render_datagram r dg ++ newline, [])
      else ([], dg)
  end.

Definition bufferNext (r : Renderer) : option SourceError * Renderer :=
  let '(le, err, s) := NextLogEntry (rsource r) in
  let '(out, dg) := match le with Some le => render_entry r (dgBuf r) le | None => ([], dgBuf r) end in
  (err, {| rsource := s; Raw := Raw r; TextPrefix := TextPrefix r; DatagramWriter := DatagramWriter r;
           rbuf := out; bufPos := bufPos r; rerr := rerr r; dgBuf := dg |}).

Definition buffered (r : Renderer) : bytes := drop (bufPos r) (rbuf r).

(** The loop of [Read]: each round takes an answer of the source. *)
Fixpoint fill (fuel : nat) (r : Renderer) : Renderer :=
  match rerr r, buffered r, fuel with
  | None, [], S fuel =>
      let '(err, r) := bufferNext r in
      fill fuel {| rsource := rsource r; Raw := Raw r; TextPrefix := TextPrefix r; DatagramWriter := DatagramWriter r;
                   rbuf := rbuf r; bufPos := 0; rerr := err; dgBuf := dgBuf r |}
  | _, _, _ => r
  end.

Definition Read (r : Renderer) (n : nat) : bytes * option SourceError * Renderer :=
  let r := fill (S (length (rsource r))) r in
  let out := take n (buffered r) in
  (out, rerr r,
   {| rsource := rsource r; Raw := Raw r; TextPrefix := TextPrefix r; DatagramWriter := DatagramWriter r;
      rbuf := rbuf r; bufPos := bufPos r + length out; rerr := rerr r; dgBuf := dgBuf r |}).

(** [io.Copy] from the renderer, with its buffer of 32 KiB: what was written, and
    the error, which the end of the data is not. *)
Definition copy_buffer : nat := 32 * 1024.
Fixpoint io_Copy (fuel : nat) (n : nat) (r : Renderer) : option (bytes * option SourceError) :=
  match fuel with
  | O => None
  | S fuel =>
      let '(out, err, r) := Read r n in
      match err with
      | Some io_EOF => Some (out, None)
      | Some e => Some (out, Some e)
      | None => '(rest, err) ← io_Copy fuel n r; Some (out ++ rest, err)
      end
  end.

Definition new_renderer (s : Source) (raw : bool) : Renderer :=
  {| rsource := s; Raw := raw; TextPrefix := None; DatagramWriter := None; rbuf := []; bufPos := 0; rerr := None; dgBuf := [] |}.

(** * What is rendered *)

(** All a source gives, and the error it ends with. *)
Fixpoint source_output (r : Renderer) (dg : bytes) (s : Source) : bytes * SourceError :=
  match s with
  | [] => ([], io_EOF)
  | (le, err) :: s =>
      let '(out, dg) := match le with Some le => render_entry r dg le | None => ([], dg) end in
      match err with
      | Some e => (out, e)
      | None => let '(rest, e) := source_output r dg s in (out ++ rest, e)
      end
  end.

(** The source reports its errors by themselves. *)
Definition separate (s : Source) : Prop := Forall (fun x => x.2 <> None -> x.1 = None) s.

Definition same_config (r r' : Renderer) : Prop :=
  Raw r = Raw r' /\ TextPrefix r = TextPrefix r' /\ DatagramWriter r = DatagramWriter r'.

Lemma render_entry_config r r' dg le : same_config r r' -> render_entry r dg le = render_entry r' dg le.
Proof.
  intros (H1 & H2 & H3). unfold render_entry, render_datagram, render_line. rewrite H1, H2, H3. done.
Qed.

Lemma source_output_config r r' dg s : same_config r r' -> source_output r dg s = source_output r' dg s.
Proof.
  intros Hc. revert dg. induction s as [|[le err] s IH]; intros dg; [done|]. cbn [source_output].
  destruct le as [le|]; [rewrite (render_entry_config r r' dg le Hc); destruct (render_entry r' dg le) as [out dg']|];
    (destruct err; [done|]); by rewrite IH.
Qed.

(** What is still to come out of a renderer. *)
Definition to_come (r : Renderer) : bytes * SourceError :=
  match rerr r with
  | Some e => (buffered r, e)
  | None => let '(out, e) := source_output r (dgBuf r) (rsource r) in (buffered r ++ out, e)
  end.

(** [Read] fills the buffer unless the source is at its end. *)
Lemma fill_spec fuel r : separate (rsource r) -> (length (rsource r) < fuel)%nat ->
  let r' := fill fuel r in
  separate (rsource r') /\ same_config r r' /\ to_come r' = to_come r /\
  (buffered r' = [] -> rerr r' <> None) /\ (rerr r = None -> rerr r' <> None -> buffered r' = []).
Proof.
  revert r. induction fuel as [|fuel IH]; intros r Hs Hf; [lia|]. cbn [fill].
  destruct (rerr r) as [e|] eqn:Ee.
  { split; [done|]. split; [done|]. split; [done|]. rewrite Ee. split; [done|done]. }
  destruct (buffered r) as [|x l] eqn:Eb.
  2:{ split; [done|]. split; [done|]. split; [done|]. rewrite Ee, Eb. split; [done|done]. }
  unfold bufferNext, NextLogEntry. destruct (rsource r) as [|[le err] s] eqn:Es;
    cbn [rsource Raw TextPrefix DatagramWriter rbuf dgBuf].
  - match goal with |- context [fill fuel ?x] => set (r1 := x) end.
    assert (H : fill fuel r1 = r1) by (by destruct fuel). rewrite H. subst r1. unfold to_come. rewrite Ee, Eb, Es. cbn.
    split; [done|]. split; [done|]. split; [done|]. done.
  - apply Forall_cons in Hs as [Hx Hs]. cbn in Hx.
    destruct (match le with Some le0 => _ | None => _ end) as [out dg] eqn:Eo.
    cbn [rsource Raw TextPrefix DatagramWriter rbuf dgBuf].
    match goal with |- context [fill fuel ?x] => set (r1 := x) end.
    destruct (IH r1) as (H1 & H2 & H3 & H4 & H5); [done|cbn; cbn in Hf; lia|].
    split; [done|]. split; [done|]. split.
    { rewrite H3. unfold to_come. cbn [rerr r1 rsource dgBuf]. unfold buffered at 1 2. cbn [rbuf bufPos r1].
      rewrite drop_0, Ee, Eb, Es. cbn [source_output]. rewrite Eo.
      destruct err as [e|]; [done|]. rewrite (source_output_config r1 r) by done.
      by destruct (source_output r dg s) as [rest e]. }
    split; [done|]. intros _ Hne. destruct err as [e|].
    + specialize (Hx ltac:(done)). subst le. injection Eo as <- <-. unfold r1. by destruct fuel.
    + by apply H5.
Qed.

Lemma Renderer_Read_spec r n out err r' : separate (rsource r) -> rerr r = None -> Read r n = (out, err, r') ->
  separate (rsource r') /\ (length out <= n)%nat /\ rerr r' = err /\
  (to_come r).1 = out ++ (to_come r').1 /\ (to_come r').2 = (to_come r).2 /\
  match err with
  | Some e => out = [] /\ to_come r = ([], e)
  | None => (0 < n)%nat -> out <> []
  end.
Proof.
  intros Hs He. unfold Read. pose proof (fill_spec (S (length (rsource r))) r Hs ltac:(lia)) as H. cbn zeta in H.
  set (r1 := fill _ r) in *. destruct H as (H1 & H2 & H3 & H4 & H5). intros [= <- <- <-]. cbn [rsource rerr].
  split; [done|]. split; [rewrite length_take; lia|]. split; [done|]. rewrite <-H3.
  assert (Hb : forall r2, r2 = {| rsource := rsource r1; Raw := Raw r1; TextPrefix := TextPrefix r1; DatagramWriter := DatagramWriter r1;
      rbuf := rbuf r1; bufPos := bufPos r1 + length (take n (buffered r1)); rerr := rerr r1; dgBuf := dgBuf r1 |} ->
    buffered r2 = drop n (buffered r1) /\ source_output r2 (dgBuf r2) (rsource r2) = source_output r1 (dgBuf r1) (rsource r1)).
  { intros r2 ->. split; [|by apply source_output_config]. unfold buffered. cbn [rbuf bufPos].
    rewrite <-drop_drop. rewrite length_take, length_drop.
    destruct (decide (n <= length (rbuf r1) - bufPos r1)%nat); [f_equal; lia|].
    rewrite !drop_ge; [done| |]; rewrite ?length_drop; lia. }
  destruct (Hb _ eq_refl) as [Hb1 Hb2]. clear Hb. unfold to_come at 2 3. cbn [rerr]. rewrite Hb1.
  unfold to_come. destruct (rerr r1) as [e|] eqn:E1.
  - cbn [fst snd]. rewrite take_drop. split; [done|]. split; [done|]. rewrite (H5 He ltac:(done)). by rewrite take_nil.
  - rewrite Hb2. destruct (source_output r1 (dgBuf r1) (rsource r1)) as [rest e]. cbn [fst snd].
    rewrite app_assoc, take_drop. split; [done|]. split; [done|]. intros Hn. destruct (buffered r1); [by specialize (H4 eq_refl)|].
    by destruct n; [lia|].
Qed.

(** Copying from a renderer whose source reports its end by itself gives all that
    the source renders to, whatever the size of the copies. *)
Lemma io_Copy_spec fuel n r : separate (rsource r) -> rerr r = None -> (0 < n)%nat ->
  (length (to_come r).1 < fuel)%nat ->
  io_Copy fuel n r = Some ((to_come r).1, match (to_come r).2 with io_EOF => None | e => Some e end).
Proof.
  revert r. induction fuel as [|fuel IH]; intros r Hs He Hn Hf; [lia|]. cbn [io_Copy].
  destruct (Read r n) as [[out err] r'] eqn:Er.
  destruct (Renderer_Read_spec _ _ _ _ _ Hs He Er) as (H1 & H2 & H3 & H4 & H5 & H6).
  destruct err as [e|].
  - destruct H6 as [-> ->]. by destruct e.
  - rewrite IH; [|done|done|done|].
    + cbn. rewrite H5, <-H4. done.
    + specialize (H6 Hn). rewrite H4, length_app in Hf. destruct out; [done|]. cbn in Hf. lia.
Qed.

Lemma raw_output r es : Raw r = true -> TextPrefix r = None -> forall dg,
  source_output r dg (channelRendererSource es) = (log_raw es, io_EOF).
Proof.
  intros Hraw Hp. induction es as [|e es IH]; intros dg; [done|]. cbn [channelRendererSource map source_output].
  assert (H : exists dg', render_entry r dg e = (entry_raw e, dg')).
  { unfold render_entry, entry_raw. destruct (Content e) as [lns|o d|d p].
    - exists dg. f_equal. unfold lines_raw. f_equal. apply map_ext. intros ln. unfold render_line. by rewrite Hp, Hraw.
    - rewrite Hraw. by exists dg.
    - rewrite Hraw. by exists dg. }
  destruct H as [dg' ->]. fold (channelRendererSource es). rewrite IH. done.
Qed.

(** With [io.EOF] beside the last entry, all but the first read of it is lost. *)
Lemma copy_truncates e n fuel :
  io_Copy (S fuel) n (new_renderer (StaticSource [e]) true) = Some (take n (entry_raw e), None).
Proof.
  assert (H : exists r', Read (new_renderer (StaticSource [e]) true) n = (take n (entry_raw e), Some io_EOF, r')).
  { destruct e as [to pi si sq [lns|o d|d p]]; [|eexists; reflexivity..].
    assert (Hl : lines_raw lns = concat (map (render_line (new_renderer [] true) {| TimeOffset := to; PrefixIndex := pi;
      StreamIndex := si; Sequence := sq; Content := Text lns |}) lns)) by done.
    change (entry_raw _) with (lines_raw lns). rewrite Hl. eexists. reflexivity. }
  destruct H as [r' H]. cbn [io_Copy]. by rewrite H.
Qed.
