(* ===== verification/RendererTheorems.v ===== *)
(** What the renderer gives: everything its source holds, and, for the raw
    rendering of the entries of a stream, what was written to the stream. *)
From stdpp Require Import fin_maps.
From S2P Require Import Prelude LogEntry TimedBuffer Parsers ParserSpec LogStream.
From S2P Require Import LogStreamSpec LogBundler BundlerSystem BundlerInv BundlerTheorems Renderer.
Local Open Scope Z_scope.

(** Copying from a renderer writes all that the entries of its source render
    to and ends with the error of the source, whatever the size of the reads,
    when the source reports its errors by themselves. *)
Theorem copy_is_complete src raw n out err :
  separate src -> (0 < n)%nat ->
  source_output (new_renderer src raw) [] src = (out, err) ->
  io_Copy (S (length out)) n (new_renderer src raw) = Some (out, match err with io_EOF => None | e => Some e end).
Proof.
  intros Hs Hn Ho.
  assert (Hc : to_come (new_renderer src raw) = (out, err)) by (unfold to_come; cbn [new_renderer rerr rsource dgBuf]; by rewrite Ho).
  pose proof (io_Copy_spec (S (length out)) n (new_renderer src raw)) as H. rewrite Hc in H.
  destruct err; (apply H; [exact Hs|done|exact Hn|apply Nat.lt_succ_diag_r]).
Qed.

Lemma separate_channel es : separate (channelRendererSource es).
Proof. unfold channelRendererSource, separate. apply Forall_forall. intros x (e & -> & _)%list_elem_of_fmap. done. Qed.

(** From the Butler to the archive: the raw rendering of the entries that the
    bundles hold for a text or binary stream is what was written to the stream,
    less what is still buffered. *)
Theorem archive_reproduces_stream {B : Type} `{CL : ChunkBufferLaws B} `{PS : ProtoSize} c now tr y n :
  sys_steps (initial (B := B) c now) tr y -> n ∈ seen y ->
  exists s l out, current y n s /\ holds (buf (parser_base (sparser s))) l /\
    io_Copy (S (length out)) copy_buffer (new_renderer (channelRendererSource (delivered y n)) true) = Some (out, None) /\
    (parser_type (sparser s) <> DATAGRAM -> out ++ unstamp l = appended n tr) /\
    (drained s = true -> appendErr s = None -> parser_type (sparser s) <> DATAGRAM -> out = appended n tr).
Proof.
  intros Hrun Hn. pose proof (inv_reach _ _ _ _ Hrun) as Hi.
  destruct (i_seen _ _ Hi n Hn) as (s & l & Hname & Hok & _ & Hcur).
  pose proof (parser_log_reproduces _ _ _ _ (so_log _ _ _ _ Hok)) as Hrep. rewrite (i_delivered _ _ Hi) in *.
  exists s, l, (log_raw (delivered y n)). split; [done|]. split; [apply (so_log _ _ _ _ Hok)|]. split.
  { set (r := new_renderer (channelRendererSource (delivered y n)) true).
    assert (Hc : to_come r = (log_raw (delivered y n), io_EOF)).
    { unfold to_come. change (rerr r) with (@None SourceError). cbv iota. unfold r.
      change (dgBuf (new_renderer (channelRendererSource (delivered y n)) true)) with (@nil Z).
      change (rsource (new_renderer (channelRendererSource (delivered y n)) true)) with (channelRendererSource (delivered y n)).
      rewrite raw_output by done. done. }
    pose proof (io_Copy_spec (S (length (log_raw (delivered y n)))) copy_buffer r) as H. rewrite Hc in H. apply H.
    - apply separate_channel.
    - done.
    - unfold copy_buffer. lia.
    - apply Nat.lt_succ_diag_r. }
  assert (Hraw : parser_type (sparser s) <> DATAGRAM -> log_raw (delivered y n) ++ unstamp l = appended n tr).
  { intros Hty. destruct (sparser s); [apply Hrep|apply Hrep|done]. }
  split; [exact Hraw|]. intros Hd He Hty. rewrite <-Hraw by done.
  apply (so_drained _ _ _ _ Hok) in Hd. unfold noMoreDataLocked in Hd. destruct (sclosed s); [|done].
  rewrite He, (stream_buffered_ok _ _ _ _ Hok) in Hd. cbn in Hd. apply Z.eqb_eq in Hd.
  destruct l; [|cbn in Hd; lia]. by rewrite app_nil_r.
Qed.

(** * On concrete entries *)
Definition example_entry (s : Z) (c : LogContent) : LogEntry :=
  {| TimeOffset := None; PrefixIndex := 0; StreamIndex := 0; Sequence := s; Content := c |}.
Definition example_source : Source :=
  [(Some (example_entry 0 (Datagram [1; 2] (Some {| Index := 0; Size := 3; Last := false |}))), None);
   (None, None);
   (Some (example_entry 0 (Datagram [65] (Some {| Index := 1; Size := 3; Last := true |}))), None);
   (None, Some (OtherError 5))].
Definition example_output : bytes :=
  of_words "Datagram #0 (3 bytes)" ++ [10] ++ of_words "00000000  01 02 41                                          |..A|" ++ [10; 10].

Lemma copy_is_complete_witness :
  separate example_source /\
  io_Copy (S (length example_output)) 7 (new_renderer example_source false) = Some (example_output, Some (OtherError 5)).
Proof.
  assert (Hs : separate example_source) by (repeat constructor; done).
  split; [exact Hs|].
  exact (copy_is_complete example_source false 7 example_output (OtherError 5) Hs ltac:(lia) ltac:(vm_compute; reflexivity)).
Defined.

Lemma archive_reproduces_stream_witness :
  [97] ∈ seen example_result.2 /\
  exists s l out, current example_result.2 [97] s /\ holds (buf (parser_base (sparser s))) l /\
    io_Copy (S (length out)) copy_buffer (new_renderer (channelRendererSource (delivered example_result.2 [97])) true) = Some (out, None) /\
    (parser_type (sparser s) <> DATAGRAM -> out ++ unstamp l = [65; 66; 13; 10; 67]).
Proof.
  assert (H : [97] ∈ seen example_result.2) by (apply (bool_decide_unpack _); vm_compute; exact I).
  split; [exact H|].
  destruct (archive_reproduces_stream _ _ _ _ _ example_reached H) as (s & l & out & H1 & H2 & H3 & H4 & _).
  exists s, l, out. split; [exact H1|]. split; [exact H2|]. split; [exact H3|].
  assert (E : appended [97] example_result.1 = [65; 66; 13; 10; 67]) by (vm_compute; reflexivity).
  rewrite E in H4. exact H4.
Defined.
