(* ===== verification/Tumble.v ===== *)
(** tumble: the arithmetic of the transaction processor (tumble/config.go,
    process.go, fire_tasks.go, service.go).  Shards and their queries, time slots,
    names of mutations and of tasks, and the delays between rounds. *)
From S2P Require Import Prelude LogEntry.
Local Open Scope Z_scope.

Definition MinInt64 : Z := - 2 ^ 63.
Definition MaxInt64 : Z := 2 ^ 63 - 1.
Definition MaxUint64 : Z := 2 ^ 64 - 1.
Definition MaxInt32 : Z := 2 ^ 31 - 1.
Definition Second : Z := 1000000000.

(** * Settings (config.go)

    Durations are in nanoseconds. *)
Record Config := {
  NumShards : Z; NumGoroutines : Z; TemporalMinDelay : Z; TemporalRoundFactor : Z; ProcessLoopDuration : Z;
  DustSettleTimeout : Z; MaxNoWorkDelay : Z; NoWorkDelayGrowth : Z; ProcessMaxBatchSize : Z; DelayedMutations : bool
}.
Definition defaultConfig : Config := {|
  NumShards := 32; TemporalMinDelay := Second; TemporalRoundFactor := 4 * Second;
  ProcessLoopDuration := 9 * 60 * Second + 30 * Second; DustSettleTimeout := 2 * Second; MaxNoWorkDelay := 2 * Second;
  NoWorkDelayGrowth := 3; NumGoroutines := 16; ProcessMaxBatchSize := 128; DelayedMutations := false |}.

(** * Shards

    An [ExpandedShard] is any 64-bit number; a shard is one of [NumShards] ranges
    of them. *)
Definition expandedShardBounds (cfg : Config) (shard : Z) : Z * Z :=
  if NumShards cfg <=? shard then (0, -1)
  else
    let expandedShardsPerShard := i64 (MaxUint64 / NumShards cfg) in
    let low := i64 (MinInt64 + i64 (i64 shard * expandedShardsPerShard)) in
    (low, if shard =? u64 (NumShards cfg - 1) then MaxInt64 else i64 (low + expandedShardsPerShard)).

(** The query of a shard: the range of [ExpandedShard], and how many roots. *)
Record shard_query := { q_low : Z; q_high : Z; q_limit : option Z }.
Definition processShardQuery (cfg : Config) (shard : Z) : option shard_query :=
  let '(low, high) := expandedShardBounds cfg shard in
  if high <? low then None
  else
    let batchSize := ProcessMaxBatchSize cfg in
    Some {| q_low := low; q_high := high; q_limit := if 0 <? batchSize then Some (Z.min batchSize MaxInt32) else None |}.
Definition in_query (q : shard_query) (eshard : Z) : bool := (q_low q <=? eshard) && (eshard <=? q_high q).

(** [realMutation.shard]: the shard of an [ExpandedShard].  Without shards it
    divides by zero. *)
Definition shard_of (cfg : Config) (eshard : Z) : outcome Z :=
  if NumShards cfg =? 0 then Panic
  else
    let expandedShardsPerShard := MaxUint64 / NumShards cfg in
    let ret := u64 (i64 (eshard - MinInt64)) / expandedShardsPerShard in
    Ret (if NumShards cfg <=? ret then u64 (NumShards cfg - 1) else ret).

(** * Time slots

    Times are nanoseconds since 1970; [Time.Round] counts from the year one. *)
Definition zero_unix : Z := 62135596800 * Second.
Definition Time_Round (t d : Z) : Z :=
  if d <=? 0 then t
  else let r := (t + zero_unix) mod d in if r + r <? d then t - r else t + (d - r).
Definition Time_Unix (t : Z) : Z := t / Second.

Definition mkTimestamp (cfg : Config) (t : Z) : Z :=
  let trf := TemporalRoundFactor cfg in
  Time_Unix (Time_Round (t + i64 (TemporalMinDelay cfg + trf)) trf).

Record taskShard := { ts_shard : Z; ts_time : Z }.
#[export] Instance taskShard_eq_dec : EqDecision taskShard.
Proof. solve_decision. Defined.

(** * Names

    [fmt.Sprintf("%0wx")] of a number that is not negative. *)
Definition hexdigit (n : Z) : Z := if n <? 10 then 48 + n else 87 + n.
Fixpoint hex_loop (fuel : nat) (n : Z) (acc : bytes) : bytes :=
  match fuel with
  | O => acc
  | S fuel => let acc := hexdigit (n mod 16) :: acc in if n / 16 =? 0 then acc else hex_loop fuel (n / 16) acc
  end.
Definition hex_pad (w : nat) (n : Z) : bytes :=
  let d := hex_loop (S (Z.to_nat (Z.log2 n))) n [] in replicate (w - length d) 48 ++ d.

(** The names of anonymous and of named mutations (putMutations,
    PutNamedMutations). *)
Definition underscore : Z := 95.
Definition mutation_id (version round i : Z) : bytes :=
  hex_pad 16 version ++ underscore :: hex_pad 8 round ++ underscore :: hex_pad 8 i.
Definition named_id (name : bytes) : bytes := [110; 58] ++ name.
#[global] Arguments named_id name : simpl never.
Definition is_named (id : bytes) : bool := bool_decide (take 2 id = [110; 58]).

(** [nsToTaskName], on the ASCII characters of a namespace. *)
Definition task_char (r : Z) : Z :=
  if ((97 <=? r) && (r <=? 122)) || ((65 <=? r) && (r <=? 90)) || (r =? 95) || (r =? 45) then r else 95.
Definition nsToTaskName (v : bytes) : bytes := map task_char (concat (map (fun r => if r =? 95 then [95; 95] else [r]) v)).

(** Decimal, for task names. *)
Fixpoint dec_loop (fuel : nat) (n : Z) (acc : bytes) : bytes :=
  match fuel with
  | O => acc
  | S fuel => let acc := 48 + n mod 10 :: acc in if n / 10 =? 0 then acc else dec_loop fuel (n / 10) acc
  end.
Definition dec (n : Z) : bytes := if n <? 0 then 45 :: dec_loop 20 (- n) [] else dec_loop 20 n [].

(** * Tasks (fire_tasks.go, service.go)

    The path of a task carries its time, its shard and whether it loops.  It runs in the
    namespace that fires it, which its name shows in part. *)
Record Task := { Name : bytes; t_ns : bytes; t_time : Z; t_shard : Z; t_loop : bool }.
Definition single : bytes := [95; 115; 105; 110; 103; 108; 101].
Definition makeTask (cfg : Config) (ns : bytes) (nextSlot : Z) (loop : bool) (shard : taskShard) : Task :=
  let eta := if DelayedMutations cfg && (nextSlot <? ts_time shard) then ts_time shard else nextSlot in
  {| Name := dec eta ++ [95] ++ nsToTaskName ns ++ [95] ++ dec (ts_shard shard) ++ (if loop then [] else single);
     t_ns := ns; t_time := eta; t_shard := ts_shard shard; t_loop := loop |}.

(** The queue refuses a second task of a name, which is not an error. *)
Definition add_task (queue : list Task) (t : Task) : list Task :=
  if bool_decide (Name t ∈ map Name queue) then queue else queue ++ [t].

(** [add_fails] is any other error of the queue. *)
Definition fireTasks (cfg : Config) (ns : bytes) (now : Z) (add_fails : bool) (shards : list taskShard) (loop : bool) (queue : list Task)
  : bool * list Task :=
  match shards with
  | [] => (true, queue)
  | _ =>
      let nextSlot := mkTimestamp cfg now in
      if add_fails then (false, queue) else (true, fold_left add_task (map (makeTask cfg ns nextSlot loop) shards) queue)
  end.

(** [minTS], the time of the shards a cron job finds. *)
Definition minTS : Z := MinInt64.

(** [fireAllTasksForNamespace]: [count q] is what the datastore answers, [None] an error.
    The errors and the tasks it counts come with the queue. *)
Fixpoint probe_shards (cfg : Config) (count : shard_query -> option Z) (shards : list Z) : outcome (list taskShard * Z) :=
  match shards with
  | [] => Ret ([], 0)
  | s :: shards =>
      match processShardQuery cfg s with
      | None => Panic
      | Some q =>
          match count q with
          | None => Ret ([], 1)
          | Some amt =>
              '(l, errs) ← probe_shards cfg count shards;
              Ret (if 0 <? amt then {| ts_shard := s; ts_time := minTS |} :: l else l, errs)
          end
      end
  end.
Definition fireAllTasksForNamespace (cfg : Config) (ns : bytes) (now : Z) (total : option Z) (count : shard_query -> option Z)
    (add_fails : bool) (queue : list Task) : outcome (Z * Z * list Task) :=
  match total with
  | None => Ret (1, 0, queue)
  | Some amt =>
      if amt =? 0 then Ret (0, 0, queue)
      else
        '(trigger, errs) ← probe_shards cfg count (seqZ 0 (NumShards cfg));
        if bool_decide (trigger = []) then Ret (errs, 0, queue)
        else
          let '(ok, queue) := fireTasks cfg ns now add_fails trigger false queue in
          Ret (if ok : bool then (errs, Z.of_nat (length trigger), queue) else (errs + 1, 0, queue))
  end.

(** [FireAllTasks] on the namespaces, one after the other: whether there was an error,
    and the queue. *)
Record NamespaceEnv := { ns_name : bytes; ns_now : Z; ns_total : option Z; ns_count : shard_query -> option Z; ns_add_fails : bool }.
Fixpoint fire_namespaces (cfg : Config) (nss : list NamespaceEnv) (errCount taskCount : Z) (queue : list Task) : outcome (Z * Z * list Task) :=
  match nss with
  | [] => Ret (errCount, taskCount, queue)
  | n :: nss =>
      '(errs, tasks, queue) ← fireAllTasksForNamespace cfg (ns_name n) (ns_now n) (ns_total n) (ns_count n) (ns_add_fails n) queue;
      fire_namespaces cfg nss (errCount + errs) (taskCount + tasks) queue
  end.
Definition FireAllTasks (cfg : Config) (namespaces : option (list NamespaceEnv)) (queue : list Task) : outcome (result unit unit * list Task) :=
  match namespaces with
  | None => Ret (Err tt, queue)
  | Some nss =>
      '(errCount, _, queue) ← fire_namespaces cfg nss 0 0 queue;
      Ret (if 0 <? errCount then Err tt else Ok tt, queue)
  end.

(** * Delays between rounds (processRoundDelay) *)
Definition minNoWorkDelay : Z := Second.
Definition prd_reset (cfg : Config) : Z := DustSettleTimeout cfg.
Definition prd_next (cfg : Config) (nextDelay : Z) (didWork : bool) : Z * Z :=
  if didWork then (prd_reset cfg, prd_reset cfg)
  else
    let delay := nextDelay in
    let nextDelay := if 1 <? NoWorkDelayGrowth cfg then i64 (nextDelay * NoWorkDelayGrowth cfg) else nextDelay in
    let max := MaxNoWorkDelay cfg in
    let '(delay, nextDelay) := if (0 <? max) && (max <? delay) then (max, max) else (delay, nextDelay) in
    (if delay <? minNoWorkDelay then minNoWorkDelay else delay, nextDelay).

(** * Shards cover the mutations *)
Lemma i64_add_r a b : i64 (a + i64 b) = i64 (a + b).
Proof.
  unfold i64. f_equal. replace (a + ((b + 2 ^ 63) mod 2 ^ 64 - 2 ^ 63) + 2 ^ 63) with (a + (b + 2 ^ 63) mod 2 ^ 64) by lia.
  rewrite Zplus_mod_idemp_r. f_equal. lia.
Qed.
Lemma i64_congr a b : a mod 2 ^ 64 = b mod 2 ^ 64 -> i64 a = i64 b.
Proof. intros H. unfold i64. rewrite (Zplus_mod a), (Zplus_mod b), H. done. Qed.
Lemma i64_mod a : i64 a mod 2 ^ 64 = a mod 2 ^ 64.
Proof.
  unfold i64. rewrite Zminus_mod, Zmod_mod, <-Zminus_mod. f_equal. lia.
Qed.
Lemma i64_mul a b : i64 (i64 a * i64 b) = i64 (a * b).
Proof. apply i64_congr. rewrite Zmult_mod, !i64_mod, <-Zmult_mod. done. Qed.

Definition shards_ok (cfg : Config) : Prop := 0 < NumShards cfg < 2 ^ 64.

Lemma per_bounds n : 0 < n < 2 ^ 64 -> 1 <= MaxUint64 / n /\ n * (MaxUint64 / n) <= MaxUint64 < n * (MaxUint64 / n) + n.
Proof.
  intros H. unfold MaxUint64. pose proof (Z.div_mod (2 ^ 64 - 1) n) as Hd.
  pose proof (Z.mod_pos_bound (2 ^ 64 - 1) n). split; [|lia].
  apply Z.div_le_lower_bound; lia.
Qed.

(** The bounds without their wrap-around. *)
Lemma expandedShardBounds_exact cfg s : shards_ok cfg -> 0 <= s < NumShards cfg ->
  expandedShardBounds cfg s =
    (MinInt64 + s * (MaxUint64 / NumShards cfg),
     if s =? NumShards cfg - 1 then MaxInt64 else MinInt64 + (s + 1) * (MaxUint64 / NumShards cfg)).
Proof.
  intros Hn Hs. unfold shards_ok in Hn. pose proof (per_bounds _ Hn) as [Hp1 Hp2].
  set (n := NumShards cfg) in *. set (per := MaxUint64 / n) in *.
  assert (Hlow : i64 (MinInt64 + i64 (i64 s * i64 per)) = MinInt64 + s * per).
  { rewrite i64_mul, i64_add_r. apply i64_small. unfold MaxUint64, MinInt64, in_i64 in *. nia. }
  unfold expandedShardBounds. fold n. fold per. destruct (Z.leb_spec n s); [lia|]. rewrite Hlow.
  rewrite (u64_small (n - 1)) by (unfold in_u64; lia).
  destruct (Z.eqb_spec s (n - 1)) as [|Hl]; [done|]. f_equal.
  rewrite i64_add_r. rewrite i64_small; [lia|]. unfold MaxUint64, MinInt64, in_i64 in *. nia.
Qed.

Lemma processShardQuery_exact cfg s : shards_ok cfg -> 0 <= s < NumShards cfg -> exists q,
  processShardQuery cfg s = Some q /\
  (q_low q, q_high q) = expandedShardBounds cfg s /\
  q_limit q = if 0 <? ProcessMaxBatchSize cfg then Some (Z.min (ProcessMaxBatchSize cfg) MaxInt32) else None.
Proof.
  intros Hn Hs. unfold processShardQuery. rewrite expandedShardBounds_exact by done. cbv beta iota.
  pose proof (per_bounds _ Hn) as [Hp1 Hp2]. set (per := MaxUint64 / NumShards cfg) in *.
  destruct (Z.ltb_spec (if s =? NumShards cfg - 1 then MaxInt64 else MinInt64 + (s + 1) * per) (MinInt64 + s * per)) as [Hlt|].
  - unfold shards_ok, MinInt64, MaxInt64, MaxUint64 in *. destruct (Z.eqb_spec s (NumShards cfg - 1)); nia.
  - by eexists.
Qed.

(** The shard of a mutation is one whose query finds it, and the query of any
    other finds it only on the border of the two. *)
Lemma shard_found cfg es : shards_ok cfg -> in_i64 es -> exists s,
  shard_of cfg es = Ret s /\ 0 <= s < NumShards cfg /\
  (exists q, processShardQuery cfg s = Some q /\ in_query q es = true) /\
  forall s' q', 0 <= s' < NumShards cfg -> processShardQuery cfg s' = Some q' -> in_query q' es = true ->
    s' = s \/ s' + 1 = s /\ q_high q' = es.
Proof.
  intros Hn He. unfold shard_of. pose proof (per_bounds _ Hn) as [Hp1 Hp2]. pose proof Hn as Hn'. unfold shards_ok in Hn'.
  destruct (Z.eqb_spec (NumShards cfg) 0) as [|_]; [lia|].
  assert (Hu : u64 (i64 (es - MinInt64)) = es - MinInt64).
  { unfold u64. rewrite i64_mod. apply Z.mod_small. unfold MinInt64, in_i64 in *. lia. }
  rewrite Hu. rewrite (u64_small (NumShards cfg - 1)) by (unfold in_u64; lia).
  set (n := NumShards cfg) in *. set (per := MaxUint64 / n) in *. set (e := es - MinInt64) in *.
  assert (0 <= e < 2 ^ 64) by (unfold MinInt64, in_i64 in *; lia).
  pose proof (Z.div_mod e per ltac:(lia)) as Hd. pose proof (Z.mod_pos_bound e per ltac:(lia)) as Hm.
  assert (0 <= e / per) by (apply Z.div_pos; lia).
  set (s := if n <=? e / per then n - 1 else e / per).
  assert (Hs : 0 <= s < n) by (unfold s; destruct (Z.leb_spec n (e / per)); lia).
  assert (Hq : forall s' q', 0 <= s' < n -> processShardQuery cfg s' = Some q' -> in_query q' es = true <->
    s' * per <= e /\ (s' = n - 1 \/ e <= (s' + 1) * per)).
  { intros s' q' Hs' Hq'. destruct (processShardQuery_exact cfg s' Hn Hs') as (q & Hq & Hb & _).
    rewrite Hq' in Hq. injection Hq as ->. rewrite expandedShardBounds_exact in Hb by done. fold n per in Hb.
    injection Hb as Hl Hh. unfold in_query. rewrite andb_true_iff, !Z.leb_le, Hl, Hh.
    unfold e, MaxInt64, MinInt64, in_i64 in *. destruct (Z.eqb_spec s' (n - 1)); lia. }
  exists s. split; [done|]. split; [done|]. split.
  - destruct (processShardQuery_exact cfg s Hn Hs) as (q & Hq' & _). exists q. split; [done|].
    apply (Hq s q Hs Hq'). unfold s. destruct (Z.leb_spec n (e / per)); nia.
  - intros s' q' Hs' Hq' Hin. pose proof (proj1 (Hq s' q' Hs' Hq') Hin) as [H1 H2].
    destruct (decide (s' = s)) as [|Hne]; [by left|]. right.
    assert (s' + 1 = s /\ e = (s' + 1) * per) as [H3 H4].
    { unfold s in *. destruct (Z.leb_spec n (e / per)); nia. }
    split; [done|]. destruct (processShardQuery_exact cfg s' Hn Hs') as (q & Hq'' & Hb & _).
    rewrite Hq' in Hq''. injection Hq'' as ->. rewrite expandedShardBounds_exact in Hb by done. fold n per in Hb.
    injection Hb as _ ->. unfold e, MinInt64 in *. destruct (Z.eqb_spec s' (n - 1)); lia.
Qed.

(** * Time slots *)
Lemma Time_Round_bounds t d : 0 < d -> 2 * t - d < 2 * Time_Round t d <= 2 * t + d.
Proof.
  intros Hd. unfold Time_Round. destruct (Z.leb_spec d 0); [lia|].
  pose proof (Z.mod_pos_bound (t + zero_unix) d Hd). destruct (Z.ltb_spec ((t + zero_unix) mod d + (t + zero_unix) mod d) d); lia.
Qed.

(** A task comes at least the minimal delay after the mutation, and no more
    than a factor and a half of the rounding later. *)
Lemma mkTimestamp_bounds cfg t : 0 <= TemporalMinDelay cfg -> 2 * Second <= TemporalRoundFactor cfg ->
  TemporalMinDelay cfg + TemporalRoundFactor cfg < 2 ^ 63 ->
  t + TemporalMinDelay cfg <= mkTimestamp cfg t * Second + TemporalRoundFactor cfg / 2 /\
  2 * (mkTimestamp cfg t * Second) <= 2 * (t + TemporalMinDelay cfg) + 3 * TemporalRoundFactor cfg.
Proof.
  intros Hd Hr Hs. unfold mkTimestamp, Time_Unix. assert (0 < Second) by (unfold Second; lia).
  rewrite i64_small by (unfold in_i64, Second in *; lia).
  pose proof (Time_Round_bounds (t + (TemporalMinDelay cfg + TemporalRoundFactor cfg)) (TemporalRoundFactor cfg) ltac:(lia)) as Hb.
  set (x := Time_Round _ _) in *. pose proof (Z.div_mod x Second ltac:(lia)). pose proof (Z.mod_pos_bound x Second ltac:(lia)).
  pose proof (Z.div_mod (TemporalRoundFactor cfg) 2 ltac:(lia)). pose proof (Z.mod_pos_bound (TemporalRoundFactor cfg) 2 ltac:(lia)).
  unfold Second in *. lia.
Qed.

(** * Names *)
Definition is_hex (b : Z) : Prop := 48 <= b < 58 \/ 97 <= b < 103.
Definition hexval (b : Z) : Z := if b <? 58 then b - 48 else b - 87.
Definition unhex (l : bytes) : Z := fold_left (fun acc b => acc * 16 + hexval b) l 0.

Lemma hexdigit_spec n : 0 <= n < 16 -> is_hex (hexdigit n) /\ hexval (hexdigit n) = n.
Proof. intros H. unfold is_hex, hexval, hexdigit. destruct (Z.ltb_spec n 10), (Z.ltb_spec (48 + n) 58), (Z.ltb_spec (87 + n) 58); lia. Qed.

Lemma unhex_app l1 l2 acc : fold_left (fun acc b => acc * 16 + hexval b) (l1 ++ l2) acc =
  fold_left (fun acc b => acc * 16 + hexval b) l2 (fold_left (fun acc b => acc * 16 + hexval b) l1 acc).
Proof. apply fold_left_app. Qed.

Lemma hex_loop_spec fuel : forall n acc, 0 <= n < 16 ^ Z.of_nat fuel ->
  exists d, hex_loop fuel n acc = d ++ acc /\ Forall is_hex d /\ unhex d = n /\ (fuel <> 0%nat -> d <> []).
Proof.
  induction fuel as [|fuel IH]; intros n acc Hn; cbn [hex_loop].
  - exists []. split; [done|]. split; [constructor|]. split; [cbn in *; lia|done].
  - pose proof (Z.div_mod n 16 ltac:(lia)) as Hd. pose proof (Z.mod_pos_bound n 16 ltac:(lia)) as Hm.
    destruct (hexdigit_spec (n mod 16) Hm) as [Hx Hv]. destruct (Z.eqb_spec (n / 16) 0) as [H0|H0].
    + exists [hexdigit (n mod 16)]. split; [done|]. split; [by apply Forall_singleton|].
      split; [unfold unhex; cbn [fold_left]; lia|done].
    + assert (0 <= n / 16 < 16 ^ Z.of_nat fuel).
      { rewrite Nat2Z.inj_succ, Z.pow_succ_r in Hn by lia. split; [apply Z.div_pos; lia|apply Z.div_lt_upper_bound; lia]. }
      destruct (IH (n / 16) (hexdigit (n mod 16) :: acc) ltac:(done)) as (d & He & Hh & Hu & _).
      exists (d ++ [hexdigit (n mod 16)]). rewrite <-app_assoc. split; [done|]. split; [apply Forall_app; split; [done|by apply Forall_singleton]|].
      split; [|by destruct d]. unfold unhex in *. rewrite unhex_app, Hu. cbn. lia.
Qed.

Lemma hex_pad_spec w n : 0 <= n -> Forall is_hex (hex_pad w n) /\ unhex (hex_pad w n) = n /\ hex_pad w n <> [].
Proof.
  intros Hn. unfold hex_pad. destruct (hex_loop_spec (S (Z.to_nat (Z.log2 n))) n []) as (d & He & Hh & Hu & Hne).
  { pose proof (Z.log2_nonneg n). split; [done|]. rewrite Nat2Z.inj_succ, Z2Nat.id by done. destruct (decide (n = 0)) as [->|]; [done|].
    eapply Z.lt_le_trans; [apply Z.log2_spec; lia|]. apply Z.pow_le_mono_l. lia. }
  rewrite He, app_nil_r. split; [|split].
  - apply Forall_app. split; [|done]. apply Forall_replicate. unfold is_hex. lia.
  - unfold unhex in *. rewrite unhex_app. induction (w - length d)%nat as [|k IH]; [done|]. apply IH.
  - intros [_ ->]%app_nil. by apply Hne.
Qed.

Lemma split_under a b x y : Forall (fun c => c <> underscore) a -> Forall (fun c => c <> underscore) b ->
  a ++ underscore :: x = b ++ underscore :: y -> a = b /\ x = y.
Proof.
  intros Ha. revert b. induction Ha as [|c a Hc Ha IH]; intros [|d b] Hb H; cbn in H.
  - by injection H.
  - injection H as <- _. by apply Forall_inv in Hb.
  - by injection H as -> _.
  - injection H as -> H. apply Forall_inv_tail in Hb. destruct (IH b Hb H) as [-> ->]. done.
Qed.
Lemma hex_no_under l : Forall is_hex l -> Forall (fun c => c <> underscore) l.
Proof. intros H. eapply Forall_impl; [done|]. unfold is_hex, underscore. lia. Qed.
#[export] Hint Resolve hex_no_under : luci.

Lemma mutation_id_inj v r i v' r' i' :
  0 <= v -> 0 <= r -> 0 <= i -> 0 <= v' -> 0 <= r' -> 0 <= i' ->
  mutation_id v r i = mutation_id v' r' i' -> v = v' /\ r = r' /\ i = i'.
Proof.
  unfold mutation_id. intros Hv Hr Hi Hv' Hr' Hi' H.
  destruct (hex_pad_spec 16 v Hv) as (A1 & A2 & _), (hex_pad_spec 16 v' Hv') as (B1 & B2 & _),
    (hex_pad_spec 8 r Hr) as (C1 & C2 & _), (hex_pad_spec 8 r' Hr') as (D1 & D2 & _),
    (hex_pad_spec 8 i Hi) as (_ & E2 & _), (hex_pad_spec 8 i' Hi') as (_ & F2 & _).
  apply split_under in H as [H1 H]; [|by auto with luci..]. apply split_under in H as [H2 H3]; [|by auto with luci..]. by rewrite <-A2, <-C2, <-E2, H1, H2, H3.
Qed.

(** No anonymous mutation is taken for a named one. *)
Lemma mutation_id_anon v r i : 0 <= v -> is_named (mutation_id v r i) = false.
Proof.
  intros Hv. unfold mutation_id. destruct (hex_pad_spec 16 v Hv) as (Hh & _ & Hne).
  destruct (hex_pad 16 v) as [|b l]; [done|]. apply Forall_inv in Hh. unfold is_named.
  apply bool_decide_false. cbn. intros [= -> _]. unfold is_hex in Hh. lia.
Qed.
Lemma named_id_named n : is_named (named_id n) = true.
Proof. by apply bool_decide_true. Qed.

Definition decval (l : bytes) : Z := fold_left (fun acc b => acc * 10 + (b - 48)) l 0.
Lemma dec_loop_spec fuel : forall n acc, 0 <= n < 10 ^ Z.of_nat fuel ->
  exists d, dec_loop fuel n acc = d ++ acc /\ Forall (fun b => 48 <= b < 58) d /\ decval d = n.
Proof.
  induction fuel as [|fuel IH]; intros n acc Hn; cbn [dec_loop].
  - exists []. split; [done|]. split; [constructor|]. cbn in *; lia.
  - pose proof (Z.div_mod n 10 ltac:(lia)) as Hd. pose proof (Z.mod_pos_bound n 10 ltac:(lia)) as Hm.
    destruct (Z.eqb_spec (n / 10) 0) as [H0|H0].
    + exists [48 + n mod 10]. split; [done|]. split; [apply Forall_singleton; lia|]. unfold decval; cbn [fold_left]; lia.
    + assert (0 <= n / 10 < 10 ^ Z.of_nat fuel).
      { rewrite Nat2Z.inj_succ, Z.pow_succ_r in Hn by lia. split; [apply Z.div_pos; lia|apply Z.div_lt_upper_bound; lia]. }
      destruct (IH (n / 10) (48 + n mod 10 :: acc) ltac:(done)) as (d & He & Hh & Hu).
      exists (d ++ [48 + n mod 10]). rewrite <-app_assoc. split; [done|].
      split; [apply Forall_app; split; [done|apply Forall_singleton; lia]|].
      unfold decval in *. rewrite fold_left_app, Hu. cbn. lia.
Qed.

Definition in_dec (n : Z) : Prop := - 10 ^ 20 < n < 10 ^ 20.
Lemma dec_spec n : in_dec n -> exists neg d, dec n = (if neg : bool then [45] else []) ++ d /\
  Forall (fun b => 48 <= b < 58) d /\ n = if neg then - decval d else decval d.
Proof.
  intros Hn. unfold in_dec, dec in *. destruct (Z.ltb_spec n 0).
  - destruct (dec_loop_spec 20 (- n) [] ltac:(lia)) as (d & -> & Hd & Hv). exists true, d. rewrite app_nil_r. repeat split; [done|lia].
  - destruct (dec_loop_spec 20 n [] ltac:(lia)) as (d & -> & Hd & Hv). exists false, d. rewrite app_nil_r. by repeat split.
Qed.
Lemma dec_no_under n : in_dec n -> Forall (fun c => c <> underscore) (dec n).
Proof.
  intros Hn. destruct (dec_spec n Hn) as (neg & d & -> & Hd & _). apply Forall_app. split.
  - destruct neg; [by apply Forall_singleton|constructor].
  - eapply Forall_impl; [done|]. unfold underscore. lia.
Qed.
Lemma dec_inj n m : in_dec n -> in_dec m -> dec n = dec m -> n = m.
Proof.
  intros Hn Hm H. destruct (dec_spec n Hn) as (g & d & E & Hd & ->), (dec_spec m Hm) as (g' & d' & E' & Hd' & ->).
  rewrite E, E' in H. destruct g, g'; cbn in H; [by injection H as ->|..|by subst].
  - destruct d' as [|x d']; [done|]. injection H as <- _. apply Forall_inv in Hd'. lia.
  - destruct d as [|x d]; [done|]. injection H as -> _. apply Forall_inv in Hd. lia.
Qed.
#[export] Hint Resolve dec_no_under : luci.

Lemma split_under_last a b x y : Forall (fun c => c <> underscore) a -> Forall (fun c => c <> underscore) b ->
  x ++ underscore :: a = y ++ underscore :: b -> x = y /\ a = b.
Proof.
  intros Ha Hb H. apply (f_equal (@rev Z)) in H. rewrite !rev_app_distr in H. cbn in H. rewrite <-!app_assoc in H. cbn in H.
  rewrite <-(rev_involutive a), <-(rev_involutive b), <-(rev_involutive x), <-(rev_involutive y).
  apply split_under in H as [-> ->]; [done|by apply List.Forall_rev..].
Qed.
(** The name of a task says what the task does, and what its namespace is mapped to. *)
Lemma task_name_inj ns ns' t s l t' s' l' : in_dec t -> in_dec t' -> in_dec s -> in_dec s' ->
  dec t ++ [95] ++ nsToTaskName ns ++ [95] ++ dec s ++ (if l : bool then [] else single) =
  dec t' ++ [95] ++ nsToTaskName ns' ++ [95] ++ dec s' ++ (if l' : bool then [] else single) ->
  t = t' /\ s = s' /\ l = l' /\ nsToTaskName ns = nsToTaskName ns'.
Proof.
  intros Ht Ht' Hs Hs' H. cbn [app] in H. apply split_under in H as [H1 H]; [|by auto with luci..].
  apply dec_inj in H1; [|done..]. split; [done|].
  assert (Hdig : forall n x, in_dec n -> dec n = 115 :: x -> False).
  { intros n x Hn Hx. destruct (dec_spec n Hn) as (neg & d & E & Hd & _). rewrite Hx in E. destruct neg; [done|]. cbn in E. subst d.
    apply Forall_inv in Hd. lia. }
  assert (Hsg : Forall (fun c => c <> underscore) [115; 105; 110; 103; 108; 101]) by (repeat constructor; unfold underscore; lia).
  unfold single in H. destruct l, l'; rewrite ?app_nil_r in H.
  - apply split_under_last in H as [-> H]; [|by auto with luci..]. split; [by apply dec_inj|done].
  - change (nsToTaskName ns' ++ 95 :: dec s' ++ [95; 115; 105; 110; 103; 108; 101]) with
      (nsToTaskName ns' ++ (95 :: dec s') ++ underscore :: [115; 105; 110; 103; 108; 101]) in H. rewrite app_assoc in H.
    apply split_under_last in H as [_ H]; [|by auto with luci..]. by apply Hdig in H.
  - change (nsToTaskName ns ++ 95 :: dec s ++ [95; 115; 105; 110; 103; 108; 101]) with
      (nsToTaskName ns ++ (95 :: dec s) ++ underscore :: [115; 105; 110; 103; 108; 101]) in H. rewrite app_assoc in H. symmetry in H.
    apply split_under_last in H as [_ H]; [|by auto with luci..]. by apply Hdig in H.
  - change (95 :: dec s ++ [95; 115; 105; 110; 103; 108; 101]) with ((95 :: dec s) ++ [95; 115; 105; 110; 103; 108; 101]) in H.
    change (95 :: dec s' ++ [95; 115; 105; 110; 103; 108; 101]) with ((95 :: dec s') ++ [95; 115; 105; 110; 103; 108; 101]) in H.
    rewrite !app_assoc in H. apply app_inv_tail in H.
    apply split_under_last in H as [-> H]; [|by auto with luci..]. split; [by apply dec_inj|done].
Qed.

(** * Firing tasks *)
Lemma add_task_spec q t : q ⊆ add_task q t /\ Name t ∈ map Name (add_task q t) /\
  forall x, x ∈ add_task q t -> x ∈ q \/ x = t.
Proof.
  unfold add_task. destruct (bool_decide_reflect (Name t ∈ map Name q)) as [H|H].
  - split; [done|]. split; [done|]. by left.
  - split; [set_solver|]. rewrite map_app. split; [set_solver|]. set_solver.
Qed.

(** Every shard has a task of its name when the queue works, and only such
    tasks are added. *)
Lemma fireTasks_spec cfg ns now shards loop q q' : fireTasks cfg ns now false shards loop q = (true, q') ->
  q ⊆ q' /\
  (forall s, s ∈ shards -> Name (makeTask cfg ns (mkTimestamp cfg now) loop s) ∈ map Name q') /\
  forall t, t ∈ q' -> t ∈ q \/ exists s, s ∈ shards /\ t = makeTask cfg ns (mkTimestamp cfg now) loop s.
Proof.
  intros H. assert (Hf : forall l q, q ⊆ fold_left add_task (map (makeTask cfg ns (mkTimestamp cfg now) loop) l) q /\
    (forall s, s ∈ l -> Name (makeTask cfg ns (mkTimestamp cfg now) loop s) ∈
       map Name (fold_left add_task (map (makeTask cfg ns (mkTimestamp cfg now) loop) l) q)) /\
    forall t, t ∈ fold_left add_task (map (makeTask cfg ns (mkTimestamp cfg now) loop) l) q ->
      t ∈ q \/ exists s, s ∈ l /\ t = makeTask cfg ns (mkTimestamp cfg now) loop s).
  { clear. induction l as [|s l IH]; intros q; cbn [map fold_left].
    - split; [done|]. split; [intros s Hs; by apply elem_of_nil in Hs|by left].
    - destruct (add_task_spec q (makeTask cfg ns (mkTimestamp cfg now) loop s)) as (A1 & A2 & A3), (IH (add_task q (makeTask cfg ns (mkTimestamp cfg now) loop s))) as (B1 & B2 & B3).
      split; [by etrans|]. split.
      + intros s' [->|Hs']%elem_of_cons; [|by apply B2]. apply list_elem_of_fmap in A2 as (x & Hx & Hin).
        apply list_elem_of_fmap. exists x. split; [done|]. by apply B1.
      + intros t [Hin|(s' & Hs' & ->)]%B3; [apply A3 in Hin as [Hin| ->]; [by left|]; right|right]; eexists; (split; [|done]); set_solver. }
  apply (f_equal snd) in H. destruct shards as [|s l]; [|replace q' with (snd (true, q')) by done; rewrite <-H; apply (Hf (s :: l) q)].
  cbn in H. subst. split; [done|]. split; [intros s Hs; by apply elem_of_nil in Hs|by left].
Qed.

(** The task found under the name is the task of the shard, or the same one of another
    namespace whose name is mapped to the same. *)
Definition fired (cfg : Config) (t : Task) : Prop :=
  exists now loop s, in_dec (ts_shard s) /\ in_dec (t_time t) /\ t = makeTask cfg (t_ns t) now loop s.
Definition stands_for (t t' : Task) : Prop :=
  t = t' \/ t_ns t <> t_ns t' /\ nsToTaskName (t_ns t) = nsToTaskName (t_ns t') /\
    Name t = Name t' /\ t_time t = t_time t' /\ t_shard t = t_shard t' /\ t_loop t = t_loop t'.
Lemma fireTasks_tasks cfg ns now shards loop q q' : Forall (fired cfg) q ->
  (forall s, s ∈ shards -> in_dec (ts_shard s) /\ in_dec (ts_time s)) -> in_dec (mkTimestamp cfg now) ->
  fireTasks cfg ns now false shards loop q = (true, q') ->
  Forall (fired cfg) q' /\ forall s, s ∈ shards -> exists t, t ∈ q' /\ stands_for t (makeTask cfg ns (mkTimestamp cfg now) loop s).
Proof.
  intros Hq Hs Hn H. destruct (fireTasks_spec _ _ _ _ _ _ _ H) as (H1 & H2 & H3). rewrite Forall_forall in Hq.
  assert (Hm : forall s, s ∈ shards -> fired cfg (makeTask cfg ns (mkTimestamp cfg now) loop s)).
  { intros s Hin. destruct (Hs s Hin) as [Hd1 Hd2]. exists (mkTimestamp cfg now), loop, s. split; [done|]. split; [|done].
    cbn. by destruct (DelayedMutations cfg && _). }
  assert (Hall : forall t, t ∈ q' -> fired cfg t).
  { intros t [Hin|(s & Hin & ->)]%H3; [by apply Hq|by apply Hm]. }
  split; [by apply Forall_forall|]. intros s Hin. pose proof (H2 s Hin) as (t & He & Ht)%list_elem_of_fmap.
  exists t. split; [done|]. destruct (Hall t Ht) as (now' & loop' & s' & Hd1 & Hd2 & Et).
  destruct (Hm s Hin) as (_ & _ & _ & _ & Hd4 & _). destruct (Hs s Hin) as [Hd5 _].
  rewrite Et in He, Hd2 |- *. pose proof He as He2. unfold makeTask in He2. cbn [Name] in He2. cbn in Hd2, Hd4.
  apply task_name_inj in He2 as (E1 & E2 & E3 & E4); [|done..]. unfold stands_for. cbn [t_ns t_time t_shard t_loop makeTask].
  destruct (decide (t_ns t = ns)) as [En|En].
  - left. unfold makeTask. by rewrite E1, E2, E3, En.
  - right. split; [done|]. split; [done|]. split; [by rewrite <-He|]. unfold makeTask; cbn. by rewrite E1.
Qed.

(** * Delays *)
Fixpoint idle_delay (cfg : Config) (k : nat) : Z :=
  match k with O => prd_reset cfg | S k => (prd_next cfg (idle_delay cfg k) false).2 end.

(** Rounds without work wait exponentially longer, between a second and the
    maximum, and nothing overflows. *)
Lemma prd_sequence cfg k : 0 <= DustSettleTimeout cfg -> 0 < MaxNoWorkDelay cfg ->
  MaxNoWorkDelay cfg * Z.max 1 (NoWorkDelayGrowth cfg) < 2 ^ 63 ->
  (prd_next cfg (idle_delay cfg k) false).1 =
    Z.max minNoWorkDelay (Z.min (MaxNoWorkDelay cfg) (DustSettleTimeout cfg * Z.max 1 (NoWorkDelayGrowth cfg) ^ Z.of_nat k)).
Proof.
  intros Hd Hm Hg. set (g := Z.max 1 (NoWorkDelayGrowth cfg)) in *. set (m := MaxNoWorkDelay cfg) in *. set (d := DustSettleTimeout cfg) in *.
  assert (Hnext : forall nd, 0 <= nd -> prd_next cfg nd false = (Z.max minNoWorkDelay (Z.min m nd), if m <? nd then m else nd * g)).
  { intros nd Hnd. unfold prd_next. cbv zeta. fold m. destruct (Z.ltb_spec 0 m); [|lia]. cbn [andb].
    assert (Hmin : forall x, (if x <? minNoWorkDelay then minNoWorkDelay else x) = Z.max minNoWorkDelay x) by (intros; destruct (Z.ltb_spec x minNoWorkDelay); lia).
    destruct (Z.ltb_spec m nd); rewrite Hmin; f_equal; [lia|lia|].
    destruct (Z.ltb_spec 1 (NoWorkDelayGrowth cfg)) as [Hl|Hl].
    - replace (NoWorkDelayGrowth cfg) with g by lia. apply i64_small. unfold in_i64. nia.
    - replace g with 1 by lia. lia. }
  assert (Hinv : 0 <= idle_delay cfg k /\ Z.min m (idle_delay cfg k) = Z.min m (d * g ^ Z.of_nat k)).
  { induction k as [|k [IH1 IH2]].
    - cbn [idle_delay]. unfold prd_reset. fold d. cbn. rewrite Z.mul_1_r. by split.
    - cbn [idle_delay]. rewrite Hnext by done. cbn [snd].
      set (x := idle_delay cfg k) in *. rewrite Nat2Z.inj_succ, Z.pow_succ_r by lia.
      assert (0 <= g ^ Z.of_nat k) by (apply Z.pow_nonneg; lia).
      assert (0 <= d * g ^ Z.of_nat k) by nia. replace (d * (g * g ^ Z.of_nat k)) with (d * g ^ Z.of_nat k * g) by lia.
      set (y := d * g ^ Z.of_nat k) in *. destruct (Z.ltb_spec m x); split; [lia|nia|nia|].
      destruct (decide (x = m)); [nia|]. replace y with x by lia. done. }
  rewrite Hnext by apply Hinv. cbn [fst]. by rewrite (proj2 Hinv).
Qed.
