(* ===== verification/TumbleJournal.v ===== *)
(** tumble: the journal (tumble/model_mutation.go, tumble.go, process.go,
    add_to_journal.go).  The datastore with the journal of mutations, the
    transactions that add to it, and the processing of a root. *)
From S2P Require Import Prelude LogEntry Tumble.
Local Open Scope Z_scope.

(** * What tumble runs on

    Keys of entities: the root of a key, and whether one is above another.  A
    key is above itself. *)
Class DSKeys := {
  Key : Type;
  #[global] Key_eq_dec :: EqDecision Key;
  #[global] Key_countable :: Countable Key;
  key_root : Key -> Key;
  HasAncestor : Key -> Key -> bool;
}.
Class DSKeysLaws `{DSKeys} := {
  key_root_root k : key_root (key_root k) = key_root k;
  HasAncestor_root k r : key_root r = r -> HasAncestor k r = bool_decide (key_root k = r);
}.

(** The key of a mutation: its parent and its name. *)
Notation MKey := (Key * bytes)%type.

(** The application: its entities, its mutations with their interface
    ([Mutation], [DelayedMutation]), and how they are stored: [encoding/gob],
    the registry of types, SHA-1 of a key. *)
Class TumbleApp `{DSKeys} := {
  A : Type; M : Type; Env : Type;
  Root : M -> option Key;
  Delayed : M -> option (Z * bool);
  TypeName : M -> string;
  registry : list string;
  gob_encode : M -> option bytes;
  gob_decode : string -> bytes -> option M;
  root_hash : Key -> Z;
  RollForward : Env -> M -> A -> gmap MKey M ->
    outcome (result unit (list M * A * list (MKey * option M)));
}.
Class TumbleAppLaws `{TumbleApp} := {
  gob_roundtrip m b : gob_encode m = Some b -> gob_decode (TypeName m) b = Some m;
  root_hash_64 k : in_i64 (root_hash k);
}.

Section Journal.
Context {DK : DSKeys} {TA : TumbleApp}.

(** * Mutations in the datastore (model_mutation.go) *)
Record realMutation := {
  ExpandedShard : Z; ProcessAfter : Z; TargetRoot : Key; Version : string; Type_ : string; Data : bytes
}.

Definition shard (cfg : Config) (r : realMutation) : outcome taskShard :=
  s ← shard_of cfg (ExpandedShard r); Ret {| ts_shard := s; ts_time := mkTimestamp cfg (ProcessAfter r) |}.

(** [getAppVersion] is [version].  A mutation without a root is a nil pointer. *)
Definition newRealMutation (cfg : Config) (version : string) (m : M) (now : Z) : outcome (result unit realMutation) :=
  let when :=
    if DelayedMutations cfg then
      match Delayed m with
      | Some (targetTime, HighPriority) => if HighPriority || (now <? targetTime) then targetTime else now
      | None => now
      end
    else now in
  if bool_decide (TypeName m ∈ registry) then
    match gob_encode m with
    | None => Ret (Err tt)
    | Some data =>
        match Root m with
        | None => Panic
        | Some k =>
            let root := key_root k in
            Ret (Ok {| ExpandedShard := root_hash root; ProcessAfter := when; TargetRoot := root;
                       Version := version; Type_ := TypeName m; Data := data |})
        end
    end
  else Ret (Err tt).

Definition GetMutation (r : realMutation) : option M :=
  if bool_decide (Type_ r ∈ registry) then gob_decode (Type_ r) (Data r) else None.

(** The datastore: the application's entities, the mutations, and the versions
    of the entity groups ([__entity_group__]). *)
Record Datastore := { app : A; journal : gmap MKey realMutation; versions : gmap Key Z }.
Definition set_journal (d : Datastore) (j : gmap MKey realMutation) : Datastore :=
  {| app := app d; journal := j; versions := versions d |}.
Definition set_app (d : Datastore) (a : A) : Datastore :=
  {| app := a; journal := journal d; versions := versions d |}.

Definition GetEntityGroupVersion (d : Datastore) (k : Key) : Z := default 0 (versions d !! key_root k).

(** A committed transaction makes its group's version larger. *)
Definition bump (d : Datastore) (k : Key) : Datastore :=
  {| app := app d; journal := journal d; versions := <[key_root k := GetEntityGroupVersion d k + 1]> (versions d) |}.

(** [putMutations]: the mutations of one transaction, from the [i]th on.  [put_fails]
    is an error of the datastore.  All of them are put at once, at the end. *)
Fixpoint make_mutations (cfg : Config) (ver : string) (fromRoot : Key) (v round now : Z) (i : Z) (muts : list M)
  : outcome (result unit (list taskShard * list (MKey * realMutation))) :=
  match muts with
  | [] => Ret (Ok ([], []))
  | m :: muts =>
      r ← newRealMutation cfg ver m now;
      match r with
      | Err e => Ret (Err e)
      | Ok r =>
          s ← shard cfg r;
          rest ← make_mutations cfg ver fromRoot v round now (i + 1) muts;
          match rest with
          | Err e => Ret (Err e)
          | Ok (ss, rs) => Ret (Ok (s :: ss, ((fromRoot, mutation_id v round i), r) :: rs))
          end
      end
  end.
Definition put_all (j : gmap MKey realMutation) (rs : list (MKey * realMutation)) : gmap MKey realMutation :=
  fold_left (fun j kr => <[kr.1 := kr.2]> j) rs j.

Definition putMutations (cfg : Config) (ver : string) (now : Z) (put_fails : bool) (fromRoot : Key) (muts : list M) (round : Z)
    (d : Datastore) : outcome (result unit (list taskShard * list MKey * Datastore)) :=
  if bool_decide (muts = []) then Ret (Ok ([], [], d))
  else
    r ← make_mutations cfg ver fromRoot (GetEntityGroupVersion d fromRoot) round now 0 muts;
    match r with
    | Err e => Ret (Err e)
    | Ok (ss, rs) =>
        if put_fails then Ret (Err tt) else Ret (Ok (ss, map fst rs, set_journal d (put_all (journal d) rs)))
    end.

(** * Named mutations (tumble.go)

    Within a transaction: [Some m] puts, [None] cancels. *)
Definition named_op (cfg : Config) (ver : string) (now : Z) (d : Datastore) (op : MKey * option M) : outcome (result unit Datastore) :=
  let '((parent, name), om) := op in
  match om with
  | None => Ret (Ok (set_journal d (delete (parent, named_id name) (journal d))))
  | Some m =>
      r ← newRealMutation cfg ver m now;
      match r with
      | Err e => Ret (Err e)
      | Ok r => _ ← shard cfg r; Ret (Ok (set_journal d (<[(parent, named_id name) := r]> (journal d))))
      end
  end.
Fixpoint named_ops (cfg : Config) (ver : string) (now : Z) (d : Datastore) (ops : list (MKey * option M)) : outcome (result unit Datastore) :=
  match ops with
  | [] => Ret (Ok d)
  | op :: ops =>
      r ← named_op cfg ver now d op;
      match r with Err e => Ret (Err e) | Ok d => named_ops cfg ver now d ops end
  end.

(** The named mutations there are, by parent and name. *)
Definition named_entry (kr : MKey * realMutation) : option (MKey * M) :=
  if is_named kr.1.2 then m ← GetMutation kr.2; Some ((kr.1.1, drop 2 kr.1.2), m) else None.
Definition named_view (j : gmap MKey realMutation) : gmap MKey M := list_to_map (omap named_entry (map_to_list j)).

(** * Transactions (enterTransactionInternal)

    [fn] reads and writes the application's entities and the named mutations and
    returns the mutations to journal.  An error leaves everything as it was. *)
Definition TxnFn : Type := A -> gmap MKey M -> outcome (result unit (list M * A * list (MKey * option M))).
Definition enterTransactionInternal (cfg : Config) (ver : string) (now : Z) (put_fails : bool) (root : option Key) (fn : TxnFn)
    (round : Z) (d : Datastore) : outcome (result unit (list taskShard * list M * list MKey * Datastore)) :=
  match root with
  | None => Ret (Err tt)
  | Some root =>
      r ← fn (app d) (named_view (journal d));
      match r with
      | Err e => Ret (Err e)
      | Ok (muts, a, ops) =>
          r ← named_ops cfg ver now (set_app d a) ops;
          match r with
          | Err e => Ret (Err e)
          | Ok d =>
              r ← putMutations cfg ver now put_fails root muts round d;
              match r with
              | Err e => Ret (Err e)
              | Ok (ss, ks, d) => Ret (Ok (ss, muts, ks, d))
              end
          end
      end
  end.

(** [RunMutation] and [RunUnbuffered]: the transaction, which commits.  The
    shards it returns have their tasks fired afterwards. *)
Definition RunUnbuffered (cfg : Config) (ver : string) (now : Z) (put_fails : bool) (root : option Key) (fn : TxnFn) (d : Datastore)
  : outcome (result unit (list taskShard * Datastore)) :=
  r ← enterTransactionInternal cfg ver now put_fails root fn 0 d;
  match r, root with
  | Ok (ss, _, _, d), Some root => Ret (Ok (ss, bump d root))
  | _, _ => Ret (Err tt)
  end.
Definition RunMutation (cfg : Config) (ver : string) (now : Z) (put_fails : bool) (e : Env) (m : M) (d : Datastore)
  : outcome (result unit (list taskShard * Datastore)) :=
  RunUnbuffered cfg ver now put_fails (Root m) (RollForward e m) d.

(** [AddToJournal]: [temp] is the key made of the hash of the roots. *)
Definition AddToJournal (cfg : Config) (ver : string) (now : Z) (put_fails : bool) (temp : Key) (muts : list M) (d : Datastore)
  : outcome (result unit (list taskShard * Datastore)) :=
  match muts with
  | [] => Ret (Ok ([], d))
  | _ => RunUnbuffered cfg ver now put_fails (Some temp) (fun a _ => Ret (Ok (muts, a, []))) d
  end.

(** * Processing a root (process.go)

    [getBatchByRoot] over the answer of its query.  The slice that is made for
    [ProcessMaxBatchSize] mutations is full when it holds that many. *)
Fixpoint batch_loop (size : nat) (banSet : gset MKey) (ks : list MKey) (toFetch : list MKey) : list MKey :=
  match ks with
  | [] => toFetch
  | k :: ks =>
      let toFetch := if bool_decide (k ∈ banSet) then toFetch else toFetch ++ [k] in
      if (length toFetch <? size)%nat then batch_loop size banSet ks toFetch else toFetch
  end.
Definition getBatchByRoot (cfg : Config) (banSet : gset MKey) (answer : list MKey) : list MKey :=
  batch_loop (Z.to_nat (Z.max 0 (ProcessMaxBatchSize cfg))) banSet answer [].

(** [loadFilteredMutations]: the ones that are gone, and those that can not be
    decoded, are left out.  [get_fails] is any other error of a key. *)
Fixpoint loadFilteredMutations (get_fails : MKey -> bool) (j : gmap MKey realMutation) (ks : list MKey) : result unit (list (MKey * M)) :=
  match ks with
  | [] => Ok []
  | k :: ks =>
      if get_fails k then Err tt
      else
        match loadFilteredMutations get_fails j ks with
        | Err e => Err e
        | Ok l => match j !! k ≫= GetMutation with Some m => Ok ((k, m) :: l) | None => Ok l end
        end
  end.

(** What the transaction of [processRoot] meets: the time, what each run sees, and
    failing writes. *)
Record TxnEnv := { e_now : Z; e_run : nat -> Env; e_put_fails : nat -> bool; e_del_fails : MKey -> bool }.

(** Its variables; [cnt] counts from where the counter was. *)
Record RootState := {
  rs_d : Datastore; toDel : list MKey; allShards : list taskShard; cnt : Z; numMuts : Z; deletedMuts : Z; processedMuts : Z
}.

(** Whether a mutation that was just made is run in the same transaction. *)
Definition runs_now (cfg : Config) (now : Z) (root : Key) (nm : M) : outcome bool :=
  match Root nm with
  | None => Panic
  | Some k =>
      Ret (HasAncestor k root &&
           (negb (DelayedMutations cfg) ||
            match Delayed nm with None => true | Some (after, _) => after <? now end))
  end.
Fixpoint tail_calls (cfg : Config) (now : Z) (root : Key) (nms : list (MKey * M)) : outcome (list (MKey * M)) :=
  match nms with
  | [] => Ret []
  | (k, nm) :: nms =>
      b ← runs_now cfg now root nm;
      l ← tail_calls cfg now root nms;
      Ret (if b : bool then (k, nm) :: l else l)
  end.

(** One turn of the loop: the mutations to append, and the state. *)
Definition process_one (cfg : Config) (ver : string) (e : TxnEnv) (root : Key) (i : nat) (k : MKey) (m : M) (st : RootState)
  : outcome (list (MKey * M) * RootState) :=
  r ← enterTransactionInternal cfg ver (e_now e) (e_put_fails e i) (Some root) (RollForward (e_run e i) m) (Z.of_nat i) (rs_d st);
  match r with
  | Err _ => Ret ([], st)
  | Ok (shards, newMuts, newMutKeys, d) =>
      tails ← tail_calls cfg (e_now e) root (zip newMutKeys newMuts);
      let now_deleted := HasAncestor k.1 root && negb (e_del_fails e k) in
      Ret (tails, {|
        rs_d := if now_deleted then set_journal d (delete k (journal d)) else d;
        toDel := if now_deleted then toDel st else toDel st ++ [k];
        allShards := allShards st ++ shards;
        cnt := if HasAncestor k.1 root && e_del_fails e k then cnt st + Z.of_nat (length (toDel st)) else cnt st;
        numMuts := numMuts st + Z.of_nat (length newMuts);
        deletedMuts := if now_deleted then deletedMuts st + 1 else deletedMuts st;
        processedMuts := processedMuts st + 1 |})
  end.

(** The loop.  A mutation may keep making mutations for its root, so nothing bounds
    it: running out of fuel is [None]. *)
Fixpoint process_loop (fuel : nat) (cfg : Config) (ver : string) (e : TxnEnv) (root : Key) (i : nat) (todo : list (MKey * M)) (st : RootState)
  : option (outcome RootState) :=
  match todo with
  | [] => Some (Ret st)
  | (k, m) :: todo =>
      match fuel with
      | O => None
      | S fuel =>
          match process_one cfg ver e root i k m st with
          | Panic => Some Panic
          | Ret (tails, st) => process_loop fuel cfg ver e root (S i) (todo ++ tails) st
          end
      end
  end.

Definition start_root (d : Datastore) (c : Z) : RootState :=
  {| rs_d := d; toDel := []; allShards := []; cnt := c; numMuts := 0; deletedMuts := 0; processedMuts := 0 |}.

(** The transaction, which commits. *)
Definition root_txn (fuel : nat) (cfg : Config) (ver : string) (e : TxnEnv) (root : Key) (muts : list (MKey * M)) (c : Z) (d : Datastore)
  : option (outcome RootState) :=
  r ← process_loop fuel cfg ver e root 0 muts (start_root d c);
  Some (st ← r;
        Ret {| rs_d := bump (rs_d st) root; toDel := toDel st; allShards := allShards st; cnt := cnt st;
               numMuts := numMuts st; deletedMuts := deletedMuts st; processedMuts := processedMuts st |}).

(** What is left to delete after the transaction. *)
Definition delete_all (d : Datastore) (ks : list MKey) : Datastore := set_journal d (fold_left (fun j k => delete k j) ks (journal d)).

(** [processRoot] when nothing comes in between: the answer of the query, the failing
    reads, whether the lock is lost, the transaction ([None] when it fails to
    commit), whether the last deletion fails. *)
Record RootEnv := { answer : list MKey; get_fails : MKey -> bool; lost_lock : bool; txn_env : option TxnEnv; last_delete_fails : bool }.
Definition processRoot (fuel : nat) (cfg : Config) (ver : string) (re : RootEnv) (root : Key) (banSet : gset MKey) (c : Z) (d : Datastore)
  : option (outcome (result unit (gset MKey * Z * list taskShard * Datastore))) :=
  let toFetch := getBatchByRoot cfg banSet (answer re) in
  if bool_decide (toFetch = []) then Some (Ret (Ok (banSet, c, [], d)))
  else
    match loadFilteredMutations (get_fails re) (journal d) toFetch with
    | Err e => Some (Ret (Err e))
    | Ok muts =>
        if lost_lock re then Some (Ret (Ok (banSet, c, [], d)))
        else
          match txn_env re with
          | None => Some (Ret (Err tt))
          | Some e =>
              r ← root_txn fuel cfg ver e root muts c d;
              Some (st ← r;
                    if bool_decide (toDel st = []) then Ret (Ok (banSet, cnt st, allShards st, rs_d st))
                    else Ret (Ok (banSet ∪ list_to_set (toDel st), cnt st + Z.of_nat (length (toDel st)), allShards st,
                                  if last_delete_fails re then rs_d st else delete_all (rs_d st) (toDel st))))
          end
    end.
End Journal.
