(* ===== verification/TumbleViews.v ===== *)
(** tumble: what the journal means.  The named mutations there are, the anonymous
    ones that are still to be run, and how the operations of TumbleJournal change
    them. *)
From stdpp Require Import fin_maps.
From S2P Require Import Prelude Tumble TumbleJournal.
Local Open Scope Z_scope.

Section Views.
Context {DK : DSKeys} {TA : TumbleApp} {TL : TumbleAppLaws}.
Implicit Types (j : gmap MKey realMutation) (done : gset MKey).

Definition unname (k : MKey) : MKey := (k.1, drop 2 k.2).
Definition rename (k : MKey) : MKey := (k.1, named_id k.2).

Lemma is_named_spec id : is_named id = true -> id = named_id (drop 2 id).
Proof.
  intros H%bool_decide_eq_true. unfold named_id. by rewrite <-H, take_drop.
Qed.
Lemma rename_unname k : is_named k.2 = true -> rename (unname k) = k.
Proof. destruct k as [p id]. intros H%is_named_spec. unfold rename, unname. cbn in *. by rewrite <-H. Qed.
Lemma unname_rename k : unname (rename k) = k.
Proof. by destruct k. Qed.

Lemma named_view_lookup j k : named_view j !! k = j !! rename k ≫= GetMutation.
Proof.
  unfold named_view. set (l := omap named_entry (map_to_list j)).
  assert (Hin : forall k m, (k, m) ∈ l <-> (j !! rename k ≫= GetMutation) = Some m).
  { intros k' m. unfold l. rewrite list_elem_of_omap. split.
    - intros ([x r] & Hx%elem_of_map_to_list & He). unfold named_entry in He. cbn in He.
      destruct (is_named x.2) eqn:Hn; [|done]. destruct (GetMutation r) eqn:Hg; [|done]. cbn in He. injection He as <- <-.
      change (x.1, drop 2 x.2) with (unname x). rewrite rename_unname, Hx by done. done.
    - intros Hb. destruct (j !! rename k') as [r|] eqn:Hj; [|done]. exists (rename k', r).
      split; [by apply elem_of_map_to_list|]. unfold named_entry. cbn. cbn in Hb. rewrite Hb. by destruct k'. }
  assert (Hnd : NoDup l.*1).
  { unfold l. pose proof (NoDup_fst_map_to_list j) as Hnd. revert Hnd. generalize (map_to_list j). clear.
    induction l as [|[x r] l IH]; cbn; [constructor|]. intros [Hx Hl]%NoDup_cons. unfold named_entry at 1. cbn.
    destruct (is_named x.2) eqn:Hn; [|by apply IH]. destruct (GetMutation r); [|by apply IH]. cbn. constructor; [|by apply IH].
    intros ([k1 m1] & Hk & (y & Hy & He)%list_elem_of_omap)%list_elem_of_fmap. apply Hx.
    destruct y as [y r']. unfold named_entry in He. cbn in He. destruct (is_named y.2) eqn:Hny; [|done].
    destruct (GetMutation r'); [|done]. cbn in He. injection He as <- <-. cbn in Hk.
    apply list_elem_of_fmap. exists (y, r'). split; [|done]. cbn.
    rewrite <-(rename_unname x), <-(rename_unname y) by done. unfold unname. by rewrite Hk. }
  destruct (j !! rename k ≫= GetMutation) as [m0|] eqn:E.
  - apply elem_of_list_to_map_1; [done|]. by apply Hin.
  - destruct (list_to_map l !! k) as [m'|] eqn:E'; [|done]. apply elem_of_list_to_map_2, Hin in E'. congruence.
Qed.

Lemma named_view_put j k r m : GetMutation r = Some m -> named_view (<[rename k := r]> j) = <[k := m]> (named_view j).
Proof.
  intros Hg. apply map_eq. intros k'. rewrite named_view_lookup. destruct (decide (k' = k)) as [->|Hne].
  - by rewrite !lookup_insert_eq.
  - rewrite !lookup_insert_ne, named_view_lookup; [done|done|]. intros He. apply Hne. by rewrite <-(unname_rename k), He, unname_rename.
Qed.
Lemma named_view_cancel j k : named_view (delete (rename k) j) = delete k (named_view j).
Proof.
  apply map_eq. intros k'. rewrite named_view_lookup. destruct (decide (k' = k)) as [->|Hne].
  - by rewrite !lookup_delete_eq.
  - rewrite !lookup_delete_ne, named_view_lookup; [done|done|]. intros He. apply Hne. by rewrite <-(unname_rename k), He, unname_rename.
Qed.
Lemma named_view_ext j j' : (forall k, is_named k.2 = true -> j !! k = j' !! k) -> named_view j = named_view j'.
Proof. intros Hj. apply map_eq. intros k. by rewrite !named_view_lookup, Hj. Qed.

(** * What is still to be run

    [done] are the anonymous mutations whose run has been committed: they may
    still be in the journal until they are deleted. *)
Definition live j done : gmap MKey realMutation := filter (fun kr => is_named kr.1.2 = false /\ kr.1 ∉ done) j.
Definition to_run j done : list M := omap (fun kr => GetMutation kr.2) (map_to_list (live j done)).

Lemma live_lookup j done k r : live j done !! k = Some r <-> j !! k = Some r /\ is_named k.2 = false /\ k ∉ done.
Proof. unfold live. rewrite map_lookup_filter_Some. done. Qed.
Lemma live_ext j j' done done' :
  (forall k r, is_named k.2 = false -> j !! k = Some r /\ k ∉ done <-> j' !! k = Some r /\ k ∉ done') -> live j done = live j' done'.
Proof.
  intros Hj. apply map_eq. intros k. apply option_eq. intros r. rewrite !live_lookup. specialize (Hj k r). naive_solver.
Qed.
Lemma to_run_ext j j' done done' :
  (forall k r, is_named k.2 = false -> j !! k = Some r /\ k ∉ done <-> j' !! k = Some r /\ k ∉ done') -> to_run j done = to_run j' done'.
Proof. intros Hj. unfold to_run. by rewrite (live_ext j j' done done'). Qed.

(** A new mutation. *)
Lemma to_run_put j done k r m : is_named k.2 = false -> k ∉ done -> j !! k = None -> GetMutation r = Some m ->
  to_run (<[k := r]> j) done ≡ₚ m :: to_run j done.
Proof.
  intros Hn Hd Hj Hg. unfold to_run.
  assert (live (<[k := r]> j) done = <[k := r]> (live j done)) as ->.
  { apply map_filter_insert_True. by split. }
  assert (live j done !! k = None) as Hl.
  { destruct (live j done !! k) as [r'|] eqn:E; [|done]. apply live_lookup in E as [E _]. congruence. }
  rewrite map_to_list_insert by done. cbn. by rewrite Hg.
Qed.

(** A mutation that has been run. *)
Lemma to_run_done j done k r m : is_named k.2 = false -> k ∉ done -> j !! k = Some r -> GetMutation r = Some m ->
  to_run j done ≡ₚ m :: to_run j ({[k]} ∪ done).
Proof.
  intros Hn Hd Hj Hg. unfold to_run.
  assert (Hl : live j done !! k = Some r) by by apply live_lookup.
  assert (live j ({[k]} ∪ done) = delete k (live j done)) as ->.
  { apply map_eq. intros k'. apply option_eq. intros r'. rewrite lookup_delete_Some, !live_lookup. set_solver. }
  rewrite <-(map_to_list_delete (live j done) k r) by done. cbn. by rewrite Hg.
Qed.

(** * The operations *)
Lemma newRealMutation_get cfg ver m now r : newRealMutation cfg ver m now = Ret (Ok r) ->
  GetMutation r = Some m /\ exists k, Root m = Some k /\ TargetRoot r = key_root k /\ ExpandedShard r = root_hash (key_root k).
Proof.
  unfold newRealMutation, GetMutation. intros Hr. destruct (bool_decide_reflect (TypeName m ∈ registry)) as [Hreg|]; [|done].
  destruct (gob_encode m) as [b|] eqn:Hb; [|done]. destruct (Root m) as [k|] eqn:Hk; [|done]. injection Hr as <-. cbn.
  rewrite bool_decide_true by done. split; [by apply gob_roundtrip|]. by exists k.
Qed.

(** A mutation that was put: its key, and what it decodes to. *)
Record put_ok (fromRoot : Key) (v round : Z) (kr : MKey * realMutation) (m : M) : Prop := {
  po_key : exists i, 0 <= i /\ kr.1 = (fromRoot, mutation_id v round i);
  po_get : GetMutation kr.2 = Some m;
  po_root : exists k, Root m = Some k /\ TargetRoot kr.2 = key_root k /\ ExpandedShard kr.2 = root_hash (key_root k);
}.

Lemma make_mutations_spec cfg ver fromRoot v round now muts : forall i ss rs, 0 <= v -> 0 <= round -> 0 <= i ->
  make_mutations cfg ver fromRoot v round now i muts = Ret (Ok (ss, rs)) ->
  Forall2 (put_ok fromRoot v round) rs muts /\ NoDup rs.*1 /\
  (forall k, k ∈ rs.*1 -> exists i', i <= i' /\ k = (fromRoot, mutation_id v round i')) /\
  Forall2 (fun s kr => shard cfg kr.2 = Ret s) ss rs.
Proof.
  induction muts as [|m muts IH]; intros i ss rs Hv Hr Hi; cbn [make_mutations].
  - intros [= <- <-]. split; [constructor|]. split; [constructor|]. split; [by intros k Hk%elem_of_nil|constructor].
  - destruct (newRealMutation cfg ver m now) as [[r|e]|] eqn:Hn; cbn; [|done|done].
    destruct (shard cfg r) as [s|] eqn:Hs; cbn; [|done].
    destruct (make_mutations cfg ver fromRoot v round now (i + 1) muts) as [[[ss' rs']|e]|] eqn:Hm; cbn; [|done|done].
    intros [= <- <-]. destruct (IH (i + 1) ss' rs' ltac:(done) ltac:(done) ltac:(lia) Hm) as (H1 & H2 & H3 & H4).
    apply newRealMutation_get in Hn as [Hg Hrt]. split; [|split; [|split]].
    + constructor; [|done]. split; cbn; [|done|done]. by exists i.
    + cbn. constructor; [|done]. intros (i' & Hi' & He)%H3. injection He as He. apply mutation_id_inj in He; lia.
    + cbn. intros k [->|(i' & Hi' & ->)%H3]%elem_of_cons; [by exists i|]. exists i'. split; [lia|done].
    + by constructor.
Qed.

Lemma put_all_lookup rs : forall j k, NoDup rs.*1 ->
  put_all j rs !! k = match (list_to_map rs : gmap MKey realMutation) !! k with Some r => Some r | None => j !! k end.
Proof.
  unfold put_all. induction rs as [|[k0 r0] rs IH]; intros j k Hnd; [done|]. cbn in *. apply NoDup_cons in Hnd as [Hk Hnd].
  rewrite IH by done. destruct (decide (k = k0)) as [->|Hne].
  - rewrite (not_elem_of_list_to_map_1 rs k0) by done. by rewrite !lookup_insert_eq.
  - by rewrite !lookup_insert_ne.
Qed.
Lemma putMutations_spec cfg ver now pf fromRoot muts round d ss ks d' :
  0 <= GetEntityGroupVersion d fromRoot -> 0 <= round ->
  putMutations cfg ver now pf fromRoot muts round d = Ret (Ok (ss, ks, d')) -> exists rs,
    Forall2 (put_ok fromRoot (GetEntityGroupVersion d fromRoot) round) rs muts /\ NoDup rs.*1 /\ ks = rs.*1 /\
    d' = set_journal d (put_all (journal d) rs) /\ Forall2 (fun s kr => shard cfg kr.2 = Ret s) ss rs.
Proof.
  intros Hv Hr. unfold putMutations. destruct (bool_decide_reflect (muts = [])) as [->|].
  - intros [= <- <- <-]. exists []. repeat split; try constructor. by destruct d.
  - destruct (make_mutations _ _ _ _ _ _ _ _) as [[[ss' rs]|e]|] eqn:Hm; cbn; [|done|done]. destruct pf; [done|].
    intros [= <- <- <-]. apply make_mutations_spec in Hm as (H1 & H2 & _ & H4); [|lia..]. by exists rs.
Qed.

(** Putting anonymous mutations under new keys. *)
Lemma put_all_views done rs : forall j muts,
  (forall k, k ∈ rs.*1 -> is_named k.2 = false /\ k ∉ done /\ j !! k = None) ->
  Forall2 (fun kr m => GetMutation kr.2 = Some m) rs muts -> NoDup rs.*1 ->
  to_run (put_all j rs) done ≡ₚ muts ++ to_run j done /\ named_view (put_all j rs) = named_view j.
Proof.
  unfold put_all. induction rs as [|[k r] rs IH]; intros j muts Hfresh Hall Hnd.
  - apply Forall2_nil_inv_l in Hall. by subst.
  - apply Forall2_cons_inv_l in Hall as (m & muts' & Hg & Hall & ->). cbn in Hg, Hnd, Hfresh.
    apply NoDup_cons in Hnd as [Hk Hnd]. cbn [fold_left].
    destruct (Hfresh k ltac:(set_solver)) as (Hn & Hd & Hj).
    destruct (IH (<[k := r]> j) muts') as [IH1 IH2]; [|done|done|].
    + intros k' Hk'. destruct (Hfresh k' ltac:(set_solver)) as (A1 & A2 & A3). repeat split; try done.
      rewrite lookup_insert_ne; [done|]. by intros <-.
    + split.
      * rewrite IH1. cbn. rewrite to_run_put by done. by rewrite Permutation_middle.
      * cbn. rewrite IH2. apply named_view_ext. intros k' Hk'. rewrite lookup_insert_ne; [done|]. intros <-. congruence.
Qed.

(** Named operations. *)
Definition view_op (v : gmap MKey M) (op : MKey * option M) : gmap MKey M :=
  match op.2 with Some m => <[op.1 := m]> v | None => delete op.1 v end.

Lemma rename_named k : is_named (rename k).2 = true.
Proof. apply named_id_named. Qed.

Lemma named_op_spec cfg ver now d op d' : named_op cfg ver now d op = Ret (Ok d') ->
  app d' = app d /\ versions d' = versions d /\ named_view (journal d') = view_op (named_view (journal d)) op /\
  (forall k, is_named k.2 = false -> journal d' !! k = journal d !! k) /\
  forall k r, journal d' !! k = Some r -> journal d !! k = Some r \/
    exists m x, op = (unname k, Some m) /\ is_named k.2 = true /\ GetMutation r = Some m /\ Root m = Some x /\ TargetRoot r = key_root x.
Proof.
  assert (Hother : forall k0 k : MKey, is_named k.2 = false -> rename k0 <> k).
  { intros k0 k Hk <-. by rewrite rename_named in Hk. }
  unfold named_op. destruct op as [[parent name] [m|]].
  - destruct (newRealMutation cfg ver m now) as [[r|e]|] eqn:Hn; cbn; [|done|done].
    destruct (shard cfg r) as [s|] eqn:Hs; cbn; [|done]. intros [= <-]. cbn. apply newRealMutation_get in Hn as (Hg & x & Hx & Ht & _).
    change (parent, named_id name) with (rename (parent, name)).
    split; [done|]. split; [done|]. split; [by apply named_view_put|]. split.
    + intros k Hk. rewrite lookup_insert_ne; [done|]. by apply Hother.
    + intros k r' [[<- <-]|[_ Hk]]%lookup_insert_Some; [|by left]. right. exists m, x. by rewrite unname_rename.
  - intros [= <-]. cbn. change (parent, named_id name) with (rename (parent, name)).
    split; [done|]. split; [done|]. split; [apply named_view_cancel|]. split.
    + intros k Hk. rewrite lookup_delete_ne; [done|]. by apply Hother.
    + intros k r [_ Hk]%lookup_delete_Some. by left.
Qed.
Lemma named_ops_spec cfg ver now ops : forall d d', named_ops cfg ver now d ops = Ret (Ok d') ->
  app d' = app d /\ versions d' = versions d /\ named_view (journal d') = fold_left view_op ops (named_view (journal d)) /\
  (forall k, is_named k.2 = false -> journal d' !! k = journal d !! k) /\
  forall k r, journal d' !! k = Some r -> journal d !! k = Some r \/
    exists m x, (unname k, Some m) ∈ ops /\ is_named k.2 = true /\ GetMutation r = Some m /\ Root m = Some x /\ TargetRoot r = key_root x.
Proof.
  induction ops as [|op ops IH]; intros d d'; cbn [named_ops].
  - intros [= <-]. repeat split. by left.
  - destruct (named_op cfg ver now d op) as [[d1|e]|] eqn:Ho; cbn; [|done|done]. intros H.
    apply named_op_spec in Ho as (A1 & A2 & A3 & A4 & A5). apply IH in H as (B1 & B2 & B3 & B4 & B5).
    split; [congruence|]. split; [congruence|]. split; [cbn; by rewrite B3, A3|]. split; [intros k Hk; by rewrite B4, A4|].
    intros k r [[H|(m & x & -> & Hr)]%A5|(m & x & Hin & Hr)]%B5; [by left|right; exists m, x; set_solver|right; exists m, x; set_solver].
Qed.
End Views.
