(* ===== verification/TumbleSystem.v ===== *)
(** tumble: the system.  Workers that process roots, calls of the application and
    failures, interleaved; and the journal machine it implements, in which a
    mutation is in the journal until it has been run. *)
From stdpp Require Import fin_maps.
From S2P Require Import Prelude Tumble TumbleJournal TumbleViews.
Local Open Scope Z_scope.

Section System.
Context {DK : DSKeys} {TA : TumbleApp}.
(** What a mutation may meet when it is run; the transactions of the application;
    the named mutations it puts and cancels outside of transactions; and whether
    deletions within a transaction always work. *)
Context (allowed : Env -> M -> A -> gmap MKey M -> Prop) (calls : TxnFn -> A -> gmap MKey M -> Prop) (client_op : MKey * option M -> Prop) (strict : bool).

(** * The journal machine

    [j_pending] are the anonymous mutations still to be run, [j_issued] all there
    ever were, [j_named] the named ones and [j_old] all of those there ever were; [j_ran]
    are the names of which a mutation was run but not deleted in its transaction. *)
Record JWorld := { j_app : A; j_named : gmap MKey M; j_pending : list M; j_issued : list M; j_old : list (MKey * M); j_ran : list MKey }.

Definition puts (ops : list (MKey * option M)) : list (MKey * M) := omap (fun op => m ← op.2; Some (op.1, m)) ops.
Definition j_commit (w : JWorld) (rest : list M) (muts : list M) (a : A) (ops : list (MKey * option M)) (gone : option MKey) : JWorld :=
  let named := fold_left view_op ops (j_named w) in
  {| j_app := a; j_named := match gone with Some k => delete k named | None => named end;
     j_pending := muts ++ rest; j_issued := muts ++ j_issued w; j_old := puts ops ++ j_old w; j_ran := j_ran w |}.
Definition j_set_named (w : JWorld) (v : gmap MKey M) (old : list (MKey * M)) : JWorld :=
  {| j_app := j_app w; j_named := v; j_pending := j_pending w; j_issued := j_issued w; j_old := old; j_ran := j_ran w |}.
Definition j_mark (k : MKey) (w : JWorld) : JWorld :=
  {| j_app := j_app w; j_named := j_named w; j_pending := j_pending w; j_issued := j_issued w; j_old := j_old w; j_ran := k :: j_ran w |}.

Definition runs (w : JWorld) (e : Env) (m : M) (muts : list M) (a : A) (ops : list (MKey * option M)) : Prop :=
  allowed e m (j_app w) (j_named w) /\ RollForward e m (j_app w) (j_named w) = Ret (Ok (muts, a, ops)).

(** A name whose mutation is not deleted in the transaction that runs it: the
    mutation is for another root than its parent's, or deletions may fail. *)
Definition loose (w : JWorld) (k : MKey) : Prop :=
  strict = false \/ exists m x, (k, m) ∈ j_old w /\ Root m = Some x /\ key_root x <> key_root k.1.

Inductive jstep (w : JWorld) : JWorld -> Prop :=
| j_call fn muts a ops (Hc : calls fn (j_app w) (j_named w)) (Hrun : fn (j_app w) (j_named w) = Ret (Ok (muts, a, ops)))
  : jstep w (j_commit w (j_pending w) muts a ops None)
| j_once e l1 m l2 muts a ops (Hp : j_pending w ≡ₚ l1 ++ m :: l2) (Hrun : runs w e m muts a ops)
  : jstep w (j_commit w (l1 ++ l2) muts a ops None)
| j_again e m muts a ops (Hi : m ∈ j_issued w) (Hrun : runs w e m muts a ops)
  : jstep w (j_commit w (j_pending w) muts a ops None)
| j_run_named e k m muts a ops (Ho : (k, m) ∈ j_old w) (Hrun : runs w e m muts a ops)
  : jstep w (j_commit w (j_pending w) muts a ops (Some k))
| j_keep_named e k m muts a ops (Ho : (k, m) ∈ j_old w) (Hl : loose w k) (Hrun : runs w e m muts a ops)
  : jstep w (j_mark k (j_commit w (j_pending w) muts a ops None))
| j_drop_named k (Hl : loose w k) (Hr : k ∈ j_ran w) : jstep w (j_set_named w (delete k (j_named w)) (j_old w))
| j_client op (Hc : client_op op) : jstep w (j_set_named w (view_op (j_named w) op) (puts [op] ++ j_old w)).

(** * The system

    A worker has fetched keys for a root, loaded their mutations, or committed
    its transaction and is left with keys to delete. *)
Inductive Stage := Fetched (ks : list MKey) | Loaded (muts : list (MKey * M)) | Committed (ks : list MKey).
Record Worker := { w_root : Key; w_stage : Stage }.

(** [y_seen]: the names there ever were in the journal, with the roots they were
    for, which is what a query that lags behind may answer. *)
Record Sys := { y_d : Datastore; y_workers : list Worker; y_seen : gset (MKey * Key) }.
Definition seen_of (j : gmap MKey realMutation) : gset (MKey * Key) :=
  list_to_set (map (fun kr => (kr.1, TargetRoot kr.2)) (map_to_list j)).
Definition y_set (y : Sys) (d : Datastore) (ws : list Worker) : Sys :=
  {| y_d := d; y_workers := ws; y_seen := y_seen y ∪ seen_of (journal d) |}.

(** What every run of the loop meets is allowed. *)
Fixpoint loop_allowed (fuel : nat) (cfg : Config) (ver : string) (e : TxnEnv) (root : Key) (i : nat) (todo : list (MKey * M)) (st : RootState) : Prop :=
  match todo, fuel with
  | (k, m) :: todo, S fuel =>
      allowed (e_run e i) m (app (rs_d st)) (named_view (journal (rs_d st))) /\
      match process_one cfg ver e root i k m st with
      | Ret (tails, st) => loop_allowed fuel cfg ver e root (S i) (todo ++ tails) st
      | Panic => True
      end
  | _, _ => True
  end.

Inductive sys_step (y : Sys) : Sys -> Prop :=
| s_call cfg ver now pf root fn ss d (Hc : calls fn (app (y_d y)) (named_view (journal (y_d y))))
    (Hrun : RunUnbuffered cfg ver now pf root fn (y_d y) = Ret (Ok (ss, d)))
  : sys_step y (y_set y d (y_workers y))
| s_client cfg ver now op d (Hc : client_op op) (Hrun : named_op cfg ver now (y_d y) op = Ret (Ok d))
  : sys_step y (y_set y d (y_workers y))
| s_versions v
    (* Other writes of the application. *)
    (Hv : forall k, GetEntityGroupVersion (y_d y) k <= default 0 (v !! key_root k))
  : sys_step y (y_set y {| app := app (y_d y); journal := journal (y_d y); versions := v |} (y_workers y))
| s_fetch cfg banSet root answer (Hr : key_root root = root) (Ha : forall k, k ∈ answer -> (k, root) ∈ y_seen y)
  : sys_step y (y_set y (y_d y) ({| w_root := root; w_stage := Fetched (getBatchByRoot cfg banSet answer) |} :: y_workers y))
| s_load l1 l2 root ks get_fails muts (Hw : y_workers y = l1 ++ {| w_root := root; w_stage := Fetched ks |} :: l2)
    (Hl : loadFilteredMutations get_fails (journal (y_d y)) ks = Ok muts)
  : sys_step y (y_set y (y_d y) (l1 ++ {| w_root := root; w_stage := Loaded muts |} :: l2))
| s_txn l1 l2 root muts fuel cfg ver e c st (Hw : y_workers y = l1 ++ {| w_root := root; w_stage := Loaded muts |} :: l2)
    (Hs : strict = true -> forall k, e_del_fails e k = false)
    (Hal : loop_allowed fuel cfg ver e root 0 muts (start_root (y_d y) c))
    (Hrun : root_txn fuel cfg ver e root muts c (y_d y) = Some (Ret st))
  : sys_step y (y_set y (rs_d st) (l1 ++ {| w_root := root; w_stage := Committed (toDel st) |} :: l2))
| s_delete l1 l2 root a k b (Hw : y_workers y = l1 ++ {| w_root := root; w_stage := Committed (a ++ k :: b) |} :: l2)
  : sys_step y (y_set y (delete_all (y_d y) [k]) (l1 ++ {| w_root := root; w_stage := Committed (a ++ b) |} :: l2))
| s_stop l1 w l2 (Hw : y_workers y = l1 ++ w :: l2) : sys_step y (y_set y (y_d y) (l1 ++ l2)).

Definition initial (a : A) : Sys := {| y_d := {| app := a; journal := ∅; versions := ∅ |}; y_workers := []; y_seen := ∅ |}.
Definition j_initial (a : A) : JWorld := {| j_app := a; j_named := ∅; j_pending := []; j_issued := []; j_old := []; j_ran := [] |}.
End System.

(** * A transaction on the journal *)
Section Enter.
Context {DK : DSKeys} {TA : TumbleApp} {TL : TumbleAppLaws}.

(** The keys of anonymous mutations used up to round [i] of a transaction on [root]. *)
Definition used (d : Datastore) (root : Key) (i : Z) (k : MKey) : Prop :=
  exists v r n, 0 <= v /\ 0 <= r /\ 0 <= n /\ k.2 = mutation_id v r n /\
    (v < GetEntityGroupVersion d k.1 \/ k.1 = root /\ v = GetEntityGroupVersion d root /\ r < i).

Lemma used_anon d root i k : used d root i k -> is_named k.2 = false.
Proof. intros (v & r & n & Hv & _ & _ & -> & _). by apply mutation_id_anon. Qed.
Lemma used_le d d' root i i' k : versions d' = versions d -> i <= i' -> used d root i k -> used d' root i' k.
Proof.
  intros Hv Hi (v & r & n & H1 & H2 & H3 & H4 & H5). exists v, r, n. unfold GetEntityGroupVersion in *. rewrite Hv.
  repeat split; try done. destruct H5 as [|(? & ? & ?)]; [by left|]. right. repeat split; [done|done|lia].
Qed.

Lemma enter_spec cfg ver now pf root fn i d ss muts ks d' : (forall k, 0 <= GetEntityGroupVersion d k) -> 0 <= i ->
  enterTransactionInternal cfg ver now pf (Some root) fn i d = Ret (Ok (ss, muts, ks, d')) -> exists a ops,
    fn (app d) (named_view (journal d)) = Ret (Ok (muts, a, ops)) /\
    app d' = a /\ versions d' = versions d /\ named_view (journal d') = fold_left view_op ops (named_view (journal d)) /\
    (forall k, used d root i k -> journal d' !! k = journal d !! k) /\
    (forall done, (forall k, k ∈ done -> used d root i k) -> (forall k r, is_named k.2 = false -> journal d !! k = Some r -> used d root i k) ->
       to_run (journal d') done ≡ₚ muts ++ to_run (journal d) done) /\
    Forall2 (fun k m => used d root (i + 1) k /\ ~ used d root i k /\ exists r, journal d' !! k = Some r /\ GetMutation r = Some m) ks muts /\
    (forall k r, journal d' !! k = Some r -> journal d !! k = Some r \/ exists m x, GetMutation r = Some m /\ Root m = Some x /\ TargetRoot r = key_root x /\
       if is_named k.2 then (unname k, Some m) ∈ ops else m ∈ muts /\ k ∈ ks).
Proof.
  intros Hver Hi. cbn [enterTransactionInternal].
  destruct (fn (app d) (named_view (journal d))) as [[[[muts0 a] ops]|e]|] eqn:Hfn; cbn; [|done|done].
  destruct (named_ops cfg ver now (set_app d a) ops) as [[d1|e]|] eqn:Hops; cbn; [|done|done].
  destruct (putMutations cfg ver now pf root muts0 i d1) as [[[[ss0 ks0] d2]|e]|] eqn:Hput; cbn; [|done|done].
  intros [= <- <- <- <-]. apply named_ops_spec in Hops as (A1 & A2 & A3 & A4 & A5). cbn in A1, A2, A3, A4, A5.
  assert (Hgv : forall k, GetEntityGroupVersion d1 k = GetEntityGroupVersion d k) by (intros; unfold GetEntityGroupVersion; by rewrite A2).
  apply putMutations_spec in Hput as (rs & B1 & B2 & -> & -> & B3); [|by rewrite Hgv|done]. rewrite Hgv in B1. cbn.
  assert (Hkey : forall k, k ∈ rs.*1 -> exists n, 0 <= n /\ k = (root, mutation_id (GetEntityGroupVersion d root) i n)).
  { intros k Hk. apply list_elem_of_lookup in Hk as [x Hx]. rewrite list_lookup_fmap in Hx. destruct (rs !! x) as [kr|] eqn:Hkr; [|done].
    cbn in Hx. injection Hx as <-. destruct (Forall2_lookup_l _ _ _ _ _ B1 Hkr) as (m & _ & [(n & Hn & He) _ _]). by exists n. }
  assert (Hnew : forall k, k ∈ rs.*1 -> used d root (i + 1) k /\ ~ used d root i k).
  { intros k (n & Hn & ->)%Hkey. split.
    - exists (GetEntityGroupVersion d root), i, n. repeat split; try done. right. cbn. repeat split. lia.
    - intros (v & r & n' & H1 & H2 & H3 & H4 & H5). cbn in H4, H5. apply mutation_id_inj in H4 as (<- & <- & _); [lia|done..]. }
  assert (Hnd : forall k, k ∈ rs.*1 -> is_named k.2 = false) by (intros k [Hk _]%Hnew; by eapply used_anon).
  exists a, ops. split; [done|]. split; [done|]. split; [done|].
  assert (Hg : Forall2 (fun kr m => GetMutation kr.2 = Some m) rs muts0) by (eapply Forall2_impl; [exact B1|]; by intros ? ? []).
  split; [|split; [|split; [|split]]].
  - rewrite <-A3. apply named_view_ext. intros k Hk. rewrite put_all_lookup by done.
    destruct (list_to_map rs !! k) as [r|] eqn:E; [|done]. apply elem_of_list_to_map_2 in E.
    assert (k ∈ rs.*1) as Hin by (apply list_elem_of_fmap; by exists (k, r)). apply Hnd in Hin. congruence.
  - intros k Hk. rewrite put_all_lookup by done. destruct (list_to_map rs !! k) as [r|] eqn:E.
    + apply elem_of_list_to_map_2 in E. exfalso. apply (proj2 (Hnew k ltac:(apply list_elem_of_fmap; by exists (k, r)))). done.
    + apply A4. by eapply used_anon.
  - intros done Hdone Hjr. destruct (put_all_views done rs (journal d1) muts0) as [C1 _]; [|done|done|].
    + intros k Hk. destruct (Hnew k Hk) as [_ Hnu]. split; [by apply Hnd|]. split; [by intros ?%Hdone|].
      destruct (journal d1 !! k) as [r|] eqn:E; [|done]. exfalso. rewrite A4 in E by by apply Hnd. apply Hnu, (Hjr k r); [by apply Hnd|done].
    + rewrite C1. rewrite (to_run_ext (journal d1) (journal d) done done); [done|]. intros k r Hk. by rewrite A4.
  - apply Forall2_fmap_l. eapply Forall2_same_length_lookup_2; [by eapply Forall2_length|]. intros x kr m Hkr Hm.
    destruct (Hnew kr.1) as [C1 C2]; [apply list_elem_of_fmap; eexists; split; [done|]; by eapply list_elem_of_lookup_2|].
    split; [done|]. split; [done|]. exists kr.2. rewrite put_all_lookup by done. split.
    + destruct kr as [k r]. rewrite (elem_of_list_to_map_1 rs k r); [done|done|]. by eapply list_elem_of_lookup_2.
    + exact (Forall2_lookup_lr _ _ _ _ _ _ Hg Hkr Hm).
  - intros k r. rewrite put_all_lookup by done. destruct (list_to_map rs !! k) as [r'|] eqn:E.
    + intros [= ->]. right. apply elem_of_list_to_map_2 in E. pose proof E as Hin. apply list_elem_of_lookup in E as [x Hx].
      destruct (Forall2_lookup_l _ _ _ _ _ B1 Hx) as (m & Hm & [_ Hg1 (y & Hy & Ht & _)]). exists m, y.
      assert (Hk : k ∈ rs.*1) by (apply list_elem_of_fmap; by exists (k, r)). rewrite (Hnd k Hk).
      repeat split; [done|done|done|by eapply list_elem_of_lookup_2|done].
    + intros [H|(m & x & C1 & C2 & C3 & C4 & C5)]%A5; [by left|]. right. exists m, x. by rewrite C2.
Qed.
End Enter.
