(* ===== verification/TumbleSim.v ===== *)
(** tumble: the system implements the journal machine.  A simulation: every step
    of the system is a sequence of steps of the machine. *)
From stdpp Require Import fin_maps.
From S2P Require Import Prelude Tumble TumbleJournal TumbleViews TumbleSystem.
Local Open Scope Z_scope.

Section Sim.
Context {DK : DSKeys} {KL : DSKeysLaws} {TA : TumbleApp} {TL : TumbleAppLaws}.
Context (allowed : Env -> M -> A -> gmap MKey M -> Prop) (calls : TxnFn -> A -> gmap MKey M -> Prop) (client_op : MKey * option M -> Prop) (strict : bool).
Notation jstep := (jstep allowed calls client_op strict).
Notation loose := (loose strict).
Notation sys_step := (sys_step allowed calls client_op strict).
Notation loop_allowed := (loop_allowed allowed).
Implicit Types (d : Datastore) (U : MKey -> Prop) (done : gset MKey) (w : JWorld).

(** [w] is what the datastore [d] stands for: [U] are the keys anonymous
    mutations have had, [done] those of them that were run. *)
Record jrep d U done w : Prop := {
  jr_app : j_app w = app d;
  jr_named : j_named w = named_view (journal d);
  jr_pending : j_pending w ≡ₚ to_run (journal d) done;
  jr_versions : forall k, 0 <= GetEntityGroupVersion d k;
  jr_entry : forall k r, journal d !! k = Some r -> exists m x, GetMutation r = Some m /\ Root m = Some x /\ TargetRoot r = key_root x /\
    if is_named k.2 then (unname k, m) ∈ j_old w else m ∈ j_issued w /\ U k;
  jr_done : forall k, k ∈ done -> U k;
}.

(** What only grows, and that anonymous mutations do not change. *)
Record jext d U done w d' U' done' w' : Prop := {
  je_used : forall k, U k -> U' k;
  je_done : done ⊆ done';
  je_issued : j_issued w ⊆ j_issued w';
  je_old : j_old w ⊆ j_old w';
  je_ran : j_ran w ⊆ j_ran w';
  je_journal : forall k r, U k -> is_named k.2 = false -> journal d' !! k = Some r -> journal d !! k = Some r;
}.
Lemma jext_refl d U done w : jext d U done w d U done w.
Proof. by split. Qed.
Lemma jext_trans d1 U1 n1 w1 d2 U2 n2 w2 d3 U3 n3 w3 :
  jext d1 U1 n1 w1 d2 U2 n2 w2 -> jext d2 U2 n2 w2 d3 U3 n3 w3 -> jext d1 U1 n1 w1 d3 U3 n3 w3.
Proof.
  intros [A1 A2 A3 A4 A6 A5] [B1 B2 B3 B4 B6 B5]. split; [auto|set_solver|by etrans|by etrans|by etrans|]. intros k r Hk Hn Hj. apply A5; auto.
Qed.

(** A mutation that was loaded for a root, and a key to be deleted. *)
Definition ready d U w (root : Key) (km : MKey * M) : Prop :=
  let '(k, m) := km in
  if is_named k.2 then (unname k, m) ∈ j_old w /\ (key_root k.1 = root \/ loose w (unname k))
  else m ∈ j_issued w /\ U k /\ forall r, journal d !! k = Some r -> GetMutation r = Some m.
Definition deletable done w (k : MKey) : Prop := if is_named k.2 then loose w (unname k) /\ unname k ∈ j_ran w else k ∈ done.

Lemma loose_mono w w' k : j_old w ⊆ j_old w' -> loose w k -> loose w' k.
Proof. intros Ho [Hl|(m & x & H1 & H2)]; [by left|right]. exists m, x. split; [by apply Ho|done]. Qed.
Lemma ready_ext d U n w d' U' n' w' root km : jext d U n w d' U' n' w' -> ready d U w root km -> ready d' U' w' root km.
Proof.
  intros [A1 A2 A3 A4 _ A5]. destruct km as [k m]. unfold ready. destruct (is_named k.2) eqn:Hn.
  - intros [H1 [H2|H2]]; (split; [by apply A4|]); [by left|right]. by eapply loose_mono.
  - intros (H1 & H2 & H3). split; [by apply A3|]. split; [by apply A1|]. intros r Hr. apply H3. by apply A5.
Qed.
Lemma deletable_ext d U n w d' U' n' w' k : jext d U n w d' U' n' w' -> deletable n w k -> deletable n' w' k.
Proof.
  intros [A1 A2 A3 A4 A6 A5]. unfold deletable. destruct (is_named k.2); [|apply A2]. intros [H1 H2]. split; [by eapply loose_mono|by apply A6].
Qed.

(** More keys count as used. *)
Lemma jrep_used d U U' done w : (forall k, U k -> U' k) -> jrep d U done w -> jrep d U' done w.
Proof.
  intros HU [A1 A2 A3 A4 A5 A6]. split; auto. intros k r Hk. destruct (A5 k r Hk) as (m & x & H1 & H2 & H3 & H4).
  exists m, x. repeat split; try done. destruct (is_named k.2); [done|]. naive_solver.
Qed.

(** Deletions. *)
Lemma jrep_delete_anon d U done w k : jrep d U done w -> k ∈ done -> is_named k.2 = false ->
  jrep (set_journal d (delete k (journal d))) U done w.
Proof.
  intros [A1 A2 A3 A4 A5 A6] Hk Hn. split; auto; cbn.
  - rewrite A2. apply named_view_ext. intros k' Hk'. rewrite lookup_delete_ne; [done|]. intros <-. congruence.
  - rewrite A3. apply reflexive_eq, to_run_ext. intros k' r _. rewrite lookup_delete_Some. naive_solver.
  - intros k' r [_ Hk']%lookup_delete_Some. by apply A5.
Qed.
Lemma jrep_delete_named d U done w k : jrep d U done w -> is_named k.2 = true ->
  jrep (set_journal d (delete k (journal d))) U done (j_set_named w (delete (unname k) (j_named w)) (j_old w)).
Proof.
  intros [A1 A2 A3 A4 A5 A6] Hn. split; auto; cbn.
  - rewrite A2, <-named_view_cancel, rename_unname; done.
  - rewrite A3. apply reflexive_eq, to_run_ext. intros k' r Hk'. rewrite lookup_delete_ne; [done|]. intros <-. congruence.
  - intros k' r [_ Hk']%lookup_delete_Some. by apply A5.
Qed.
Lemma jext_delete d U done w k w' : j_issued w = j_issued w' -> j_old w = j_old w' -> j_ran w = j_ran w' -> jext d U done w (set_journal d (delete k (journal d))) U done w'.
Proof. intros Hi Ho Hr. split; [done|done|by rewrite Hi|by rewrite Ho|by rewrite Hr|]. cbn. by intros k' r _ _ [_ ?]%lookup_delete_Some. Qed.

Lemma jrep_mark d U done w k : jrep d U done w -> jrep d U done (j_mark k w).
Proof. by intros []. Qed.
Lemma jext_mark d U done w k : jext d U done w d U done (j_mark k w).
Proof. split; cbn; [done..|set_solver|done]. Qed.

(** A transaction. *)
Lemma jrep_enter cfg ver now pf root fn i d done done' w ss muts ks d' rest :
  jrep d (used d root i) done w -> 0 <= i ->
  enterTransactionInternal cfg ver now pf (Some root) fn i d = Ret (Ok (ss, muts, ks, d')) ->
  (forall k, k ∈ done' -> used d root i k) -> done ⊆ done' -> rest ≡ₚ to_run (journal d) done' -> exists a ops,
    fn (j_app w) (j_named w) = Ret (Ok (muts, a, ops)) /\
    jrep d' (used d' root (i + 1)) done' (j_commit w rest muts a ops None) /\
    jext d (used d root i) done w d' (used d' root (i + 1)) done' (j_commit w rest muts a ops None) /\
    versions d' = versions d /\
    Forall2 (fun k m => used d root (i + 1) k /\ ~ used d root i k /\ exists r, journal d' !! k = Some r /\ GetMutation r = Some m) ks muts.
Proof.
  intros [A1 A2 A3 A4 A5 A6] Hi Hent Hd' Hsub Hrest.
  destruct (enter_spec _ _ _ _ _ _ _ _ _ _ _ _ A4 Hi Hent) as (a & ops & B1 & B2 & B3 & B4 & B5 & B6 & B7 & B8).
  exists a, ops. rewrite A1, A2. split; [done|].
  assert (Hjr : forall k r, is_named k.2 = false -> journal d !! k = Some r -> used d root i k).
  { intros k r Hn Hk. destruct (A5 k r Hk) as (m & x & _ & _ & _ & H). rewrite Hn in H. by destruct H. }
  assert (Hu : forall k, used d root i k -> used d' root (i + 1) k) by (intros k; apply used_le; [done|lia]).
  split; [|split; [|done]].
  - split; cbn.
    + done.
    + by rewrite A2.
    + rewrite Hrest. symmetry. by apply B6.
    + intros k. unfold GetEntityGroupVersion. rewrite B3. apply A4.
    + intros k r [Hk|(m & x & H1 & H2 & H3 & H4)]%B8.
      * destruct (A5 k r Hk) as (m & x & H1 & H2 & H3 & H4). exists m, x. repeat split; try done.
        destruct (is_named k.2); [apply elem_of_app; by right|]. destruct H4 as [H4 H5]. split; [apply elem_of_app; by right|by apply Hu].
      * exists m, x. repeat split; try done. destruct (is_named k.2).
        -- apply elem_of_app. left. apply list_elem_of_omap. by exists (unname k, Some m).
        -- destruct H4 as [H4 H5]. split; [apply elem_of_app; by left|]. apply list_elem_of_lookup in H5 as [j Hj].
           destruct (Forall2_lookup_l _ _ _ _ _ B7 Hj) as (m' & _ & H5 & _). eapply used_le; [done|reflexivity|done].
    + intros k Hk. by apply Hu, Hd'.
  - split; cbn; [done|done|set_solver|set_solver|done|]. intros k r Hk _. by rewrite B5.
Qed.

(** * One turn of the loop *)
Lemma tail_calls_sub cfg now root nms tails : tail_calls cfg now root nms = Ret tails -> tails ⊆ nms.
Proof.
  revert tails. induction nms as [|[k m] nms IH]; intros tails; cbn [tail_calls]; [by intros [= <-]|].
  destruct (runs_now cfg now root m) as [b|]; cbn; [|done].
  destruct (tail_calls cfg now root nms) as [l|]; cbn; [|done]. specialize (IH l eq_refl). destruct b; intros [= <-]; set_solver.
Qed.

(** What a transaction has made is ready to be run within it. *)
Lemma tails_ready d d' root i w cfg now tails ks muts rest a ops :
  Forall2 (fun k m => used d root (i + 1) k /\ ~ used d root i k /\ exists r, journal d' !! k = Some r /\ GetMutation r = Some m) ks muts ->
  versions d' = versions d -> tail_calls cfg now root (zip ks muts) = Ret tails ->
  Forall (ready d' (used d' root (i + 1)) (j_commit w rest muts a ops None) root) tails.
Proof.
  intros Hall Hv Ht%tail_calls_sub. apply Forall_forall. intros [k m] Hkm%Ht.
  apply list_elem_of_lookup in Hkm as [x Hx]. apply lookup_zip_with_Some in Hx as (k' & m' & [= <- <-] & Hk & Hm).
  destruct (Forall2_lookup_lr _ _ _ _ _ _ Hall Hk Hm) as (H1 & _ & r & H2 & H3).
  unfold ready. rewrite (used_anon _ _ _ _ H1). split; [cbn; apply elem_of_app; left; by eapply list_elem_of_lookup_2|].
  split; [by eapply used_le|]. intros r' Hr'. congruence.
Qed.

(** The mutation that is run, seen from the machine: what is pending afterwards,
    besides what it makes. *)
Lemma run_rest d U done w k m : jrep d U done w -> is_named k.2 = false -> m ∈ j_issued w ->
  (forall r, journal d !! k = Some r -> GetMutation r = Some m) ->
  forall e muts a ops, runs allowed w e m muts a ops -> exists rest,
    rest ≡ₚ to_run (journal d) ({[k]} ∪ done) /\ jstep w (j_commit w rest muts a ops None).
Proof.
  intros Hrep Hn Hi Hg e muts a ops Hrun. destruct (decide (k ∈ done)) as [Hd|Hd]; [|destruct (journal d !! k) as [r|] eqn:Hk].
  - exists (j_pending w). split; [|by eapply j_again]. rewrite (jr_pending _ _ _ _ Hrep). apply reflexive_eq, to_run_ext. set_solver.
  - exists (to_run (journal d) ({[k]} ∪ done)). split; [done|].
    apply (j_once _ _ _ _ w e [] m (to_run (journal d) ({[k]} ∪ done))); [|done].
    rewrite (jr_pending _ _ _ _ Hrep). cbn. apply (to_run_done _ _ k r); auto.
  - exists (j_pending w). split; [|by eapply j_again]. rewrite (jr_pending _ _ _ _ Hrep). apply reflexive_eq, to_run_ext.
    intros k' r Hk'. split; intros [H1 H2]; (split; [done|]); [|set_solver]. intros [->%elem_of_singleton|]%elem_of_union; [congruence|done].
Qed.

Lemma process_one_sim cfg ver e root (i : nat) k m st tails st' done w :
  jrep (rs_d st) (used (rs_d st) root (Z.of_nat i)) done w -> ready (rs_d st) (used (rs_d st) root (Z.of_nat i)) w root (k, m) ->
  key_root root = root -> (strict = true -> forall k, e_del_fails e k = false) ->
  allowed (e_run e i) m (app (rs_d st)) (named_view (journal (rs_d st))) ->
  process_one cfg ver e root i k m st = Ret (tails, st') -> exists done' w',
    rtc jstep w w' /\ jrep (rs_d st') (used (rs_d st') root (Z.of_nat (S i))) done' w' /\
    jext (rs_d st) (used (rs_d st) root (Z.of_nat i)) done w (rs_d st') (used (rs_d st') root (Z.of_nat (S i))) done' w' /\
    versions (rs_d st') = versions (rs_d st) /\
    Forall (ready (rs_d st') (used (rs_d st') root (Z.of_nat (S i))) w' root) tails /\
    forall k', k' ∈ toDel st' -> k' ∈ toDel st \/ deletable done' w' k'.
Proof.
  intros Hrep Hready Hroot Hstrict Hal. unfold process_one. rewrite Nat2Z.inj_succ, <-Z.add_1_r.
  destruct (enterTransactionInternal _ _ _ _ _ _ _ _) as [[[[[ss muts] ks] d]|err]|] eqn:Hent; cbn; [|..|done].
  2:{ intros [= <- <-]. assert (Hu : forall k, used (rs_d st) root (Z.of_nat i) k -> used (rs_d st) root (Z.of_nat i + 1) k) by (intros ?; apply used_le; [done|lia]).
      exists done, w. split; [done|]. split; [by eapply jrep_used|]. split; [by split|]. split; [done|]. split; [constructor|by left]. }
  destruct (tail_calls cfg (e_now e) root (zip ks muts)) as [tl|] eqn:Htl; cbn; [|done].
  intros [= <- <-]. cbn. rewrite HasAncestor_root by done.
  set (U := used (rs_d st) root (Z.of_nat i)) in *. set (gone := bool_decide (key_root k.1 = root) && negb (e_del_fails e k)).
  assert (Hsingle : forall k' : MKey, k' ∈ (if gone then toDel st else toDel st ++ [k]) -> k' ∈ toDel st \/ k' = k /\ gone = false).
  { intros k'. destruct gone; [by left|]. intros [?|?%list_elem_of_singleton]%elem_of_app; [by left|by right]. }
  unfold ready in Hready. destruct (is_named k.2) eqn:Hn.
  - destruct Hready as [Hold Hloose].
    destruct (jrep_enter _ _ _ _ _ _ _ _ done done w _ _ _ _ (j_pending w) Hrep ltac:(lia) Hent (jr_done _ _ _ _ Hrep) ltac:(done) (jr_pending _ _ _ _ Hrep))
      as (a & ops & B1 & B2 & B3 & B4 & B5).
    assert (Hrun : runs allowed w (e_run e i) m muts a ops).
    { split; [|done]. by rewrite (jr_app _ _ _ _ Hrep), (jr_named _ _ _ _ Hrep). }
    pose proof (tails_ready _ _ _ _ w _ _ _ _ _ (j_pending w) a ops B5 B4 Htl) as Hr.
    destruct gone eqn:Hgone.
    + exists done, (j_commit w (j_pending w) muts a ops (Some (unname k))).
      split; [apply rtc_once; by eapply j_run_named|]. split; [|split; [|split; [done|split]]].
      * apply (jrep_delete_named d _ done (j_commit w (j_pending w) muts a ops None)); [done|done].
      * eapply jext_trans; [done|]. by apply jext_delete.
      * eapply Forall_impl; [exact Hr|]. intros km Hkm. eapply (ready_ext _ _ done _ _ _ done); [|exact Hkm]. by apply jext_delete.
      * intros k' [?|[-> ?]]%Hsingle; [by left|done].
    + assert (Hl : loose w (unname k)).
      { destruct Hloose as [Hl|]; [|done]. left. destruct strict eqn:Hs; [|done]. exfalso. unfold gone in Hgone.
        rewrite bool_decide_true, (Hstrict eq_refl) in Hgone by done. done. }
      assert (Hmk : jext d (used d root (Z.of_nat i + 1)) done (j_commit w (j_pending w) muts a ops None)
        d (used d root (Z.of_nat i + 1)) done (j_mark (unname k) (j_commit w (j_pending w) muts a ops None))) by by apply jext_mark.
      exists done, (j_mark (unname k) (j_commit w (j_pending w) muts a ops None)).
      split; [apply rtc_once; by eapply j_keep_named|]. split; [by apply jrep_mark|]. split; [by eapply jext_trans|]. split; [done|].
      split; [eapply Forall_impl; [exact Hr|]; intros km; by apply ready_ext with (1 := Hmk)|].
      intros k' [?|[-> _]]%Hsingle; [by left|right]. unfold deletable. rewrite Hn.
      split; [eapply loose_mono; [|done]; cbn; set_solver|by left].
  - destruct Hready as (Hi & Hu & Hg). 
    assert (Hd' : forall k', k' ∈ {[k]} ∪ done -> U k').
    { intros k' [->%elem_of_singleton|Hk']%elem_of_union; [done|by apply (jr_done _ _ _ _ Hrep)]. }
    assert (Hex : exists a ops, RollForward (e_run e i) m (j_app w) (j_named w) = Ret (Ok (muts, a, ops))).
    { destruct (enter_spec _ _ _ _ _ _ _ _ _ _ _ _ (jr_versions _ _ _ _ Hrep) (Nat2Z.is_nonneg i) Hent) as (a & ops & C1 & _).
      exists a, ops. by rewrite (jr_app _ _ _ _ Hrep), (jr_named _ _ _ _ Hrep). }
    destruct Hex as (a & ops & Hrf).
    destruct (run_rest _ _ _ _ k m Hrep Hn Hi Hg (e_run e i) muts a ops) as (rest & Hrest & Hstep).
    { split; [|done]. by rewrite (jr_app _ _ _ _ Hrep), (jr_named _ _ _ _ Hrep). }
    destruct (jrep_enter _ _ _ _ _ _ _ _ done ({[k]} ∪ done) w _ _ _ _ rest Hrep ltac:(lia) Hent Hd' ltac:(set_solver) Hrest)
      as (a' & ops' & B1 & B2 & B3 & B4 & B5).
    rewrite Hrf in B1. injection B1 as <- <-.
    pose proof (tails_ready _ _ _ _ w _ _ _ _ _ rest a ops B5 B4 Htl) as Hr.
    exists ({[k]} ∪ done), (j_commit w rest muts a ops None). split; [by apply rtc_once|].
    assert (Hdel : jext d (used d root (Z.of_nat i + 1)) ({[k]} ∪ done) (j_commit w rest muts a ops None)
      (set_journal d (delete k (journal d))) (used d root (Z.of_nat i + 1)) ({[k]} ∪ done) (j_commit w rest muts a ops None)) by by apply jext_delete.
    destruct gone; cbn; (split; [|split; [|split; [done|split]]]).
    + apply jrep_delete_anon; [done|set_solver|done].
    + eapply jext_trans; [exact B3|exact Hdel].
    + eapply Forall_impl; [exact Hr|]. intros km Hkm. eapply ready_ext; [exact Hdel|exact Hkm].
    + intros k' [?|[-> ?]]%Hsingle; [by left|done].
    + done.
    + done.
    + done.
    + intros k' [?|[-> _]]%Hsingle; [by left|right]. unfold deletable. rewrite Hn. set_solver.
Qed.

(** * The loop *)
Lemma process_loop_sim fuel cfg ver e root : key_root root = root -> (strict = true -> forall k, e_del_fails e k = false) ->
  forall (i : nat) todo st st' done w,
  jrep (rs_d st) (used (rs_d st) root (Z.of_nat i)) done w -> Forall (ready (rs_d st) (used (rs_d st) root (Z.of_nat i)) w root) todo ->
  loop_allowed fuel cfg ver e root i todo st -> process_loop fuel cfg ver e root i todo st = Some (Ret st') -> exists (n : nat) done' w',
    rtc jstep w w' /\ jrep (rs_d st') (used (rs_d st') root (Z.of_nat n)) done' w' /\
    jext (rs_d st) (used (rs_d st) root (Z.of_nat i)) done w (rs_d st') (used (rs_d st') root (Z.of_nat n)) done' w' /\
    forall k', k' ∈ toDel st' -> k' ∈ toDel st \/ deletable done' w' k'.
Proof.
  intros Hroot Hstrict. induction fuel as [|fuel IH]; intros i todo st st' done w Hrep Hready Hal; (destruct todo as [|[k m] todo]; cbn [process_loop]).
  1, 3: intros [= <-]; exists i, done, w; (split; [done|]); (split; [done|]); (split; [apply jext_refl|by left]).
  - done.
  - cbn [TumbleSystem.loop_allowed] in Hal. destruct Hal as [Hal1 Hal2]. apply Forall_cons in Hready as [Hr1 Hr2].
    destruct (process_one cfg ver e root i k m st) as [[tails st1]|] eqn:Hone; [|done]. intros Hloop.
    destruct (process_one_sim _ _ _ _ _ _ _ _ _ _ _ _ Hrep Hr1 Hroot Hstrict Hal1 Hone) as (done1 & w1 & A1 & A2 & A3 & A4 & A5 & A6).
    destruct (IH (S i) (todo ++ tails) st1 st' done1 w1 A2) as (n & done2 & w2 & B1 & B2 & B3 & B4); [|done|done|].
    + apply Forall_app. split; [|done]. eapply Forall_impl; [exact Hr2|]. intros km. by apply ready_ext with (1 := A3).
    + exists n, done2, w2. split; [by etrans|]. split; [done|]. split; [by eapply jext_trans|].
      intros k' [H|H]%B4; [|by right]. apply A6 in H as [H|H]; [by left|right]. by eapply deletable_ext.
Qed.

(** * The system

    Between transactions a key was used when its version is an earlier one. *)
Definition old_key d (k : MKey) : Prop :=
  exists v r n, 0 <= v /\ 0 <= r /\ 0 <= n /\ k.2 = mutation_id v r n /\ v < GetEntityGroupVersion d k.1.
Lemma old_key_used d root k : old_key d k <-> used d root 0 k.
Proof.
  split; intros (v & r & n & H1 & H2 & H3 & H4 & H5); exists v, r, n; repeat split; try done; [by left|].
  by destruct H5 as [|(_ & _ & ?)]; [|lia].
Qed.
Lemma old_key_anon d k : old_key d k -> is_named k.2 = false.
Proof. intros H%(old_key_used d k.1). by eapply used_anon. Qed.
Lemma old_key_le d d' k : (forall x, GetEntityGroupVersion d x <= GetEntityGroupVersion d' x) -> old_key d k -> old_key d' k.
Proof. intros Hv (v & r & n & H1 & H2 & H3 & H4 & H5). exists v, r, n. specialize (Hv k.1). repeat split; try done. lia. Qed.
Lemma bump_version d root x : GetEntityGroupVersion (bump d root) x =
  if decide (key_root x = key_root root) then GetEntityGroupVersion d x + 1 else GetEntityGroupVersion d x.
Proof.
  unfold GetEntityGroupVersion, bump. cbn. case_decide as H.
  - by rewrite H, lookup_insert_eq.
  - by rewrite lookup_insert_ne.
Qed.
Lemma used_bump d root i k : used d root i k -> old_key (bump d root) k.
Proof.
  intros (v & r & n & H1 & H2 & H3 & H4 & H5). exists v, r, n. rewrite bump_version. repeat split; try done.
  destruct H5 as [|(-> & -> & _)]; [case_decide; lia|]. rewrite decide_True by done. lia.
Qed.
Lemma bump_rep d U done w root : jrep d U done w -> (forall k, U k -> old_key (bump d root) k) ->
  jrep (bump d root) (old_key (bump d root)) done w /\ jext d U done w (bump d root) (old_key (bump d root)) done w.
Proof.
  intros Hrep HU. split; [|by split]. apply (jrep_used _ U); [done|]. destruct Hrep as [A1 A2 A3 A4 A5 A6]. split; auto.
  intros k. rewrite bump_version. specialize (A4 k). case_decide; lia.
Qed.

Definition seen_ok d w (x : MKey * Key) : Prop :=
  if is_named x.1.2 then exists m y, (unname x.1, m) ∈ j_old w /\ Root m = Some y /\ key_root y = x.2 else old_key d x.1.
Definition worker_ok (seen : gset (MKey * Key)) d done w (wk : Worker) : Prop :=
  key_root (w_root wk) = w_root wk /\
  match w_stage wk with
  | Fetched ks => forall k, k ∈ ks -> (k, w_root wk) ∈ seen
  | Loaded kms => Forall (ready d (old_key d) w (w_root wk)) kms
  | Committed ks => Forall (deletable done w) ks
  end.
Record sim done (y : Sys) w : Prop := {
  sim_rep : jrep (y_d y) (old_key (y_d y)) done w;
  sim_seen : forall x, x ∈ y_seen y -> seen_ok (y_d y) w x;
  sim_workers : Forall (worker_ok (y_seen y) (y_d y) done w) (y_workers y);
}.

Lemma seen_ok_ext d n w d' n' w' x : jext d (old_key d) n w d' (old_key d') n' w' -> seen_ok d w x -> seen_ok d' w' x.
Proof.
  intros [A1 A2 A3 A4 _ A5]. unfold seen_ok. destruct (is_named x.1.2); [|apply A1]. intros (m & y & H & Hr). exists m, y. split; [by apply A4|done].
Qed.
Lemma worker_ok_ext seen seen' d n w d' n' w' wk : jext d (old_key d) n w d' (old_key d') n' w' -> seen ⊆ seen' ->
  worker_ok seen d n w wk -> worker_ok seen' d' n' w' wk.
Proof.
  intros Hext Hs [H1 H2]. split; [done|]. destruct (w_stage wk) as [ks|kms|ks].
  - intros k Hk. by apply Hs, H2.
  - eapply Forall_impl; [exact H2|]. intros km. by apply ready_ext with (1 := Hext).
  - eapply Forall_impl; [exact H2|]. intros k. by apply deletable_ext with (1 := Hext).
Qed.
Lemma seen_of_spec (j : gmap MKey realMutation) x : x ∈ seen_of j <-> exists r, j !! x.1 = Some r /\ TargetRoot r = x.2.
Proof.
  unfold seen_of. rewrite elem_of_list_to_set, list_elem_of_fmap. split.
  - intros ([k r] & -> & Hk%elem_of_map_to_list). by exists r.
  - intros (r & Hk & Ht). exists (x.1, r). destruct x as [k t]. cbn in *. subst. split; [done|by apply elem_of_map_to_list].
Qed.

Lemma sim_update done y w d' done' w' ws : sim done y w ->
  jext (y_d y) (old_key (y_d y)) done w d' (old_key d') done' w' -> jrep d' (old_key d') done' w' ->
  (Forall (worker_ok (y_seen y ∪ seen_of (journal d')) d' done' w') (y_workers y) ->
   Forall (worker_ok (y_seen y ∪ seen_of (journal d')) d' done' w') ws) -> sim done' (y_set y d' ws) w'.
Proof.
  intros [S1 S2 S3] Hext Hrep Hws. split; cbn; [done|..].
  - intros x [Hx|(r & Hj & Ht)%seen_of_spec]%elem_of_union; [by eapply seen_ok_ext, S2|].
    destruct (jr_entry _ _ _ _ Hrep _ _ Hj) as (m & z & H1 & H2 & H3 & H4). unfold seen_ok.
    destruct (is_named x.1.2); [|by destruct H4]. exists m, z. repeat split; [done|done|congruence].
  - apply Hws. eapply Forall_impl; [exact S3|]. intros wk. apply worker_ok_ext with (1 := Hext). set_solver.
Qed.

Lemma load_spec (gf : MKey -> bool) (j : gmap MKey realMutation) ks : forall muts, loadFilteredMutations gf j ks = Ok muts ->
  Forall (fun km => km.1 ∈ ks /\ exists r, j !! km.1 = Some r /\ GetMutation r = Some km.2) muts.
Proof.
  induction ks as [|k ks IH]; intros muts; cbn [loadFilteredMutations]; [intros [= <-]; constructor|].
  destruct (gf k); [done|]. destruct (loadFilteredMutations gf j ks) as [l|]; [|done]. specialize (IH l eq_refl).
  assert (Hl : Forall (fun km => km.1 ∈ k :: ks /\ exists r, j !! km.1 = Some r /\ GetMutation r = Some km.2) l).
  { eapply Forall_impl; [exact IH|]. intros km [H1 H2]. split; [set_solver|done]. }
  destruct (j !! k ≫= GetMutation) as [m|] eqn:E; intros [= <-]; [|done]. constructor; [|done]. cbn.
  split; [set_solver|]. destruct (j !! k) as [r|]; [|done]. by exists r.
Qed.

Lemma named_op_rep cfg ver now d op d' done w : jrep d (old_key d) done w -> named_op cfg ver now d op = Ret (Ok d') ->
  jrep d' (old_key d') done (j_set_named w (view_op (j_named w) op) (puts [op] ++ j_old w)) /\
  jext d (old_key d) done w d' (old_key d') done (j_set_named w (view_op (j_named w) op) (puts [op] ++ j_old w)).
Proof.
  intros [A1 A2 A3 A4 A5 A6] Hop. apply named_op_spec in Hop as (B1 & B2 & B3 & B4 & B5).
  assert (Hk : forall k, old_key d k <-> old_key d' k) by (intros k; unfold old_key, GetEntityGroupVersion; by rewrite B2).
  split; split; cbn.
  - by rewrite B1.
  - by rewrite B3, A2.
  - rewrite A3. apply reflexive_eq, to_run_ext. intros k r Hn. by rewrite B4.
  - intros k. unfold GetEntityGroupVersion. rewrite B2. apply A4.
  - intros k r [H|(m & x & -> & H1 & H2 & H3 & H4)]%B5.
    + destruct (A5 k r H) as (m & x & H1 & H2 & H3 & H4). exists m, x. repeat split; try done.
      destruct (is_named k.2); [apply elem_of_app; by right|]. by rewrite <-Hk.
    + exists m, x. repeat split; try done. rewrite H1. apply elem_of_app. left. cbn. set_solver.
  - intros k H%A6. by apply Hk.
  - intros k. by apply Hk.
  - done.
  - done.
  - set_solver.
  - done.
  - intros k r _ Hn. by rewrite B4.
Qed.

Lemma jrep_U d U U' done w : (forall k, U k <-> U' k) -> jrep d U done w -> jrep d U' done w.
Proof. intros HU [A1 A2 A3 A4 A5 A6]. split; auto; [|naive_solver]. intros k r Hk. destruct (A5 k r Hk) as (m & x & ? & ? & ? & ?).
  exists m, x. repeat split; try done. destruct (is_named k.2); naive_solver. Qed.
Lemma jext_U d U U' done w d' V V' done' w' : (forall k, U k <-> U' k) -> (forall k, V k <-> V' k) ->
  jext d U done w d' V done' w' -> jext d U' done w d' V' done' w'.
Proof. intros HU HV [A1 A2 A3 A4 A6 A5]. split; [|done|done|done|done|]; naive_solver. Qed.
Lemma ready_U d U U' w root km : (forall k, U k <-> U' k) -> ready d U w root km -> ready d U' w root km.
Proof. intros HU. destruct km as [k m]. unfold ready. destruct (is_named k.2); naive_solver. Qed.

(** A transaction of the application. *)
Lemma call_sim cfg ver now pf root fn d ss d' done w : jrep d (old_key d) done w -> calls fn (app d) (named_view (journal d)) ->
  RunUnbuffered cfg ver now pf root fn d = Ret (Ok (ss, d')) -> exists w',
    jstep w w' /\ jrep d' (old_key d') done w' /\ jext d (old_key d) done w d' (old_key d') done w'.
Proof.
  intros Hrep Hc. unfold RunUnbuffered.
  destruct (enterTransactionInternal cfg ver now pf root fn 0 d) as [[[[[ss' muts] ks] d1]|err]|] eqn:Hent; cbn; [|done|done].
  destruct root as [root|]; [|done]. intros [= <- <-].
  pose proof (jrep_U _ _ _ _ _ (fun k => old_key_used d root k) Hrep) as Hrep'.
  destruct (jrep_enter _ _ _ _ _ _ _ _ done done w _ _ _ _ (j_pending w) Hrep' ltac:(lia) Hent (jr_done _ _ _ _ Hrep') ltac:(done) (jr_pending _ _ _ _ Hrep))
    as (a & ops & B1 & B2 & B3 & B4 & B5).
  exists (j_commit w (j_pending w) muts a ops None). split; [eapply j_call; [by rewrite (jr_app _ _ _ _ Hrep), (jr_named _ _ _ _ Hrep)|done]|].
  destruct (bump_rep _ _ _ _ root B2) as [C1 C2]; [intros k; apply used_bump|].
  split; [done|]. eapply jext_trans; [|exact C2]. eapply jext_U; [|done|exact B3]. intros k. symmetry. apply old_key_used.
Qed.

(** The transaction of [processRoot]. *)
Lemma root_txn_sim fuel cfg ver e root muts c d st done w : jrep d (old_key d) done w -> Forall (ready d (old_key d) w root) muts ->
  key_root root = root -> (strict = true -> forall k, e_del_fails e k = false) ->
  loop_allowed fuel cfg ver e root 0 muts (start_root d c) -> root_txn fuel cfg ver e root muts c d = Some (Ret st) -> exists done' w',
    rtc jstep w w' /\ jrep (rs_d st) (old_key (rs_d st)) done' w' /\
    jext d (old_key d) done w (rs_d st) (old_key (rs_d st)) done' w' /\ Forall (deletable done' w') (toDel st).
Proof.
  intros Hrep Hready Hroot Hstrict Hal. unfold root_txn.
  destruct (process_loop fuel cfg ver e root 0 muts (start_root d c)) as [[st1|]|] eqn:Hloop; cbn; [|done|done]. intros [= <-]. cbn.
  destruct (process_loop_sim fuel cfg ver e root Hroot Hstrict 0 muts (start_root d c) st1 done w) as (n & done' & w' & A1 & A2 & A3 & A4); [| |done|done|].
  - eapply jrep_U; [|exact Hrep]. intros k. apply old_key_used.
  - eapply Forall_impl; [exact Hready|]. intros km. apply ready_U. intros k. apply old_key_used.
  - destruct (bump_rep _ _ _ _ root A2) as [C1 C2]; [intros k; apply used_bump|].
    exists done', w'. split; [done|]. split; [done|]. split.
    + eapply jext_trans; [|exact C2]. eapply jext_U; [|done|exact A3]. intros k. symmetry. apply old_key_used.
    + apply Forall_forall. intros k Hk%A4. destruct Hk as [Hk|Hk]; [by apply elem_of_nil in Hk|done].
Qed.

Lemma worker_swap (P : Worker -> Prop) l1 a l2 b : (P a -> P b) -> Forall P (l1 ++ a :: l2) -> Forall P (l1 ++ b :: l2).
Proof. intros Hab. rewrite !Forall_app, !Forall_cons. naive_solver. Qed.

(** Every step of the system is a sequence of steps of the machine. *)
Lemma sys_step_sim done y y' w : sim done y w -> sys_step y y' -> exists done' w', rtc jstep w w' /\ sim done' y' w'.
Proof.
  intros Hsim Hs. pose proof Hsim as [S1 S2 S3]. destruct Hs.
  - destruct (call_sim _ _ _ _ _ _ _ _ _ _ _ S1 Hc Hrun) as (w' & A1 & A2 & A3).
    exists done, w'. split; [by apply rtc_once|]. by eapply sim_update.
  - destruct (named_op_rep _ _ _ _ _ _ _ _ S1 Hrun) as [A1 A2]. eexists done, _. split; [apply rtc_once; by apply j_client|].
    by eapply sim_update.
  - assert (Hle : forall k, old_key (y_d y) k -> old_key {| app := app (y_d y); journal := journal (y_d y); versions := v |} k).
    { intros k. by apply old_key_le. }
    exists done, w. split; [done|]. eapply sim_update; [done|by split| |done].
    destruct S1 as [A1 A2 A3 A4 A5 A6]. apply (jrep_used _ (old_key (y_d y))); [done|]. split; auto.
    intros k. unfold GetEntityGroupVersion at 1. cbn. specialize (Hv k). specialize (A4 k). lia.
  - exists done, w. split; [done|]. eapply sim_update; [done|apply jext_refl|done|]. intros H. constructor; [|done].
    split; [done|]. cbn. intros k Hk. apply elem_of_union_l, Ha. unfold getBatchByRoot in Hk.
    clear -Hk. set (size := Z.to_nat _) in *. 
    assert (Hg : forall ks acc, k ∈ batch_loop size banSet ks acc -> k ∈ ks \/ k ∈ acc).
    { induction ks as [|k' ks IH]; intros acc; cbn [batch_loop]; [by right|].
      destruct (bool_decide (k' ∈ banSet)), (_ <? size)%nat; intros H; try apply IH in H; set_solver. }
    apply Hg in Hk as [|?%elem_of_nil]; done.
  - exists done, w. split; [done|]. eapply sim_update; [done|apply jext_refl|done|]. rewrite Hw. apply worker_swap.
    intros [H1 H2]. cbn in H1, H2. split; [done|]. cbn. apply load_spec in Hl. eapply Forall_impl; [exact Hl|].
    intros [k m] (Hk & r & Hj & Hg). cbn in Hk, Hj, Hg. destruct (jr_entry _ _ _ _ S1 _ _ Hj) as (m' & x & C1 & C2 & C3 & C4).
    assert (m' = m) as -> by congruence. unfold ready. apply H2, elem_of_union in Hk.
    assert (Hseen : seen_ok (y_d y) w (k, root)).
    { destruct Hk as [Hk|(r' & Hj' & Ht)%seen_of_spec]; [by apply S2|]. cbn in Hj', Ht. assert (r' = r) as -> by congruence.
      unfold seen_ok. cbn. destruct (is_named k.2); [|by destruct C4]. exists m, x. repeat split; [done|done|congruence]. }
    unfold seen_ok in Hseen. cbn in Hseen. destruct (is_named k.2) eqn:Hn.
    + split; [done|]. destruct Hseen as (m0 & x0 & D1 & D2 & D3). destruct (decide (key_root k.1 = root)); [by left|right; right].
      exists m0, x0. split; [done|]. split; [done|]. cbn. congruence.
    + destruct C4 as [C4 C5]. split; [done|]. split; [done|]. intros r'. rewrite Hj. by intros [= <-].
  - rewrite Hw in S3. pose proof (proj1 (Forall_app _ _ _) S3) as [_ [[Hroot Hready] _]%Forall_cons].
    destruct (root_txn_sim _ _ _ _ _ _ _ _ _ _ _ S1 Hready Hroot Hs Hal Hrun) as (done' & w' & A1 & A2 & A3 & A4).
    exists done', w'. split; [done|]. eapply sim_update; [done|done|done|]. rewrite Hw. by apply worker_swap.
  - rewrite Hw in S3. pose proof (proj1 (Forall_app _ _ _) S3) as [_ [[Hroot Hdel] _]%Forall_cons]. cbn in Hdel.
    apply Forall_app in Hdel as [Hd1 [Hk Hd2]%Forall_cons]. unfold deletable in Hk. destruct (is_named k.2) eqn:Hn.
    + eexists done, _. split; [apply rtc_once; destruct Hk; by apply (j_drop_named _ _ _ _ _ (unname k))|]. eapply sim_update; [done| | |].
      * by apply jext_delete.
      * by apply jrep_delete_named.
      * rewrite Hw. apply worker_swap. intros [H1 H2]. split; [done|]. cbn in *.
        apply Forall_app in H2 as [? [_ ?]%Forall_cons]. by apply Forall_app.
    + exists done, w. split; [done|]. eapply sim_update; [done| | |].
      * by apply jext_delete.
      * by apply jrep_delete_anon.
      * rewrite Hw. apply worker_swap. intros [H1 H2]. split; [done|]. cbn in *.
        apply Forall_app in H2 as [? [_ ?]%Forall_cons]. by apply Forall_app.
  - exists done, w. split; [done|]. eapply sim_update; [done|apply jext_refl|done|]. rewrite Hw, !Forall_app, Forall_cons. naive_solver.
Qed.

Lemma initial_sim a : sim ∅ (initial a) (j_initial a).
Proof.
  split; cbn.
  - split; cbn; try done.
  - intros x Hx. by apply elem_of_empty in Hx.
  - constructor.
Qed.
Lemma sys_sim a y : rtc sys_step (initial a) y -> exists done w, rtc jstep (j_initial a) w /\ sim done y w.
Proof.
  revert y. apply rtc_ind_r; [exists ∅, (j_initial a); split; [done|apply initial_sim]|].
  intros y y' _ Hs (done & w & H1 & H2). destruct (sys_step_sim _ _ _ _ H2 Hs) as (done' & w' & H3 & H4).
  exists done', w'. split; [by etrans|done].
Qed.
End Sim.
