(* ===== verification/TumbleProcess.v ===== *)
(** tumble: the loop of a shard (processShard, processTask.process of
    tumble/process.go): which tasks leave at once, what a round does with the
    roots its query finds, and when the loop sleeps or returns. *)
From stdpp Require Import fin_maps.
From S2P Require Import Prelude LogEntry Tumble TumbleJournal TumbleViews TumbleSystem.
Local Open Scope Z_scope.

(** * The task

    [p_endTime] is None for the zero time. *)
Record processTask := { p_timestamp : Z; p_endTime : option Z; p_loop : bool }.
Definition makeProcessTask (cfg : Config) (timestamp now : Z) (loop : bool) : processTask :=
  {| p_timestamp := timestamp; p_endTime := if 0 <? ProcessLoopDuration cfg then Some (now + ProcessLoopDuration cfg) else None;
     p_loop := loop |}.

(** [last] is when a task of the shard last did some work, as memcache has it. *)
Definition early_exit (cfg : Config) (t : processTask) (last : option Z) : bool :=
  match last with Some last => p_timestamp t <? last + TemporalRoundFactor cfg | None => false end.

Inductive ProcessError := TransientError | FatalError.

(** What a round counted, the time it ended, and whether the sleep after it is
    interrupted. *)
Record Round := { numProcessed : Z; errCount : Z; transientErrCount : Z; r_now : Z; interrupted : bool }.
Inductive after := Return (err : option ProcessError) | Sleep (delay : Z).

(** The end of a round: what to do, the next delay, and whether the time of the
    last work is set. *)
Definition after_round (cfg : Config) (t : processTask) (prd : Z) (r : Round) : after * Z * bool :=
  if 0 <? transientErrCount r then (Return (Some TransientError), prd, false)
  else if 0 <? errCount r then (Return (Some FatalError), prd, false)
  else
    let didWork := 0 <? numProcessed r in
    if negb didWork && (bool_decide (p_endTime t = None) || negb (p_loop t)) then (Return None, prd, didWork)
    else if match p_endTime t with Some e => e <? r_now r | None => false end then (Return None, prd, didWork)
    else
      let '(delay, prd) := prd_next cfg prd didWork in
      if 0 <? delay then
        if match p_endTime t with Some e => e <? r_now r + delay | None => false end then (Return None, prd, didWork)
        else if interrupted r then (Return None, prd, didWork)
        else (Sleep delay, prd, didWork)
      else (Sleep 0, prd, didWork).

(** The loop over the rounds there are: how it returned and how many rounds it
    took, or [None] when it goes on. *)
Fixpoint process_rounds (cfg : Config) (t : processTask) (prd : Z) (rs : list Round) : option (option ProcessError * nat) :=
  match rs with
  | [] => None
  | r :: rs =>
      match after_round cfg t prd r with
      | (Return err, _, _) => Some (err, 1%nat)
      | (Sleep _, prd, _) => '(err, n) ← process_rounds cfg t prd rs; Some (err, S n)
      end
  end.

(** [process]. *)
Definition process (cfg : Config) (t : processTask) (last : option Z) (rs : list Round) : option (option ProcessError * nat) :=
  if early_exit cfg t last then Some (None, 0%nat) else process_rounds cfg t (prd_reset cfg) rs.

(** [processShard]: [locked] is whether the lock of the shard was free. *)
Definition processShard (cfg : Config) (timestamp now shard : Z) (loop locked : bool) (last : option Z) (rs : list Round)
  : option (option ProcessError * nat) :=
  match processShardQuery cfg shard with
  | None => Some (None, 0%nat)
  | Some _ => if locked then process cfg (makeProcessTask cfg timestamp now loop) last rs else Some (None, 0%nat)
  end.

(** Each round ends after the sleep before it. *)
Fixpoint clock_ok (cfg : Config) (t : processTask) (prd : Z) (now : Z) (rs : list Round) : Prop :=
  match rs with
  | [] => True
  | r :: rs =>
      now <= r_now r /\
      match after_round cfg t prd r with (Sleep d, prd, _) => clock_ok cfg t prd (r_now r + d) rs | (Return _, _, _) => True end
  end.

(** * A round of the roots of a shard *)
Section Round.
Context {DK : DSKeys} {TA : TumbleApp}.

(** Errors of [processRoot] are counted; [transient] says which are
    ErrConcurrentTransaction.  The roots come with what happens to each, and run
    one after the other here. *)
Record ShardState := { s_d : Datastore; s_bans : gmap Key (gset MKey); s_count : Z; s_errs : Z; s_transient : Z; s_fired : list taskShard }.
Definition process_root_job (fuel : nat) (cfg : Config) (ver : string) (transient : bool) (re : RootEnv) (root : Key) (st : ShardState)
  : option (outcome ShardState) :=
  r ← processRoot fuel cfg ver re root (default ∅ (s_bans st !! root)) (s_count st) (s_d st);
  Some (r ← r;
        Ret match r with
            | Ok (ban, c, shards, d) =>
                {| s_d := d; s_bans := <[root := ban]> (s_bans st); s_count := c; s_errs := s_errs st; s_transient := s_transient st;
                   s_fired := s_fired st ++ shards |}
            | Err _ =>
                {| s_d := s_d st; s_bans := s_bans st; s_count := s_count st;
                   s_errs := if transient then s_errs st else s_errs st + 1;
                   s_transient := if transient then s_transient st + 1 else s_transient st; s_fired := s_fired st |}
            end).
Fixpoint process_round (fuel : nat) (cfg : Config) (ver : string) (jobs : list (Key * RootEnv * bool)) (st : ShardState)
  : option (outcome ShardState) :=
  match jobs with
  | [] => Some (Ret st)
  | (root, re, transient) :: jobs =>
      r ← process_root_job fuel cfg ver transient re root st;
      match r with
      | Panic => Some Panic
      | Ret st => process_round fuel cfg ver jobs st
      end
  end.

(** The roots an exact answer to the query of a shard has, before its limit. *)
Definition in_shard (q : shard_query) (r : realMutation) : bool := in_query q (ExpandedShard r).
Definition exact_roots (q : shard_query) (j : gmap MKey realMutation) (roots : list Key) : Prop :=
  NoDup roots /\ forall root, root ∈ roots <-> exists k r, j !! k = Some r /\ in_shard q r = true /\ TargetRoot r = root.
Definition limited {X} (q : shard_query) (l : list X) : list X :=
  match q_limit q with Some n => take (Z.to_nat n) l | None => l end.
(** The exact answer to the query of a root. *)
Definition exact_answer (cfg : Config) (now : Z) (root : Key) (j : gmap MKey realMutation) (ks : list MKey) : Prop :=
  NoDup ks /\ forall k, k ∈ ks <-> exists r, j !! k = Some r /\ TargetRoot r = root /\ (DelayedMutations cfg = true -> ProcessAfter r <= now).
End Round.

(** * The loop ends *)
Lemma prd_next_min cfg prd : minNoWorkDelay <= (prd_next cfg prd false).1.
Proof.
  unfold prd_next. cbv zeta. destruct ((0 <? MaxNoWorkDelay cfg) && _); cbn [fst]; case_match; lia.
Qed.
Lemma after_round_sleep cfg t prd r d prd' w : after_round cfg t prd r = (Sleep d, prd', w) ->
  errCount r <= 0 /\ transientErrCount r <= 0 /\ (numProcessed r <= 0 -> p_endTime t <> None /\ p_loop t = true /\ minNoWorkDelay <= d) /\
  (0 < numProcessed r -> d = Z.max 0 (DustSettleTimeout cfg)) /\ forall e, p_endTime t = Some e -> r_now r + d <= e.
Proof.
  unfold after_round. destruct (Z.ltb_spec 0 (transientErrCount r)); [done|]. destruct (Z.ltb_spec 0 (errCount r)); [done|].
  destruct (negb (0 <? numProcessed r) && _) eqn:Hidle; [done|].
  destruct (match p_endTime t with Some e => e <? r_now r | None => false end) eqn:He1; [done|].
  destruct (prd_next cfg prd (0 <? numProcessed r)) as [delay prd1] eqn:Hp. intros H1. split; [lia|]. split; [lia|].
  assert (d = Z.max 0 delay /\ (forall e, p_endTime t = Some e -> r_now r + d <= e)) as [Hd Hend].
  { destruct (Z.ltb_spec 0 delay).
    - destruct (match p_endTime t with Some e => e <? r_now r + delay | None => false end) eqn:He; [done|].
      destruct (interrupted r); [done|]. injection H1 as <- _ _. split; [lia|]. intros e Hee. rewrite Hee in He. lia.
    - injection H1 as <- _ _. split; [lia|]. intros e Hee. rewrite Hee in He1. lia. }
  rewrite Hd in *. split; [|split; [|done]].
  - intros Hn. assert (Hw : (0 <? numProcessed r) = false) by lia. rewrite Hw in *. cbn in Hidle. apply orb_false_iff in Hidle as [Hi1 Hi2].
    split; [by apply bool_decide_eq_false in Hi1|]. split; [by destruct (p_loop t)|].
    pose proof (prd_next_min cfg prd) as Hm. rewrite Hp in Hm. cbn in Hm. lia.
  - intros Hn. assert (Hw : (0 <? numProcessed r) = true) by lia. rewrite Hw in *. unfold prd_next in Hp. by injection Hp as <- _.
Qed.

Lemma process_rounds_bounded cfg t e rs : forall prd now, 0 < DustSettleTimeout cfg -> p_endTime t = Some e ->
  clock_ok cfg t prd now rs -> process_rounds cfg t prd rs = None ->
  now + Z.of_nat (length rs) * Z.min minNoWorkDelay (DustSettleTimeout cfg) <= Z.max now e.
Proof.
  induction rs as [|r rs IH]; intros prd now Hd He Hc Hp; [cbn; lia|]. cbn [process_rounds clock_ok] in Hp, Hc.
  destruct Hc as [Hnow Hc]. destruct (after_round cfg t prd r) as [[a prd'] w] eqn:Ha. destruct a as [err|d]; [done|].
  apply after_round_sleep in Ha as (_ & _ & H1 & H2 & H3). specialize (H3 _ He).
  destruct (process_rounds cfg t prd' rs) as [[err n]|] eqn:Hrs; [done|]. specialize (IH _ _ Hd He Hc Hrs).
  cbn [length]. assert (Z.min minNoWorkDelay (DustSettleTimeout cfg) <= d).
  { destruct (Z.le_gt_cases (numProcessed r) 0) as [Hn|Hn]; [destruct (H1 Hn) as (_ & _ & ?)|rewrite (H2 ltac:(lia))]; unfold minNoWorkDelay, Second in *; lia. }
  lia.
Qed.

Lemma process_rounds_length cfg t rs : forall prd err n, process_rounds cfg t prd rs = Some (err, n) -> (n <= length rs)%nat.
Proof.
  induction rs as [|r rs IH]; intros prd err n; cbn; [done|]. destruct (after_round cfg t prd r) as [[[e|d] prd'] w]; [intros [= _ <-]; lia|].
  destruct (process_rounds cfg t prd' rs) as [[err' n']|] eqn:E; [|done]. intros [= _ <-]. specialize (IH _ _ _ E). lia.
Qed.
