(* ===== verification/TumbleProgress.v ===== *)
(** tumble: what processing achieves.  Batches, tasks for what was journaled, and
    that a mutation whose run works leaves the journal. *)
From stdpp Require Import fin_maps.
From S2P Require Import Prelude Tumble TumbleJournal TumbleViews TumbleSystem.
Local Open Scope Z_scope.

Section Progress.
Context {DK : DSKeys} {KL : DSKeysLaws} {TA : TumbleApp} {TL : TumbleAppLaws}.

(** * Batches *)
Lemma batch_loop_spec n banSet ks : forall acc, (length acc <= n)%nat -> (n <> 0)%nat -> (length acc < n)%nat ->
  batch_loop n banSet ks acc = acc ++ take (n - length acc) (filter (fun k => k ∉ banSet) ks).
Proof.
  induction ks as [|k ks IH]; intros acc Ha Hn Hlt; cbn [batch_loop].
  - by rewrite filter_nil, take_nil, app_nil_r.
  - destruct (decide (k ∈ banSet)) as [Hk|Hk].
    + rewrite bool_decide_true, filter_cons_False by (done || tauto). destruct (Nat.ltb_spec (length acc) n); [|lia]. by apply IH.
    + rewrite bool_decide_false, filter_cons_True by done. rewrite length_app. cbn [length].
      destruct (Nat.ltb_spec (length acc + 1) n).
      * rewrite IH by (rewrite ?length_app; cbn; lia). rewrite length_app. cbn [length]. rewrite <-app_assoc. cbn.
        replace (n - length acc)%nat with (S (n - (length acc + 1))) by lia. done.
      * replace (n - length acc)%nat with 1%nat by lia. cbn. by rewrite take_0.
Qed.

(** * Tasks *)
Lemma enter_shards cfg ver now pf root fn i d ss muts ks d' : (forall k, 0 <= GetEntityGroupVersion d k) -> 0 <= i ->
  enterTransactionInternal cfg ver now pf (Some root) fn i d = Ret (Ok (ss, muts, ks, d')) ->
  Forall2 (fun s k => exists r, journal d' !! k = Some r /\ shard cfg r = Ret s /\ in_i64 (ExpandedShard r)) ss ks.
Proof.
  intros Hver Hi. cbn [enterTransactionInternal].
  destruct (fn (app d) (named_view (journal d))) as [[[[muts0 a] ops]|e]|]; cbn; [|done|done].
  destruct (named_ops cfg ver now (set_app d a) ops) as [[d1|e]|] eqn:Hops; cbn; [|done|done].
  destruct (putMutations cfg ver now pf root muts0 i d1) as [[[[ss0 ks0] d2]|e]|] eqn:Hput; cbn; [|done|done].
  intros [= <- <- <- <-]. apply named_ops_spec in Hops as (_ & A2 & _). cbn in A2.
  apply putMutations_spec in Hput as (rs & B1 & B2 & -> & -> & B3); [|unfold GetEntityGroupVersion in *; by rewrite A2|done].
  apply Forall2_fmap_r. eapply Forall2_same_length_lookup_2; [by eapply Forall2_length|]. intros x s kr Hs Hkr.
  exists kr.2. split; [|split; [exact (Forall2_lookup_lr _ _ _ _ _ _ B3 Hs Hkr)|]].
  2:{ destruct (Forall2_lookup_l _ _ _ _ _ B1 Hkr) as (m & _ & [_ _ (y & _ & _ & ->)]). apply root_hash_64. }
  cbn. rewrite put_all_lookup by done.
  destruct kr as [k r]. rewrite (elem_of_list_to_map_1 rs k r); [done|done|]. by eapply list_elem_of_lookup_2.
Qed.

(** * What one turn of the loop does *)
Definition wf_keys (d : Datastore) (root : Key) (i : Z) : Prop :=
  (forall k, 0 <= GetEntityGroupVersion d k) /\ forall k r, is_named k.2 = false -> journal d !! k = Some r -> used d root i k.

(** No run puts a mutation under the name. *)
Definition untouched (e : TxnEnv) (k : MKey) : Prop := is_named k.2 = true /\
  forall i m a v muts a' ops x, RollForward (e_run e i) m a v = Ret (Ok (muts, a', ops)) -> (unname k, Some x) ∉ ops.

Lemma process_one_frame cfg ver e root (i : nat) k m st tails st' : wf_keys (rs_d st) root (Z.of_nat i) ->
  process_one cfg ver e root i k m st = Ret (tails, st') ->
  wf_keys (rs_d st') root (Z.of_nat (S i)) /\ toDel st ⊆ toDel st' /\ versions (rs_d st') = versions (rs_d st) /\
  (forall k', used (rs_d st) root (Z.of_nat i) k' ->
     used (rs_d st') root (Z.of_nat (S i)) k' /\ (journal (rs_d st) !! k' = None -> journal (rs_d st') !! k' = None)) /\
  (forall k', untouched e k' -> journal (rs_d st) !! k' = None -> journal (rs_d st') !! k' = None) /\
  (enterTransactionInternal cfg ver (e_now e) (e_put_fails e i) (Some root) (RollForward (e_run e i) m) (Z.of_nat i) (rs_d st) <> Ret (Err tt) ->
     journal (rs_d st') !! k = None \/ k ∈ toDel st').
Proof.
  intros [Hv Hw]. unfold process_one. rewrite Nat2Z.inj_succ, <-Z.add_1_r.
  destruct (enterTransactionInternal _ _ _ _ _ _ _ _) as [[[[[ss muts] ks] d]|[]]|] eqn:Hent; cbn; [|..|done].
  2:{ intros [= <- <-]. split; [split; [done|]|]. { intros k' r Hn Hk. eapply used_le; [done| |by eapply Hw]. lia. }
      split; [done|]. split; [done|]. split; [|by split]. intros k' Hk'. split; [eapply used_le; [done| |done]; lia|done]. }
  destruct (tail_calls _ _ _ _) as [tl|]; cbn; [|done]. intros [= <- <-]. cbn.
  destruct (enter_spec _ _ _ _ _ _ _ _ _ _ _ _ Hv (Nat2Z.is_nonneg i) Hent) as (a & ops & B0 & _ & B3 & _ & B5 & _ & B7 & B8).
  set (gone := HasAncestor k.1 root && negb (e_del_fails e k)).
  assert (Hu : forall k', used (rs_d st) root (Z.of_nat i) k' -> used d root (Z.of_nat i + 1) k') by (intros; eapply used_le; [done| |done]; lia).
  assert (Hd : forall k' r, is_named k'.2 = false -> journal d !! k' = Some r -> used d root (Z.of_nat i + 1) k').
  { intros k' r Hn [H|(m' & x & _ & _ & _ & H)]%B8; [apply Hu; by eapply Hw|]. rewrite Hn in H. destruct H as [_ H].
    apply list_elem_of_lookup in H as [j Hj]. destruct (Forall2_lookup_l _ _ _ _ _ B7 Hj) as (m'' & _ & H & _). eapply used_le; [done|reflexivity|done]. }
  assert (Hun : forall k', untouched e k' -> journal (rs_d st) !! k' = None -> journal d !! k' = None).
  { intros k' [Hn Hno] Hj. destruct (journal d !! k') as [r|] eqn:E; [|done]. apply B8 in E as [E|(m' & x & _ & _ & _ & E)]; [congruence|].
    rewrite Hn in E. by apply (Hno _ _ _ _ _ _ _ _ B0) in E. }
  assert (Hver : forall x, 0 <= GetEntityGroupVersion d x) by (intros; unfold GetEntityGroupVersion; rewrite B3; apply Hv).
  destruct gone; cbn.
  - split; [split; [done|]|].
    { intros k' r Hn. cbn. intros [_ Hk']%lookup_delete_Some. apply (Hd k' r Hn) in Hk' as (v & y & n & ?). by exists v, y, n. }
    split; [done|]. split; [done|]. split; [|split; [|left; apply lookup_delete_eq]].
    + intros k' Hk'. split; [by apply Hu in Hk' as (v & y & n & ?); exists v, y, n|]. intros H. rewrite lookup_delete_None, B5 by done. by right.
    + intros k' H1 H2. rewrite lookup_delete_None. right. by apply Hun.
  - split; [by split|]. split; [set_solver|]. split; [done|]. split; [|split; [done|right; set_solver]].
    intros k' Hk'. split; [by apply Hu|]. by rewrite B5.
Qed.

(** A mutation whose run never fails. *)
Definition runs_ok (cfg : Config) (ver : string) (e : TxnEnv) (root : Key) (m : M) : Prop :=
  forall i d, enterTransactionInternal cfg ver (e_now e) (e_put_fails e i) (Some root) (RollForward (e_run e i) m) (Z.of_nat i) d <> Ret (Err tt).

(** A key that no later mutation takes. *)
Definition stays_gone (e : TxnEnv) (d : Datastore) (root : Key) (i : Z) (k : MKey) : Prop := used d root i k \/ untouched e k.

Lemma process_loop_frame fuel cfg ver e root : forall (i : nat) todo st st', wf_keys (rs_d st) root (Z.of_nat i) ->
  process_loop fuel cfg ver e root i todo st = Some (Ret st') ->
  toDel st ⊆ toDel st' /\
  (forall k, stays_gone e (rs_d st) root (Z.of_nat i) k -> journal (rs_d st) !! k = None -> journal (rs_d st') !! k = None) /\
  forall k m, (k, m) ∈ todo -> stays_gone e (rs_d st) root (Z.of_nat i) k -> runs_ok cfg ver e root m -> journal (rs_d st') !! k = None \/ k ∈ toDel st'.
Proof.
  induction fuel as [|fuel IH]; intros i todo st st' Hwf; (destruct todo as [|[k m] todo]; cbn [process_loop]).
  1, 3: intros [= <-]; (split; [done|]); (split; [done|]); intros k m Hk; by apply elem_of_nil in Hk.
  - done.
  - destruct (process_one cfg ver e root i k m st) as [[tails st1]|] eqn:Hone; [|done]. intros Hloop.
    destruct (process_one_frame _ _ _ _ _ _ _ _ _ _ Hwf Hone) as (A1 & A2 & A3 & A4 & A6 & A5).
    assert (Hst : forall k', stays_gone e (rs_d st) root (Z.of_nat i) k' -> stays_gone e (rs_d st1) root (Z.of_nat (S i)) k' /\
      (journal (rs_d st) !! k' = None -> journal (rs_d st1) !! k' = None)).
    { intros k' [Hu|Hu]; [destruct (A4 k' Hu); split; [by left|done]|split; [by right|by apply A6]]. }
    destruct (IH (S i) (todo ++ tails) st1 st' A1 Hloop) as (B1 & B2 & B3). split; [by etrans|]. split.
    + intros k' Hu Hj. destruct (Hst k' Hu) as [Hu' Hj']. apply B2; auto.
    + intros k' m' [[= -> ->]|Hin]%elem_of_cons Hu Hok; destruct (Hst _ Hu) as [Hu' _].
      * destruct (A5 (Hok i (rs_d st))) as [H|H]; [left; by apply B2|right; by apply B1].
      * apply (B3 k' m'); [apply elem_of_app; by left|done|done].
Qed.

(** * The loop ends

    It does when the mutations that a run makes are of a lower rank than its own; and
    it does not panic when no run does. *)
Record well_behaved (cfg : Config) (e : TxnEnv) (rank : M -> nat) : Prop := {
  wb_shards : shards_ok cfg;
  wb_root m : Root m <> None;
  wb_run i m a v : RollForward (e_run e i) m a v <> Panic;
  wb_rank i m a v muts a' ops nm : RollForward (e_run e i) m a v = Ret (Ok (muts, a', ops)) -> nm ∈ muts -> (rank nm < rank m)%nat;
}.

Lemma newRealMutation_total cfg ver m now : Root m <> None ->
  exists r, newRealMutation cfg ver m now = Ret r /\ match r with Ok r => in_i64 (ExpandedShard r) | Err _ => True end.
Proof.
  intros Hm. unfold newRealMutation. destruct (bool_decide _); [|by eexists]. destruct (gob_encode m); [|by eexists].
  destruct (Root m); [|done]. eexists. split; [done|]. apply root_hash_64.
Qed.
Lemma shard_total cfg r : shards_ok cfg -> in_i64 (ExpandedShard r) -> exists s, shard cfg r = Ret s.
Proof. intros Hc He. destruct (shard_found cfg _ Hc He) as (s & Hs & _). unfold shard. rewrite Hs. by eexists. Qed.
Lemma named_ops_total cfg ver now ops : shards_ok cfg -> (forall m, Root m <> None) -> forall d, exists r, named_ops cfg ver now d ops = Ret r.
Proof.
  intros Hc Hr. induction ops as [|[[parent name] [m|]] ops IH]; intros d; cbn [named_ops named_op]; [by eexists| |apply IH].
  destruct (newRealMutation_total cfg ver m now (Hr m)) as ([r|] & -> & H); cbn; [|by eexists].
  destruct (shard_total cfg r Hc H) as [s ->]. cbn. apply IH.
Qed.
Lemma make_mutations_total cfg ver root v round now muts : shards_ok cfg -> (forall m, Root m <> None) ->
  forall i, exists r, make_mutations cfg ver root v round now i muts = Ret r.
Proof.
  intros Hc Hr. induction muts as [|m muts IH]; intros i; cbn [make_mutations]; [by eexists|].
  destruct (newRealMutation_total cfg ver m now (Hr m)) as ([r|] & -> & H); cbn; [|by eexists].
  destruct (shard_total cfg r Hc H) as [s ->], (IH (i + 1)) as [[[ss rs]|] ->]; by eexists.
Qed.
Lemma tail_calls_total cfg now root nms : (forall m, Root m <> None) -> exists tails, tail_calls cfg now root nms = Ret tails /\ tails ⊆ nms.
Proof.
  intros Hr. induction nms as [|[k m] nms (tails & IH & Hs)]; cbn [tail_calls]; [by exists []|].
  unfold runs_now. specialize (Hr m). destruct (Root m); [|done]. cbn. rewrite IH. cbn. eexists. split; [done|]. case_match; set_solver.
Qed.

Lemma process_one_total cfg ver e root i k m st rank : well_behaved cfg e rank ->
  exists tails st', process_one cfg ver e root i k m st = Ret (tails, st') /\ Forall (fun km => (rank km.2 < rank m)%nat) tails.
Proof.
  intros [H1 H2 H3 H4]. unfold process_one. cbn [enterTransactionInternal].
  specialize (H3 i m (app (rs_d st)) (named_view (journal (rs_d st)))).
  destruct (RollForward _ _ _ _) as [[[[muts a] ops]|]|] eqn:Hrun; [|by eexists _, _|done]. cbn.
  destruct (named_ops_total cfg ver (e_now e) ops H1 H2 (set_app (rs_d st) a)) as [[d1|] ->]; cbn; [|by eexists _, _].
  unfold putMutations. destruct (bool_decide_reflect (muts = [])) as [->|_]; cbn; [by eexists _, _|].
  destruct (make_mutations_total cfg ver root (GetEntityGroupVersion d1 root) (Z.of_nat i) (e_now e) muts H1 H2 0) as [[[ss rs]|] ->]; cbn; [|by eexists _, _].
  destruct (e_put_fails e i); cbn; [by eexists _, _|].
  destruct (tail_calls_total cfg (e_now e) root (zip (map fst rs) muts) H2) as (tails & -> & Hs). cbn. eexists _, _. split; [done|].
  apply Forall_forall. intros [k' m'] Hin%Hs. apply elem_of_zip_r in Hin. by eapply H4.
Qed.

Lemma process_loop_total cfg ver e root rank : well_behaved cfg e rank -> forall n todo i st,
  Forall (fun km => (rank km.2 < n)%nat) todo -> exists fuel st', process_loop fuel cfg ver e root i todo st = Some (Ret st').
Proof.
  intros Hb. induction n as [|n IH].
  - intros [|km todo] i st; [by exists 0%nat, st|]. intros [H _]%Forall_cons. lia.
  - assert (H : forall todo1 todo2 i st, Forall (fun km => (rank km.2 < S n)%nat) todo1 -> Forall (fun km => (rank km.2 < n)%nat) todo2 ->
      exists fuel st', process_loop fuel cfg ver e root i (todo1 ++ todo2) st = Some (Ret st')).
    { induction todo1 as [|[k m] todo1 IH1]; intros todo2 i st H1 H2; [by apply IH|]. apply Forall_cons in H1 as [Hm H1]. cbn in Hm.
      destruct (process_one_total cfg ver e root i k m st rank Hb) as (tails & st1 & E & Ht).
      destruct (IH1 (todo2 ++ tails) (S i) st1 H1) as (fuel & st' & Hl).
      { apply Forall_app. split; [done|]. eapply Forall_impl; [exact Ht|]. cbn. lia. }
      exists (S fuel), st'. rewrite <-app_comm_cons. cbn [process_loop]. rewrite E. by rewrite <-app_assoc. }
    intros todo i st Ht. destruct (H todo [] i st Ht (Forall_nil_2 _)) as (fuel & st' & Hl). rewrite app_nil_r in Hl. by exists fuel, st'.
Qed.

Lemma process_loop_more cfg ver e root fuel : forall fuel' i todo st res, (fuel <= fuel')%nat ->
  process_loop fuel cfg ver e root i todo st = Some res -> process_loop fuel' cfg ver e root i todo st = Some res.
Proof.
  induction fuel as [|fuel IH]; intros fuel' i todo st res Hle; (destruct todo as [|[k m] todo]; [by destruct fuel'|]); [done|].
  destruct fuel' as [|fuel']; [lia|]. cbn [process_loop]. destruct (process_one _ _ _ _ _ _ _ _) as [[tails st1]|]; [|done].
  apply IH. lia.
Qed.

Lemma delete_all_lookup ks : forall d k, (k ∈ ks -> journal (delete_all d ks) !! k = None) /\ (journal d !! k = None -> journal (delete_all d ks) !! k = None).
Proof.
  unfold delete_all. cbn. intros d. generalize (journal d). clear d. induction ks as [|k0 ks IH]; intros j k; cbn; [split; [by intros H%elem_of_nil|done]|].
  destruct (IH (delete k0 j) k) as [H1 H2]. split.
  - intros [->|Hk]%elem_of_cons; [apply H2, lookup_delete_eq|by apply H1].
  - intros Hj. apply H2. apply lookup_delete_None. by right.
Qed.

(** What was loaded is gone when its run never fails and writes work. *)
Lemma load_all get_fails j ks : (forall x : MKey, get_fails x = false) -> exists muts, loadFilteredMutations get_fails j ks = Ok muts /\
  forall k r m, k ∈ ks -> j !! k = Some r -> GetMutation r = Some m -> (k, m) ∈ muts.
Proof.
  intros Hget. induction ks as [|k0 ks (muts & IH & Hin)]; [exists []; split; [done|intros k r m H; by apply elem_of_nil in H]|].
  cbn [loadFilteredMutations]. rewrite Hget, IH. destruct (j !! k0 ≫= GetMutation) as [m0|] eqn:E; eexists; (split; [done|]);
    intros k r m [->|Hk]%elem_of_cons Hj Hg.
  - rewrite Hj in E. cbn in E. rewrite E in Hg. injection Hg as ->. by left.
  - right. by eapply Hin.
  - rewrite Hj in E. cbn in E. congruence.
  - by eapply Hin.
Qed.

Lemma processRoot_progress cfg ver re e rank root banSet c d k r m :
  wf_keys d root 0 -> (forall x, get_fails re x = false) -> lost_lock re = false -> txn_env re = Some e -> last_delete_fails re = false ->
  well_behaved cfg e rank ->
  k ∈ getBatchByRoot cfg banSet (answer re) -> is_named k.2 = false \/ untouched e k -> journal d !! k = Some r -> GetMutation r = Some m ->
  runs_ok cfg ver e root m -> exists fuel banSet' c' shards d', journal d' !! k = None /\
    forall fuel', (fuel <= fuel')%nat -> processRoot fuel' cfg ver re root banSet c d = Some (Ret (Ok (banSet', c', shards, d'))).
Proof.
  intros Hwf Hget Hlost Htxn Hdel Hb Hk Hn Hj Hg Hok. unfold processRoot.
  destruct (bool_decide_reflect (getBatchByRoot cfg banSet (answer re) = [])) as [He|_]; [rewrite He in Hk; by apply elem_of_nil in Hk|].
  set (ks := getBatchByRoot cfg banSet (answer re)) in *.
  destruct (load_all (get_fails re) (journal d) ks Hget) as (muts & -> & Hin). pose proof (Hin k r m Hk Hj Hg) as Hkm. rewrite Hlost, Htxn.
  destruct (process_loop_total cfg ver e root rank Hb (S (list_max (map (fun km => rank km.2) muts))) muts 0 (start_root d c)) as (fuel & st & Hloop).
  { apply Forall_forall. intros km Hkm'. apply Nat.lt_succ_r. pose proof (proj1 (list_max_le (map (fun km => rank km.2) muts) _) (le_n _)) as H.
    rewrite List.Forall_forall in H. apply H, in_map_iff. exists km. by rewrite <-list_elem_of_In. }
  destruct (process_loop_frame _ _ _ _ _ 0 _ (start_root d c) _ Hwf Hloop) as (_ & _ & B3).
  assert (Hs : stays_gone e d root 0 k) by (destruct Hn as [Hn|]; [left; destruct Hwf as [_ Hw]; by eapply Hw|by right]).
  pose proof (B3 k m Hkm Hs Hok) as Hgone.
  destruct (bool_decide_reflect (toDel st = [])) as [Hnil|Hnil].
  - exists fuel, banSet, (cnt st), (allShards st), (bump (rs_d st) root). split; [destruct Hgone as [|Hin']; [done|rewrite Hnil in Hin'; by apply elem_of_nil in Hin']|].
    intros fuel' Hf. unfold root_txn. rewrite (process_loop_more _ _ _ _ _ _ _ _ _ _ Hf Hloop). cbn. by rewrite bool_decide_true.
  - eexists fuel, _, _, _, (delete_all (bump (rs_d st) root) (toDel st)). split.
    + destruct (delete_all_lookup (toDel st) (bump (rs_d st) root) k) as [C1 C2]. destruct Hgone; auto.
    + intros fuel' Hf. unfold root_txn. rewrite (process_loop_more _ _ _ _ _ _ _ _ _ _ Hf Hloop). cbn. rewrite bool_decide_false by done. by rewrite Hdel.
Qed.
End Progress.
