(* ===== verification/TumbleExec.v ===== *)
(** tumble: executable runs of the system, from a list of actions; and that the
    handler [processRoot] is such a run. *)
From stdpp Require Import fin_maps.
From S2P Require Import Prelude Tumble TumbleJournal TumbleViews TumbleSystem.
Local Open Scope Z_scope.

Section Exec.
Context {DK : DSKeys} {TA : TumbleApp}.
Context (allowed : Env -> M -> A -> gmap MKey M -> Prop) (calls : TxnFn -> A -> gmap MKey M -> Prop) (client_op : MKey * option M -> Prop) (strict : bool).
Context (cfg : Config) (ver : string) (fuel : nat).
Notation sys_step := (sys_step allowed calls client_op strict).

(** The [i]th worker goes on. *)
Inductive Action :=
| ACall (root : option Key) (fn : TxnFn)
| AFetch (root : Key) (answer : list MKey)
| ALoad (i : nat)
| ATxn (i : nat) (e : TxnEnv)
| ADelete (i : nat)
| AStop (i : nat).

Definition swap_worker (ws : list Worker) (i : nat) (w : option Worker) : list Worker :=
  take i ws ++ match w with Some w => [w] | None => [] end ++ drop (S i) ws.
Definition exec (y : Sys) (a : Action) : option Sys :=
  match a with
  | ACall root fn =>
      match RunUnbuffered cfg ver 0 false root fn (y_d y) with Ret (Ok (_, d)) => Some (y_set y d (y_workers y)) | _ => None end
  | AFetch root answer =>
      if bool_decide (key_root root = root) && bool_decide (Forall (fun k => (k, root) ∈ y_seen y) answer)
      then Some (y_set y (y_d y) ({| w_root := root; w_stage := Fetched (getBatchByRoot cfg ∅ answer) |} :: y_workers y)) else None
  | ALoad i =>
      w ← y_workers y !! i;
      match w_stage w with
      | Fetched ks =>
          match loadFilteredMutations (fun _ => false) (journal (y_d y)) ks with
          | Ok muts => Some (y_set y (y_d y) (swap_worker (y_workers y) i (Some {| w_root := w_root w; w_stage := Loaded muts |})))
          | Err _ => None
          end
      | _ => None
      end
  | ATxn i e =>
      w ← y_workers y !! i;
      match w_stage w with
      | Loaded muts =>
          match root_txn fuel cfg ver e (w_root w) muts 0 (y_d y) with
          | Some (Ret st) => Some (y_set y (rs_d st) (swap_worker (y_workers y) i (Some {| w_root := w_root w; w_stage := Committed (toDel st) |})))
          | _ => None
          end
      | _ => None
      end
  | ADelete i =>
      w ← y_workers y !! i;
      match w_stage w with
      | Committed (k :: ks) => Some (y_set y (delete_all (y_d y) [k]) (swap_worker (y_workers y) i (Some {| w_root := w_root w; w_stage := Committed ks |})))
      | _ => None
      end
  | AStop i => _ ← y_workers y !! i; Some (y_set y (y_d y) (swap_worker (y_workers y) i None))
  end.

(** What the steps need besides. *)
Definition exec_ok (y : Sys) (a : Action) : Prop :=
  match a with
  | ACall root fn => calls fn (app (y_d y)) (named_view (journal (y_d y)))
  | ATxn i e =>
      (forall k, e_del_fails e k = false) /\
      match y_workers y !! i with
      | Some {| w_root := root; w_stage := Loaded muts |} => loop_allowed allowed fuel cfg ver e root 0 muts (start_root (y_d y) 0)
      | _ => True
      end
  | _ => True
  end.
Fixpoint execs (y : Sys) (l : list Action) : option Sys := match l with [] => Some y | a :: l => y ← exec y a; execs y l end.
Fixpoint execs_ok (y : Sys) (l : list Action) : Prop :=
  match l with [] => True | a :: l => exec_ok y a /\ match exec y a with Some y => execs_ok y l | None => True end end.

Lemma worker_split (ws : list Worker) i w : ws !! i = Some w -> ws = take i ws ++ w :: drop (S i) ws.
Proof. intros H. symmetry. by apply take_drop_middle. Qed.

Lemma action_sound y a y' : exec y a = Some y' -> exec_ok y a -> sys_step y y'.
Proof.
  destruct a as [root fn|root answer|i|i e|i|i]; cbn [exec exec_ok].
  - destruct (RunUnbuffered _ _ _ _ _ _ _) as [[[ss d]|]|] eqn:E; [|done..]. intros [= <-] Hc. by eapply s_call.
  - destruct (bool_decide_reflect (key_root root = root)) as [Hr|]; [|done].
    destruct (bool_decide_reflect (Forall (fun k => (k, root) ∈ y_seen y) answer)) as [Ha|]; [|done]. intros [= <-] _.
    apply s_fetch; [done|]. by apply Forall_forall.
  - destruct (y_workers y !! i) as [[root st]|] eqn:Hw; [|done]. cbn. destruct st as [ks| |]; [|done..].
    destruct (loadFilteredMutations _ _ _) as [muts|] eqn:El; [|done]. intros [= <-] _. eapply s_load; [by apply worker_split|done].
  - destruct (y_workers y !! i) as [[root st]|] eqn:Hw; [|done]. cbn. destruct st as [|muts|]; [done| |done].
    destruct (root_txn _ _ _ _ _ _ _ _) as [[st|]|] eqn:Et; [|done..]. intros [= <-] [Hd Hal]. eapply s_txn; [by apply worker_split|done|done|done].
  - destruct (y_workers y !! i) as [[root st]|] eqn:Hw; [|done]. cbn. destruct st as [| |[|k ks]]; [done..|]. intros [= <-] _.
    apply (s_delete _ _ _ _ _ _ _ root [] k ks). by apply worker_split.
  - destruct (y_workers y !! i) as [w|] eqn:Hw; [|done]. cbn. intros [= <-] _. eapply s_stop. by apply worker_split.
Qed.
Lemma execs_sound l : forall y y', execs y l = Some y' -> execs_ok y l -> rtc sys_step y y'.
Proof.
  induction l as [|a l IH]; intros y y'; cbn; [by intros [= <-]|]. destruct (exec y a) as [y1|] eqn:E; [|done]. cbn.
  intros H [H1 H2]. eapply rtc_l; [by eapply action_sound|by apply IH].
Qed.

(** [ok] is a test of what may run. *)
Section Decided.
Context (ok : Env -> M -> A -> gmap MKey M -> bool) (Hok : forall e m a v, ok e m a v = true -> allowed e m a v).
Fixpoint loop_okb (fuel : nat) (e : TxnEnv) (root : Key) (i : nat) (todo : list (MKey * M)) (st : RootState) : bool :=
  match todo, fuel with
  | (k, m) :: todo, S fuel =>
      ok (e_run e i) m (app (rs_d st)) (named_view (journal (rs_d st))) &&
      match process_one cfg ver e root i k m st with
      | Ret (tails, st) => loop_okb fuel e root (S i) (todo ++ tails) st
      | Panic => true
      end
  | _, _ => true
  end.
Definition exec_okb (y : Sys) (a : Action) : bool :=
  match a with
  | ATxn i e =>
      match y_workers y !! i with
      | Some {| w_root := root; w_stage := Loaded muts |} => loop_okb fuel e root 0 muts (start_root (y_d y) 0)
      | _ => true
      end
  | _ => true
  end.
Fixpoint execs_okb (y : Sys) (l : list Action) : bool :=
  match l with [] => true | a :: l => exec_okb y a && match exec y a with Some y => execs_okb y l | None => true end end.

Lemma loop_okb_sound e root n : forall (i : nat) todo st, loop_okb n e root i todo st = true -> loop_allowed allowed n cfg ver e root i todo st.
Proof.
  induction n as [|n IH]; intros i [|[k m] todo] st; try done. cbn [loop_okb loop_allowed]. intros [H1 H2]%andb_true_iff. split; [by apply Hok|].
  destruct (process_one _ _ _ _ _ _ _ _) as [[tails st']|]; [by apply IH|done].
Qed.
Lemma execs_okb_sound l : (forall root fn, ACall root fn ∈ l -> forall a v, calls fn a v) ->
  (forall i e, ATxn i e ∈ l -> forall k, e_del_fails e k = false) -> forall y, execs_okb y l = true -> execs_ok y l.
Proof.
  induction l as [|a l IH]; intros Hc Hd y; [done|]. cbn [execs_okb execs_ok]. intros [H1 H2]%andb_true_iff. split.
  - destruct a as [root fn|root answer|i|i e|i|i]; try done; [eapply Hc; by apply list_elem_of_here|].
    split; [apply (Hd i); by apply list_elem_of_here|]. cbn in H1. destruct (y_workers y !! i) as [[root [|muts|]]|]; try done.
    by apply loop_okb_sound.
  - destruct (exec y a) as [y'|]; [|done]. apply IH; [intros; eapply Hc|intros i e ?; apply (Hd i)|done]; by apply list_elem_of_further.
Qed.
End Decided.
End Exec.

Definition ran {X} (o : option X) : bool := match o with Some _ => true | None => false end.
Lemma ran_default {X} (x : X) o : ran o = true -> o = Some (default x o).
Proof. by destruct o. Qed.

(** * The handler *)
Section Handler.
Context {DK : DSKeys} {TA : TumbleApp}.
Context (allowed : Env -> M -> A -> gmap MKey M -> Prop) (calls : TxnFn -> A -> gmap MKey M -> Prop) (client_op : MKey * option M -> Prop) (strict : bool).
Notation sys_step := (sys_step allowed calls client_op strict).

Lemma delete_steps root ws ks : forall y, y_workers y = {| w_root := root; w_stage := Committed ks |} :: ws ->
  exists y', rtc sys_step y y' /\ y_d y' = delete_all (y_d y) ks /\ y_workers y' = {| w_root := root; w_stage := Committed [] |} :: ws.
Proof.
  induction ks as [|k ks IH]; intros y Hw.
  - exists y. split; [done|]. split; [by destruct (y_d y)|done].
  - destruct (IH (y_set y (delete_all (y_d y) [k]) ({| w_root := root; w_stage := Committed ks |} :: ws))) as (y' & H1 & H2 & H3); [done|].
    exists y'. split; [|by split]. eapply rtc_l; [|exact H1]. by apply (s_delete _ _ _ _ y [] ws root [] k ks).
Qed.

(** [processRoot], when nothing comes in between, is a run of the system. *)
Lemma processRoot_steps fuel cfg ver re root banSet c y banSet' c' shards d' :
  key_root root = root -> (forall k, k ∈ answer re -> (k, root) ∈ y_seen y) ->
  (forall e, txn_env re = Some e -> (strict = true -> forall k, e_del_fails e k = false) /\
     forall muts, loop_allowed allowed fuel cfg ver e root 0 muts (start_root (y_d y) c)) ->
  processRoot fuel cfg ver re root banSet c (y_d y) = Some (Ret (Ok (banSet', c', shards, d'))) ->
  exists y', rtc sys_step y y' /\ y_d y' = d' /\ y_workers y' = y_workers y.
Proof.
  intros Hroot Hseen Henv. unfold processRoot. destruct (bool_decide _); [intros [= _ _ _ <-]; by exists y|].
  destruct (loadFilteredMutations (get_fails re) (journal (y_d y)) _) as [muts|] eqn:El; [|done].
  destruct (lost_lock re); [intros [= _ _ _ <-]; by exists y|]. destruct (txn_env re) as [e|] eqn:Ee; [|done].
  destruct (Henv e eq_refl) as [Hdel Hal].
  destruct (root_txn fuel cfg ver e root muts c (y_d y)) as [[st|]|] eqn:Et; cbn; [|done|done]. intros H.
  set (y1 := y_set y (y_d y) ({| w_root := root; w_stage := Fetched (getBatchByRoot cfg banSet (answer re)) |} :: y_workers y)).
  set (y2 := y_set y1 (y_d y) ({| w_root := root; w_stage := Loaded muts |} :: y_workers y)).
  set (y3 := y_set y2 (rs_d st) ({| w_root := root; w_stage := Committed (toDel st) |} :: y_workers y)).
  assert (H3 : rtc sys_step y y3).
  { eapply rtc_l; [by apply (s_fetch _ _ _ _ y cfg banSet root (answer re))|].
    eapply rtc_l; [by apply (s_load _ _ _ _ y1 [] (y_workers y) root (getBatchByRoot cfg banSet (answer re)) (get_fails re) muts)|].
    apply rtc_once. by apply (s_txn _ _ _ _ y2 [] (y_workers y) root muts fuel cfg ver e c st). }
  assert (Hend : forall y4, rtc sys_step y y4 -> y_d y4 = d' -> (exists st4, y_workers y4 = {| w_root := root; w_stage := st4 |} :: y_workers y) ->
    exists y', rtc sys_step y y' /\ y_d y' = d' /\ y_workers y' = y_workers y).
  { intros y4 Hs Hd [st4 Hw]. exists (y_set y4 (y_d y4) (y_workers y)). split; [|by split]. eapply rtc_r; [exact Hs|].
    by apply (s_stop _ _ _ _ y4 [] {| w_root := root; w_stage := st4 |} (y_workers y)). }
  destruct (bool_decide _); injection H as _ _ _ H.
  - apply (Hend y3); [done|done|by eexists].
  - destruct (last_delete_fails re); [apply (Hend y3); [done|done|by eexists]|].
    destruct (delete_steps root (y_workers y) (toDel st) y3 eq_refl) as (y4 & D1 & D2 & D3).
    apply (Hend y4); [by etrans|by rewrite D2|by eexists].
Qed.
End Handler.
