(* ===== verification/TumbleDM.v ===== *)
(** The dependency manager on tumble.  The mutations of dm/appengine/mutate as an
    application of tumble (the keys of dm/appengine/model/keys.go, the timeouts as
    named mutations of dm/appengine/mutate/timeout_execution.go), and: what
    tumble's workers do to its entities are steps of the system of DM. *)
From stdpp Require Import fin_maps.
From S2P Require Import Prelude DM DMInvariants DMSystem.
From S2P Require Import Tumble TumbleJournal TumbleViews TumbleSystem TumbleSim.
Local Open Scope Z_scope.

(** * Keys *)
Inductive DMKey :=
| QuestKey (qid : string) | AttemptKey (aid : AID) | ExecutionKey (eid : EID) | GroupKey (aid : AID) | TempKey (hash : string).
#[export] Instance DMKey_eq_dec : EqDecision DMKey.
Proof. solve_decision. Defined.
#[export] Instance DMKey_countable : Countable DMKey.
Proof.
  refine (inj_countable'
    (fun k => match k with
              | QuestKey q => inl (inl q) | TempKey h => inl (inr h)
              | AttemptKey a => inr (inl (inl a)) | GroupKey a => inr (inl (inr a)) | ExecutionKey e => inr (inr e)
              end)
    (fun x => match x with
              | inl (inl q) => QuestKey q | inl (inr h) => TempKey h
              | inr (inl (inl a)) => AttemptKey a | inr (inl (inr a)) => GroupKey a | inr (inr e) => ExecutionKey e
              end) _).
  by intros [].
Defined.

Definition DMKey_root (k : DMKey) : DMKey := match k with ExecutionKey e => AttemptKey e.1 | _ => k end.
#[export] Instance DM_keys : DSKeys := {|
  Key := DMKey; key_root := DMKey_root; HasAncestor k r := bool_decide (k = r \/ DMKey_root k = r) |}.
#[export] Instance DM_keys_laws : DSKeysLaws.
Proof.
  split; [by intros []|]. intros k r Hr. cbn in *. apply bool_decide_ext. split; [|by right]. by intros [->|].
Qed.

(** [Root] of the mutations. *)
Definition AckFwdDep_Root (From : AID) : DMKey := AttemptKey From.
Definition AddBackDep_Root (To : AID) : DMKey := GroupKey To.
Definition EnsureAttempt_Root (ID : AID) : DMKey := AttemptKey ID.
Definition ScheduleExecution_Root (For : AID) : DMKey := AttemptKey For.
Definition FinishExecution_Root (eid : EID) : DMKey := ExecutionKey eid.
Definition RecordCompletion_Root (For : AID) : DMKey := GroupKey For.
Definition TimeoutExecution_Root (t : TimeoutExec) : DMKey := AttemptKey (T_For t).1.
Definition MergeQuest_Root (q : Quest) : DMKey := QuestKey (Quest_ID q).
Definition EnsureQuestAttempts_Root (q : Quest) : DMKey := QuestKey (Quest_ID q).
Definition DM_Root (m : Mutation) : DMKey :=
  match m with
  | AckFwdDep From _ => AckFwdDep_Root From
  | AddBackDep _ To _ => AddBackDep_Root To
  | EnsureAttempt ID => EnsureAttempt_Root ID
  | ScheduleExecution For => ScheduleExecution_Root For
  | FinishExecution eid _ => FinishExecution_Root eid
  | RecordCompletion For => RecordCompletion_Root For
  | TimeoutExecution t => TimeoutExecution_Root t
  | MergeQuest q _ => MergeQuest_Root q
  | EnsureQuestAttempts q _ _ => EnsureQuestAttempts_Root q
  end.
Definition DM_TypeName (m : Mutation) : string :=
  match m with
  | AckFwdDep _ _ => "*mutate.AckFwdDep" | AddBackDep _ _ _ => "*mutate.AddBackDep" | EnsureAttempt _ => "*mutate.EnsureAttempt"
  | ScheduleExecution _ => "*mutate.ScheduleExecution" | FinishExecution _ _ => "*mutate.FinishExecution"
  | RecordCompletion _ => "*mutate.RecordCompletion" | TimeoutExecution _ => "*mutate.TimeoutExecution"
  | MergeQuest _ _ => "*mutate.MergeQuest" | EnsureQuestAttempts _ _ _ => "*mutate.EnsureQuestAttempts"
  end.
Definition DM_registry : list string :=
  ["*mutate.AckFwdDep"; "*mutate.AddBackDep"; "*mutate.EnsureAttempt"; "*mutate.ScheduleExecution"; "*mutate.FinishExecution";
   "*mutate.RecordCompletion"; "*mutate.TimeoutExecution"; "*mutate.MergeQuest"; "*mutate.EnsureQuestAttempts"].

(** * Timeouts are named mutations

    The entities do not include them; a transaction sees both as the store of
    DM, and what it changes of the timeouts it puts or cancels. *)
#[export] Instance TimeoutExec_eq_dec : EqDecision TimeoutExec.
Proof. solve_decision. Defined.
Definition timeout_name : bytes := [116; 105; 109; 101; 111; 117; 116].
Definition timeout_key (e : EID) : DMKey * bytes := (ExecutionKey e, timeout_name).
Definition with_timeouts (s : Store) (t : gmap EID TimeoutExec) : Store :=
  {| attempts := attempts s; executions := executions s; fwdDeps := fwdDeps s; groups := groups s;
     backDeps := backDeps s; quests := quests s; results := results s; timeouts := t |}.
Definition timeout_entry (km : (DMKey * bytes) * Mutation) : option (EID * TimeoutExec) :=
  match km with
  | ((ExecutionKey e, n), TimeoutExecution t) => if bool_decide (n = timeout_name) then Some (e, t) else None
  | _ => None
  end.
Definition timeouts_of (v : gmap (DMKey * bytes) Mutation) : gmap EID TimeoutExec := list_to_map (omap timeout_entry (map_to_list v)).
Definition timeout_ops (old new : gmap EID TimeoutExec) : list ((DMKey * bytes) * option Mutation) :=
  map (fun et => (timeout_key et.1, Some (TimeoutExecution et.2))) (map_to_list (filter (fun et => old !! et.1 <> Some et.2) new)) ++
  map (fun e => (timeout_key e, None)) (elements (dom old ∖ dom new)).

Definition as_store (a : Store) (v : gmap (DMKey * bytes) Mutation) : Store := with_timeouts a (timeouts_of v).
Definition in_txn (f : txn (list Mutation)) (a : Store) (v : gmap (DMKey * bytes) Mutation)
  : outcome (result unit (list Mutation * Store * list ((DMKey * bytes) * option Mutation))) :=
  match f (as_store a v) with
  | Done muts s => Ret (Ok (muts, with_timeouts s ∅, timeout_ops (timeouts_of v) (timeouts s)))
  | Fail _ => Ret (Err tt)
  | Crash => Panic
  end.

(** * Timeouts stay under their executions

    [keeps f]: the transaction [f] only puts a timeout under the execution it is for. *)
Definition timeouts_ok (s : Store) : Prop := forall e t, timeouts s !! e = Some t -> T_For t = e.
Definition keeps {X} (f : txn X) : Prop := forall s a s', f s = Done a s' -> timeouts_ok s -> timeouts_ok s'.

Lemma keeps_ret {X} (a : X) : keeps (mret a).
Proof. by intros s a' s' [= _ <-]. Qed.
Lemma keeps_bind {X Y} (f : txn X) (g : X -> txn Y) : keeps f -> (forall a, keeps (g a)) -> keeps (f ≫= g).
Proof. intros Hf Hg s b s' H Hs. unfold mbind, txn_bind in H. destruct (f s) as [a s1| |] eqn:E; [|done..]. eapply Hg; [done|]. by eapply Hf. Qed.
Lemma keeps_fail {X} e : keeps (X := X) (fail e).
Proof. by intros s a s' ?. Qed.
Lemma keeps_panic {X} : keeps (X := X) panic.
Proof. by intros s a s' ?. Qed.
Lemma keeps_lift {X} (r : result DMError X) : keeps (lift r).
Proof. destruct r; [apply keeps_ret|apply keeps_fail]. Qed.
Lemma keeps_lift_outcome {X} (r : outcome X) : keeps (lift_outcome r).
Proof. destruct r; [apply keeps_ret|apply keeps_panic]. Qed.
Lemma keeps_get {X} (f : Store -> option X) : keeps (get f).
Proof. intros s a s' H. unfold get in H. destruct (f s); [|done]. by injection H as _ <-. Qed.
Lemma keeps_same {X} (f : Store -> X) : keeps (fun s => Done (f s) s).
Proof. by intros s a s' [= _ <-]. Qed.
Lemma keeps_lookup {X} (f : Store -> option X) : keeps (lookupEntity f).
Proof. apply keeps_same. Qed.
Lemma keeps_catch {X} (f : txn X) h : keeps f -> keeps (catch f h).
Proof. intros Hf s a s' H. unfold catch in H. destruct (f s) eqn:E; [|done..]. injection H as <- <-. by eapply Hf. Qed.
Lemma keeps_put (f : Store -> Store) : (forall s, timeouts (f s) = timeouts s) -> keeps (fun s => Done tt (f s)).
Proof. intros Hf s a s' [= _ <-] Hs e t. rewrite Hf. apply Hs. Qed.
Lemma keeps_delTimeout k : keeps (delTimeout k).
Proof. intros s a s' [= _ <-] Hs e t. cbn. intros [_ H]%lookup_delete_Some. by apply Hs. Qed.
Lemma keeps_setTimeout k v : T_For v = k -> keeps (setTimeout k v).
Proof. intros Hk s a s' [= _ <-] Hs e t. cbn. intros [[<- <-]|[_ H]]%lookup_insert_Some; [done|by apply Hs]. Qed.
Create HintDb keeps.
#[local] Hint Resolve keeps_ret keeps_fail keeps_panic keeps_lift keeps_lift_outcome keeps_get keeps_same keeps_lookup keeps_catch
  keeps_delTimeout : keeps.
#[local] Hint Extern 1 (keeps (putAttempt _ _)) => by apply keeps_put : keeps.
#[local] Hint Extern 1 (keeps (putExecution _ _)) => by apply keeps_put : keeps.
#[local] Hint Extern 1 (keeps (putFwdDep _ _)) => by apply keeps_put : keeps.
#[local] Hint Extern 1 (keeps (putGroup _ _)) => by apply keeps_put : keeps.
#[local] Hint Extern 1 (keeps (putBackDep _ _)) => by apply keeps_put : keeps.
#[local] Hint Extern 1 (keeps (putQuest _ _)) => by apply keeps_put : keeps.
#[local] Hint Extern 1 (keeps (putResult _ _)) => by apply keeps_put : keeps.
Ltac keep :=
  repeat first [solve [auto with keeps] | apply keeps_bind | apply keeps_catch | progress (intros; cbv beta iota zeta) | case_match].

Lemma keeps_reset now eid e : keeps (ResetExecutionTimeout now eid e).
Proof. unfold ResetExecutionTimeout. cbv zeta. destruct (eid.2 =? 0); [auto with keeps|]. case_match; auto with keeps; by apply keeps_setTimeout. Qed.
#[local] Hint Resolve keeps_reset : keeps.
Lemma keeps_authenticate auth : keeps (AuthenticateExecution auth).
Proof. unfold AuthenticateExecution, verifyExecutionAndCheckExTok, loadExecution. keep. Qed.
Lemma keeps_invalidate now auth : keeps (InvalidateExecution now auth).
Proof. unfold InvalidateExecution, Revoke, verifyExecutionAndCheckExTok, loadExecution. keep. Qed.
Lemma keeps_activate auth tok : keeps (model_ActivateExecution auth tok).
Proof. unfold model_ActivateExecution, verifyExecutionAndActivate, loadExecution. keep. Qed.
#[local] Hint Resolve keeps_authenticate keeps_invalidate keeps_activate : keeps.
Lemma keeps_putFwdDeps From l : keeps (putFwdDeps From l).
Proof. induction l as [|[d f] l IH]; cbn [putFwdDeps]; keep. Qed.
Lemma keeps_propagate To l : keeps (propagate To l).
Proof. induction l as [|d l IH]; cbn [propagate]; keep. Qed.
#[local] Hint Resolve keeps_putFwdDeps keeps_propagate : keeps.
Lemma keeps_merge q l : keeps (MergeQuest_RollForward q l).
Proof. unfold MergeQuest_RollForward. keep. Qed.
#[local] Hint Resolve keeps_merge : keeps.
Lemma keeps_finish env eid r : keeps (FinishExecution_RollForward env eid r).
Proof. unfold FinishExecution_RollForward, finish_abnormal, finish_normal, shouldRetry. keep. Qed.
#[local] Hint Resolve keeps_finish : keeps.
Lemma keeps_RollForward env m : keeps (DM.RollForward env m).
Proof.
  destruct m; cbn [DM.RollForward];
    unfold AckFwdDep_RollForward, AddBackDep_RollForward, EnsureAttempt_RollForward, ScheduleExecution_RollForward,
      RecordCompletion_RollForward, TimeoutExecution_RollForward, EnsureQuestAttempts_RollForward; keep.
Qed.
Lemma keeps_ActivateExecution env auth tok : keeps (ActivateExecution_RollForward env auth tok).
Proof. unfold ActivateExecution_RollForward. keep. Qed.
Lemma keeps_FinishAttempt env auth d : keeps (FinishAttempt_RollForward env auth d).
Proof. unfold FinishAttempt_RollForward. keep. Qed.
Lemma keeps_run_decision env d : keeps (run_decision env d).
Proof. destruct d; cbn [run_decision]; unfold AddFinishedDeps_RollForward, AddDeps_RollForward, filterExisting; keep. Qed.

Section DMApp.
(** [encoding/gob] and SHA-1. *)
Context (encode : Mutation -> option bytes) (decode : string -> bytes -> option Mutation) (hash : DMKey -> Z).
Context (gob : forall m b, encode m = Some b -> decode (DM_TypeName m) b = Some m) (hash_64 : forall k, in_i64 (hash k)).

#[local] Instance DM_app : TumbleApp := {|
  A := Store; M := Mutation; Env := DM.Env;
  Root m := Some (DM_Root m);
  Delayed m := match m with TimeoutExecution t => Some (Deadline t, false) | _ => None end;
  TypeName := DM_TypeName; registry := DM_registry; gob_encode := encode; gob_decode := decode; root_hash := hash;
  RollForward env m := in_txn (DM.RollForward env m) |}.
#[local] Instance DM_app_laws : TumbleAppLaws.
Proof. split; [exact gob|exact hash_64]. Qed.

Context (blank : string -> Quest) (normalized : JsonResult -> result string JsonResult) (afd : bool).

(** What a mutation may meet, and the transactions of DM's own calls. *)
Definition DM_allowed (env : DM.Env) (m : Mutation) (a : Store) (v : gmap (DMKey * bytes) Mutation) : Prop := runnable env (as_store a v) m.
Inductive DM_call (a : Store) (v : gmap (DMKey * bytes) Mutation) : TxnFn -> Prop :=
| call_notify eid rslt : DM_call a v (fun a _ => Ret (Ok (FinishExecutionFn normalized eid rslt, a, [])))
| call_activate env auth tok : DM_call a v (in_txn (ActivateExecution_RollForward env auth tok))
| call_finish env auth d : DM_call a v (in_txn (FinishAttempt_RollForward env auth d))
| call_ensure env s0 gd exists_ forExecution newQuests newAttempts d
    (Hold : older s0 (as_store a v)) (Hwalk : walk_of s0 newAttempts gd) (Hfits : fits newAttempts) (Hnormal : normal newAttempts)
    (Hd : ensureGraphData blank gd exists_ forExecution newQuests newAttempts = Ret (Ok d))
    (Hafd : afd = false -> forall auth qs deps, d <> DoAddFinishedDeps auth qs deps)
  : DM_call a v (in_txn (run_decision env d)).

(** [true]: in DM's transactions no delete of a mutation fails.  They run in
    txnBuf, which buffers deletes until the commit, so a delete that was accepted
    is done with everything else or not at all. *)
Notation dm_jstep := (jstep DM_allowed (fun fn a v => DM_call a v fn) (fun _ => False) true).
Notation dm_sys_step := (sys_step DM_allowed (fun fn a v => DM_call a v fn) (fun _ => False) true).

(** * The views agree *)
Definition only_timeouts (v : gmap (DMKey * bytes) Mutation) : Prop :=
  forall k m, v !! k = Some m -> exists t, m = TimeoutExecution t /\ k = timeout_key (T_For t).

Lemma timeouts_of_lookup v e : timeouts_of v !! e = v !! timeout_key e ≫= (fun m => match m with TimeoutExecution t => Some t | _ => None end).
Proof.
  unfold timeouts_of. set (l := omap timeout_entry (map_to_list v)).
  assert (Hin : forall e t, (e, t) ∈ l <-> v !! timeout_key e = Some (TimeoutExecution t)).
  { intros e' t. unfold l. rewrite list_elem_of_omap. split.
    - intros ([[k n] m] & Hx%elem_of_map_to_list & He). unfold timeout_entry in He. destruct k as [| |e0| |], m as [| | | | | |t0| |]; try done.
      destruct (bool_decide_reflect (n = timeout_name)) as [->|]; [|done]. by injection He as -> ->.
    - intros Hv. exists (timeout_key e', TimeoutExecution t). split; [by apply elem_of_map_to_list|done]. }
  assert (Hnd : NoDup l.*1).
  { unfold l. pose proof (NoDup_fst_map_to_list v) as Hnd. revert Hnd. generalize (map_to_list v). clear.
    induction l as [|[[k n] m] l IH]; cbn; [constructor|]. intros [Hx Hl]%NoDup_cons.
    destruct k as [| |e| |], m as [| | | | | |t| |]; try by apply IH.
    destruct (bool_decide_reflect (n = timeout_name)) as [->|]; [|by apply IH]. cbn. constructor; [|by apply IH].
    intros ([e' t'] & He & (y & Hy & Hey)%list_elem_of_omap)%list_elem_of_fmap. cbn in He. subst e'. apply Hx.
    unfold timeout_entry in Hey. destruct y as [[[| |e0| |] n0] [| | | | | |t0| |]]; try done.
    destruct (bool_decide_reflect (n0 = timeout_name)) as [->|]; [|done]. injection Hey as -> ->.
    apply list_elem_of_fmap. by exists (timeout_key e, TimeoutExecution t'). }
  apply option_eq. intros t. rewrite <-(elem_of_list_to_map l e t Hnd), Hin.
  destruct (v !! timeout_key e) as [[]|]; cbn; naive_solver.
Qed.

Lemma timeout_key_inj e e' : timeout_key e = timeout_key e' -> e = e'.
Proof. by injection 1. Qed.
Lemma timeouts_of_delete v e : timeouts_of (delete (timeout_key e) v) = delete e (timeouts_of v).
Proof.
  apply map_eq. intros e'. rewrite timeouts_of_lookup. destruct (decide (e' = e)) as [->|Hne].
  - by rewrite !lookup_delete_eq.
  - rewrite !lookup_delete_ne, timeouts_of_lookup; [done|done|]. by intros [=]%timeout_key_inj.
Qed.
Lemma timeouts_of_insert v e t : timeouts_of (<[timeout_key e := TimeoutExecution t]> v) = <[e := t]> (timeouts_of v).
Proof.
  apply map_eq. intros e'. rewrite timeouts_of_lookup. destruct (decide (e' = e)) as [->|Hne].
  - by rewrite !lookup_insert_eq.
  - rewrite !lookup_insert_ne, timeouts_of_lookup; [done|done|]. by intros [=]%timeout_key_inj.
Qed.

Lemma puts_lookup l : forall v e, NoDup l.*1 ->
  timeouts_of (fold_left view_op (map (fun et => (timeout_key et.1, Some (TimeoutExecution et.2))) l) v) !! e =
  match (list_to_map l : gmap EID TimeoutExec) !! e with Some t => Some t | None => timeouts_of v !! e end.
Proof.
  induction l as [|[e0 t0] l IH]; intros v e Hnd; [done|]. cbn in *. apply NoDup_cons in Hnd as [He Hnd].
  rewrite IH by done. destruct (decide (e = e0)) as [->|Hne].
  - rewrite (not_elem_of_list_to_map_1 l e0) by done. by rewrite timeouts_of_insert, !lookup_insert_eq.
  - by rewrite timeouts_of_insert, !lookup_insert_ne.
Qed.
Lemma cancels_lookup l : forall v e,
  timeouts_of (fold_left view_op (map (fun e => (timeout_key e, None)) l) v) !! e = if decide (e ∈ l) then None else timeouts_of v !! e.
Proof.
  induction l as [|e0 l IH]; intros v e; [done|]. cbn. rewrite IH, timeouts_of_delete.
  destruct (decide (e = e0)) as [->|Hne].
  - rewrite lookup_delete_eq, (decide_True _ _ (P := e0 ∈ e0 :: l)) by set_solver. by case_decide.
  - rewrite lookup_delete_ne by done. do 2 case_decide; set_solver.
Qed.

(** What is put or cancelled makes the new timeouts of the old ones. *)
Lemma timeout_ops_view v new : timeouts_of (fold_left view_op (timeout_ops (timeouts_of v) new) v) = new.
Proof.
  unfold timeout_ops. rewrite fold_left_app. apply map_eq. intros e.
  rewrite cancels_lookup, puts_lookup, list_to_map_to_list by apply NoDup_fst_map_to_list.
  case_decide as Hd; rewrite elem_of_elements, elem_of_difference, elem_of_dom, elem_of_dom in Hd.
  - symmetry. apply eq_None_not_Some. naive_solver.
  - destruct (filter _ new !! e) as [t|] eqn:Hf; [by apply map_lookup_filter_Some in Hf as [-> _]|].
    destruct (new !! e) as [t|] eqn:Hn.
    + destruct (decide (timeouts_of v !! e = Some t)); [done|]. exfalso.
      apply map_lookup_filter_None in Hf as [Hf|Hf]; [congruence|by apply (Hf t)].
    + apply eq_None_not_Some. intros Hs. apply Hd. split; [done|]. by intros [? ?].
Qed.
Lemma timeout_ops_only old new k m : (forall e t, new !! e = Some t -> T_For t = e) -> (k, Some m) ∈ timeout_ops old new ->
  exists t, m = TimeoutExecution t /\ k = timeout_key (T_For t).
Proof.
  intros Hn. unfold timeout_ops. intros [([e t] & He & Hin)%list_elem_of_fmap|(e & He & _)%list_elem_of_fmap]%elem_of_app; [|done].
  injection He as -> ->. exists t. split; [done|]. apply elem_of_map_to_list, map_lookup_filter_Some in Hin as [Hin _]. by rewrite (Hn e t).
Qed.
Lemma view_only v ops : only_timeouts v -> (forall k m, (k, Some m) ∈ ops -> exists t, m = TimeoutExecution t /\ k = timeout_key (T_For t)) ->
  only_timeouts (fold_left view_op ops v).
Proof.
  revert v. induction ops as [|[k o] ops IH]; intros v Hv Hops; [done|]. cbn. apply IH; [|intros; apply Hops; set_solver].
  intros k' m. unfold view_op. cbn. destruct o as [m'|].
  - intros [[<- <-]|[_ H]]%lookup_insert_Some; [apply Hops; set_solver|by apply Hv].
  - intros [_ H]%lookup_delete_Some. by apply Hv.
Qed.

Lemma in_txn_spec f a v muts a' ops : keeps f -> only_timeouts v -> in_txn f a v = Ret (Ok (muts, a', ops)) -> exists s,
  f (as_store a v) = Done muts s /\ as_store a' (fold_left view_op ops v) = s /\ only_timeouts (fold_left view_op ops v) /\
  forall k m, (k, m) ∈ puts ops -> exists t, m = TimeoutExecution t /\ k = timeout_key (T_For t).
Proof.
  intros Hf Hv. unfold in_txn. destruct (f (as_store a v)) as [muts' s| |] eqn:E; [|done..]. intros [= <- <- <-].
  assert (Hok : timeouts_ok s).
  { eapply Hf; [done|]. intros e t. cbn. rewrite timeouts_of_lookup. destruct (v !! timeout_key e) as [m|] eqn:Ev; [|done]. cbn.
    destruct (Hv _ _ Ev) as (t' & -> & Hk). intros [= ->]. by apply timeout_key_inj in Hk. }
  assert (Hops : forall k m, (k, Some m) ∈ timeout_ops (timeouts_of v) (timeouts s) -> exists t, m = TimeoutExecution t /\ k = timeout_key (T_For t)).
  { intros k m. apply timeout_ops_only. exact Hok. }
  exists s. split; [done|]. split; [|split; [by apply view_only|]].
  - unfold as_store. rewrite timeout_ops_view. by destruct s.
  - intros k m (op & Hop & He)%list_elem_of_omap. destruct op as [k' [m'|]]; [|done]. injection He as <- <-. by apply Hops.
Qed.

(** * The simulation *)
Record dm_rel (w : JWorld) (W : World) : Prop := {
  dr_store : store W = as_store (j_app w) (j_named w);
  dr_pending : pending W ≡ₚ j_pending w;
  dr_issued : issued W = j_issued w;
  dr_only : only_timeouts (j_named w);
  dr_old : forall k m, (k, m) ∈ j_old w -> exists t, m = TimeoutExecution t /\ k = timeout_key (T_For t);
}.

Lemma dm_not_loose w W k : dm_rel w W -> ~ loose true w k.
Proof. intros [_ _ _ _ Ho] [?|(m & x & (t & -> & ->)%Ho & Hx & Hne)]; [done|]. cbn in *. injection Hx as <-. done. Qed.

Lemma commit_rel w W rest rest' muts a ops s :
  dm_rel w W -> rest ≡ₚ rest' -> as_store a (fold_left view_op ops (j_named w)) = s -> only_timeouts (fold_left view_op ops (j_named w)) ->
  (forall k m, (k, m) ∈ puts ops -> exists t, m = TimeoutExecution t /\ k = timeout_key (T_For t)) ->
  dm_rel (j_commit w rest muts a ops None) (commit W rest' muts s).
Proof.
  intros [A1 A2 A3 A4 A5] Hr Hs Ho Hp. split; cbn; [done|by rewrite Hr|by rewrite A3|done|]. intros k m [H|H]%elem_of_app; auto.
Qed.

Lemma dm_jstep_sim w w' W : dm_rel w W -> dm_jstep w w' -> exists W', DM.step blank normalized afd W W' /\ dm_rel w' W'.
Proof.
  intros Hrel Hs. pose proof Hrel as [A1 A2 A3 A4 A5]. inversion Hs; subst; clear Hs.
  - inversion Hc; subst; cbn in Hrun.
    + injection Hrun as <- <- <-. eexists. split; [apply step_notify|]. apply commit_rel; try done. intros k m H. by apply elem_of_nil in H.
    + destruct (in_txn_spec _ _ _ _ _ _ (keeps_ActivateExecution env auth tok) A4 Hrun) as (s & B1 & B2 & B3 & B4).
      exists (commit W (pending W) muts s). split; [eapply step_activate; by rewrite A1|by apply commit_rel].
    + destruct (in_txn_spec _ _ _ _ _ _ (keeps_FinishAttempt env auth d) A4 Hrun) as (s & B1 & B2 & B3 & B4).
      exists (commit W (pending W) muts s). split; [eapply step_finish; by rewrite A1|by apply commit_rel].
    + destruct (in_txn_spec _ _ _ _ _ _ (keeps_run_decision env d) A4 Hrun) as (s & B1 & B2 & B3 & B4).
      exists (commit W (pending W) muts s). split; [eapply step_ensure; try done; by rewrite A1|by apply commit_rel].
  - destruct Hrun as [Hal Hrun]. cbn in Hrun. destruct (in_txn_spec _ _ _ _ _ _ (keeps_RollForward e m) A4 Hrun) as (s & B1 & B2 & B3 & B4).
    assert (Hin : m ∈ pending W) by (rewrite A2, Hp; set_solver). apply list_elem_of_split in Hin as (p1 & p2 & Hp').
    exists (commit W (p1 ++ p2) muts s). split; [eapply step_once; rewrite ?A1; done|]. apply commit_rel; try done.
    apply (Permutation_app_inv l1 l2 p1 p2 m). by rewrite <-Hp, <-A2, Hp'.
  - destruct Hrun as [Hal Hrun]. cbn in Hrun. destruct (in_txn_spec _ _ _ _ _ _ (keeps_RollForward e m) A4 Hrun) as (s & B1 & B2 & B3 & B4).
    exists (commit W (pending W) muts s). split; [eapply step_again; rewrite ?A1, ?A3; done|by apply commit_rel].
  - destruct (A5 _ _ Ho) as (t & -> & ->). destruct Hrun as [Hal Hrun]. cbn in Hrun.
    destruct (in_txn_spec _ _ _ _ _ _ (keeps_RollForward e (TimeoutExecution t)) A4 Hrun) as (s & B1 & B2 & B3 & B4).
    eexists (commit W (pending W) muts _). split.
    + apply (step_timeout _ _ _ _ e t). unfold mbind, txn_bind. cbn [DM.RollForward] in B1. by rewrite A1, B1.
    + destruct (commit_rel w W (j_pending w) (pending W) muts a ops s) as [C1 C2 C3 C4 C5]; try done.
      split; cbn; [|done|done| |done].
      * unfold as_store in *. rewrite timeouts_of_delete. by rewrite <-B2.
      * intros k m [_ H]%lookup_delete_Some. by apply B3.
  - by destruct (dm_not_loose _ _ _ Hrel Hl).
  - by destruct (dm_not_loose _ _ _ Hrel Hl).
  - done.
Qed.

Definition dm_initial : Sys := initial (with_timeouts empty_store ∅).

(** What tumble reaches, the entities with the timeouts, and what is left to run
    when the mutations in [done] have been. *)
Definition dm_reaches (y : Sys) : Prop := rtc dm_sys_step dm_initial y.
Definition dm_store (y : Sys) : Store := as_store (app (y_d y)) (named_view (journal (y_d y))).
Definition dm_pending (y : Sys) (done : gset ((DMKey * bytes))) : list Mutation := to_run (journal (y_d y)) done.
Lemma dm_sys_sim y : rtc dm_sys_step dm_initial y -> exists done W,
  reachable blank normalized afd W /\ store W = as_store (app (y_d y)) (named_view (journal (y_d y))) /\
  pending W ≡ₚ to_run (journal (y_d y)) done /\ forall k r m, journal (y_d y) !! k = Some r -> is_named k.2 = false -> GetMutation r = Some m -> m ∈ issued W.
Proof.
  intros H%sys_sim. destruct H as (done & w & Hj & [S1 _ _]).
  assert (exists W, reachable blank normalized afd W /\ dm_rel w W) as (W & HW & [R1 R2 R3 R4 R5]).
  { clear S1. revert w Hj. apply rtc_ind_r.
    - exists empty_world. split; [apply rtc_refl|]. split; cbn; try done. by intros k m H%elem_of_nil.
    - intros w w' _ Hs (W & HW & HR). destruct (dm_jstep_sim _ _ _ HR Hs) as (W' & HS & HR'). exists W'. split; [by eapply rtc_r|done]. }
  exists done, W. split; [done|]. split; [by rewrite R1, (jr_app _ _ _ _ S1), (jr_named _ _ _ _ S1)|].
  split; [by rewrite R2, (jr_pending _ _ _ _ S1)|]. intros k r m Hk Hn Hg. rewrite R3.
  destruct (jr_entry _ _ _ _ S1 _ _ Hk) as (m' & x & C1 & _ & _ & C4). rewrite Hn in C4. destruct C4 as [C4 _].
  rewrite Hg in C1. by injection C1 as <-.
Qed.
End DMApp.
