(* ===== verification/TumbleTheorems.v ===== *)
(** What tumble guarantees, with runs of a small application and of the dependency
    manager as examples. *)
From stdpp Require Import fin_maps.
From S2P Require Import Prelude DM DMInvariants DMSystem DMSim.
From S2P Require Import Tumble TumbleJournal TumbleViews TumbleSystem TumbleSim.
From S2P Require Import TumbleProcess TumbleProgress TumbleExec TumbleDM.
Local Open Scope Z_scope.

(** * A small application

    Mutations are numbers; [10 * r + i] is for the root [r] and adds itself to a
    log.  Ten journals eleven, for its own root, and twenty; eleven puts twelve under a name,
    and thirteen fourteen under the same name. *)
Module Toy.
#[export] Instance keys : DSKeys := {|
  Key := Z * list Z; key_root k := (k.1, []);
  HasAncestor k r := bool_decide (k.1 = r.1) && bool_decide (r.2 `prefix_of` k.2) |}.
#[export] Instance keys_laws : DSKeysLaws.
Proof.
  split; [done|]. intros [a p] [b q] Hr. cbn in *. injection Hr as <-. rewrite (bool_decide_true ([] `prefix_of` p)) by apply prefix_nil.
  rewrite andb_true_r. apply bool_decide_ext. split; [by intros ->|by intros [=]].
Qed.
Definition children (m : Z) : list Z := if m =? 10 then [11; 20] else [].
Definition names (m : Z) : list (((Z * list Z) * bytes) * option Z) := if m =? 11 then [(((1, []), [7]), Some 12)] else
  if m =? 13 then [(((1, []), [7]), Some 14)] else [].
#[export] Instance app : TumbleApp := {|
  A := list Z; M := Z; Env := unit; Root m := Some (m / 10, [3]); Delayed _ := None; TypeName _ := "toy"%string; registry := ["toy"%string];
  gob_encode m := Some [m]; gob_decode _ b := head b; root_hash k := i64 (k.1 * 2 ^ 61);
  RollForward _ m a _ := Ret (Ok (children m, a ++ [m], names m)) |}.
#[export] Instance app_laws : TumbleAppLaws.
Proof. split; [by intros m b [= <-]|intros k; apply i64_range]. Qed.

Definition any : Env -> M -> A -> gmap MKey M -> Prop := fun _ _ _ _ => True.
Definition any_call : TxnFn -> A -> gmap MKey M -> Prop := fun _ _ _ => True.
Definition no_op : MKey * option M -> Prop := fun _ => False.
Definition env : TxnEnv := {| e_now := 0; e_run _ := tt; e_put_fails _ := false; e_del_fails _ := false |}.
Definition key (r : Z) : Z * list Z := (r, []).
Definition exec_toy (y : Sys) (l : list Action) : option Sys := execs defaultConfig "v" 10 y l.

(** Ten is run; two workers fetch and load twenty, and both run it before it is
    deleted. *)
Definition twice : list Action :=
  [ACall (Some (key 1)) (RollForward tt 10);
   AFetch (key 2) [(key 1, mutation_id 0 0 1)]; ALoad 0;
   AFetch (key 2) [(key 1, mutation_id 0 0 1)]; ALoad 0; ATxn 0 env; ATxn 1 env; ADelete 0].
(** Then eleven, whose name is taken by twelve, which is run. *)
Definition names_run : list Action :=
  twice ++ [AFetch (key 1) [(key 1, mutation_id 0 0 0)]; ALoad 0; ATxn 0 env;
            AFetch (key 1) [(key 1, named_id [7])]; ALoad 0; ATxn 0 env].
(** Fourteen takes the name of twelve while a worker that has loaded twelve is
    about to run and delete it. *)
Definition lost : list Action :=
  [ACall (Some (key 1)) (RollForward tt 11); AFetch (key 1) [(key 1, named_id [7])]; ALoad 0;
   ACall (Some (key 1)) (RollForward tt 13); ATxn 0 env].
Definition log (l : list Z) : @A keys app := l.
Definition start : Sys := initial (log []).
Definition result (l : list Action) : Sys := default start (exec_toy start l).

Lemma env_ok l : Forall (fun a => match a with ATxn _ e => e = env | _ => True end) l -> forall i e, ATxn i e ∈ l -> forall k, e_del_fails e k = false.
Proof. intros Hl i e Hin k. rewrite Forall_forall in Hl. specialize (Hl _ Hin). cbn in Hl. by subst. Qed.
Lemma run_ok l : Forall (fun a => match a with ATxn _ e => e = env | _ => True end) l ->
  match exec_toy start l with Some _ => execs_okb defaultConfig "v" 10 (fun _ _ _ _ => true) start l | None => false end = true ->
  rtc (sys_step any any_call no_op true) start (result l).
Proof.
  intros Hl. unfold result. destruct (exec_toy start l) as [y|] eqn:E; [|done]. intros Hok. cbn.
  eapply (execs_sound any any_call no_op true defaultConfig "v" 10); [exact E|].
  eapply execs_okb_sound; [done|done|by apply env_ok|exact Hok].
Qed.
Definition keyed (r : Z) (name : bytes) : MKey := (key r, name).
End Toy.
#[local] Existing Instances Toy.keys Toy.keys_laws Toy.app Toy.app_laws.

Example twice_log : app (y_d (Toy.result Toy.twice)) = [10; 20; 20].
Proof. vm_compute. reflexivity. Qed.
Example names_log : app (y_d (Toy.result Toy.names_run)) = [10; 20; 20; 11; 12].
Proof. vm_compute. reflexivity. Qed.
Example names_journal : journal (y_d (Toy.result Toy.names_run)) = ∅.
Proof. vm_compute. reflexivity. Qed.

(** A named mutation that replaces a loaded one is deleted in its place, and is
    never run. *)
Example lost_log : app (y_d (Toy.result Toy.lost)) = [11; 13; 12].
Proof. vm_compute. reflexivity. Qed.
Example lost_journal : journal (y_d (Toy.result Toy.lost)) = ∅.
Proof. vm_compute. reflexivity. Qed.

(** * The journal *)

(** C9. Whatever runs at the same time and whatever fails, tumble implements a
    journal: an anonymous mutation is pending from the transaction that journals it
    to the one that runs it, and further runs repeat mutations that were issued.  A name
    has the mutation that was last put under it; it is gone when it is cancelled and
    when a mutation that was ever put under it has run, at once, or later if that
    mutation was for another root or its deletion failed: what was put in between is
    lost ([lost_log]).  [done] are the mutations that were run and are still to be
    deleted. *)
Theorem tumble_implements_journal {DK : DSKeys} {KL : DSKeysLaws} {TA : TumbleApp} {TL : TumbleAppLaws} allowed calls client_op strict a y :
  rtc (sys_step allowed calls client_op strict) (initial a) y -> exists done w,
    rtc (jstep allowed calls client_op strict) (j_initial a) w /\ j_app w = app (y_d y) /\
    j_named w = named_view (journal (y_d y)) /\ j_pending w ≡ₚ to_run (journal (y_d y)) done.
Proof.
  intros H%sys_sim. destruct H as (done & w & Hj & [S1 _ _]). exists done, w.
  split; [done|]. split; [by destruct S1|]. by destruct S1.
Qed.

Lemma tumble_implements_journal_witness : exists done w,
  rtc (jstep Toy.any Toy.any_call Toy.no_op true) (j_initial (Toy.log [])) w /\ j_app w = Toy.log [10; 20; 20; 11; 12] /\
  j_pending w ≡ₚ to_run (journal (y_d (Toy.result Toy.names_run))) done.
Proof.
  destruct (tumble_implements_journal Toy.any Toy.any_call Toy.no_op true (Toy.log []) (Toy.result Toy.names_run)) as (done & w & H1 & H2 & _ & H3).
  - apply Toy.run_ok; [repeat constructor|vm_compute; reflexivity].
  - exists done, w. split; [exact H1|]. split; [|exact H3]. rewrite H2. vm_compute. reflexivity.
Defined.

(** * Progress *)

(** C11. When the datastore works, runs do not panic and make mutations of a lower rank
    than their own, a turn of [processRoot] ends; and a mutation of its batch whose run never
    fails, and that is anonymous or has a name that no run of this turn puts, is then out
    of the journal, whatever the other mutations of the batch do. *)
Theorem processed_mutation_leaves {DK : DSKeys} {KL : DSKeysLaws} {TA : TumbleApp} {TL : TumbleAppLaws} allowed calls client_op strict a y
    cfg ver re e rank root banSet c k r m :
  rtc (sys_step allowed calls client_op strict) (initial a) y ->
  (forall x, get_fails re x = false) -> lost_lock re = false -> txn_env re = Some e -> last_delete_fails re = false ->
  well_behaved cfg e rank ->
  k ∈ getBatchByRoot cfg banSet (answer re) -> is_named k.2 = false \/ untouched e k ->
  journal (y_d y) !! k = Some r -> GetMutation r = Some m -> runs_ok cfg ver e root m ->
  exists fuel banSet' c' shards d', journal d' !! k = None /\
    forall fuel', (fuel <= fuel')%nat -> processRoot fuel' cfg ver re root banSet c (y_d y) = Some (Ret (Ok (banSet', c', shards, d'))).
Proof.
  intros H%sys_sim. destruct H as (done & w & _ & [S1 _ _]). intros. eapply processRoot_progress; [|done..].
  split; [apply S1|]. intros x rx Hx Hj. destruct (jr_entry _ _ _ _ S1 _ _ Hj) as (mx & z & _ & _ & _ & H'). rewrite Hx in H'.
  apply old_key_used. by destruct H'.
Qed.

Definition toy_called : Sys := Toy.result (take 1 Toy.twice).
Definition toy_root_env : RootEnv :=
  {| answer := [Toy.keyed 1 (mutation_id 0 0 1)]; get_fails _ := false; lost_lock := false; txn_env := Some Toy.env; last_delete_fails := false |}.
Definition toy_row : realMutation := Build_realMutation (DK := Toy.keys) (i64 (2 * 2 ^ 61)) 0 (Toy.key 2) "v" "toy" [20].
Lemma toy_well_behaved : well_behaved (TA := Toy.app) defaultConfig Toy.env (fun m => if m =? 10 then 1%nat else 0%nat).
Proof.
  split; [by vm_compute|done|done|]. intros i m a v muts a' ops nm [= <- _ _]. unfold Toy.children. destruct (Z.eqb_spec m 10) as [->|]; [|by intros H%elem_of_nil].
  intros [->|[->|H%elem_of_nil]%elem_of_cons]%elem_of_cons; [..|done]; cbn; lia.
Qed.

Lemma processed_mutation_leaves_witness : exists fuel banSet c shards d, journal d !! Toy.keyed 1 (mutation_id 0 0 1) = None /\
  processRoot fuel defaultConfig "v" toy_root_env (Toy.key 2) ∅ 0 (y_d toy_called) = Some (Ret (Ok (banSet, c, shards, d))).
Proof.
  destruct (processed_mutation_leaves (DK := Toy.keys) (KL := Toy.keys_laws) (TA := Toy.app) (TL := Toy.app_laws) Toy.any Toy.any_call Toy.no_op true (Toy.log []) toy_called defaultConfig "v" toy_root_env Toy.env
    (fun m => if m =? 10 then 1%nat else 0%nat) (Toy.key 2) ∅ 0 (Toy.keyed 1 (mutation_id 0 0 1))
    toy_row 20)
    as (fuel & banSet & c & shards & d & H1 & H2).
  - apply Toy.run_ok; [repeat constructor|vm_compute; reflexivity].
  - done.
  - done.
  - done.
  - done.
  - exact toy_well_behaved.
  - vm_compute. apply list_elem_of_here.
  - left. vm_compute. reflexivity.
  - vm_compute. reflexivity.
  - vm_compute. reflexivity.
  - intros i d. cbn. discriminate.
  - exists fuel, banSet, c, shards, d. split; [exact H1|]. apply H2. lia.
Defined.

(** What one transaction of a worker takes: the first mutations of the answer
    that are not banned, as many as a batch holds; at most one when the size is not
    positive, and none when the first one is banned. *)
Theorem batch_exact {DK : DSKeys} {TA : TumbleApp} cfg banSet answer :
  getBatchByRoot cfg banSet answer =
    if 0 <? ProcessMaxBatchSize cfg then take (Z.to_nat (ProcessMaxBatchSize cfg)) (filter (fun k => k ∉ banSet) answer)
    else match answer with k :: _ => if decide (k ∈ banSet) then [] else [k] | [] => [] end.
Proof.
  unfold getBatchByRoot. destruct (Z.ltb_spec 0 (ProcessMaxBatchSize cfg)).
  - rewrite Z.max_r by lia. rewrite batch_loop_spec; cbn; [|lia..]. by rewrite Nat.sub_0_r.
  - rewrite Z.max_l by lia. destruct answer as [|k l]; [done|]. cbn.
    destruct (decide (k ∈ banSet)); [by rewrite bool_decide_true|by rewrite bool_decide_false].
Qed.

(** C12. Every mutation that a transaction journals has a task for its shard, once
    the tasks it returns are fired into a working queue, which is shared by the
    namespaces, and the query of that shard finds the mutation; unless another namespace
    whose name is mapped to the same has taken the name of the task: that task runs
    at the same time for the same shard, but in the other namespace. *)
Theorem journaled_mutations_have_tasks {DK : DSKeys} {KL : DSKeysLaws} {TA : TumbleApp} {TL : TumbleAppLaws}
    cfg ver now pf root fn round d ss muts ks d' ns at_ q q' :
  shards_ok cfg -> (forall k, 0 <= GetEntityGroupVersion d k) -> 0 <= round ->
  enterTransactionInternal cfg ver now pf (Some root) fn round d = Ret (Ok (ss, muts, ks, d')) ->
  Forall (fired cfg) q -> in_dec (mkTimestamp cfg at_) -> (forall s, s ∈ ss -> in_dec (ts_time s)) ->
  fireTasks cfg ns at_ false ss true q = (true, q') ->
  length ks = length muts /\ forall k, k ∈ ks -> exists r s qy,
    journal d' !! k = Some r /\ shard cfg r = Ret s /\ (exists t, t ∈ q' /\ stands_for t (makeTask cfg ns (mkTimestamp cfg at_) true s)) /\
    processShardQuery cfg (ts_shard s) = Some qy /\ in_query qy (ExpandedShard r) = true.
Proof.
  intros Hcfg Hv Hr Hent Hq Hf Ht Hfire. split.
  { destruct (enter_spec _ _ _ _ _ _ _ _ _ _ _ _ Hv Hr Hent) as (a & ops & _ & _ & _ & _ & _ & _ & H & _). by eapply Forall2_length. }
  pose proof (enter_shards _ _ _ _ _ _ _ _ _ _ _ _ Hv Hr Hent) as Hss.
  assert (Hshard : forall s k, s ∈ ss -> (exists r, journal d' !! k = Some r /\ shard cfg r = Ret s /\ in_i64 (ExpandedShard r)) ->
    0 <= ts_shard s < NumShards cfg /\ exists r qy, journal d' !! k = Some r /\ shard cfg r = Ret s /\
      processShardQuery cfg (ts_shard s) = Some qy /\ in_query qy (ExpandedShard r) = true).
  { intros s k _ (r & Hj & Hs & He). destruct (shard_found cfg (ExpandedShard r) Hcfg He) as (n & Hn & Hb & (qy & Hqy & Hin) & _).
    unfold shard in Hs. rewrite Hn in Hs. cbn in Hs. injection Hs as <-. split; [done|]. exists r, qy. repeat split; try done. unfold shard. by rewrite Hn. }
  assert (Hdec : forall s, s ∈ ss -> in_dec (ts_shard s) /\ in_dec (ts_time s)).
  { intros s Hs. split; [|by apply Ht]. apply list_elem_of_lookup in Hs as Hs'. destruct Hs' as [x Hx].
    destruct (Forall2_lookup_l _ _ _ _ _ Hss Hx) as (k & _ & Hk). destruct (Hshard s k Hs Hk) as [Hb _].
    unfold in_dec, shards_ok in *. lia. }
  destruct (fireTasks_tasks _ _ _ _ _ _ _ Hq Hdec Hf Hfire) as [_ Htasks].
  intros k Hk. apply list_elem_of_lookup in Hk as [x Hx]. destruct (Forall2_lookup_r _ _ _ _ _ Hss Hx) as (s & Hs & Hk).
  apply list_elem_of_lookup_2 in Hs. destruct (Hshard s k Hs Hk) as (_ & r & qy & H1 & H2 & H3 & H4).
  exists r, s, qy. repeat split; try done. by apply Htasks.
Qed.

Definition toy_txn : list taskShard * list Z * list MKey * Datastore :=
  match enterTransactionInternal defaultConfig "v" 0 false (Some (Toy.key 1)) (RollForward tt 10) 0 (y_d Toy.start) with
  | Ret (Ok x) => x | _ => ([], [], [], y_d Toy.start) end.
Lemma toy_txn_ok : enterTransactionInternal defaultConfig "v" 0 false (Some (Toy.key 1)) (RollForward tt 10) 0 (y_d Toy.start) =
  Ret (Ok (toy_txn.1.1.1, toy_txn.1.1.2, toy_txn.1.2, toy_txn.2)).
Proof.
  assert (H : match enterTransactionInternal defaultConfig "v" 0 false (Some (Toy.key 1)) (RollForward tt 10) 0 (y_d Toy.start) with
              | Ret (Ok _) => true | _ => false end = true) by (vm_compute; reflexivity).
  unfold toy_txn. destruct (enterTransactionInternal _ _ _ _ _ _ _ _) as [[[[[ss muts] ks] d]|]|]; done.
Qed.
Definition toy_queue : list Task := (fireTasks defaultConfig [] 0 false toy_txn.1.1.1 true []).2.

Lemma journaled_mutations_have_tasks_witness :
  map t_shard toy_queue = [20; 24] /\
  (length toy_txn.1.2 = length toy_txn.1.1.2 /\ forall k, k ∈ toy_txn.1.2 -> exists r s qy,
    journal toy_txn.2 !! k = Some r /\ shard defaultConfig r = Ret s /\
    (exists t, t ∈ toy_queue /\ stands_for t (makeTask defaultConfig [] (mkTimestamp defaultConfig 0) true s)) /\
    processShardQuery defaultConfig (ts_shard s) = Some qy /\ in_query qy (ExpandedShard r) = true).
Proof.
  split; [vm_compute; reflexivity|].
  refine (journaled_mutations_have_tasks defaultConfig "v" 0 false (Toy.key 1) (RollForward tt 10) 0 (y_d Toy.start)
    toy_txn.1.1.1 toy_txn.1.1.2 toy_txn.1.2 toy_txn.2 [] 0 [] toy_queue _ _ _ _ _ _ _ _).
  - unfold shards_ok. cbn. lia.
  - intros k. unfold GetEntityGroupVersion. cbn. rewrite lookup_empty. cbn. lia.
  - lia.
  - exact toy_txn_ok.
  - constructor.
  - vm_compute. split; reflexivity.
  - assert (H : toy_txn.1.1.1 = [{| ts_shard := 20; ts_time := 4 |}; {| ts_shard := 24; ts_time := 4 |}]) by (vm_compute; reflexivity).
    rewrite H. intros s [<-|[<-|[]]]%list_elem_of_In; unfold in_dec; cbn; lia.
  - vm_compute. reflexivity.
Defined.

(** * The loop of a shard *)

(** The loop of a shard ends: with a positive duration and pause after work, and
    a clock that does not go back, only so many rounds fit before the end. *)
Theorem process_loop_ends cfg timestamp now shard loop locked last rs :
  0 < DustSettleTimeout cfg -> 0 < ProcessLoopDuration cfg ->
  clock_ok cfg (makeProcessTask cfg timestamp now loop) (prd_reset cfg) now rs ->
  ProcessLoopDuration cfg < Z.of_nat (length rs) * Z.min minNoWorkDelay (DustSettleTimeout cfg) ->
  exists err n, processShard cfg timestamp now shard loop locked last rs = Some (err, n) /\ (n <= length rs)%nat.
Proof.
  intros Hd Hl Hc Hlen. unfold processShard. destruct (processShardQuery cfg shard); [|exists None, 0%nat; split; [done|lia]].
  destruct locked; [|exists None, 0%nat; split; [done|lia]].
  unfold process. destruct (early_exit cfg _ last); [exists None, 0%nat; split; [done|lia]|].
  destruct (process_rounds cfg _ (prd_reset cfg) rs) as [[err n]|] eqn:Hp.
  - exists err, n. split; [done|]. by eapply process_rounds_length.
  - assert (He : p_endTime (makeProcessTask cfg timestamp now loop) = Some (now + ProcessLoopDuration cfg)).
    { unfold makeProcessTask. cbn. destruct (Z.ltb_spec 0 (ProcessLoopDuration cfg)); [done|lia]. }
    pose proof (process_rounds_bounded _ _ _ _ _ _ Hd He Hc Hp). lia.
Qed.

Definition short : Config := {|
  NumShards := 32; TemporalMinDelay := Second; TemporalRoundFactor := 4 * Second; ProcessLoopDuration := 5 * Second;
  DustSettleTimeout := 2 * Second; MaxNoWorkDelay := 2 * Second; NoWorkDelayGrowth := 3; NumGoroutines := 16;
  ProcessMaxBatchSize := 128; DelayedMutations := false |}.
Definition toy_rounds : list Round :=
  map (fun nt => {| numProcessed := nt.1; errCount := 0; transientErrCount := 0; r_now := nt.2 * Second; interrupted := false |})
    [(3, 0); (0, 2); (0, 4); (0, 6); (0, 8); (0, 10)].

Lemma process_loop_ends_witness :
  processShard short 0 0 7 true true None toy_rounds = Some (None, 3%nat) /\
  exists err n, processShard short 0 0 7 true true None toy_rounds = Some (err, n) /\ (n <= 6)%nat.
Proof.
  split; [vm_compute; reflexivity|]. refine (process_loop_ends short 0 0 7 true true None toy_rounds _ _ _ _).
  - vm_compute. reflexivity.
  - vm_compute. reflexivity.
  - vm_compute. repeat split; discriminate.
  - vm_compute. reflexivity.
Defined.
