(* ===== verification/TumbleDMTheorems.v ===== *)
(** The dependency manager on tumble: the refinement, and a run of it. *)
From stdpp Require Import fin_maps.
From S2P Require Import Prelude DM DMInvariants DMSystem DMSim DMTheorems.
From S2P Require Import Tumble TumbleJournal TumbleSystem TumbleExec TumbleDM.
Local Open Scope Z_scope.

(** C10. The dependency manager on tumble: whatever workers and calls come between
    each other, a state that tumble reaches is one of the system of DM, whose
    journal is what tumble has left to run, and whose invariant holds of the entities. *)
Theorem dm_runs_on_tumble encode decode hash
    (gob : forall m b, encode m = Some b -> decode (DM_TypeName m) b = Some m) (hash_64 : forall k, in_i64 (hash k))
    blank normalized afd y :
  dm_reaches encode decode hash blank normalized afd y ->
  exists done W, reachable blank normalized afd W /\ store W = dm_store encode decode hash y /\
    pending W ≡ₚ dm_pending encode decode hash y done /\ inv (store W) (pending W) (issued W).
Proof.
  intros H%(dm_sys_sim encode decode hash gob hash_64). destruct H as (done & W & H1 & H2 & H3 & _).
  exists done, W. split; [done|]. split; [done|]. split; [done|]. by apply (reachable_ok _ _ _ _ H1).
Qed.

(** * A run

    Enough of an encoding for the start of an attempt. *)
Module OnTumble.
#[local] Instance Retry_eq_dec : EqDecision Retry.
Proof. solve_decision. Defined.
#[local] Instance Desc_eq_dec : EqDecision Quest_Desc.
Proof. solve_decision. Defined.
#[local] Instance Quest_eq_dec : EqDecision Quest.
Proof. solve_decision. Defined.
Definition states : list Execution_State := [Execution_SCHEDULING; Execution_RUNNING; Execution_STOPPING; Execution_FINISHED; Execution_ABNORMAL_FINISHED].
Definition state_code (s : Execution_State) : nat :=
  match s with
  | Execution_SCHEDULING => 0 | Execution_RUNNING => 1 | Execution_STOPPING => 2 | Execution_FINISHED => 3 | Execution_ABNORMAL_FINISHED => 4
  end.

Definition enc (m : Mutation) : option bytes :=
  match m with
  | EnsureQuestAttempts q aids b => if bool_decide (q = Ex.quest (Quest_ID q)) then Some [Z.pos (encode (Quest_ID q, aids, b))] else None
  | EnsureAttempt a | ScheduleExecution a => Some [Z.pos (encode a)]
  | TimeoutExecution t => Some [Z.pos (encode (T_For t, state_code (T_State t), TimeoutAttempt t, Deadline t))]
  | _ => None
  end.
Definition dec (ty : string) (b : bytes) : option Mutation :=
  match b with
  | [Z.pos p] =>
      if bool_decide (ty = "*mutate.EnsureQuestAttempts") then
        '(q, aids, b) ← (decode p : option (string * list Z * bool)); Some (EnsureQuestAttempts (Ex.quest q) aids b)
      else if bool_decide (ty = "*mutate.EnsureAttempt") then a ← decode p; Some (EnsureAttempt a)
      else if bool_decide (ty = "*mutate.ScheduleExecution") then a ← decode p; Some (ScheduleExecution a)
      else
        '(e, s, n, d) ← (decode p : option (EID * nat * Z * Z));
        s ← states !! s;
        Some (TimeoutExecution {| T_For := e; T_State := s; TimeoutAttempt := n; Deadline := d |})
  | _ => None
  end.
Lemma gob m b : enc m = Some b -> dec (DM_TypeName m) b = Some m.
Proof.
  unfold enc, dec. destruct m as [| |a|a| | |t| |q aids mq]; try done; cbn [DM_TypeName].
  - intros [= <-]. by rewrite decode_encode.
  - intros [= <-]. by rewrite decode_encode.
  - intros [= <-]. rewrite !bool_decide_false, decode_encode by done. by destruct t as [e [] n d].
  - destruct (bool_decide_reflect (q = Ex.quest (Quest_ID q))) as [Hq|]; [|done]. intros [= <-].
    rewrite bool_decide_true, decode_encode by done. cbn. by rewrite <-Hq.
Qed.
Definition hash (k : DMKey) : Z := match k with QuestKey _ => 1 | AttemptKey _ => 2 | _ => 3 end.
Lemma hash_64 k : in_i64 (hash k).
Proof. destruct k; unfold in_i64; cbn; lia. Qed.
#[local] Instance app : TumbleApp := DM_app enc dec hash.

(** One quest with one attempt. *)
Definition newAttempts : AttemptList := {["a" := [1]]}.
Definition graph : GraphData := walk empty_store newAttempts [Ex.quest "a"].
Definition decision : GraphDecision := DoJournal [EnsureQuestAttempts (Ex.quest "a") [1] false].
Definition ensure : TxnFn := in_txn (run_decision Ex.env decision).
Definition txn_env : TxnEnv := {| e_now := 0; e_run _ := Ex.env; e_put_fails _ := false; e_del_fails _ := false |}.
Definition key (k : DMKey) (name : bytes) : DMKey * bytes := (k, name).
Definition call : Action := ACall (Some (TempKey "h")) ensure.
Definition called : Sys := default (dm_initial enc dec hash) (exec defaultConfig "v" 10 (dm_initial enc dec hash) call).
Definition work : list Action :=
  [AFetch (QuestKey "a") [key (TempKey "h") (mutation_id 0 0 0)]; ALoad 0; ATxn 0 txn_env; ADelete 0;
   AFetch (AttemptKey ("a", 1)) [key (QuestKey "a") (mutation_id 0 0 0)]; ALoad 0; ATxn 0 txn_env; ADelete 0].
Definition worked : Sys := default called (execs defaultConfig "v" 10 called work).

Definition may_run (e : DM.Env) (m : Mutation) (a : Store) (v : gmap (DMKey * bytes) Mutation) : bool :=
  match m with
  | ScheduleExecution For => match attempts a !! For with Some at_ => CurExecution at_ <? 2 ^ 32 - 1 | None => true end
  | RecordCompletion _ => false
  | _ => true
  end.
Lemma may_run_allowed e m a v : may_run e m a v = true -> DM_allowed e m a v.
Proof.
  unfold DM_allowed. destruct m; cbn; try done. destruct (attempts a !! For) as [a0|]; [|by intros _ ? ?].
  intros H a1 [= <-]. lia.
Qed.

Lemma work_ok : Forall (fun a => match a with ACall _ _ => False | ATxn _ e => e = txn_env | _ => True end) work.
Proof. repeat constructor. Qed.
Lemma worked_reached : dm_reaches enc dec hash Ex.quest Ex.norm false worked.
Proof.
  unfold dm_reaches. eapply rtc_l with (y := called).
  - eapply (action_sound _ _ _ _ defaultConfig "v" 10 _ call).
    + apply ran_default. vm_compute. reflexivity.
    + cbn. unfold ensure. eapply (call_ensure enc dec hash Ex.quest Ex.norm false _ _ Ex.env empty_store graph (fun _ => false) None [Ex.quest "a"] newAttempts).
      * intros x a Hx. eauto.
      * apply walk_finds.
      * vm_compute. discriminate.
      * intros q nums. unfold newAttempts. intros [<- <-]%lookup_singleton_Some. repeat constructor. apply not_elem_of_nil.
      * vm_compute. reflexivity.
      * intros _ auth qs deps. vm_compute. discriminate.
  - eapply (execs_sound _ _ _ _ defaultConfig "v" 10 work).
    + apply ran_default. vm_compute. reflexivity.
    + eapply (execs_okb_sound (TA := app) _ _ defaultConfig "v" 10 may_run may_run_allowed).
      * intros root fn H. by destruct (proj1 (Forall_forall _ _) work_ok _ H).
      * intros j e H. pose proof (proj1 (Forall_forall _ _) work_ok _ H) as He. cbn in He. by subst.
      * vm_compute. reflexivity.
Qed.
End OnTumble.

Lemma dm_runs_on_tumble_witness : exists W, reachable Ex.quest Ex.norm false W /\ a_State <$> attempts (store W) !! ("a", 1) = Some Attempt_EXECUTING /\ inv (store W) (pending W) (issued W).
Proof.
  destruct (dm_runs_on_tumble OnTumble.enc OnTumble.dec OnTumble.hash OnTumble.gob OnTumble.hash_64 Ex.quest Ex.norm false
              OnTumble.worked OnTumble.worked_reached) as (done & W & H1 & H2 & _ & H3).
  exists W. split; [exact H1|]. split; [|exact H3]. rewrite H2. vm_compute. reflexivity.
Defined.
