(* ===== verification/LogStorage.v ===== *)
(** Intermediate storage of log entries (logdog/common/storage): requests, the
    interface of a storage, and its implementation in memory
    (common/storage/memory). *)
From S2P Require Import Prelude.
From stdpp Require Import fin_maps sorting.
Local Open Scope Z_scope.

(** * Requests (storage.go, entry.go) *)

(** A project and the path of a stream. *)
Notation streamKey := (bytes * bytes)%type.
Inductive StorageError := ErrExists | ErrDoesNotExist | ErrBadData | StorageFailure (transient : bool).
#[export] Instance StorageError_eq_dec : EqDecision StorageError.
Proof. solve_decision. Defined.

(** The first value belongs to [p_Index]. *)
Record PutRequest := { p_key : streamKey; p_Index : Z; p_Values : list bytes }.
Record GetRequest := { g_key : streamKey; g_Index : Z; g_Limit : Z; KeysOnly : bool }.
(** [e_index] is negative when it is not known; the data may be left out. *)
Record Entry := { D : option bytes; e_index : Z }.

(** A storage: [Get] gives the entries it hands to its callback as long as that
    wants them, and the error it then ends with. *)
Class LogStore := {
  LStore : Type;
  Put : LStore -> PutRequest -> option StorageError * LStore;
  Get : LStore -> GetRequest -> list Entry * option StorageError
}.

(** The index is one of 64 bits; the indices are those of a stream. *)
Definition put_index (r : PutRequest) : Prop := in_i64 (p_Index r).
Definition put_fits (r : PutRequest) : Prop := 0 <= p_Index r /\ p_Index r + Z.of_nat (length (p_Values r)) < 2 ^ 63.
Definition increasing (l : list Entry) : Prop := Sorted Z.lt (map e_index l).

(** What a storage promises: records stay as they were put, at indices that wrap
    around after 64 bits, and those from zero on come out in order, once each. *)
Class LogStoreLaws (LS : LogStore) := {
  store_ok : LStore -> Prop;
  Put_ok s r e s' : store_ok s -> put_index r -> Put s r = (e, s') -> store_ok s';
  stored : LStore -> streamKey -> Z -> bytes -> Prop;
  stored_fun s k i d d' : stored s k i d -> stored s k i d' -> d = d';
  stored_bound s k : store_ok s -> exists b, forall i d, stored s k i d -> i <= b;
  Put_new s r e s' k i d : store_ok s -> put_index r -> Put s r = (e, s') -> stored s' k i d ->
    stored s k i d \/ k = p_key r /\ exists n, p_Values r !! n = Some d /\ i = i64 (p_Index r + Z.of_nat n);
  Put_keeps s r e s' k i d : store_ok s -> put_index r -> Put s r = (e, s') -> stored s k i d -> stored s' k i d;
  Put_done s r s' n d : store_ok s -> put_index r -> Put s r = (None, s') -> p_Values r !! n = Some d -> stored s' (p_key r) (i64 (p_Index r + Z.of_nat n)) d;
  Get_sound s r l e : store_ok s -> 0 <= g_Index r -> Get s r = (l, e) -> increasing l /\ forall e, e ∈ l -> g_Index r <= e_index e /\
    exists d, stored s (g_key r) (e_index e) d /\ (KeysOnly r = false -> D e = Some d)
}.
(** A storage that leaves out no record before one it returns, and returns one
    when there is one. *)
Class LogStoreComplete (LS : LogStore) {LL : LogStoreLaws LS} :=
  Get_next s r l i d : store_ok s -> 0 <= g_Index r -> g_Limit r <= 0 -> Get s r = (l, None) -> stored s (g_key r) i d -> g_Index r <= i ->
    i ∈ map e_index l \/ l <> [] /\ forall j, j ∈ map e_index l -> j < i.

(** * In memory *)
Module Memory.
Record logStream := { logs : gmap Z bytes; latestIndex : Z }.
Record Storage := {
  MaxGetCount : Z; streams : gmap streamKey logStream; closed : bool; serr : option StorageError
}.
Definition set_streams (s : Storage) (m : gmap streamKey logStream) : Storage :=
  {| MaxGetCount := MaxGetCount s; streams := m; closed := closed s; serr := serr s |}.

(** [run]: the error that stops an operation before it starts. *)
Definition run_error (s : Storage) : option StorageError :=
  match serr s with Some e => Some e | None => if closed s then Some (StorageFailure false) else None end.

Definition newLogStream : logStream := {| logs := ∅; latestIndex := -1 |}.
Fixpoint put_loop (ls : logStream) (index : Z) (values : list bytes) : option StorageError * logStream :=
  match values with
  | [] => (None, ls)
  | v :: values =>
      match logs ls !! index with
      | Some _ => (Some ErrExists, ls)
      | None =>
          put_loop {| logs := <[index := v]> (logs ls); latestIndex := if latestIndex ls <? index then index else latestIndex ls |}
            (i64 (index + 1)) values
      end
  end.
Definition Put (s : Storage) (r : PutRequest) : option StorageError * Storage :=
  match run_error s with
  | Some e => (Some e, s)
  | None =>
      let ls := default newLogStream (streams s !! p_key r) in
      let '(e, ls) := put_loop ls (p_Index r) (p_Values r) in
      (e, set_streams s (<[p_key r := ls]> (streams s)))
  end.

(** [n] indices are looked at, from [idx] to the latest one. *)
Fixpoint get_loop (n : nat) (ls : logStream) (idx limit : Z) (recs : list (Z * bytes)) : list (Z * bytes) :=
  match n with
  | O => recs
  | S n =>
      let recs := match logs ls !! idx with Some d => recs ++ [(idx, d)] | None => recs end in
      if limit <=? Z.of_nat (length recs) then recs else get_loop n ls (idx + 1) limit recs
  end.
Definition Get (s : Storage) (r : GetRequest) : list Entry * option StorageError :=
  match run_error s with
  | Some e => ([], Some e)
  | None =>
      match streams s !! g_key r with
      | None => ([], Some ErrDoesNotExist)
      | Some ls =>
          let limit := Z.of_nat (size (logs ls)) in
          let limit := if (0 <? g_Limit r) && (g_Limit r <? limit) then g_Limit r else limit in
          let limit := if (0 <? MaxGetCount s) && (MaxGetCount s <? limit) then MaxGetCount s else limit in
          let recs := get_loop (Z.to_nat (latestIndex ls - g_Index r + 1)) ls (g_Index r) limit [] in
          (map (fun r' => {| D := if KeysOnly r then None else Some r'.2; e_index := r'.1 |}) recs, None)
      end
  end.
Definition Tail (s : Storage) (k : streamKey) : result StorageError Entry :=
  match run_error s with
  | Some e => Err e
  | None =>
      match streams s !! k with
      | None => Err ErrDoesNotExist
      | Some ls => Ok {| D := logs ls !! latestIndex ls; e_index := latestIndex ls |}
      end
  end.
Definition Count (s : Storage) (k : streamKey) : Z :=
  match run_error s with
  | Some _ => 0
  | None => match streams s !! k with Some ls => Z.of_nat (size (logs ls)) | None => 0 end
  end.
Definition Close (s : Storage) : Storage :=
  match run_error s with Some _ => s | None => {| MaxGetCount := MaxGetCount s; streams := streams s; closed := true; serr := serr s |} end.
Definition ResetClose (s : Storage) : Storage :=
  {| MaxGetCount := MaxGetCount s; streams := streams s; closed := false; serr := serr s |}.
Definition SetErr (s : Storage) (e : option StorageError) : Storage :=
  {| MaxGetCount := MaxGetCount s; streams := streams s; closed := closed s; serr := e |}.

(** * Its laws *)
Lemma put_loop_spec values : forall ls index e ls', in_i64 index -> put_loop ls index values = (e, ls') ->
  (forall i d, logs ls' !! i = Some d -> logs ls !! i = Some d \/ exists n, values !! n = Some d /\ i = i64 (index + Z.of_nat n)) /\
  (forall i d, logs ls !! i = Some d -> logs ls' !! i = Some d) /\
  (e = None -> forall n d, values !! n = Some d -> logs ls' !! i64 (index + Z.of_nat n) = Some d).
Proof.
  induction values as [|v values IH]; intros ls index e ls' H0; cbn [put_loop].
  - intros [= <- <-]. split; [by left|]. by split.
  - destruct (logs ls !! index) as [d0|] eqn:Hi; [intros [= <- <-]; split; [by left|]; by split|].
    assert (E0 : i64 (index + Z.of_nat 0) = index) by (rewrite Z.add_0_r; by apply i64_small).
    assert (ES : forall n, i64 (i64 (index + 1) + Z.of_nat n) = i64 (index + Z.of_nat (S n))) by (intros n; rewrite i64_add_l; f_equal; lia).
    intros H. apply IH in H as (A1 & A2 & A3); [|apply i64_range]. cbn in A1, A2. split; [|split].
    + intros i d Hd. destruct (A1 i d Hd) as [[[<- <-]|[_ H]]%lookup_insert_Some|(n & H1 & ->)].
      * right. by exists 0%nat.
      * by left.
      * right. exists (S n). by rewrite ES.
    + intros i d Hd. apply A2. rewrite lookup_insert_ne; [done|]. intros ->. congruence.
    + intros He [|n] d Hn.
      * injection Hn as ->. rewrite E0. apply A2. by rewrite lookup_insert_eq.
      * rewrite <-ES. by apply A3.
Qed.

(** The records of a stream from an index on are its indices that are there. *)
Lemma get_loop_spec n : forall ls idx limit recs, exists l, get_loop n ls idx limit recs = recs ++ l /\
  Sorted Z.lt (map fst l) /\ (forall i d, (i, d) ∈ l -> idx <= i < idx + Z.of_nat n /\ logs ls !! i = Some d) /\
  ((length recs < Z.to_nat limit)%nat -> forall i d, idx <= i < idx + Z.of_nat n -> logs ls !! i = Some d -> (i, d) ∈ l \/
     Z.of_nat (length (recs ++ l)) = limit /\ forall j d', (j, d') ∈ l -> j < i).
Proof.
  induction n as [|n IH]; intros ls idx limit recs.
  { exists []. rewrite app_nil_r. split; [done|]. split; [constructor|]. split; [by intros ? ? ?%elem_of_nil|]. intros; lia. }
  cbn [get_loop]. set (one := match logs ls !! idx with Some d => [(idx, d)] | None => [] end).
  assert (Hone : (match logs ls !! idx with Some d => recs ++ [(idx, d)] | None => recs end) = recs ++ one)
    by (unfold one; destruct (logs ls !! idx); [done|by rewrite app_nil_r]).
  rewrite Hone. assert (Hin : forall i d, (i, d) ∈ one <-> i = idx /\ logs ls !! idx = Some d).
  { intros i d. unfold one. destruct (logs ls !! idx); [rewrite elem_of_cons, elem_of_nil|rewrite elem_of_nil]; naive_solver. }
  assert (Hs1 : Sorted Z.lt (map fst one)) by (unfold one; destruct (logs ls !! idx); repeat constructor).
  destruct (Z.leb_spec limit (Z.of_nat (length (recs ++ one)))) as [Hl|Hl].
  - exists one. split; [done|]. split; [done|]. split.
    + intros i d [-> H]%Hin. split; [lia|done].
    + intros Hr i d Hi Hd. destruct (decide (i = idx)) as [->|Hne]; [left; by apply Hin|]. right.
      split; [|intros j d' [-> _]%Hin; lia]. rewrite length_app in *. unfold one in *. destruct (logs ls !! idx); cbn in *; lia.
  - destruct (IH ls (idx + 1) limit (recs ++ one)) as (l & A1 & A2 & A3 & A4). exists (one ++ l). rewrite A1, app_assoc. split; [done|]. split.
    + rewrite map_app. unfold one. destruct (logs ls !! idx) as [d|]; [|done]. cbn. constructor; [done|].
      destruct l as [|[j d'] l]; constructor. destruct (A3 j d') as [H _]; [by apply list_elem_of_here|]. cbn. lia.
    + split.
      * intros i d [[-> H]%Hin|H]%elem_of_app; [split; [lia|done]|]. destruct (A3 _ _ H). split; [lia|done].
      * intros Hr i d Hi Hd. destruct (decide (i = idx)) as [->|Hne]; [left; apply elem_of_app; left; by apply Hin|].
        destruct (A4 ltac:(lia) i d ltac:(lia) Hd) as [H|[H1 H2]]; [left; apply elem_of_app; by right|]. right.
        split; [done|]. intros j d' [[-> _]%Hin|H]%elem_of_app; [lia|by eapply H2].
Qed.

#[export] Instance store : LogStore := {| LStore := Storage; LogStorage.Put := Put; LogStorage.Get := Get |}.
Definition has (s : Storage) (k : streamKey) (i : Z) (d : bytes) : Prop := exists ls, streams s !! k = Some ls /\ logs ls !! i = Some d.
Definition mem_ok (s : Storage) : Prop := forall k ls i d, streams s !! k = Some ls -> logs ls !! i = Some d -> i <= latestIndex ls.
Lemma put_loop_latest values : forall ls index e ls', put_loop ls index values = (e, ls') ->
  (forall i d, logs ls !! i = Some d -> i <= latestIndex ls) -> forall i d, logs ls' !! i = Some d -> i <= latestIndex ls'.
Proof.
  induction values as [|v values IH]; intros ls index e ls'; cbn [put_loop]; [by intros [= <- <-]|].
  destruct (logs ls !! index); [by intros [= <- <-]|]. intros H Hls. eapply IH; [exact H|]. cbn. intros i d [[<- _]|[_ Hd]]%lookup_insert_Some.
  - destruct (Z.ltb_spec (latestIndex ls) index); lia.
  - specialize (Hls _ _ Hd). destruct (Z.ltb_spec (latestIndex ls) index); lia.
Qed.
Lemma Put_cases s r e s' : Put s r = (e, s') ->
  (exists e', e = Some e' /\ s' = s) \/ exists ls', s' = set_streams s (<[p_key r := ls']> (streams s)) /\
    put_loop (default newLogStream (streams s !! p_key r)) (p_Index r) (p_Values r) = (e, ls').
Proof.
  unfold Put. destruct (run_error s) as [e'|]; [intros [= <- <-]; left; by exists e'|].
  destruct (put_loop _ _ _) as [e' ls'] eqn:E. intros [= <- <-]. right. by exists ls'.
Qed.
(** What [Get] takes: a positive number of records, all of them in order. *)
Lemma mem_Get_spec s r l e : Get s r = (l, e) -> (l = [] /\ e <> None) \/ exists ls recs limit, streams s !! g_key r = Some ls /\
  l = map (fun r' => {| D := if KeysOnly r then None else Some r'.2; e_index := r'.1 |}) recs /\
  recs = get_loop (Z.to_nat (latestIndex ls - g_Index r + 1)) ls (g_Index r) limit [] /\
  (logs ls <> ∅ -> 0 < limit).
Proof.
  unfold Get. destruct (run_error s); [by intros [= <- <-]; left|].
  destruct (streams s !! g_key r) as [ls|] eqn:Hls; [|by intros [= <- <-]; left]. cbv zeta.
  match goal with |- (map _ (get_loop _ _ _ ?x _), _) = _ -> _ => set (limit := x) end. intros [= <- <-].
  right. exists ls. eexists. exists limit. repeat split. intros Hne. subst limit.
  assert (0 < Z.of_nat (size (logs ls))) by (apply map_size_non_empty_iff in Hne; lia).
  destruct (Z.ltb_spec 0 (g_Limit r)); destruct (Z.ltb_spec 0 (MaxGetCount s)); cbn [andb]; repeat case_match; lia.
Qed.
#[export] Instance store_laws : LogStoreLaws store.
Proof.
  unshelve econstructor; [exact mem_ok|exact has|..].
  - intros s r e s' Hok _ H. destruct (Put_cases _ _ _ _ H) as [(e' & _ & ->)|(ls' & -> & Hp)]; [done|].
    intros k ls i d Hls Hd. cbn in Hls. apply lookup_insert_Some in Hls as [[<- <-]|[_ Hls]]; [|by eapply Hok].
    eapply put_loop_latest; [exact Hp| |exact Hd]. clear i d Hd. intros i d.
    destruct (streams s !! p_key r) as [ls|] eqn:E; [by apply (Hok _ _ _ _ E)|done].
  - intros s k i d d' (ls & H1 & H2) (ls' & H3 & H4). congruence.
  - intros s k Hok. exists (latestIndex (default newLogStream (streams s !! k))). intros i d (ls & H1 & H2). rewrite H1. by apply (Hok _ _ _ _ H1 H2).
  - intros s r e s' k i d _ F1 H. destruct (Put_cases _ _ _ _ H) as [(e' & _ & ->)|(ls' & -> & Hp)]; [by left|].
    destruct (put_loop_spec _ _ _ _ _ F1 Hp) as [A1 _]. intros (ls & Hls & Hd). cbn in Hls.
    apply lookup_insert_Some in Hls as [[<- <-]|[_ Hls]]; [|left; by exists ls].
    destruct (A1 _ _ Hd) as [H1|H1]; [|right; naive_solver]. left.
    destruct (streams s !! p_key r) as [ls0|] eqn:E; [by exists ls0|]. cbn in H1. by rewrite lookup_empty in H1.
  - intros s r e s' k i d _ F1 H (ls & Hls & Hd). destruct (Put_cases _ _ _ _ H) as [(e' & _ & ->)|(ls' & -> & Hp)]; [by exists ls|].
    destruct (put_loop_spec _ _ _ _ _ F1 Hp) as (_ & A2 & _). destruct (decide (k = p_key r)) as [->|Hne].
    + exists ls'. cbn. rewrite lookup_insert_eq. split; [done|]. apply A2. by rewrite Hls.
    + exists ls. cbn. by rewrite lookup_insert_ne.
  - intros s r s' n d _ F1 H Hn. destruct (Put_cases _ _ _ _ H) as [(e' & ? & _)|(ls' & -> & Hp)]; [done|].
    destruct (put_loop_spec _ _ _ _ _ F1 Hp) as (_ & _ & A3). exists ls'. cbn. rewrite lookup_insert_eq. split; [done|]. by apply A3.
  - intros s r l e _ H0 [[-> _]|(ls & recs & limit & Hls & -> & Hrecs & _)]%mem_Get_spec.
    { split; [constructor|]. by intros e' ?%elem_of_nil. }
    match type of Hrecs with recs = get_loop ?n ?ls ?idx ?lim [] => destruct (get_loop_spec n ls idx lim []) as (l & A1 & A2 & A3 & _) end.
    rewrite A1 in Hrecs. cbn in Hrecs. subst recs. split.
    + unfold increasing. rewrite map_map. erewrite map_ext; [exact A2|]. by intros [].
    + intros e' ([i d] & -> & Hin)%list_elem_of_fmap. destruct (A3 _ _ Hin) as [H1 H2]. cbn. split; [lia|]. exists d.
      split; [by exists ls|]. by intros ->.
Defined.
#[export] Instance store_complete : LogStoreComplete store.
Proof.
  intros s r l i d Hok H0 _ [[_ ?]|(ls & recs & limit & Hls & -> & Hrecs & Hlim)]%mem_Get_spec (ls' & Hls' & Hd) Hi; [done|].
  rewrite Hls in Hls'. injection Hls' as <-. pose proof (Hok _ _ _ _ Hls Hd) as Hlat.
  assert (0 < limit) by (apply Hlim; intros He; rewrite He, lookup_empty in Hd; done).
  match type of Hrecs with recs = get_loop ?n ?ls ?idx ?lim [] => destruct (get_loop_spec n ls idx lim []) as (l & A1 & _ & _ & A4) end.
  rewrite A1 in Hrecs. cbn in Hrecs. subst recs. rewrite map_map. cbn.
  destruct (A4 ltac:(cbn; lia) i d ltac:(lia) Hd) as [H1|[H1 H2]].
  - left. apply list_elem_of_fmap. by exists (i, d).
  - right. cbn in H1. split; [destruct l; [cbn in H1; lia|done]|]. intros j ([j' d'] & -> & Hin)%list_elem_of_fmap. by eapply H2.
Qed.
End Memory.
