(* ===== verification/LogBigTable.v ===== *)
(** BigTable as a storage of log entries (common/storage/bigtable): row keys that
    sort as the entries of a stream, rows of several records, and reading them
    back in order. *)
From S2P Require Import Prelude Cmpbin Base64 RecordIO Renderer LogStorage.
From stdpp Require Import fin_maps sorting.
Local Open Scope Z_scope.

(** * Hexadecimal and padded base64 (encoding/hex, encoding/base64) *)
Definition hex_encode (l : bytes) : bytes := Renderer.EncodeToString l.
Definition fromHexChar (c : Z) : option Z :=
  if (48 <=? c) && (c <=? 57) then Some (c - 48)
  else if (97 <=? c) && (c <=? 102) then Some (c - 97 + 10)
  else if (65 <=? c) && (c <=? 70) then Some (c - 65 + 10) else None.
Fixpoint hex_decode (l : bytes) : option bytes :=
  match l with
  | [] => Some []
  | [_] => None
  | a :: b :: l => a ← fromHexChar a; b ← fromHexChar b; r ← hex_decode l; Some (a * 16 + b :: r)
  end.

(** [base64.URLEncoding]: the length is a multiple of four. *)
Definition pad (n : nat) : bytes := replicate ((4 - n mod 4) mod 4) 61.
Definition URLEncoding_EncodeToString (l : bytes) : bytes := let d := Base64.EncodeToString l in d ++ pad (length d).
Definition strip (n : nat) (s : bytes) : option bytes :=
  if bool_decide (drop (length s - n) s = replicate n 61) then Some (take (length s - n) s) else None.
Definition URLEncoding_DecodeString (s : bytes) : option bytes :=
  let s := filter (fun c => c <> 13 /\ c <> 10) s in
  if negb (length s mod 4 =? 0)%nat then None
  else
    match strip 2 s with
    | Some d => Base64.DecodeString d
    | None => match strip 1 s with Some d => Base64.DecodeString d | None => Base64.DecodeString s end
    end.
Definition URLEncoding_DecodedLen (n : Z) : Z := n / 4 * 3.

(** * Row keys (rowKey.go) *)
Definition tilde : Z := 126.
Record rowKey := { pathHash : bytes; index : Z; count : Z }.
Definition appendInt64 (i : Z) : bytes := hex_encode (WriteInt no_fail [] i).1.1.
Definition encode (rk : rowKey) : bytes :=
  URLEncoding_EncodeToString (pathHash rk) ++ [tilde] ++ appendInt64 (index rk) ++ [tilde] ++ appendInt64 (count rk).
Definition pathPrefix (rk : rowKey) : bytes := URLEncoding_EncodeToString (pathHash rk) ++ [tilde].
Definition pathPrefixUpperBound (rk : rowKey) : bytes := URLEncoding_EncodeToString (pathHash rk) ++ [tilde; tilde].
Definition firstIndex (rk : rowKey) : Z := i64 (index rk - count rk + 1).
Definition sharesPathWith (rk o : rowKey) : bool := bool_decide (pathHash rk = pathHash o).

(** [strings.SplitN(v, "~", n)]. *)
Fixpoint SplitN (n : nat) (v : bytes) : list bytes :=
  match v with
  | [] => [[]]
  | c :: v' =>
      match n with
      | O | 1%nat => [v]
      | S n' =>
          if c =? tilde then [] :: SplitN n' v'
          else match SplitN n v' with h :: t => (c :: h) :: t | [] => [[c]] end
      end
  end.

Definition readHexInt64 (v : bytes) : option Z :=
  d ← hex_decode v;
  match ReadInt d with (value, _, None, []) => Some value | _ => None end.
Definition sha256_Size : Z := 32.
Definition decodeRowKey (v : bytes) : option rowKey :=
  match SplitN 3 v with
  | [hashEnc; idxEnc; countEnc] =>
      if URLEncoding_DecodedLen (Z.of_nat (length hashEnc)) <? sha256_Size then None
      else
        h ← URLEncoding_DecodeString hashEnc;
        i ← readHexInt64 idxEnc;
        c ← readHexInt64 countEnc;
        Some {| pathHash := h; index := i; count := c |}
  | _ => None
  end.

(** * The table (bigtable.go)

    Its rows by their keys; how it will answer the next writes, [None] for a write
    that works, otherwise the error and whether the write is done all the same; and
    the error every call meets, if any. *)
Record Table := { rows : gmap bytes bytes; answers : list (option (StorageError * bool)); terr : option StorageError }.

Definition memcmp_le (a b : bytes) : Prop := memcmp a b <> Gt.
#[export] Instance memcmp_le_dec a b : Decision (memcmp_le a b).
Proof. unfold memcmp_le. apply _. Defined.
Definition key_le (a b : bytes * bytes) : Prop := memcmp_le a.1 b.1.
#[export] Instance key_le_dec a b : Decision (key_le a b).
Proof. unfold key_le. apply _. Defined.

(** The rows from one key up to but not including another. *)
Definition ReadRows (t : gmap bytes bytes) (start limit : bytes) : list (bytes * bytes) :=
  merge_sort key_le (filter (fun kv => memcmp_le start kv.1 /\ memcmp kv.1 limit = Lt) (map_to_list t)).

Definition putLogData (t : Table) (rk : rowKey) (data : bytes) : option StorageError * Table :=
  match terr t with
  | Some e => (Some e, t)
  | None =>
      let rest := {| rows := rows t; answers := tail (answers t); terr := terr t |} in
      match answers t with
      | Some (e, false) :: _ => (Some e, rest)
      | answer =>
          let lost := match answer with Some (e, _) :: _ => Some e | _ => None end in
          match rows t !! encode rk with
          | Some _ => (match lost with Some e => Some e | None => Some ErrExists end, rest)
          | None => (lost, {| rows := <[encode rk := data]> (rows t); answers := tail (answers t); terr := terr t |})
          end
      end
  end.

(** * Writing (storage.go) *)
Record rowWriter := { w_buf : bytes; w_count : Z; threshold : Z }.
Definition rw_append (w : rowWriter) (d : bytes) : option rowWriter :=
  let buf := w_buf w ++ frame_bytes d in
  if Z.of_nat (length buf) <=? threshold w then Some {| w_buf := buf; w_count := w_count w + 1; threshold := threshold w |} else None.
Definition rw_empty (w : rowWriter) : rowWriter := {| w_buf := []; w_count := 0; threshold := threshold w |}.

Section Storage.
(** SHA-256, and the size of rows. *)
Context (sha256 : bytes -> bytes) (maxRowSize : Z).

Definition newRowKey (k : streamKey) (index count : Z) : rowKey :=
  {| pathHash := sha256 (k.1 ++ [47] ++ k.2); index := index; count := count |}.

Definition flush (w : rowWriter) (t : Table) (index : Z) (k : streamKey) : result StorageError Z * rowWriter * Table :=
  let flushCount := w_count w in
  if flushCount =? 0 then (Ok 0, w, t)
  else
    let lastIndex := i64 (i64 (index + flushCount) - 1) in
    let '(err, t) := putLogData t (newRowKey k lastIndex flushCount) (w_buf w) in
    match err with
    | Some e => (Err e, w, t)
    | None => (Ok flushCount, rw_empty w, t)
    end.

(** A value that does not fit is tried again in an empty row. *)
Fixpoint put_values (w : rowWriter) (t : Table) (index : Z) (k : streamKey) (values : list bytes) : option StorageError * Table :=
  match values with
  | [] => let '(r, _, t) := flush w t index k in (match r with Err e => Some e | Ok _ => None end, t)
  | v :: values =>
      match rw_append w v with
      | Some w => put_values w t index k values
      | None =>
          let '(r, w, t) := flush w t index k in
          match r with
          | Err e => (Some e, t)
          | Ok c =>
              match (if c =? 0 then None else rw_append w v) with
              | None => (Some (StorageFailure false), t)
              | Some w => put_values w t (i64 (index + c)) k values
              end
          end
      end
  end.
Definition bt_Put (t : Table) (r : PutRequest) : option StorageError * Table :=
  put_values {| w_buf := []; w_count := 0; threshold := maxRowSize |} t (p_Index r) (p_key r) (p_Values r).

(** * Reading

    The records of a row, and the entries of the rows: [Some limit] entries are
    left to give. *)
Definition row_records (keysOnly : bool) (rk : rowKey) (data : bytes) : option (list (option bytes)) :=
  if keysOnly then Some (replicate (Z.to_nat (count rk)) None)
  else
    match Split data with
    | Some (records, None) => if count rk =? Z.of_nat (length records) then Some (map Some records) else None
    | _ => None
    end.
Fixpoint number (i : Z) (l : list (option bytes)) : list Entry :=
  match l with [] => [] | d :: l => {| D := d; e_index := i |} :: number (i + 1) l end.

Fixpoint get_rows (keysOnly : bool) (startKey : rowKey) (rs : list (bytes * bytes)) (rIndex : Z) (limit : option nat) : list Entry * option StorageError :=
  match rs with
  | [] => ([], None)
  | (key, data) :: rs =>
      match decodeRowKey key with
      | None => ([], Some (StorageFailure false))
      | Some rk =>
          if negb (sharesPathWith rk startKey) then ([], None)
          else if firstIndex rk <? 0 then ([], Some ErrBadData)
          else
            match row_records keysOnly rk data with
            | None => ([], Some ErrBadData)
            | Some records =>
                let discard := rIndex - firstIndex rk in
                if (0 <? discard) && (count rk <? discard) then get_rows keysOnly startKey rs rIndex limit
                else
                  let es := number (firstIndex rk + Z.max 0 discard) (drop (Z.to_nat discard) records) in
                  let rIndex := match es with [] => rIndex | _ => index rk + 1 end in
                  match limit with
                  | Some n =>
                      if (n <=? length es)%nat then (take n es, None)
                      else let '(l, e) := get_rows keysOnly startKey rs rIndex (Some (n - length es)%nat) in (es ++ l, e)
                  | None => let '(l, e) := get_rows keysOnly startKey rs rIndex None in (es ++ l, e)
                  end
            end
      end
  end.

(** The limit is one of rows for the table, and one of entries for the storage. *)
Definition bt_Get (t : Table) (r : GetRequest) : list Entry * option StorageError :=
  match terr t with
  | Some e => ([], Some e)
  | None =>
      let startKey := newRowKey (g_key r) (g_Index r) 0 in
      let limit := if 0 <? g_Limit r then Some (Z.to_nat (g_Limit r)) else None in
      let rs := ReadRows (rows t) (encode startKey) (pathPrefixUpperBound startKey) in
      get_rows (KeysOnly r) startKey (match limit with Some n => take n rs | None => rs end) (g_Index r) limit
  end.

(** [Tail], from the index that the cache has. *)
Fixpoint tail_loop (rs : list (bytes * bytes)) (nextIndex : Z) (latest : option rowKey) : option rowKey :=
  match rs with
  | [] => latest
  | (key, _) :: rs =>
      match decodeRowKey key with
      | None => latest
      | Some rk => if firstIndex rk =? nextIndex then tail_loop rs (i64 (index rk + 1)) (Some rk) else latest
      end
  end.
Definition bt_Tail (t : Table) (k : streamKey) (startIdx : Z) : result StorageError Entry :=
  let rk := newRowKey k startIdx 0 in
  let rs := match terr t with Some _ => [] | None => ReadRows (rows t) (encode rk) (pathPrefixUpperBound rk) end in
  match tail_loop rs startIdx None with
  | None => Err ErrDoesNotExist
  | Some latest =>
      let d :=
        match ReadRows (rows t) (encode latest) (pathPrefixUpperBound latest) with
        | (_, data) :: _ => match Split data with Some (records, None) => last records | _ => None end
        | [] => None
        end in
      Ok {| D := d; e_index := index latest |}
  end.
End Storage.

Definition sample_hash (b : bytes) : bytes := take 32 (b ++ replicate 32 0).
Definition sample_key : streamKey := ([112], [97]).
Definition sample : Table :=
  snd (bt_Put sample_hash 6 {| rows := ∅; answers := []; terr := None |} {| p_key := sample_key; p_Index := 0; p_Values := [[1]; [2; 2]; [3]; [4]] |}).
Example sample_rows : size (rows sample) = 2%nat.
Proof. vm_compute. reflexivity. Qed.
Example sample_get : bt_Get sample_hash sample {| g_key := sample_key; g_Index := 1; g_Limit := 0; KeysOnly := false |} =
  ([{| D := Some [2; 2]; e_index := 1 |}; {| D := Some [3]; e_index := 2 |}; {| D := Some [4]; e_index := 3 |}], None).
Proof. vm_compute. reflexivity. Qed.
