(* ===== verification/LogBigTableFacts.v ===== *)
(** BigTable as a storage: row keys are read back and sort as the entries do, rows
    of a stream are all that a range of its keys has, and what was put is what
    comes out. *)
From S2P Require Import Prelude Cmpbin Base64 RecordIO Renderer LogStorage LogBigTable.
From stdpp Require Import fin_maps sorting.
Local Open Scope Z_scope.

(** * The order of keys *)
Lemma memcmp_le_cons x a y b : memcmp_le (x :: a) (y :: b) <-> x < y \/ x = y /\ memcmp_le a b.
Proof. unfold memcmp_le. cbn. destruct (Z.compare_spec x y); split; intros; try lia; try done; naive_solver lia. Qed.
#[export] Instance memcmp_le_trans : Transitive memcmp_le.
Proof.
  intros a. induction a as [|x a IH]; intros [|y b] [|z c]; try done.
  rewrite !memcmp_le_cons. intros [H|[-> H]] [H'|[-> H']]; [left; lia..|]. right. split; [done|]. by eapply IH.
Qed.
#[export] Instance key_le_trans : Transitive key_le.
Proof. intros a b c H H'. unfold key_le in *. by etrans. Qed.
#[export] Instance key_le_total : Total key_le.
Proof. intros a b. unfold key_le, memcmp_le. rewrite (memcmp_sym a.1 b.1). destruct (memcmp a.1 b.1); by first [left; done|right; done]. Qed.
(** Strings of one length decide what they begin. *)
Lemma memcmp_app_length a b x y : length a = length b -> memcmp (a ++ x) (b ++ y) = match memcmp a b with Eq => memcmp x y | c => c end.
Proof. revert b. induction a as [|u a IH]; intros [|v b] H; try done. cbn in *. destruct (u ?= v); [apply IH; lia|done|done]. Qed.

(** * Hexadecimal *)
Definition nibble (c : Z) : Prop := 0 <= c < 16.
Lemma hex_digit_spec c : nibble c -> fromHexChar (hex_digit c) = Some c /\ 48 <= hex_digit c < tilde.
Proof.
  intros Hc. assert (H : Forall (fun c => fromHexChar (hex_digit c) = Some c /\ 48 <= hex_digit c < tilde) (seqZ 0 16)).
  { apply (bool_decide_unpack _). vm_compute. exact I. }
  rewrite Forall_forall in H. apply H, elem_of_seqZ. unfold nibble in Hc. lia.
Qed.
Lemma hex_digit_cmp a b : nibble a -> nibble b -> (hex_digit a ?= hex_digit b) = (a ?= b).
Proof.
  intros Ha Hb. assert (H : Forall (fun a => Forall (fun b => (hex_digit a ?= hex_digit b) = (a ?= b)) (seqZ 0 16)) (seqZ 0 16)).
  { apply (bool_decide_unpack _). vm_compute. exact I. }
  rewrite Forall_forall in H. unfold nibble in *. specialize (H a ltac:(apply elem_of_seqZ; lia)). rewrite Forall_forall in H. apply H, elem_of_seqZ. lia.
Qed.
Lemma byte_nibbles b : in_u8 b -> nibble (Z.shiftr b 4) /\ nibble (Z.land b 0xf) /\ b = Z.shiftr b 4 * 16 + Z.land b 0xf.
Proof.
  unfold in_u8, nibble. intros Hb. rewrite Z.shiftr_div_pow2 by lia. change 0xf with (Z.ones 4). rewrite Z.land_ones by lia.
  change (2 ^ 4) with 16. Z.to_euclidean_division_equations; lia.
Qed.
Lemma hex_encode_cons b l : hex_encode (b :: l) = hex_digit (Z.shiftr b 4) :: hex_digit (Z.land b 0xf) :: hex_encode l.
Proof. done. Qed.
Lemma hex_decode_encode l : bytes_ok l -> hex_decode (hex_encode l) = Some l.
Proof.
  induction 1 as [|b l Hb Hl IH]; [done|]. rewrite hex_encode_cons. cbn [hex_decode].
  destruct (byte_nibbles b Hb) as (H1 & H2 & H3). rewrite (proj1 (hex_digit_spec _ H1)), (proj1 (hex_digit_spec _ H2)), IH. cbn. by rewrite <-H3.
Qed.
Lemma hex_no_tilde l : bytes_ok l -> Forall (fun c => 48 <= c < tilde) (hex_encode l).
Proof.
  induction 1 as [|b l Hb Hl IH]; [constructor|]. rewrite hex_encode_cons. destruct (byte_nibbles b Hb) as (H1 & H2 & _).
  by repeat (constructor; [by apply hex_digit_spec|]).
Qed.
Lemma hex_cmp l : forall l' c, bytes_ok l -> bytes_ok l' -> c <> Eq -> (forall x y, memcmp (l ++ x) (l' ++ y) = c) ->
  forall x y, memcmp (hex_encode l ++ x) (hex_encode l' ++ y) = c.
Proof.
  induction l as [|a l IH]; intros [|b l'] c Hl Hl' Hc H x y.
  - specialize (H [] []). done.
  - specialize (H (b :: l') []). cbn in H. by rewrite Z.compare_refl, app_nil_r, memcmp_refl in H.
  - specialize (H [] (a :: l)). cbn in H. by rewrite Z.compare_refl, app_nil_r, memcmp_refl in H.
  - unfold bytes_ok in Hl, Hl'. apply Forall_cons in Hl as [Ha Hl]. apply Forall_cons in Hl' as [Hb Hl'].
    rewrite !hex_encode_cons. cbn [app memcmp] in *. destruct (byte_nibbles a Ha) as (A1 & A2 & A3). destruct (byte_nibbles b Hb) as (B1 & B2 & B3).
    rewrite !hex_digit_cmp by done. unfold nibble in *. pose proof (H [] []) as H0.
    destruct (Z.compare_spec (Z.shiftr a 4) (Z.shiftr b 4)) as [E1|E1|E1].
    + destruct (Z.compare_spec (Z.land a 0xf) (Z.land b 0xf)) as [E2|E2|E2]; destruct (Z.compare_spec a b); try lia; try done. by apply IH.
    + destruct (Z.compare_spec a b); try lia. done.
    + destruct (Z.compare_spec a b); try lia. done.
Qed.

(** * Numbers in keys *)
Lemma appendInt64_eq i : in_i64 i -> appendInt64 i = hex_encode (encoding i).
Proof. intros H. unfold appendInt64. by rewrite WriteInt_spec. Qed.
Lemma encoding_ok i : in_i64 i -> bytes_ok (encoding i).
Proof.
  intros H. unfold encoding, bytes_ok. apply List.Forall_map. eapply Forall_impl; [apply (code_ok (Z.abs i)); unfold in_i64, in_u64 in *; lia|].
  intros b Hb. cbn. destruct (i <? 0); [rewrite lxor_ff by done; unfold in_u8 in *; lia|by rewrite Z.lxor_0_r].
Qed.
Lemma readHexInt64_append i : in_i64 i -> readHexInt64 (appendInt64 i) = Some i.
Proof.
  intros H. rewrite appendInt64_eq by done. unfold readHexInt64. rewrite hex_decode_encode by by apply encoding_ok. cbn [mbind option_bind].
  pose proof (ReadInt_encoding i [] H) as E. rewrite app_nil_r in E. by rewrite E.
Qed.
Lemma append_no_tilde i : in_i64 i -> Forall (fun c => 48 <= c < tilde) (appendInt64 i).
Proof. intros H. rewrite appendInt64_eq by done. by apply hex_no_tilde, encoding_ok. Qed.
Lemma append_cmp a b x y : in_i64 a -> in_i64 b -> memcmp (appendInt64 a ++ x) (appendInt64 b ++ y) = match a ?= b with Eq => memcmp x y | c => c end.
Proof.
  intros Ha Hb. rewrite !appendInt64_eq by done. destruct (Z.compare_spec a b) as [->|Hlt|Hlt]; [by rewrite memcmp_app_same|..];
    apply hex_cmp; try done; try (by apply encoding_ok); intros x' y'; rewrite encoding_cmp by (unfold in_i64 in *; lia); by destruct (Z.compare_spec a b); try lia.
Qed.

(** * Keys are read back *)
Lemma SplitN_first n a b : Forall (fun c => c <> tilde) a -> SplitN (S (S n)) (a ++ tilde :: b) = a :: SplitN (S n) b.
Proof.
  induction 1 as [|c a Hc Ha IH]; [done|]. change ((c :: a) ++ tilde :: b) with (c :: (a ++ tilde :: b)). cbn [SplitN].
  rewrite (proj2 (Z.eqb_neq c tilde) Hc), IH. done.
Qed.
Lemma SplitN_last a : SplitN 1 a = [a].
Proof. by destruct a. Qed.

(** A hash, as SHA-256 makes them. *)
Definition hash_ok (h : bytes) : Prop := length h = 32%nat /\ bytes_ok h.
Lemma sextets_length l : length (sextets l) = ((length l * 4 + 2) / 3)%nat.
Proof.
  induction l as [|a|a b|a b c l IH] using list_ind3; [done|done|done|]. cbn [sextets length]. rewrite IH.
  replace (S (S (S (length l))) * 4 + 2)%nat with ((length l * 4 + 2) + 4 * 3)%nat by lia. rewrite Nat.div_add by done. lia.
Qed.
Lemma digits_length h : hash_ok h -> length (Base64.EncodeToString h) = 43%nat.
Proof. intros [Hl _]. unfold Base64.EncodeToString. by rewrite length_map, sextets_length, Hl. Qed.
Lemma encoded_length h : hash_ok h -> URLEncoding_EncodeToString h = Base64.EncodeToString h ++ [61] /\ length (URLEncoding_EncodeToString h) = 44%nat.
Proof. intros H. unfold URLEncoding_EncodeToString. rewrite length_app, digits_length by done. done. Qed.
Lemma encoded_44 h : hash_ok h -> length (URLEncoding_EncodeToString h) = 44%nat.
Proof. intros H. by apply encoded_length. Qed.
Lemma digits_chars h : hash_ok h -> Forall (fun c => c <> tilde /\ c <> 61 /\ c <> 13 /\ c <> 10) (Base64.EncodeToString h).
Proof.
  intros [_ Hb]. unfold Base64.EncodeToString. apply List.Forall_map. eapply Forall_impl; [apply (sextets_ok h Hb)|].
  intros i Hi. unfold digit_ok, encode_digit, tilde in *. cbn beta. split_matches; bool_to_prop; lia.
Qed.
Lemma decode_hash h : hash_ok h -> URLEncoding_DecodeString (URLEncoding_EncodeToString h) = Some h.
Proof.
  intros H. destruct (encoded_length h H) as [E L]. pose proof (digits_chars h H) as Hc. pose proof (digits_length h H) as Hd.
  unfold URLEncoding_DecodeString.
  assert (Hf : filter (fun c => c <> 13 /\ c <> 10) (URLEncoding_EncodeToString h) = URLEncoding_EncodeToString h).
  { rewrite E, filter_app. f_equal. clear -Hc. induction Hc as [|c l (? & ? & ? & ?) Hl IH]; [done|]. rewrite filter_cons_True by done. by rewrite IH. }
  rewrite Hf, L. cbn [negb]. change (negb (44 mod 4 =? 0)%nat) with false. cbv iota.
  assert (Hs2 : strip 2 (URLEncoding_EncodeToString h) = None).
  { unfold strip. rewrite L. cbn [Nat.sub]. rewrite bool_decide_false; [done|]. rewrite E, drop_app_le by lia.
    destruct (Base64.EncodeToString h) as [|? ?] eqn:Eh using rev_ind; [done|]. clear IHl. rewrite length_app in Hd. cbn in Hd.
    rewrite drop_app_length' by lia. intros [= ->]. apply Forall_app in Hc as [_ Hc]. apply Forall_cons in Hc as [(_ & ? & _) _]. done. }
  assert (Hs1 : strip 1 (URLEncoding_EncodeToString h) = Some (Base64.EncodeToString h)).
  { unfold strip. rewrite L. cbn [Nat.sub]. rewrite E. rewrite drop_app_length', take_app_length' by lia. by rewrite bool_decide_true. }
  rewrite Hs2, Hs1. by apply Decode_Encode, H.
Qed.
Definition key_fits (rk : rowKey) : Prop := hash_ok (pathHash rk) /\ in_i64 (index rk) /\ in_i64 (count rk).
Lemma decode_encode rk : key_fits rk -> decodeRowKey (encode rk) = Some rk.
Proof.
  intros (Hh & Hi & Hc). unfold decodeRowKey, encode. destruct (encoded_length _ Hh) as [E L].
  change ([tilde] ++ ?x) with (tilde :: x). rewrite SplitN_first.
  2: { rewrite E. apply Forall_app. split; [|by repeat constructor]. eapply Forall_impl; [apply (digits_chars _ Hh)|]. by intros ? (? & _). }
  change ([tilde] ++ appendInt64 (count rk)) with (tilde :: appendInt64 (count rk)).
  rewrite SplitN_first, SplitN_last by (eapply Forall_impl; [by apply append_no_tilde|]; cbn; lia).
  rewrite L. change (URLEncoding_DecodedLen (Z.of_nat 44) <? sha256_Size) with false. cbv iota.
  rewrite decode_hash by done. cbn [mbind option_bind]. rewrite !readHexInt64_append by done. cbn. by destruct rk.
Qed.

(** * Keys of a stream *)
Lemma encode_cmp a b : key_fits a -> key_fits b -> memcmp (encode a) (encode b) =
  match memcmp (URLEncoding_EncodeToString (pathHash a)) (URLEncoding_EncodeToString (pathHash b)) with
  | Eq => match index a ?= index b with Eq => count a ?= count b | c => c end
  | c => c
  end.
Proof.
  intros (A1 & A2 & A3) (B1 & B2 & B3). unfold encode. rewrite memcmp_app_length by by rewrite !encoded_44.
  destruct (memcmp _ _); [|done|done]. rewrite memcmp_app_same, append_cmp by done. destruct (_ ?= _); [|done|done].
  rewrite memcmp_app_same. rewrite <-(app_nil_r (appendInt64 (count a))), <-(app_nil_r (appendInt64 (count b))), append_cmp by done.
  by destruct (_ ?= _).
Qed.
Lemma encoded_hash_inj a b : hash_ok a -> hash_ok b -> URLEncoding_EncodeToString a = URLEncoding_EncodeToString b -> a = b.
Proof. intros Ha Hb E. pose proof (decode_hash a Ha) as H. rewrite E, decode_hash in H by done. congruence. Qed.
Lemma encode_inj a b : key_fits a -> key_fits b -> encode a = encode b -> a = b.
Proof. intros Ha Hb E. pose proof (decode_encode a Ha) as H. rewrite E, decode_encode in H by done. congruence. Qed.

(** A range of a stream has the keys of the stream from its start on, and no others. *)
Lemma in_range start rk : key_fits start -> key_fits rk ->
  memcmp_le (encode start) (encode rk) /\ memcmp (encode rk) (pathPrefixUpperBound start) = Lt <->
  pathHash rk = pathHash start /\ (index start < index rk \/ index start = index rk /\ count start <= count rk).
Proof.
  intros Hs Hr. unfold memcmp_le. rewrite encode_cmp by done. destruct Hs as (S1 & S2 & S3), Hr as (R1 & R2 & R3).
  unfold encode at 1, pathPrefixUpperBound. change [tilde; tilde] with ([tilde] ++ [tilde]).
  rewrite memcmp_app_length by by rewrite !encoded_44.
  rewrite (memcmp_sym (URLEncoding_EncodeToString (pathHash start)) (URLEncoding_EncodeToString (pathHash rk))).
  destruct (memcmp (URLEncoding_EncodeToString (pathHash start)) (URLEncoding_EncodeToString (pathHash rk))) eqn:E; cbn [CompOpp].
  - apply memcmp_eq in E. apply encoded_hash_inj in E; [|done|done]. rewrite memcmp_app_same.
    assert (Hlt : memcmp (appendInt64 (index rk) ++ [tilde] ++ appendInt64 (count rk)) [tilde] = Lt).
    { pose proof (append_no_tilde _ R2) as Hd. destruct (appendInt64 (index rk)) as [|c l] eqn:El.
      - rewrite appendInt64_eq in El by done. unfold encoding, code in El. done.
      - apply Forall_cons in Hd as [Hd _]. cbn. by destruct (Z.compare_spec c tilde); try lia. }
    rewrite Hlt. assert (X : match index start ?= index rk with Eq => count start ?= count rk | c => c end <> Gt <->
      index start < index rk \/ index start = index rk /\ count start <= count rk).
    { destruct (Z.compare_spec (index start) (index rk)), (Z.compare_spec (count start) (count rk)); split; intros H1; try done; lia. }
    rewrite X. clear -E. split; [by intros [? _]|by intros [_ ?]].
  - split; [intros [_ ?]; done|]. intros [H _]. by rewrite H, memcmp_refl in E.
  - split; [intros [? _]; done|]. intros [H _]. by rewrite H, memcmp_refl in E.
Qed.

(** * Tables

    A row has the records [vs] from index [i] on; rows of a stream do not overlap. *)
Definition row_key (h : bytes) (i : Z) (vs : list bytes) : rowKey :=
  {| pathHash := h; index := i + Z.of_nat (length vs) - 1; count := Z.of_nat (length vs) |}.
Definition row_data (vs : list bytes) : bytes := concat (map frame_bytes vs).
Definition row_fits (h : bytes) (i : Z) (vs : list bytes) : Prop :=
  hash_ok h /\ vs <> [] /\ 0 <= i /\ i + Z.of_nat (length vs) < 2 ^ 63 /\ Z.of_nat (length (row_data vs)) < 2 ^ 63.
Definition row_at (t : gmap bytes bytes) (h : bytes) (i : Z) (vs : list bytes) : Prop :=
  row_fits h i vs /\ t !! encode (row_key h i vs) = Some (row_data vs).
Definition apart (i : Z) (vs : list bytes) (i' : Z) (vs' : list bytes) : Prop :=
  i + Z.of_nat (length vs) <= i' \/ i' + Z.of_nat (length vs') <= i.
Record table_ok (t : gmap bytes bytes) : Prop := {
  to_rows key data : t !! key = Some data -> exists h i vs, row_fits h i vs /\ key = encode (row_key h i vs) /\ data = row_data vs;
  to_apart h i vs i' vs' : row_at t h i vs -> row_at t h i' vs' -> i = i' /\ vs = vs' \/ apart i vs i' vs'
}.
(** The record of a stream at an index. *)
Definition cell (t : gmap bytes bytes) (h : bytes) (j : Z) (d : bytes) : Prop :=
  exists i vs, row_at t h i vs /\ i <= j /\ vs !! Z.to_nat (j - i) = Some d.

Lemma row_key_fits h i vs : row_fits h i vs -> key_fits (row_key h i vs).
Proof. intros (H1 & H2 & H3 & H4 & _). split; [done|]. unfold in_i64. cbn. destruct vs; [done|]. cbn [length] in *. lia. Qed.
Lemma Split_row vs : Z.of_nat (length (row_data vs)) < 2 ^ 63 -> Split (row_data vs) = Some (vs, None).
Proof. apply Split_frames. Qed.
Lemma row_key_inj h i vs h' i' vs' : row_fits h i vs -> row_fits h' i' vs' -> encode (row_key h i vs) = encode (row_key h' i' vs') ->
  h = h' /\ i = i' /\ length vs = length vs'.
Proof. intros H H' E%encode_inj; [|by apply row_key_fits..]. injection E as -> E1 E2. split; [done|]. lia. Qed.

#[local] Arguments encode : simpl never.
#[local] Arguments pathPrefixUpperBound : simpl never.
#[local] Arguments row_data : simpl never.
(** The rows of a stream that end at an index or later, in order. *)
Notation row c := (encode (row_key c.1.1 c.1.2 c.2), row_data c.2).
Definition in_line (h : bytes) (cs : list (bytes * Z * list bytes)) : Prop :=
  StronglySorted (fun a b => a.1.2 + Z.of_nat (length a.2) <= b.1.2) cs.
Definition start_key (h : bytes) (r : Z) : rowKey := {| pathHash := h; index := r; count := 0 |}.
Lemma lift_rows l : Forall (fun kv => exists h i vs, row_fits h i vs /\ kv = (encode (row_key h i vs), row_data vs)) l ->
  exists cs : list (bytes * Z * list bytes), l = map (fun c => row c) cs /\ Forall (fun c => row_fits c.1.1 c.1.2 c.2) cs.
Proof.
  induction 1 as [|kv l (h & i & vs & Hf & ->) Hl (cs & -> & Hcs)]; [by exists []|]. exists ((h, i, vs) :: cs). split; [done|by constructor].
Qed.
Lemma ReadRows_spec t h r : table_ok t -> hash_ok h -> 0 <= r < 2 ^ 63 -> exists cs,
  ReadRows t (encode (start_key h r)) (pathPrefixUpperBound (start_key h r)) = map (fun c => row c) cs /\
  Forall (fun c => c.1.1 = h /\ row_at t h c.1.2 c.2 /\ r < c.1.2 + Z.of_nat (length c.2)) cs /\ in_line h cs /\
  forall i vs, row_at t h i vs -> r < i + Z.of_nat (length vs) -> (h, i, vs) ∈ cs.
Proof.
  intros [Hrows Hapart] Hh Hr. assert (Hsk : key_fits (start_key h r)) by (split; [done|]; unfold in_i64; cbn; lia).
  set (l := ReadRows t (encode (start_key h r)) (pathPrefixUpperBound (start_key h r))).
  assert (Hin : forall kv, kv ∈ l <-> t !! kv.1 = Some kv.2 /\ memcmp_le (encode (start_key h r)) kv.1 /\ memcmp kv.1 (pathPrefixUpperBound (start_key h r)) = Lt).
  { intros [k d]. subst l. unfold ReadRows. rewrite (merge_sort_Permutation key_le), list_elem_of_filter, elem_of_map_to_list. cbn. tauto. }
  assert (Hsort : StronglySorted key_le l) by (apply StronglySorted_merge_sort; apply _).
  assert (Hnd : NoDup l) by (subst l; unfold ReadRows; rewrite (merge_sort_Permutation key_le); apply NoDup_filter, NoDup_map_to_list).
  destruct (lift_rows l) as (cs & Hl & Hcs).
  { apply Forall_forall. intros [k d] (Hk & _)%Hin. cbn in Hk. destruct (Hrows _ _ Hk) as (h' & i & vs & Hf & -> & ->). by exists h', i, vs. }
  assert (Hall : Forall (fun c => c.1.1 = h /\ row_at t h c.1.2 c.2 /\ r < c.1.2 + Z.of_nat (length c.2)) cs).
  { apply Forall_forall. intros [[h' i] vs] Hc. pose proof (proj1 (Forall_forall _ _) Hcs _ Hc) as Hf. cbn in Hf.
    assert (Hm : (encode (row_key h' i vs), row_data vs) ∈ l) by (rewrite Hl; by apply (list_elem_of_fmap_2 (fun c => row c) cs (h', i, vs))).
    apply Hin in Hm as [Ht Hrg]. cbn in Ht, Hrg. apply in_range in Hrg as [Hhh Hix]; [|done|by apply row_key_fits]. cbn in Hhh, Hix. subst h'.
    cbn. split; [done|]. split; [by split|lia]. }
  exists cs. split; [done|]. split; [done|]. split.
  - unfold in_line. rewrite Hl in Hsort, Hnd. clear Hl Hin. induction cs as [|[[h1 i] vs] cs IH]; [constructor|].
    apply Forall_cons in Hall as [(H1 & H2 & H3) Hall]. apply Forall_cons in Hcs as [Hf Hcs]. cbn in *. subst h1.
    apply StronglySorted_inv in Hsort as [Hsort Hle]. apply NoDup_cons in Hnd as [Hni Hnd]. constructor; [by apply IH|].
    apply Forall_forall. intros [[h2 i2] vs2] Hc. pose proof (proj1 (Forall_forall _ _) Hall _ Hc) as (E & Hr2 & _). cbn in E, Hr2. subst h2. cbn.
    pose proof (list_elem_of_fmap_2 (fun c => row c) cs _ Hc) as Hm. apply (proj1 (Forall_forall _ _) Hle) in Hm. unfold key_le, memcmp_le in Hm. cbn in Hm.
    destruct Hr2 as [Hf2 Ht2]. rewrite encode_cmp, memcmp_refl in Hm by by apply row_key_fits. cbn in Hm.
    destruct (Hapart h i vs i2 vs2 H2 (conj Hf2 Ht2)) as [[<- <-]|[?|Hov]]; [|lia|].
    + destruct Hni. exact (list_elem_of_fmap_2 (fun c => row c) cs _ Hc).
    + destruct Hf2 as (_ & Hne2 & _). assert (0 < length vs)%nat by (destruct Hf as (_ & ? & _); destruct vs; [done|cbn; lia]). destruct vs2; [done|]. cbn [length] in *.
      destruct (Z.compare_spec (i + Z.of_nat (length vs) - 1) (i2 + Z.of_nat (S (length vs2)) - 1)); try lia; try done.
  - intros i vs [Hf Ht] Hlt. assert (Hm : (encode (row_key h i vs), row_data vs) ∈ l).
    { apply Hin. cbn. split; [done|]. apply in_range; [done|by apply row_key_fits|]. cbn. split; [done|]. lia. }
    rewrite Hl in Hm. apply list_elem_of_fmap in Hm as ([[h' i'] vs'] & E & Hc). injection E as E1 E2.
    pose proof (proj1 (Forall_forall _ _) Hcs _ Hc) as Hf'. cbn in E1, Hf'. destruct (row_key_inj _ _ _ _ _ _ Hf Hf' E1) as (-> & -> & _).
    cbn in E2. assert (vs = vs') as ->; [|done]. destruct Hf as (_ & _ & _ & _ & S1), Hf' as (_ & _ & _ & _ & S2).
    pose proof (Split_row _ S1) as X. rewrite E2, Split_row in X by done. congruence.
Qed.

(** * Reading *)
Definition row_entries (keysOnly : bool) (r : Z) (c : bytes * Z * list bytes) : list Entry :=
  number (Z.max c.1.2 r) (drop (Z.to_nat (r - c.1.2)) (if keysOnly then replicate (length c.2) None else map Some c.2)).
Lemma drop_neg {X} (l : list X) z : z <= 0 -> drop (Z.to_nat z) l = l.
Proof. intros H. by replace (Z.to_nat z) with 0%nat by lia. Qed.
Lemma number_length i l : length (number i l) = length l.
Proof. revert i. induction l as [|d l IH]; intros i; [done|]. cbn. by rewrite IH. Qed.
Lemma get_rows_spec keysOnly h r cs r' : Forall (fun c => c.1.1 = h /\ row_fits c.1.1 c.1.2 c.2 /\ r < c.1.2 + Z.of_nat (length c.2)) cs -> in_line h cs ->
  0 <= r -> r = r' \/ Forall (fun c => r <= r' <= c.1.2) cs ->
  get_rows keysOnly (start_key h r) (map (fun c => row c) cs) r' None = (concat (map (row_entries keysOnly r) cs), None).
Proof.
  intros Hcs Hl Hr. revert r'. induction cs as [|[[h' i] vs] cs IH]; intros r' Hr'; [done|].
  apply Forall_cons in Hcs as [(E & Hf & Hlt) Hcs]. cbn in E, Hf, Hlt. subst h'. apply StronglySorted_inv in Hl as [Hl Hle]. cbn in Hle.
  cbn [map get_rows]. cbn [fst snd]. rewrite decode_encode by by apply row_key_fits.
  destruct Hf as (Hh & Hne & Hi & Hb & Hs). unfold sharesPathWith, firstIndex. cbn [pathHash start_key row_key index count].
  rewrite bool_decide_true by done. cbn [negb]. replace (i + Z.of_nat (length vs) - 1 - Z.of_nat (length vs) + 1) with i by lia.
  rewrite i64_small by (unfold in_i64; lia). destruct (Z.ltb_spec i 0); [lia|].
  assert (Hrec : row_records keysOnly (row_key h i vs) (row_data vs) = Some (if keysOnly then replicate (length vs) None else map Some vs)).
  { unfold row_records. cbn [count row_key]. destruct keysOnly; [by rewrite Nat2Z.id|]. rewrite Split_row by done. by rewrite Z.eqb_refl. }
  rewrite Hrec. set (recs := if keysOnly then _ else _).
  assert (Hlen : length recs = length vs) by (unfold recs; destruct keysOnly; [by rewrite length_replicate|by rewrite length_map]).
  assert (Hd : r' - i <= Z.of_nat (length vs) - 1).
  { destruct Hr' as [<-|Hr']; [lia|]. apply Forall_cons in Hr' as [Hr' _]. cbn in Hr'. destruct vs; [done|cbn; lia]. }
  destruct (Z.ltb_spec (Z.of_nat (length vs)) (r' - i)); [lia|]. rewrite andb_false_r.
  assert (He : number (i + Z.max 0 (r' - i)) (drop (Z.to_nat (r' - i)) recs) = row_entries keysOnly r (h, i, vs)).
  { unfold row_entries. cbn. fold recs. destruct Hr' as [<-|Hr']; [do 2 f_equal; lia|]. apply Forall_cons in Hr' as [Hr' _]. cbn in Hr'.
    rewrite !drop_neg by lia. f_equal. lia. }
  rewrite He. assert (row_entries keysOnly r (h, i, vs) <> []) as Hne'.
  { rewrite <-He. intros Hn%(f_equal length). rewrite number_length, length_drop, Hlen in Hn. cbn in Hn. destruct vs; [done|cbn in *; lia]. }
  destruct (row_entries keysOnly r (h, i, vs)) as [|e es] eqn:Ees; [done|]. rewrite IH; [done|done|done|].
  right. eapply Forall_impl; [exact Hle|]. cbn. lia.
Qed.

(** What a row gives: its records from an index on, in order. *)
Lemma number_lookup l : forall i j e, number i l !! j = Some e <-> e_index e = i + Z.of_nat j /\ l !! j = Some (D e).
Proof.
  induction l as [|d l IH]; intros i [|j] e; cbn; try (split; [done|by intros [_ ?]]).
  - split; [intros [= <-]; cbn; split; [lia|done]|]. intros [H [= ->]]. destruct e. cbn in *. f_equal. f_equal. lia.
  - rewrite IH. split; intros [H1 H2]; (split; [lia|done]).
Qed.
Lemma number_sorted l i : StronglySorted Z.lt (map e_index (number i l)) /\ Forall (fun e => i <= e_index e < i + Z.of_nat (length l)) (number i l).
Proof.
  revert i. induction l as [|d l IH]; intros i; [by split; constructor|]. destruct (IH (i + 1)) as [I1 I2]. cbn [number map length]. split.
  - constructor; [done|]. apply List.Forall_map. eapply Forall_impl; [exact I2|]. cbn. lia.
  - constructor; [cbn; lia|]. eapply Forall_impl; [exact I2|]. cbn. lia.
Qed.
Lemma row_entries_spec ko r h i vs e : 0 <= i -> 0 <= r -> e ∈ row_entries ko r (h, i, vs) <->
  r <= e_index e /\ i <= e_index e /\ exists d, vs !! Z.to_nat (e_index e - i) = Some d /\ D e = if ko then None else Some d.
Proof.
  intros Hi Hr. unfold row_entries. cbn [fst snd]. set (recs := if ko then _ else _).
  assert (Hrec : forall n x, recs !! n = Some x <-> exists d, vs !! n = Some d /\ x = if ko then None else Some d).
  { intros n x. unfold recs. destruct ko.
    - rewrite lookup_replicate. split; [intros [-> H]; destruct (lookup_lt_is_Some_2 vs n H) as [d Hd]; by exists d|].
      intros (d & Hd & ->). split; [done|]. by eapply lookup_lt_Some.
    - change (map Some vs) with (Some <$> vs). rewrite list_lookup_fmap. destruct (vs !! n) as [d|]; cbn; naive_solver. }
  split.
  - intros [j Hj]%list_elem_of_lookup. apply number_lookup in Hj as [H1 H2]. rewrite lookup_drop in H2. apply Hrec in H2 as (d & Hd & HD).
    split; [lia|]. split; [lia|]. exists d. split; [|done]. by replace (Z.to_nat (e_index e - i)) with (Z.to_nat (r - i) + j)%nat by lia.
  - intros (H1 & H2 & d & Hd & HD). apply list_elem_of_lookup. exists (Z.to_nat (e_index e - Z.max i r)). apply number_lookup. split; [lia|].
    rewrite lookup_drop. apply Hrec. exists d. split; [|done]. by replace (Z.to_nat (r - i) + Z.to_nat (e_index e - Z.max i r))%nat with (Z.to_nat (e_index e - i)) by lia.
Qed.
Lemma concat_sorted (ls : list (list Entry)) : Forall (fun l => StronglySorted Z.lt (map e_index l)) ls ->
  StronglySorted (fun a b => forall x y, x ∈ a -> y ∈ b -> e_index x < e_index y) ls -> StronglySorted Z.lt (map e_index (concat ls)).
Proof.
  induction 1 as [|l ls Hl Hls IH]; intros Hs; [constructor|]. apply StronglySorted_inv in Hs as [Hs Hf]. cbn. rewrite map_app.
  specialize (IH Hs). assert (Hlt : forall x y, x ∈ l -> y ∈ concat ls -> e_index x < e_index y).
  { intros x y Hx Hy. apply list_elem_of_In, in_concat in Hy as (m & Hm & Hy). apply list_elem_of_In in Hm, Hy.
    exact (proj1 (Forall_forall _ _) Hf m Hm x y Hx Hy). }
  clear -Hl IH Hlt. induction l as [|a l IHl]; [done|]. cbn in Hl |- *. apply StronglySorted_inv in Hl as [Hl Ha].
  constructor; [apply IHl; [done|intros; apply Hlt; [by right|done]]|]. apply Forall_app. split; [done|]. apply List.Forall_map, Forall_forall.
  intros y Hy. apply Hlt; [by left|done].
Qed.

(** What [Get] gives without a limit: the records of the stream from the index on. *)
Section Get.
Context (sha256 : bytes -> bytes) (sha_ok : forall b, hash_ok (sha256 b)).
Definition hash_of (k : streamKey) : bytes := sha256 (k.1 ++ [47] ++ k.2).
Lemma bt_Get_spec t r : terr t = None -> table_ok (rows t) -> 0 <= g_Index r < 2 ^ 63 -> g_Limit r <= 0 -> exists l,
  bt_Get sha256 t r = (l, None) /\ increasing l /\
  forall e, e ∈ l <-> g_Index r <= e_index e /\ exists d, cell (rows t) (hash_of (g_key r)) (e_index e) d /\ D e = if KeysOnly r then None else Some d.
Proof.
  intros He Hok Hr Hlim. unfold bt_Get. rewrite He. destruct (Z.ltb_spec 0 (g_Limit r)); [lia|].
  change (newRowKey sha256 (g_key r) (g_Index r) 0) with (start_key (hash_of (g_key r)) (g_Index r)). set (h := hash_of (g_key r)).
  destruct (ReadRows_spec (rows t) h (g_Index r) Hok (sha_ok _) Hr) as (cs & -> & Hcs & Hline & Hall).
  assert (Hfits : Forall (fun c => c.1.1 = h /\ row_fits c.1.1 c.1.2 c.2 /\ g_Index r < c.1.2 + Z.of_nat (length c.2)) cs)
    by (eapply Forall_impl; [exact Hcs|]; intros c (-> & [? _] & ?); done).
  rewrite (get_rows_spec (KeysOnly r) h (g_Index r) cs (g_Index r) Hfits Hline (proj1 Hr) (or_introl eq_refl)).
  eexists. split; [done|].
  assert (Hmem : forall c, c ∈ cs -> c.1.1 = h /\ row_at (rows t) h c.1.2 c.2 /\ 0 <= c.1.2) by (intros c Hc; destruct (proj1 (Forall_forall _ _) Hcs c Hc) as (? & Hat & _); split; [done|]; split; [done|]; apply Hat).
  split.
  - unfold increasing. apply StronglySorted_Sorted, concat_sorted.
    + apply List.Forall_map, Forall_forall. intros c _. apply number_sorted.
    + clear Hfits Hall. induction cs as [|c cs IH]; [constructor|]. apply Forall_cons in Hcs as [_ Hcs]. apply StronglySorted_inv in Hline as [Hline Hle].
      cbn. constructor; [apply IH; try done; intros; apply Hmem; by right|]. apply List.Forall_map, Forall_forall. intros c' Hc' x y Hx Hy.
      destruct c as [[h1 i1] vs1], c' as [[h2 i2] vs2]. destruct (Hmem (h1, i1, vs1)) as (_ & _ & P1); [by left|]. destruct (Hmem (h2, i2, vs2)) as (_ & _ & P2); [by right|].
      cbn in P1, P2. apply row_entries_spec in Hx as (_ & X & d & Hd & _); [|done|lia]. apply row_entries_spec in Hy as (_ & Y & _); [|done|lia].
      pose proof (proj1 (Forall_forall _ _) Hle _ Hc') as Hap. cbn in Hap. apply lookup_lt_Some in Hd. lia.
  - intros e. split.
    + intros Hin. apply list_elem_of_In, in_concat in Hin as (m & Hm & Hin). apply list_elem_of_In in Hm, Hin.
      apply list_elem_of_fmap in Hm as ([[h1 i1] vs1] & -> & Hc). destruct (Hmem _ Hc) as (E & Hat & P). cbn in E, Hat, P. subst h1.
      apply row_entries_spec in Hin as (X & Y & d & Hd & HD); [|done|lia]. split; [done|]. exists d. split; [|done]. by exists i1, vs1.
    + intros (X & d & (i & vs & Hat & Y & Hd) & HD). pose proof (lookup_lt_Some _ _ _ Hd). assert (0 <= i) by apply Hat.
      apply list_elem_of_In, in_concat. exists (row_entries (KeysOnly r) (g_Index r) (h, i, vs)). rewrite <-!list_elem_of_In. split.
      * apply (list_elem_of_fmap_2 (row_entries (KeysOnly r) (g_Index r))). apply Hall; [done|lia].
      * apply row_entries_spec; [done|lia|]. split; [done|]. split; [done|]. by exists d.
Qed.
End Get.

(** * Writing *)
Definition free (t : gmap bytes bytes) (h : bytes) (i : Z) (n : nat) : Prop := forall j d, cell t h j d -> j < i \/ i + Z.of_nat n <= j.
(** The cells of a table with some records more. *)
Definition with_records (t t' : gmap bytes bytes) (h : bytes) (i : Z) (vs : list bytes) : Prop :=
  forall h' j d, cell t' h' j d <-> cell t h' j d \/ h' = h /\ i <= j /\ vs !! Z.to_nat (j - i) = Some d.
Lemma with_none t h i : with_records t t h i [].
Proof. intros h' j d. split; [by left|]. by intros [?|(_ & _ & ?)]. Qed.
Lemma with_more t t1 t2 h i vs vs' : with_records t t1 h i vs -> with_records t1 t2 h (i + Z.of_nat (length vs)) vs' -> with_records t t2 h i (vs ++ vs').
Proof.
  intros H1 H2 h' j d. rewrite (H2 h' j d), (H1 h' j d). split.
  - intros [[?|(-> & Hj & Hd)]|(-> & Hj & Hd)]; [by left|right..]; (split; [done|]); (split; [lia|]).
    + rewrite lookup_app_l; [done|by eapply lookup_lt_Some].
    + rewrite lookup_app_r by lia. by replace (Z.to_nat (j - i) - length vs)%nat with (Z.to_nat (j - (i + Z.of_nat (length vs)))) by lia.
  - intros [?|(-> & Hj & Hd)]; [by left; left|]. apply lookup_app_Some in Hd as [Hd|[Hl Hd]]; [left; right; done|right].
    split; [done|]. split; [lia|]. by replace (Z.to_nat (j - (i + Z.of_nat (length vs)))) with (Z.to_nat (j - i) - length vs)%nat by lia.
Qed.
Lemma free_more t t1 h i vs n : with_records t t1 h i vs -> free t h i (length vs + n) -> free t1 h (i + Z.of_nat (length vs)) n.
Proof.
  intros H1 Hf j d [Hc|(_ & Hj & Hd)]%H1; [|apply lookup_lt_Some in Hd; lia]. destruct (Hf j d Hc); lia.
Qed.

Lemma add_row t h i vs : table_ok t -> row_fits h i vs -> free t h i (length vs) ->
  t !! encode (row_key h i vs) = None /\ table_ok (<[encode (row_key h i vs) := row_data vs]> t) /\
  with_records t (<[encode (row_key h i vs) := row_data vs]> t) h i vs.
Proof.
  intros [Hrows Hapart] Hf Hfree. set (key := encode (row_key h i vs)). set (t' := <[key := row_data vs]> t).
  assert (Hcell : forall i' vs', row_at t h i' vs' -> apart i vs i' vs').
  { intros i' vs' Hat. pose proof Hat as [(_ & Hne & _) _].
    assert (Hall : forall j, i' <= j < i' + Z.of_nat (length vs') -> j < i \/ i + Z.of_nat (length vs) <= j).
    { intros j Hj. destruct (lookup_lt_is_Some_2 vs' (Z.to_nat (j - i')) ltac:(lia)) as [d Hd]. apply (Hfree j d). exists i', vs'. split; [done|]. split; [lia|done]. }
    destruct Hf as (_ & Hnv & _). assert (0 < length vs)%nat by (destruct vs; [done|cbn; lia]). assert (0 < length vs')%nat by (destruct vs'; [done|cbn; lia]).
    unfold apart. destruct (Z.le_gt_cases i' i); [destruct (Hall (i' + Z.of_nat (length vs') - 1)); [lia..|]|destruct (Hall i'); lia].
    destruct (Z.le_gt_cases (i' + Z.of_nat (length vs')) i); [lia|]. destruct (Hall i); lia. }
  assert (Hnone : t !! key = None).
  { destruct (t !! key) as [d|] eqn:E; [|done]. destruct (Hrows _ _ E) as (h' & i' & vs' & Hf' & Ek & ->).
    destruct (row_key_inj _ _ _ _ _ _ Hf Hf' Ek) as (-> & -> & Hl). destruct (Hcell i' vs') as [?|?]; [by split; [|rewrite <-Ek]|..];
      destruct Hf' as (_ & Hne & _); destruct vs'; [done| |done|]; cbn [length] in *; lia. }
  assert (Hat : forall h' i' vs', row_at t' h' i' vs' <-> row_at t h' i' vs' \/ (h', i', vs') = (h, i, vs)).
  { intros h' i' vs'. unfold row_at. split.
    - intros [Hf' [[Ek Ed]|[_ Ht]]%lookup_insert_Some]; [|by left]. right. destruct (row_key_inj _ _ _ _ _ _ Hf Hf' Ek) as (-> & -> & _).
      destruct Hf as (_ & _ & _ & _ & S1), Hf' as (_ & _ & _ & _ & S2). pose proof (Split_row _ S1) as X. rewrite Ed, Split_row in X by done. congruence.
    - intros [[Hf' Ht]|[= -> -> ->]]; [split; [done|]; unfold t'; rewrite lookup_insert_ne; [done|intros Ek; rewrite <-Ek in Ht; congruence]|].
      split; [done|apply lookup_insert_eq]. }
  split; [done|]. split.
  - split.
    + intros k d [[<- <-]|[_ H]]%lookup_insert_Some; [by exists h, i, vs|by apply Hrows].
    + intros h' i1 vs1 i2 vs2 [H1|E1]%Hat [H2|E2]%Hat.
      * by eapply Hapart.
      * injection E2 as -> -> ->. right. destruct (Hcell _ _ H1); [by right|by left].
      * injection E1 as -> -> ->. right. by apply Hcell.
      * simplify_eq. by left.
  - intros h' j d. split.
    + intros (i' & vs' & [H1|[= -> -> ->]]%Hat & Hj & Hd); [left; by exists i', vs'|by right].
    + intros [(i' & vs' & H1 & Hj & Hd)|(-> & Hj & Hd)]; [exists i', vs'|exists i, vs]; (split; [apply Hat; first [by left|by right]|done]).
Qed.

Section Put.
Context (sha256 : bytes -> bytes) (sha_ok : forall b, hash_ok (sha256 b)) (maxRowSize : Z).
Hypothesis Hmax : maxRowSize < 2 ^ 63.
(** The writer holds [ws]. *)
Definition writer (ws : list bytes) : rowWriter := {| w_buf := row_data ws; w_count := Z.of_nat (length ws); threshold := maxRowSize |}.
Definition works (t : Table) : Prop := terr t = None /\ answers t = [].
Lemma row_data_app a b : row_data (a ++ b) = row_data a ++ row_data b.
Proof. unfold row_data. by rewrite map_app, concat_app. Qed.

Lemma flush_spec ws t i k : table_ok (rows t) -> 0 <= i -> i + Z.of_nat (length ws) < 2 ^ 63 -> Z.of_nat (length (row_data ws)) < 2 ^ 63 ->
  free (rows t) (hash_of sha256 k) i (length ws) -> exists r w' t', flush sha256 (writer ws) t i k = (r, w', t') /\ table_ok (rows t') /\
  match r with
  | Ok c => c = Z.of_nat (length ws) /\ w' = writer [] /\ with_records (rows t) (rows t') (hash_of sha256 k) i ws
  | Err _ => rows t' = rows t \/ with_records (rows t) (rows t') (hash_of sha256 k) i ws
  end /\ (works t -> is_ok r = true /\ works t').
Proof.
  intros Hok Hi Hb Hs Hf. unfold flush, writer. cbn [w_count w_buf]. destruct ws as [|w0 ws].
  { cbn. exists (Ok 0), (writer []), t. split; [done|]. split; [done|]. split; [|done]. split; [done|]. split; [done|apply with_none]. }
  set (l := w0 :: ws) in *. assert (Hl : 0 < Z.of_nat (length l)) by (cbn; lia). rewrite (proj2 (Z.eqb_neq _ 0)) by lia.
  rewrite !i64_small by (unfold in_i64; rewrite ?i64_small by (unfold in_i64; lia); lia).
  change (newRowKey sha256 k (i + Z.of_nat (length l) - 1) (Z.of_nat (length l))) with (row_key (hash_of sha256 k) i l).
  assert (Hfit : row_fits (hash_of sha256 k) i l) by (repeat split; try done; apply sha_ok).
  destruct (add_row _ _ _ _ Hok Hfit Hf) as (A1 & A2 & A3). unfold putLogData, rw_empty. cbn [threshold].
  destruct (terr t) as [e|] eqn:Et; [exists (Err e); eexists _, _; split; [done|]; split; [done|]; split; [by left|]; intros [? _]; congruence|].
  destruct (answers t) as [|[[e []]|] an] eqn:Ea.
  - rewrite A1. exists (Ok (Z.of_nat (length l))); eexists _, _; split; [done|]. split; [done|]. split; [done|]. intros _. split; [done|]. by split.
  - rewrite A1. exists (Err e); eexists _, _; split; [done|]. split; [done|]. split; [by right|]. intros [_ ?]; congruence.
  - exists (Err e); eexists _, _; split; [done|]; split; [done|]; split; [by left|]. intros [_ ?]; congruence.
  - rewrite A1. exists (Ok (Z.of_nat (length l))); eexists _, _; split; [done|]. split; [done|]. split; [done|]. intros [_ ?]; congruence.
Qed.

(** A row that could not be put, or was put all the same: a prefix of the records. *)
Lemma err_prefix m m' h i ws vs : m' = m \/ with_records m m' h i ws -> exists n, with_records m m' h i (take n (ws ++ vs)).
Proof.
  intros [->|H]; [exists 0%nat; rewrite take_0; apply with_none|]. exists (length ws). by rewrite take_app_length.
Qed.

(** Of what is put, a prefix is stored, and all of it when there is no error. *)
Lemma put_values_spec k vs : forall ws t i, table_ok (rows t) -> 0 <= i -> i + Z.of_nat (length (ws ++ vs)) < 2 ^ 63 ->
  Z.of_nat (length (row_data ws)) <= Z.max 0 maxRowSize -> free (rows t) (hash_of sha256 k) i (length (ws ++ vs)) ->
  exists e t' n, put_values sha256 (writer ws) t i k vs = (e, t') /\ table_ok (rows t') /\ with_records (rows t) (rows t') (hash_of sha256 k) i (take n (ws ++ vs)) /\
    (e = None -> n = length (ws ++ vs)) /\ (works t -> Forall (fun v => Z.of_nat (length (frame_bytes v)) <= maxRowSize) vs -> e = None /\ works t').
Proof.
  induction vs as [|v vs IH]; intros ws t i Hok Hi Hb Hs Hf; cbn [put_values].
  - rewrite app_nil_r in *. destruct (flush_spec ws t i k Hok Hi Hb ltac:(lia) Hf) as (r & w' & t' & -> & Hok' & Hr & Hw). destruct r as [c|e].
    + destruct Hr as (-> & -> & Hr). exists None, t', (length ws). rewrite take_ge by done. split; [done|]. split; [done|]. split; [done|]. split; [done|]. intros H _. by destruct (Hw H).
    + destruct (err_prefix _ _ _ _ _ [] Hr) as (n & Hn). rewrite app_nil_r in Hn. exists (Some e), t', n. do 3 (split; [done|]). split; [done|]. intros H _. by destruct (Hw H).
  - unfold rw_append. cbn [w_buf writer threshold w_count].
    assert (Hrd : row_data (ws ++ [v]) = row_data ws ++ frame_bytes v) by (rewrite row_data_app; unfold row_data; cbn; by rewrite app_nil_r).
    rewrite <-Hrd. destruct (Z.leb_spec (Z.of_nat (length (row_data (ws ++ [v])))) maxRowSize) as [Hle|Hgt].
    + replace {| w_buf := row_data (ws ++ [v]); w_count := Z.of_nat (length ws) + 1; threshold := maxRowSize |} with (writer (ws ++ [v]))
        by (unfold writer; rewrite length_app; f_equal; cbn; lia).
      destruct (IH (ws ++ [v]) t i Hok Hi) as (e & t' & n & E & H1 & H2 & H3 & H4); [by rewrite <-app_assoc|lia|by rewrite <-app_assoc|].
      rewrite <-app_assoc in H2, H3. exists e, t', n. split; [done|]. split; [done|]. split; [done|]. split; [done|].
      intros Hwk [_ Hv]%Forall_cons. by apply H4.
    + assert (Hbw : i + Z.of_nat (length ws) < 2 ^ 63) by (rewrite length_app in Hb; lia).
      assert (Hfw : free (rows t) (hash_of sha256 k) i (length ws)) by (intros j d Hj; specialize (Hf j d Hj); rewrite length_app in Hf; lia).
      destruct (flush_spec ws t i k Hok Hi Hbw ltac:(lia) Hfw) as (r & w' & t1 & -> & Hok' & Hr & Hw). destruct r as [c|e].
      2: { destruct (err_prefix _ _ _ _ _ (v :: vs) Hr) as (n & Hn). exists (Some e), t1, n. do 3 (split; [done|]). split; [done|]. intros H _. by destruct (Hw H). }
      destruct Hr as (-> & -> & Hr). cbn [w_buf writer threshold w_count].
      assert (Hstop : (works t -> Forall (fun v => Z.of_nat (length (frame_bytes v)) <= maxRowSize) (v :: vs) -> False) ->
        exists e t' n, (Some (StorageFailure false), t1) = (e, t') /\ table_ok (rows t') /\ with_records (rows t) (rows t') (hash_of sha256 k) i (take n (ws ++ v :: vs)) /\
          (e = None -> n = length (ws ++ v :: vs)) /\ (works t -> Forall (fun v => Z.of_nat (length (frame_bytes v)) <= maxRowSize) (v :: vs) -> e = None /\ works t')).
      { intros HP. exists (Some (StorageFailure false)), t1, (length ws). rewrite take_app_length. split; [done|]. split; [done|]. split; [done|]. split; [done|].
        intros H H'. by destruct (HP H H'). }
      destruct (Z.eqb_spec (Z.of_nat (length ws)) 0) as [H0|H0].
      { apply Hstop. intros _ [Hv _]%Forall_cons. destruct ws; [|done].
        rewrite Hrd in Hgt. change (row_data [] ++ frame_bytes v) with (frame_bytes v) in Hgt. lia. }
      change (row_data [] ++ frame_bytes v) with (frame_bytes v). destruct (Z.leb_spec (Z.of_nat (length (frame_bytes v))) maxRowSize) as [Hv|Hv].
      2: { apply Hstop. intros _ [? _]%Forall_cons. lia. }
      replace {| w_buf := frame_bytes v; w_count := Z.of_nat (length (@nil bytes)) + 1; threshold := maxRowSize |} with (writer [v])
        by (unfold writer, row_data; cbn; by rewrite app_nil_r).
      rewrite i64_small by (unfold in_i64; lia).
      destruct (IH [v] t1 (i + Z.of_nat (length ws)) Hok') as (e & t' & n & E & H1 & H2 & H3 & H4).
      * lia.
      * rewrite length_app in Hb. cbn [app length] in Hb |- *. lia.
      * unfold row_data. cbn. rewrite app_nil_r. lia.
      * cbn [app]. apply (free_more (rows t)); [done|]. by rewrite <-length_app.
      * exists e, t', (length ws + n)%nat. split; [done|]. split; [done|]. split.
        { rewrite take_app, take_ge by lia. replace (length ws + n - length ws)%nat with n by lia. by apply (with_more _ (rows t1)). }
        split; [intros He; by rewrite length_app, (H3 He)|]. intros Hwk [_ Hvs]%Forall_cons. destruct (Hw Hwk) as [_ ?]. by apply H4.
Qed.
End Put.

(** * The theorem *)
Module BigTableToy.
Definition hash (b : bytes) : bytes := take 32 (map (fun c => Z.land c 0xff) b ++ replicate 32 0).
Lemma toy_hash_ok b : hash_ok (hash b).
Proof.
  split; [unfold hash; rewrite length_take, length_app, length_replicate; lia|]. unfold bytes_ok, hash. apply Forall_take, Forall_app. split.
  - apply List.Forall_map, Forall_forall. intros c _. change 0xff with (Z.ones 8). unfold in_u8. rewrite Z.land_ones by lia. apply Z.mod_pos_bound. lia.
  - apply Forall_replicate. done.
Qed.
Definition empty : Table := {| rows := ∅; LogBigTable.answers := []; terr := None |}.
Lemma empty_table_ok : table_ok (rows empty).
Proof. split; [done|]. intros h i vs i' vs' [_ H]. by destruct (lookup_empty_Some _ _ H). Qed.
Definition put : PutRequest := {| p_key := ([112], [97]); p_Index := 3; p_Values := [[1]; [2; 2]; [3]; [4]] |}.
Lemma put_terr : terr (bt_Put hash 6 empty put).2 = None.
Proof. vm_compute. reflexivity. Qed.
(** The second row fails, and the whole request is tried again. *)
Definition fails_once : Table := {| rows := ∅; LogBigTable.answers := [None; Some (StorageFailure true, false)]; terr := None |}.
Definition retried : option StorageError * Table := bt_Put hash 6 (bt_Put hash 6 fails_once put).2 put.
Example retry_loses : retried.1 = Some ErrExists /\
  map e_index (bt_Get hash retried.2 {| g_key := ([112], [97]); g_Index := 0; g_Limit := 0; KeysOnly := false |}).1 = [3; 4].
Proof. vm_compute. split; reflexivity. Qed.
End BigTableToy.

(** C22. BigTable is the storage that LogDog relies on: on a table whose rows do not
    overlap, a put of records to indices that are free stores a prefix of them and
    leaves all others, whatever the table answers; without an error it stores all,
    and when the table works and every record fits into a row there is no error.
    Then [Get] gives exactly the records of the stream from its index on, in
    order, once each.  The table stays one whose rows do not overlap. *)
Theorem bigtable_stores sha256 (sha_ok : forall b, hash_ok (sha256 b)) maxRowSize t r : maxRowSize < 2 ^ 63 ->
  table_ok (rows t) -> put_fits r -> free (rows t) (hash_of sha256 (p_key r)) (p_Index r) (length (p_Values r)) ->
  exists e t' n, bt_Put sha256 maxRowSize t r = (e, t') /\ table_ok (rows t') /\
    with_records (rows t) (rows t') (hash_of sha256 (p_key r)) (p_Index r) (take n (p_Values r)) /\
    (e = None -> n = length (p_Values r)) /\
    (terr t = None -> answers t = [] -> Forall (fun v => Z.of_nat (length (frame_bytes v)) <= maxRowSize) (p_Values r) -> e = None) /\
    forall g, terr t' = None -> 0 <= g_Index g < 2 ^ 63 -> g_Limit g <= 0 -> exists l, bt_Get sha256 t' g = (l, None) /\ increasing l /\
      forall e, e ∈ l <-> g_Index g <= e_index e /\
        exists d, cell (rows t') (hash_of sha256 (g_key g)) (e_index e) d /\ D e = if KeysOnly g then None else Some d.
Proof.
  intros Hmax Hok [F1 F2] Hf.
  destruct (put_values_spec sha256 sha_ok maxRowSize Hmax (p_key r) (p_Values r) [] t (p_Index r) Hok F1 F2) as (e & t' & n & E & H1 & H2 & H3 & H4);
    [change (row_data []) with (@nil Z); cbn; lia|exact Hf|].
  exists e, t', n. split; [exact E|]. split; [done|]. split; [done|]. split; [done|]. split.
  - intros T A Hv. by destruct (H4 (conj T A) Hv).
  - intros g T G L. by apply bt_Get_spec.
Qed.
Lemma bigtable_stores_witness : exists t' l, bt_Put BigTableToy.hash 6 BigTableToy.empty BigTableToy.put = (None, t') /\
  bt_Get BigTableToy.hash t' {| g_key := ([112], [97]); g_Index := 4; g_Limit := 0; KeysOnly := false |} = (l, None) /\ {| D := Some [3]; e_index := 5 |} ∈ l.
Proof.
  destruct (bigtable_stores BigTableToy.hash BigTableToy.toy_hash_ok 6 BigTableToy.empty BigTableToy.put) as (e & t' & n & E & _ & H2 & H3 & H4 & H5);
    [done|exact BigTableToy.empty_table_ok|split; cbn; lia|intros j d (i & vs & [_ H] & _); by destruct (lookup_empty_Some _ _ H)|].
  assert (e = None) as -> by (apply H4; [done|done|by repeat constructor]).
  destruct (H5 {| g_key := ([112], [97]); g_Index := 4; g_Limit := 0; KeysOnly := false |}) as (l & G & _ & Hl).
  - pose proof BigTableToy.put_terr as P. rewrite E in P. exact P.
  - cbn. lia.
  - done.
  - exists t', l. split; [exact E|]. split; [exact G|]. apply Hl. split; [cbn; lia|]. exists [3]. split; [|done].
    apply H2. right. split; [done|]. split; [cbn; lia|]. rewrite (H3 eq_refl). done.
Defined.
