(* ===== verification/LogCoord.v ===== *)
(** LogDog's coordinator (logdog/appengine/coordinator): the entities of log
    prefixes, streams and their states, the services that register, terminate,
    load and archive them (endpoints/registration, endpoints/services), and the
    mutation that publishes archive tasks (mutations/createArchiveTask.go,
    archival.go). *)
From S2P Require Import Prelude RecordIO LogEntry TimedBuffer Parsers StreamName LogStream Renderer.
From stdpp Require Import fin_maps.
Local Open Scope Z_scope.

(** * What it relies on

    SHA-256, the encoding of descriptors, and the rounding of times of the datastore. *)
Class Services := {
  sha256 : bytes -> bytes;
  UnmarshalDesc : bytes -> option LogStreamDescriptor;
  MarshalDesc : LogStreamDescriptor -> option bytes;
  RoundTime : Z -> Z
}.

(** Status codes of gRPC; an error that is not one of gRPC counts as [Unknown]. *)
Inductive Code := InvalidArgument | Internal | AlreadyExists | FailedPrecondition | NotFound | Unknown.
#[export] Instance Code_eq_dec : EqDecision Code.
Proof. solve_decision. Defined.
Definition IsTransientCode (c : Code) : bool := match c with Internal | Unknown => true | _ => false end.

Definition isSet {X} (o : option X) : bool := match o with Some _ => true | None => false end.

(** * Hash IDs (hashID.go) *)
Definition isHexChar (c : Z) : bool := (48 <=? c) && (c <=? 57) || (97 <=? c) && (c <=? 102).
Definition ToLower (c : Z) : Z := if (65 <=? c) && (c <=? 90) then c + 32 else c.
(** A rune above 0x7f is no hexadecimal digit in either case. *)
Definition Normalize (id : bytes) : option bytes :=
  let idv := map ToLower id in
  if negb (Z.of_nat (length idv) / 2 =? 32) then None
  else if forallb isHexChar idv then Some idv else None.

(** * Entities

    A time of [None] is the zero time. *)
Record LogPrefix := {
  pfx_ID : bytes; pfx_Created : option time; pfx_Prefix : bytes; pfx_Source : list bytes;
  pfx_Expiration : option time; pfx_Secret : bytes
}.
Record LogStream := {
  ls_ID : bytes; ls_Prefix : bytes; ls_Name : bytes; ls_Created : option time; ls_Purged : bool;
  ls_ProtoVersion : bytes; ls_Descriptor : bytes; ls_ContentType : bytes; ls_StreamType : StreamType;
  ls_Timestamp : option time; ls_Tags : list (bytes * bytes)
}.
Record LogStreamState := {
  Created : option time; Updated : option time; Secret : bytes;
  TerminatedTime : option time; TerminalIndex : Z;
  ArchivedTime : option time; ArchiveLogEntryCount : Z; ArchivalKey : bytes;
  ArchiveIndexURL : bytes; ArchiveIndexSize : Z; ArchiveStreamURL : bytes; ArchiveStreamSize : Z;
  ArchiveDataURL : bytes; ArchiveDataSize : Z
}.

Definition PrefixSecretLength : Z := 36.
Definition PrefixSecret_Validate (s : bytes) : bool := blen s =? PrefixSecretLength.

(** logStreamState.go. *)
Inductive ArchivalState := NotArchived | ArchiveTasked | ArchivedPartial | ArchivedComplete.
#[export] Instance ArchivalState_eq_dec : EqDecision ArchivalState.
Proof. solve_decision. Defined.
Definition Archived (a : ArchivalState) : bool := match a with ArchivedPartial | ArchivedComplete => true | _ => false end.
Definition archivalState (lst : LogStreamState) : ArchivalState :=
  match ArchivedTime lst with
  | None => if 0 <? blen (ArchivalKey lst) then ArchiveTasked else NotArchived
  | Some _ => if TerminalIndex lst <? ArchiveLogEntryCount lst then ArchivedComplete else ArchivedPartial
  end.
Definition Terminated (lst : LogStreamState) : bool :=
  if Archived (archivalState lst) then true else 0 <=? TerminalIndex lst.
Definition State_Validate (lst : LogStreamState) : bool :=
  isSet (Created lst) && isSet (Updated lst) &&
  negb (Terminated lst && negb (isSet (TerminatedTime lst))) && PrefixSecret_Validate (Secret lst).

Section Coordinator.
Context {SV : Services}.

Definition makeHashID (v : bytes) : bytes := Renderer.EncodeToString (sha256 v).
Definition LogPrefixID (prefix : bytes) : bytes := makeHashID prefix.
Definition LogStreamID (path : bytes) : bytes := makeHashID path.

(** [LogPrefix.validateImpl(true)]; it panics on an empty prefix. *)
Definition Prefix_Validate (p : LogPrefix) : outcome bool :=
  match pfx_Prefix p with
  | [] => Panic
  | _ => Ret (bool_decide (makeHashID (pfx_Prefix p) = pfx_ID p) && bool_decide (StreamName.Validate (pfx_Prefix p) = None) &&
              PrefixSecret_Validate (pfx_Secret p) && isSet (pfx_Created p))
  end.
Definition Stream_Path (s : LogStream) : bytes := StreamName.Join (ls_Prefix s) (ls_Name s).
Definition Stream_Validate (s : LogStream) : bool :=
  bool_decide (LogStreamID (Stream_Path s) = ls_ID s) && bool_decide (StreamName.Validate (ls_Prefix s) = None) &&
  bool_decide (StreamName.Validate (ls_Name s) = None) && negb (bool_decide (ls_ContentType s = [])) && isSet (ls_Created s) &&
  match ls_StreamType s with OtherType _ => false | _ => true end &&
  bool_decide (validate_tags (ls_Tags s) = None) && isSet (UnmarshalDesc (ls_Descriptor s)).

Definition Desc_Path (d : LogStreamDescriptor) : bytes := StreamName.Join (Prefix d) (Name d).
Definition LoadDescriptor (s : LogStream) (d : LogStreamDescriptor) : option LogStream :=
  if bool_decide (Descriptor_Validate d true = None) then
    pb ← MarshalDesc d;
    Some {| ls_ID := ls_ID s; ls_Prefix := Prefix d; ls_Name := Name d; ls_Created := ls_Created s; ls_Purged := ls_Purged s;
            ls_ProtoVersion := ls_ProtoVersion s; ls_Descriptor := pb; ls_ContentType := ContentType d; ls_StreamType := StreamType_ d;
            ls_Timestamp := match Timestamp d with Some ts => Some (RoundTime ts) | None => ls_Timestamp s end; ls_Tags := Tags d |}
  else None.

(** * The store

    [published]: the archive tasks of the transactions that committed; one that
    fails after it has published leaves a task that nothing matches. *)
Record ArchiveTask := {
  t_Id : bytes; t_Key : bytes; t_SettleDelay : option Duration; t_CompletePeriod : option Duration; t_DispatchedAt : time
}.
Record CStore := {
  prefixes : gmap bytes LogPrefix; lstreams : gmap bytes LogStream; states : gmap bytes LogStreamState; published : list ArchiveTask
}.
Definition empty_cstore : CStore := {| prefixes := ∅; lstreams := ∅; states := ∅; published := [] |}.
Definition put_prefix (s : CStore) (p : LogPrefix) : CStore :=
  {| prefixes := <[pfx_ID p := p]> (prefixes s); lstreams := lstreams s; states := states s; published := published s |}.
Definition put_stream (s : CStore) (l : LogStream) : CStore :=
  {| prefixes := prefixes s; lstreams := <[ls_ID l := l]> (lstreams s); states := states s; published := published s |}.
Definition put_state (s : CStore) (id : bytes) (lst : LogStreamState) : CStore :=
  {| prefixes := prefixes s; lstreams := lstreams s; states := <[id := lst]> (states s); published := published s |}.
Definition publish (s : CStore) (t : ArchiveTask) : CStore :=
  {| prefixes := prefixes s; lstreams := lstreams s; states := states s; published := t :: published s |}.

(** Keys: the state of a stream is a child of the stream. *)
Inductive CKey := PrefixKey (id : bytes) | StreamKey (id : bytes) | StateKey (id : bytes).

(** * The mutation that makes a task (createArchiveTask.go, archival.go) *)
Record CreateArchiveTask := { c_ID : bytes; c_SettleDelay : Z; c_CompletePeriod : Z; c_Expiration : time }.
Definition TaskName (m : CreateArchiveTask) : bytes := of_string "archive-expired-" ++ c_ID m.
(** The named mutations that a transaction puts. *)
Notation ops := (list ((CKey * bytes) * option CreateArchiveTask)).
Definition put_task (m : CreateArchiveTask) : ops := [((StateKey (c_ID m), TaskName m), Some m)].

Record ArchivalParams := { RequestID : bytes; SettleDelay : Z; CompletePeriod : Z }.
Definition createArchivalKey (p : ArchivalParams) (id : bytes) (pidx : Z) : bytes :=
  sha256 (RequestID p ++ [0] ++ id ++ [0] ++ Renderer.decimal pidx).
Inductive PublishError := ErrArchiveTasked | PublishFailed.
Definition PublishTask (p : ArchivalParams) (id : bytes) (pidx : Z) (now : time) (publish_fails : bool) (lst : LogStreamState)
  : result PublishError (ArchiveTask * LogStreamState) :=
  let as_ := archivalState lst in
  if Archived as_ || bool_decide (as_ = ArchiveTasked) then Err ErrArchiveTasked
  else
    let msg := {| t_Id := id; t_Key := createArchivalKey p id pidx;
                  t_SettleDelay := if 0 <? SettleDelay p then NewDuration (SettleDelay p) else None;
                  t_CompletePeriod := if 0 <? CompletePeriod p then NewDuration (CompletePeriod p) else None;
                  t_DispatchedAt := now |} in
    if publish_fails then Err PublishFailed
    else Ok (msg,
      {| Created := Created lst; Updated := Updated lst; Secret := Secret lst; TerminatedTime := TerminatedTime lst;
         TerminalIndex := TerminalIndex lst; ArchivedTime := ArchivedTime lst; ArchiveLogEntryCount := ArchiveLogEntryCount lst;
         ArchivalKey := t_Key msg; ArchiveIndexURL := ArchiveIndexURL lst; ArchiveIndexSize := ArchiveIndexSize lst;
         ArchiveStreamURL := ArchiveStreamURL lst; ArchiveStreamSize := ArchiveStreamSize lst;
         ArchiveDataURL := ArchiveDataURL lst; ArchiveDataSize := ArchiveDataSize lst |}).

(** What a run of the mutation meets. *)
Record TaskEnv := { te_request : bytes; te_pidx : Z; te_now : time; te_publisher_fails : bool; te_get_fails : bool; te_publish_fails : bool; te_put_fails : bool }.
Definition RollForward (e : TaskEnv) (m : CreateArchiveTask) (s : CStore) : result unit CStore :=
  if te_publisher_fails e || te_get_fails e then Err tt
  else
    match states s !! c_ID m with
    | None => Ok s
    | Some lst =>
        let params := {| RequestID := te_request e; SettleDelay := c_SettleDelay m; CompletePeriod := c_CompletePeriod m |} in
        match PublishTask params (c_ID m) (te_pidx e) (te_now e) (te_publish_fails e) lst with
        | Err ErrArchiveTasked => Ok s
        | Err PublishFailed => Err tt
        | Ok (msg, lst) => if te_put_fails e then Err tt else Ok (publish (put_state s (c_ID m) lst) msg)
        end
    end.

(** * Settings, and what a call meets *)
Record CoordConfig := {
  PrefixExpiration : option Duration; ArchiveSettleDelay : option Duration; ArchiveDelayMax : option Duration;
  Topic : option bytes
}.
Record ProjectConfig := { p_PrefixExpiration : option Duration; MaxStreamAge : option Duration }.
Inductive Op := OpExists | OpRand | OpGetPrefix | OpGet | OpHierarchy | OpGetTxn | OpPut | OpNamed.
Record CallEnv := { now : time; now_txn : time; cfg : option CoordConfig; pcfg : option ProjectConfig; fails : Op -> bool }.

Fixpoint MinDuration_loop (candidates : list (option Duration)) (exp : Z) : Z :=
  match candidates with
  | [] => exp
  | c :: candidates =>
      let cd := DurationFromProto c in
      MinDuration_loop candidates (if (0 <? cd) && ((exp <=? 0) || (cd <? exp)) then cd else exp)
  end.
Definition MinDuration (candidates : list (option Duration)) : Z := MinDuration_loop candidates 0.

Definition standardArchivalParams (cfg : CoordConfig) (pcfg : ProjectConfig) : ArchivalParams :=
  {| RequestID := []; SettleDelay := DurationFromProto (ArchiveSettleDelay cfg);
     CompletePeriod := MinDuration [ArchiveDelayMax cfg; MaxStreamAge pcfg] |}.

(** * Registering a prefix (registerPrefix.go) *)
Record RegisterPrefixRequest := { rp_Prefix : bytes; rp_SourceInfo : list bytes; rp_Expiration : option Duration }.
(** What comes before the transaction: the expiration and the topic. *)
Definition RegisterPrefix_check (e : CallEnv) (req : RegisterPrefixRequest) (s : CStore) : result Code (Z * bytes) :=
  match StreamName.Validate (rp_Prefix req) with
  | Some _ => Err InvalidArgument
  | None =>
      if fails e OpExists then Err Internal
      else if isSet (prefixes s !! LogPrefixID (rp_Prefix req)) then Err AlreadyExists
      else
        match cfg e, pcfg e with
        | Some cfg, Some pcfg =>
            let expiration := MinDuration [rp_Expiration req; PrefixExpiration cfg; p_PrefixExpiration pcfg] in
            if expiration <=? 0 then Err InvalidArgument
            else match Topic cfg with None => Err Internal | Some topic => Ok (expiration, topic) end
        | _, _ => Err Internal
        end
  end.
Definition RegisterPrefix_txn (e : CallEnv) (req : RegisterPrefixRequest) (expiration : Z) (secret : bytes) (s : CStore) : outcome (result Code CStore) :=
  if fails e OpGetTxn then Ret (Err Internal)
  else if isSet (prefixes s !! LogPrefixID (rp_Prefix req)) then Ret (Err AlreadyExists)
  else
    let pfx := {| pfx_ID := LogPrefixID (rp_Prefix req); pfx_Created := Some (now e); pfx_Prefix := rp_Prefix req;
                  pfx_Source := rp_SourceInfo req; pfx_Expiration := Some (now e + expiration); pfx_Secret := secret |} in
    ok ← Prefix_Validate pfx;
    if negb ok || fails e OpPut then Ret (Err Internal) else Ret (Ok (put_prefix s pfx)).
(** [secret] is read from the random source; the check read [s0]. *)
Definition RegisterPrefix (e : CallEnv) (req : RegisterPrefixRequest) (secret : bytes) (s0 s : CStore) : outcome (result Code (bytes * bytes) * CStore) :=
  match RegisterPrefix_check e req s0 with
  | Err c => Ret (Err c, s)
  | Ok (expiration, topic) =>
      if fails e OpRand || negb (PrefixSecret_Validate secret) then Ret (Err Internal, s)
      else
        r ← RegisterPrefix_txn e req expiration secret s;
        Ret (match r with Err c => (Err c, s) | Ok s => (Ok (secret, topic), s) end)
  end.

(** * Registering a stream (registerStream.go) *)
Record StreamState := { st_ProtoVersion : bytes; st_Secret : bytes; st_TerminalIndex : Z; st_Archived : bool; st_Purged : bool }.
Definition buildLogStreamState (ls : LogStream) (lst : LogStreamState) : StreamState :=
  {| st_ProtoVersion := ls_ProtoVersion ls; st_Secret := Secret lst;
     st_TerminalIndex := if Terminated lst then TerminalIndex lst else -1;
     st_Archived := Archived (archivalState lst); st_Purged := ls_Purged ls |}.

Definition logpb_Version : bytes := [49].
Record RegisterStreamRequest := { rs_ProtoVersion : bytes; rs_Desc : bytes; rs_Secret : bytes; rs_TerminalIndex : Z }.

(** Both entities, or no entity. *)
Definition get_stream (s : CStore) (id : bytes) : option (LogStream * LogStreamState) :=
  match lstreams s !! id, states s !! id with Some ls, Some lst => Some (ls, lst) | _, _ => None end.

(** What comes before the transaction: the descriptor, the prefix, the settings. *)
Definition RegisterStream_check (e : CallEnv) (req : RegisterStreamRequest) (s : CStore)
  : result Code (LogStreamDescriptor * LogPrefix * CoordConfig * ProjectConfig) :=
  if negb (bool_decide (rs_ProtoVersion req = logpb_Version)) then Err InvalidArgument
  else
    match UnmarshalDesc (rs_Desc req) with
    | None => Err InvalidArgument
    | Some desc =>
        if negb (bool_decide (Descriptor_Validate desc true = None)) then Err InvalidArgument
        else
          match cfg e, pcfg e with
          | Some cfg, Some pcfg =>
              if fails e OpGetPrefix then Err Internal
              else
                match prefixes s !! LogPrefixID (StreamPath_Split (Desc_Path desc)).1 with
                | None => Err FailedPrecondition
                | Some pfx =>
                    let expirationTime :=
                      match pfx_Expiration pfx with
                      | Some t => Some t
                      | None =>
                          let expiration := MinDuration [PrefixExpiration cfg; p_PrefixExpiration pcfg] in
                          if 0 <? expiration then Some (default 0 (pfx_Created pfx) + expiration) else None
                      end in
                    match expirationTime with
                    | None => Err FailedPrecondition
                    | Some t =>
                        if negb (now e <? t) then Err FailedPrecondition
                        else if negb (bool_decide (pfx_Secret pfx = rs_Secret req)) then Err InvalidArgument
                        else Ok (desc, pfx, cfg, pcfg)
                    end
                end
          | _, _ => Err Internal
          end
    end.

Definition created_stream (id : bytes) (now : time) (version : bytes) : LogStream :=
  {| ls_ID := id; ls_Prefix := []; ls_Name := []; ls_Created := Some now; ls_Purged := false; ls_ProtoVersion := version; ls_Descriptor := [];
     ls_ContentType := []; ls_StreamType := TEXT; ls_Timestamp := None; ls_Tags := [] |}.
Definition created_state (now : time) (secret : bytes) (tidx : Z) : LogStreamState :=
  {| Created := Some now; Updated := Some now; Secret := secret; TerminatedTime := if 0 <=? tidx then Some now else None;
     TerminalIndex := if 0 <=? tidx then tidx else -1; ArchivedTime := None; ArchiveLogEntryCount := 0; ArchivalKey := [];
     ArchiveIndexURL := []; ArchiveIndexSize := 0; ArchiveStreamURL := []; ArchiveStreamSize := 0; ArchiveDataURL := []; ArchiveDataSize := 0 |}.
(** The mutation that archives a new stream: at its latest possible end when no
    terminal index is known, or else as for a terminated one. *)
Definition archive_task (params : ArchivalParams) (id : bytes) (now : time) (terminal : bool) : CreateArchiveTask :=
  if terminal then {| c_ID := id; c_SettleDelay := SettleDelay params; c_CompletePeriod := CompletePeriod params; c_Expiration := now + SettleDelay params |}
  else {| c_ID := id; c_SettleDelay := 0; c_CompletePeriod := 0; c_Expiration := now + CompletePeriod params |}.

Definition RegisterStream_txn (e : CallEnv) (req : RegisterStreamRequest) (desc : LogStreamDescriptor) (pfx : LogPrefix)
    (cfg : CoordConfig) (pcfg : ProjectConfig) (s : CStore) : result Code (LogStream * LogStreamState * CStore * ops) :=
  let id := LogStreamID (Desc_Path desc) in
  if fails e OpGetTxn then Err Unknown
  else
    match get_stream s id with
    | Some (ls, lst) => Ok (ls, lst, s, [])
    | None =>
        let lst := created_state (now_txn e) (pfx_Secret pfx) (rs_TerminalIndex req) in
        match LoadDescriptor (created_stream id (now_txn e) (rs_ProtoVersion req)) desc with
        | None => Err InvalidArgument
        | Some ls =>
            if fails e OpPut || negb (Stream_Validate ls) then Err Internal
            else if fails e OpNamed then Err Internal
            else
              Ok (ls, lst, put_state (put_stream s ls) id lst,
                  put_task (archive_task (standardArchivalParams cfg pcfg) id (now_txn e) (0 <=? rs_TerminalIndex req)))
        end
    end.
(** The check read [s0], the search for the stream [s1]. *)
Definition RegisterStream (e : CallEnv) (req : RegisterStreamRequest) (s0 s1 s : CStore) : result Code (bytes * StreamState) * CStore * ops :=
  match RegisterStream_check e req s0 with
  | Err c => (Err c, s, [])
  | Ok (desc, pfx, cfg, pcfg) =>
      if fails e OpGet then (Err Unknown, s, [])
      else
        match get_stream s1 (LogStreamID (Desc_Path desc)) with
        | Some (ls, lst) => (Ok (ls_ID ls, buildLogStreamState ls lst), s, [])
        | None =>
            if fails e OpHierarchy then (Err Internal, s, [])
            else
              match RegisterStream_txn e req desc pfx cfg pcfg s with
              | Err c => (Err c, s, [])
              | Ok (ls, lst, s, o) => (Ok (ls_ID ls, buildLogStreamState ls lst), s, o)
              end
        end
  end.

(** * Terminating a stream (terminateStream.go) *)
Record TerminateStreamRequest := { ts_Id : bytes; ts_Secret : bytes; ts_TerminalIndex : Z }.
Definition terminated_state (lst : LogStreamState) (now : time) (tidx : Z) : LogStreamState :=
  {| Created := Created lst; Updated := Some now; Secret := Secret lst; TerminatedTime := Some now;
     TerminalIndex := tidx; ArchivedTime := ArchivedTime lst; ArchiveLogEntryCount := ArchiveLogEntryCount lst;
     ArchivalKey := ArchivalKey lst; ArchiveIndexURL := ArchiveIndexURL lst; ArchiveIndexSize := ArchiveIndexSize lst;
     ArchiveStreamURL := ArchiveStreamURL lst; ArchiveStreamSize := ArchiveStreamSize lst;
     ArchiveDataURL := ArchiveDataURL lst; ArchiveDataSize := ArchiveDataSize lst |}.
Definition TerminateStream_check (e : CallEnv) (req : TerminateStreamRequest) : result Code (bytes * ArchivalParams) :=
  if ts_TerminalIndex req <? 0 then Err InvalidArgument
  else
    match Normalize (ts_Id req) with
    | None => Err InvalidArgument
    | Some id =>
        match cfg e, pcfg e with
        | Some cfg, Some pcfg => Ok (id, standardArchivalParams cfg pcfg)
        | _, _ => Err Internal
        end
    end.
Definition TerminateStream_txn (e : CallEnv) (req : TerminateStreamRequest) (id : bytes) (params : ArchivalParams) (s : CStore) : result Code (CStore * ops) :=
  if fails e OpGetTxn then Err Internal
  else
    match states s !! id with
    | None => Err NotFound
    | Some lst =>
        if negb (bool_decide (Secret lst = ts_Secret req)) then Err InvalidArgument
        else if Terminated lst then
          if TerminalIndex lst =? ts_TerminalIndex req then Ok (s, []) else Err FailedPrecondition
        else if fails e OpPut then Err Internal
        else if fails e OpNamed then Err Internal
        else Ok (put_state s id (terminated_state lst (now_txn e) (ts_TerminalIndex req)), put_task (archive_task params id (now_txn e) true))
    end.
Definition TerminateStream (e : CallEnv) (req : TerminateStreamRequest) (s : CStore) : option Code * CStore * ops :=
  match TerminateStream_check e req with
  | Err c => (Some c, s, [])
  | Ok (id, params) =>
      match TerminateStream_txn e req id params s with Err c => (Some c, s, []) | Ok (s, o) => (None, s, o) end
  end.

(** * Archiving a stream (archiveStream.go) *)
Record ArchiveStreamRequest := {
  ar_Id : bytes; ar_TerminalIndex : Z; ar_LogEntryCount : Z; ar_StreamUrl : bytes; ar_StreamSize : Z; ar_IndexUrl : bytes; ar_IndexSize : Z;
  ar_DataUrl : bytes; ar_DataSize : Z; ar_Error : bytes
}.
(** With an error, an empty archive is recorded. *)
Definition archived_state (lst : LogStreamState) (now : time) (req : ArchiveStreamRequest) : LogStreamState :=
  let failed := negb (bool_decide (ar_Error req = [])) in
  {| Created := Created lst; Updated := Some now; Secret := Secret lst;
     TerminatedTime := if TerminalIndex lst <? 0 then Some now else TerminatedTime lst;
     TerminalIndex := if failed then -1 else ar_TerminalIndex req; ArchivedTime := Some now;
     ArchiveLogEntryCount := if failed then 0 else ar_LogEntryCount req;
     ArchivalKey := []; ArchiveIndexURL := ar_IndexUrl req; ArchiveIndexSize := ar_IndexSize req;
     ArchiveStreamURL := ar_StreamUrl req; ArchiveStreamSize := ar_StreamSize req;
     ArchiveDataURL := ar_DataUrl req; ArchiveDataSize := ar_DataSize req |}.
Definition ArchiveStream_check (req : ArchiveStreamRequest) : result Code bytes :=
  match Normalize (ar_Id req) with
  | None => Err InvalidArgument
  | Some id =>
      if bool_decide (ar_IndexUrl req = []) then Err InvalidArgument
      else if bool_decide (ar_StreamUrl req = []) then Err InvalidArgument else Ok id
  end.
Definition ArchiveStream_txn (e : CallEnv) (req : ArchiveStreamRequest) (id : bytes) (s : CStore) : result Code CStore :=
  if fails e OpGetTxn then Err Internal
  else
    match states s !! id with
    | None => Err Internal
    | Some lst =>
        if Archived (archivalState lst) then Ok s
        else if negb (bool_decide (archivalState lst = ArchiveTasked)) then Err FailedPrecondition
        else if fails e OpPut then Err Internal else Ok (put_state s id (archived_state lst (now e) req))
    end.
Definition ArchiveStream (e : CallEnv) (req : ArchiveStreamRequest) (s : CStore) : option Code * CStore :=
  match ArchiveStream_check req with
  | Err c => (Some c, s)
  | Ok id => match ArchiveStream_txn e req id s with Err c => (Some c, s) | Ok s => (None, s) end
  end.

(** * Loading a stream (loadStream.go)

    The ID is checked, and then used as it came. *)
Record LoadStreamResponse := { l_State : StreamState; l_Desc : option bytes; l_ArchivalKey : bytes; l_Age : option Duration }.
Definition LoadStream (e : CallEnv) (reqId : bytes) (desc : bool) (s : CStore) : result Code LoadStreamResponse :=
  match Normalize reqId with
  | None => Err InvalidArgument
  | Some _ =>
      if fails e OpGet then Err Internal
      else
        match get_stream s reqId with
        | None => Err NotFound
        | Some (ls, lst) =>
            Ok {| l_State := buildLogStreamState ls lst; l_Desc := if desc then Some (ls_Descriptor ls) else None;
                  l_ArchivalKey := ArchivalKey lst; l_Age := NewDuration (Time_Sub (RoundTime (now e)) (default 0 (Updated lst))) |}
        end
  end.
End Coordinator.
