(* ===== verification/LogCoordSystem.v ===== *)
(** LogDog's coordinator on tumble: its calls and its mutation as an application
    of tumble, what stays true of its entities, and how a stream evolves. *)
From stdpp Require Import fin_maps.
From S2P Require Import Prelude LogEntry TimedBuffer Parsers StreamName LogStream LogCoord.
From S2P Require Import Tumble TumbleJournal TumbleViews TumbleSystem TumbleSim.
Local Open Scope Z_scope.

(** * Keys *)
#[export] Instance CKey_eq_dec : EqDecision CKey.
Proof. solve_decision. Defined.
#[export] Instance CKey_countable : Countable CKey.
Proof.
  refine (inj_countable'
    (fun k => match k with PrefixKey i => inl i | StreamKey i => inr (inl i) | StateKey i => inr (inr i) end)
    (fun x => match x with inl i => PrefixKey i | inr (inl i) => StreamKey i | inr (inr i) => StateKey i end) _).
  by intros [].
Defined.
Definition CKey_root (k : CKey) : CKey := match k with StateKey i => StreamKey i | _ => k end.
#[export] Instance C_keys : DSKeys := {|
  Key := CKey; key_root := CKey_root; HasAncestor k r := bool_decide (k = r \/ CKey_root k = r) |}.
#[export] Instance C_keys_laws : DSKeysLaws.
Proof.
  split; [by intros []|]. intros k r Hr. cbn in *. apply bool_decide_ext. split; [|by right]. by intros [->|].
Qed.

(** The key and name of the mutation for a stream. *)
Definition task_key (id : bytes) : CKey * bytes := (StateKey id, of_string "archive-expired-" ++ id).
Lemma task_key_inj i j : task_key i = task_key j -> i = j.
Proof. by intros [= ->]. Qed.

(** What SHA-256 promises here. *)
Class ServicesLaws `{Services} := { sha256_32 b : length (sha256 b) = 32%nat }.

(** * How a stream evolves

    Its identity stays, a terminal index stays until it is archived, a task stays
    until then with its key, and an archived stream stays as it is. *)
Record state_evolves (a b : LogStreamState) : Prop := {
  ev_secret : Secret b = Secret a;
  ev_created : Created b = Created a;
  ev_archived : Archived (archivalState a) = true -> b = a;
  ev_terminal : Terminated a = true -> Archived (archivalState b) = true \/ Terminated b = true /\ TerminalIndex b = TerminalIndex a;
  ev_tasked : archivalState a = ArchiveTasked -> Archived (archivalState b) = true \/ archivalState b = ArchiveTasked /\ ArchivalKey b = ArchivalKey a
}.
#[export] Instance state_evolves_preorder : PreOrder state_evolves.
Proof.
  split.
  - intros a. split; auto.
  - intros a b c [A1 A2 A3 A4 A5] [B1 B2 B3 B4 B5]. split; [congruence|congruence|..].
    + intros H. pose proof (A3 H) as ->. by apply B3.
    + intros H. destruct (A4 H) as [Hb|[Hb <-]]; [left; by rewrite (B3 Hb)|by apply B4].
    + intros H. destruct (A5 H) as [Hb|[Hb <-]]; [left; by rewrite (B3 Hb)|by apply B5].
Qed.
Record store_evolves (s s' : CStore) : Prop := {
  se_prefixes : prefixes s ⊆ prefixes s';
  se_streams : lstreams s ⊆ lstreams s';
  se_states id a : states s !! id = Some a -> exists b, states s' !! id = Some b /\ state_evolves a b;
  se_published t : t ∈ published s -> t ∈ published s'
}.
#[export] Instance store_evolves_preorder : PreOrder store_evolves.
Proof.
  split.
  - intros s. split; auto. intros id a H. by exists a.
  - intros s1 s2 s3 [A1 A2 A3 A4] [B1 B2 B3 B4]. split; [by etrans|by etrans| |auto].
    intros id a (b & Hb & E)%A3. apply B3 in Hb as (c & Hc & F). exists c. split; [done|by etrans].
Qed.

Section Coord.
Context {SV : Services} {SL : ServicesLaws}.

(** * What stays true of the entities *)
Record stream_ok (s : CStore) (id : bytes) (ls : LogStream) (lst : LogStreamState) : Prop := {
  so_id : ls_ID ls = id;
  so_valid : Stream_Validate ls = true;
  so_state : State_Validate lst = true;
  so_archived : ArchivedTime lst <> None -> ArchivalKey lst = [];
  so_secret : exists p, prefixes s !! LogPrefixID (ls_Prefix ls) = Some p /\ pfx_Secret p = Secret lst;
  so_tasked : archivalState lst = ArchiveTasked -> exists t, t ∈ published s /\ t_Id t = id /\ t_Key t = ArchivalKey lst
}.
Record coord_ok (s : CStore) : Prop := {
  ok_both id : lstreams s !! id = None <-> states s !! id = None;
  ok_prefix id p : prefixes s !! id = Some p -> pfx_ID p = id /\ Prefix_Validate p = Ret true;
  ok_stream id ls lst : lstreams s !! id = Some ls -> states s !! id = Some lst -> stream_ok s id ls lst
}.
Lemma empty_cstore_ok : coord_ok empty_cstore.
Proof. by split. Qed.

Lemma stream_ok_mono s s' id ls lst : prefixes s ⊆ prefixes s' -> (forall t, t ∈ published s -> t ∈ published s') ->
  stream_ok s id ls lst -> stream_ok s' id ls lst.
Proof.
  intros Hp Ht [H1 H2 H3 H4 (p & H5 & H6) H7]. split; try done.
  - exists p. split; [|done]. by eapply lookup_weaken.
  - intros H. destruct (H7 H) as (t & ? & ?). exists t. auto.
Qed.

(** A new state of a stream. *)
Lemma put_state_ok s id ls a b : coord_ok s -> lstreams s !! id = Some ls -> states s !! id = Some a ->
  stream_ok (put_state s id b) id ls b -> state_evolves a b -> coord_ok (put_state s id b) /\ store_evolves s (put_state s id b).
Proof.
  intros [H1 H2 H3] Hls Ha Hb He. split.
  - split; cbn; [|done|].
    + intros i. destruct (decide (i = id)) as [->|Hne]; [rewrite lookup_insert_eq, Hls; done|by rewrite lookup_insert_ne].
    + intros i ls' lst Hi [[<- <-]|[Hne Hl]]%lookup_insert_Some; [by simplify_eq|].
      apply (stream_ok_mono s); [done|done|by apply H3].
  - split; cbn; [done|done| |done]. intros i c Hc. destruct (decide (i = id)) as [->|Hne].
    + rewrite lookup_insert_eq. simplify_eq. by exists b.
    + rewrite lookup_insert_ne by done. by exists c.
Qed.

(** * The transactions *)
Lemma RegisterPrefix_txn_ok e req x secret s s' : coord_ok s -> RegisterPrefix_txn e req x secret s = Ret (Ok s') -> coord_ok s' /\ store_evolves s s'.
Proof.
  unfold RegisterPrefix_txn. intros [H1 H2 H3]. destruct (fails e OpGetTxn); [done|].
  destruct (prefixes s !! LogPrefixID (rp_Prefix req)) as [p|] eqn:Hn; cbn [isSet]; [done|].
  match goal with |- context [Prefix_Validate ?p] => set (pfx := p) end.
  destruct (Prefix_Validate pfx) as [ok|] eqn:Hv; cbn; [|done]. destruct ok; cbn; [|done]. destruct (fails e OpPut); [done|]. intros [= <-].
  assert (Hsub : prefixes s ⊆ prefixes (put_prefix s pfx)) by by apply insert_subseteq.
  split.
  - split; cbn; [done| |].
    + intros id p [[<- <-]|[_ Hp]]%lookup_insert_Some; [by split|by apply H2].
    + intros id ls lst Hls Hlst. apply (stream_ok_mono s); [exact Hsub|done|by apply H3].
  - split; [done|done| |done]. intros id a Ha. by exists a.
Qed.

Lemma created_state_state now secret tidx : PrefixSecret_Validate secret = true ->
  archivalState (created_state now secret tidx) = NotArchived /\ State_Validate (created_state now secret tidx) = true.
Proof.
  intros Hs. split; [done|]. unfold State_Validate, Terminated. cbn. rewrite Hs, andb_true_r.
  destruct (0 <=? tidx) eqn:E; cbn; [by rewrite E|done].
Qed.

Lemma RegisterStream_txn_ok e req desc pfx cfg pcfg s ls lst s' o : coord_ok s ->
  prefixes s !! LogPrefixID (Prefix desc) = Some pfx ->
  RegisterStream_txn e req desc pfx cfg pcfg s = Ok (ls, lst, s', o) ->
  coord_ok s' /\ store_evolves s s' /\ forall id b, states s' !! id = Some b -> states s !! id = Some b \/
    exists m, o = [(task_key id, Some m)] /\ c_ID m = id.
Proof.
  unfold RegisterStream_txn. intros Hok Hpfx. set (id := LogStreamID (Desc_Path desc)).
  destruct (fails e OpGetTxn); [done|]. unfold get_stream.
  destruct (lstreams s !! id) as [l0|] eqn:Hl; [destruct (states s !! id) as [a0|] eqn:Ha|].
  { intros [= <- <- <- <-]. split; [done|]. split; [done|]. by left. }
  { by apply (ok_both _ Hok) in Ha; rewrite Hl in Ha. }
  assert (Ha : states s !! id = None) by (by apply (ok_both _ Hok)).
  destruct (LoadDescriptor _ desc) as [l|] eqn:Hld; [|done]. destruct (fails e OpPut) eqn:?; [done|].
  destruct (Stream_Validate l) eqn:Hv; [|done]. cbn. destruct (fails e OpNamed); [done|]. intros [= <- <- <- <-].
  assert (ls_ID l = id /\ ls_Prefix l = Prefix desc) as [Hid Hpre].
  { unfold LoadDescriptor in Hld. destruct (bool_decide _); [|done]. destruct (MarshalDesc desc); [|done]. cbn in Hld. by injection Hld as <-. }
  destruct Hok as [H1 H2 H3]. set (lst := created_state _ _ _).
  assert (Hsec : PrefixSecret_Validate (pfx_Secret pfx) = true).
  { destruct (H2 _ _ Hpfx) as [_ Hp]. unfold Prefix_Validate in Hp. destruct (pfx_Prefix pfx); [done|]. injection Hp as Hp. bool_to_prop. done. }
  destruct (created_state_state (now_txn e) (pfx_Secret pfx) (rs_TerminalIndex req) Hsec) as [C1 C2]. fold lst in C1, C2.
  split; [|split].
  - split; cbn; [|done|].
    + intros i. rewrite Hid. destruct (decide (i = id)) as [->|Hne]; [by rewrite !lookup_insert_eq|by rewrite !lookup_insert_ne].
    + intros i ls' lst'. rewrite Hid. destruct (decide (i = id)) as [->|Hne].
      * rewrite !lookup_insert_eq. intros [= <-] [= <-]. split; [done|done|done|done|rewrite Hpre; by exists pfx|by rewrite C1].
      * rewrite !lookup_insert_ne by done. intros Hls' Hlst'. apply (stream_ok_mono s); [done|done|by apply H3].
  - split; cbn; [done| | |done].
    + apply insert_subseteq. by rewrite Hid.
    + intros i a Hi. rewrite lookup_insert_ne by congruence. by exists a.
  - cbn. intros i b [[<- <-]|[_ Hb]]%lookup_insert_Some; [|by left]. right.
    by destruct (0 <=? rs_TerminalIndex req); eexists; split.
Qed.

Lemma TerminateStream_txn_ok e req id params s s' o : coord_ok s -> 0 <= ts_TerminalIndex req ->
  TerminateStream_txn e req id params s = Ok (s', o) ->
  coord_ok s' /\ store_evolves s s' /\ (s' = s /\ o = [] \/ (forall i, i <> id -> states s' !! i = states s !! i) /\
    exists m, o = [(task_key id, Some m)] /\ c_ID m = id).
Proof.
  unfold TerminateStream_txn. intros Hok Ht. destruct (fails e OpGetTxn); [done|].
  destruct (states s !! id) as [a|] eqn:Ha; [|done]. destruct (bool_decide (Secret a = _)) eqn:Hs; [|done]. cbn [negb].
  destruct (Terminated a) eqn:HT.
  { destruct (_ =? _); [|done]. intros [= <- <-]. split; [done|]. split; [done|by left]. }
  destruct (fails e OpPut); [done|]. destruct (fails e OpNamed); [done|]. intros [= <- <-].
  destruct (lstreams s !! id) as [ls|] eqn:Hls; [|by apply (ok_both _ Hok) in Hls; rewrite Ha in Hls].
  pose proof (ok_stream _ Hok _ _ _ Hls Ha) as [G1 G2 G3 G4 G5 G6].
  set (b := terminated_state a (now_txn e) (ts_TerminalIndex req)).
  assert (Hna : ArchivedTime a = None) by (unfold Terminated, archivalState in HT; destruct (ArchivedTime a); [destruct (_ <? _) in HT|]; done).
  assert (Hb : archivalState b = archivalState a) by (unfold archivalState; cbn; by rewrite Hna).
  destruct (put_state_ok s id ls a b) as [C1 C2]; try done.
  - split; try done.
    + unfold State_Validate in G3 |- *. cbn. bool_to_prop. rewrite andb_false_r. cbn. by destruct (Created a).
    + by rewrite Hb.
  - split; cbn; [done|done|..].
    + unfold archivalState. rewrite Hna. by destruct (_ <? _).
    + by rewrite HT.
    + rewrite Hb. auto.
  - split; [done|]. split; [done|]. right. split; [|eexists; split; [done|done]]. intros i Hi. cbn. by rewrite lookup_insert_ne.
Qed.

Lemma ArchiveStream_txn_ok e req id s s' : coord_ok s -> ArchiveStream_txn e req id s = Ok s' ->
  coord_ok s' /\ store_evolves s s' /\ forall i b, states s' !! i = Some b -> states s !! i = Some b \/ Archived (archivalState b) = true.
Proof.
  unfold ArchiveStream_txn. intros Hok. destruct (fails e OpGetTxn); [done|].
  destruct (states s !! id) as [a|] eqn:Ha; [|done]. destruct (Archived (archivalState a)) eqn:HA.
  { intros [= <-]. split; [done|]. split; [done|by left]. }
  destruct (bool_decide (archivalState a = ArchiveTasked)) eqn:HT; cbn [negb]; [|done]. destruct (fails e OpPut); [done|]. intros [= <-].
  destruct (lstreams s !! id) as [ls|] eqn:Hls; [|by apply (ok_both _ Hok) in Hls; rewrite Ha in Hls].
  pose proof (ok_stream _ Hok _ _ _ Hls Ha) as [G1 G2 G3 G4 G5 G6]. bool_to_prop.
  set (b := archived_state a (now e) req).
  assert (Hb : Archived (archivalState b) = true) by (unfold archivalState; cbn; by destruct (_ <? _)).
  destruct (put_state_ok s id ls a b) as [C1 C2]; try done.
  - split; try done; [|by destruct (archivalState b)].
    unfold State_Validate in G3 |- *. unfold Terminated. rewrite Hb. cbn. unfold State_Validate, Terminated in G3. rewrite HA in G3.
    apply andb_true_iff in G3 as [G3 ->]. apply andb_true_iff in G3 as [G3 Gt]. apply andb_true_iff in G3 as [-> _]. cbn.
    destruct (Z.ltb_spec (TerminalIndex a) 0); cbn; [done|]. rewrite (proj2 (Z.leb_le 0 (TerminalIndex a))) in Gt by lia.
    by destruct (TerminatedTime a).
  - split; [done|done|by rewrite HA|by left|by left].
  - split; [done|]. split; [done|]. cbn. intros i c [[<- <-]|[_ Hc]]%lookup_insert_Some; [by right|by left].
Qed.

Lemma createArchivalKey_tasked p id n : 0 < Z.of_nat (length (createArchivalKey p id n)).
Proof. unfold createArchivalKey. rewrite sha256_32. lia. Qed.

Lemma RollForward_ok e m s s' : coord_ok s -> LogCoord.RollForward e m s = Ok s' ->
  coord_ok s' /\ store_evolves s s' /\ (forall b, states s' !! c_ID m = Some b -> archivalState b <> NotArchived) /\
  forall i, i <> c_ID m -> states s' !! i = states s !! i.
Proof.
  unfold LogCoord.RollForward. intros Hok. destruct (_ || _); [done|]. destruct (states s !! c_ID m) as [a|] eqn:Ha.
  2: { intros [= <-]. split; [done|]. split; [done|]. split; [by rewrite Ha|done]. }
  unfold PublishTask. cbv zeta. destruct (Archived (archivalState a) || bool_decide (archivalState a = ArchiveTasked)) eqn:HA.
  { intros [= <-]. split; [done|]. split; [done|]. split; [|done]. rewrite Ha. intros b [= <-] Hn. by rewrite Hn in HA. }
  destruct (te_publish_fails e); [done|]. destruct (te_put_fails e); [done|]. intros [= <-].
  destruct (lstreams s !! c_ID m) as [ls|] eqn:Hls; [|by apply (ok_both _ Hok) in Hls; rewrite Ha in Hls].
  pose proof (ok_stream _ Hok _ _ _ Hls Ha) as [G1 G2 G3 G4 G5 G6].
  assert (Hna : archivalState a = NotArchived) by (destruct (archivalState a); done).
  assert (Ht : ArchivedTime a = None) by (unfold archivalState in Hna; destruct (ArchivedTime a); [destruct (_ <? _) in Hna|]; done).
  match goal with |- context [publish _ ?t] => set (msg := t) end.
  match goal with |- context [put_state s (c_ID m) ?b] => set (lst := b) end.
  assert (Hb : archivalState lst = ArchiveTasked).
  { unfold archivalState. cbn. rewrite Ht, (proj2 (Z.ltb_lt 0 _)); [done|]. apply createArchivalKey_tasked. }
  assert (He : state_evolves a lst).
  { split; [done|done|by rewrite Hna| |by rewrite Hna]. intros HT. right. split; [|done]. unfold Terminated in *. rewrite Hb. by rewrite Hna in HT. }
  set (s1 := put_state s (c_ID m) lst).
  assert (Hse : store_evolves s (publish s1 msg)).
  { split; cbn; [done|done| |by right]. intros i c Hc. destruct (decide (i = c_ID m)) as [->|Hne].
    - rewrite lookup_insert_eq. simplify_eq. by exists lst.
    - rewrite lookup_insert_ne by done. by exists c. }
  split; [|split; [done|split]].
  - destruct Hok as [H1 H2 H3]. split; cbn; [|done|].
    + intros i. destruct (decide (i = c_ID m)) as [->|Hne]; [by rewrite lookup_insert_eq, Hls|by rewrite lookup_insert_ne].
    + intros i ls' b Hi [[<- <-]|[Hne Hl]]%lookup_insert_Some.
      * simplify_eq. split; try done.
        -- unfold State_Validate, Terminated in *. rewrite Hb. rewrite Hna in G3. done.
        -- intros _. exists msg. split; [cbn; by left|done].
      * apply (stream_ok_mono s); [done|by right|by apply H3].
  - cbn. rewrite lookup_insert_eq. intros b [= <-]. by rewrite Hb.
  - intros i Hi. cbn. by rewrite lookup_insert_ne.
Qed.
End Coord.

(** * On tumble *)
Section CoordApp.
Context {SV : Services} {SL : ServicesLaws}.
(** [encoding/gob] and SHA-1. *)
Context (encode : CreateArchiveTask -> option bytes) (decode : string -> bytes -> option CreateArchiveTask) (hash : CKey -> Z).
Definition C_TypeName : string := "*mutations.CreateArchiveTask".
Context (gob : forall m b, encode m = Some b -> decode C_TypeName b = Some m) (hash_64 : forall k, in_i64 (hash k)).

#[local] Instance C_app : TumbleApp := {|
  A := CStore; M := CreateArchiveTask; Env := TaskEnv;
  Root m := Some (StreamKey (c_ID m)); Delayed m := Some (c_Expiration m, false);
  TypeName _ := C_TypeName; registry := [C_TypeName]; gob_encode := encode; gob_decode := decode; root_hash := hash;
  RollForward e m s _ := Ret (match LogCoord.RollForward e m s with Ok s => Ok ([], s, []) | Err u => Err u end) |}.
#[local] Instance C_app_laws : TumbleAppLaws.
Proof. split; [exact gob|exact hash_64]. Qed.

(** The transactions of the calls.  What they checked before was read from a store
    of the past, whose prefixes are still there. *)
Definition lift_txn {X} (f : CStore -> result Code X) (g : X -> CStore * list ((CKey * bytes) * option CreateArchiveTask)) : TxnFn :=
  fun s _ => Ret (match f s with Ok x => Ok ([], (g x).1, (g x).2) | Err _ => Err tt end).
Inductive coord_call (s : CStore) : TxnFn -> Prop :=
| call_prefix e req x topic secret s0 (Hc : RegisterPrefix_check e req s0 = Ok (x, topic))
  : coord_call s (fun s _ => r ← RegisterPrefix_txn e req x secret s; Ret (match r with Ok s => Ok ([], s, []) | Err _ => Err tt end))
| call_register e req desc pfx cfg pcfg s0 (Hold : prefixes s0 ⊆ prefixes s) (Hc : RegisterStream_check e req s0 = Ok (desc, pfx, cfg, pcfg))
  : coord_call s (lift_txn (RegisterStream_txn e req desc pfx cfg pcfg) (fun x => (x.1.2, x.2)))
| call_terminate e req id params (Hc : TerminateStream_check e req = Ok (id, params))
  : coord_call s (lift_txn (TerminateStream_txn e req id params) (fun x => x))
| call_archive e req id (Hc : ArchiveStream_check req = Ok id)
  : coord_call s (lift_txn (ArchiveStream_txn e req id) (fun s => (s, []))).

Notation c_jstep := (jstep (fun _ _ _ _ => True) (fun fn s _ => coord_call s fn) (fun _ => False) true).
Notation c_sys_step := (sys_step (fun _ _ _ _ => True) (fun fn s _ => coord_call s fn) (fun _ => False) true).

(** A stream that nothing archives has its mutation. *)
Definition tasks_there (s : CStore) (v : gmap (CKey * bytes) CreateArchiveTask) : Prop :=
  forall id a, states s !! id = Some a -> archivalState a = NotArchived -> exists m, v !! task_key id = Some m /\ c_ID m = id.
Record coord_inv (w : JWorld) : Prop := {
  ci_ok : coord_ok (j_app w);
  ci_tasks : tasks_there (j_app w) (j_named w);
  ci_old k m : (k, m) ∈ j_old w -> k = task_key (c_ID m);
  ci_pending : j_pending w = [] /\ j_issued w = []
}.

(** A call, and what its transaction does to all of this. *)
Lemma Desc_Path_Split desc : Descriptor_Validate desc true = None -> (StreamPath_Split (Desc_Path desc)).1 = Prefix desc.
Proof.
  unfold Descriptor_Validate. destruct (Validate (Prefix desc)) eqn:H1; [done|]. destruct (Validate (LogStream.Name desc)) eqn:H2; [done|]. intros _.
  unfold Desc_Path. rewrite Join_valid by by apply Validate_segs. by rewrite Split_divider by by apply Validate_segs.
Qed.
Lemma RegisterStream_check_spec e req s desc pfx cfg pcfg : RegisterStream_check e req s = Ok (desc, pfx, cfg, pcfg) ->
  Descriptor_Validate desc true = None /\ prefixes s !! LogPrefixID (Prefix desc) = Some pfx /\ rs_Secret req = pfx_Secret pfx.
Proof.
  unfold RegisterStream_check. repeat (case_match; try done; bool_to_prop); intros; simplify_eq; rewrite <-(Desc_Path_Split desc) by done; done.
Qed.

(** A call, and what its transaction does to all of this. *)
Lemma call_spec s v fn muts s' o : coord_ok s -> coord_call s fn -> fn s v = Ret (Ok (muts, s', o)) ->
  muts = [] /\ coord_ok s' /\ store_evolves s s' /\ (forall k x, (k, x) ∈ o -> exists m, x = Some m /\ k = task_key (c_ID m)) /\
  forall id b, states s' !! id = Some b -> archivalState b = NotArchived -> states s !! id = Some b \/ exists m, o = [(task_key id, Some m)] /\ c_ID m = id.
Proof.
  intros Hok Hc. destruct Hc as [e req x topic secret s0 Hc|e req desc pfx cfg pcfg s0 Hold Hc|e req id params Hc|e req id Hc]; unfold lift_txn.
  - destruct (RegisterPrefix_txn e req x secret s) as [[s1|c]|] eqn:E; cbn; [|done|done]. intros [= <- <- <-].
    pose proof E as [H1 H2]%RegisterPrefix_txn_ok; [|done]. split; [done|]. split; [done|]. split; [done|].
    split; [by intros k y H%elem_of_nil|]. intros id b Hb _. left.
    unfold RegisterPrefix_txn in E. destruct (fails e OpGetTxn); [done|]. destruct (isSet _); [done|]. destruct (Prefix_Validate _) as [ok|]; [|done].
    cbn in E. destruct (_ || _); [done|]. by injection E as <-.
  - destruct (RegisterStream_check_spec _ _ _ _ _ _ _ Hc) as (_ & Hp & _).
    destruct (RegisterStream_txn e req desc pfx cfg pcfg s) as [[[[ls lst] s1] o1]|c] eqn:E; [|done]. intros [= <- <- <-]. cbn.
    pose proof E as (H1 & H2 & H3)%RegisterStream_txn_ok; [|done|by eapply lookup_weaken]. split; [done|]. split; [done|]. split; [done|]. split.
    + intros k y Hk. unfold RegisterStream_txn in E. destruct (fails e OpGetTxn); [done|]. destruct (get_stream _ _) as [[? ?]|].
      * injection E as <- <- <- <-. by apply elem_of_nil in Hk.
      * destruct (LoadDescriptor _ _); [|done]. destruct (_ || _); [done|]. destruct (fails e OpNamed); [done|]. injection E as <- <- <- <-.
        apply list_elem_of_singleton in Hk. injection Hk as -> ->. eexists. split; [done|]. by destruct (0 <=? _).
    + intros id b Hb _. by apply H3.
  - destruct (TerminateStream_txn e req id params s) as [[s1 o1]|c] eqn:E; [|done]. intros [= <- <- <-]. cbn.
    pose proof E as (H1 & H2 & H3)%TerminateStream_txn_ok; [|done|].
    2: { unfold TerminateStream_check in Hc. destruct (Z.ltb_spec (ts_TerminalIndex req) 0); [done|lia]. }
    split; [done|]. split; [done|]. split; [done|]. destruct H3 as [[-> ->]|[H3 (m & -> & Hm)]].
    + split; [by intros k y H%elem_of_nil|]. by left.
    + split; [intros k y Hk%list_elem_of_singleton; injection Hk as -> ->; exists m; by rewrite Hm|].
      intros i b Hb _. destruct (decide (i = id)) as [->|Hne]; [right; by exists m|left; by rewrite <-H3].
  - destruct (ArchiveStream_txn e req id s) as [s1|c] eqn:E; [|done]. intros [= <- <- <-]. cbn.
    pose proof E as (H1 & H2 & H3)%ArchiveStream_txn_ok; [|done]. split; [done|]. split; [done|]. split; [done|].
    split; [by intros k y H%elem_of_nil|]. intros i b Hb Hn. destruct (H3 _ _ Hb) as [?|HA]; [by left|]. by rewrite Hn in HA.
Qed.

Lemma coord_step w w' : coord_inv w -> c_jstep w w' -> coord_inv w' /\ store_evolves (j_app w) (j_app w').
Proof.
  intros [H1 H2 H3 [H4 H5]] Hs. assert (Hl : forall k, ~ loose true w k).
  { intros k [?|(m & x & ->%H3 & [= <-] & Hne)]; [done|]. by cbn in Hne. }
  destruct Hs as [fn muts a o Hc Hrun|e l1 m l2 muts a o Hp Hrun|e m muts a o Hi Hrun|e k m muts a o Ho Hrun|e k m muts a o Ho Hlo Hrun|k Hlo Hran|op Hc].
  - destruct (call_spec _ _ _ _ _ _ H1 Hc Hrun) as (-> & C1 & C2 & C3 & C4). split; [|done].
    split; cbn; [done| | |by rewrite H4, H5].
    + intros id b Hb Hn. destruct (C4 _ _ Hb Hn) as [Ho|(m & -> & Hm)]; [|exists m; cbn; by rewrite lookup_insert_eq].
      destruct (H2 _ _ Ho Hn) as (m & Hm & Hi). clear -C3 Hm Hi. revert Hm Hi. generalize (j_named w) as v. revert m.
      induction o as [|[k x] o IH]; intros m v Hm Hi; [by exists m|]. cbn.
      destruct (C3 k x) as (m' & -> & ->); [by left|].
      assert (C3' : forall k x, (k, x) ∈ o -> exists m, x = Some m /\ k = task_key (c_ID m)) by (intros; apply C3; by right).
      destruct (decide (c_ID m' = id)) as [Heq|Hne].
      * apply (IH C3' m'); [|done]. cbn. by rewrite Heq, lookup_insert_eq.
      * apply (IH C3' m); [|done]. cbn. rewrite lookup_insert_ne; [done|]. by intros ?%task_key_inj.
    + intros k m [Hk|Hk]%elem_of_app; [|by apply H3]. apply list_elem_of_omap in Hk as ([k' x] & Hin & He).
      destruct (C3 _ _ Hin) as (m' & -> & ->). cbn in He. by injection He as <- <-.
  - rewrite H4 in Hp. apply Permutation_nil in Hp. by destruct l1.
  - rewrite H5 in Hi. by apply elem_of_nil in Hi.
  - pose proof (H3 _ _ Ho) as ->. destruct Hrun as [_ Hrun]. cbn in Hrun.
    destruct (LogCoord.RollForward e m (j_app w)) as [s'|u] eqn:E; [|done]. injection Hrun as <- <- <-.
    destruct (RollForward_ok _ _ _ _ H1 E) as (C1 & C2 & C3 & C4). split; [|done].
    split; cbn; [done| |done|by rewrite H4, H5].
    intros id b Hb Hn. destruct (decide (id = c_ID m)) as [->|Hne]; [by destruct (C3 _ Hb)|].
    rewrite C4 in Hb by done. destruct (H2 _ _ Hb Hn) as (m' & Hm' & Hi). exists m'. split; [|done].
    rewrite lookup_delete_ne; [done|]. intros ?%task_key_inj. congruence.
  - by destruct (Hl _ Hlo).
  - by destruct (Hl _ Hlo).
  - done.
Qed.

Definition c_initial : Sys := initial empty_cstore.
Definition c_reaches (y : Sys) : Prop := rtc c_sys_step c_initial y.
Definition c_steps (y y' : Sys) : Prop := rtc c_sys_step y y'.
Definition c_store (y : Sys) : CStore := app (y_d y).
Definition c_tasks (y : Sys) : gmap (CKey * bytes) CreateArchiveTask := named_view (journal (y_d y)).

Lemma c_jsteps w w' : coord_inv w -> rtc c_jstep w w' -> coord_inv w' /\ store_evolves (j_app w) (j_app w').
Proof.
  intros Hi Hr. induction Hr as [w|w1 w2 w3 Hs Hr IH]; [done|].
  destruct (coord_step _ _ Hi Hs) as [Hi2 E1]. destruct (IH Hi2) as [Hi3 E2]. split; [done|by etrans].
Qed.
Lemma c_initial_inv : coord_inv (j_initial empty_cstore).
Proof. split; cbn; [apply empty_cstore_ok|by intros ? ? ?|by intros ? ? ?%elem_of_nil|done]. Qed.

(** Two states tumble reaches, one after the other. *)
Lemma c_reaches_steps y y' : c_reaches y -> c_steps y y' -> exists w w', coord_inv w /\ coord_inv w' /\
  j_app w = c_store y /\ j_app w' = c_store y' /\ j_named w' = c_tasks y' /\ store_evolves (c_store y) (c_store y').
Proof.
  intros Hy Hs. destruct (sys_sim _ _ _ _ _ _ Hy) as (d & w & Hw & Hsim).
  assert (Hi : coord_inv w) by exact (proj1 (c_jsteps _ _ c_initial_inv Hw)).
  assert (exists d' w', rtc c_jstep w w' /\ sim true d' y' w') as (d' & w' & Hw' & Hsim').
  { clear Hy Hw Hi. revert d w Hsim. induction Hs as [y|y1 y2 y3 H1 H2 IH]; intros d w Hsim; [by exists d, w|].
    destruct (sys_step_sim _ _ _ _ _ _ _ _ Hsim H1) as (d2 & w2 & Hj & Hsim2).
    destruct (IH _ _ Hsim2) as (d3 & w3 & Hj3 & Hsim3). exists d3, w3. split; [by etrans|done]. }
  destruct (c_jsteps _ _ Hi Hw') as [Hi' He]. exists w, w'.
  destruct Hsim as [[A1 _] _ _], Hsim' as [[B1 B2] _ _]. unfold c_store, c_tasks. by rewrite <-A1, <-B1.
Qed.
End CoordApp.
