(* ===== verification/LogCoordTheorems.v ===== *)
(** LogDog's coordinator: the theorems.  No stream is forgotten and streams only
    evolve one way, whatever tumble and the callers do; calls can be repeated. *)
From stdpp Require Import fin_maps.
From S2P Require Import Tumble TumbleJournal TumbleViews TumbleSystem TumbleSim TumbleExec.
From S2P Require Import Prelude LogEntry TimedBuffer Parsers StreamName LogStream LogCoord LogCoordSystem.
Local Open Scope Z_scope.

(** * A run *)
Module CoordToy.
Definition desc : LogStreamDescriptor :=
  {| Prefix := [112]; Name := [110]; StreamType_ := TEXT; ContentType := [116]; Timestamp := Some 0; Tags := [] |}.
#[export] Instance services : Services := {|
  sha256 b := take 32 (b ++ replicate 32 0);
  UnmarshalDesc b := if bool_decide (b = [1]) then Some desc else None;
  MarshalDesc _ := Some [1];
  RoundTime t := t |}.
#[export] Instance services_laws : ServicesLaws.
Proof. split. intros b. cbn [sha256 services]. rewrite length_take, length_app, length_replicate. lia. Qed.

Definition enc (m : CreateArchiveTask) : option bytes :=
  Some [Z.pos (encode (c_ID m, c_SettleDelay m, c_CompletePeriod m, c_Expiration m))].
Definition dec (ty : string) (b : bytes) : option CreateArchiveTask :=
  match b with
  | [Z.pos p] => '(i, s, c, x) ← (decode p : option (bytes * Z * Z * Z)); Some {| c_ID := i; c_SettleDelay := s; c_CompletePeriod := c; c_Expiration := x |}
  | _ => None
  end.
Lemma toy_gob m b : enc m = Some b -> dec C_TypeName b = Some m.
Proof. intros [= <-]. unfold dec. rewrite decode_encode. by destruct m. Qed.
Definition hash (k : CKey) : Z := 0.
Lemma toy_hash_64 k : in_i64 (hash k).
Proof. done. Qed.
#[local] Instance app : TumbleApp := C_app enc dec hash.

Definition settings : CoordConfig :=
  {| PrefixExpiration := NewDuration 3600000000000; ArchiveSettleDelay := NewDuration 5000000000; ArchiveDelayMax := NewDuration 60000000000; Topic := Some [1] |}.
Definition env : CallEnv :=
  {| now := 1000; now_txn := 1000; cfg := Some settings; pcfg := Some {| p_PrefixExpiration := None; MaxStreamAge := None |}; fails _ := false |}.
Definition secret : bytes := replicate 36 7.
Definition prefix_req : RegisterPrefixRequest := {| rp_Prefix := [112]; rp_SourceInfo := []; rp_Expiration := None |}.
Definition stream_req : RegisterStreamRequest := {| rs_ProtoVersion := logpb_Version; rs_Desc := [1]; rs_Secret := secret; rs_TerminalIndex := -1 |}.
Definition id : bytes := LogStreamID (Desc_Path desc).
Definition terminate_req : TerminateStreamRequest := {| ts_Id := id; ts_Secret := secret; ts_TerminalIndex := 2 |}.
Definition archive_req : ArchiveStreamRequest :=
  {| ar_Id := id; ar_TerminalIndex := 2; ar_LogEntryCount := 3; ar_StreamUrl := [1]; ar_StreamSize := 10; ar_IndexUrl := [2]; ar_IndexSize := 5;
     ar_DataUrl := []; ar_DataSize := 0; ar_Error := [] |}.
Definition the_prefix : LogPrefix :=
  {| pfx_ID := LogPrefixID [112]; pfx_Created := Some 1000; pfx_Prefix := [112]; pfx_Source := [];
     pfx_Expiration := Some 3600000001000; pfx_Secret := secret |}.
Definition task_env : TaskEnv :=
  {| te_request := [1]; te_pidx := 0; te_now := 6000000000; te_publisher_fails := false; te_get_fails := false; te_publish_fails := false; te_put_fails := false |}.

(** The calls one after the other. *)
Definition with_prefix : CStore := match RegisterPrefix env prefix_req secret empty_cstore empty_cstore with Ret (_, s) => s | Panic => empty_cstore end.
Definition with_stream : CStore := (RegisterStream env stream_req with_prefix with_prefix with_prefix).1.2.
Definition with_end : CStore := (TerminateStream env terminate_req with_stream).1.2.

Lemma checked : RegisterStream_check env stream_req with_prefix = Ok (desc, the_prefix, settings, {| p_PrefixExpiration := None; MaxStreamAge := None |}).
Proof. vm_compute. reflexivity. Qed.
Lemma triple {X Y Z} (x : X * Y * Z) a : x.1.1 = a -> x = (a, x.1.2, x.2).
Proof. destruct x as [[? ?] ?]. cbn. by intros ->. Qed.
Lemma registered : RegisterStream env stream_req with_prefix with_prefix with_prefix =
  (Ok (id, {| st_ProtoVersion := logpb_Version; st_Secret := secret; st_TerminalIndex := -1; st_Archived := false; st_Purged := false |}),
   with_stream, (RegisterStream env stream_req with_prefix with_prefix with_prefix).2).
Proof. apply triple. vm_compute. reflexivity. Qed.
Definition again_req : RegisterStreamRequest := {| rs_ProtoVersion := logpb_Version; rs_Desc := [1]; rs_Secret := secret; rs_TerminalIndex := 5 |}.
Lemma checked_again : RegisterStream_check env again_req with_stream = Ok (desc, the_prefix, settings, {| p_PrefixExpiration := None; MaxStreamAge := None |}).
Proof. vm_compute. reflexivity. Qed.
Lemma terminated : TerminateStream env terminate_req with_stream = (None, with_end, (TerminateStream env terminate_req with_stream).2).
Proof. apply triple. vm_compute. reflexivity. Qed.

(** An ID in capitals is one of the stream for [TerminateStream], not for [LoadStream]. *)
Example load_wants_lower_case :
  let upper := map (fun c => if (97 <=? c) && (c <=? 122) then c - 32 else c) id in
  (TerminateStream env {| ts_Id := upper; ts_Secret := secret; ts_TerminalIndex := 2 |} with_stream).1.1 = None /\
  LoadStream env upper false with_stream = Err NotFound /\
  is_ok (LoadStream env id false with_stream) = true.
Proof. vm_compute. repeat split. Qed.
(** Of 65 characters, the last does not count. *)
Example long_id : Normalize (replicate 65 97) = Some (replicate 65 97).
Proof. reflexivity. Qed.
End CoordToy.

(** Tumble's run of the calls: a prefix, a stream, its end, and its archive task. *)
Module CoordRun.
Import CoordToy.
#[local] Instance app : TumbleApp := C_app enc dec hash.
Definition config : Tumble.Config := defaultConfig.
Definition txn_env : TxnEnv := {| e_now := 0; e_run _ := task_env; e_put_fails _ := false; e_del_fails _ := false |}.
Definition named (k : CKey * bytes) : CKey * bytes := (k.1, named_id k.2).
Definition call_a : Action := ACall (Some (PrefixKey (LogPrefixID [112])))
  (fun s _ => r ← RegisterPrefix_txn env prefix_req 3600000000000 secret s; Ret (match r with Ok s => Ok ([], s, []) | Err _ => Err tt end)).
Definition call_b : Action := ACall (Some (StateKey id))
  (lift_txn enc dec hash (RegisterStream_txn env stream_req desc the_prefix settings {| p_PrefixExpiration := None; MaxStreamAge := None |}) (fun x => (x.1.2, x.2))).
Definition call_c : Action := ACall (Some (StateKey id))
  (lift_txn enc dec hash (TerminateStream_txn env terminate_req id (standardArchivalParams settings {| p_PrefixExpiration := None; MaxStreamAge := None |})) (fun x => x)).
Definition start : Sys := c_initial enc dec hash.
Definition step (y : Sys) (a : Action) : Sys := default y (exec config "v" 10 y a).
Definition after_a : Sys := step start call_a.
Definition after_b : Sys := step after_a call_b.
Definition after_c : Sys := step after_b call_c.
Definition work : list Action := [AFetch (StreamKey id) [named (task_key id)]; ALoad 0; ATxn 0 txn_env].
Definition tasked : Sys := default after_c (execs config "v" 10 after_c work).

Lemma after_b_reached : c_reaches enc dec hash after_b.
Proof.
  eapply rtc_l with (y := after_a); [|apply rtc_once].
  - eapply (action_sound _ _ _ _ config "v" 10 _ call_a); [apply ran_default; vm_compute; reflexivity|].
    apply (call_prefix enc dec hash _ env prefix_req _ [1] secret empty_cstore). vm_compute. reflexivity.
  - eapply (action_sound _ _ _ _ config "v" 10 _ call_b); [apply ran_default; vm_compute; reflexivity|].
    apply (call_register enc dec hash _ env stream_req _ _ _ _ (c_store enc dec hash after_a)); [done|]. vm_compute. reflexivity.
Qed.
Lemma tasked_steps : c_steps enc dec hash after_b tasked.
Proof.
  unfold c_steps. eapply rtc_l with (y := after_c).
  - eapply (action_sound _ _ _ _ config "v" 10 _ call_c); [apply ran_default; vm_compute; reflexivity|].
    apply (call_terminate enc dec hash _ env terminate_req). vm_compute. reflexivity.
  - eapply (execs_sound _ _ _ _ config "v" 10 work); [apply ran_default; vm_compute; reflexivity|].
    eapply (execs_okb_sound (TA := app) _ _ config "v" 10 (fun _ _ _ _ => true)).
    + done.
    + intros root fn H. repeat (apply elem_of_cons in H as [H|H]; [done|]). by apply elem_of_nil in H.
    + intros j e H. repeat (apply elem_of_cons in H as [H|H]; [try done; injection H as _ ->; done|]). by apply elem_of_nil in H.
    + vm_compute. reflexivity.
Qed.
Definition state_of (y : Sys) : LogStreamState := default (created_state 0 [] 0) (states (c_store enc dec hash y) !! id).
Lemma isSet_default {X} (x : X) o : isSet o = true -> o = Some (default x o).
Proof. by destruct o. Qed.
Lemma state_of_tasked : states (c_store enc dec hash tasked) !! id = Some (state_of tasked).
Proof. apply isSet_default. vm_compute. reflexivity. Qed.
Lemma state_of_b : states (c_store enc dec hash after_b) !! id = Some (state_of after_b).
Proof. apply isSet_default. vm_compute. reflexivity. Qed.
Lemma tasked_is_tasked : archivalState (state_of tasked) = ArchiveTasked.
Proof. apply (bool_decide_unpack _). vm_compute. exact I. Qed.
Lemma tasked_reached : c_reaches enc dec hash tasked.
Proof. unfold c_reaches. etrans; [exact after_b_reached|exact tasked_steps]. Qed.
End CoordRun.

(** * Whatever happens *)

(** C16. No stream is forgotten: in every state that tumble and the calls of the
    coordinator reach, a registered stream that is not archived and has no archive
    task has the named mutation that makes one; one that is tasked had a task with
    its key published; and an archived one has no key left. *)
Theorem no_stream_forgotten {SV : Services} {SL : ServicesLaws} encode decode hash
    (gob : forall m b, encode m = Some b -> decode C_TypeName b = Some m) (hash_64 : forall k, in_i64 (hash k)) y id a :
  c_reaches encode decode hash y -> states (c_store encode decode hash y) !! id = Some a ->
  match archivalState a with
  | NotArchived => exists m, c_tasks encode decode hash y !! task_key id = Some m /\ c_ID m = id
  | ArchiveTasked => exists t, t ∈ published (c_store encode decode hash y) /\ t_Id t = id /\ t_Key t = ArchivalKey a
  | _ => ArchivalKey a = []
  end.
Proof.
  intros Hy. destruct (c_reaches_steps encode decode hash gob hash_64 y y Hy) as (_ & w & _ & [H1 H2 _ _] & _ & <- & <- & _); [apply rtc_refl|]. intros Ha.
  destruct (lstreams (j_app w) !! id) as [ls|] eqn:Hls; [|apply (ok_both _ H1) in Hls; congruence].
  destruct (ok_stream _ H1 _ _ _ Hls Ha) as [_ _ _ G4 _ G6]. destruct (archivalState a) eqn:E; [by apply (H2 _ _ Ha)|by apply G6|..].
  all: apply G4; unfold archivalState in E; destruct (ArchivedTime a); [done|]; by destruct (0 <? blen (ArchivalKey a)).
Qed.

Lemma no_stream_forgotten_witness : exists t, t ∈ published (c_store CoordToy.enc CoordToy.dec CoordToy.hash CoordRun.tasked) /\ t_Id t = CoordToy.id.
Proof.
  pose proof (no_stream_forgotten (SL := CoordToy.services_laws) CoordToy.enc CoordToy.dec CoordToy.hash CoordToy.toy_gob CoordToy.toy_hash_64 _ _ _ CoordRun.tasked_reached CoordRun.state_of_tasked) as H.
  rewrite CoordRun.tasked_is_tasked in H. destruct H as (t & H1 & H2 & _). exists t. split; [exact H1|exact H2].
Defined.

(** C17. Streams evolve one way: along any run of tumble and the calls, a stream
    keeps its secret, which is that of its prefix, and its description; its terminal
    index and its task stay until it is archived; an archived stream never changes. *)
Theorem stream_evolves {SV : Services} {SL : ServicesLaws} encode decode hash
    (gob : forall m b, encode m = Some b -> decode C_TypeName b = Some m) (hash_64 : forall k, in_i64 (hash k)) y y' id a :
  c_reaches encode decode hash y -> c_steps encode decode hash y y' -> states (c_store encode decode hash y) !! id = Some a ->
  exists ls b, lstreams (c_store encode decode hash y) !! id = Some ls /\ lstreams (c_store encode decode hash y') !! id = Some ls /\
    states (c_store encode decode hash y') !! id = Some b /\ state_evolves a b /\ Stream_Validate ls = true /\ State_Validate b = true /\
    exists p, prefixes (c_store encode decode hash y') !! LogPrefixID (ls_Prefix ls) = Some p /\ pfx_Secret p = Secret b.
Proof.
  intros Hy Hs Ha. destruct (c_reaches_steps encode decode hash gob hash_64 y y' Hy Hs) as (w & w' & [H1 _ _ _] & [H1' _ _ _] & Hw & Hw' & _ & [E1 E2 E3 _]).
  rewrite Hw in H1. rewrite Hw' in H1'. destruct (E3 _ _ Ha) as (b & Hb & He).
  destruct (lstreams (c_store encode decode hash y) !! id) as [ls|] eqn:Hls; [|apply (ok_both _ H1) in Hls; congruence].
  assert (Hls' : lstreams (c_store encode decode hash y') !! id = Some ls) by by eapply lookup_weaken.
  destruct (ok_stream _ H1' _ _ _ Hls' Hb) as [_ G2 G3 _ G5 _]. by exists ls, b.
Qed.

Lemma stream_evolves_witness : exists b, states (c_store CoordToy.enc CoordToy.dec CoordToy.hash CoordRun.tasked) !! CoordToy.id = Some b /\
  state_evolves (CoordRun.state_of CoordRun.after_b) b.
Proof.
  destruct (stream_evolves (SL := CoordToy.services_laws) CoordToy.enc CoordToy.dec CoordToy.hash CoordToy.toy_gob CoordToy.toy_hash_64 _ _ _ _
    CoordRun.after_b_reached CoordRun.tasked_steps CoordRun.state_of_b) as (ls & b & _ & _ & H1 & H2 & _).
  exists b. split; [exact H1|exact H2].
Defined.

(** * Calls can be repeated *)

(** Terminating a stream: exactly when it succeeds, and what it changes. *)
Lemma terminate_ok e req s s' o :
  TerminateStream e req s = (None, s', o) <->
  exists id cfg pcfg a, Normalize (ts_Id req) = Some id /\ 0 <= ts_TerminalIndex req /\ LogCoord.cfg e = Some cfg /\ LogCoord.pcfg e = Some pcfg /\
    fails e OpGetTxn = false /\ states s !! id = Some a /\ Secret a = ts_Secret req /\
    (Terminated a = true /\ TerminalIndex a = ts_TerminalIndex req /\ s' = s /\ o = [] \/
     Terminated a = false /\ fails e OpPut = false /\ fails e OpNamed = false /\
       s' = put_state s id (terminated_state a (now_txn e) (ts_TerminalIndex req)) /\
       o = put_task (archive_task (standardArchivalParams cfg pcfg) id (now_txn e) true)).
Proof.
  unfold TerminateStream, TerminateStream_check, TerminateStream_txn. split.
  - repeat (case_match; try done; bool_to_prop); intros; simplify_eq; eexists _, _, _, _; repeat split; eauto.
    all: try lia. all: first [left; by repeat split|right; by repeat split].
  - intros (id & cfg & pcfg & a & H1 & H2 & H3 & H4 & H5 & H6 & H7 & H8). destruct (Z.ltb_spec (ts_TerminalIndex req) 0); [lia|].
    rewrite H1, H3, H4, H5, H6, (bool_decide_true _ H7). cbn [negb].
    destruct H8 as [(-> & -> & -> & ->)|(-> & -> & -> & -> & ->)]; [by rewrite Z.eqb_refl|done].
Qed.

(** A stream ends once: after a call that terminated it, the same call with the
    same index succeeds and changes nothing, with another index it is refused, and
    with another secret too, whoever repeats it. *)
Theorem terminate_repeats e e' req s s' o idx secret : TerminateStream e req s = (None, s', o) ->
  isSet (LogCoord.cfg e') = true -> isSet (LogCoord.pcfg e') = true -> fails e' OpGetTxn = false -> 0 <= idx ->
  TerminateStream e' {| ts_Id := ts_Id req; ts_Secret := secret; ts_TerminalIndex := idx |} s' =
  (if bool_decide (secret = ts_Secret req) then if idx =? ts_TerminalIndex req then None else Some FailedPrecondition else Some InvalidArgument, s', []).
Proof.
  intros (id & cfg & pcfg & a & H1 & H2 & _ & _ & _ & H6 & H7 & H8)%terminate_ok Hc Hp Hg Hidx.
  assert (exists b, states s' !! id = Some b /\ Secret b = ts_Secret req /\ Terminated b = true /\ TerminalIndex b = ts_TerminalIndex req) as (b & B1 & B2 & B3 & B4).
  { destruct H8 as [(? & ? & -> & _)|(_ & _ & _ & -> & _)]; [by exists a|].
    eexists. cbn. rewrite lookup_insert_eq. split; [done|]. cbn. split; [done|]. split; [|done].
    unfold Terminated. cbn. destruct (Archived _); [done|]. by apply Z.leb_le. }
  unfold TerminateStream, TerminateStream_check, TerminateStream_txn. cbn [ts_TerminalIndex ts_Id ts_Secret].
  destruct (Z.ltb_spec idx 0); [lia|]. rewrite H1. destruct (LogCoord.cfg e'); [|done]. destruct (LogCoord.pcfg e'); [|done].
  rewrite Hg, B1, B2, B3, B4. rewrite (bool_decide_ext (ts_Secret req = secret) (secret = ts_Secret req)) by done.
  destruct (bool_decide _); [|done]. cbn. rewrite Z.eqb_sym. by destruct (_ =? _).
Qed.
Lemma terminate_repeats_witness : TerminateStream CoordToy.env
    {| ts_Id := ts_Id CoordToy.terminate_req; ts_Secret := CoordToy.secret; ts_TerminalIndex := 3 |} CoordToy.with_end =
  (Some FailedPrecondition, CoordToy.with_end, []).
Proof.
  etransitivity.
  - apply (terminate_repeats _ CoordToy.env _ _ _ _ 3 CoordToy.secret CoordToy.terminated); [reflexivity..|lia].
  - rewrite bool_decide_true by reflexivity. reflexivity.
Defined.

(** Registering a stream again: a call that passes the checks (the secret of
    the prefix among them) for the same path gets the state of the first one,
    whatever else it asks for, and changes nothing. *)
Theorem register_repeats {SV : Services} e e' req req' s0 s r s' o desc pfx cfg pcfg desc' pfx' cfg' pcfg' :
  RegisterStream_check e req s0 = Ok (desc, pfx, cfg, pcfg) -> RegisterStream e req s0 s s = (Ok r, s', o) ->
  RegisterStream_check e' req' s' = Ok (desc', pfx', cfg', pcfg') -> Desc_Path desc' = Desc_Path desc -> fails e' OpGet = false ->
  RegisterStream e' req' s' s' s' = (Ok r, s', []).
Proof.
  intros Hc Hr Hc' Hp Hg. unfold RegisterStream in *. rewrite Hc in Hr. rewrite Hc', Hg, Hp. clear Hc'. destruct (fails e OpGet); [done|].
  destruct (get_stream s _) as [[ls lst]|] eqn:E; [injection Hr as <- <- <-; by rewrite E|].
  destruct (fails e OpHierarchy); [done|]. unfold RegisterStream_txn in Hr. rewrite E in Hr.
  destruct (fails e OpGetTxn); [done|]. destruct (LoadDescriptor _ desc) as [l|] eqn:Hl; [|done].
  destruct (_ || _); [done|]. destruct (fails e OpNamed); [done|]. injection Hr as <- <- <-.
  assert (ls_ID l = LogStreamID (Desc_Path desc)) as Hid.
  { unfold LoadDescriptor in Hl. destruct (bool_decide _); [|done]. destruct (MarshalDesc desc); [|done]. cbn in Hl. by injection Hl as <-. }
  assert (forall lst, get_stream (put_state (put_stream s l) (LogStreamID (Desc_Path desc)) lst) (LogStreamID (Desc_Path desc)) = Some (l, lst)) as ->.
  { intros lst. unfold get_stream, put_state, put_stream. cbn [lstreams states]. by rewrite Hid, !lookup_insert_eq. }
  done.
Qed.
#[local] Existing Instance CoordToy.services.
Lemma register_repeats_witness :
  RegisterStream CoordToy.env CoordToy.again_req CoordToy.with_stream CoordToy.with_stream CoordToy.with_stream =
  (Ok (CoordToy.id, {| st_ProtoVersion := logpb_Version; st_Secret := CoordToy.secret; st_TerminalIndex := -1; st_Archived := false; st_Purged := false |}),
   CoordToy.with_stream, []).
Proof.
  apply (register_repeats _ _ _ _ _ _ _ _ _ _ _ _ _ _ _ _ _ CoordToy.checked CoordToy.registered CoordToy.checked_again); reflexivity.
Defined.
