(* ===== verification/LogArchive.v ===== *)
(** Archives of log streams (logdog/common/archive): the source that keeps entries
    in order, the index, and the files of frames, of the index and of data that
    [Archive] writes. *)
From S2P Require Import Prelude RecordIO LogEntry TimedBuffer Parsers ParserSpec StreamName LogStream Renderer LogCoord.
From stdpp Require Import sorting.
Local Open Scope Z_scope.

(** * The encoding of messages *)
Record LogIndex_Entry := { ie_Sequence : Z; ie_PrefixIndex : Z; ie_StreamIndex : Z; ie_Offset : Z; ie_TimeOffset : option Duration }.
Record LogIndex := {
  ix_Desc : LogStreamDescriptor; ix_Entries : list LogIndex_Entry; ix_LastPrefixIndex : Z; ix_LastStreamIndex : Z; ix_LogEntryCount : Z
}.
Class EntryCodec := {
  MarshalEntry : LogEntry -> option bytes;
  UnmarshalEntry : bytes -> option LogEntry;
  MarshalIndex : LogIndex -> option bytes;
  entrySize : LogEntry -> Z
}.

(** * The source that keeps the order (source.go)

    An error is its end, or whether it is transient. *)
Inductive SrcError := SrcEOF | SrcError_ (transient : bool).
#[export] Instance SrcError_eq_dec : EqDecision SrcError.
Proof. solve_decision. Defined.

Record safeLogEntrySource := { lastPrefixIndex : Z; lastStreamIndex : Z; lastSequence : Z; lastTimeOffset : Z }.
Definition safe_start : safeLogEntrySource := {| lastPrefixIndex := 0; lastStreamIndex := 0; lastSequence := 0; lastTimeOffset := 0 |}.

(** The entry that goes on, or [None] when it is out of order. *)
Definition normalizeLogEntry (s : safeLogEntrySource) (le : LogEntry) : option LogEntry * safeLogEntrySource :=
  let timeOffset := DurationFromProto (TimeOffset le) in
  if PrefixIndex le <? lastPrefixIndex s then (None, s)
  else if StreamIndex le <? lastStreamIndex s then (None, s)
  else if LogEntry.Sequence le <? lastSequence s then (None, s)
  else
    let set (t : Z) := {| lastPrefixIndex := PrefixIndex le; lastStreamIndex := StreamIndex le; lastSequence := LogEntry.Sequence le; lastTimeOffset := t |} in
    if timeOffset <? lastTimeOffset s then (Some (set_TimeOffset le (LoadDuration (TimeOffset le) (lastTimeOffset s))), set (lastTimeOffset s))
    else (Some le, set timeOffset).

(** * The index (index.go) *)
Record Manifest := { StreamIndexRange : Z; PrefixIndexRange : Z; ByteRange : Z }.
Record indexBuilder := {
  index : LogIndex; i_lastPrefixIndex : Z; i_lastStreamIndex : Z; i_lastBytes : Z; latestBufferedEntry : option LogIndex_Entry
}.
Definition new_index (desc : LogStreamDescriptor) : indexBuilder :=
  {| index := {| ix_Desc := desc; ix_Entries := []; ix_LastPrefixIndex := 0; ix_LastStreamIndex := 0; ix_LogEntryCount := 0 |};
     i_lastPrefixIndex := 0; i_lastStreamIndex := 0; i_lastBytes := 0; latestBufferedEntry := None |}.
Definition index_entry (le : LogEntry) (offset : Z) : LogIndex_Entry :=
  {| ie_Sequence := LogEntry.Sequence le; ie_PrefixIndex := PrefixIndex le; ie_StreamIndex := StreamIndex le; ie_Offset := u64 offset; ie_TimeOffset := TimeOffset le |}.

Section Archive.
Context {SV : Services} {EC : EntryCodec}.

(** Whether an entry after the first one is due for the index. *)
Definition index_due (m : Manifest) (i : indexBuilder) (lastBytes : Z) (le : LogEntry) : bool :=
  (0 <? StreamIndexRange m) && (StreamIndexRange m <=? u64 (StreamIndex le - i_lastStreamIndex i)) ||
  (0 <? PrefixIndexRange m) && (PrefixIndexRange m <=? u64 (PrefixIndex le - i_lastPrefixIndex i)) ||
  (0 <? ByteRange m) && (ByteRange m <=? lastBytes).
Definition addLogEntry (m : Manifest) (i : indexBuilder) (le : LogEntry) (offset : Z) : indexBuilder :=
  let lastBytes := if 0 <? ByteRange m then u64 (i_lastBytes i + u64 (entrySize le)) else i_lastBytes i in
  let entry := index_entry le offset in
  let ix entries := {| ix_Desc := ix_Desc (index i); ix_Entries := entries; ix_LastPrefixIndex := PrefixIndex le;
                       ix_LastStreamIndex := StreamIndex le; ix_LogEntryCount := u64 (ix_LogEntryCount (index i) + 1) |} in
  match ix_Entries (index i) with
  | [] => {| index := ix [entry]; i_lastPrefixIndex := PrefixIndex le; i_lastStreamIndex := StreamIndex le; i_lastBytes := lastBytes; latestBufferedEntry := None |}
  | es =>
      if index_due m i lastBytes le
      then {| index := ix (es ++ [entry]); i_lastPrefixIndex := PrefixIndex le; i_lastStreamIndex := StreamIndex le; i_lastBytes := 0; latestBufferedEntry := None |}
      else {| index := ix es; i_lastPrefixIndex := i_lastPrefixIndex i; i_lastStreamIndex := i_lastStreamIndex i; i_lastBytes := lastBytes; latestBufferedEntry := Some entry |}
  end.
(** The last entry is always in it. *)
Definition final_index (i : indexBuilder) : LogIndex :=
  let ix := index i in
  {| ix_Desc := ix_Desc ix; ix_Entries := ix_Entries ix ++ match latestBufferedEntry i with Some e => [e] | None => [] end;
     ix_LastPrefixIndex := ix_LastPrefixIndex ix; ix_LastStreamIndex := ix_LastStreamIndex ix; ix_LogEntryCount := ix_LogEntryCount ix |}.

(** * Writing (archive.go, data.go)

    The error of a task is whether it is transient: those of writers are. *)
Definition emit (i : indexBuilder) (w : Sink) : option bool * Sink :=
  match MarshalIndex (final_index i) with
  | None => (Some false, w)
  | Some d => let '(_, err, w) := Sink_Write w d in (if err : bool then Some true else None, w)
  end.

(** [out]: one message as a frame. *)
Definition out (w : Sink) (offset : Z) (d : option bytes) : option bool * Sink * Z :=
  match d with
  | None => (Some false, w, offset)
  | Some d => let '(count, err, w) := WriteFrame w d in (if err : bool then Some true else None, w, i64 (offset + count))
  end.
(** After an error, the rest of the entries is dropped. *)
Fixpoint archive_loop (m : Manifest) (idx : option indexBuilder) (w : Sink) (offset : Z) (les : list LogEntry) : option bool * Sink * Z * option indexBuilder :=
  match les with
  | [] => (None, w, offset, idx)
  | le :: les =>
      let idx := (fun i => addLogEntry m i le offset) <$> idx in
      match out w offset (MarshalEntry le) with
      | (None, w, offset) => archive_loop m idx w offset les
      | (Some e, w, offset) => (Some e, w, offset, idx)
      end
  end.
Definition archiveLogs (m : Manifest) (desc : LogStreamDescriptor) (w : Sink) (idx : option indexBuilder) (les : list LogEntry) : option bool * Sink * option indexBuilder :=
  match out w 0 (MarshalDesc desc) with
  | (None, w, offset) => let '(e, w, _, idx) := archive_loop m idx w offset les in (e, w, idx)
  | (Some e, w, _) => (Some e, w, idx)
  end.

(** [io.Copy] of the renderer into a writer. *)
Fixpoint copy_to (fuel : nat) (n : nat) (r : Renderer) (w : Sink) : option (option bool * Sink) :=
  match fuel with
  | O => None
  | S fuel =>
      let '(data, err, r) := Read r n in
      let '(failed, w) := match data with [] => (false, w) | _ => let '(_, failed, w) := Sink_Write w data in (failed, w) end in
      if failed : bool then Some (Some true, w)
      else match err with
           | Some io_EOF => Some (None, w)
           | Some _ => Some (Some false, w)
           | None => copy_to fuel n r w
           end
  end.
Definition archiveData (fuel : nat) (w : Sink) (les : list LogEntry) : option (option bool * Sink) :=
  copy_to fuel copy_buffer (new_renderer (channelRendererSource les) true) w.

(** * Reading the source, and the whole *)
Context {T : Type} (NextLogEntry : T -> option LogEntry * option SrcError * T).

(** [safeLogEntrySource.NextLogEntry]: what comes with a discarded entry is lost. *)
Fixpoint safe_NextLogEntry (fuel : nat) (s : safeLogEntrySource) (x : T) : option (option LogEntry * option SrcError * safeLogEntrySource * T) :=
  match fuel with
  | O => None
  | S fuel =>
      let '(le, err, x) := NextLogEntry x in
      match le with
      | Some le =>
          match normalizeLogEntry s le with
          | (None, s) => safe_NextLogEntry fuel s x
          | (Some le, s) => Some (Some le, err, s, x)
          end
      | None => Some (None, Some (match err with None => SrcError_ false | Some e => e end), s, x)
      end
  end.
(** The loop of [Archive]: the entries it sends, and its error. *)
Fixpoint read_all (fuel : nat) (s : safeLogEntrySource) (x : T) : option (list LogEntry * option bool * T) :=
  match fuel with
  | O => None
  | S fuel =>
      '(le, err, s, x) ← safe_NextLogEntry fuel s x;
      let now := match le with Some le => [le] | None => [] end in
      match err with
      | Some SrcEOF => Some (now, None, x)
      | Some (SrcError_ t) => Some (now, Some t, x)
      | None => '(les, e, x) ← read_all fuel s x; Some (now ++ les, e, x)
      end
  end.

Record Writers := { LogWriter : option Sink; IndexWriter : option Sink; DataWriter : option Sink }.
Definition with_default (m : Manifest) : Manifest :=
  if (StreamIndexRange m <=? 0) && (PrefixIndexRange m <=? 0) && (ByteRange m <=? 0)
  then {| StreamIndexRange := 1; PrefixIndexRange := PrefixIndexRange m; ByteRange := ByteRange m |} else m.

(** The task that writes the log and then its index. *)
Definition log_task (m : Manifest) (desc : LogStreamDescriptor) (w : Writers) (les : list LogEntry) : option bool * option Sink * option Sink :=
  match LogWriter w with
  | None => (None, None, IndexWriter w)
  | Some lw =>
      let '(e, lw, idx) := archiveLogs m desc lw ((fun _ => new_index desc) <$> IndexWriter w) les in
      match e, idx, IndexWriter w with
      | None, Some i, Some iw => let '(e, iw) := emit i iw in (e, Some lw, Some iw)
      | e, _, iw => (e, Some lw, iw)
      end
  end.
(** [parallel.FanOutIn] gives the errors of the tasks. *)
Definition Archive (fuel : nat) (m : Manifest) (desc : LogStreamDescriptor) (x : T) (w : Writers) : option (list bool * Writers * T) :=
  '(les, e_src, x) ← read_all fuel safe_start x;
  let '(e_log, lw, iw) := log_task (with_default m) desc w les in
  '(e_data, dw) ← match DataWriter w with None => Some (None, None) | Some dw => '(e, dw) ← archiveData fuel dw les; Some (e, Some dw) end;
  Some (omap (fun e => e) [e_log; e_data; e_src], {| LogWriter := lw; IndexWriter := iw; DataWriter := dw |}, x).
End Archive.
