(* ===== verification/LogArchiveFacts.v ===== *)
(** Archives: the order of the entries, the offsets of the index, the files. *)
From S2P Require Import Prelude RecordIO LogEntry TimedBuffer Parsers ParserSpec StreamName LogStream Renderer LogCoord LogArchive.
From stdpp Require Import sorting.
Local Open Scope Z_scope.

(** * The order *)
Lemma LoadDuration_value d v : in_i64 v -> DurationFromProto (LoadDuration d v) = v.
Proof.
  intros Hv. destruct d as [d|]; [|by apply Duration_round_trip].
  destruct (Z.eqb_spec v 0) as [->|Hne]; [done|]. rewrite <-(Duration_round_trip v Hv) at 2. unfold NewDuration. cbn.
  by rewrite (proj2 (Z.eqb_neq v 0) Hne).
Qed.
Lemma DurationFromProto_i64 d : in_i64 (DurationFromProto d).
Proof. destruct d; [apply i64_range|done]. Qed.

Fixpoint normalize_all (s : safeLogEntrySource) (les : list LogEntry) : list LogEntry :=
  match les with
  | [] => []
  | le :: les => match normalizeLogEntry s le with (Some le, s) => le :: normalize_all s les | (None, s) => normalize_all s les end
  end.

(** Entries after one another; and after what the source has seen. *)
Definition comes_before (a b : LogEntry) : Prop :=
  PrefixIndex a <= PrefixIndex b /\ StreamIndex a <= StreamIndex b /\ LogEntry.Sequence a <= LogEntry.Sequence b.
Definition time_before (a b : LogEntry) : Prop := entry_offset a <= entry_offset b.
Definition in_order (a b : LogEntry) : Prop := comes_before a b /\ time_before a b.
Definition after_seen (s : safeLogEntrySource) (le : LogEntry) : Prop :=
  lastPrefixIndex s <= PrefixIndex le /\ lastStreamIndex s <= StreamIndex le /\ lastSequence s <= LogEntry.Sequence le.
#[export] Instance comes_before_trans : Transitive comes_before.
Proof. intros a b c (?&?&?) (?&?&?). repeat split; lia. Qed.
#[export] Instance in_order_trans : Transitive in_order.
Proof. intros a b c [A1 A2] [B1 B2]. split; [by etrans|]. unfold time_before in *. lia. Qed.

(** The entry without its time. *)
Definition timeless (le : LogEntry) : LogEntry := set_TimeOffset le None.

Lemma normalize_spec s le : match normalizeLogEntry s le with
  | (None, s') => s' = s /\ ~ after_seen s le
  | (Some le', s') => after_seen s le /\ timeless le' = timeless le /\
      (in_i64 (lastTimeOffset s) -> entry_offset le' = Z.max (entry_offset le) (lastTimeOffset s)) /\
      s' = {| lastPrefixIndex := PrefixIndex le'; lastStreamIndex := StreamIndex le'; lastSequence := LogEntry.Sequence le';
              lastTimeOffset := Z.max (entry_offset le) (lastTimeOffset s) |}
  end.
Proof.
  unfold normalizeLogEntry, after_seen, entry_offset.
  destruct (Z.ltb_spec (PrefixIndex le) (lastPrefixIndex s)); [split; [done|lia]|].
  destruct (Z.ltb_spec (StreamIndex le) (lastStreamIndex s)); [split; [done|lia]|].
  destruct (Z.ltb_spec (LogEntry.Sequence le) (lastSequence s)); [split; [done|lia]|]. cbv zeta.
  destruct (Z.ltb_spec (DurationFromProto (TimeOffset le)) (lastTimeOffset s)); (split; [lia|]); (split; [by destruct le|]); cbn.
  - split; [intros Hi; rewrite LoadDuration_value by done; lia|]. f_equal; lia.
  - split; [lia|]. f_equal; lia.
Qed.

(** What comes out is in order, whatever went in. *)
Definition seen_before (s : safeLogEntrySource) (le : LogEntry) : Prop := after_seen s le /\ lastTimeOffset s <= entry_offset le.
Lemma normalize_all_order les : forall s, in_i64 (lastTimeOffset s) -> Forall (seen_before s) (normalize_all s les) /\ Sorted in_order (normalize_all s les).
Proof.
  induction les as [|le les IH]; intros s Hs; cbn [normalize_all]; [split; constructor|].
  pose proof (normalize_spec s le) as H. destruct (normalizeLogEntry s le) as [[le'|] s'].
  2: { destruct H as [-> _]. by apply IH. }
  destruct H as (H1 & H2 & H3 & ->). specialize (H3 Hs).
  assert (Hle : PrefixIndex le' = PrefixIndex le /\ StreamIndex le' = StreamIndex le /\ LogEntry.Sequence le' = LogEntry.Sequence le)
    by (destruct le', le; cbn in *; by injection H2).
  match goal with |- context [normalize_all ?x les] => set (s' := x) end.
  assert (Hi : in_i64 (lastTimeOffset s')) by (subst s'; cbn; rewrite <-H3; apply DurationFromProto_i64).
  destruct (IH s' Hi) as [A1 A2]. split.
  - constructor; [split; [unfold after_seen in *; lia|lia]|]. eapply Forall_impl; [exact A1|]. intros e [B1 B2].
    unfold seen_before, after_seen in *. subst s'. cbn in *. lia.
  - constructor; [done|]. destruct (normalize_all s' les) as [|e l]; constructor. apply Forall_cons in A1 as [[(?&?&?) B2] _]. subst s'. cbn in *.
    split; [repeat split; lia|]. unfold time_before. lia.
Qed.
Lemma normalize_all_before les : Sorted comes_before (normalize_all safe_start les).
Proof.
  pose proof (proj2 (normalize_all_order les safe_start ltac:(done))) as H. induction H as [|a l Hl IH Hh]; constructor; [done|].
  destruct Hh as [|b l [? _]]; by constructor.
Qed.
(** Nothing of an ordered stream is discarded, and only times are moved. *)
Lemma normalize_all_keeps les : forall s, Forall (after_seen s) les -> StronglySorted comes_before les ->
  map timeless (normalize_all s les) = map timeless les.
Proof.
  induction les as [|le les IH]; intros s Ha Hs; [done|]. apply Forall_cons in Ha as [Hl Ha]. apply StronglySorted_inv in Hs as [Hs Hf].
  cbn [normalize_all]. pose proof (normalize_spec s le) as H. destruct (normalizeLogEntry s le) as [[le'|] s']; [|by destruct H].
  destruct H as (_ & H2 & _ & ->). cbn. rewrite H2. f_equal. apply IH; [|done].
  assert (Hle : PrefixIndex le' = PrefixIndex le /\ StreamIndex le' = StreamIndex le /\ LogEntry.Sequence le' = LogEntry.Sequence le)
    by (destruct le', le; cbn in *; by injection H2).
  eapply Forall_impl; [exact Hf|]. intros e (?&?&?). unfold after_seen. cbn. lia.
Qed.
(** What is discarded is all that changes otherwise. *)
Lemma normalize_all_sublist les : forall s, sublist (map timeless (normalize_all s les)) (map timeless les).
Proof.
  induction les as [|le les IH]; intros s; cbn [normalize_all map]; [constructor|].
  pose proof (normalize_spec s le) as H. destruct (normalizeLogEntry s le) as [[le'|] s']; [|by constructor].
  destruct H as (_ & H2 & _). cbn. rewrite H2. by constructor.
Qed.

Lemma strongly_sorted_lookup {X} (R : X -> X -> Prop) l j k a b :
  StronglySorted R l -> l !! j = Some a -> l !! k = Some b -> (j < k)%nat -> R a b.
Proof.
  intros Hs. revert j k. induction Hs as [|x l Hl IH Hf]; intros j k Ha Hb Hjk; [done|].
  destruct j as [|j], k as [|k]; try lia.
  - injection Ha as <-. by eapply (Forall_lookup_1 _ _ _ _ Hf).
  - eapply (IH j k); try done; lia.
Qed.

Lemma frames_length fs : (length fs <= length (concat (map frame_bytes fs)))%nat.
Proof.
  induction fs as [|f l IH]; cbn; [lia|]. rewrite length_app. pose proof (PutUvarint_nonempty (Z.of_nat (length f))).
  unfold frame_bytes at 1. rewrite length_app. destruct (Varint.PutUvarint _); [done|]. cbn. lia.
Qed.

(** * The frames and the index *)
Section Index.
Context {SV : Services} {EC : EntryCodec}.
Context (m : Manifest) (desc : LogStreamDescriptor) (d : bytes) (les : list LogEntry) (fs : list bytes).
Hypothesis Hd : MarshalDesc desc = Some d.
Hypothesis Hfs : Forall2 (fun le f => MarshalEntry le = Some f) les fs.

(** The file after the descriptor and [k] entries. *)
Definition file_upto (k : nat) : bytes := concat (map frame_bytes (d :: take k fs)).
Definition frame_offset (k : nat) : Z := Z.of_nat (length (file_upto k)).
Hypothesis Hsize : frame_offset (length fs) < 2 ^ 63.

Lemma file_upto_S k f : fs !! k = Some f -> file_upto (S k) = file_upto k ++ frame_bytes f.
Proof. intros H. unfold file_upto. cbn. by rewrite (take_S_r _ _ _ H), map_app, concat_app, <-app_assoc; cbn; rewrite app_nil_r. Qed.
Lemma frame_offset_mono j k : (j <= k)%nat -> frame_offset j <= frame_offset k.
Proof.
  intros H. unfold frame_offset, file_upto. cbn.
  assert (take k fs = take j fs ++ take (k - j) (drop j fs)) as -> by (rewrite take_take_drop; f_equal; lia).
  rewrite map_app, concat_app, !length_app. lia.
Qed.
Lemma frame_small k f : fs !! k = Some f -> small f.
Proof.
  intros H. pose proof (file_upto_S _ _ H) as E. pose proof (lookup_lt_Some _ _ _ H).
  pose proof (frame_offset_mono (S k) (length fs) ltac:(lia)) as Hm. unfold frame_offset, small in *. rewrite E, length_app in Hm.
  unfold frame_bytes in Hm. rewrite length_app in Hm. lia.
Qed.
Lemma frame_offset_small k : (k <= length fs)%nat -> 0 <= frame_offset k < 2 ^ 63.
Proof. intros H%frame_offset_mono. unfold frame_offset in *. lia. Qed.

Lemma out_ok w k le f : fs !! k = Some f -> MarshalEntry le = Some f -> answers w = [] -> received w = file_upto k ->
  out w (frame_offset k) (MarshalEntry le) = (None, {| received := file_upto (S k); answers := [] |}, frame_offset (S k)).
Proof.
  intros Hf -> Ha Hr. unfold out. rewrite WriteFrame_ok by (try done; by eapply frame_small).
  pose proof (file_upto_S _ _ Hf) as E. rewrite Hr, <-E. f_equal.
  assert (Ho : frame_offset (S k) = frame_offset k + Z.of_nat (length (frame_bytes f))) by (unfold frame_offset; rewrite E, length_app; lia).
  rewrite <-Ho. apply i64_small. pose proof (lookup_lt_Some _ _ _ Hf). destruct (frame_offset_small (S k) ltac:(lia)). unfold in_i64. lia.
Qed.

(** * The index after [n] entries

    [ks] are the entries that are in it. *)
Hypothesis Hord : Sorted comes_before les.
Hypothesis Hu64 : Forall (fun le => in_u64 (PrefixIndex le) /\ in_u64 (StreamIndex le)) les.
Definition close_by (a b : LogEntry) : Prop :=
  (0 < StreamIndexRange m -> StreamIndex b - StreamIndex a < StreamIndexRange m) /\
  (0 < PrefixIndexRange m -> PrefixIndex b - PrefixIndex a < PrefixIndexRange m).
Definition indexed_at (k : nat) (e : LogIndex_Entry) : Prop := exists le, les !! k = Some le /\ e = index_entry le (frame_offset k).
Record index_inv (n : nat) (i : indexBuilder) (ks : list nat) : Prop := {
  ii_entries : Forall2 indexed_at ks (ix_Entries (index i));
  ii_sorted : StronglySorted lt ks;
  ii_bound : Forall (fun k => (k < n)%nat) ks;
  ii_first : (0 < n)%nat -> head ks = Some 0%nat;
  ii_last : match last ks with
            | None => n = 0%nat
            | Some j => exists le, les !! j = Some le /\ i_lastStreamIndex i = StreamIndex le /\ i_lastPrefixIndex i = PrefixIndex le
            end;
  ii_buffered : match latestBufferedEntry i with
                | None => n = 0%nat \/ exists j, last ks = Some j /\ S j = n
                | Some e => exists j, S j = n /\ indexed_at j e /\ j ∉ ks
                end;
  ii_cover : forall k b, (k < n)%nat -> les !! k = Some b -> exists j a, j ∈ ks /\ les !! j = Some a /\ (j <= k)%nat /\ close_by a b;
  ii_count : ix_LogEntryCount (index i) = Z.of_nat n /\ ix_Desc (index i) = desc;
}.

Lemma les_order j k a b : (j <= k)%nat -> les !! j = Some a -> les !! k = Some b -> comes_before a b.
Proof.
  intros Hjk Ha Hb. destruct (decide (j = k)) as [->|]; [simplify_eq; repeat split; lia|].
  eapply (strongly_sorted_lookup comes_before les); [|exact Ha|exact Hb|lia]. apply Sorted_StronglySorted; [apply _|done].
Qed.
Lemma close_by_refl a : close_by a a.
Proof. split; lia. Qed.

Lemma indexed_u64 k : (k < length fs)%nat -> u64 (frame_offset k) = frame_offset k.
Proof. intros H. destruct (frame_offset_small k ltac:(lia)). apply u64_small. unfold in_u64. lia. Qed.

Lemma head_app_some {X} (l l' : list X) x : head l = Some x -> head (l ++ l') = Some x.
Proof. by destruct l. Qed.
Lemma last_elem_of {X} (l : list X) x : last l = Some x -> x ∈ l.
Proof. intros H. apply last_Some in H as [l' ->]. set_solver. Qed.
Lemma sorted_snoc ks n : StronglySorted lt ks -> Forall (fun k => (k < n)%nat) ks -> StronglySorted lt (ks ++ [n]).
Proof.
  induction 1 as [|x l Hl IH Hf]; intros Hb; [repeat constructor|]. apply Forall_cons in Hb as [Hx Hb]. cbn. constructor; [by apply IH|].
  apply Forall_app. split; [done|by constructor].
Qed.

(** An entry that is not due is within the ranges of the last one in the index. *)
Lemma not_due_close i lb a b : in_u64 (PrefixIndex b) /\ in_u64 (StreamIndex b) -> comes_before a b -> 0 <= PrefixIndex a -> 0 <= StreamIndex a ->
  i_lastStreamIndex i = StreamIndex a -> i_lastPrefixIndex i = PrefixIndex a -> index_due m i lb b = false -> close_by a b.
Proof.
  unfold index_due, in_u64. intros [Hp Hs] (O1 & O2 & _) Ha1 Ha2 -> -> Hd'. bool_to_prop.
  rewrite !u64_small in * by (unfold in_u64; lia).
  apply andb_false_iff in H0, H1. rewrite Z.ltb_ge, Z.leb_gt in H0, H1. split; lia.
Qed.

Lemma addLogEntry_inv n i ks le : index_inv n i ks -> les !! n = Some le -> (n < length fs)%nat ->
  exists ks', index_inv (S n) (addLogEntry m i le (frame_offset n)) ks'.
Proof.
  intros [I1 I2 I3 I4 I5 I6 I7 [I8 I9]] Hle Hn. pose proof (Forall_lookup_1 _ _ _ _ Hu64 Hle) as [Hup Hus].
  assert (Hc : u64 (ix_LogEntryCount (index i) + 1) = Z.of_nat (S n)).
  { rewrite I8, u64_small; [lia|]. pose proof (frame_offset_small n ltac:(lia)). unfold in_u64.
    assert (Z.of_nat (length fs) < 2 ^ 63); [|lia]. eapply Z.le_lt_trans; [|exact Hsize]. unfold frame_offset, file_upto.
    rewrite take_ge by lia. pose proof (frames_length (d :: fs)) as Hl. cbn [length] in Hl. lia. }
  assert (Hat : indexed_at n (index_entry le (frame_offset n))) by by exists le.
  (* The entry goes into the index. *)
  assert (Hin : forall i', ix_Entries (index i') = ix_Entries (index i) ++ [index_entry le (frame_offset n)] ->
    i_lastStreamIndex i' = StreamIndex le -> i_lastPrefixIndex i' = PrefixIndex le -> latestBufferedEntry i' = None ->
    ix_LogEntryCount (index i') = Z.of_nat (S n) -> ix_Desc (index i') = desc -> index_inv (S n) i' (ks ++ [n])).
  { intros i' E1 E2 E3 E4 E5 E6. split.
    - rewrite E1. apply Forall2_app; [done|by repeat constructor].
    - by apply sorted_snoc.
    - apply Forall_app. split; [|by repeat constructor; lia]. eapply Forall_impl; [exact I3|]. cbn. lia.
    - intros _. destruct ks as [|k0 ks0]; [|apply head_app_some; apply I4; apply Forall_cons in I3 as [? _]; lia].
      cbn in I5. by subst n.
    - rewrite last_snoc. by exists le.
    - rewrite E4. right. exists n. by rewrite last_snoc.
    - intros k b Hk Hb. destruct (decide (k = n)) as [->|Hne].
      + exists n, le. simplify_eq. split; [set_solver|]. split; [done|]. split; [done|apply close_by_refl].
      + destruct (I7 k b ltac:(lia) Hb) as (j & a & Hj & Ha). exists j, a. split; [set_solver|done].
    - done. }
  unfold addLogEntry. cbv zeta. destruct (ix_Entries (index i)) as [|e0 es] eqn:Ees.
  - exists (ks ++ [n]). by apply Hin.
  - destruct (index_due m i _ le) eqn:Hdue; [exists (ks ++ [n]); by apply Hin|].
    assert (Hks : ks <> []) by (intros ->; by inversion I1).
    exists ks. split; cbn; [done|done| | |by destruct (last ks) eqn:E; [|by apply last_None in E]| | |done].
    + eapply Forall_impl; [exact I3|]. cbn. lia.
    + intros _. apply I4. destruct ks; [done|]. apply Forall_cons in I3 as [? _]. lia.
    + exists n. split; [done|]. split; [done|]. intros Hin'. by apply (Forall_forall _ _) with (x := n) in I3; [lia|].
    + intros k b Hk Hb. destruct (decide (k = n)) as [->|Hne]; [|by apply I7; [lia|]]. simplify_eq.
      destruct (last ks) as [j|] eqn:Hl; [|by apply last_None in Hl].
      destruct I5 as (a & Ha & L1 & L2). pose proof (last_elem_of _ _ Hl) as Hj. exists j, a.
      assert (j < n)%nat by by apply (Forall_forall _ _) with (x := j) in I3.
      split; [done|]. split; [done|]. split; [lia|]. pose proof (Forall_lookup_1 _ _ _ _ Hu64 Ha) as [Hap Has]. unfold in_u64 in Hap, Has.
      eapply not_due_close; [by split|by eapply (les_order j n); [lia|..]|lia|lia|exact L1|exact L2|exact Hdue].
Qed.

Lemma archive_loop_ok n i ks w : index_inv n i ks -> (n <= length les)%nat -> answers w = [] -> received w = file_upto n ->
  exists i' ks', archive_loop m (Some i) w (frame_offset n) (drop n les) =
    (None, {| received := file_upto (length les); answers := [] |}, frame_offset (length les), Some i') /\ index_inv (length les) i' ks'.
Proof.
  pose proof (Forall2_length _ _ _ Hfs) as Hlen. remember (length les - n)%nat as r eqn:Hr. revert n i ks w Hr.
  induction r as [|r IH]; intros n i ks w Hr Hi Hn Ha Hw.
  - assert (n = length les) as -> by lia. rewrite drop_all. exists i, ks. split; [|done]. cbn. destruct w as [rc an]. cbn in *. by subst.
  - destruct (lookup_lt_is_Some_2 les n ltac:(lia)) as [le Hle]. destruct (Forall2_lookup_l _ _ _ _ _ Hfs Hle) as (f & Hf & Hm).
    rewrite (drop_S _ _ _ Hle). cbn [archive_loop fmap option_fmap option_map].
    rewrite (out_ok w n le f Hf Hm Ha Hw). destruct (addLogEntry_inv n i ks le Hi Hle ltac:(lia)) as [ks' Hi'].
    by apply (IH (S n) _ ks' {| received := file_upto (S n); answers := [] |}); [lia| |lia|..].
Qed.

(** The file of the log and its index. *)
Lemma archiveLogs_ok w : answers w = [] -> received w = [] ->
  exists i ks, archiveLogs m desc w (Some (new_index desc)) les = (None, {| received := file_upto (length les); answers := [] |}, Some i) /\
    index_inv (length les) i ks.
Proof.
  intros Ha Hw. unfold archiveLogs, out. rewrite Hd.
  assert (H0 : frame_offset 0 = Z.of_nat (length (frame_bytes d))) by (unfold frame_offset, file_upto; cbn; by rewrite app_nil_r).
  assert (Hsm : small d).
  { unfold small. pose proof (frame_offset_small 0 ltac:(lia)). rewrite H0 in H. unfold frame_bytes in H. rewrite length_app in H. lia. }
  rewrite WriteFrame_ok by done. rewrite Hw. cbn [app].
  assert (Hi0 : index_inv 0 (new_index desc) []).
  { split; cbn; [by constructor|constructor|constructor|lia|done|by left|intros; lia|done]. }
  assert (i64 (0 + Z.of_nat (length (frame_bytes d))) = frame_offset 0) as ->.
  { rewrite <-H0. apply i64_small. pose proof (frame_offset_small 0 ltac:(lia)). unfold in_i64. lia. }
  destruct (archive_loop_ok 0 (new_index desc) [] {| received := frame_bytes d; answers := [] |} Hi0 ltac:(lia)) as (i & ks & E & Hi);
    [done|unfold file_upto; cbn; by rewrite app_nil_r|].
  rewrite drop_0 in E. rewrite E. by exists i, ks.
Qed.

(** The whole index: the positions it has, and what they are. *)
Lemma final_index_spec i ks : index_inv (length les) i ks -> exists ks',
  Forall2 indexed_at ks' (ix_Entries (final_index i)) /\ StronglySorted lt ks' /\
  (les <> [] -> head ks' = Some 0%nat /\ last ks' = Some (length les - 1)%nat) /\
  (forall k b, les !! k = Some b -> exists j a, j ∈ ks' /\ les !! j = Some a /\ (j <= k)%nat /\ close_by a b) /\
  ix_LogEntryCount (final_index i) = Z.of_nat (length les).
Proof.
  intros [I1 I2 I3 I4 I5 I6 I7 [I8 I9]]. unfold final_index. cbn.
  assert (Hpos : les <> [] -> (0 < length les)%nat) by (destruct les; [done|cbn; lia]).
  destruct (latestBufferedEntry i) as [e|].
  - destruct I6 as (j & Hj & He & Hnj). exists (ks ++ [j]).
    assert (Hb : Forall (fun k => (k < j)%nat) ks).
    { apply Forall_forall. intros k Hk. pose proof (proj1 (Forall_forall _ _) I3 k Hk). cbn in *. destruct (decide (k = j)); [by subst|lia]. }
    split; [apply Forall2_app; [done|by repeat constructor]|]. split; [by apply sorted_snoc|]. split; [|split].
    + intros Hne. split; [apply head_app_some, I4; by apply Hpos|]. rewrite last_snoc. f_equal. lia.
    + intros k b Hk. destruct (I7 k b (lookup_lt_Some _ _ _ Hk) Hk) as (j' & a & Hj' & Ha). exists j', a. split; [set_solver|done].
    + done.
  - exists ks. rewrite app_nil_r. split; [done|]. split; [done|]. split; [|split].
    + intros Hne. specialize (Hpos Hne). split; [by apply I4|]. destruct I6 as [?|(j & Hj & Hjn)]; [lia|]. rewrite Hj. f_equal. lia.
    + intros k b Hk. apply I7; [by eapply lookup_lt_Some|done].
    + done.
Qed.

(** Reading from an offset of the index on gives the entries from there on. *)
Lemma read_from_offset k : (k <= length fs)%nat -> Split (drop (Z.to_nat (frame_offset k)) (file_upto (length fs))) = Some (drop k fs, None).
Proof.
  intros Hk. unfold frame_offset. rewrite Nat2Z.id.
  assert (file_upto (length fs) = file_upto k ++ concat (map frame_bytes (drop k fs))) as ->.
  { unfold file_upto. cbn. rewrite <-app_assoc. f_equal. rewrite <-concat_app, <-map_app. f_equal. f_equal. rewrite take_ge by lia. by rewrite take_drop. }
  rewrite drop_app_length. apply Split_frames. unfold frame_offset, file_upto in Hsize. rewrite take_ge in Hsize by lia. cbn in Hsize.
  rewrite <-(take_drop k fs), map_app, concat_app, !length_app in Hsize. lia.
Qed.
End Index.

(** * The file of data *)
Lemma copy_to_ok fuel n r w : separate (rsource r) -> rerr r = None -> (0 < n)%nat -> (length (to_come r).1 < fuel)%nat ->
  (to_come r).2 = io_EOF -> answers w = [] ->
  copy_to fuel n r w = Some (None, {| received := received w ++ (to_come r).1; answers := [] |}).
Proof.
  revert r w. induction fuel as [|fuel IH]; intros r w Hs He Hn Hf Heof Ha; [lia|]. cbn [copy_to].
  destruct (Read r n) as [[data err] r'] eqn:Er.
  destruct (Renderer_Read_spec _ _ _ _ _ Hs He Er) as (H1 & H2 & H3 & H4 & H5 & H6).
  destruct err as [e|].
  - destruct H6 as [-> H6]. rewrite H6 in Heof |- *. cbn in Heof |- *. subst e. destruct w. cbn in *. subst. by rewrite app_nil_r.
  - specialize (H6 Hn). destruct data as [|x data]; [done|]. unfold Sink_Write. rewrite Ha. cbn [tail].
    rewrite H4, length_app in Hf. cbn in Hf. rewrite H4, IH; try done; [|lia|by rewrite H5].
    cbn [received]. by rewrite app_assoc.
Qed.
Lemma archiveData_ok fuel w les : answers w = [] -> (length (log_raw les) < fuel)%nat ->
  archiveData fuel w les = Some (None, {| received := received w ++ log_raw les; answers := [] |}).
Proof.
  intros Ha Hf. unfold archiveData. set (r := new_renderer (channelRendererSource les) true).
  assert (Hc : to_come r = (log_raw les, io_EOF)) by (unfold to_come; cbn; by rewrite raw_output).
  rewrite copy_to_ok; rewrite ?Hc; try done; [|unfold copy_buffer; lia].
  unfold separate, channelRendererSource. apply Forall_forall. by intros x (e & -> & _)%list_elem_of_fmap.
Qed.

(** * Reading *)
Section Reading.
Context {T : Type} (NextLogEntry : T -> option LogEntry * option SrcError * T).

(** What a source that reports its errors by themselves gives until then, in [n]
    calls. *)
Inductive drains : nat -> T -> list LogEntry -> option bool -> T -> Prop :=
| drains_end x x' : NextLogEntry x = (None, Some SrcEOF, x') -> drains 1 x [] None x'
| drains_error x x' t : NextLogEntry x = (None, Some (SrcError_ t), x') -> drains 1 x [] (Some t) x'
| drains_nil x x' : NextLogEntry x = (None, None, x') -> drains 1 x [] (Some false) x'
| drains_entry n x x' le les e x'' : NextLogEntry x = (Some le, None, x') -> drains n x' les e x'' -> drains (S n) x (le :: les) e x''.

Lemma safe_next_drains n x les e x' : drains n x les e x' -> forall fuel s, (n <= fuel)%nat -> exists le err s1 x1,
  safe_NextLogEntry NextLogEntry fuel s x = Some (le, err, s1, x1) /\
  match le with
  | None => normalize_all s les = [] /\ x1 = x' /\ err = Some (match e with None => SrcEOF | Some t => SrcError_ t end)
  | Some le => err = None /\ exists n1 les1, (n1 < n)%nat /\ normalize_all s les = le :: normalize_all s1 les1 /\ drains n1 x1 les1 e x'
  end.
Proof.
  induction 1 as [x x' H|x x' t H|x x' H|n x x' le les e x'' H Hd IH]; intros [|fuel] s Hf; try lia; cbn [safe_NextLogEntry]; rewrite H.
  1-3: by eexists None, _, _, _.
  cbn [normalize_all]. destruct (normalizeLogEntry s le) as [[le'|] s1].
  - exists (Some le'), None, s1, x'. split; [done|]. split; [done|]. exists n, les. split; [lia|]. done.
  - destruct (IH fuel s1 ltac:(lia)) as (le1 & err & s2 & x1 & E & Hm). exists le1, err, s2, x1. split; [done|].
    destruct le1; [|done]. destruct Hm as (-> & n1 & les1 & Hn1 & Hm). split; [done|]. exists n1, les1. split; [lia|done].
Qed.
Lemma read_all_drains n : forall x les e x' fuel s, drains n x les e x' -> (n < fuel)%nat ->
  read_all NextLogEntry fuel s x = Some (normalize_all s les, e, x').
Proof.
  induction n as [n IH] using (well_founded_induction lt_wf). intros x les e x' [|fuel] s Hd Hf; [lia|]. cbn [read_all].
  destruct (safe_next_drains n x les e x' Hd fuel s ltac:(lia)) as (le & err & s1 & x1 & E & Hm). rewrite E. cbn.
  destruct le as [le|].
  - destruct Hm as (-> & n1 & les1 & Hn1 & -> & Hd1). by rewrite (IH n1 Hn1 _ _ _ _ fuel s1 Hd1 ltac:(lia)).
  - destruct Hm as (-> & -> & ->). by destruct e.
Qed.
End Reading.

(** * The whole *)
Definition fresh : Sink := {| received := []; answers := [] |}.
Definition written (b : bytes) : Sink := {| received := b; answers := [] |}.
Lemma Archive_ok {SV : Services} {EC : EntryCodec} {T : Type} (next : T -> option LogEntry * option SrcError * T) m desc d fs n x raw x' fuel (data : bool) :
  let les := normalize_all safe_start raw in
  drains next n x raw None x' -> MarshalDesc desc = Some d -> Forall2 (fun le f => MarshalEntry le = Some f) les fs ->
  frame_offset d fs (length fs) < 2 ^ 63 -> Forall (fun le => in_u64 (PrefixIndex le) /\ in_u64 (StreamIndex le)) les ->
  (forall ix, is_Some (MarshalIndex ix)) -> (n < fuel)%nat -> (length (log_raw les) < fuel)%nat ->
  exists i ks b, index_inv (with_default m) desc d les fs (length les) i ks /\ MarshalIndex (final_index i) = Some b /\
    Archive next fuel m desc x {| LogWriter := Some fresh; IndexWriter := Some fresh; DataWriter := if data then Some fresh else None |} =
    Some ([], {| LogWriter := Some (written (file_upto d fs (length les))); IndexWriter := Some (written b);
      DataWriter := if data then Some (written (log_raw les)) else None |}, x').
Proof.
  intros les Hdr Hd Hfs Hsize Hu Hix Hf1 Hf2.
  pose proof (normalize_all_before raw) as Hord. fold les in Hord.
  destruct (archiveLogs_ok (with_default m) desc d les fs Hd Hfs Hsize Hord Hu fresh eq_refl eq_refl) as (i & ks & E & Hi).
  destruct (Hix (final_index i)) as [b Hb]. exists i, ks, b. split; [done|]. split; [done|].
  unfold Archive. rewrite (read_all_drains next n x raw None x' fuel safe_start Hdr Hf1). fold les. cbn -[log_task archiveData].
  unfold log_task. cbn [LogWriter IndexWriter fmap option_fmap option_map]. rewrite E. unfold emit. rewrite Hb. cbn -[archiveData].
  destruct data; cbn -[archiveData]; [by rewrite archiveData_ok by done|done].
Qed.
