(* ===== verification/LogArchivist.v ===== *)
(** The archivist (logdog/server/archivist): the source of a stream's entries in
    intermediate storage, the check that a stream is complete, staging and
    finalizing an archive, and the task from its checks to the report. *)
From stdpp Require Import fin_maps.
From S2P Require Import Prelude RecordIO LogEntry TimedBuffer Parsers ParserSpec StreamName LogStream Renderer.
From S2P Require Import LogStorage LogCoord LogArchive.
Local Open Scope Z_scope.

(** * Reading intermediate storage (storageSource.go, common/storage/entry.go) *)
Definition MaxLogEntryDataSize : Z := 10 * 1024 * 1024.
Definition storageBufferSize : Z := MaxLogEntryDataSize * 64.

(** The objects of Google Storage, by whether they are staged with the ID of the
    task or final, the stream, and the kind of file. *)
Inductive Kind := KStream | KIndex | KData.
Definition GSPath : Type := option bytes * streamKey * Kind.
#[export] Instance Kind_eq_dec : EqDecision Kind.
Proof. solve_decision. Defined.
#[export] Instance Kind_countable : Countable Kind.
Proof. by refine (inj_countable' (fun k => match k with KStream => 0%nat | KIndex => 1%nat | KData => 2%nat end)
  (fun n => match n with 0%nat => KStream | 1%nat => KIndex | _ => KData end) _); intros []. Defined.
Notation GS := (gmap GSPath bytes).

Section Archivist.
Context {LS : LogStore} {SV : Services} {EC : EntryCodec}.

Definition GetLogEntry (e : Entry) : option LogEntry := D e ≫= UnmarshalEntry.
Definition GetStreamIndex (e : Entry) : option Z :=
  if e_index e <? 0 then (fun le => i64 (StreamIndex le)) <$> GetLogEntry e else Some (e_index e).

(** What the callback takes, and whether it stopped.  It stops at an entry it can
    not decode, or when it has enough. *)
Fixpoint buffer_loop (es : list Entry) (n : Z) (buf : list LogEntry) : list LogEntry * bool :=
  match es with
  | [] => (buf, false)
  | e :: es =>
      match GetLogEntry e with
      | None => (buf, true)
      | Some le =>
          let n := n + blen (default [] (D e)) in
          if n <? storageBufferSize then buffer_loop es n (buf ++ [le]) else (buf ++ [le], true)
      end
  end.
Record storageSource := {
  ss_st : LStore; ss_key : streamKey; ss_terminalIndex : Z; ss_buf : list LogEntry; ss_lastIndex : Z; ss_logEntryCount : Z
}.
Definition ss_set_buf (s : storageSource) (buf : list LogEntry) : storageSource :=
  {| ss_st := ss_st s; ss_key := ss_key s; ss_terminalIndex := ss_terminalIndex s; ss_buf := buf; ss_lastIndex := ss_lastIndex s; ss_logEntryCount := ss_logEntryCount s |}.
Definition bufferEntries (s : storageSource) (start : Z) : option StorageError * storageSource :=
  let '(es, err) := Get (ss_st s) {| g_key := ss_key s; g_Index := start; g_Limit := 0; KeysOnly := false |} in
  let '(buf, stopped) := buffer_loop es 0 (ss_buf s) in
  (if stopped : bool then None else err, ss_set_buf s buf).

Definition storage_transient (e : StorageError) : bool := match e with StorageFailure t => t | _ => false end.
(** The next entry of the buffer. *)
Definition pop_entry (s : storageSource) : option LogEntry * option SrcError * storageSource :=
  match ss_buf s with
  | [] => (None, Some SrcEOF, s)
  | le :: buf =>
      let s := ss_set_buf s buf in
      let sidx := i64 (StreamIndex le) in
      if (0 <=? ss_terminalIndex s) && (ss_terminalIndex s <? sidx) then (None, Some SrcEOF, s)
      else (Some le, None,
        {| ss_st := ss_st s; ss_key := ss_key s; ss_terminalIndex := ss_terminalIndex s; ss_buf := buf;
           ss_lastIndex := sidx; ss_logEntryCount := i64 (ss_logEntryCount s + 1) |})
  end.
Definition NextLogEntry (s : storageSource) : option LogEntry * option SrcError * storageSource :=
  match ss_buf s with
  | [] =>
      let '(err, s) := bufferEntries s (i64 (ss_lastIndex s + 1)) in
      match err with
      | Some ErrDoesNotExist => (None, Some SrcEOF, s)
      | Some e => (None, Some (SrcError_ (storage_transient e)), s)
      | None => pop_entry s
      end
  | _ => pop_entry s
  end.

(** * Completeness (archivist.go)

    How a task ends: with a status error, which is no failure, or with a failure,
    which may be transient. *)
Inductive TaskError := StatusErr | Failure (transient : bool).
#[export] Instance TaskError_eq_dec : EqDecision TaskError.
Proof. solve_decision. Defined.
Definition isFailure (e : option TaskError) : bool := match e with Some (Failure _) => true | _ => false end.

(** The callback over the entries: [Ok true] when it stopped at the terminal index. *)
Fixpoint check_loop (es : list Entry) (nextIndex terminalIndex : Z) : result TaskError bool :=
  match es with
  | [] => Ok false
  | e :: es =>
      match GetStreamIndex e with
      | None => Err (Failure false)
      | Some idx =>
          if negb (idx =? nextIndex) then Err (Failure false)
          else if idx =? terminalIndex then Ok true
          else check_loop es (i64 (nextIndex + 1)) terminalIndex
      end
  end.
Definition checkComplete (st : LStore) (k : streamKey) (terminalIndex : Z) : option TaskError :=
  if terminalIndex <? 0 then Some StatusErr
  else
    let '(es, err) := Get st {| g_key := k; g_Index := 0; g_Limit := 0; KeysOnly := true |} in
    match check_loop es 0 terminalIndex with
    | Err e => Some e
    | Ok true => None
    | Ok false => match err with Some e => Some (Failure (storage_transient e)) | None => None end
    end.

(** * Staging and finalizing

    [stage] writes the files, [finalize] renames them. *)

(** How Google Storage answers. *)
Record GSEnv := { new_fails : Kind -> bool; write_answers : Kind -> list (option nat); close_fails : Kind -> bool; rename_fails : Kind -> bool }.
Record Settings := { AlwaysRender : bool; IndexRanges : Manifest }.

Record stagedArchival := {
  sa_key : streamKey; sa_uid : bytes; sa_desc : LogStreamDescriptor; sa_data : bool;
  sa_terminalIndex : Z; sa_logEntryCount : Z; bytesWritten : Kind -> Z
}.
(** [BinaryFileExt] of a descriptor: whether it is there. *)
Context (BinaryFileExt : LogStreamDescriptor -> bool).
Definition makeStagedArchival (project : bytes) (st : Settings) (ls : LoadStreamResponse) (uid : bytes) : option stagedArchival :=
  desc ← UnmarshalDesc (default [] (l_Desc ls));
  Some {| sa_key := (project, Desc_Path desc); sa_uid := uid; sa_desc := desc; sa_data := BinaryFileExt desc || AlwaysRender st;
          sa_terminalIndex := st_TerminalIndex (l_State ls); sa_logEntryCount := 0; bytesWritten _ := 0 |}.

Definition enabled (sa : stagedArchival) (k : Kind) : bool := match k with KData => sa_data sa | _ => true end.
Definition kinds : list Kind := [KStream; KIndex; KData].
Definition staged_path (sa : stagedArchival) (k : Kind) : GSPath := (Some (sa_uid sa), sa_key sa, k).
Definition final_path (sa : stagedArchival) (k : Kind) : GSPath := (None, sa_key sa, k).

(** The deferred [closeWriter] of the writers, the last one first: a file that was
    written to appears when its writer closes, and goes once there was an error. *)
Fixpoint close_writers (g : GSEnv) (sa : stagedArchival) (failed : bool) (ws : list (Kind * Sink)) (terr : bool) (gs : GS) : bool * GS :=
  match ws with
  | [] => (terr, gs)
  | (k, w) :: ws =>
      let bad := negb (bool_decide (received w = [])) && close_fails g k in
      let terr := terr || bad in
      let gs := if bad || bool_decide (received w = []) then gs else <[staged_path sa k := received w]> gs in
      let gs := if failed || terr then delete (staged_path sa k) gs else gs in
      close_writers g sa failed ws terr gs
  end.
Definition manifest_writers (g : GSEnv) (sa : stagedArchival) : Writers :=
  let sink k := {| received := []; answers := write_answers g k |} in
  {| LogWriter := Some (sink KStream); IndexWriter := Some (sink KIndex); DataWriter := if sa_data sa then Some (sink KData) else None |}.
Definition open_writers (w : Writers) : list (Kind * Sink) :=
  match DataWriter w with Some s => [(KData, s)] | None => [] end ++
  match IndexWriter w with Some s => [(KIndex, s)] | None => [] end ++ match LogWriter w with Some s => [(KStream, s)] | None => [] end.
(** The kinds for which no writer could be made; the ones before it are closed. *)
Definition first_new_failure (g : GSEnv) (sa : stagedArchival) : option (list Kind) :=
  if new_fails g KStream then Some []
  else if new_fails g KIndex then Some [KStream]
  else if sa_data sa && new_fails g KData then Some [KIndex; KStream] else None.

Definition start_source (st : LStore) (sa : stagedArchival) : storageSource :=
  {| ss_st := st; ss_key := sa_key sa; ss_terminalIndex := sa_terminalIndex sa; ss_buf := []; ss_lastIndex := -1; ss_logEntryCount := 0 |}.
(** [stage]: its error is whether that is transient. *)
Definition stage (fuel : nat) (g : GSEnv) (set : Settings) (st : LStore) (sa : stagedArchival) (gs : GS) : option (option bool * stagedArchival * GS) :=
  match first_new_failure g sa with
  | Some ks =>
      (* Nothing was written: closing does nothing. *)
      Some (Some false, sa, fold_left (fun gs k => delete (staged_path sa k) gs) ks gs)
  | None =>
      '(errs, w, ss) ← Archive NextLogEntry fuel (IndexRanges set) (sa_desc sa) (start_source st sa) (manifest_writers g sa);
      let failed := negb (bool_decide (errs = [])) in
      let '(terr, gs) := close_writers g sa failed (open_writers w) false gs in
      let written (s : option Sink) := match s with Some s => blen (received s) | None => 0 end in
      let sa' := {| sa_key := sa_key sa; sa_uid := sa_uid sa; sa_desc := sa_desc sa; sa_data := sa_data sa;
                    sa_terminalIndex := ss_lastIndex ss; sa_logEntryCount := ss_logEntryCount ss;
                    bytesWritten k := match k with KStream => written (LogWriter w) | KIndex => written (IndexWriter w) | KData => written (DataWriter w) end |} in
      if failed then Some (Some (existsb (fun t => t) errs), sa, gs)
      else if terr : bool then Some (Some true, sa', gs)
      else Some (None, sa', gs)
  end.

(** [finalize]: the files that are not empty are renamed, whatever happens to the
    others. *)
Definition rename_file (g : GSEnv) (sa : stagedArchival) (gs : GS) (k : Kind) : GS :=
  if negb (enabled sa k) || (bytesWritten sa k =? 0) || rename_fails g k then gs
  else match gs !! staged_path sa k with
       | Some b => <[final_path sa k := b]> (delete (staged_path sa k) gs)
       | None => gs
       end.
Definition finalize_fails (g : GSEnv) (sa : stagedArchival) : bool :=
  existsb (fun k => enabled sa k && negb (bytesWritten sa k =? 0) && rename_fails g k) kinds.
Context (url : GSPath -> bytes).
Definition archive_request (sa : stagedArchival) (id : bytes) : ArchiveStreamRequest :=
  {| ar_Id := id; ar_TerminalIndex := sa_terminalIndex sa; ar_LogEntryCount := sa_logEntryCount sa;
     ar_StreamUrl := url (final_path sa KStream); ar_StreamSize := bytesWritten sa KStream;
     ar_IndexUrl := url (final_path sa KIndex); ar_IndexSize := bytesWritten sa KIndex;
     ar_DataUrl := if sa_data sa then url (final_path sa KData) else []; ar_DataSize := if sa_data sa then bytesWritten sa KData else 0; ar_Error := [] |}.
(** The request of an archival that failed for good has an error and nothing else. *)
Definition failed_request (id : bytes) (error : bytes) : ArchiveStreamRequest :=
  {| ar_Id := id; ar_TerminalIndex := 0; ar_LogEntryCount := 0; ar_StreamUrl := []; ar_StreamSize := 0; ar_IndexUrl := []; ar_IndexSize := 0;
     ar_DataUrl := []; ar_DataSize := 0; ar_Error := error |}.
(** What is still staged goes, best effort. *)
Definition cleanup (sa : stagedArchival) (gs : GS) : GS := fold_left (fun gs k => delete (staged_path sa k) gs) (filter (fun k => enabled sa k = true) kinds) gs.

(** * The task (archiveTaskImpl)

    [task_uid] is the ID of the delivery. *)
Definition dispatchThreshold : Z := 5 * 60 * 1000000000.
Record Task := { at_Project : bytes; at_task : ArchiveTask; task_uid : bytes }.
(** What it meets: whether the name of the project is valid, the time, the calls of
    the coordinator, the settings, Google Storage, the message of an error. *)
Record TaskMeets := {
  project_ok : bool; a_now : time; load_env : CallEnv; a_settings : option Settings; gs_env : GSEnv; archive_env : CallEnv; error_text : bytes
}.
Definition Abs (z : Z) : Z := if z <? 0 then i64 (- z) else z.

(** The checks: the error that ends the task and whether the task is consumed, or
    the state of the stream and its age. *)
Definition task_checks (e : TaskMeets) (t : Task) (c : CStore) : (bool * TaskError) + (LoadStreamResponse * Z) :=
  if negb (project_ok e) then inl (true, Failure false)
  else if Abs (Time_Sub (a_now e) (t_DispatchedAt (at_task t))) <? dispatchThreshold then inl (false, StatusErr)
  else
    match LoadStream (load_env e) (t_Id (at_task t)) true c with
    | Err code => inl (false, Failure (IsTransientCode code))
    | Ok ls =>
        if st_Purged (l_State ls) then inl (true, StatusErr)
        else if st_Archived (l_State ls) then inl (true, StatusErr)
        else if negb (bool_decide (l_ArchivalKey ls = t_Key (at_task t))) then
          if bool_decide (l_ArchivalKey ls = []) then inl (false, StatusErr) else inl (true, StatusErr)
        else if negb (bool_decide (st_ProtoVersion (l_State ls) = logpb_Version)) then inl (false, Failure false)
        else if bool_decide (default [] (l_Desc ls) = []) then inl (false, Failure false)
        else
          let age := DurationFromProto (l_Age ls) in
          if age <? DurationFromProto (t_SettleDelay (at_task t)) then inl (false, StatusErr) else inr (ls, age)
    end.

(** The report: the error of the task, whether it is consumed, and the store. *)
Definition report (e : TaskMeets) (ar : ArchiveStreamRequest) (c : CStore) : bool * option TaskError * CStore :=
  match ArchiveStream (archive_env e) ar c with
  | (Some code, c) => (false, Some (Failure (IsTransientCode code)), c)
  | (None, c) => (true, None, c)
  end.
(** The task, whose report comes when the store of the coordinator is [c1].
    [AssertLease] does nothing. *)
Definition archiveTaskImpl (fuel : nat) (e : TaskMeets) (t : Task) (st : LStore) (c0 c1 : CStore) (gs : GS)
  : option (bool * option TaskError * CStore * GS) :=
  match task_checks e t c0 with
  | inl (consumed, err) => Some (consumed, Some err, c1, gs)
  | inr (ls, age) =>
      match a_settings e with
      | None => Some (false, Some (Failure false), c1, gs)
      | Some set =>
          match makeStagedArchival (at_Project t) set ls (task_uid t) with
          | None => Some (false, Some (Failure false), c1, gs)
          | Some sa =>
              match (if age <=? DurationFromProto (t_CompletePeriod (at_task t)) then checkComplete st (sa_key sa) (sa_terminalIndex sa) else None) with
              | Some err => Some (false, Some err, c1, gs)
              | None =>
                  '(err, sa, gs) ← stage fuel (gs_env e) set st sa gs;
                  match err with
                  | Some true => Some (false, Some (Failure true), c1, gs)
                  | Some false => Some (report e (failed_request (t_Id (at_task t)) (error_text e)) c1, gs)
                  | None =>
                      let gs := fold_left (rename_file (gs_env e) sa) kinds gs in
                      if finalize_fails (gs_env e) sa then Some (false, Some (Failure false), c1, cleanup sa gs)
                      else Some (report e (archive_request sa (t_Id (at_task t))) c1, cleanup sa gs)
                  end
              end
          end
      end
  end.
(** [ArchiveTask]: whether it counts as successful. *)
Definition task_successful (r : bool * option TaskError * CStore * GS) : bool := negb (isFailure r.1.1.2).
End Archivist.
