(* ===== verification/LogArchivistFacts.v ===== *)
(** The archivist: what its source reads of a stream in intermediate storage. *)
From Stdlib Require Import FunctionalExtensionality.
From stdpp Require Import fin_maps sorting.
From S2P Require Import Prelude RecordIO LogEntry TimedBuffer Parsers ParserSpec StreamName LogStream Renderer.
From S2P Require Import LogStorage LogCoord LogArchive LogArchiveFacts LogArchivist.
Local Open Scope Z_scope.

Section Source.
Context {LS : LogStore} {LL : LogStoreLaws LS} {LC : LogStoreComplete LS} {EC : EntryCodec}.
Context (st : LStore) (k : streamKey).

(** The storage works for the stream, and its records are the entries of their
    indices. *)
Definition reads_well : Prop := store_ok st /\ forall i n ko l e, Get st {| g_key := k; g_Index := i; g_Limit := n; KeysOnly := ko |} = (l, e) -> e = None.
Definition entries_good : Prop := forall i d, stored st k i d -> 0 <= i < 2 ^ 62 /\ exists le, UnmarshalEntry d = Some le /\ StreamIndex le = i.
Context (Hread : reads_well) (Hgood : entries_good).

(** [le] is the entry stored at its index. *)
Definition stored_entry (le : LogEntry) : Prop := exists d, stored st k (StreamIndex le) d /\ UnmarshalEntry d = Some le.
Lemma stored_entry_at i d : stored st k i d -> exists le, stored_entry le /\ StreamIndex le = i.
Proof. intros H. destruct (Hgood _ _ H) as [_ (le & Hu & <-)]. exists le. split; [by exists d|done]. Qed.
Lemma stored_entry_range le : stored_entry le -> 0 <= StreamIndex le < 2 ^ 62.
Proof. intros (d & Hd & _). by destruct (Hgood _ _ Hd). Qed.
Lemma stored_entry_fun a b : stored_entry a -> stored_entry b -> StreamIndex a = StreamIndex b -> a = b.
Proof.
  intros (d & Hd & Ha) (d' & Hd' & Hb) He. rewrite He in Hd. rewrite (stored_fun _ _ _ _ _ Hd Hd') in Ha. congruence.
Qed.

(** A list of entries that has all that is stored from an index on, up to its last one. *)
Definition run_of (start : Z) (les : list LogEntry) : Prop :=
  Forall stored_entry les /\ Sorted Z.lt (map StreamIndex les) /\ Forall (fun le => start <= StreamIndex le) les /\
  forall i d, stored st k i d -> start <= i -> i ∈ map StreamIndex les \/ les <> [] /\ Forall (fun le => StreamIndex le < i) les.

Lemma run_of_prefix start l1 l2 : run_of start (l1 ++ l2) -> l1 <> [] -> run_of start l1.
Proof.
  intros (H1 & H2 & H3 & H4) Hne. apply Forall_app in H1 as [H1 _]. apply Forall_app in H3 as [H3 _]. rewrite map_app in H2.
  split; [done|]. split; [|split; [done|]].
  - clear -H2. induction (map StreamIndex l1) as [|x l IH]; [constructor|]. cbn in H2. apply Sorted_inv in H2 as [H2 Hh]. constructor; [by apply IH|].
    destruct l; constructor. by inversion Hh.
  - intros i d Hd Hi. destruct (H4 i d Hd Hi) as [Hin|[_ Hall]].
    + rewrite map_app in Hin. apply elem_of_app in Hin as [Hin|Hin]; [by left|]. right. split; [done|].
      apply (Sorted_StronglySorted) in H2; [|intros ???; lia]. apply list_elem_of_fmap in Hin as (b & -> & Hb).
      apply Forall_forall. intros a Ha. clear -H2 Ha Hb. induction l1 as [|x l IH]; [by apply elem_of_nil in Ha|].
      cbn in H2. apply StronglySorted_inv in H2 as [H2 Hf]. apply elem_of_cons in Ha as [->|Ha]; [|by apply IH].
      apply (proj1 (Forall_forall _ _) Hf). apply elem_of_app. right. by apply list_elem_of_fmap_2.
    + right. split; [done|]. by apply Forall_app in Hall as [? _].
Qed.
Lemma run_of_tail start le les : run_of start (le :: les) -> run_of (StreamIndex le + 1) les \/ les = [] .
Proof.
  intros (H1 & H2 & H3 & H4). destruct les as [|b les]; [by right|]. left. apply Forall_cons in H1 as [_ H1]. cbn [map] in H2.
  apply Sorted_StronglySorted in H2; [|intros ???; lia]. apply StronglySorted_inv in H2 as [H2 Hf].
  split; [done|]. split; [by apply StronglySorted_Sorted|]. split.
  - change (Forall (Z.lt (StreamIndex le)) (map StreamIndex (b :: les))) in Hf. apply (proj1 (List.Forall_map StreamIndex _ (b :: les))) in Hf.
    eapply Forall_impl; [exact Hf|]. cbn. lia.
  - intros i d Hd Hi. apply Forall_cons in H3 as [H3 _]. destruct (H4 i d Hd ltac:(lia)) as [Hin|[_ Hall]].
    + cbn [map] in Hin. apply elem_of_cons in Hin as [->|Hin]; [lia|by left].
    + right. split; [done|]. by apply Forall_cons in Hall as [_ ?].
Qed.

(** * The buffer *)
Lemma buffer_loop_prefix es : forall n buf, Forall (fun e => is_Some (GetLogEntry e)) es -> exists les r,
  buffer_loop es n buf = (buf ++ les, r) /\ (es <> [] -> les <> []) /\ (r = false -> length les = length es) /\
  exists rest, omap GetLogEntry es = les ++ rest.
Proof.
  induction es as [|e es IH]; intros n buf Hf; cbn [buffer_loop].
  { exists [], false. rewrite app_nil_r. split; [done|]. split; [done|]. split; [done|]. by exists []. }
  apply Forall_cons in Hf as [[le He] Hf]. rewrite He. cbn [omap list_omap]. rewrite He. destruct (_ <? _).
  - destruct (IH (n + blen (default [] (D e))) (buf ++ [le]) Hf) as (les & r & E & H1 & H2 & rest & H3).
    exists (le :: les), r. rewrite E, <-app_assoc. split; [done|]. split; [done|]. split; [intros Hr; cbn; by rewrite H2|].
    exists rest. change (omap GetLogEntry es = les ++ rest) in H3. cbn. f_equal. exact H3.
  - exists [le], true. split; [done|]. split; [done|]. split; [done|]. by exists (omap GetLogEntry es).
Qed.

(** What a [Get] hands over is a run of the stored entries. *)
Lemma Get_run start l e : 0 <= start -> Get st {| g_key := k; g_Index := start; g_Limit := 0; KeysOnly := false |} = (l, e) ->
  e = None /\ Forall (fun e => is_Some (GetLogEntry e)) l /\ run_of start (omap GetLogEntry l).
Proof.
  intros Hs HG. destruct Hread as [Hok Hno]. pose proof (Hno _ _ _ _ _ HG) as ->. split; [done|].
  destruct (Get_sound st {| g_key := k; g_Index := start; g_Limit := 0; KeysOnly := false |} l None Hok Hs HG) as [Hinc Hall]. cbn in Hall.
  assert (Hent : Forall (fun e => start <= e_index e /\ exists le, GetLogEntry e = Some le /\ stored_entry le /\ StreamIndex le = e_index e) l).
  { apply Forall_forall. intros e He. destruct (Hall e He) as (H1 & d & H2 & H3). split; [done|].
    destruct (Hgood _ _ H2) as [_ (le & Hu & Hi)]. exists le. unfold GetLogEntry. rewrite (H3 eq_refl). cbn. split; [done|].
    split; [|done]. exists d. by rewrite Hi. }
  split; [eapply Forall_impl; [exact Hent|]; intros e (_ & le & He & _); by exists le|].
  assert (Hmap : map StreamIndex (omap GetLogEntry l) = map e_index l /\ Forall (fun le => stored_entry le /\ start <= StreamIndex le) (omap GetLogEntry l)).
  { clear -Hent. induction Hent as [|e l (H0 & le & H1 & H2 & H3) Hl IH]; [by split|]. destruct IH as [I1 I2].
    change (omap GetLogEntry (e :: l)) with (match GetLogEntry e with Some le => le :: omap GetLogEntry l | None => omap GetLogEntry l end).
    rewrite H1. cbn [map]. split; [by rewrite I1, H3|]. constructor; [|done]. split; [done|lia]. }
  destruct Hmap as [Hmap Hse]. split; [eapply Forall_impl; [exact Hse|]; by intros ? [? _]|]. split; [by rewrite Hmap|].
  split; [eapply Forall_impl; [exact Hse|]; by intros ? [_ ?]|]. intros i d Hd Hi.
  destruct (Get_next st {| g_key := k; g_Index := start; g_Limit := 0; KeysOnly := false |} l _ _ Hok Hs ltac:(done) HG Hd Hi) as [Hin|[Hne Hlt]]; [left; by rewrite Hmap|]. right. split.
  - intros H0. rewrite H0 in Hmap. by destruct l.
  - apply List.Forall_map with (f := StreamIndex) (P := fun j => j < i). rewrite Hmap. by apply Forall_forall.
Qed.

(** * The source *)
Context (T : Z).
Definition source_inv (s : storageSource) : Prop :=
  ss_st s = st /\ ss_key s = k /\ ss_terminalIndex s = T /\ -1 <= ss_lastIndex s < 2 ^ 62 /\ (ss_buf s <> [] -> run_of (ss_lastIndex s + 1) (ss_buf s)).
(** Whether the archive includes an index. *)
Definition wanted (i : Z) : Prop := T < 0 \/ i <= T.

Lemma pop_spec s : source_inv s -> run_of (ss_lastIndex s + 1) (ss_buf s) -> exists le s', pop_entry s = (le, match le with None => Some SrcEOF | _ => None end, s') /\
  match le with
  | None => ss_lastIndex s' = ss_lastIndex s /\ ss_logEntryCount s' = ss_logEntryCount s /\ forall i d, stored st k i d -> ss_lastIndex s < i -> ~ wanted i
  | Some le => source_inv s' /\ ss_lastIndex s' = StreamIndex le /\ ss_lastIndex s < StreamIndex le /\ ss_logEntryCount s' = i64 (ss_logEntryCount s + 1) /\
      stored_entry le /\ wanted (StreamIndex le) /\ forall i d, stored st k i d -> ss_lastIndex s < i -> StreamIndex le <= i
  end.
Proof.
  intros (I1 & I2 & I3 & I4 & _) Hrun. unfold pop_entry, wanted. destruct (ss_buf s) as [|le buf] eqn:Eb.
  - eexists None, s. split; [done|]. split; [done|]. split; [done|]. intros i d Hd Hi _. destruct Hrun as (_ & _ & _ & H4).
    by destruct (H4 i d Hd ltac:(lia)) as [?%elem_of_nil|[? _]].
  - pose proof Hrun as (H1 & H2 & H3 & H4). apply Forall_cons in H1 as [Hle H1]. apply Forall_cons in H3 as [H3 _].
    pose proof (stored_entry_range _ Hle) as Hr. rewrite i64_small by (unfold in_i64; lia). cbn [ss_set_buf ss_terminalIndex ss_st ss_key ss_logEntryCount]. rewrite I3.
    assert (Hmin : forall i d, stored st k i d -> ss_lastIndex s < i -> StreamIndex le <= i).
    { intros i d Hd Hi. apply Sorted_StronglySorted in H2; [|intros ???; lia]. cbn in H2. apply StronglySorted_inv in H2 as [_ Hf].
      destruct (H4 i d Hd ltac:(lia)) as [Hin|[_ Hall]].
      - cbn in Hin. apply elem_of_cons in Hin as [->|Hin]; [lia|]. apply (proj1 (Forall_forall _ _) Hf) in Hin. lia.
      - apply Forall_cons in Hall as [? _]. lia. }
    match goal with |- context [(Some le, None, ?x)] => set (s' := x) end.
    assert (Hinv : source_inv s').
    { split; [done|]. split; [done|]. split; [done|]. split; [cbn; lia|]. cbn. intros Hne. by destruct (run_of_tail _ _ _ Hrun). }
    destruct ((0 <=? T) && (T <? StreamIndex le)) eqn:Ew.
    + eexists None, _. split; [done|]. split; [done|]. split; [done|]. intros i d Hd Hi. specialize (Hmin i d Hd Hi). lia.
    + exists (Some le), s'. split; [done|]. split; [done|]. split; [done|]. split; [lia|]. split; [done|]. split; [done|].
      split; [|done]. apply andb_false_iff in Ew. rewrite Z.leb_gt, Z.ltb_ge in Ew. lia.
Qed.
Lemma next_spec s : source_inv s -> exists le s', NextLogEntry s = (le, match le with None => Some SrcEOF | _ => None end, s') /\
  match le with
  | None => ss_lastIndex s' = ss_lastIndex s /\ ss_logEntryCount s' = ss_logEntryCount s /\ forall i d, stored st k i d -> ss_lastIndex s < i -> ~ wanted i
  | Some le => source_inv s' /\ ss_lastIndex s' = StreamIndex le /\ ss_lastIndex s < StreamIndex le /\ ss_logEntryCount s' = i64 (ss_logEntryCount s + 1) /\
      stored_entry le /\ wanted (StreamIndex le) /\ forall i d, stored st k i d -> ss_lastIndex s < i -> StreamIndex le <= i
  end.
Proof.
  intros Hs. pose proof Hs as (I1 & I2 & I3 & I4 & I5). unfold NextLogEntry. destruct (ss_buf s) as [|x buf] eqn:Eb.
  2: { apply pop_spec; [done|]. rewrite Eb in *. by apply I5. }
  unfold bufferEntries. rewrite i64_small by (unfold in_i64; lia). rewrite I1, I2, Eb.
  destruct (Get st _) as [es err] eqn:HG. destruct (Get_run (ss_lastIndex s + 1) es err ltac:(lia) HG) as (-> & Hall & Hrun).
  destruct (buffer_loop_prefix es 0 [] Hall) as (les & r & E & H1 & H2 & rest & H3). rewrite E. cbn [app].
  assert (Hr : run_of (ss_lastIndex s + 1) les).
  { destruct les as [|le les]; [|by apply (run_of_prefix _ _ rest); [rewrite <-H3|]].
    destruct es as [|e es]; [exact Hrun|by destruct (H1 ltac:(done))]. }
  destruct r; (apply (pop_spec (ss_set_buf s les)); [|done]); (split; [done|]; split; [done|]; split; [done|]; split; [done|]; by intros _).
Qed.

(** The source drains to all that is wanted of the stream, in order. *)
Lemma source_drains b : (forall i d, stored st k i d -> i <= b) -> forall s, source_inv s -> exists n les s',
  drains NextLogEntry n s les None s' /\ n = S (length les) /\ Forall (fun le => stored_entry le /\ wanted (StreamIndex le) /\ ss_lastIndex s < StreamIndex le) les /\
  Sorted Z.lt (map StreamIndex les) /\ (forall i d, stored st k i d -> ss_lastIndex s < i -> wanted i -> i ∈ map StreamIndex les) /\
  ss_lastIndex s' = match last les with Some le => StreamIndex le | None => ss_lastIndex s end /\
  (0 <= ss_logEntryCount s -> ss_logEntryCount s + Z.of_nat (length les) < 2 ^ 63 -> ss_logEntryCount s' = ss_logEntryCount s + Z.of_nat (length les)).
Proof.
  intros Hb s. remember (Z.to_nat (b - ss_lastIndex s)) as r eqn:Hr. revert s Hr. induction r as [r IH] using (well_founded_induction lt_wf). intros s -> Hs.
  destruct (next_spec s Hs) as (le & s1 & E & Hm). destruct le as [le|].
  - destruct Hm as (N1 & N2 & N3 & N4 & N5 & N6 & N7). assert (StreamIndex le <= b) by (destruct N5 as (d & Hd & _); by eapply Hb).
    destruct (IH (Z.to_nat (b - ss_lastIndex s1)) ltac:(lia) s1 eq_refl N1) as (n & les & s' & D1 & -> & D2 & D3 & D4 & D5 & D6).
    exists (S (S (length les))), (le :: les), s'. split; [by eapply drains_entry|]. split; [done|]. split; [|split; [|split; [|split]]].
    + constructor; [done|]. eapply Forall_impl; [exact D2|]. cbn. intros x (? & ? & ?). split; [done|]. split; [done|lia].
    + cbn. constructor; [done|]. destruct les as [|y les]; constructor. apply Forall_cons in D2 as [(_ & _ & ?) _]. lia.
    + intros i d Hd Hi Hw. cbn. apply elem_of_cons. specialize (N7 i d Hd Hi). destruct (decide (i = StreamIndex le)) as [->|]; [by left|right].
      apply (D4 i d Hd); [lia|done].
    + rewrite D5. destruct les as [|y les]; [done|]. change (last (le :: y :: les)) with (last (y :: les)).
      destruct (last (y :: les)) eqn:El; [done|]. by apply last_None in El.
    + intros H0 H1. cbn [length] in *. rewrite D6; rewrite N4, i64_small by (unfold in_i64; lia); lia.
  - destruct Hm as (N1 & N2 & N3). exists 1%nat, [], s1. split; [by constructor|]. split; [done|]. split; [done|]. split; [constructor|].
    split; [|split; [done|cbn; lia]]. intros i d Hd Hi Hw. by destruct (N3 i d Hd Hi).
Qed.
End Source.

(** * Streams without gaps *)
Lemma sorted_is_seq a m l : Sorted Z.lt l -> Forall (fun x => a <= x <= m) l ->
  (forall i, a <= i <= m -> i ∈ l \/ l <> [] /\ Forall (fun j => j < i) l) -> l = seqZ a (Z.of_nat (length l)).
Proof.
  revert a. induction l as [|x l IH]; intros a Hs Hf Hc; [done|]. apply Forall_cons in Hf as [Hx Hf].
  apply Sorted_StronglySorted in Hs; [|intros ???; lia]. apply StronglySorted_inv in Hs as [Hs Hlt].
  assert (x = a) as ->.
  { destruct (decide (x = a)); [done|]. destruct (Hc a ltac:(lia)) as [Hin|[_ Hall]].
    - apply elem_of_cons in Hin as [->|Hin]; [done|]. apply (proj1 (Forall_forall _ _) Hlt) in Hin. lia.
    - apply Forall_cons in Hall as [? _]. lia. }
  destruct l as [|y l]; [done|]. remember (y :: l) as l' eqn:El. cbn [length]. rewrite (seqZ_cons a) by lia. f_equal. rewrite (IH (Z.succ a)) at 1.
  - f_equal. lia.
  - by apply StronglySorted_Sorted.
  - apply Forall_forall. intros z Hz. pose proof (proj1 (Forall_forall _ _) Hlt z Hz). pose proof (proj1 (Forall_forall _ _) Hf z Hz). cbn in *. lia.
  - intros i Hi. destruct (Hc i ltac:(lia)) as [Hin|[_ Hall]].
    + apply elem_of_cons in Hin as [->|Hin]; [lia|by left].
    + apply Forall_cons in Hall as [_ Hall]. right. split; [by subst|done].
Qed.

Section Contiguous.
Context {LS : LogStore} {LL : LogStoreLaws LS} {LC : LogStoreComplete LS} {EC : EntryCodec}.
Context (st : LStore) (k : streamKey) (raw : list LogEntry).
(** The storage holds exactly the entries [raw] of the stream, from index zero on. *)
Definition holds_stream : Prop :=
  (forall i d, stored st k i d -> 0 <= i /\ exists le, raw !! Z.to_nat i = Some le /\ UnmarshalEntry d = Some le) /\
  forall n le, raw !! n = Some le -> StreamIndex le = Z.of_nat n /\ exists d, stored st k (Z.of_nat n) d.
Context (Hread : reads_well st k) (Hraw : holds_stream) (Hlen : Z.of_nat (length raw) < 2 ^ 62).

Lemma holds_good : entries_good st k.
Proof.
  intros i d Hd. destruct Hraw as [H1 H2]. destruct (H1 _ _ Hd) as (Hi & le & Hl & Hu). pose proof (lookup_lt_Some _ _ _ Hl).
  split; [lia|]. exists le. split; [done|]. destruct (H2 _ _ Hl) as [-> _]. lia.
Qed.
Lemma stored_entry_raw le : stored_entry st k le -> 0 <= StreamIndex le /\ raw !! Z.to_nat (StreamIndex le) = Some le.
Proof. intros (d & Hd & Hu). destruct Hraw as [H1 _]. destruct (H1 _ _ Hd) as (Hi & le' & Hl & Hu'). by simplify_eq. Qed.
Lemma raw_stored n : (n < length raw)%nat -> exists d, stored st k (Z.of_nat n) d.
Proof. intros H. destruct (lookup_lt_is_Some_2 raw n H) as [le Hle]. destruct Hraw as [_ H2]. by destruct (H2 _ _ Hle). Qed.

(** The last index of the archive. *)
Definition archived_upto (T : Z) : nat := if T <? 0 then length raw else Nat.min (length raw) (Z.to_nat (T + 1)).

(** All the entries up to the terminal index come out of the source. *)
Lemma contiguous_drains T sa : sa_key sa = k -> sa_terminalIndex sa = T -> exists s',
  drains NextLogEntry (S (archived_upto T)) (start_source st sa) (take (archived_upto T) raw) None s' /\
  ss_lastIndex s' = Z.of_nat (archived_upto T) - 1 /\ ss_logEntryCount s' = Z.of_nat (archived_upto T).
Proof.
  intros Hk Ht. destruct Hread as [Hok _]. destruct (stored_bound st k Hok) as [b Hb].
  assert (Hinv : source_inv st k T (start_source st sa)) by (repeat split; cbn; try done; lia).
  destruct (source_drains st k Hread holds_good T b Hb _ Hinv) as (n & les & s' & D1 & -> & D2 & D3 & D4 & D5 & D6).
  cbn [start_source ss_lastIndex ss_logEntryCount] in *.
  set (N := archived_upto T). assert (HN : forall i, 0 <= i -> (wanted T i /\ i < Z.of_nat (length raw)) <-> i < Z.of_nat N).
  { intros i Hi. unfold N, archived_upto, wanted. destruct (Z.ltb_spec T 0); lia. }
  assert (Hseq : map StreamIndex les = seqZ 0 (Z.of_nat (length (map StreamIndex les)))).
  { apply (sorted_is_seq 0 (Z.of_nat N - 1)); [done| |].
    - apply List.Forall_map. eapply Forall_impl; [exact D2|]. cbn. intros le (Hse & Hw & _). destruct (stored_entry_raw _ Hse) as [H0 Hl].
      pose proof (lookup_lt_Some _ _ _ Hl). assert (StreamIndex le < Z.of_nat N) by (apply HN; [lia|]; split; [done|lia]). lia.
    - intros i Hi. left. assert (wanted T i /\ i < Z.of_nat (length raw)) as [Hw Hir] by (apply HN; lia).
      destruct (raw_stored (Z.to_nat i) ltac:(lia)) as [d Hd]. rewrite Z2Nat.id in Hd by lia. apply (D4 i d Hd); [lia|done]. }
  assert (Hles : les = take N raw).
  { assert (HlN : length les = N).
    { rewrite length_map in Hseq. destruct (Nat.lt_trichotomy (length les) N) as [Hlt|[?|Hgt]]; [|done|].
      - assert (Hi : wanted T (Z.of_nat (length les)) /\ Z.of_nat (length les) < Z.of_nat (length raw)) by (apply HN; lia). destruct Hi as [Hw Hir].
        destruct (raw_stored (length les) ltac:(lia)) as [d Hd]. pose proof (D4 _ d Hd ltac:(lia) Hw) as Hin. rewrite Hseq, elem_of_seqZ in Hin. lia.
      - assert (Hin : Z.of_nat N ∈ map StreamIndex les) by (rewrite Hseq; apply elem_of_seqZ; lia).
        apply list_elem_of_fmap in Hin as (le & Hi & Hle). pose proof (proj1 (Forall_forall _ _) D2 le Hle) as (Hse & Hw & _).
        destruct (stored_entry_raw _ Hse) as [H0 Hl]. pose proof (lookup_lt_Some _ _ _ Hl). destruct (HN (StreamIndex le) H0) as [HN' _].
        specialize (HN' ltac:(split; [done|lia])). lia. }
    apply list_eq. intros i. destruct (les !! i) as [le|] eqn:Hi.
    - pose proof (lookup_lt_Some _ _ _ Hi) as Hlt. rewrite lookup_take, decide_True by lia.
      pose proof (proj1 (Forall_forall _ _) D2 le (list_elem_of_lookup_2 _ _ _ Hi)) as (Hse & _ & _). destruct (stored_entry_raw _ Hse) as [H0 Hl].
      assert (Hidx : StreamIndex le = Z.of_nat i).
      { assert (E : map StreamIndex les !! i = Some (StreamIndex le)) by (by rewrite list_lookup_fmap, Hi).
        rewrite Hseq, length_map in E. apply lookup_seqZ in E as [E _]. lia. }
      rewrite Hidx, Nat2Z.id in Hl. by rewrite Hl.
    - symmetry. apply lookup_ge_None_2. apply lookup_ge_None_1 in Hi. rewrite length_take. lia. }
  assert (HNl : (N <= length raw)%nat) by (unfold N, archived_upto; destruct (T <? 0); lia).
  assert (Hll : length les = N) by (rewrite Hles, length_take; lia).
  exists s'. rewrite Hll in D1. rewrite <-Hles. split; [done|]. split.
  - rewrite D5. destruct (last les) as [le|] eqn:El.
    + rewrite last_lookup in El. assert (Hl : take N raw !! Nat.pred (length les) = Some le) by by rewrite <-Hles.
      pose proof (lookup_lt_Some _ _ _ El). rewrite lookup_take, decide_True in Hl by lia. destruct Hraw as [_ H2]. destruct (H2 _ _ Hl) as [-> _]. lia.
    + apply last_None in El. rewrite El in Hll. cbn in Hll. lia.
  - rewrite D6; [lia|lia|lia].
Qed.

(** The check passes, also when the stream ends before its terminal index. *)
Lemma check_loop_ok T es : forall n, 0 <= n <= T -> n + Z.of_nat (length es) < 2 ^ 63 -> map e_index es = seqZ n (Z.of_nat (length es)) ->
  exists b, check_loop es n T = Ok b.
Proof.
  induction es as [|e es IH]; intros n Hn Hb Hs; cbn [check_loop]; [by exists false|].
  cbn [length map] in Hs, Hb. rewrite seqZ_cons in Hs by lia. injection Hs as He Hs. unfold GetStreamIndex. rewrite He.
  destruct (Z.ltb_spec n 0); [lia|]. rewrite Z.eqb_refl. cbn [negb]. destruct (Z.eqb_spec n T); [by exists true|].
  rewrite i64_small by (unfold in_i64; lia). apply IH; [lia|lia|]. rewrite Hs. feq.
Qed.
Lemma checkComplete_ok T : 0 <= T -> checkComplete st k T = None.
Proof.
  intros HT. unfold checkComplete. destruct (Z.ltb_spec T 0); [lia|].
  destruct (Get st _) as [es err] eqn:HG. destruct Hread as [Hok Hno]. pose proof (Hno _ _ _ _ _ HG) as ->.
  destruct (Get_sound st {| g_key := k; g_Index := 0; g_Limit := 0; KeysOnly := true |} es None Hok ltac:(done) HG) as [Hinc Hall]. cbn in Hall.
  assert (Hr : forall e, e ∈ es -> 0 <= e_index e <= Z.of_nat (length raw) - 1).
  { intros e He. destruct (Hall e He) as (H0 & d & Hd & _). destruct Hraw as [H1 _]. destruct (H1 _ _ Hd) as (_ & le & Hl & _).
    pose proof (lookup_lt_Some _ _ _ Hl). lia. }
  assert (Hs : map e_index es = seqZ 0 (Z.of_nat (length es))).
  { rewrite (sorted_is_seq 0 (Z.of_nat (length raw) - 1) (map e_index es)) at 1.
    - by rewrite length_map.
    - done.
    - apply List.Forall_map. apply Forall_forall. intros e He. by apply Hr.
    - intros i Hi. destruct (raw_stored (Z.to_nat i) ltac:(lia)) as [d Hd]. rewrite Z2Nat.id in Hd by lia.
      destruct (Get_next st {| g_key := k; g_Index := 0; g_Limit := 0; KeysOnly := true |} es i d Hok ltac:(done) ltac:(done) HG Hd ltac:(cbn; lia)) as [Hin|[Hne Hlt]];
        [by left|right]. split; [by destruct es|]. by apply Forall_forall. }
  assert (Hl : (length es <= length raw)%nat).
  { destruct (decide (length es = 0%nat)); [lia|]. assert (Hin : Z.of_nat (length es) - 1 ∈ map e_index es) by (rewrite Hs; apply elem_of_seqZ; lia).
    apply list_elem_of_fmap in Hin as (e & Hi & He). specialize (Hr e He). lia. }
  destruct (check_loop_ok T es 0 ltac:(lia) ltac:(lia) Hs) as [b ->]. by destruct b.
Qed.
End Contiguous.

(** * A stage that works *)
Record gs_works (g : GSEnv) : Prop := {
  gw_new k : new_fails g k = false; gw_write k : write_answers g k = []; gw_close k : close_fails g k = false; gw_rename k : rename_fails g k = false
}.

Section Stage.
Context {LS : LogStore} {LL : LogStoreLaws LS} {LC : LogStoreComplete LS} {SV : Services} {EC : EntryCodec}.
Context (g : GSEnv) (Hg : gs_works g) (set : Settings) (st : LStore) (sa : stagedArchival).

(** The files of an archive. *)
Definition files_of (lf xf df : bytes) (k : Kind) : bytes := match k with KStream => lf | KIndex => xf | KData => df end.
Definition staged_with (sa : stagedArchival) (n : nat) (f : Kind -> bytes) : stagedArchival :=
  {| sa_key := sa_key sa; sa_uid := sa_uid sa; sa_desc := sa_desc sa; sa_data := sa_data sa;
     sa_terminalIndex := Z.of_nat n - 1; sa_logEntryCount := Z.of_nat n; bytesWritten k := if enabled sa k then blen (f k) else 0 |}.
Definition put_staged (gs : GS) (f : Kind -> bytes) (k : Kind) : GS :=
  if negb (enabled sa k) || bool_decide (f k = []) then gs else <[staged_path sa k := f k]> gs.

Lemma close_writers_ok ws : forall gs, (forall k w, (k, w) ∈ ws -> enabled sa k = true) ->
  close_writers g sa false ws false gs = (false, fold_left (fun gs kw => put_staged gs (fun _ => received kw.2) kw.1) ws gs).
Proof.
  induction ws as [|[k w] ws IH]; intros gs Hws; [done|]. cbn [close_writers fold_left fst snd].
  rewrite (gw_close g Hg), andb_false_r. cbn [orb]. rewrite IH by (intros; eapply Hws; by right). do 2 f_equal.
  unfold put_staged. rewrite (Hws k w) by by left. done.
Qed.

Lemma staged_ne k k' : k <> k' -> staged_path sa k <> staged_path sa k'.
Proof. unfold staged_path. congruence. Qed.
Lemma final_ne k k' : k <> k' -> final_path sa k <> final_path sa k'.
Proof. unfold final_path. congruence. Qed.
Lemma put_staged_eq gs f k : enabled sa k = true -> f k <> [] -> put_staged gs f k !! staged_path sa k = Some (f k).
Proof. intros Hk Hne. unfold put_staged. rewrite Hk, bool_decide_eq_false_2 by done. apply lookup_insert_eq. Qed.
Lemma put_staged_ne gs f k k' : k <> k' -> put_staged gs f k !! staged_path sa k' = gs !! staged_path sa k'.
Proof. intros H. unfold put_staged. case_match; [done|]. rewrite lookup_insert_ne; [done|by apply staged_ne]. Qed.
Lemma staged_final k k' : staged_path sa k <> final_path sa k'.
Proof. done. Qed.

(** Finalizing moves the staged files to their places. *)
Lemma finalize_ok n f gs k : (forall k, enabled sa k = true -> f k <> [] -> gs !! staged_path sa k = Some (f k)) ->
  enabled sa k = true -> f k <> [] ->
  cleanup (staged_with sa n f) (fold_left (rename_file g (staged_with sa n f)) kinds gs) !! final_path sa k = Some (f k).
Proof.
  intros Hgs Hk Hne. unfold cleanup. cbn [enabled staged_with sa_data].
  assert (Hdel : forall ks (gs : GS), fold_left (fun (gs : GS) k0 => delete (staged_path (staged_with sa n f) k0) gs) ks gs !! final_path sa k = gs !! final_path sa k).
  { induction ks as [|k0 ks IH]; intros gs'; [done|]. cbn [fold_left]. rewrite IH, lookup_delete_ne; [done|]. apply staged_final. }
  rewrite Hdel. clear Hdel.
  set (sa' := staged_with sa n f). assert (He : forall k, enabled sa' k = enabled sa k) by by intros [].
  (* One renaming. *)
  assert (Hone : forall ks (gs : GS), NoDup ks -> (forall k, k ∈ ks -> enabled sa k = true -> f k <> [] -> gs !! staged_path sa k = Some (f k)) ->
    (k ∈ ks -> fold_left (rename_file g sa') ks gs !! final_path sa k = Some (f k)) /\
    (k ∉ ks -> fold_left (rename_file g sa') ks gs !! final_path sa k = gs !! final_path sa k)).
  { induction ks as [|k0 ks IH]; intros gs' Hnd Hs; [split; [by intros ?%elem_of_nil|done]|]. apply NoDup_cons in Hnd as [Hk0 Hnd].
    cbn [fold_left]. assert (Hst : forall k, k ∈ ks -> enabled sa k = true -> f k <> [] -> rename_file g sa' gs' k0 !! staged_path sa k = Some (f k)).
    { intros k1 Hk1 H1 H2. unfold rename_file. destruct (_ || _); [apply Hs; [by right|done..]|].
      destruct (gs' !! staged_path sa' k0); [|apply Hs; [by right|done..]].
      rewrite lookup_insert_ne by done. rewrite lookup_delete_ne; [apply Hs; [by right|done..]|]. apply staged_ne. by intros ->. }
    destruct (IH _ Hnd Hst) as [I1 I2]. split.
    - intros [->|Hin]%elem_of_cons; [|by apply I1]. rewrite I2 by done. unfold rename_file.
      rewrite He, Hk, (gw_rename g Hg). cbn [bytesWritten sa' staged_with negb orb]. rewrite Hk, orb_false_r.
      assert (blen (f k0) =? 0 = false) as -> by (apply Z.eqb_neq; unfold blen; destruct (f k0); [done|cbn; lia]).
      change (staged_path sa' k0) with (staged_path sa k0). rewrite Hs; [|by left|done..]. apply lookup_insert_eq.
    - intros Hnin. apply not_elem_of_cons in Hnin as [Hne0 Hnin]. rewrite I2 by done. unfold rename_file. destruct (_ || _); [done|].
      destruct (gs' !! staged_path sa' k0); [|done]. rewrite lookup_insert_ne by (by apply final_ne). by rewrite lookup_delete_ne. }
  apply (Hone kinds gs).
  - by repeat constructor; set_solver.
  - intros; by apply Hgs.
  - destruct k; unfold kinds; set_solver.
Qed.
Lemma finalize_never_fails n f : finalize_fails g (staged_with sa n f) = false.
Proof. unfold finalize_fails. cbn. by rewrite !(gw_rename g Hg), !andb_false_r. Qed.

(** The stage of a stream without gaps. *)
Context (raw : list LogEntry) (Hread : reads_well st (sa_key sa)) (Hraw : holds_stream st (sa_key sa) raw) (Hlen : Z.of_nat (length raw) < 2 ^ 62).
Context (d : bytes) (fs : list bytes).
Notation N := (archived_upto raw (sa_terminalIndex sa)).
Notation les := (normalize_all safe_start (take N raw)).
Lemma stage_ok fuel gs : MarshalDesc (sa_desc sa) = Some d -> Forall2 (fun le f => MarshalEntry le = Some f) les fs ->
  frame_offset d fs (length fs) < 2 ^ 63 -> Forall (fun le => in_u64 (PrefixIndex le) /\ in_u64 (StreamIndex le)) les ->
  (forall ix, exists b, MarshalIndex ix = Some b /\ b <> []) -> (S N < fuel)%nat -> (length (log_raw les) < fuel)%nat ->
  exists b gs' i ks, stage fuel g set st sa gs = Some (None, staged_with sa N (files_of (file_upto d fs (length les)) b (log_raw les)), gs') /\
    index_inv (with_default (IndexRanges set)) (sa_desc sa) d les fs (length les) i ks /\ MarshalIndex (final_index i) = Some b /\ b <> [] /\
    forall k, enabled sa k = true -> files_of (file_upto d fs (length les)) b (log_raw les) k <> [] ->
      gs' !! staged_path sa k = Some (files_of (file_upto d fs (length les)) b (log_raw les) k).
Proof.
  intros Hd Hfs Hsize Hu Hix Hf1 Hf2.
  destruct (contiguous_drains st (sa_key sa) raw Hread Hraw Hlen (sa_terminalIndex sa) sa eq_refl eq_refl) as (ss & Hdr & Hli & Hlc).
  destruct (Archive_ok NextLogEntry (IndexRanges set) (sa_desc sa) d fs _ _ _ _ fuel (sa_data sa) Hdr Hd Hfs Hsize Hu
    (fun ix => let '(ex_intro _ b (conj H _)) := Hix ix in ex_intro _ b H) Hf1 Hf2) as (i & ks & b & Hi & Hb & E).
  assert (Hbne : b <> []) by (destruct (Hix (final_index i)) as (b' & Hb' & ?); by simplify_eq).
  set (f := files_of (file_upto d fs (length les)) b (log_raw les)).
  eexists b, _, i, ks. unfold stage, first_new_failure. rewrite !(gw_new g Hg), andb_false_r.
  unfold manifest_writers. rewrite !(gw_write g Hg). unfold fresh in E. rewrite E. cbn -[close_writers put_staged].
  rewrite close_writers_ok.
  2: { intros k w. unfold open_writers. cbn. destruct (sa_data sa) eqn:Hdata; cbn; intros Hin;
       repeat (apply elem_of_cons in Hin as [[= -> ->]|Hin]; [done|]); by apply elem_of_nil in Hin. }
  split; [|split; [done|split; [done|split; [done|]]]].
  - do 3 f_equal. unfold staged_with. rewrite Hli, Hlc. f_equal. apply functional_extensionality. intros []; cbn; try done. by destruct (sa_data sa).
  - intros k Hk Hne. fold f in Hne |- *. unfold open_writers. cbn -[f put_staged file_upto].
    assert (Hdata : k = KData -> sa_data sa = true) by (intros ->; exact Hk).
    destruct k; [| |rewrite Hdata by done]; try destruct (sa_data sa); cbn -[f put_staged file_upto];
      repeat first [apply put_staged_eq; done|rewrite put_staged_ne by done].
Qed.
End Stage.
