(* ===== verification/LogArchivistTheorems.v ===== *)
(** Archives and the archivist: the theorems.  An archive holds the entries of its
    source in order, its index is dense and its offsets are where readers can
    start; a task that finds a stream without gaps archives all of it; and whatever
    fails, the coordinator's store stays and a task that is still needed stays too. *)
From stdpp Require Import fin_maps sorting.
From S2P Require Import Prelude RecordIO LogEntry TimedBuffer Parsers ParserSpec StreamName LogStream Renderer.
From S2P Require Import LogStorage LogCoord LogArchive LogArchiveFacts LogArchivist LogArchivistFacts LogCoordTheorems.
Local Open Scope Z_scope.

(** * Entries of a run *)
Module ArchiveToy.
Definition entry (i t : Z) : LogEntry := {| TimeOffset := NewDuration t; PrefixIndex := i; StreamIndex := i; LogEntry.Sequence := i; Content := Binary i [97 + i] |}.
Definition marshal (le : LogEntry) : option bytes := Some [StreamIndex le; DurationFromProto (TimeOffset le)].
#[export] Instance codec : EntryCodec := {|
  MarshalEntry := marshal;
  UnmarshalEntry b := match b with [i; t] => Some (entry i t) | _ => None end;
  MarshalIndex ix := Some [ix_LogEntryCount ix];
  entrySize _ := 2 |}.
(** The second one's clock is behind. *)
Definition raw : list LogEntry := [entry 0 7; entry 1 5; entry 2 9].
Definition sorted_raw : list LogEntry := normalize_all safe_start raw.
Definition frames : list bytes := [[0; 7]; [1; 7]; [2; 9]].
Definition next (l : list LogEntry) : option LogEntry * option SrcError * list LogEntry :=
  match l with [] => (None, Some SrcEOF, []) | le :: l => (Some le, None, l) end.
Lemma raw_drains : drains next 4 raw raw None [].
Proof. repeat (eapply drains_entry; [done|]). by constructor. Qed.
Lemma raw_frames : Forall2 (fun le f => MarshalEntry le = Some f) sorted_raw frames.
Proof. repeat constructor. Qed.
Definition small_index : Manifest := {| StreamIndexRange := 2; PrefixIndexRange := 0; ByteRange := 0 |}.
End ArchiveToy.

(** Indices of a width. *)
Definition indices_fit (le : LogEntry) : Prop := in_u64 (PrefixIndex le) /\ in_u64 (StreamIndex le).
Lemma normalized_fit raw : Forall indices_fit raw -> Forall indices_fit (normalize_all safe_start raw).
Proof.
  intros H.
  assert (Hm : Forall indices_fit (map timeless raw)) by (apply List.Forall_map; eapply Forall_impl; [exact H|]; by intros []).
  pose proof (normalize_all_sublist raw safe_start) as Hs.
  assert (Hn : Forall indices_fit (map timeless (normalize_all safe_start raw))) by (apply Forall_forall; intros le Hle; exact (proj1 (Forall_forall _ _) Hm _ (elem_of_sublist _ _ _ Hle Hs))).
  apply (proj1 (List.Forall_map timeless indices_fit _)) in Hn. eapply Forall_impl; [exact Hn|]. by intros [].
Qed.

(** * Archives *)
Section Files.
Context {SV : Services} {EC : EntryCodec} {T : Type} (next : T -> option LogEntry * option SrcError * T).
Context (m : Manifest) (desc : LogStreamDescriptor) (d : bytes) (fs : list bytes) (raw : list LogEntry).
Notation les := (normalize_all safe_start raw).
Hypothesis Hd : MarshalDesc desc = Some d.
Hypothesis Hfs : Forall2 (fun le f => MarshalEntry le = Some f) les fs.
Hypothesis Hsize : frame_offset d fs (length fs) < 2 ^ 63.
Hypothesis Hfit : Forall indices_fit raw.
Hypothesis Hix : forall ix, is_Some (MarshalIndex ix).

Lemma archived_index n x x' fuel (data : bool) : drains next n x raw None x' -> (n < fuel)%nat -> (length (log_raw les) < fuel)%nat ->
  exists i ks b, MarshalIndex (final_index i) = Some b /\
    Archive next fuel m desc x {| LogWriter := Some fresh; IndexWriter := Some fresh; DataWriter := if data then Some fresh else None |} =
    Some ([], {| LogWriter := Some (written (file_upto d fs (length les))); IndexWriter := Some (written b);
      DataWriter := if data then Some (written (log_raw les)) else None |}, x') /\
    Forall2 (indexed_at d les fs) ks (ix_Entries (final_index i)) /\ StronglySorted lt ks /\
    (les <> [] -> head ks = Some 0%nat /\ last ks = Some (length les - 1)%nat) /\
    (forall k b, les !! k = Some b -> exists j a, j ∈ ks /\ les !! j = Some a /\ (j <= k)%nat /\ close_by (with_default m) a b) /\
    ix_LogEntryCount (final_index i) = Z.of_nat (length les).
Proof.
  intros Hdr Hf1 Hf2. pose proof (normalized_fit raw Hfit) as Hu.
  destruct (Archive_ok next m desc d fs n x raw x' fuel data Hdr Hd Hfs Hsize Hu Hix Hf1 Hf2) as (i & ks & b & Hi & Hb & HA).
  destruct (final_index_spec (with_default m) desc d les fs Hd Hfs Hsize (normalize_all_before raw) Hu i ks Hi) as (ks' & F). by exists i, ks', b.
Qed.
End Files.
(** C20. What an archive holds: from a source that ends well, [Archive] writes the
    descriptor and the entries as frames, the data as the renderer gives it, and an
    index whose entries are frames of the log at their offsets, in order, the first
    and the last one among them.  The entries are those of the source that are not
    out of order, with their clocks moved forward only as far as their order asks,
    all of them when the source is in order; and from every offset on the file
    reads as the entries from there on. *)
Theorem archive_exact {SV : Services} {EC : EntryCodec} {T} next m desc d fs n (x : T) raw x' fuel (data : bool) :
  let les := normalize_all safe_start raw in
  drains next n x raw None x' -> MarshalDesc desc = Some d -> Forall2 (fun le f => MarshalEntry le = Some f) les fs ->
  frame_offset d fs (length fs) < 2 ^ 63 -> Forall indices_fit raw -> (forall ix, is_Some (MarshalIndex ix)) ->
  (n < fuel)%nat -> (length (log_raw les) < fuel)%nat ->
  (exists i ks b, MarshalIndex (final_index i) = Some b /\
    Archive next fuel m desc x {| LogWriter := Some fresh; IndexWriter := Some fresh; DataWriter := if data then Some fresh else None |} =
    Some ([], {| LogWriter := Some (written (file_upto d fs (length les))); IndexWriter := Some (written b);
      DataWriter := if data then Some (written (log_raw les)) else None |}, x') /\
    Forall2 (indexed_at d les fs) ks (ix_Entries (final_index i)) /\ StronglySorted lt ks /\
    (les <> [] -> head ks = Some 0%nat /\ last ks = Some (length les - 1)%nat) /\ ix_LogEntryCount (final_index i) = Z.of_nat (length les)) /\
  Sorted in_order les /\ sublist (map timeless les) (map timeless raw) /\
  (Forall (after_seen safe_start) raw -> StronglySorted comes_before raw -> map timeless les = map timeless raw) /\
  forall k, (k <= length fs)%nat -> Split (drop (Z.to_nat (frame_offset d fs k)) (file_upto d fs (length fs))) = Some (drop k fs, None).
Proof.
  intros les Hdr Hd Hfs Hsize Hfit Hix Hf1 Hf2. split; [|split; [|split; [|split]]].
  - destruct (archived_index next m desc d fs raw Hd Hfs Hsize Hfit Hix n x x' fuel data Hdr Hf1 Hf2) as (i & ks & b & A1 & A2 & A3 & A4 & A5 & _ & A6).
    by exists i, ks, b.
  - by apply normalize_all_order.
  - apply normalize_all_sublist.
  - by apply normalize_all_keeps.
  - by apply read_from_offset.
Qed.
#[local] Existing Instance CoordToy.services.
Lemma archive_exact_witness : Split (drop 5 (file_upto [1] ArchiveToy.frames 3)) = Some ([[1; 7]; [2; 9]], None) /\
  map entry_offset ArchiveToy.sorted_raw = [7; 7; 9].
Proof.
  split; [|vm_compute; reflexivity].
  destruct (archive_exact (SV := CoordToy.services) (EC := ArchiveToy.codec) ArchiveToy.next ArchiveToy.small_index CoordToy.desc [1] ArchiveToy.frames 4 ArchiveToy.raw ArchiveToy.raw [] 100 true
    ArchiveToy.raw_drains eq_refl ArchiveToy.raw_frames) as (_ & _ & _ & _ & H);
    [reflexivity|repeat constructor; discriminate|intros ix; by eexists|cbn; lia|vm_compute; lia|]. exact (H 1%nat ltac:(cbn; lia)).
Defined.

(** C21. How far a reader has to go: every entry of the archive is reached from an
    entry of the index that is no later and lies within the ranges of the manifest,
    in stream and in prefix indices; a manifest that gives no range has the range one
    of stream indices. *)
Theorem archive_index_bounds {SV : Services} {EC : EntryCodec} {T} next m desc d fs n (x : T) raw x' fuel (data : bool) k b :
  let les := normalize_all safe_start raw in
  drains next n x raw None x' -> MarshalDesc desc = Some d -> Forall2 (fun le f => MarshalEntry le = Some f) les fs ->
  frame_offset d fs (length fs) < 2 ^ 63 -> Forall indices_fit raw -> (forall ix, is_Some (MarshalIndex ix)) ->
  (n < fuel)%nat -> (length (log_raw les) < fuel)%nat -> les !! k = Some b ->
  exists i w ie j a, MarshalIndex (final_index i) = received <$> IndexWriter w /\
    Archive next fuel m desc x {| LogWriter := Some fresh; IndexWriter := Some fresh; DataWriter := if data then Some fresh else None |} = Some ([], w, x') /\
    ie ∈ ix_Entries (final_index i) /\ les !! j = Some a /\ ie = index_entry a (frame_offset d fs j) /\ (j <= k)%nat /\
    0 <= StreamIndex b - ie_StreamIndex ie /\ 0 <= PrefixIndex b - ie_PrefixIndex ie /\
    (0 < StreamIndexRange (with_default m) -> StreamIndex b - ie_StreamIndex ie < StreamIndexRange (with_default m)) /\
    (0 < PrefixIndexRange (with_default m) -> PrefixIndex b - ie_PrefixIndex ie < PrefixIndexRange (with_default m)).
Proof.
  intros les Hdr Hd Hfs Hsize Hfit Hix Hf1 Hf2 Hb.
  destruct (archived_index next m desc d fs raw Hd Hfs Hsize Hfit Hix n x x' fuel data Hdr Hf1 Hf2) as (i & ks & bx & A1 & A2 & A3 & A4 & _ & A5 & _).
  destruct (A5 k b Hb) as (j & a & Hj & Ha & Hjk & C1 & C2). apply list_elem_of_lookup in Hj as [p Hp].
  destruct (Forall2_lookup_l _ _ _ _ _ A3 Hp) as (ie & Hie & (a' & Ha' & ->)). subst les. simplify_eq.
  pose proof (les_order _ (normalize_all_before raw) j k a b Hjk Ha Hb) as Hord.
  destruct Hord as (O1 & O2 & _). eexists i, _, _, j, a. split; [|split; [exact A2|]]; [exact A1|].
  split; [by eapply list_elem_of_lookup_2|]. cbn. repeat split; try done; lia.
Qed.
Lemma archive_index_bounds_witness : exists ie, ie_StreamIndex ie <= 1 /\ 1 - ie_StreamIndex ie < 2.
Proof.
  destruct (archive_index_bounds (SV := CoordToy.services) (EC := ArchiveToy.codec) ArchiveToy.next ArchiveToy.small_index CoordToy.desc [1] ArchiveToy.frames 4 ArchiveToy.raw ArchiveToy.raw [] 100 true
    1 (set_TimeOffset (ArchiveToy.entry 1 7) (NewDuration 7))
    ArchiveToy.raw_drains eq_refl ArchiveToy.raw_frames) as (i & w & ie & j & a & _ & _ & _ & _ & _ & _ & H1 & _ & H2 & _);
    [reflexivity|repeat constructor; discriminate|intros ix; by eexists|cbn; lia|vm_compute; lia|vm_compute; reflexivity|].
  cbn in H1, H2. exists ie. lia.
Defined.

(** * Tasks *)
Section Tasks.
Context {LS : LogStore} {LL : LogStoreLaws LS} {LC : LogStoreComplete LS} {SV : Services} {EC : EntryCodec}.
Context (BinaryFileExt : LogStreamDescriptor -> bool) (url : GSPath -> bytes).

(** The completeness check is not in the way of a stream without gaps. *)
Lemma check_passes st sa raw (old : bool) : reads_well st (sa_key sa) -> holds_stream st (sa_key sa) raw -> Z.of_nat (length raw) < 2 ^ 62 ->
  old = false \/ 0 <= sa_terminalIndex sa -> (if old then checkComplete st (sa_key sa) (sa_terminalIndex sa) else None) = None.
Proof. intros Hr Hraw Hlen [->|H]; [done|]. destruct old; [|done]. by eapply checkComplete_ok. Qed.

(** The report of an archive that is there. *)
Lemma report_ok e ar c id lst : Normalize (ar_Id ar) = Some id -> ar_IndexUrl ar <> [] -> ar_StreamUrl ar <> [] ->
  fails (archive_env e) OpGetTxn = false -> fails (archive_env e) OpPut = false -> states c !! id = Some lst -> archivalState lst = ArchiveTasked ->
  report e ar c = (true, None, put_state c id (archived_state lst (now (archive_env e)) ar)).
Proof.
  intros Hid Hix Hst Hg Hp Hs Ht. unfold report, ArchiveStream, ArchiveStream_check, ArchiveStream_txn.
  by rewrite Hid, !bool_decide_eq_false_2, Hg, Hs, Ht, Hp by done.
Qed.
(** An archival that failed for good can not be recorded. *)
Lemma failed_report e c id error : report e (failed_request id error) c = (false, Some (Failure false), c).
Proof. unfold report, ArchiveStream, ArchiveStream_check, failed_request. cbn. by destruct (Normalize id). Qed.

(** A task that the checks consume is one that its stream does not wait for. *)
Lemma checks_end e t c er : task_checks e t c = inl er -> er.1 = true -> project_ok e = true ->
  exists ls, LoadStream (load_env e) (t_Id (at_task t)) true c = Ok ls /\
    (st_Purged (l_State ls) = true \/ st_Archived (l_State ls) = true \/ l_ArchivalKey ls <> t_Key (at_task t) /\ l_ArchivalKey ls <> []).
Proof.
  unfold task_checks. intros H He Hp. rewrite Hp in H. cbn [negb] in H.
  destruct (Abs _ <? _); [injection H as <-; done|]. destruct (LoadStream _ _ _ _) as [ls|]; [|by injection H as <-]. exists ls. split; [done|].
  destruct (st_Purged _); [by left|]. destruct (st_Archived _); [by right; left|]. right. right.
  destruct (bool_decide_reflect (l_ArchivalKey ls = t_Key (at_task t))); cbn [negb] in H.
  - by repeat case_match; simplify_eq.
  - destruct (bool_decide_reflect (l_ArchivalKey ls = [])); [by injection H as <-|done].
Qed.

(** What is staged goes. *)
Lemma cleanup_staged sa gs k : enabled sa k = true -> cleanup sa gs !! staged_path sa k = None.
Proof.
  intros Hk. unfold cleanup.
  assert (Hd : forall ks (gs : GS), k ∈ ks \/ gs !! staged_path sa k = None -> fold_left (fun (gs : GS) k => delete (staged_path sa k) gs) ks gs !! staged_path sa k = None).
  { induction ks as [|k0 ks IH]; intros gs0 H; cbn [fold_left]; [by destruct H as [?%elem_of_nil|]|]. apply IH.
    destruct H as [[->|H]%elem_of_cons|H]; [right; apply lookup_delete_eq|by left|]. destruct (decide (k0 = k)) as [->|Hne]; right.
    - apply lookup_delete_eq.
    - rewrite lookup_delete_ne; [done|by apply staged_ne]. }
  apply Hd. left. apply list_elem_of_filter. split; [done|]. unfold kinds. destruct k; set_solver.
Qed.
End Tasks.

(** What a task that meets no failure makes of a stream without gaps. *)
Lemma task_archives_all {LS : LogStore} {LL : LogStoreLaws LS} {LC : LogStoreComplete LS} {SV : Services} {EC : EntryCodec} BinaryFileExt url
    fuel e t st c0 c1 gs ls age set sa raw d fs id lst :
  let N := archived_upto raw (sa_terminalIndex sa) in
  let les := normalize_all safe_start (take N raw) in
  task_checks e t c0 = inr (ls, age) -> a_settings e = Some set -> makeStagedArchival BinaryFileExt (at_Project t) set ls (task_uid t) = Some sa ->
  DurationFromProto (t_CompletePeriod (at_task t)) < age \/ 0 <= sa_terminalIndex sa ->
  reads_well st (sa_key sa) -> holds_stream st (sa_key sa) raw -> Z.of_nat (length raw) < 2 ^ 62 -> gs_works (gs_env e) ->
  MarshalDesc (sa_desc sa) = Some d -> Forall2 (fun le f => MarshalEntry le = Some f) les fs -> frame_offset d fs (length fs) < 2 ^ 63 ->
  Forall indices_fit raw -> (forall ix, exists b, MarshalIndex ix = Some b /\ b <> []) -> (forall p, url p <> []) ->
  (S N < fuel)%nat -> (length (log_raw les) < fuel)%nat ->
  Normalize (t_Id (at_task t)) = Some id -> states c1 !! id = Some lst -> archivalState lst = ArchiveTasked ->
  fails (archive_env e) OpGetTxn = false -> fails (archive_env e) OpPut = false ->
  exists c2 gs' lst' f, archiveTaskImpl BinaryFileExt url fuel e t st c0 c1 gs = Some (true, None, c2, gs') /\
    states c2 = <[id := lst']> (states c1) /\ archivalState lst' = ArchivedComplete /\
    TerminalIndex lst' = Z.of_nat N - 1 /\ ArchiveLogEntryCount lst' = Z.of_nat N /\
    f KStream = file_upto d fs (length les) /\ f KData = log_raw les /\
    ArchiveStreamURL lst' = url (final_path sa KStream) /\ ArchiveStreamSize lst' = blen (f KStream) /\ ArchiveIndexSize lst' = blen (f KIndex) /\
    forall k, enabled sa k = true -> gs' !! staged_path sa k = None /\ (f k <> [] -> gs' !! final_path sa k = Some (f k)).
Proof.
  intros N les Hchk Hset Hsa Hold Hread Hraw Hlen Hgs Hd Hfs Hsize Hfit Hix Hurl Hf1 Hf2 Hid Hst Ht Hg Hp.
  assert (Hu : Forall indices_fit les) by (apply normalized_fit; by apply Forall_take).
  destruct (stage_ok (gs_env e) Hgs set st sa raw Hread Hraw Hlen d fs fuel gs Hd Hfs Hsize Hu Hix Hf1 Hf2) as (b & gs' & i & ks & Es & _ & _ & _ & Hstaged).
  fold N les in Es, Hstaged. set (f := files_of (file_upto d fs (length les)) b (log_raw les)) in *.
  unfold archiveTaskImpl. rewrite Hchk, Hset, Hsa.
  rewrite (check_passes st sa raw) by first [done|destruct Hold; [left; by apply Z.leb_gt|by right]].
  rewrite Es. cbn -[kinds rename_file finalize_fails report cleanup archive_request]. rewrite (finalize_never_fails (gs_env e) Hgs).
  erewrite report_ok; [|exact Hid|apply Hurl|apply Hurl|done..].
  eexists _, _, _, f. split; [done|]. split; [done|].
  assert (HN : Z.of_nat N - 1 <? Z.of_nat N = true) by (apply Z.ltb_lt; lia).
  split; [unfold archivalState; cbn; by rewrite HN|]. do 7 (split; [done|]). intros k Hk. split.
  - apply (cleanup_staged (staged_with sa N f)). by destruct k.
  - intros Hne. by apply (finalize_ok (gs_env e) Hgs sa).
Qed.

(** C18. A task that finds what it needs: the stream has no gaps from index zero on,
    the storages and the coordinator work, and the stream is tasked when the report
    comes.  Then the task is consumed without an error, and the stream is archived as
    complete, with the last index and the number of the entries there are up to its
    terminal index; entries beyond that are left out.  The files have, of these
    entries, those that are not out of order (their indices or sequences go back), up
    to their times, so all of them when none is; the number that is reported counts
    those left out, too.  The files that are not empty are in their places with the
    sizes reported, and nothing stays staged.  That holds also when the stream ends
    before its terminal index. *)
Theorem task_archives {LS : LogStore} {LL : LogStoreLaws LS} {LC : LogStoreComplete LS} {SV : Services} {EC : EntryCodec} BinaryFileExt url
    fuel e t st c0 c1 gs ls age set sa raw d fs id lst :
  let N := archived_upto raw (sa_terminalIndex sa) in
  let les := normalize_all safe_start (take N raw) in
  task_checks e t c0 = inr (ls, age) -> a_settings e = Some set -> makeStagedArchival BinaryFileExt (at_Project t) set ls (task_uid t) = Some sa ->
  DurationFromProto (t_CompletePeriod (at_task t)) < age \/ 0 <= sa_terminalIndex sa ->
  reads_well st (sa_key sa) -> holds_stream st (sa_key sa) raw -> Z.of_nat (length raw) < 2 ^ 62 -> gs_works (gs_env e) ->
  MarshalDesc (sa_desc sa) = Some d -> Forall2 (fun le f => MarshalEntry le = Some f) les fs -> frame_offset d fs (length fs) < 2 ^ 63 ->
  Forall indices_fit raw -> (forall ix, exists b, MarshalIndex ix = Some b /\ b <> []) -> (forall p, url p <> []) ->
  (S N < fuel)%nat -> (length (log_raw les) < fuel)%nat ->
  Normalize (t_Id (at_task t)) = Some id -> states c1 !! id = Some lst -> archivalState lst = ArchiveTasked ->
  fails (archive_env e) OpGetTxn = false -> fails (archive_env e) OpPut = false ->
  (sublist (map timeless les) (map timeless (take N raw)) /\
   (Forall (after_seen safe_start) (take N raw) -> StronglySorted comes_before (take N raw) -> map timeless les = map timeless (take N raw))) /\
  exists c2 gs' lst' f, archiveTaskImpl BinaryFileExt url fuel e t st c0 c1 gs = Some (true, None, c2, gs') /\
    states c2 = <[id := lst']> (states c1) /\ archivalState lst' = ArchivedComplete /\
    TerminalIndex lst' = Z.of_nat N - 1 /\ ArchiveLogEntryCount lst' = Z.of_nat N /\
    f KStream = file_upto d fs (length les) /\ f KData = log_raw les /\
    ArchiveStreamURL lst' = url (final_path sa KStream) /\ ArchiveStreamSize lst' = blen (f KStream) /\ ArchiveIndexSize lst' = blen (f KIndex) /\
    forall k, enabled sa k = true -> gs' !! staged_path sa k = None /\ (f k <> [] -> gs' !! final_path sa k = Some (f k)).
Proof.
  intros N les. intros. split; [split; [apply normalize_all_sublist|by apply normalize_all_keeps]|]. by eapply task_archives_all.
Qed.

(** * A task of the coordinator's stream *)
Module TaskToy.
Import CoordToy.
#[export] Existing Instances ArchiveToy.codec Memory.store Memory.store_laws Memory.store_complete.
(** The stream of the coordinator, which ended at index two, of which two entries came. *)
Definition key : streamKey := ([106], Desc_Path CoordToy.desc).
Definition two : list LogEntry := [ArchiveToy.entry 0 7; ArchiveToy.entry 1 5].
Definition the_logs : Memory.logStream := {| Memory.logs := <[1 := [1; 5]]> (<[0 := [0; 7]]> ∅); Memory.latestIndex := 1 |}.
Definition logs : Memory.Storage :=
  {| Memory.MaxGetCount := 0; Memory.streams := <[key := the_logs]> ∅; Memory.closed := false; Memory.serr := None |}.
Definition tasked : CStore :=
  match RollForward task_env {| c_ID := id; c_SettleDelay := 5000000000; c_CompletePeriod := 60000000000; c_Expiration := 5000001000 |} with_end with
  | Ok c => c | Err _ => with_end end.
Definition the_state : LogStreamState := default (created_state 0 [] 0) (states tasked !! id).
Definition at_time (t : time) : CallEnv := {| now := t; now_txn := t; cfg := cfg env; pcfg := pcfg env; fails _ := false |}.
Definition the_task : Task :=
  {| at_Project := [106]; at_task := default {| t_Id := []; t_Key := []; t_SettleDelay := None; t_CompletePeriod := None; t_DispatchedAt := 0 |} (head (published tasked));
     task_uid := [9] |}.
Definition works : GSEnv := {| new_fails _ := false; write_answers _ := []; close_fails _ := false; rename_fails _ := false |}.
Definition meets : TaskMeets :=
  {| project_ok := true; a_now := 1000000000000; load_env := at_time 10000001000; a_settings := Some {| AlwaysRender := true; IndexRanges := ArchiveToy.small_index |};
     gs_env := works; archive_env := at_time 11000001000; error_text := [101] |}.
Definition url (p : GSPath) : bytes := [47].
Definition loaded : LoadStreamResponse :=
  match LoadStream (load_env meets) (t_Id (at_task the_task)) true tasked with
  | Ok l => l | Err _ => {| l_State := buildLogStreamState (created_stream [] 0 []) the_state; l_Desc := None; l_ArchivalKey := []; l_Age := None |} end.
Definition archival : stagedArchival :=
  {| sa_key := key; sa_uid := [9]; sa_desc := CoordToy.desc; sa_data := true; sa_terminalIndex := 2; sa_logEntryCount := 0; bytesWritten _ := 0 |}.

Lemma checks : task_checks meets the_task tasked = inr (loaded, 10000000000).
Proof. vm_compute. reflexivity. Qed.
Lemma made : makeStagedArchival (fun _ => false) [106] {| AlwaysRender := true; IndexRanges := ArchiveToy.small_index |} loaded [9] = Some archival.
Proof. vm_compute. reflexivity. Qed.
Lemma has_two k i d : Memory.has logs k i d <-> k = key /\ (i = 0 /\ d = [0; 7] \/ i = 1 /\ d = [1; 5]).
Proof.
  unfold Memory.has, logs. cbn. split.
  - intros (ls & [[<- <-]|[_ H]]%lookup_insert_Some & Hd); [|by rewrite lookup_empty in H]. split; [done|]. cbn in Hd.
    apply lookup_insert_Some in Hd as [[<- <-]|[_ [[<- <-]|[_ Hd]]%lookup_insert_Some]]; [by right|by left|by rewrite lookup_empty in Hd].
  - intros [-> H]. eexists. rewrite lookup_insert_eq. split; [done|]. by destruct H as [[-> ->]|[-> ->]].
Qed.
Lemma reads : reads_well (LS := Memory.store) logs key.
Proof.
  split; [|intros i n ko l e; unfold LogStorage.Get; cbn; unfold Memory.Get; cbn [Memory.run_error Memory.serr Memory.closed logs Memory.streams g_key]; rewrite lookup_insert_eq; by intros [= _ <-]].
  intros k ls i d Hls Hd.
  assert (Memory.has logs k i d) as [-> H]%has_two by by exists ls. cbn in Hls. rewrite lookup_insert_eq in Hls. injection Hls as <-. cbn.
  destruct H as [[-> _]|[-> _]]; done.
Qed.
Lemma holds : holds_stream (LS := Memory.store) logs key two.
Proof.
  split.
  - intros i d [_ [[-> ->]|[-> ->]]]%has_two; (split; [done|by eexists]).
  - intros n le H. destruct n as [|[|n]]; [..|done]; injection H as <-; (split; [done|]); eexists; apply has_two; (split; [done|]); [by left|by right].
Qed.
Lemma the_state_is : states tasked !! id = Some the_state.
Proof. apply CoordRun.isSet_default. vm_compute. reflexivity. Qed.
Lemma the_state_tasked : archivalState the_state = ArchiveTasked.
Proof. apply (bool_decide_unpack _). vm_compute. exact I. Qed.
End TaskToy.

(** Two of three entries: the archive is complete all the same, and its end moves. *)
Lemma task_archives_witness : exists c2 gs' lst', 
    archiveTaskImpl (LS := Memory.store) (SV := CoordToy.services) (EC := ArchiveToy.codec) (fun _ => false) TaskToy.url 100 TaskToy.meets TaskToy.the_task
      TaskToy.logs TaskToy.tasked TaskToy.tasked ∅ =
    Some (true, None, c2, gs') /\ TerminalIndex TaskToy.the_state = 2 /\ archivalState lst' = ArchivedComplete /\ TerminalIndex lst' = 1.
Proof.
  destruct (task_archives (LS := Memory.store) (LL := Memory.store_laws) (LC := Memory.store_complete) (SV := CoordToy.services) (EC := ArchiveToy.codec) (fun _ => false) TaskToy.url 100 TaskToy.meets TaskToy.the_task
    TaskToy.logs TaskToy.tasked TaskToy.tasked ∅ _ _ _ _ TaskToy.two [1] [[0; 7]; [1; 7]] CoordToy.id TaskToy.the_state TaskToy.checks eq_refl TaskToy.made)
    as (_ & c2 & gs' & lst' & f & H1 & _ & H2 & H3 & _).
  - by right.
  - exact TaskToy.reads.
  - exact TaskToy.holds.
  - done.
  - by split.
  - done.
  - repeat constructor.
  - reflexivity.
  - repeat constructor; discriminate.
  - intros ix. by eexists.
  - done.
  - vm_compute. lia.
  - vm_compute. lia.
  - vm_compute. reflexivity.
  - exact TaskToy.the_state_is.
  - exact TaskToy.the_state_tasked.
  - done.
  - done.
  - exists c2, gs', lst'. split; [exact H1|]. split; [vm_compute; reflexivity|]. split; [exact H2|exact H3].
Defined.

(** C19. Whatever a task meets: with an error the coordinator's store stays as it is,
    and the task is only consumed when its project has no valid name or its stream,
    as it was loaded, is purged, archived or tasked with another key; without one it
    is consumed, and the store is what [ArchiveStream] makes of the files that were
    staged.  A stage that fails for good is not recorded: its report has no URLs, so
    that it is refused, and the task comes again. *)
Theorem task_outcomes {LS : LogStore} {SV : Services} {EC : EntryCodec} BinaryFileExt url fuel e t st c0 c1 gs consumed err c2 gs2 :
  archiveTaskImpl BinaryFileExt url fuel e t st c0 c1 gs = Some (consumed, err, c2, gs2) ->
  match err with
  | None => consumed = true /\ exists ls age set sa gs1 sa1, task_checks e t c0 = inr (ls, age) /\ a_settings e = Some set /\
      makeStagedArchival BinaryFileExt (at_Project t) set ls (task_uid t) = Some sa /\
      (age <= DurationFromProto (t_CompletePeriod (at_task t)) -> checkComplete st (sa_key sa) (sa_terminalIndex sa) = None) /\
      stage fuel (gs_env e) set st sa gs = Some (None, sa1, gs1) /\ ArchiveStream (archive_env e) (archive_request url sa1 (t_Id (at_task t))) c1 = (None, c2)
  | Some er => c2 = c1 /\
      (consumed = true -> project_ok e = true -> exists ls, LoadStream (load_env e) (t_Id (at_task t)) true c0 = Ok ls /\
        (st_Purged (l_State ls) = true \/ st_Archived (l_State ls) = true \/ l_ArchivalKey ls <> t_Key (at_task t) /\ l_ArchivalKey ls <> [])) /\
      (forall ls age set sa sa1 gs1, task_checks e t c0 = inr (ls, age) -> a_settings e = Some set ->
        makeStagedArchival BinaryFileExt (at_Project t) set ls (task_uid t) = Some sa ->
        (age <= DurationFromProto (t_CompletePeriod (at_task t)) -> checkComplete st (sa_key sa) (sa_terminalIndex sa) = None) ->
        stage fuel (gs_env e) set st sa gs = Some (Some false, sa1, gs1) -> consumed = false /\ er = Failure false)
  end.
Proof.
  unfold archiveTaskImpl. destruct (task_checks e t c0) as [[c er]|[ls age]] eqn:Hc.
  { intros [= <- <- <- <-]. split; [done|]. split; [exact (checks_end e t c0 (c, er) Hc)|done]. }
  destruct (a_settings e) as [set|]; [|intros [= <- <- <- <-]; by repeat split].
  destruct (makeStagedArchival _ _ _ _ _) as [sa|] eqn:Hsa; [|intros [= <- <- <- <-]; split; [done|]; split; [done|]; intros; simplify_eq].
  destruct (if age <=? _ then _ else None) as [ce|] eqn:Hce.
  { intros [= <- <- <- <-]. split; [done|]. split; [done|].
    intros ? ? ? ? ? ? [= <- <-] [= <-] Hm Hcc. rewrite Hsa in Hm. injection Hm as <-.
    destruct (Z.leb_spec age (DurationFromProto (t_CompletePeriod (at_task t)))); [by rewrite Hcc in Hce|done]. }
  assert (Hcc : age <= DurationFromProto (t_CompletePeriod (at_task t)) -> checkComplete st (sa_key sa) (sa_terminalIndex sa) = None)
    by (intros H%Z.leb_le; by rewrite H in Hce).
  destruct (stage _ _ _ _ _ _) as [[[es sa1] gs1]|] eqn:Hs; [|done]. cbn [mbind option_bind].
  destruct es as [[|]|]; [| |destruct (finalize_fails _ _)].
  - intros [= <- <- <- <-]. split; [done|]. split; [done|]. intros; simplify_eq.
  - rewrite failed_report. intros [= <- <- <- <-]. by repeat split.
  - intros [= <- <- <- <-]. split; [done|]. split; [done|]. intros; simplify_eq.
  - unfold report. destruct (ArchiveStream _ _ _) as [[code|] c] eqn:Ha; intros [= <- <- <- <-].
    + split; [|split; [done|intros; simplify_eq]]. unfold ArchiveStream in Ha. by repeat case_match; simplify_eq.
    + split; [done|]. by exists ls, age, set, sa, gs1, sa1.
Qed.
(** Google Storage gives no writer: a failure for good, that is lost. *)
Module FailToy.
Definition refuses : GSEnv := {| new_fails _ := true; write_answers _ := []; close_fails _ := false; rename_fails _ := false |}.
Definition meets : TaskMeets :=
  {| project_ok := true; a_now := a_now TaskToy.meets; load_env := load_env TaskToy.meets; a_settings := a_settings TaskToy.meets;
     gs_env := refuses; archive_env := archive_env TaskToy.meets; error_text := [101] |}.
Definition ends : option (bool * option TaskError * CStore * GS) :=
  archiveTaskImpl (LS := Memory.store) (SV := CoordToy.services) (EC := ArchiveToy.codec) (fun _ => false) TaskToy.url 100 meets TaskToy.the_task
    TaskToy.logs TaskToy.tasked TaskToy.tasked ∅.
Lemma some_parts {X Y Z W} (o : option (X * Y * Z * W)) x y : (fun r => r.1.1) <$> o = Some (x, y) ->
  exists z w, o = Some (x, y, z, w).
Proof. destruct o as [[[[? ?] z'] w']|]; [|done]. intros [= -> ->]. by exists z', w'. Qed.
End FailToy.
Lemma task_outcomes_witness : exists gs, FailToy.ends = Some (false, Some (Failure false), TaskToy.tasked, gs).
Proof.
  destruct (FailToy.some_parts FailToy.ends false (Some (Failure false))) as (c & gs & H); [vm_compute; reflexivity|].
  exists gs. rewrite H. unfold FailToy.ends in H. destruct (task_outcomes _ _ _ _ _ _ _ _ _ _ _ _ _ H) as [E _]. rewrite E. reflexivity.
Defined.
