(* ===== verification/LogCollector.v ===== *)
(** LogDog's collector (logdog/server/collector): the checks of a bundle, the
    cached client of the coordinator (collector/coordinator), and collectors as a
    system of threads that register streams, store their entries and report their
    ends, whatever the order of their steps and whatever fails. *)
From stdpp Require Import fin_maps.
From S2P Require Import Prelude LRU LogEntry TimedBuffer Parsers StreamName LogStream LogCoord LogArchive LogStorage.
Local Open Scope Z_scope.

(** * What a message holds

    A bundle as it is decoded: a descriptor may be missing, and there is the
    secret of the prefix. *)
Record BundleEntry := { be_Desc : option LogStreamDescriptor; be_Logs : list LogEntry; be_Terminal : bool; be_TerminalIndex : Z }.
Record Bundle := { b_Project : bytes; b_Prefix : bytes; b_Secret : bytes; b_Entries : list BundleEntry }.
(** What reading a message gives: the version of its metadata, and a bundle. *)
Record Message := { m_ProtoVersion : bytes; m_Bundle : option Bundle }.

(** [cfgtypes.ProjectName.Validate]. *)
Definition project_char (first : bool) (r : Z) : bool :=
  (97 <=? r) && (r <=? 122) || negb first && ((48 <=? r) && (r <=? 57) || (r =? 45) || (r =? 95)).
Definition ProjectName_Validate (p : bytes) : bool :=
  match p with [] => false | c :: p => project_char true c && forallb (project_char false) p end.

Inductive CError :=
  | InvalidProject | InvalidPrefix | InvalidSecret | MismatchedPrefix | InvalidDescriptor | MarshalFailed
  | InvalidLogEntry | NonContiguous | MissingStreamID | NonTerminalIndex
  | Rpc (transient : bool) | StorageErr (e : StorageError).
(** [transient.Tag.In]. *)
Definition transient (e : CError) : bool :=
  match e with Rpc t => t | StorageErr (StorageFailure t) => t | _ => false end.

(** * The client of the coordinator (coordinator.go) *)
Record StreamInfo := {
  si_Project : bytes; si_Path : bytes; si_ID : bytes; si_ProtoVersion : bytes; si_Secret : bytes; si_TerminalIndex : Z;
  si_Archived : bool; si_Purged : bool
}.
Record TerminateRequest := { tr_Project : bytes; tr_Path : bytes; tr_ID : bytes; tr_TerminalIndex : Z; tr_Secret : bytes }.

Definition impl_RegisterStream_request (s : StreamInfo) (desc : bytes) : result CError RegisterStreamRequest :=
  if negb (ProjectName_Validate (si_Project s)) then Err InvalidProject
  else if negb (bool_decide (StreamPath_Validate (si_Path s) = None)) then Err InvalidPrefix
  else if negb (PrefixSecret_Validate (si_Secret s)) then Err InvalidSecret
  else Ok {| rs_ProtoVersion := si_ProtoVersion s; rs_Desc := desc; rs_Secret := si_Secret s; rs_TerminalIndex := si_TerminalIndex s |}.
Definition impl_RegisterStream_response (s : StreamInfo) (id : bytes) (st : StreamState) : StreamInfo :=
  {| si_Project := si_Project s; si_Path := si_Path s; si_ID := id; si_ProtoVersion := st_ProtoVersion st; si_Secret := st_Secret st;
     si_TerminalIndex := st_TerminalIndex st; si_Archived := st_Archived st; si_Purged := st_Purged st |}.
Definition impl_TerminateStream_request (r : TerminateRequest) : result CError TerminateStreamRequest :=
  if negb (ProjectName_Validate (tr_Project r)) then Err InvalidProject
  else if bool_decide (tr_ID r = []) then Err MissingStreamID
  else if tr_TerminalIndex r <? 0 then Err NonTerminalIndex
  else Ok {| ts_Id := tr_ID r; ts_Secret := tr_Secret r; ts_TerminalIndex := tr_TerminalIndex r |}.

(** * The checks of an entry (collector.go) *)
Record Handler := {
  h_project : bytes; h_path : bytes; h_secret : bytes; h_version : bytes; h_desc : LogStreamDescriptor; h_descBytes : bytes;
  h_logData : list bytes; h_blockIndex : Z; h_terminal : option Z
}.
Inductive Checked := Junk | Rejected (e : CError) | Accepted (h : Handler).

Section Collector.
Context {SV : Services} {EC : EntryCodec}.

(** Entry [i] of the block; its data. *)
Fixpoint check_logs (desc : LogStreamDescriptor) (blockIndex i : Z) (logs : list LogEntry) : result CError (list bytes) :=
  match logs with
  | [] => Ok []
  | le :: logs =>
      if negb (LogEntry_Validate le desc) then Err InvalidLogEntry
      else if negb (StreamIndex le =? u64 (blockIndex + i)) then Err NonContiguous
      else
        match MarshalEntry le with
        | None => Err MarshalFailed
        | Some d => match check_logs desc blockIndex (i + 1) logs with Ok l => Ok (d :: l) | Err e => Err e end
        end
  end.
Definition set_Prefix (d : LogStreamDescriptor) (p : bytes) : LogStreamDescriptor :=
  {| Prefix := p; Name := Name d; StreamType_ := StreamType_ d; ContentType := ContentType d; Timestamp := Timestamp d; Tags := Tags d |}.

(** [processLogStream] up to the call of the coordinator; a missing descriptor is
    a nil pointer. *)
Definition processLogStream_check (version : bytes) (b : Bundle) (be : BundleEntry) : outcome Checked :=
  if bool_decide (be_Logs be = []) && negb (be_Terminal be) then Ret Junk
  else if negb (PrefixSecret_Validate (b_Secret b)) then Ret (Rejected InvalidSecret)
  else
    match be_Desc be with
    | None => Panic
    | Some desc =>
        if negb (bool_decide (Prefix desc = [])) && negb (bool_decide (Prefix desc = b_Prefix b)) then Ret (Rejected MismatchedPrefix)
        else
          let desc := set_Prefix desc (b_Prefix b) in
          if negb (bool_decide (Descriptor_Validate desc true = None)) then Ret (Rejected InvalidDescriptor)
          else
            match MarshalDesc desc with
            | None => Ret (Rejected MarshalFailed)
            | Some descBytes =>
                let blockIndex := match be_Logs be with le :: _ => StreamIndex le | [] => 0 end in
                match check_logs desc blockIndex 0 (be_Logs be) with
                | Err e => Ret (Rejected e)
                | Ok logData =>
                    Ret (Accepted {| h_project := b_Project b; h_path := Desc_Path desc; h_secret := b_Secret b; h_version := version;
                                     h_desc := desc; h_descBytes := descBytes; h_logData := logData; h_blockIndex := blockIndex;
                                     h_terminal := if be_Terminal be then Some (be_TerminalIndex be) else None |})
                end
            end
    end.

(** [Process] up to its workers: nothing to do, an error, or the entries. *)
Definition Process_check (m : Message) : result (option CError) Bundle :=
  if negb (bool_decide (m_ProtoVersion m = logpb_Version)) then Err None
  else
    match m_Bundle m with
    | None => Err None
    | Some b =>
        if negb (ProjectName_Validate (b_Project b)) then Err (Some InvalidProject)
        else if negb (bool_decide (StreamName.Validate (b_Prefix b) = None)) then Err (Some InvalidPrefix)
        else Ok b
    end.

Definition register_request (h : Handler) : StreamInfo :=
  {| si_Project := h_project h; si_Path := h_path h; si_ID := []; si_ProtoVersion := h_version h; si_Secret := h_secret h;
     si_TerminalIndex := match h_terminal h with Some t => i64 t | None => -1 end; si_Archived := false; si_Purged := false |}.
Definition terminate_request (st : StreamInfo) (t : Z) : TerminateRequest :=
  {| tr_Project := si_Project st; tr_Path := si_Path st; tr_ID := si_ID st; tr_TerminalIndex := i64 t; tr_Secret := si_Secret st |}.
Definition put_request (h : Handler) : PutRequest :=
  {| p_key := (h_project h, h_path h); p_Index := i64 (h_blockIndex h); p_Values := h_logData h |}.
(** The secret of the stream is another one, or the stream needs no entries. *)
Definition skipped (h : Handler) (st : StreamInfo) : bool :=
  negb (bool_decide (h_secret h = si_Secret st)) || si_Archived st || si_Purged st.
(** A record that exists counts as stored. *)
Definition put_error (e : option StorageError) : option CError :=
  match e with None | Some ErrExists => None | Some e => Some (StorageErr e) end.

(** [processMessage] of the collector's main: whether a message is taken from the queue. *)
Definition processMessage (errs : list CError) : bool := negb (existsb transient errs).

(** * The cache (cache.go)

    An entry holds the addresses of its promises; a promise its entry, what it
    will ask and its result. *)
Record cacheEntry := { ce_key : streamKey; expiresAt : time; ce_terminalIndex : Z; registerP : option nat; terminateP : option nat }.
Record RegisterPromise := { rp_entry : nat; rp_state : StreamInfo; rp_desc : bytes; rp_result : option (result CError StreamInfo) }.
Record TerminatePromise := { tp_entry : nat; tp_request : TerminateRequest; tp_result : option (option CError) }.

Definition newCacheEntry (k : streamKey) (now expiration : time) : cacheEntry :=
  {| ce_key := k; expiresAt := now + expiration; ce_terminalIndex := -1; registerP := None; terminateP := None |}.
Definition set_registerP (e : cacheEntry) (p : option nat) : cacheEntry :=
  {| ce_key := ce_key e; expiresAt := expiresAt e; ce_terminalIndex := ce_terminalIndex e; registerP := p; terminateP := terminateP e |}.
Definition set_terminateP (e : cacheEntry) (p : option nat) : cacheEntry :=
  {| ce_key := ce_key e; expiresAt := expiresAt e; ce_terminalIndex := ce_terminalIndex e; registerP := registerP e; terminateP := p |}.
Definition loadRemoteTerminalIndex (e : cacheEntry) (tidx : Z) : cacheEntry :=
  if (0 <=? tidx) && (ce_terminalIndex e <? 0) then
    {| ce_key := ce_key e; expiresAt := expiresAt e; ce_terminalIndex := tidx; registerP := registerP e; terminateP := terminateP e |}
  else e.
(** The remote state, with the index that was cached when it has none. *)
Definition with_terminal (st : StreamInfo) (tidx : Z) : StreamInfo :=
  if (si_TerminalIndex st <? 0) && (0 <=? tidx) then
    {| si_Project := si_Project st; si_Path := si_Path st; si_ID := si_ID st; si_ProtoVersion := si_ProtoVersion st; si_Secret := si_Secret st;
       si_TerminalIndex := tidx; si_Archived := si_Archived st; si_Purged := si_Purged st |}
  else st.

(** * Threads

    A thread handles an entry of a bundle that a collector received: it gets its
    cache entry, the promise of its registration, and then stores its entries and
    reports its end, one task beside the other. *)
Inductive PutTask := PutStart | PutDone (e : option StorageError).
Inductive TermTask := TermStart | TermEntry (a : nat) | TermWait (a p : nat) | TermDone (e : option CError).
Inductive Phase :=
  | Starting | HasEntry (a : nat) | Registering (a p : nat) (tidx : Z)
  | Running (st : StreamInfo) (put : PutTask) (term : TermTask)
  | Failed (e : CError) | Skipped (st : StreamInfo) | Finished (st : StreamInfo) (put : option StorageError) (errs : list CError).
Record Thread := { th_coll : nat; th_handler : Handler; th_phase : Phase }.

Context {LS : LogStore}.

(** The stores the coordinator had for every project, the latest first; the
    storage; the caches of the collectors; their entries and promises. *)
Record World := {
  w_coord : gmap bytes (list CStore); w_store : LStore; w_caches : gmap nat (Cache streamKey nat);
  w_entries : gmap nat cacheEntry; w_regs : gmap nat RegisterPromise; w_terms : gmap nat TerminatePromise;
  w_threads : gmap nat Thread; w_msgs : list Message
}.
Definition hist (w : World) (p : bytes) : list CStore := default [] (w_coord w !! p).
(** A store a project had; before the first one it was empty. *)
Definition past (w : World) (p : bytes) (i : nat) : CStore := default empty_cstore (hist w p !! i).
Definition present (w : World) (p : bytes) : CStore := past w p 0.

Definition with_coord (w : World) (p : bytes) (s : CStore) : World :=
  {| w_coord := <[p := s :: hist w p]> (w_coord w); w_store := w_store w; w_caches := w_caches w; w_entries := w_entries w;
     w_regs := w_regs w; w_terms := w_terms w; w_threads := w_threads w; w_msgs := w_msgs w |}.
Definition with_store (w : World) (s : LStore) : World :=
  {| w_coord := w_coord w; w_store := s; w_caches := w_caches w; w_entries := w_entries w; w_regs := w_regs w; w_terms := w_terms w;
     w_threads := w_threads w; w_msgs := w_msgs w |}.
Definition with_caches (w : World) (c : gmap nat (Cache streamKey nat)) (e : gmap nat cacheEntry) : World :=
  {| w_coord := w_coord w; w_store := w_store w; w_caches := c; w_entries := e; w_regs := w_regs w; w_terms := w_terms w;
     w_threads := w_threads w; w_msgs := w_msgs w |}.
Definition with_entry (w : World) (a : nat) (e : cacheEntry) : World := with_caches w (w_caches w) (<[a := e]> (w_entries w)).
Definition with_reg (w : World) (p : nat) (r : RegisterPromise) : World :=
  {| w_coord := w_coord w; w_store := w_store w; w_caches := w_caches w; w_entries := w_entries w; w_regs := <[p := r]> (w_regs w);
     w_terms := w_terms w; w_threads := w_threads w; w_msgs := w_msgs w |}.
Definition with_term (w : World) (p : nat) (t : TerminatePromise) : World :=
  {| w_coord := w_coord w; w_store := w_store w; w_caches := w_caches w; w_entries := w_entries w; w_regs := w_regs w;
     w_terms := <[p := t]> (w_terms w); w_threads := w_threads w; w_msgs := w_msgs w |}.
Definition with_threads (w : World) (t : gmap nat Thread) : World :=
  {| w_coord := w_coord w; w_store := w_store w; w_caches := w_caches w; w_entries := w_entries w; w_regs := w_regs w; w_terms := w_terms w;
     w_threads := t; w_msgs := w_msgs w |}.
Definition with_msg (w : World) (m : Message) : World :=
  {| w_coord := w_coord w; w_store := w_store w; w_caches := w_caches w; w_entries := w_entries w; w_regs := w_regs w; w_terms := w_terms w;
     w_threads := w_threads w; w_msgs := w_msgs w ++ [m] |}.

Definition fresh_of {X} (m : gmap nat X) : nat := fresh (dom m).
Definition to_phase (w : World) (i : nat) (t : Thread) (p : Phase) : World :=
  with_threads w (<[i := {| th_coll := th_coll t; th_handler := th_handler t; th_phase := p |}]> (w_threads w)).

(** ** The cache

    [getCacheEntry]: an entry that has not expired is kept. *)
Definition getCacheEntry (w : World) (c : nat) (k : streamKey) (now expiration : time) : option (nat * World) :=
  cache ← w_caches w !! c;
  let new := fresh_of (w_entries w) in
  let gen current :=
    match current with
    | Some a => match w_entries w !! a with
                | Some e => if now <? expiresAt e then Some a else Some new
                | None => None
                end
    | None => Some new
    end in
  '(v, cache) ← Mutate cache k gen;
  a ← v;
  Some (a, with_caches w (<[c := cache]> (w_caches w))
             (if bool_decide (a = new) then <[a := newCacheEntry k now expiration]> (w_entries w) else w_entries w)).

(** The promise of an entry and its terminal index, under its lock. *)
Definition lock_register (w : World) (a : nat) (st : StreamInfo) (desc : bytes) : option (nat * Z * World) :=
  e ← w_entries w !! a;
  match registerP e with
  | Some p => Some (p, ce_terminalIndex e, w)
  | None =>
      let p := fresh_of (w_regs w) in
      Some (p, ce_terminalIndex e,
        with_entry (with_reg w p {| rp_entry := a; rp_state := st; rp_desc := desc; rp_result := None |}) a (set_registerP e (Some p)))
  end.
Definition lock_terminate (w : World) (a : nat) (r : TerminateRequest) : option (nat * Z * World) :=
  e ← w_entries w !! a;
  match terminateP e with
  | Some p => Some (p, ce_terminalIndex e, w)
  | None =>
      let p := fresh_of (w_terms w) in
      Some (p, ce_terminalIndex e,
        with_entry (with_term w p {| tp_entry := a; tp_request := r; tp_result := None |}) a (set_terminateP e (Some p)))
  end.

(** What the promises run: calls of the coordinator.  The server reads two older
    stores before its transaction; or there is no answer of its method. *)
Inductive Answer := Answered (e : CallEnv) (i0 i1 : nat) | NoAnswer (transient : bool).
Definition register_call (w : World) (st : StreamInfo) (desc : bytes) (x : Answer) : result CError StreamInfo * World :=
  match impl_RegisterStream_request st desc, x with
  | Err e, _ => (Err e, w)
  | Ok _, NoAnswer t => (Err (Rpc t), w)
  | Ok req, Answered e i0 i1 =>
      let p := si_Project st in
      let '(r, s, _) := RegisterStream e req (past w p i0) (past w p i1) (present w p) in
      (match r with
       | Ok (id, remote) => Ok (impl_RegisterStream_response st id remote)
       | Err code => Err (Rpc (IsTransientCode code))
       end, with_coord w p s)
  end.
Definition terminate_call (w : World) (r : TerminateRequest) (x : Answer) : option CError * World :=
  match impl_TerminateStream_request r, x with
  | Err e, _ => (Some e, w)
  | Ok _, NoAnswer t => (Some (Rpc t), w)
  | Ok req, Answered e _ _ =>
      let p := tr_Project r in
      let '(r, s, _) := TerminateStream e req (present w p) in
      ((fun code => Rpc (IsTransientCode code)) <$> r, with_coord w p s)
  end.
(** A promise is resolved once; its body caches a terminal index. *)
Definition load_terminal (w : World) (a : nat) (tidx : Z) : World :=
  match w_entries w !! a with Some e => with_entry w a (loadRemoteTerminalIndex e tidx) | None => w end.
Definition resolve_register (w : World) (p : nat) (x : Answer) : option World :=
  r ← w_regs w !! p;
  match rp_result r with
  | Some _ => None
  | None =>
      let '(res, w) := register_call w (rp_state r) (rp_desc r) x in
      let w := match res with Ok st => load_terminal w (rp_entry r) (si_TerminalIndex st) | Err _ => w end in
      Some (with_reg w p {| rp_entry := rp_entry r; rp_state := rp_state r; rp_desc := rp_desc r; rp_result := Some res |})
  end.
Definition resolve_terminate (w : World) (p : nat) (x : Answer) : option World :=
  t ← w_terms w !! p;
  match tp_result t with
  | Some _ => None
  | None =>
      let '(res, w) := terminate_call w (tp_request t) x in
      let w := match res with None => load_terminal w (tp_entry t) (tr_TerminalIndex (tp_request t)) | Some _ => w end in
      Some (with_term w p {| tp_entry := tp_entry t; tp_request := tp_request t; tp_result := Some res |})
  end.

(** A promise that failed transiently is dropped, when it still is the one of its
    entry. *)
Definition clear_register (w : World) (a p : nat) (e : CError) : World :=
  match w_entries w !! a with
  | Some ce => if transient e && bool_decide (registerP ce = Some p) then with_entry w a (set_registerP ce None) else w
  | None => w
  end.
Definition clear_terminate (w : World) (a p : nat) (e : CError) : World :=
  match w_entries w !! a with
  | Some ce => if transient e && bool_decide (terminateP ce = Some p) then with_entry w a (set_terminateP ce None) else w
  | None => w
  end.

(** The state a thread goes on with.  Without an index that was cached, it is the
    object of the promise, and the index of the bundle is written into it. *)
Definition set_TerminalIndex (st : StreamInfo) (t : Z) : StreamInfo :=
  {| si_Project := si_Project st; si_Path := si_Path st; si_ID := si_ID st; si_ProtoVersion := si_ProtoVersion st; si_Secret := si_Secret st;
     si_TerminalIndex := t; si_Archived := si_Archived st; si_Purged := si_Purged st |}.
Definition registered (w : World) (p : nat) (r : RegisterPromise) (remote : StreamInfo) (tidx : Z) (h : Handler) : World * Phase :=
  let st := with_terminal remote tidx in
  if skipped h st then (w, Skipped st)
  else
    let put := match h_logData h with [] => PutDone None | _ => PutStart end in
    match h_terminal h with
    | None => (w, Running st put (TermDone None))
    | Some t =>
        if si_TerminalIndex st <? 0 then
          let st := set_TerminalIndex st (i64 t) in
          (with_reg w p {| rp_entry := rp_entry r; rp_state := rp_state r; rp_desc := rp_desc r; rp_result := Some (Ok st) |},
           Running st put TermStart)
        else (w, Running st put TermStart)
    end.

(** ** Steps

    [AStart]: a collector takes entry [j] of a message that was sent; [AStep]: a
    thread goes on, its task of storing or the other one; promises run; a
    collector starts anew; the coordinator does something for others. *)
Inductive Other :=
  | OPrefix (e : CallEnv) (req : RegisterPrefixRequest) (secret : bytes) (i : nat)
  | ORegister (e : CallEnv) (req : RegisterStreamRequest) (i0 i1 : nat)
  | OTerminate (e : CallEnv) (req : TerminateStreamRequest)
  | OArchive (e : CallEnv) (req : ArchiveStreamRequest)
  | OTask (e : TaskEnv) (m : CreateArchiveTask).
Inductive Action :=
  | ASend (m : Message) | AStart (c i j : nat) | AStep (i : nat) (store : bool) (now : time)
  | ARegister (p : nat) (x : Answer) | ATerminate (p : nat) (x : Answer) | ACrash (c : nat) | AOther (p : bytes) (o : Other).

Definition other (w : World) (p : bytes) (o : Other) : option World :=
  let s := present w p in
  match o with
  | OPrefix e req secret i => match RegisterPrefix e req secret (past w p i) s with Ret (_, s) => Some (with_coord w p s) | Panic => None end
  | ORegister e req i0 i1 => Some (with_coord w p (RegisterStream e req (past w p i0) (past w p i1) s).1.2)
  | OTerminate e req => Some (with_coord w p (TerminateStream e req s).1.2)
  | OArchive e req => Some (with_coord w p (ArchiveStream e req s).2)
  | OTask e m => match RollForward e m s with Ok s => Some (with_coord w p s) | Err _ => None end
  end.

(** The size of the caches, and how long an entry stays. *)
Context (cacheSize : Z) (expiration : Z).
Definition crash (w : World) (c : nat) : World :=
  with_threads (with_caches w (<[c := New cacheSize]> (w_caches w)) (w_entries w)) (filter (fun it => th_coll it.2 <> c) (w_threads w)).

Definition start (w : World) (c i j : nat) : option World :=
  m ← w_msgs w !! i;
  match Process_check m with
  | Err _ => None
  | Ok b =>
      be ← b_Entries b !! j;
      match processLogStream_check (m_ProtoVersion m) b be with
      | Ret (Accepted h) =>
          if isSet (w_caches w !! c) then
            Some (with_threads w (<[fresh_of (w_threads w) := {| th_coll := c; th_handler := h; th_phase := Starting |}]> (w_threads w)))
          else None
      | _ => None
      end
  end.

Definition put_step (w : World) (i : nat) (t : Thread) (st : StreamInfo) (term : TermTask) : World :=
  let '(e, s) := Put (w_store w) (put_request (th_handler t)) in
  to_phase (with_store w s) i t (Running st (PutDone e) term).
Definition term_step (w : World) (i : nat) (t : Thread) (st : StreamInfo) (put : PutTask) (term : TermTask) (now : time) : option World :=
  let h := th_handler t in
  match term, h_terminal h with
  | TermStart, Some _ =>
      '(a, w) ← getCacheEntry w (th_coll t) (si_Project st, si_Path st) now expiration;
      Some (to_phase w i t (Running st put (TermEntry a)))
  | TermEntry a, Some tidx =>
      '(p, known, w) ← lock_terminate w a (terminate_request st tidx);
      Some (to_phase w i t (Running st put (if 0 <=? known then TermDone None else TermWait a p)))
  | TermWait a p, Some _ =>
      r ← w_terms w !! p;
      res ← tp_result r;
      let w := match res with Some e => clear_terminate w a p e | None => w end in
      Some (to_phase w i t (Running st put (TermDone res)))
  | _, _ => None
  end.
Definition task_errors (put : option StorageError) (term : option CError) : list CError :=
  match put_error put with Some e => [e] | None => [] end ++ match term with Some e => [e] | None => [] end.

Definition thread_step (w : World) (i : nat) (t : Thread) (store : bool) (now : time) : option World :=
  let h := th_handler t in
  match th_phase t with
  | Starting =>
      '(a, w) ← getCacheEntry w (th_coll t) (h_project h, h_path h) now expiration;
      Some (to_phase w i t (HasEntry a))
  | HasEntry a =>
      '(p, tidx, w) ← lock_register w a (register_request h) (h_descBytes h);
      Some (to_phase w i t (Registering a p tidx))
  | Registering a p tidx =>
      r ← w_regs w !! p;
      res ← rp_result r;
      match res with
      | Err e => Some (to_phase (clear_register w a p e) i t (Failed e))
      | Ok remote => let '(w, ph) := registered w p r remote tidx h in Some (to_phase w i t ph)
      end
  | Running st (PutDone e) (TermDone r) => Some (to_phase w i t (Finished st e (task_errors e r)))
  | Running st put term =>
      match store, put with
      | true, PutStart => Some (put_step w i t st term)
      | true, PutDone _ => None
      | false, _ => term_step w i t st put term now
      end
  | Failed _ | Skipped _ | Finished _ _ _ => None
  end.

Definition act (a : Action) (w : World) : option World :=
  match a with
  | ASend m => Some (with_msg w m)
  | AStart c i j => start w c i j
  | AStep i store now => t ← w_threads w !! i; thread_step w i t store now
  | ARegister p x => resolve_register w p x
  | ATerminate p x => resolve_terminate w p x
  | ACrash c => Some (crash w c)
  | AOther p o => other w p o
  end.
Definition collector_start (s : LStore) : World :=
  {| w_coord := ∅; w_store := s; w_caches := ∅; w_entries := ∅; w_regs := ∅; w_terms := ∅; w_threads := ∅; w_msgs := [] |}.
Definition collector_step (w w' : World) : Prop := exists a, act a w = Some w'.
Definition collector_reaches (s : LStore) (w : World) : Prop := rtc collector_step (collector_start s) w.
Fixpoint acts (l : list Action) (w : World) : option World :=
  match l with [] => Some w | a :: l => w ← act a w; acts l w end.
End Collector.
