(* ===== verification/LogCollectorFacts.v ===== *)
(** Facts about LogDog's collector: what the coordinator's calls promise to its
    clients, and what stays true of collectors, their caches and their threads. *)
From stdpp Require Import fin_maps.
From S2P Require Import Prelude LRU LogEntry TimedBuffer Parsers StreamName LogStream LogCoord LogCoordSystem LogArchive LogStorage LogCollector.
Local Open Scope Z_scope.

(** * IDs of streams *)
Definition sha_ok `{Services} : Prop := forall b, length (sha256 b) = 32%nat /\ bytes_ok (sha256 b).

Lemma hex_digits b : in_u8 b -> Forall (fun c => isHexChar c = true /\ ToLower c = c) (Renderer.hex_byte b).
Proof.
  intros Hb. assert (H : forallb (fun b => forallb (fun c => isHexChar c && (ToLower c =? c)) (Renderer.hex_byte b)) (map Z.of_nat (List.seq 0 256)) = true)
    by (vm_compute; reflexivity).
  rewrite forallb_forall in H. specialize (H b). rewrite forallb_forall in H. apply Forall_forall. intros c Hc%list_elem_of_In.
  apply H in Hc; [bool_to_prop; done|]. apply in_map_iff. exists (Z.to_nat b). unfold in_u8 in Hb. rewrite Z2Nat.id by lia. split; [done|]. apply in_seq. lia.
Qed.
Lemma hex_string l : bytes_ok l -> Forall (fun c => isHexChar c = true /\ ToLower c = c) (Renderer.EncodeToString l) /\
  length (Renderer.EncodeToString l) = (2 * length l)%nat.
Proof.
  induction 1 as [|b l Hb Hl [IH1 IH2]]; [by split; [constructor|]|]. unfold Renderer.EncodeToString in *. cbn [map concat]. split.
  - apply Forall_app. split; [by apply hex_digits|done].
  - rewrite length_app, IH2. cbn. lia.
Qed.
Lemma map_id_Forall {X} (f : X -> X) l : Forall (fun x => f x = x) l -> map f l = l.
Proof. induction 1 as [|x l Hx Hl IH]; cbn; congruence. Qed.
Lemma Normalize_ID `{Services} (Hs : sha_ok) path : Normalize (LogStreamID path) = Some (LogStreamID path).
Proof.
  unfold LogStreamID, makeHashID. destruct (Hs path) as [H1 H2]. destruct (hex_string _ H2) as [H3 H4]. rewrite H1 in H4. unfold Normalize. cbv zeta.
  rewrite map_id_Forall by (eapply Forall_impl; [exact H3|]; by intros ? []). rewrite H4. cbn [Z.of_nat].
  replace (forallb isHexChar (Renderer.EncodeToString (sha256 path))) with true; [done|]. symmetry. apply forallb_forall. intros c Hc%list_elem_of_In.
  rewrite Forall_forall in H3. by apply H3.
Qed.

(** * What the coordinator promises to a client *)
Section Calls.
Context {SV : Services} {SL : ServicesLaws}.

Lemma archived_terminated lst : Archived (archivalState lst) = true -> Terminated lst = true.
Proof. unfold Terminated. by intros ->. Qed.
Lemma evolves_terminated a b : state_evolves a b -> Terminated a = true -> Terminated b = true.
Proof. intros E H. destruct (ev_terminal _ _ E H) as [HA|[HT _]]; [by apply archived_terminated|done]. Qed.

Lemma built ls lst : st_Secret (buildLogStreamState ls lst) = Secret lst /\
  (0 <= st_TerminalIndex (buildLogStreamState ls lst) -> Terminated lst = true).
Proof. split; [done|]. unfold buildLogStreamState. cbn. by destruct (Terminated lst); [|lia]. Qed.

Lemma RegisterStream_spec e req s0 s1 s r s' o : coord_ok s -> coord_ok s1 -> store_evolves s0 s -> store_evolves s1 s ->
  RegisterStream e req s0 s1 s = (r, s', o) -> coord_ok s' /\ store_evolves s s' /\
  forall id st, r = Ok (id, st) -> exists desc lst, UnmarshalDesc (rs_Desc req) = Some desc /\ id = LogStreamID (Desc_Path desc) /\
    states s' !! id = Some lst /\ Secret lst = st_Secret st /\ (0 <= st_TerminalIndex st -> Terminated lst = true).
Proof.
  intros Hok Hok1 E0 E1. unfold RegisterStream. destruct (RegisterStream_check e req s0) as [[[[desc pfx] cf] pcf]|c] eqn:Hc.
  2: { by intros [= <- <- <-]. }
  destruct (RegisterStream_check_spec _ _ _ _ _ _ _ Hc) as (_ & Hp & _).
  assert (Hu : UnmarshalDesc (rs_Desc req) = Some desc) by (unfold RegisterStream_check in Hc; repeat (case_match; try done); congruence).
  destruct (fails e OpGet); [by intros [= <- <- <-]|]. set (id := LogStreamID (Desc_Path desc)).
  destruct (get_stream s1 id) as [[ls lst]|] eqn:Hg.
  - intros [= <- <- <-]. split; [done|]. split; [done|]. intros id' st [= <- <-]. unfold get_stream in Hg.
    destruct (lstreams s1 !! id) as [ls1|] eqn:Hl; [|done]. destruct (states s1 !! id) as [lst1|] eqn:Ha; [|done]. injection Hg as -> ->.
    pose proof (so_id _ _ _ _ (ok_stream _ Hok1 _ _ _ Hl Ha)) as Hid. destruct (se_states _ _ E1 _ _ Ha) as (b & Hb & Eb).
    exists desc, b. rewrite Hid. split; [done|]. split; [done|]. split; [done|]. destruct (built ls lst) as [-> Ht].
    split; [by rewrite (ev_secret _ _ Eb)|]. intros H. by eapply evolves_terminated; [|apply Ht].
  - destruct (fails e OpHierarchy); [by intros [= <- <- <-]|].
    destruct (RegisterStream_txn e req desc pfx cf pcf s) as [[[[ls lst] s2] o2]|c] eqn:Ht; [|by intros [= <- <- <-]].
    intros [= <- <- <-]. pose proof Ht as (H1 & H2 & _)%RegisterStream_txn_ok; [|done|by eapply lookup_weaken; [|apply E0]].
    split; [done|]. split; [done|]. intros id' st [= <- <-]. exists desc, lst. split; [done|]. destruct (built ls lst) as [-> Hb].
    assert (ls_ID ls = id /\ states s2 !! id = Some lst) as [-> HS]; [|done].
    unfold RegisterStream_txn in Ht. destruct (fails e OpGetTxn); [done|]. fold id in Ht. destruct (get_stream s id) as [[ls' lst']|] eqn:G.
    + injection Ht as <- <- <- <-. unfold get_stream in G. destruct (lstreams s !! id) as [ls1|] eqn:Hl; [|done].
      destruct (states s !! id) as [lst1|] eqn:Ha; [|done]. injection G as -> ->. split; [|done]. by apply (so_id _ _ _ _ (ok_stream _ Hok _ _ _ Hl Ha)).
    + destruct (LoadDescriptor _ desc) as [l|] eqn:Hld; [|done]. destruct (_ || _); [done|]. destruct (fails e OpNamed); [done|].
      injection Ht as <- <- <- <-. split; [|cbn; by rewrite lookup_insert_eq]. unfold LoadDescriptor in Hld.
      destruct (bool_decide _); [|done]. destruct (MarshalDesc desc); [|done]. cbn in Hld. by injection Hld as <-.
Qed.

Lemma TerminateStream_spec e req s r s' o : coord_ok s -> TerminateStream e req s = (r, s', o) -> coord_ok s' /\ store_evolves s s' /\
  (r = None -> exists id lst, Normalize (ts_Id req) = Some id /\ states s' !! id = Some lst /\ Terminated lst = true).
Proof.
  intros Hok. unfold TerminateStream. destruct (TerminateStream_check e req) as [[id params]|c] eqn:Hc; [|by intros [= <- <- <-]].
  assert (0 <= ts_TerminalIndex req /\ Normalize (ts_Id req) = Some id) as [Hi Hn].
  { unfold TerminateStream_check in Hc. destruct (Z.ltb_spec (ts_TerminalIndex req) 0); [done|]. repeat (case_match; try done). by split; [|congruence]. }
  destruct (TerminateStream_txn e req id params s) as [[s1 o1]|c] eqn:Ht; [|by intros [= <- <- <-]]. intros [= <- <- <-].
  pose proof Ht as (H1 & H2 & _)%TerminateStream_txn_ok; [|done|done]. split; [done|]. split; [done|]. intros _. exists id.
  unfold TerminateStream_txn in Ht. destruct (fails e OpGetTxn); [done|]. destruct (states s !! id) as [a|] eqn:Ha; [|done].
  destruct (negb _); [done|]. destruct (Terminated a) eqn:HT.
  - destruct (_ =? _); [|done]. injection Ht as <- <-. by exists a.
  - destruct (fails e OpPut); [done|]. destruct (fails e OpNamed); [done|]. injection Ht as <- <-. cbn. eexists. rewrite lookup_insert_eq.
    split; [done|]. split; [done|]. unfold Terminated. destruct (Archived _); [done|]. cbn. apply Z.leb_le. lia.
Qed.

Lemma RegisterPrefix_spec e req secret s0 s r s' : coord_ok s -> RegisterPrefix e req secret s0 s = Ret (r, s') -> coord_ok s' /\ store_evolves s s'.
Proof.
  intros Hok. unfold RegisterPrefix. destruct (RegisterPrefix_check e req s0) as [[x topic]|c]; [|by intros [= <- <-]].
  destruct (_ || _); [by intros [= <- <-]|]. destruct (RegisterPrefix_txn e req x secret s) as [[s1|c]|] eqn:E; cbn; [|by intros [= <- <-]|done].
  intros [= <- <-]. by eapply RegisterPrefix_txn_ok.
Qed.
Lemma ArchiveStream_spec e req s r s' : coord_ok s -> ArchiveStream e req s = (r, s') -> coord_ok s' /\ store_evolves s s'.
Proof.
  intros Hok. unfold ArchiveStream. destruct (ArchiveStream_check req) as [id|c]; [|by intros [= <- <-]].
  destruct (ArchiveStream_txn e req id s) as [s1|c] eqn:E; [|by intros [= <- <-]]. intros [= <- <-].
  by pose proof E as (H1 & H2 & _)%ArchiveStream_txn_ok.
Qed.
End Calls.

(** * The checks of an entry *)
Section Checks.
Context {SV : Services} {EC : EntryCodec}.

Lemma check_logs_spec desc blockIndex logs : forall i l, check_logs desc blockIndex i logs = Ok l ->
  forall n d, l !! n = Some d -> exists le, logs !! n = Some le /\ LogEntry_Validate le desc = true /\
    StreamIndex le = u64 (blockIndex + (i + Z.of_nat n)) /\ MarshalEntry le = Some d.
Proof.
  induction logs as [|le logs IH]; intros i l; cbn [check_logs]; [by intros [= <-]|].
  destruct (LogEntry_Validate le desc) eqn:Hv; [|done]. destruct (Z.eqb_spec (StreamIndex le) (u64 (blockIndex + i))) as [Hi|]; [|done]. cbn [negb].
  destruct (MarshalEntry le) as [d|] eqn:Hm; [|done]. destruct (check_logs desc blockIndex (i + 1) logs) as [l'|] eqn:Hl; [|done].
  intros [= <-] [|n] d'; cbn; [intros [= <-]; exists le; by rewrite Z.add_0_r|]. intros Hn.
  destruct (IH _ _ Hl n d' Hn) as (le' & H1 & H2 & H3 & H4). exists le'. split; [done|]. split; [done|]. split; [|done]. rewrite H3. f_equal. lia.
Qed.
Lemma check_logs_length desc blockIndex logs : forall i l, check_logs desc blockIndex i logs = Ok l -> length l = length logs.
Proof.
  induction logs as [|le logs IH]; intros i l; cbn [check_logs]; [by intros [= <-]|].
  destruct (negb _); [done|]. destruct (negb _); [done|]. destruct (MarshalEntry le); [|done].
  destruct (check_logs desc blockIndex (i + 1) logs) eqn:Hl; [|done]. intros [= <-]. cbn. f_equal. by eapply IH.
Qed.

(** What an accepted entry is. *)
Record accepted (version : bytes) (b : Bundle) (be : BundleEntry) (h : Handler) : Prop := {
  ac_key : h_project h = b_Project b /\ h_path h = Desc_Path (h_desc h);
  ac_from : exists d0, be_Desc be = Some d0 /\ h_desc h = set_Prefix d0 (b_Prefix b);
  ac_secret : h_secret h = b_Secret b;
  ac_desc : Descriptor_Validate (h_desc h) true = None /\ MarshalDesc (h_desc h) = Some (h_descBytes h);
  ac_logs n d : h_logData h !! n = Some d -> exists le, be_Logs be !! n = Some le /\ LogEntry_Validate le (h_desc h) = true /\
    StreamIndex le = u64 (h_blockIndex h + Z.of_nat n) /\ MarshalEntry le = Some d;
  ac_length : length (h_logData h) = length (be_Logs be);
  ac_block : be_Logs be <> [] -> h_blockIndex h = u64 (h_blockIndex h);
  ac_terminal : h_terminal h = if be_Terminal be then Some (be_TerminalIndex be) else None
}.
Lemma check_accepted version b be h : processLogStream_check version b be = Ret (Accepted h) -> accepted version b be h.
Proof.
  unfold processLogStream_check. destruct (_ && _); [done|]. destruct (negb _); [done|]. destruct (be_Desc be) as [desc|] eqn:Hbe; [|done].
  destruct (negb _ && _); [done|]. cbv zeta. destruct (bool_decide (Descriptor_Validate _ true = None)) eqn:Hd; [|done]. cbn [negb].
  destruct (MarshalDesc _) as [db|] eqn:Hm; [|done].
  destruct (check_logs _ _ 0 (be_Logs be)) as [l|] eqn:Hl; [|done]. intros [= <-]. bool_to_prop. split; cbn; try done; [by exists desc|..].
  - intros n d Hn. destruct (check_logs_spec _ _ _ _ _ Hl n d Hn) as (le & ? & ? & E & ?). exists le. rewrite E. done.
  - by eapply check_logs_length.
  - intros Hne. destruct (be_Logs be) as [|le logs]; [done|]. pose proof Hl as Hlen%check_logs_length. cbn in Hlen. destruct l as [|d l]; [done|].
    destruct (check_logs_spec _ _ _ _ _ Hl 0%nat d eq_refl) as (le' & [= <-] & _ & E & _). rewrite E at 1 2. by rewrite Z.add_0_r, u64_idemp.
Qed.
End Checks.

(** * The cache *)
Section Caches.
Context {K V : Type} `{Countable K}.

Lemma aprune_sub (h : option (Z -> V -> bool)) (l : list (K * V)) p : p ∈ aprune h l -> p ∈ l.
Proof.
  unfold aprune. destruct h as [h|]; [|done]. rewrite !list_elem_of_In, <-in_rev. intros Hp. apply in_rev. revert Hp.
  induction (rev l) as [|[k v] r IH]; cbn [aprune_rev]; [done|]. destruct (h _ v); [done|]. intros ?%IH. by right.
Qed.
Lemma amutate_in h (l : list (K * V)) k gen p : p ∈ (amutate h l k gen).2 -> p ∈ l \/ p.1 = k /\ gen (alookup l k) = Some p.2.
Proof.
  unfold amutate. cbn [snd]. assert (Hr : forall q, q ∈ aremove l k -> q ∈ l) by (intros q; unfold aremove; by intros [_ ?]%list_elem_of_filter).
  destruct (gen (alookup l k)) as [v|]; [|by left; auto]. destruct (alookup l k); [intros [->|?%Hr]%elem_of_cons; auto|].
  intros [->|?]%aprune_sub%elem_of_cons; auto.
Qed.
Lemma alookup_in (l : list (K * V)) k v : alookup l k = Some v -> (k, v) ∈ l.
Proof.
  unfold alookup. destruct (List.find _ l) as [[k' v']|] eqn:E; [|done]. cbn. intros [= ->]. apply find_some in E as [E1 E2]. bool_to_prop.
  cbn in E2. subst. by apply list_elem_of_In.
Qed.
Lemma holds_New n : LRU.holds (New (K := K) (V := V) n) [].
Proof. split; [done|constructor|constructor| |by intros ? ?%elem_of_nil]. intros k e. cbn. rewrite lookup_empty. split; [done|]. by intros [?%elem_of_nil _]. Qed.
End Caches.

(** What is read back of a descriptor names the same stream. *)
Definition desc_codec `{Services} : Prop := forall d b, MarshalDesc d = Some b ->
  exists d', UnmarshalDesc b = Some d' /\ Prefix d' = Prefix d /\ Name d' = Name d.

(** * What stays true of collectors *)
Section Worlds.
Context {SV : Services} {SL : ServicesLaws} {EC : EntryCodec} {LS : LogStore} {LL : LogStoreLaws LS}.
Context (Hsha : sha_ok) (codec : desc_codec).
Context (cacheSize expiration : Z) (store0 : LStore) (Hstore0 : store_ok store0).

Definition h_key (h : Handler) : streamKey := (h_project h, h_path h).
Definition si_key (st : StreamInfo) : streamKey := (si_Project st, si_Path st).

(** The coordinator has the stream with this secret; it knows its end. *)
Definition has_secret (w : World) (k : streamKey) (secret : bytes) : Prop :=
  exists lst, states (present w k.1) !! LogStreamID k.2 = Some lst /\ Secret lst = secret.
Definition ended (w : World) (k : streamKey) : Prop :=
  exists lst, states (present w k.1) !! LogStreamID k.2 = Some lst /\ Terminated lst = true.
Definition entry_of (w : World) (a : nat) (k : streamKey) : Prop := exists e, w_entries w !! a = Some e /\ ce_key e = k.

(** A handler is of a message that was sent. *)
Definition from_msg (w : World) (h : Handler) : Prop := exists m b be, m ∈ w_msgs w /\ Process_check m = Ok b /\ be ∈ b_Entries b /\
  accepted (m_ProtoVersion m) b be h.
(** A record is data of an entry, at its index as a signed number, in a message that was sent with
    the secret of the stream. *)
Definition sent (w : World) (k : streamKey) (i : Z) (d : bytes) : Prop := exists m b be d0 desc le, m ∈ w_msgs w /\ Process_check m = Ok b /\
  be ∈ b_Entries b /\ k = (b_Project b, Desc_Path desc) /\ (be_Desc be = Some d0 /\ desc = set_Prefix d0 (b_Prefix b)) /\ has_secret w k (b_Secret b) /\ le ∈ be_Logs be /\
  Descriptor_Validate desc true = None /\ LogEntry_Validate le desc = true /\ i64 (StreamIndex le) = i /\ MarshalEntry le = Some d.

Definition info_ok (w : World) (k : streamKey) (st : StreamInfo) : Prop :=
  si_key st = k /\ si_ID st = LogStreamID k.2 /\ has_secret w k (si_Secret st).
Definition reg_ok (w : World) (r : RegisterPromise) : Prop :=
  entry_of w (rp_entry r) (si_key (rp_state r)) /\ (exists desc, MarshalDesc desc = Some (rp_desc r) /\ Desc_Path desc = si_Path (rp_state r)) /\
  forall st, rp_result r = Some (Ok st) -> info_ok w (si_key (rp_state r)) st.
Definition tr_key (r : TerminateRequest) : streamKey := (tr_Project r, tr_Path r).
Definition term_ok (w : World) (t : TerminatePromise) : Prop :=
  entry_of w (tp_entry t) (tr_key (tp_request t)) /\ tr_ID (tp_request t) = LogStreamID (tr_Path (tp_request t)) /\
  (tp_result t = Some None -> ended w (tr_key (tp_request t))).
Definition reg_for (w : World) (p : nat) (k : streamKey) : Prop := exists r, w_regs w !! p = Some r /\ si_key (rp_state r) = k.
Definition term_for (w : World) (p : nat) (k : streamKey) : Prop := exists t, w_terms w !! p = Some t /\ tr_key (tp_request t) = k.
Definition entry_ok (w : World) (e : cacheEntry) : Prop :=
  (0 <= ce_terminalIndex e -> ended w (ce_key e)) /\ (forall p, registerP e = Some p -> reg_for w p (ce_key e)) /\
  (forall p, terminateP e = Some p -> term_for w p (ce_key e)).
Definition cache_ok (w : World) (c : Cache streamKey nat) : Prop := exists l, LRU.holds c l /\ forall k a, (k, a) ∈ l -> entry_of w a k.

Definition put_ok (w : World) (h : Handler) (put : PutTask) : Prop :=
  match put with
  | PutStart => h_logData h <> []
  | PutDone e => e = None -> forall n d, h_logData h !! n = Some d -> stored (w_store w) (h_key h) (i64 (h_blockIndex h + Z.of_nat n)) d
  end.
Definition termtask_ok (w : World) (h : Handler) (t : TermTask) : Prop :=
  match t with
  | TermStart => h_terminal h <> None
  | TermEntry a => h_terminal h <> None /\ entry_of w a (h_key h)
  | TermWait a p => h_terminal h <> None /\ entry_of w a (h_key h) /\ term_for w p (h_key h)
  | TermDone e => e = None -> h_terminal h <> None -> ended w (h_key h)
  end.
Definition state_ok (w : World) (h : Handler) (st : StreamInfo) : Prop := info_ok w (h_key h) st /\ si_Secret st = h_secret h.
Definition phase_ok (w : World) (h : Handler) (ph : Phase) : Prop :=
  match ph with
  | Starting | Failed _ | Skipped _ => True
  | HasEntry a => entry_of w a (h_key h)
  | Registering a p _ => entry_of w a (h_key h) /\ reg_for w p (h_key h)
  | Running st put term => state_ok w h st /\ put_ok w h put /\ termtask_ok w h term
  | Finished st e errs => state_ok w h st /\ put_ok w h (PutDone e) /\ exists r, errs = task_errors e r /\ termtask_ok w h (TermDone r)
  end.

Record world_inv (w : World) : Prop := {
  wi_hist p s : s ∈ hist w p -> coord_ok s /\ store_evolves s (present w p);
  wi_store : store_ok (w_store w);
  wi_stored k i d : stored (w_store w) k i d -> stored store0 k i d \/ sent w k i d;
  wi_caches c cache : w_caches w !! c = Some cache -> cache_ok w cache;
  wi_entries a e : w_entries w !! a = Some e -> entry_ok w e;
  wi_regs p r : w_regs w !! p = Some r -> reg_ok w r;
  wi_terms p t : w_terms w !! p = Some t -> term_ok w t;
  wi_threads i t : w_threads w !! i = Some t -> is_Some (w_caches w !! th_coll t) /\ from_msg w (th_handler t) /\ phase_ok w (th_handler t) (th_phase t)
}.

(** ** Worlds only grow *)
Record world_ext (w w' : World) : Prop := {
  we_coord p : store_evolves (present w p) (present w' p);
  we_store k i d : stored (w_store w) k i d -> stored (w_store w') k i d;
  we_caches c : is_Some (w_caches w !! c) -> is_Some (w_caches w' !! c);
  we_entries a k : entry_of w a k -> entry_of w' a k;
  we_regs p k : reg_for w p k -> reg_for w' p k;
  we_terms p k : term_for w p k -> term_for w' p k;
  we_msgs m : m ∈ w_msgs w -> m ∈ w_msgs w'
}.
#[export] Instance world_ext_preorder : PreOrder world_ext.
Proof.
  split.
  - intros w. split; auto. intros p. reflexivity.
  - intros w1 w2 w3 [A1 A2 A3 A4 A5 A6 A7] [B1 B2 B3 B4 B5 B6 B7]. split; auto. intros p. etrans; [apply A1|apply B1].
Qed.

Lemma has_secret_mono w w' k x : world_ext w w' -> has_secret w k x -> has_secret w' k x.
Proof.
  intros E (lst & H1 & H2). destruct (se_states _ _ (we_coord _ _ E k.1) _ _ H1) as (b & Hb & Eb). exists b. split; [done|]. by rewrite (ev_secret _ _ Eb).
Qed.
Lemma ended_mono w w' k : world_ext w w' -> ended w k -> ended w' k.
Proof.
  intros E (lst & H1 & H2). destruct (se_states _ _ (we_coord _ _ E k.1) _ _ H1) as (b & Hb & Eb). exists b. split; [done|]. by eapply evolves_terminated.
Qed.
Lemma info_ok_mono w w' k st : world_ext w w' -> info_ok w k st -> info_ok w' k st.
Proof. intros E (? & ? & ?). split; [done|]. split; [done|]. by eapply has_secret_mono. Qed.
Lemma sent_mono w w' k i d : world_ext w w' -> sent w k i d -> sent w' k i d.
Proof.
  intros E (m & b & be & d0 & desc & le & H1 & H2 & H3 & H4 & H5 & H6 & H7). exists m, b, be, d0, desc, le.
  split; [by apply (we_msgs _ _ E)|]. do 4 (split; [done|]). split; [by eapply has_secret_mono|done].
Qed.
Lemma from_msg_mono w w' h : world_ext w w' -> from_msg w h -> from_msg w' h.
Proof. intros E (m & b & be & H1 & H2). exists m, b, be. split; [by apply (we_msgs _ _ E)|done]. Qed.
Lemma reg_ok_mono w w' r : world_ext w w' -> reg_ok w r -> reg_ok w' r.
Proof. intros E (H1 & H2 & H3). split; [by apply (we_entries _ _ E)|]. split; [done|]. intros st ?%H3. by eapply info_ok_mono. Qed.
Lemma term_ok_mono w w' t : world_ext w w' -> term_ok w t -> term_ok w' t.
Proof. intros E (H1 & H2 & H3). split; [by apply (we_entries _ _ E)|]. split; [done|]. intros ?%H3. by eapply ended_mono. Qed.
Lemma entry_ok_mono w w' e : world_ext w w' -> entry_ok w e -> entry_ok w' e.
Proof.
  intros E (H1 & H2 & H3). split; [intros ?%H1; by eapply ended_mono|].
  split; intros p Hp; [by apply (we_regs _ _ E), H2|by apply (we_terms _ _ E), H3].
Qed.
Lemma cache_ok_mono w w' c : world_ext w w' -> cache_ok w c -> cache_ok w' c.
Proof. intros E (l & H1 & H2). exists l. split; [done|]. intros k a ?%H2. by apply (we_entries _ _ E). Qed.
Lemma put_ok_mono w w' h t : world_ext w w' -> put_ok w h t -> put_ok w' h t.
Proof. intros E. destruct t as [|e]; [done|]. intros H He n d Hn. by apply (we_store _ _ E), H. Qed.
Lemma termtask_ok_mono w w' h t : world_ext w w' -> termtask_ok w h t -> termtask_ok w' h t.
Proof.
  intros E. destruct t as [|a|a p|e]; cbn; [done|intros [? ?]; split; [done|by apply (we_entries _ _ E)]|..].
  { intros (? & ? & ?). split; [done|]. split; [by apply (we_entries _ _ E)|by apply (we_terms _ _ E)]. }
  intros H He Ht. by eapply ended_mono; [|apply H].
Qed.
Lemma state_ok_mono w w' h st : world_ext w w' -> state_ok w h st -> state_ok w' h st.
Proof. intros E [? ?]. split; [by eapply info_ok_mono|done]. Qed.
Lemma phase_ok_mono w w' h ph : world_ext w w' -> phase_ok w h ph -> phase_ok w' h ph.
Proof.
  intros E. destruct ph as [|a|a p tidx|st put term|e|st|st e errs]; cbn; try done.
  - by apply (we_entries _ _ E).
  - intros [? ?]. split; [by apply (we_entries _ _ E)|by apply (we_regs _ _ E)].
  - intros (? & ? & ?). split; [by eapply state_ok_mono|]. split; [by eapply put_ok_mono|by eapply termtask_ok_mono].
  - intros (? & ? & r & ? & ?). split; [by eapply state_ok_mono|]. split; [by eapply (put_ok_mono _ _ _ (PutDone e))|].
    exists r. split; [done|]. by eapply (termtask_ok_mono _ _ _ (TermDone r)).
Qed.

(** What is left to show when a world grows: the parts that are new. *)
Lemma inv_grow w w' : world_inv w -> world_ext w w' ->
  (forall p s, s ∈ hist w' p -> coord_ok s /\ store_evolves s (present w' p)) -> store_ok (w_store w') ->
  (forall k i d, stored (w_store w') k i d -> stored (w_store w) k i d \/ sent w' k i d) ->
  (forall c cache, w_caches w' !! c = Some cache -> w_caches w !! c = Some cache \/ cache_ok w' cache) ->
  (forall a e, w_entries w' !! a = Some e -> w_entries w !! a = Some e \/ entry_ok w' e) ->
  (forall p r, w_regs w' !! p = Some r -> w_regs w !! p = Some r \/ reg_ok w' r) ->
  (forall p t, w_terms w' !! p = Some t -> w_terms w !! p = Some t \/ term_ok w' t) ->
  (forall i t, w_threads w' !! i = Some t -> w_threads w !! i = Some t \/
     is_Some (w_caches w' !! th_coll t) /\ from_msg w' (th_handler t) /\ phase_ok w' (th_handler t) (th_phase t)) -> world_inv w'.
Proof.
  intros I E H1 H2 H3 H4 H5 H6 H7 H8. split; [done|done|..].
  - intros k i d [H|H]%H3; [|by right]. destruct (wi_stored _ I _ _ _ H); [by left|right; by eapply sent_mono].
  - intros c cache [H|H]%H4; [|done]. eapply cache_ok_mono; [done|]. by eapply wi_caches.
  - intros a e [H|H]%H5; [|done]. eapply entry_ok_mono; [done|]. by eapply wi_entries.
  - intros p r [H|H]%H6; [|done]. eapply reg_ok_mono; [done|]. by eapply wi_regs.
  - intros p t [H|H]%H7; [|done]. eapply term_ok_mono; [done|]. by eapply wi_terms.
  - intros i t [H|H]%H8; [|done]. destruct (wi_threads _ I _ _ H) as (? & ? & ?). split; [by apply (we_caches _ _ E)|].
    split; [by eapply from_msg_mono|by eapply phase_ok_mono].
Qed.

(** ** Each part of a world *)
Ltac grow w I := apply (inv_grow w); [exact I|done|try exact (wi_hist _ I)|try exact (wi_store _ I)|..]; cbn; try (by auto).
Lemma hist_with_coord w p s q : hist (with_coord w p s) q = if decide (q = p) then s :: hist w p else hist w q.
Proof.
  unfold hist at 1. cbn. destruct (decide (q = p)) as [->|Hne]; [by rewrite lookup_insert_eq|by rewrite lookup_insert_ne].
Qed.
Lemma grow_coord w p s : world_inv w -> coord_ok s -> store_evolves (present w p) s -> world_inv (with_coord w p s) /\ world_ext w (with_coord w p s).
Proof.
  intros I Hs Hev. assert (Hp : forall q, present (with_coord w p s) q = if decide (q = p) then s else present w q).
  { intros q. unfold present, past. rewrite hist_with_coord. by destruct (decide (q = p)). }
  assert (E : world_ext w (with_coord w p s)).
  { split; cbn; try done. intros q. rewrite Hp. by destruct (decide (q = p)) as [->|]. }
  split; [|done]. grow w I.
  intros q s'. rewrite hist_with_coord, Hp. destruct (decide (q = p)) as [->|]; [|by apply wi_hist].
  intros [->|Hin]%elem_of_cons; [done|]. destruct (wi_hist _ I _ _ Hin) as [H1 H2]. split; [done|by etrans].
Qed.
Lemma grow_entry w a e e0 : world_inv w -> w_entries w !! a = Some e0 -> ce_key e = ce_key e0 -> entry_ok w e ->
  world_inv (with_entry w a e) /\ world_ext w (with_entry w a e).
Proof.
  intros I Ha Hk He. assert (E : world_ext w (with_entry w a e)).
  { split; cbn; try done. intros b k (e1 & H1 & H2). unfold entry_of. cbn. destruct (decide (b = a)) as [->|Hne].
    - rewrite lookup_insert_eq. exists e. split; [done|]. congruence.
    - rewrite lookup_insert_ne by done. by exists e1. }
  split; [|done]. grow w I.
  intros b e1 [[<- <-]|[_ H]]%lookup_insert_Some; [right|by left]. by eapply entry_ok_mono.
Qed.
Lemma grow_reg w p r : world_inv w -> (forall r0, w_regs w !! p = Some r0 -> rp_state r = rp_state r0) -> reg_ok w r ->
  world_inv (with_reg w p r) /\ world_ext w (with_reg w p r).
Proof.
  intros I Hk Hr. assert (E : world_ext w (with_reg w p r)).
  { split; cbn; try done. intros q k (r1 & H1 & H2). unfold reg_for. cbn. destruct (decide (q = p)) as [->|Hne].
    - rewrite lookup_insert_eq. exists r. split; [done|]. by rewrite (Hk _ H1).
    - rewrite lookup_insert_ne by done. by exists r1. }
  split; [|done]. grow w I.
  intros q r1 [[<- <-]|[_ H]]%lookup_insert_Some; [right|by left]. by eapply reg_ok_mono.
Qed.
Lemma grow_term w p t : world_inv w -> (forall t0, w_terms w !! p = Some t0 -> tp_request t = tp_request t0) -> term_ok w t ->
  world_inv (with_term w p t) /\ world_ext w (with_term w p t).
Proof.
  intros I Hk Ht. assert (E : world_ext w (with_term w p t)).
  { split; cbn; try done. intros q k (t1 & H1 & H2). unfold term_for. cbn. destruct (decide (q = p)) as [->|Hne].
    - rewrite lookup_insert_eq. exists t. split; [done|]. by rewrite (Hk _ H1).
    - rewrite lookup_insert_ne by done. by exists t1. }
  split; [|done]. grow w I.
  intros q t1 [[<- <-]|[_ H]]%lookup_insert_Some; [right|by left]. by eapply term_ok_mono.
Qed.
Lemma grow_phase w i t ph : world_inv w -> w_threads w !! i = Some t -> phase_ok w (th_handler t) ph ->
  world_inv (to_phase w i t ph) /\ world_ext w (to_phase w i t ph).
Proof.
  intros I Ht Hp. assert (E : world_ext w (to_phase w i t ph)) by by split.
  split; [|done]. grow w I.
  intros j u [[<- <-]|[_ H]]%lookup_insert_Some; [right|by left]. cbn. destruct (wi_threads _ I _ _ Ht) as (H1 & H2 & _).
  split; [done|]. split; [by eapply from_msg_mono|by eapply phase_ok_mono].
Qed.

Lemma grow_then w w1 w2 : world_ext w w1 -> world_inv w2 /\ world_ext w1 w2 -> world_inv w2 /\ world_ext w w2.
Proof. intros E [I E']. split; [done|by etrans]. Qed.

(** What a handler puts was sent. *)
Lemma from_msg_sent w h n d : from_msg w h -> has_secret w (h_key h) (h_secret h) -> h_logData h !! n = Some d ->
  sent w (h_key h) (i64 (h_blockIndex h + Z.of_nat n)) d.
Proof.
  intros (m & b & be & Hm & Hp & Hb & A) Hsec Hn.
  destruct (ac_logs _ _ _ _ A n d Hn) as (le & L1 & L2 & L3 & L4). destruct (ac_key _ _ _ _ A) as (K1 & K2). destruct (ac_from _ _ _ _ A) as (d0 & K3). destruct (ac_desc _ _ _ _ A) as [D1 D2].
  exists m, b, be, d0, (h_desc h), le. unfold h_key in *. rewrite (ac_secret _ _ _ _ A), K1, K2 in *. do 5 (split; [done|]). split; [done|].
  split; [by eapply list_elem_of_lookup_2|]. do 2 (split; [done|]). split; [|done]. by rewrite L3, i64_u64.
Qed.
Lemma grow_store w i t st term : world_inv w -> w_threads w !! i = Some t -> th_phase t = Running st PutStart term ->
  world_inv (put_step w i t st term) /\ world_ext w (put_step w i t st term).
Proof.
  intros I Ht Hph. destruct (wi_threads _ I _ _ Ht) as (_ & Hh & Hp). rewrite Hph in Hp. destruct Hp as ([[Hk Hi] Hs] & Hne & Hterm). cbn in Hne.
  unfold put_step. destruct (Put (w_store w) (put_request (th_handler t))) as [e s] eqn:HP.
  assert (Hfit : put_index (put_request (th_handler t))) by apply i64_range.
  assert (E : world_ext w (with_store w s)).
  { split; cbn; try done. intros k j d. by apply (Put_keeps _ _ _ _ _ _ _ (wi_store _ I) Hfit HP). }
  assert (Hsec : has_secret (with_store w s) (h_key (th_handler t)) (h_secret (th_handler t))) by (rewrite <-Hs; by apply Hi).
  assert (I2 : world_inv (with_store w s)).
  { grow w I.
    - by apply (Put_ok _ _ _ _ (wi_store _ I) Hfit HP).
    - intros k j d Hd. destruct (Put_new _ _ _ _ _ _ _ (wi_store _ I) Hfit HP Hd) as [?|(-> & n & Hn & ->)]; [by left|right].
      cbn in Hn |- *. rewrite i64_add_l.
      apply from_msg_sent; [by eapply from_msg_mono|done|done]. }
  apply (grow_then _ (with_store w s)); [done|]. apply grow_phase; [done|done|]. split; [by apply (state_ok_mono w)|]. split; [|by eapply termtask_ok_mono].
  intros -> n d Hn. pose proof (Put_done _ _ _ n d (wi_store _ I) Hfit HP Hn) as H. cbn in H. by rewrite i64_add_l in H.
Qed.

(** ** The cache and its promises *)
Lemma fresh_of_none {X} (m : gmap nat X) : m !! fresh_of m = None.
Proof. apply not_elem_of_dom. unfold fresh_of. apply is_fresh. Qed.
Lemma getCacheEntry_ok w c k now a w' : world_inv w -> getCacheEntry w c k now expiration = Some (a, w') ->
  world_inv w' /\ world_ext w w' /\ entry_of w' a k.
Proof.
  intros I. unfold getCacheEntry. destruct (w_caches w !! c) as [cache|] eqn:Hc; [|done]. cbn.
  destruct (wi_caches _ I _ _ Hc) as (l & Hl & Hin). set (new := fresh_of (w_entries w)). match goal with |- context [Mutate cache k ?g] => set (gen := g) end.
  destruct (Mutate_spec cache l k gen Hl) as (cache' & -> & Hl' & _). cbn.
  destruct (gen (alookup l k)) as [b|] eqn:Hg; cbn; [|done]. intros [= -> <-].
  set (w' := with_caches _ _ _). set (e0 := newCacheEntry k now expiration).
  pose proof (fresh_of_none (w_entries w)) as Hnew. fold new in Hnew.
  assert (Ha : a = new \/ a <> new /\ alookup l k = Some a).
  { unfold gen in Hg. destruct (alookup l k) as [a0|] eqn:El; [|left; congruence].
    destruct (w_entries w !! a0) as [e|] eqn:He; [|done]. destruct (now <? expiresAt e); [|left; congruence].
    right. injection Hg as <-. split; [|done]. intros ->. congruence. }
  assert (E : world_ext w w').
  { split; cbn; try done.
    - intros d Hd. destruct (decide (d = c)) as [->|Hne]; [by rewrite lookup_insert_eq|by rewrite lookup_insert_ne].
    - intros b k' (e & H1 & H2). exists e. split; [|done]. cbn. case_bool_decide; [|done]. rewrite lookup_insert_ne; [done|]. intros <-. simplify_eq. }
  assert (Hent : entry_of w' a k).
  { destruct Ha as [->|[Hne Hal]].
    - exists e0. cbn. by rewrite bool_decide_true, lookup_insert_eq.
    - apply (we_entries _ _ E), Hin. by apply alookup_in. }
  split; [|by split]. grow w I.
  - intros d cache0 [[<- <-]|[_ H]]%lookup_insert_Some; [right|by left]. exists (amutate (heuristic cache) l k gen).2. split; [done|].
    intros k' b Hb. destruct (amutate_in _ _ _ _ _ Hb) as [H|[H1 H2]]; [by apply (we_entries _ _ E), Hin|]. cbn in H1, H2. by simplify_eq.
  - case_bool_decide; [|by left]. intros b e [[<- <-]|[_ H']]%lookup_insert_Some; [right|by left]. by split.
Qed.

Lemma getCacheEntry_threads w c k now a w' : getCacheEntry w c k now expiration = Some (a, w') -> w_threads w' = w_threads w.
Proof.
  unfold getCacheEntry. destruct (w_caches w !! c); [|done]. cbn.
  match goal with |- context [Mutate ?c ?k ?g] => destruct (Mutate c k g) as [[[v|] cache]|]; [|done..] end. cbn. by intros [= <- <-].
Qed.
Lemma lock_register_threads w a st desc p tidx w' : lock_register w a st desc = Some (p, tidx, w') -> w_threads w' = w_threads w.
Proof. unfold lock_register. destruct (w_entries w !! a) as [e|]; [|done]. cbn. by destruct (registerP e); intros [= <- <- <-]. Qed.
Lemma lock_terminate_threads w a r p tidx w' : lock_terminate w a r = Some (p, tidx, w') -> w_threads w' = w_threads w.
Proof. unfold lock_terminate. destruct (w_entries w !! a) as [e|]; [|done]. cbn. by destruct (terminateP e); intros [= <- <- <-]. Qed.

Lemma lock_register_ok w a st desc d p tidx w' : world_inv w -> entry_of w a (si_key st) -> MarshalDesc d = Some desc -> Desc_Path d = si_Path st ->
  lock_register w a st desc = Some (p, tidx, w') -> world_inv w' /\ world_ext w w' /\ reg_for w' p (si_key st).
Proof.
  intros I (e & He & Hk) Hm Hd. unfold lock_register. rewrite He. cbn. pose proof (wi_entries _ I _ _ He) as Hok. pose proof Hok as (E1 & E2 & E3).
  destruct (registerP e) as [q|] eqn:Hq; intros [= <- <- <-].
  - split; [done|]. split; [done|]. rewrite <-Hk. by apply E2.
  - set (r := {| rp_entry := a; rp_state := st; rp_desc := desc; rp_result := None |}). set (q := fresh_of (w_regs w)).
    assert (Hfr : w_regs w !! q = None) by apply fresh_of_none.
    destruct (grow_reg w q r) as [I2 X2]; [done|intros r0; by rewrite Hfr|split; [by exists e|split; [by exists d|done]]|].
    assert (Hf : reg_for (with_reg w q r) q (si_key st)) by (exists r; cbn; by rewrite lookup_insert_eq).
    destruct (grow_entry (with_reg w q r) a (set_registerP e (Some q)) e) as [I3 X3]; [done|done|done| |split; [done|split; [by etrans|by apply (we_regs _ _ X3)]]].
    destruct (entry_ok_mono _ _ _ X2 Hok) as (F1 & F2 & F3). split; [done|]. split; [|done]. cbn. intros q' [= <-]. by rewrite Hk.
Qed.
Lemma lock_terminate_ok w a r p tidx w' : world_inv w -> entry_of w a (tr_key r) -> tr_ID r = LogStreamID (tr_Path r) ->
  lock_terminate w a r = Some (p, tidx, w') -> world_inv w' /\ world_ext w w' /\ term_for w' p (tr_key r) /\ (0 <= tidx -> ended w' (tr_key r)).
Proof.
  intros I (e & He & Hk) Hid. unfold lock_terminate. rewrite He. cbn. pose proof (wi_entries _ I _ _ He) as Hok. pose proof Hok as (E1 & E2 & E3).
  destruct (terminateP e) as [q|] eqn:Hq; intros [= <- <- <-].
  - split; [done|]. split; [done|]. rewrite <-Hk. split; [by apply E3|done].
  - set (t := {| tp_entry := a; tp_request := r; tp_result := None |}). set (q := fresh_of (w_terms w)).
    assert (Hfr : w_terms w !! q = None) by apply fresh_of_none.
    destruct (grow_term w q t) as [I2 X2]; [done|intros t0; by rewrite Hfr|split; [by exists e|by split]|].
    assert (Hf : term_for (with_term w q t) q (tr_key r)) by (exists t; cbn; by rewrite lookup_insert_eq).
    destruct (grow_entry (with_term w q t) a (set_terminateP e (Some q)) e) as [I3 X3]; [done|done|done| |].
    + destruct (entry_ok_mono _ _ _ X2 Hok) as (F1 & F2 & F3). split; [done|]. split; [done|]. cbn. intros q' [= <-]. by rewrite Hk.
    + split; [done|]. split; [by etrans|]. split; [by apply (we_terms _ _ X3)|]. intros H. rewrite <-Hk in *. eapply ended_mono; [|by apply E1]. by etrans.
Qed.
Lemma load_terminal_ok w a tidx k : world_inv w -> entry_of w a k -> (0 <= tidx -> ended w k) ->
  world_inv (load_terminal w a tidx) /\ world_ext w (load_terminal w a tidx).
Proof.
  intros I (e & He & Hk) Ht. unfold load_terminal. rewrite He. apply (grow_entry _ _ _ e); [done|done|by unfold loadRemoteTerminalIndex; case_match|].
  destruct (wi_entries _ I _ _ He) as (E1 & E2 & E3). unfold loadRemoteTerminalIndex. destruct (_ && _) eqn:B; [|by split].
  split; [|done]. cbn. intros H. rewrite Hk. by apply Ht.
Qed.
Lemma clear_register_ok w a p e : world_inv w -> world_inv (clear_register w a p e) /\ world_ext w (clear_register w a p e).
Proof.
  intros I. unfold clear_register. destruct (w_entries w !! a) as [ce|] eqn:He; [|by split]. case_match; [|by split].
  apply (grow_entry _ _ _ ce); [done|done|done|]. destruct (wi_entries _ I _ _ He) as (E1 & E2 & E3). by split.
Qed.
Lemma clear_terminate_ok w a p e : world_inv w -> world_inv (clear_terminate w a p e) /\ world_ext w (clear_terminate w a p e).
Proof.
  intros I. unfold clear_terminate. destruct (w_entries w !! a) as [ce|] eqn:He; [|by split]. case_match; [|by split].
  apply (grow_entry _ _ _ ce); [done|done|done|]. destruct (wi_entries _ I _ _ He) as (E1 & E2 & E3). by split.
Qed.

(** ** Calls *)
Lemma past_ok w p i : world_inv w -> coord_ok (past w p i) /\ store_evolves (past w p i) (present w p).
Proof.
  intros I. unfold past at 1 2. destruct (hist w p !! i) as [s|] eqn:Hi; cbn.
  - eapply wi_hist; [done|]. by eapply list_elem_of_lookup_2.
  - split; [apply empty_cstore_ok|]. split; cbn; [apply map_empty_subseteq|apply map_empty_subseteq|by intros ? ?; rewrite lookup_empty|by intros ? ?%elem_of_nil].
Qed.
Lemma register_call_ok w st desc d x r w' : world_inv w -> MarshalDesc d = Some desc -> Desc_Path d = si_Path st ->
  register_call w st desc x = (r, w') -> world_inv w' /\ world_ext w w' /\
  forall st', r = Ok st' -> info_ok w' (si_key st) st' /\ (0 <= si_TerminalIndex st' -> ended w' (si_key st)).
Proof.
  intros I Hm Hd. unfold register_call. destruct (impl_RegisterStream_request st desc) as [req|e] eqn:Hr.
  2: { intros [= <- <-]. by split. }
  destruct x as [e i0 i1|t]; [|intros [= <- <-]; by split].
  destruct (RegisterStream e req _ _ _) as [[r0 s'] o] eqn:HR.
  pose proof (past_ok w (si_Project st) i0 I) as [_ P0]. pose proof (past_ok w (si_Project st) i1 I) as [P1 P1'].
  destruct (past_ok w (si_Project st) 0 I) as [P2 _].
  destruct (RegisterStream_spec _ _ _ _ _ _ _ _ P2 P1 P0 P1' HR) as (S1 & S2 & S3). intros [= <- <-].
  destruct (grow_coord _ _ _ I S1 S2) as [I2 X2]. split; [done|]. split; [done|]. intros st' Hr0.
  destruct r0 as [[id remote]|c]; [|done]. injection Hr0 as <-. destruct (S3 _ _ eq_refl) as (desc' & lst & D1 & -> & D3 & D4 & D5).
  assert (Hp : Desc_Path desc' = Desc_Path d).
  { unfold impl_RegisterStream_request in Hr. repeat (case_match; try done). injection Hr as <-. cbn in D1.
    destruct (codec _ _ Hm) as (d' & C1 & C2 & C3). rewrite C1 in D1. injection D1 as <-. unfold Desc_Path. by rewrite C2, C3. }
  rewrite Hp, Hd in *.
  assert (Hst : states (present (with_coord w (si_Project st) s') (si_Project st)) !! LogStreamID (si_Path st) = Some lst).
  { unfold present, past. rewrite hist_with_coord, decide_True by done. done. }
  split; [split; [done|split; [done|by exists lst]]|]. intros H. exists lst. split; [done|]. by apply D5.
Qed.
Lemma terminate_call_ok w r x e w' : world_inv w -> tr_ID r = LogStreamID (tr_Path r) -> terminate_call w r x = (e, w') ->
  world_inv w' /\ world_ext w w' /\ (e = None -> ended w' (tr_key r)).
Proof.
  intros I Hid. unfold terminate_call. destruct (impl_TerminateStream_request r) as [req|e0] eqn:Hr.
  2: { intros [= <- <-]. by split. }
  destruct x as [en i0 i1|t]; [|intros [= <- <-]; by split].
  destruct (TerminateStream en req _) as [[r0 s'] o] eqn:HT. destruct (past_ok w (tr_Project r) 0 I) as [P2 _].
  destruct (TerminateStream_spec _ _ _ _ _ _ P2 HT) as (S1 & S2 & S3). intros [= <- <-].
  destruct (grow_coord _ _ _ I S1 S2) as [I2 X2]. split; [done|]. split; [done|]. intros Hn. destruct r0 as [c|]; [done|].
  destruct (S3 eq_refl) as (id & lst & N1 & N2 & N3). exists lst. split; [|done].
  assert (ts_Id req = tr_ID r) as Hreq by (unfold impl_TerminateStream_request in Hr; repeat (case_match; try done); by injection Hr as <-).
  rewrite Hreq, Hid, Normalize_ID in N1 by done. injection N1 as <-. unfold present, past. rewrite hist_with_coord, decide_True by done. done.
Qed.
Lemma resolve_register_ok w p x w' : world_inv w -> resolve_register w p x = Some w' -> world_inv w' /\ world_ext w w'.
Proof.
  intros I. unfold resolve_register. destruct (w_regs w !! p) as [r|] eqn:Hp; cbn; [|done]. destruct (rp_result r); [done|].
  destruct (wi_regs _ I _ _ Hp) as (R1 & (d & R2 & R3) & R4). destruct (register_call w (rp_state r) (rp_desc r) x) as [res w1] eqn:Hc. intros [= <-].
  destruct (register_call_ok _ _ _ _ _ _ _ I R2 R3 Hc) as (I1 & X1 & C).
  set (w2 := match res with Ok st => _ | Err _ => _ end).
  assert (world_inv w2 /\ world_ext w1 w2) as [I2 X2].
  { unfold w2. destruct res as [st|]; [|done]. destruct (C _ eq_refl) as [_ C2]. eapply load_terminal_ok; [done|by apply (we_entries _ _ X1)|done]. }
  assert (Hr : w_regs w2 = w_regs w).
  { trans (w_regs w1); [unfold w2, load_terminal; by repeat case_match|]. unfold register_call in Hc. repeat case_match; by injection Hc as <- <-. }
  apply (grow_then _ w2); [by etrans|]. apply (grow_reg w2); [done|intros r0; rewrite Hr, Hp; by intros [= <-]|]. split; [|split; [by exists d|]].
  - apply (we_entries _ _ X2), (we_entries _ _ X1). done.
  - cbn. intros st [= ->]. eapply info_ok_mono; [|by apply C]. done.
Qed.
Lemma resolve_terminate_ok w p x w' : world_inv w -> resolve_terminate w p x = Some w' -> world_inv w' /\ world_ext w w'.
Proof.
  intros I. unfold resolve_terminate. destruct (w_terms w !! p) as [t|] eqn:Hp; cbn; [|done]. destruct (tp_result t); [done|].
  destruct (wi_terms _ I _ _ Hp) as (T1 & T2 & T3). destruct (terminate_call w (tp_request t) x) as [res w1] eqn:Hc. intros [= <-].
  destruct (terminate_call_ok _ _ _ _ _ I T2 Hc) as (I1 & X1 & C).
  set (w2 := match res with None => _ | Some _ => _ end).
  assert (world_inv w2 /\ world_ext w1 w2) as [I2 X2].
  { unfold w2. destruct res as [e|]; [done|]. eapply load_terminal_ok; [done|by apply (we_entries _ _ X1)|by intros _; apply C]. }
  assert (Hr : w_terms w2 = w_terms w).
  { trans (w_terms w1); [unfold w2, load_terminal; by repeat case_match|]. unfold terminate_call in Hc. repeat case_match; by injection Hc as <- <-. }
  apply (grow_then _ w2); [by etrans|]. apply (grow_term w2); [done|intros t0; rewrite Hr, Hp; by intros [= <-]|]. split; [|split; [done|]].
  - apply (we_entries _ _ X2), (we_entries _ _ X1). done.
  - cbn. intros [= ->]. eapply ended_mono; [|by apply C]. done.
Qed.

(** ** Steps *)
Lemma info_ok_terminal w k st t : info_ok w k st -> info_ok w k (set_TerminalIndex st t) /\ info_ok w k (with_terminal st t).
Proof. intros (H1 & H2 & H3). split; [by split|]. unfold with_terminal. by case_match. Qed.
Lemma registered_ok w i t a p tidx r remote w' ph : world_inv w -> w_threads w !! i = Some t -> th_phase t = Registering a p tidx ->
  w_regs w !! p = Some r -> rp_result r = Some (Ok remote) -> registered w p r remote tidx (th_handler t) = (w', ph) ->
  world_inv (to_phase w' i t ph) /\ world_ext w (to_phase w' i t ph).
Proof.
  intros I Ht Hph Hp Hr. destruct (wi_threads _ I _ _ Ht) as (_ & Hh & Hok). rewrite Hph in Hok. destruct Hok as [_ (r1 & Hp1 & Hk)].
  simplify_eq. destruct (wi_regs _ I _ _ Hp) as (R1 & R2 & R3). specialize (R3 _ Hr). rewrite Hk in R3.
  unfold registered. set (st := with_terminal remote tidx). assert (Hst : info_ok w (h_key (th_handler t)) st) by by apply info_ok_terminal.
  destruct (skipped (th_handler t) st) eqn:Hsk; [intros [= <- <-]; by apply grow_phase|].
  assert (Hsec : si_Secret st = h_secret (th_handler t)).
  { unfold skipped in Hsk. destruct (bool_decide _) eqn:B in Hsk; [|done]. bool_to_prop. done. }
  set (put := match h_logData (th_handler t) with [] => _ | _ => _ end).
  assert (Hput : forall w, put_ok w (th_handler t) put).
  { intros w0. unfold put. destruct (h_logData (th_handler t)) eqn:E; [|cbn; by rewrite E]. intros _ n d. by rewrite E, lookup_nil. }
  destruct (h_terminal (th_handler t)) as [tt|] eqn:Htt.
  - destruct (si_TerminalIndex st <? 0); intros [= <- <-]; [|apply grow_phase; [done|done|split; [by split|split; [done|cbn; by rewrite Htt]]]].
    assert (Hst' : info_ok w (h_key (th_handler t)) (set_TerminalIndex st (i64 tt))) by by apply (info_ok_terminal _ _ _ (i64 tt)).
    set (r' := {| rp_entry := _; rp_state := _; rp_desc := _; rp_result := _ |}).
    destruct (grow_reg w p r') as [I2 X2]; [done|by intros r0 Hr0; simplify_eq|split; [done|split; [done|]]|].
    + cbn. intros st' [= <-]. by rewrite Hk.
    + apply (grow_then _ _ _ X2), grow_phase; [done|done|]. split; [split; [by eapply info_ok_mono|done]|]. split; [done|cbn; by rewrite Htt].
  - intros [= <- <-]. apply grow_phase; [done|done|]. split; [by split|]. split; [done|]. by intros _ ?.
Qed.
Lemma term_step_ok w i t st put term now w' : world_inv w -> w_threads w !! i = Some t -> th_phase t = Running st put term ->
  term_step expiration w i t st put term now = Some w' -> world_inv w' /\ world_ext w w'.
Proof.
  intros I Ht Hph. destruct (wi_threads _ I _ _ Ht) as (_ & Hh & Hok). rewrite Hph in Hok. destruct Hok as ([[Hk [Hid Hs]] Hsec] & Hput & Hterm).
  assert (Hstep : forall w2 term', world_inv w2 -> world_ext w w2 -> w_threads w2 = w_threads w -> termtask_ok w2 (th_handler t) term' ->
    world_inv (to_phase w2 i t (Running st put term')) /\ world_ext w (to_phase w2 i t (Running st put term'))).
  { intros w2 term' I2 X2 E2 T2. apply (grow_then _ _ _ X2), grow_phase; [done|by rewrite E2|]. split; [split; [|done]; by eapply info_ok_mono|].
    split; [by eapply put_ok_mono|done]. }
  unfold term_step. destruct term as [|a|a p|e]; [..|done]; destruct (h_terminal (th_handler t)) as [tidx|] eqn:Htt; try done.
  - destruct (getCacheEntry w (th_coll t) _ now expiration) as [[a w2]|] eqn:G; cbn; [|done]. intros [= <-].
    destruct (getCacheEntry_ok _ _ _ _ _ _ I G) as (I2 & X2 & Ha). apply Hstep; [done|done|by eapply getCacheEntry_threads|cbn; rewrite Htt, <-Hk; by split].
  - assert (Htk : tr_key (terminate_request st tidx) = h_key (th_handler t)) by by rewrite <-Hk.
    destruct (lock_terminate w a (terminate_request st tidx)) as [[[p known] w2]|] eqn:G; cbn; [|done]. intros [= <-].
    pose proof G as (I2 & X2 & T2 & D2)%lock_terminate_ok; [|done|rewrite Htk; exact (proj2 Hterm)|cbn; rewrite Hid, <-Hk; done].
    apply Hstep; [done|done|by eapply lock_terminate_threads|].
    rewrite Htk in T2, D2. destruct (Z.leb_spec 0 known); cbn; [by intros _ _; apply D2|]. split; [by rewrite Htt|]. split; [apply (we_entries _ _ X2); exact (proj2 Hterm)|done].
  - destruct (w_terms w !! p) as [tp|] eqn:Hp; cbn; [|done]. destruct (tp_result tp) as [res|] eqn:Hres; cbn; [|done]. intros [= <-].
    destruct Hterm as (_ & Ha & t1 & Hp1 & Hk1). rewrite Hp in Hp1. injection Hp1 as <-. destruct (wi_terms _ I _ _ Hp) as (_ & _ & T3).
    set (w2 := match res with Some _ => _ | None => _ end).
    assert (world_inv w2 /\ world_ext w w2 /\ w_threads w2 = w_threads w) as (I2 & X2 & E2).
    { unfold w2. destruct res as [e|]; [|done]. destruct (clear_terminate_ok w a p e I). split; [done|]. split; [done|]. unfold clear_terminate. by repeat case_match. }
    apply Hstep; [done|done|done|]. cbn. intros -> _. eapply ended_mono; [done|]. rewrite <-Hk1. by apply T3.
Qed.
Lemma register_request_key h : si_key (register_request h) = h_key h.
Proof. done. Qed.
Lemma thread_step_ok w i t store now w' : world_inv w -> w_threads w !! i = Some t -> thread_step expiration w i t store now = Some w' ->
  world_inv w' /\ world_ext w w'.
Proof.
  intros I Ht Hstep. destruct (wi_threads _ I _ _ Ht) as (_ & Hh & Hok). unfold thread_step in Hstep.
  destruct (th_phase t) as [|a|a p tidx|st put term|e|st|st e errs] eqn:Hph; try done.
  - destruct (getCacheEntry w (th_coll t) _ now expiration) as [[a w2]|] eqn:G; cbn in Hstep; [|done]. injection Hstep as <-.
    destruct (getCacheEntry_ok _ _ _ _ _ _ I G) as (I2 & X2 & Ha). apply (grow_then _ _ _ X2), grow_phase; [done| |done]. by rewrite (getCacheEntry_threads _ _ _ _ _ _ G).
  - destruct (lock_register w a _ _) as [[[p tidx] w2]|] eqn:G; cbn in Hstep; [|done]. injection Hstep as <-.
    destruct Hh as (m & b & be & _ & _ & _ & A). destruct (ac_key _ _ _ _ A) as (_ & K). destruct (ac_desc _ _ _ _ A) as [_ D].
    pose proof G as (I2 & X2 & R2)%(lock_register_ok _ _ _ _ (h_desc (th_handler t))); [|done|done|done|done].
    apply (grow_then _ _ _ X2), grow_phase; [done|by rewrite (lock_register_threads _ _ _ _ _ _ _ G)|]. split; [by apply (we_entries _ _ X2)|done].
  - destruct (w_regs w !! p) as [r|] eqn:Hp; cbn in Hstep; [|done]. destruct (rp_result r) as [[remote|e]|] eqn:Hr; cbn in Hstep; [| |done].
    + destruct (registered w p r remote tidx (th_handler t)) as [w2 ph] eqn:G. injection Hstep as <-. by eapply registered_ok.
    + injection Hstep as <-. destruct (clear_register_ok w a p e I) as [I2 X2]. apply (grow_then _ _ _ X2), grow_phase; [done| |done].
      unfold clear_register. by repeat case_match.
  - destruct put as [|e]; [|destruct term as [| | |r]].
    + destruct store; [|by eapply term_step_ok]. assert (Hput : Some (put_step w i t st term) = Some w') by by destruct term.
      injection Hput as <-. by apply grow_store.
    + destruct store; [done|by eapply term_step_ok].
    + destruct store; [done|by eapply term_step_ok].
    + destruct store; [done|by eapply term_step_ok].
    + injection Hstep as <-. destruct Hok as (H1 & H2 & H3). apply grow_phase; [done|done|]. split; [done|]. split; [done|]. by exists r.
Qed.
Lemma thread_start_ok w c i j w' : world_inv w -> start w c i j = Some w' -> world_inv w' /\ world_ext w w'.
Proof.
  intros I. unfold start. destruct (w_msgs w !! i) as [m|] eqn:Hm; cbn; [|done]. destruct (Process_check m) as [b|e] eqn:Hp; [|done].
  destruct (b_Entries b !! j) as [be|] eqn:Hb; cbn; [|done]. destruct (processLogStream_check (m_ProtoVersion m) b be) as [[| |h]|] eqn:Hc; try done.
  destruct (isSet _) eqn:H2; [|done]. intros [= <-].
  set (w' := with_threads _ _). assert (E : world_ext w w') by by split. split; [|done]. grow w I. intros k t [[<- <-]|[_ H]]%lookup_insert_Some; [right|by left].
  cbn. split; [by destruct (w_caches w !! c)|]. split; [|done]. exists m, b, be.
  split; [by eapply list_elem_of_lookup_2|]. split; [done|]. split; [by eapply list_elem_of_lookup_2|by apply check_accepted].
Qed.
Lemma crash_ok w c : world_inv w -> world_inv (crash cacheSize w c) /\ world_ext w (crash cacheSize w c).
Proof.
  intros I. unfold crash. set (w' := with_threads _ _). assert (E : world_ext w w').
  { split; cbn; try done. intros d Hd. destruct (decide (d = c)) as [->|Hne]; [by rewrite lookup_insert_eq|by rewrite lookup_insert_ne]. }
  split; [|done]. grow w I.
  - intros d cache [[<- <-]|[_ H]]%lookup_insert_Some; [right|by left]. exists []. split; [apply holds_New|by intros ? ? ?%elem_of_nil].
  - intros i t [H _]%map_lookup_filter_Some. by left.
Qed.
Lemma other_ok w p o w' : world_inv w -> other w p o = Some w' -> world_inv w' /\ world_ext w w'.
Proof.
  intros I. destruct (past_ok w p 0 I) as [P _]. unfold other. destruct o as [e req secret i|e req i0 i1|e req|e req|e m].
  - destruct (RegisterPrefix _ _ _ _ _) as [[r s]|] eqn:E; [|done]. intros [= <-]. apply RegisterPrefix_spec in E as [? ?]; [|done]. by apply grow_coord.
  - destruct (RegisterStream _ _ _ _ _) as [[r s] o] eqn:E. intros [= <-]. destruct (past_ok w p i0 I) as [_ P0], (past_ok w p i1 I) as [P1 P1'].
    destruct (RegisterStream_spec _ _ _ _ _ _ _ _ P P1 P0 P1' E) as (? & ? & _). by apply grow_coord.
  - destruct (TerminateStream _ _ _) as [[r s] o] eqn:E. intros [= <-]. destruct (TerminateStream_spec _ _ _ _ _ _ P E) as (? & ? & _). by apply grow_coord.
  - destruct (ArchiveStream _ _ _) as [r s] eqn:E. intros [= <-]. destruct (ArchiveStream_spec _ _ _ _ _ P E) as [? ?]. by apply grow_coord.
  - destruct (RollForward e m _) as [s|] eqn:E; [|done]. intros [= <-]. destruct (RollForward_ok _ _ _ _ P E) as (? & ? & _). by apply grow_coord.
Qed.
Lemma act_ok a w w' : world_inv w -> act cacheSize expiration a w = Some w' -> world_inv w' /\ world_ext w w'.
Proof.
  intros I. destruct a as [m|c i j|i store now|p x|p x|c|p o]; cbn.
  - intros [= <-]. assert (E : world_ext w (with_msg w m)) by (split; cbn; try done; intros; apply elem_of_app; by left). split; [|done]. by grow w I.
  - by apply thread_start_ok.
  - destruct (w_threads w !! i) as [t|] eqn:Ht; cbn; [|done]. by apply thread_step_ok.
  - by apply resolve_register_ok.
  - by apply resolve_terminate_ok.
  - intros [= <-]. by apply crash_ok.
  - by apply other_ok.
Qed.
Lemma collector_start_inv : world_inv (collector_start store0).
Proof. split; cbn; try done; [by intros ? ? ?%elem_of_nil|by left]. Qed.
Lemma steps_grow w w' : world_inv w -> rtc (collector_step cacheSize expiration) w w' -> world_inv w' /\ world_ext w w'.
Proof.
  intros I Hs. induction Hs as [w|w1 w2 w3 [a Ha] _ IH]; [by split|]. destruct (act_ok _ _ _ I Ha) as [I2 E]. destruct (IH I2) as [I3 E']. split; [done|by etrans].
Qed.
Lemma reaches_inv w : collector_reaches cacheSize expiration store0 w -> world_inv w.
Proof. intros Hr. by destruct (steps_grow _ _ collector_start_inv Hr). Qed.
Lemma acts_reaches l : forall w0 w, collector_reaches cacheSize expiration store0 w0 -> acts cacheSize expiration l w0 = Some w -> collector_reaches cacheSize expiration store0 w.
Proof.
  induction l as [|a l IH]; intros w0 w Hr; cbn; [by intros [= <-]|]. destruct (act cacheSize expiration a w0) as [w1|] eqn:E; cbn; [|done].
  apply IH. unfold collector_reaches in *. eapply rtc_r; [done|]. by exists a.
Qed.
End Worlds.
