(* ===== verification/LogCollectorTheorems.v ===== *)
(** LogDog's collector: the theorems.  What is in storage was sent with the secret
    of its stream, and what is finished is kept and its end is known, whatever the
    order of steps and whatever fails. *)
From stdpp Require Import fin_maps.
From S2P Require Import Prelude LRU LogEntry TimedBuffer Parsers StreamName LogStream LogCoord LogCoordSystem LogArchive LogStorage LogCollector LogCollectorFacts.
Local Open Scope Z_scope.

(** * Runs of a small service *)
Module CollectorToy.
Definition desc (name : bytes) : LogStreamDescriptor :=
  {| Prefix := [112]; Name := name; StreamType_ := BINARY; ContentType := [116]; Timestamp := Some 0; Tags := [] |}.
#[export] Instance services : Services := {|
  sha256 b := take 32 (map u8 b ++ replicate 32 0);
  UnmarshalDesc b := Some (desc b);
  MarshalDesc d := if bool_decide (Prefix d = [112]) then Some (Name d) else None;
  RoundTime t := t |}.
Lemma toy_sha : sha_ok.
Proof.
  intros b. cbn [sha256 services]. split; [rewrite length_take, length_app, length_replicate, length_map; lia|].
  apply Forall_take, Forall_app. split; [apply List.Forall_map, Forall_true; intros x; apply u8_range|by apply Forall_replicate].
Qed.
#[export] Instance services_laws : ServicesLaws.
Proof. split. intros b. apply toy_sha. Qed.
Lemma toy_desc : desc_codec.
Proof. intros d b. cbn. case_bool_decide as H; [|done]. intros [= <-]. by exists (desc (Name d)). Qed.
#[export] Instance codec : EntryCodec := {|
  MarshalEntry le := Some [StreamIndex le; 7]; UnmarshalEntry _ := None; MarshalIndex _ := None; entrySize _ := 2 |}.
Existing Instance Memory.store.
Existing Instance Memory.store_laws.

Definition secret : bytes := replicate 36 7.
Definition wrong : bytes := replicate 36 8.
Definition entry (i : Z) : LogEntry := {| TimeOffset := None; PrefixIndex := i; StreamIndex := i; LogEntry.Sequence := i; Content := Binary i [97] |}.
Definition message (name s : bytes) : Message :=
  {| m_ProtoVersion := logpb_Version;
     m_Bundle := Some {| b_Project := [112]; b_Prefix := [112]; b_Secret := s;
       b_Entries := [{| be_Desc := Some (desc name); be_Logs := [entry 0; entry 1]; be_Terminal := true; be_TerminalIndex := 1 |}] |} |}.
Definition settings : CoordConfig :=
  {| PrefixExpiration := NewDuration 3600000000000; ArchiveSettleDelay := NewDuration 5000000000; ArchiveDelayMax := NewDuration 60000000000; Topic := Some [1] |}.
Definition env : CallEnv :=
  {| now := 1000; now_txn := 1000; cfg := Some settings; pcfg := Some {| p_PrefixExpiration := None; MaxStreamAge := None |}; fails _ := false |}.
Definition prefix_req : RegisterPrefixRequest := {| rp_Prefix := [112]; rp_SourceInfo := []; rp_Expiration := None |}.
Definition empty : Memory.Storage := {| Memory.MaxGetCount := 0; Memory.streams := ∅; Memory.closed := false; Memory.serr := None |}.
Lemma memory_empty_ok : store_ok (empty : LStore).
Proof. intros k ls i d H. by destruct (lookup_empty_Some _ _ H). Qed.

Definition start : list Action := [AOther [112] (OPrefix env prefix_req secret 0); ACrash 0; ASend (message [110] wrong); ASend (message [110] secret)].
Definition answered : Answer := Answered env 0 0.
(** A bundle from its start to its end. *)
Definition good : list Action := start ++ [AStart 0 1 0; AStep 0 false 1; AStep 0 false 1; ARegister 0 answered; AStep 0 false 2;
  AStep 0 false 2; AStep 0 true 2; AStep 0 false 2; AStep 0 false 3].
Definition init : World := collector_start (empty : LStore).
Definition run (l : list Action) : World := default init (acts 2 600 l init).
Definition phase (w : World) (i : nat) : option Phase := th_phase <$> w_threads w !! i.
Definition done_st (w : World) (i : nat) : option (option StorageError * list CError) :=
  match phase w i with Some (Finished _ e errs) => Some (e, errs) | _ => None end.
Example good_run : done_st (run good) 0 = Some (None, []) /\ isSet (acts 2 600 good init) = true.
Proof. vm_compute. split; reflexivity. Qed.

Lemma good_reached : collector_reaches 2 600 (empty : LStore) (run good).
Proof.
  apply (acts_reaches 2 600 _ good init); [apply rtc_refl|].
  unfold run. destruct (acts 2 600 good init) eqn:E; [done|]. pose proof (proj2 good_run) as H. by rewrite E in H.
Qed.
Definition key : streamKey := ([112], Desc_Path (desc [110])).
Lemma good_stored : stored (w_store (run good)) key 1 [1; 7].
Proof.
  assert (H : (ls ← Memory.streams (w_store (run good) : Memory.Storage) !! key; Memory.logs ls !! 1) = Some [1; 7]) by (vm_compute; reflexivity).
  revert H. generalize (w_store (run good)). intros s. destruct (Memory.streams (s : Memory.Storage) !! key) as [ls|] eqn:E; [|done].
  intros H. by exists ls.
Qed.
Lemma good_secret lst : states (present (run good) [112]) !! LogStreamID (Desc_Path (desc [110])) = Some lst -> Secret lst = secret.
Proof.
  intros H. assert (E : Secret <$> (states (present (run good) [112]) !! LogStreamID (Desc_Path (desc [110]))) = Some secret) by (vm_compute; reflexivity).
  rewrite H in E. by injection E.
Qed.
Definition good_thread : option Thread := w_threads (run good) !! 0%nat.
Lemma good_finished t : good_thread = Some t -> exists st, th_phase t = Finished st None [].
Proof.
  intros H. pose proof (proj1 good_run) as E. unfold done_st, phase in E. fold good_thread in E. rewrite H in E. cbn in E.
  clear H. destruct (th_phase t) as [| | | | | |st e errs]; try done. injection E as -> ->. by exists st.
Qed.
Lemma good_there : exists t, good_thread = Some t.
Proof.
  assert (H : isSet good_thread = true) by (vm_compute; reflexivity). revert H. generalize good_thread. intros [t|]; [by exists t|done].
Qed.
Definition state_for (w : World) (t : Thread) : option LogStreamState :=
  states (present w (h_project (th_handler t))) !! LogStreamID (h_path (th_handler t)).
(** A bundle with a wrong secret comes first: its registration fails for good, the
    cache keeps the error, and the bundle with the right secret fails with it.  Its
    message is taken from the queue, and its entries are lost. *)
Definition poisoned : list Action := start ++ [AStart 0 0 0; AStep 0 false 1; AStep 0 false 1; ARegister 0 answered; AStep 0 false 2;
  AStart 0 1 0; AStep 1 false 3; AStep 1 false 3; AStep 1 false 3].
Example poisoned_run : phase (run poisoned) 0 = Some (Failed (Rpc false)) /\ phase (run poisoned) 1 = Some (Failed (Rpc false)) /\
  processMessage [Rpc false] = true.
Proof. vm_compute. repeat split. Qed.

(** An entry without a descriptor is a nil pointer. *)
Example no_descriptor : processLogStream_check logpb_Version {| b_Project := [112]; b_Prefix := [112]; b_Secret := secret; b_Entries := [] |}
  {| be_Desc := None; be_Logs := [entry 0]; be_Terminal := false; be_TerminalIndex := 0 |} = Panic.
Proof. vm_compute. reflexivity. Qed.

(** An entry of an index that is no signed number is stored below zero, where
    nothing looks for it. *)
Definition far_message : Message :=
  {| m_ProtoVersion := logpb_Version;
     m_Bundle := Some {| b_Project := [112]; b_Prefix := [112]; b_Secret := secret;
       b_Entries := [{| be_Desc := Some (desc [110]); be_Logs := [entry (2 ^ 63 + 5)]; be_Terminal := false; be_TerminalIndex := 0 |}] |} |}.
Definition far : list Action := [AOther [112] (OPrefix env prefix_req secret 0); ACrash 0; ASend far_message;
  AStart 0 0 0; AStep 0 false 1; AStep 0 false 1; ARegister 0 answered; AStep 0 false 2; AStep 0 true 2; AStep 0 false 2].
Example far_stored : done_st (run far) 0 = Some (None, []) /\
  (ls ← Memory.streams (w_store (run far) : Memory.Storage) !! key; Memory.logs ls !! (5 - 2 ^ 63)) = Some [2 ^ 63 + 5; 7].
Proof. vm_compute. split; reflexivity. Qed.
End CollectorToy.

(** * Whatever happens *)
(** C13. What is in intermediate storage was sent: whatever the order in which any
    number of collectors handle messages, however often they start anew, and
    whatever fails, a record that was not there before is the data of an entry,
    valid for the stream, in a message that was sent, at the entry's index as a
    signed number: an index of 2^63 or more is stored as a negative one; the message
    had the secret that the coordinator has for the stream. *)
Theorem collected_was_sent {SV : Services} {SL : ServicesLaws} {EC : EntryCodec} {LS : LogStore} {LL : LogStoreLaws LS}
    (sha : sha_ok) (codec : desc_codec) cacheSize expiration store0 (ok : store_ok store0) w k i d :
  collector_reaches cacheSize expiration store0 w -> stored (w_store w) k i d ->
  stored store0 k i d \/ exists m b be d0 le, let desc := set_Prefix d0 (b_Prefix b) in m ∈ w_msgs w /\ Process_check m = Ok b /\ be ∈ b_Entries b /\ le ∈ be_Logs be /\
    be_Desc be = Some d0 /\ k = (b_Project b, Desc_Path desc) /\ Descriptor_Validate desc true = None /\ LogEntry_Validate le desc = true /\
    i64 (StreamIndex le) = i /\ MarshalEntry le = Some d /\
    exists lst, states (present w (b_Project b)) !! LogStreamID (Desc_Path desc) = Some lst /\ Secret lst = b_Secret b.
Proof.
  intros Hr Hd. pose proof (reaches_inv sha codec cacheSize expiration store0 ok w Hr) as I.
  destruct (wi_stored _ _ I _ _ _ Hd) as [?|(m & b & be & d0 & desc & le & H1 & H2 & H3 & -> & [H5 ->] & H6 & H7 & H8 & H9 & H10 & H11)]; [by left|right].
  by exists m, b, be, d0, le.
Qed.
Lemma collected_was_sent_witness : exists m, m ∈ w_msgs (CollectorToy.run CollectorToy.good) /\
  (exists b, Process_check m = Ok b /\ b_Secret b = CollectorToy.secret).
Proof.
  destruct (collected_was_sent (SL := CollectorToy.services_laws) (EC := CollectorToy.codec) (LL := Memory.store_laws) CollectorToy.toy_sha CollectorToy.toy_desc 2 600
    CollectorToy.empty CollectorToy.memory_empty_ok (CollectorToy.run CollectorToy.good) ([112], Desc_Path (CollectorToy.desc [110])) 1 [1; 7])
    as [H|(m & b & be & d0 & le & H1 & H2 & H3 & H4 & H5 & H6 & H7 & H8 & H9 & H10 & lst & H11 & H12)].
  - exact CollectorToy.good_reached.
  - exact CollectorToy.good_stored.
  - destruct H as (ls & H & _). destruct (lookup_empty_Some _ _ H).
  - exists m. split; [exact H1|]. exists b. split; [exact H2|]. rewrite <-H12. apply CollectorToy.good_secret.
    rewrite <-H11. by injection H6 as <- <-.
Defined.

(** C14. What a thread has finished without an error: storage took all the records
    of its entry, which then stay at their indices (as signed numbers), or it said
    that one was there already, and then it may not have all of them; when its
    bundle ends the stream, the coordinator knows an end of the stream, and the
    message had the secret of the stream.  Nothing takes this back. *)
Theorem finished_is_kept {SV : Services} {SL : ServicesLaws} {EC : EntryCodec} {LS : LogStore} {LL : LogStoreLaws LS}
    (sha : sha_ok) (codec : desc_codec) cacheSize expiration store0 (ok : store_ok store0) w w' i t st e :
  collector_reaches cacheSize expiration store0 w -> w_threads w !! i = Some t -> th_phase t = Finished st e [] ->
  rtc (collector_step cacheSize expiration) w w' ->
  let h := th_handler t in
  (e = None \/ e = Some ErrExists) /\
  (e = None -> forall n d, h_logData h !! n = Some d -> stored (w_store w') (h_project h, h_path h) (i64 (h_blockIndex h + Z.of_nat n)) d) /\
  exists lst, states (present w' (h_project h)) !! LogStreamID (h_path h) = Some lst /\ Secret lst = h_secret h /\
    (h_terminal h <> None -> Terminated lst = true).
Proof.
  intros Hr Ht Hph Hs. pose proof (reaches_inv sha codec cacheSize expiration store0 ok w Hr) as I.
  assert (E : world_ext w w').
  { by destruct (steps_grow sha codec cacheSize expiration store0 w w' I Hs). }
  destruct (wi_threads _ _ I _ _ Ht) as (_ & _ & Hok). rewrite Hph in Hok. destruct Hok as ([Hi Hsec] & Hput & r & Hr0 & Hterm).
  unfold task_errors in Hr0. symmetry in Hr0. apply app_nil in Hr0 as [He Hr0]. destruct r as [r|]; [done|].
  split; [destruct e as [[]|]; auto; done|]. split.
  { intros -> n d Hn. apply (we_store _ _ E). by apply Hput. }
  destruct (has_secret_mono _ _ _ _ E (proj2 (proj2 Hi))) as (lst & L1 & L2). exists lst. split; [exact L1|]. split; [congruence|].
  intros Hne. destruct (ended_mono _ _ _ E (Hterm eq_refl Hne)) as (lst' & L3 & L4). cbn in L1, L3. congruence.
Qed.
Lemma finished_is_kept_witness : exists t st, CollectorToy.good_thread = Some t /\ th_phase t = Finished st None [] /\
  exists lst, CollectorToy.state_for (CollectorToy.run CollectorToy.good) t = Some lst.
Proof.
  destruct CollectorToy.good_there as [t Ht]. destruct (CollectorToy.good_finished t Ht) as [st Hst]. exists t, st.
  split; [exact Ht|]. split; [exact Hst|].
  destruct (finished_is_kept (SL := CollectorToy.services_laws) (EC := CollectorToy.codec) (LL := Memory.store_laws) CollectorToy.toy_sha
    CollectorToy.toy_desc 2 600 CollectorToy.empty CollectorToy.memory_empty_ok (CollectorToy.run CollectorToy.good) (CollectorToy.run CollectorToy.good)
    0%nat t st None CollectorToy.good_reached Ht Hst (rtc_refl _ _)) as (_ & _ & lst & H & _).
  exists lst. exact H.
Defined.
