(* ===== verification/ButlerProto.v ===== *)
(** The messages of the Butler (logdog/client/butlerproto): a frame of metadata and
    a frame of a bundle that may be compressed, as the Butler writes them and the
    collector reads them. *)
From S2P Require Import Prelude Varint RecordIO LogCoord LogCollector.
Local Open Scope Z_scope.

Inductive ContentType := Invalid | ButlerLogBundle | OtherContent (t : Z).
Inductive Compression := NONE | ZLIB | OtherCompression (c : Z).
Record ButlerMetadata := { md_Type : ContentType; md_Compression : Compression; md_ProtoVersion : bytes }.

(** Encoding of messages, and compress/zlib: what a stream inflates to, and whether
    its end comes together with the last bytes. *)
Class ButlerCodec := {
  MarshalMetadata : ButlerMetadata -> option bytes;
  UnmarshalMetadata : bytes -> option ButlerMetadata;
  MarshalBundle : Bundle -> option bytes;
  UnmarshalBundle : bytes -> option Bundle;
  deflate : bytes -> bytes;
  inflate : bytes -> option (bytes * bool)
}.

Definition MaxButlerLogBundleSize : Z := 10 * 1024 * 1024.
Definition DefaultCompressThreshold : Z := 860.
Definition getMaxSize (maxSize : Z) : Z := if maxSize =? 0 then MaxButlerLogBundleSize else maxSize.

Section ButlerProto.
Context {BC : ButlerCodec}.

(** * Reading *)
Inductive ReaderError := BadMetadata | BadFrame (e : ReadError) | BadCompression | LimitExceeded | BadBundle | UnknownType.

Definition readMetadata (fr : reader) : option (result ReaderError (ButlerMetadata * reader)) :=
  res ← ReadFrameAll fr;
  Some (match res with
        | Err e => Err (BadFrame e)
        | Ok (data, fr) => match UnmarshalMetadata data with None => Err BadMetadata | Some md => Ok (md, fr) end
        end).

(** Reading to the end through [limitErrorReader]: after [limit] bytes another Read
    is an error, so the end has to come with the last of them. *)
Definition read_to_end (limit : Z) (data : bytes) (together : bool) : option bytes :=
  let n := Z.of_nat (length data) in
  if (0 <? limit) && ((n <? limit) || together && (n =? limit)) then Some data else None.

Definition readData (maxSize : Z) (md : ButlerMetadata) (fr : reader) : option (result ReaderError bytes) :=
  res ← ReadFrame fr;
  Some (match res with
        | Err e => Err (BadFrame e)
        | Ok (size, fr) =>
            let frame := take (Z.to_nat size) (concat (src fr)) in
            let data := match md_Compression md with NONE => Some (frame, false) | ZLIB => inflate frame | OtherCompression _ => None end in
            match data with
            | None => Err BadCompression
            | Some (data, together) =>
                match read_to_end (getMaxSize maxSize) data together with None => Err LimitExceeded | Some d => Ok d end
            end
        end).

(** The metadata, and the bundle of a version that is known. *)
Definition Reader_Read (maxSize : Z) (ir : Source) : option (result ReaderError (ButlerMetadata * option Bundle)) :=
  res ← readMetadata (NewReader ir (getMaxSize maxSize));
  match res with
  | Err e => Some (Err e)
  | Ok (md, fr) =>
      match md_Type md with
      | ButlerLogBundle =>
          res ← readData maxSize md fr;
          Some (match res with
                | Err e => Err e
                | Ok data =>
                    if bool_decide (md_ProtoVersion md = logpb_Version) then
                      match UnmarshalBundle data with None => Err BadBundle | Some b => Ok (md, Some b) end
                    else Ok (md, None)
                end)
      | _ => Some (Err UnknownType)
      end
  end.
(** What the collector makes of a message; without one there is nothing to do. *)
Definition collector_message (ir : Source) : option (option Message) :=
  res ← Reader_Read 0 ir;
  Some (match res with Err _ => None | Ok (md, b) => Some {| m_ProtoVersion := md_ProtoVersion md; m_Bundle := b |} end).

(** * Writing *)
Record Writer := { w_maxSize : Z; w_ProtoVersion : bytes; Compress : bool; CompressThreshold : Z }.
Inductive WriterError := MarshalError | TooLarge | FlushError.

Definition compressed (w : Writer) (data : bytes) : bool := Compress w && (CompressThreshold w <=? Z.of_nat (length data)).
Definition metadata (w : Writer) (t : ContentType) (data : bytes) : ButlerMetadata :=
  {| md_Type := t; md_Compression := if compressed w data then ZLIB else NONE;
     md_ProtoVersion := if bool_decide (w_ProtoVersion w = []) then logpb_Version else w_ProtoVersion w |}.
Definition writeData (w : Writer) (fw : writer) (t : ContentType) (data : bytes) : option WriterError * writer :=
  if getMaxSize (w_maxSize w) <? Z.of_nat (length data) then (Some TooLarge, fw)
  else
    match MarshalMetadata (metadata w t data) with
    | None => (Some MarshalError, fw)
    | Some mdData =>
        let '(err, fw) := Flush (writer_Write fw mdData) in
        if err then (Some FlushError, fw)
        else
          let '(err, fw) := Flush (writer_Write fw (if compressed w data then deflate data else data)) in
          (if err then Some FlushError else None, fw)
    end.
Definition WriteWith (w : Writer) (fw : writer) (b : Bundle) : option WriterError * writer :=
  match MarshalBundle b with None => (Some MarshalError, fw) | Some data => writeData w fw ButlerLogBundle data end.
Definition Writer_Write (w : Writer) (iw : Sink) (b : Bundle) : option WriterError * Sink :=
  let '(e, fw) := WriteWith w (NewWriter iw) b in (e, inner fw).
End ButlerProto.

(** What encoding promises. *)
Class ButlerCodecLaws `{ButlerCodec} := {
  metadata_back md d : MarshalMetadata md = Some d -> UnmarshalMetadata d = Some md;
  bundle_back b d : MarshalBundle b = Some d -> UnmarshalBundle d = Some b;
  inflate_deflate d : exists together, inflate (deflate d) = Some (d, together)
}.

(** * A frame of a source that is delivered at once *)
Lemma frame_bytes_chunk f rest : [frame_bytes f ++ rest] = chunk (frame_bytes f ++ rest).
Proof. unfold frame_bytes. pose proof (PutUvarint_nonempty (Z.of_nat (length f))). by destruct (PutUvarint _). Qed.
Lemma concat_chunk l : concat (chunk l) = l.
Proof. destruct l; cbn; [done|]. by rewrite app_nil_r. Qed.
Lemma ReadFrame_chunk f rest b0 m : small f -> 0 <= m < 2 ^ 63 ->
  if m <? Z.of_nat (length f) then ReadFrame {| src := chunk (frame_bytes f ++ rest); rb_buf := b0; maxSize := m |} = Some (Err ErrFrameTooLarge)
  else exists r, ReadFrame {| src := chunk (frame_bytes f ++ rest); rb_buf := b0; maxSize := m |} = Some (Ok (Z.of_nat (length f), r)) /\ src r = chunk (f ++ rest).
Proof.
  intros Hs Hm. unfold ReadFrame. cbn [src].
  pose proof (reader_uvarint_chunk (S (src_size (chunk (frame_bytes f ++ rest)))) (frame_bytes f ++ rest) m b0 0 0 0) as H.
  assert (Hlen : (length (frame_bytes f ++ rest) < S (src_size (chunk (frame_bytes f ++ rest))))%nat) by (rewrite <-frame_bytes_chunk; cbn; lia).
  specialize (H Hlen). unfold frame_bytes in H at 1. rewrite <-app_assoc in H. change (read_loop ?l 0 0 0) with (ReadUvarint l) in H.
  rewrite Read_Put in H by by apply small_u64. destruct (reader_uvarint _ _ _ _ _) as [[[v r]|]|]; [|done..].
  destruct H as (-> & Hsrc & Hmax). cbn. rewrite Hmax, u64_small by (unfold in_u64; lia). unfold small in Hs.
  destruct (Z.ltb_spec m (Z.of_nat (length f))); [done|]. exists r. by rewrite i64_small by (unfold in_i64; lia).
Qed.

(** * Writing and reading back *)
Section RoundTrip.
Context {BC : ButlerCodec} {BL : ButlerCodecLaws}.

Definition frame_of (w : Writer) (data : bytes) : bytes := if compressed w data then deflate data else data.
(** Whether the end of compressed data comes together with its last bytes. *)
Definition end_together (w : Writer) (data : bytes) : bool :=
  compressed w data && match inflate (deflate data) with Some (_, together) => together | None => false end.
(** What becomes of data that was written, when it is read with the same limit. *)
Definition read_back (w : Writer) (data : bytes) : option ReaderError :=
  let n := Z.of_nat (length data) in
  let max := getMaxSize (w_maxSize w) in
  if max <? Z.of_nat (length (frame_of w data)) then Some (BadFrame ErrFrameTooLarge)
  else if (n <? max) || end_together w data && (n =? max) then None else Some LimitExceeded.
Definition message_bytes (w : Writer) (mdData data : bytes) : bytes := frame_bytes mdData ++ frame_bytes (frame_of w data).

Lemma Flush_ok fw data : small (buf fw ++ data) -> answers (inner fw) = [] ->
  Flush (writer_Write fw data) = (false, {| inner := {| received := received (inner fw) ++ frame_bytes (buf fw ++ data); answers := [] |}; buf := [] |}).
Proof. intros Hs Ha. unfold Flush, writer_Write. cbn. rewrite WriteFrame_ok; done. Qed.

Lemma Writer_Write_ok w iw b data mdData : MarshalBundle b = Some data -> Z.of_nat (length data) <= getMaxSize (w_maxSize w) ->
  MarshalMetadata (metadata w ButlerLogBundle data) = Some mdData -> answers iw = [] -> small mdData -> small (frame_of w data) ->
  Writer_Write w iw b = (None, {| received := received iw ++ message_bytes w mdData data; answers := [] |}).
Proof.
  intros Hb Hl Hm Ha S1 S2. unfold Writer_Write, WriteWith. rewrite Hb. unfold writeData. rewrite (proj2 (Z.ltb_ge _ _)) by done.
  rewrite Hm, Flush_ok by done. rewrite Flush_ok by done. cbn. unfold message_bytes. by rewrite app_assoc.
Qed.

Lemma Reader_Read_ok maxSize ir d md fr res : ReadFrameAll (NewReader ir (getMaxSize maxSize)) = Some (Ok (d, fr)) -> UnmarshalMetadata d = Some md ->
  md_Type md = ButlerLogBundle -> readData maxSize md fr = Some res ->
  Reader_Read maxSize ir = Some (match res with
    | Err e => Err e
    | Ok data =>
        if bool_decide (md_ProtoVersion md = logpb_Version) then
          match UnmarshalBundle data with None => Err BadBundle | Some b => Ok (md, Some b) end
        else Ok (md, None)
    end).
Proof. intros H1 H2 H3 H4. unfold Reader_Read, readMetadata. rewrite H1. cbn [mbind option_bind]. rewrite H2, H3. by rewrite H4. Qed.
Lemma readData_ok w fr b0 data : let max := getMaxSize (w_maxSize w) in 0 < max < 2 ^ 63 -> small (frame_of w data) ->
  fr = {| src := chunk (frame_bytes (frame_of w data)); rb_buf := b0; maxSize := max |} ->
  readData (w_maxSize w) (metadata w ButlerLogBundle data) fr = Some (match read_back w data with None => Ok data | Some e => Err e end).
Proof.
  intros max Hmax Hs ->. unfold readData, read_back. fold max.
  pose proof (ReadFrame_chunk (frame_of w data) [] b0 max Hs ltac:(lia)) as H. rewrite app_nil_r in H.
  destruct (max <? Z.of_nat (length (frame_of w data))); [by rewrite H|]. destruct H as (r & E & Hr).
  rewrite app_nil_r in Hr. rewrite E. cbn. rewrite Hr, concat_chunk, Nat2Z.id, firstn_all. unfold frame_of, end_together.
  destruct (compressed w data); cbn [andb].
  - destruct (inflate_deflate data) as [together ->]. unfold read_to_end. fold max.
    rewrite (proj2 (Z.ltb_lt 0 _)) by lia. by destruct (_ || _).
  - unfold read_to_end. fold max. rewrite (proj2 (Z.ltb_lt 0 _)) by lia. by destruct (_ || _).
Qed.
End RoundTrip.

(** * A small encoding *)
Module ButlerToy.
#[export] Instance toy_butler : ButlerCodec := {|
  MarshalMetadata md := match md_Type md, md_Compression md with
    | ButlerLogBundle, NONE => Some (0 :: md_ProtoVersion md) | ButlerLogBundle, ZLIB => Some (1 :: md_ProtoVersion md) | _, _ => None end;
  UnmarshalMetadata d := match d with
    | c :: v => Some {| md_Type := ButlerLogBundle; md_Compression := if c =? 0 then NONE else ZLIB; md_ProtoVersion := v |} | [] => None end;
  MarshalBundle b := match b_Prefix b, b_Secret b, b_Entries b with [], [], [] => Some (b_Project b) | _, _, _ => None end;
  UnmarshalBundle d := Some {| b_Project := d; b_Prefix := []; b_Secret := []; b_Entries := [] |};
  deflate d := 9 :: d;
  inflate d := match d with 9 :: d => Some (d, false) | _ => None end |}.
#[export] Instance toy_butler_laws : ButlerCodecLaws.
Proof.
  split.
  - intros [[] [] v] d; cbn; try done; by intros [= <-].
  - intros [p [] [] []] d; cbn; try done. by intros [= <-].
  - intros d. by exists false.
Qed.
Definition bundle : Bundle := {| b_Project := [112; 113]; b_Prefix := []; b_Secret := []; b_Entries := [] |}.
Definition writer_of (max : Z) (compress : bool) : Writer := {| w_maxSize := max; w_ProtoVersion := []; Compress := compress; CompressThreshold := 2 |}.
Definition sent_by (max : Z) (compress : bool) : option WriterError * Sink := Writer_Write (writer_of max compress) {| received := []; answers := [] |} bundle.
Definition read_by (max : Z) (compress : bool) := Reader_Read max [received (sent_by max compress).2].
(** Two bytes of data are written when two are allowed, and can not be read. *)
Example limit_off_by_one : (sent_by 2 false).1 = None /\ read_by 2 false = Some (Err LimitExceeded) /\ is_Some (read_by 3 false).
Proof. vm_compute. eauto. Qed.
(** Data that grows when it is compressed, from the limit to beyond it, is written
    and can not be read. *)
Example grows : (sent_by 2 true).1 = None /\ read_by 2 true = Some (Err (BadFrame ErrFrameTooLarge)).
Proof. vm_compute. split; reflexivity. Qed.
(** Data as long as the threshold is compressed. *)
Example at_threshold : compressed (writer_of 9 true) [112; 113] = true.
Proof. reflexivity. Qed.
End ButlerToy.

(** C23. What comes of a message of the Butler: data longer than the limit is refused by
    the writer, with nothing written; otherwise it is written, and the reader, with
    the same limit, gives it back with the version of the protocol when its frame is
    within the limit and the data shorter than it.  A frame beyond the limit, which
    compressing can make of shorter data, is refused, and so is data exactly as long
    as the limit, unless it is compressed and its end comes together with its last
    bytes. *)
Theorem butler_message_roundtrip {BC : ButlerCodec} {BL : ButlerCodecLaws} w iw b data mdData :
  MarshalBundle b = Some data -> MarshalMetadata (metadata w ButlerLogBundle data) = Some mdData -> answers iw = [] ->
  0 < getMaxSize (w_maxSize w) < 2 ^ 63 -> small mdData -> Z.of_nat (length mdData) <= getMaxSize (w_maxSize w) -> small (frame_of w data) ->
  let md := metadata w ButlerLogBundle data in
  if getMaxSize (w_maxSize w) <? Z.of_nat (length data) then Writer_Write w iw b = (Some TooLarge, iw)
  else exists msg, Writer_Write w iw b = (None, {| received := received iw ++ msg; answers := [] |}) /\
    Reader_Read (w_maxSize w) [msg] = Some (match read_back w data with
      | None => Ok (md, if bool_decide (md_ProtoVersion md = logpb_Version) then Some b else None)
      | Some e => Err e
      end).
Proof.
  intros Hb Hm Ha Hmax S1 L1 S2 md. destruct (Z.ltb_spec (getMaxSize (w_maxSize w)) (Z.of_nat (length data))) as [H|Hn].
  { unfold Writer_Write, WriteWith, writeData. rewrite Hb, (proj2 (Z.ltb_lt _ _)) by done. by destruct iw. }
  exists (message_bytes w mdData data). split; [by apply Writer_Write_ok|]. unfold message_bytes.
  pose proof (ReadFrameAll_exact mdData (frame_bytes (frame_of w data)) (getMaxSize (w_maxSize w)) S1 ltac:(lia)) as H.
  destruct (ReadFrameAll _) as [[[d fr]|e]|] eqn:F; [|lia|done]. destruct H as (_ & -> & Hsrc & Hms).
  pose proof (readData_ok w fr (rb_buf fr) data Hmax S2 ltac:(by destruct fr; cbn in *; rewrite Hsrc, Hms)) as E.
  rewrite (Reader_Read_ok _ _ _ _ _ _ F (metadata_back _ _ Hm) eq_refl E). fold md.
  destruct (read_back w data); [done|]. destruct (bool_decide _); [|done]. by rewrite (bundle_back _ _ Hb).
Qed.
Lemma butler_message_roundtrip_witness : exists msg, ButlerToy.sent_by 9 true = (None, {| received := msg; answers := [] |}) /\
  exists md, Reader_Read (BC := ButlerToy.toy_butler) 9 [msg] = Some (Ok (md, Some ButlerToy.bundle)).
Proof.
  pose proof (butler_message_roundtrip (BL := ButlerToy.toy_butler_laws) (ButlerToy.writer_of 9 true) {| received := []; answers := [] |} ButlerToy.bundle [112; 113] [1; 49]
    eq_refl eq_refl eq_refl (conj eq_refl eq_refl) eq_refl ltac:(by vm_compute) eq_refl) as (msg & H1 & H2).
  exists msg. split; [exact H1|]. eexists. exact H2.
Defined.
