(* ===== verification/Pipeline.v ===== *)
(** The log pipeline as a whole: the Butler's bundles, the collectors that store
    their entries, and the archivist that stages the stream.  What a program wrote
    to a stream is what its archive has. *)
From stdpp Require Import fin_maps sorting.
From S2P Require Import Prelude Varint RecordIO LogEntry TimedBuffer Parsers ParserSpec StreamName LogStream LogStreamSpec GoHeap LogBundler BundlerSystem BundlerInv BundlerTheorems.
From S2P Require Import LRU LogCoord LogCoordSystem LogArchive LogArchiveFacts LogStorage LogArchivist LogArchivistFacts LogCollector LogCollectorFacts.
From S2P Require Import LogCoordTheorems LogArchivistTheorems LogCollectorTheorems.
Local Open Scope Z_scope.

(** * Lists *)
Lemma elem_of_concat {X} (x : X) ll : x ∈ concat ll <-> exists l, l ∈ ll /\ x ∈ l.
Proof. rewrite list_elem_of_In, in_concat. split; intros (l & H1 & H2); exists l; by rewrite !list_elem_of_In in *. Qed.
Lemma strongly_sorted_by_index {X} (R : X -> X -> Prop) l :
  (forall i j a b, (i < j)%nat -> l !! i = Some a -> l !! j = Some b -> R a b) -> StronglySorted R l.
Proof.
  induction l as [|x l IH]; intros H; constructor.
  - apply IH. intros i j a b Hij Ha Hb. by apply (H (S i) (S j) a b); [lia|..].
  - apply Forall_forall. intros b [j Hj]%list_elem_of_lookup. by apply (H 0%nat (S j) x b); [lia|..].
Qed.
Lemma strongly_sorted_sublist {X} (R : X -> X -> Prop) l l' : sublist l' l -> StronglySorted R l -> StronglySorted R l'.
Proof.
  induction 1 as [|x l1 l2 Hs IH|x l1 l2 Hs IH]; [done|..]; intros [H1 H2]%StronglySorted_inv; [|by apply IH].
  constructor; [by apply IH|]. apply Forall_forall. intros y Hy. rewrite Forall_forall in H2. apply H2. by eapply elem_of_sublist.
Qed.
Lemma strongly_sorted_and {X} (R R' : X -> X -> Prop) l : StronglySorted R l -> StronglySorted R' l -> StronglySorted (fun a b => R a b /\ R' a b) l.
Proof.
  induction 1 as [|x l H IH Hf]; intros H'; [constructor|]. apply StronglySorted_inv in H' as [H1 H2]. constructor; [by apply IH|].
  apply Forall_forall. intros y Hy. rewrite Forall_forall in Hf, H2. auto.
Qed.
Lemma emitted_sublist n tr : sublist (emitted n tr) (emitted_all tr).
Proof.
  induction tr as [|x tr IH]; [constructor|]. unfold emitted, emitted_all in *. destruct x as [m e| |]; cbn; [|done..].
  case_decide; by constructor.
Qed.
Lemma newlines_bound l : 0 <= newlines l <= blen l.
Proof. unfold blen. induction l as [|x l IH]; cbn [newlines length]; [done|]. destruct (x =? 10); lia. Qed.
Lemma log_raw_take i es : log_raw es = log_raw (take i es) ++ log_raw (drop i es).
Proof. unfold log_raw. by rewrite <-concat_app, <-map_app, take_drop. Qed.
Lemma log_raw_take_le i j es : (i <= j)%nat -> exists t, log_raw (take j es) = log_raw (take i es) ++ t.
Proof. intros H. exists (log_raw (drop i (take j es))). rewrite (log_raw_take i (take j es)). by rewrite take_take, Nat.min_l. Qed.

(** * What the Butler delivers is in order *)
Section Butler.
Context {B : Type} `{CL : ChunkBufferLaws B} `{PS : ProtoSize}.

Lemma sequences_sorted (p : parser (B := B)) l es A : parser_log p l es A -> parser_type p <> DATAGRAM -> blen A < 2 ^ 63 ->
  (forall e, e ∈ es -> 0 <= LogEntry.Sequence e) /\ StronglySorted (fun a b => LogEntry.Sequence a <= LogEntry.Sequence b) es.
Proof.
  intros Hlog%parser_log_reproduces Hty HA.
  assert (exists f : bytes -> Z, (forall a b, 0 <= f a <= f (a ++ b) /\ f a <= blen a) /\ log_raw es ++ unstamp l = A /\
    forall i e, es !! i = Some e -> LogEntry.Sequence e = u64 (f (log_raw (take i es)))) as (f & Hf & HA' & Hs).
  { destruct p as [p|p|p]; [| |done]; destruct Hlog as [H1 H2].
    - exists newlines. split; [|split; [done|]].
      + intros a b. rewrite newlines_app. pose proof (newlines_bound a). pose proof (newlines_bound b). lia.
      + intros i e He. by destruct (H2 i e He) as (lns & _ & _ & _ & ?).
    - exists blen. split; [|split; [done|]].
      + intros a b. unfold blen. rewrite length_app. lia.
      + intros i e He. by destruct (H2 i e He) as (d & _ & _ & ?). }
  assert (Hb : forall i e, es !! i = Some e -> LogEntry.Sequence e = f (log_raw (take i es)) /\ 0 <= LogEntry.Sequence e).
  { intros i e He. rewrite (Hs i e He). destruct (Hf (log_raw (take i es)) []) as [F1 F2].
    assert (blen (log_raw (take i es)) <= blen A) by (rewrite <-HA', (log_raw_take i es); unfold blen; rewrite !length_app; lia).
    rewrite u64_small by (unfold in_u64; lia). lia. }
  split; [intros e [i Hi]%list_elem_of_lookup; by apply (Hb i)|]. apply strongly_sorted_by_index. intros i j a b Hij Ha Hb'.
  rewrite (proj1 (Hb _ _ Ha)), (proj1 (Hb _ _ Hb')). destruct (log_raw_take_le i j es) as [t ->]; [lia|]. apply Hf.
Qed.
Lemma indexed_sorted es : indexed es -> Z.of_nat (length es) < 2 ^ 63 ->
  (forall i e, es !! i = Some e -> StreamIndex e = Z.of_nat i) /\ StronglySorted (fun a b => StreamIndex a <= StreamIndex b) es.
Proof.
  intros Hi Hl. assert (H : forall i e, es !! i = Some e -> StreamIndex e = Z.of_nat i).
  { intros i e He. rewrite (Hi i e He). pose proof (lookup_lt_Some _ _ _ He). apply u64_small. unfold in_u64. lia. }
  split; [done|]. apply strongly_sorted_by_index. intros i j a b Hij Ha Hb. rewrite (H _ _ Ha), (H _ _ Hb). lia.
Qed.

(** Archiving keeps all of them: only times are changed. *)
Lemma delivered_in_order c now tr (y : System (B := B)) n s l : sys_steps (initial c now) tr y -> stream_at y tr n s l -> parser_type (sparser s) <> DATAGRAM ->
  Z.of_nat (length (emitted_all tr)) < 2 ^ 63 -> blen (appended n tr) < 2 ^ 63 ->
  Forall (after_seen safe_start) (delivered y n) /\ StronglySorted comes_before (delivered y n) /\ Forall indices_fit (delivered y n) /\
  forall i e, delivered y n !! i = Some e -> StreamIndex e = Z.of_nat i.
Proof.
  intros Hrun (_ & Hok & _ & _) Hty Hl HA. pose proof (inv_reach _ _ _ _ Hrun) as Hi. rewrite (i_delivered _ _ Hi) in Hok.
  destruct (sequences_sorted _ _ _ _ (so_log _ _ _ _ Hok) Hty HA) as [S1 S2].
  pose proof (emitted_sublist n tr) as Hsub. rewrite (i_delivered _ _ Hi) in Hsub.
  destruct (so_log _ _ _ _ Hok) as (_ & _ & Hix & _). pose proof (sublist_length _ _ Hsub).
  destruct (indexed_sorted _ Hix) as [I1 I2]; [lia|].
  assert (P1 : forall i e, emitted_all tr !! i = Some e -> PrefixIndex e = Z.of_nat i).
  { intros i e He. rewrite (i_prefix _ _ Hi i e He). pose proof (lookup_lt_Some _ _ _ He). apply u64_small. unfold in_u64. lia. }
  assert (P2 : StronglySorted (fun a b => PrefixIndex a <= PrefixIndex b) (delivered y n)).
  { eapply strongly_sorted_sublist; [exact Hsub|]. apply strongly_sorted_by_index. intros i j a b Hij Ha Hb. rewrite (P1 _ _ Ha), (P1 _ _ Hb). lia. }
  assert (R : forall e, e ∈ delivered y n -> 0 <= PrefixIndex e < 2 ^ 63 /\ 0 <= StreamIndex e < 2 ^ 63).
  { intros e He. pose proof (elem_of_sublist _ _ _ He Hsub) as [i Hi']%list_elem_of_lookup. rewrite (P1 _ _ Hi').
    apply list_elem_of_lookup in He as [j He]. rewrite (I1 _ _ He). apply lookup_lt_Some in Hi', He. lia. }
  split; [|split; [|split; [|done]]].
  - apply Forall_forall. intros e He. pose proof (R e He). pose proof (S1 e He). unfold after_seen. cbn. lia.
  - exact (strongly_sorted_and _ _ _ P2 (strongly_sorted_and _ _ _ I2 S2)).
  - apply Forall_forall. intros e He. pose proof (R e He). unfold indices_fit, in_u64. lia.
Qed.
Lemma timeless_raw a b : map timeless a = map timeless b -> log_raw a = log_raw b.
Proof.
  revert b. induction a as [|x a IH]; intros [|y b]; cbn; try done. intros [= H1 H2 H3 H4 H5]. unfold log_raw in *. cbn. rewrite (IH b) by done.
  f_equal. unfold entry_raw. by rewrite H4.
Qed.
(** A stream that is drained without an error has delivered what was written. *)
Lemma written_all (s : streamImpl (B := B)) l es A : LogStreamSpec.stream_ok s l es A -> drained s = true -> appendErr s = None -> parser_type (sparser s) <> DATAGRAM -> log_raw es = A.
Proof.
  intros Hok Hd He Hty. apply (so_drained _ _ _ _ Hok) in Hd. unfold noMoreDataLocked in Hd. destruct (sclosed s); [|done].
  rewrite He, (stream_buffered_ok _ _ _ _ Hok) in Hd. cbn in Hd. apply Z.eqb_eq in Hd. destruct l; [|cbn in Hd; lia].
  pose proof (parser_log_reproduces _ _ _ _ (so_log _ _ _ _ Hok)) as Hrep.
  destruct (sparser s); [| |done]; destruct Hrep as [<- _]; unfold unstamp; cbn; by rewrite app_nil_r.
Qed.
End Butler.

(** * From bundles to storage

    A bundle of the Butler as it is sent, with the secret of its prefix. *)
Definition wire_entry (e : ButlerLogBundle_Entry) : BundleEntry :=
  {| be_Desc := Some (Desc e); be_Logs := Logs e; be_Terminal := Terminal e; be_TerminalIndex := LogStream.TerminalIndex e |}.
Definition wire_bundle (secret : bytes) (bu : ButlerLogBundle) : Bundle :=
  {| b_Project := Project bu; b_Prefix := bundle_Prefix bu; b_Secret := secret; b_Entries := map wire_entry (Entries bu) |}.
(** What is read back of an entry is the entry. *)
Definition entry_codec `{EntryCodec} : Prop := forall le d, MarshalEntry le = Some d -> UnmarshalEntry d = Some le.

Section Collected.
Context {B : Type} `{CL : ChunkBufferLaws B} `{PS : ProtoSize}.
Context {SV : Services} {SL : ServicesLaws} {EC : EntryCodec} {LS : LogStore} {LL : LogStoreLaws LS}.

(** The Butler has sent all of the stream; nobody else has the secret, which is
    that of the stream; and collectors have finished its bundles. *)
Record shipped (secret project : bytes) (desc : LogStreamDescriptor) (y : System (B := B)) (w : World) : Prop := {
  sh_sent : builder_logs (bb (y_g y)) (Name desc) = [];
  sh_secret : has_secret w (project, Desc_Path desc) secret;
  sh_only m b : m ∈ w_msgs w -> Process_check m = Ok b -> b_Secret b = secret -> exists bu, bu ∈ y_sent y /\ b = wire_bundle secret bu;
  sh_all bu e : bu ∈ y_sent y -> e ∈ Entries bu -> Name (Desc e) = Name desc -> Logs e <> [] -> exists i t st, w_threads w !! i = Some t /\
    th_phase t = Finished st None [] /\ h_key (th_handler t) = (project, Desc_Path desc) /\
    exists v, processLogStream_check v (wire_bundle secret bu) (wire_entry e) = Ret (Accepted (th_handler t))
}.

Lemma delivered_elem (y : System (B := B)) n le : builder_logs (bb (y_g y)) n = [] ->
  le ∈ delivered y n <-> exists bu e, bu ∈ y_sent y /\ e ∈ Entries bu /\ Name (Desc e) = n /\ le ∈ Logs e.
Proof.
  intros Hs. unfold delivered. rewrite Hs, app_nil_r. unfold bundle_logs. split.
  - intros (l & Hl & Hin)%elem_of_concat. apply list_elem_of_fmap in Hl as (bu & -> & Hbu).
    apply elem_of_concat in Hin as (l & Hl & Hin). apply list_elem_of_fmap in Hl as (e & -> & He).
    apply list_elem_of_filter in He as [Hn He]. by exists bu, e.
  - intros (bu & e & Hbu & He & Hn & Hin). apply elem_of_concat. eexists. split; [apply list_elem_of_fmap; by exists bu|].
    apply elem_of_concat. exists (Logs e). split; [|done]. apply list_elem_of_fmap. exists e. split; [done|]. by apply list_elem_of_filter.
Qed.
Lemma Desc_Path_inj d d' : Descriptor_Validate d true = None -> Descriptor_Validate d' true = None -> Desc_Path d = Desc_Path d' -> Name d = Name d'.
Proof.
  intros H H' E. assert (Hs : forall d, Descriptor_Validate d true = None -> (StreamPath_Split (Desc_Path d)).2 = Name d).
  { clear. intros d. unfold Descriptor_Validate. destruct (Validate (Prefix d)) eqn:H1; [done|]. destruct (Validate (Name d)) eqn:H2; [done|]. intros _.
    unfold Desc_Path. rewrite Join_valid by by apply Validate_segs. by rewrite Split_divider by by apply Validate_segs. }
  rewrite <-(Hs d), <-(Hs d') by done. by rewrite E.
Qed.

Lemma has_secret_intro w k x : Secret <$> states (present w k.1) !! LogStreamID k.2 = Some x -> has_secret w k x.
Proof. intros (lst & H1 & H2)%fmap_Some. by exists lst. Qed.

(** Storage then holds exactly what the Butler delivered. *)
Lemma shipped_holds (sha : sha_ok) (dc : desc_codec) (ec : entry_codec) cacheSize expiration store0 w secret project desc (y : System (B := B)) :
  store_ok store0 -> collector_reaches cacheSize expiration store0 w -> (forall i d, ~ stored store0 (project, Desc_Path desc) i d) ->
  Descriptor_Validate desc true = None -> shipped secret project desc y w ->
  (forall i e, delivered y (Name desc) !! i = Some e -> StreamIndex e = Z.of_nat i) ->
  Z.of_nat (length (delivered y (Name desc))) < 2 ^ 63 ->
  holds_stream (w_store w) (project, Desc_Path desc) (delivered y (Name desc)).
Proof.
  intros Hok0 Hr H0 Hv [S1 S2 S3 S4] Hix Hlen.
  assert (Hsmall : forall i e, delivered y (Name desc) !! i = Some e -> i64 (Z.of_nat i) = Z.of_nat i).
  { intros i e H%lookup_lt_Some. apply i64_small. unfold in_i64. lia. }
  pose proof (reaches_inv sha dc cacheSize expiration store0 Hok0 w Hr) as I. split.
  - intros i d Hd. destruct (wi_stored _ _ I _ _ _ Hd) as [Hd0|(m & b & be & d0 & desc' & le & M1 & M2 & M3 & M4 & [M5 ->] & M6 & M7 & M8 & M9 & M10 & M11)].
    { by destruct (H0 _ _ Hd0). }
    assert (Hsec : b_Secret b = secret) by (destruct S2 as (l1 & A1 & A2), M6 as (l2 & B1 & B2); congruence).
    destruct (S3 _ _ M1 M2 Hsec) as (bu & Hbu & ->). injection M4 as Hp Hpath.
    apply list_elem_of_fmap in M3 as (e & -> & He). cbn in M5, M7. injection M5 as <-.
    assert (Hn : Name (Desc e) = Name desc) by (symmetry; exact (Desc_Path_inj _ _ Hv M8 Hpath)).
    assert (Hin : le ∈ delivered y (Name desc)) by (apply delivered_elem; [done|]; by exists bu, e).
    apply list_elem_of_lookup in Hin as [j Hj]. rewrite (Hix _ _ Hj), (Hsmall _ _ Hj) in M10. subst i. split; [lia|]. exists le. rewrite Nat2Z.id. split; [done|]. by apply ec.
  - intros i le Hi. split; [by apply Hix|].
    pose proof (proj1 (delivered_elem y (Name desc) le S1) (list_elem_of_lookup_2 _ _ _ Hi)) as (bu & e & Hbu & He & Hn & Hle).
    destruct (S4 bu e Hbu He Hn) as (k & t & st & T1 & T2 & T3 & v & T4); [by intros E; rewrite E in Hle; apply elem_of_nil in Hle|].
    destruct (wi_threads _ _ I _ _ T1) as (_ & _ & Hph). rewrite T2 in Hph. destruct Hph as (_ & Hput & _).
    apply check_accepted in T4. apply list_elem_of_lookup in Hle as [j Hj]. cbn in Hj.
    destruct (lookup_lt_is_Some_2 (h_logData (th_handler t)) j) as [d Hd]; [rewrite (ac_length _ _ _ _ T4); by eapply lookup_lt_Some|].
    destruct (ac_logs _ _ _ _ T4 j d Hd) as (le' & L1 & _ & L3 & _). cbn in L1. rewrite Hj in L1. injection L1 as <-.
    exists d. rewrite <-T3. rewrite (Hix _ _ Hi) in L3. rewrite <-(Hsmall _ _ Hi), L3, i64_u64. by apply Hput.
Qed.
End Collected.

(** What the Butler delivers of a stream that has ended, and is not of datagrams, is
    what was written to it. *)
Definition is_datagram (le : LogEntry) : bool := match Content le with Datagram _ _ => true | _ => false end.
Lemma datagram_log_none es A dgs st : datagram_log es A dgs st -> Forall (fun le => is_datagram le = false) es -> es = [].
Proof.
  assert (H : forall es e d p, Content e = Datagram d p -> ~ Forall (fun le => is_datagram le = false) (es ++ [e])).
  { intros es' e d p Hc [_ Hall]%Forall_app. apply Forall_cons in Hall as [Hall _]. unfold is_datagram in Hall. by rewrite Hc in Hall. }
  induction 1 as [|es A dgs h n _ IH _ _|es A dgs acc n k d e _ _ _ _ Hc _|es A dgs acc n k d e _ _ _ Hc _]; [done|done|..];
    (intros Hall; by destruct (H _ _ _ _ Hc Hall)).
Qed.
Lemma no_datagrams {B : Type} `{CL : ChunkBufferLaws B} (p : parser (B := B)) l es A : parser_log p l es A -> es <> [] ->
  Forall (fun le => is_datagram le = false) es -> parser_type p <> DATAGRAM.
Proof.
  intros (_ & _ & _ & H) Hne Hall. destruct p as [p|p|p]; [done|done|]. destruct H as (dgs & _ & _ & _ & C & st & Hlog & _).
  by apply datagram_log_none in Hlog.
Qed.
Lemma delivered_whole {B : Type} `{CL : ChunkBufferLaws B} `{PS : ProtoSize} c now tr (y : System (B := B)) n i :
  sys_steps (initial c now) tr y -> has_terminal y n i -> Forall (fun le => is_datagram le = false) (delivered y n) ->
  Z.of_nat (length (emitted_all tr)) < 2 ^ 62 -> blen (appended n tr) < 2 ^ 63 ->
  Forall (after_seen safe_start) (delivered y n) /\ StronglySorted comes_before (delivered y n) /\ Forall indices_fit (delivered y n) /\
  (forall i e, delivered y n !! i = Some e -> StreamIndex e = Z.of_nat i) /\ log_raw (delivered y n) = appended n tr /\
  i = Z.of_nat (length (delivered y n)) - 1.
Proof.
  intros Hrun Ht Hnd Hlen HA. pose proof (inv_reach _ _ _ _ Hrun) as Hi. destruct (i_terminal _ _ Hi n i Ht) as (Hn & Hd & e & He & Hei).
  destruct (i_seen _ _ Hi n Hn) as (s & l & Hat). pose proof Hat as (Hname & Hok & _ & Hcur). rewrite (i_delivered _ _ Hi) in He, Hok.
  assert (Hne : delivered y n <> []) by (intros E; by rewrite E in He).
  pose proof (no_datagrams _ _ _ _ (so_log _ _ _ _ Hok) Hne Hnd) as Hty.
  destruct (delivered_in_order _ _ _ _ _ _ _ Hrun Hat Hty) as (O1 & O2 & O3 & O4); [lia|done|]. do 4 (split; [done|]). split.
  - apply (written_all _ _ _ _ Hok); [destruct Hcur as [Hc|[_ Hc]]; [by apply Hd|done]|by apply (so_clean _ _ _ _ Hok)|done].
  - rewrite last_lookup in He. pose proof (O4 _ _ He). pose proof (lookup_lt_Some _ _ _ He). lia.
Qed.

(** * From storage to the archive

    A task that finds the stream as it was tasked and meets no failure. *)
Record archivable {LS : LogStore} {SV : Services} {EC : EntryCodec} {LL : LogStoreLaws LS} (BinaryFileExt : LogStreamDescriptor -> bool) (url : GSPath -> bytes)
    (e : TaskMeets) (t : Task) (st : LStore) (c0 c1 : CStore) (sa : stagedArchival) (d id : bytes) (lst : LogStreamState) : Prop := {
  av_loaded : exists ls age set, task_checks e t c0 = inr (ls, age) /\ a_settings e = Some set /\
    makeStagedArchival BinaryFileExt (at_Project t) set ls (task_uid t) = Some sa /\
    (DurationFromProto (t_CompletePeriod (at_task t)) < age \/ 0 <= sa_terminalIndex sa);
  av_reads : reads_well st (sa_key sa);
  av_files : gs_works (gs_env e);
  av_desc : MarshalDesc (sa_desc sa) = Some d;
  av_index : forall ix, exists b, MarshalIndex ix = Some b /\ b <> [];
  av_url : forall p, url p <> [];
  av_id : Normalize (t_Id (at_task t)) = Some id;
  av_tasked : states c1 !! id = Some lst /\ archivalState lst = ArchiveTasked;
  av_calls : fails (archive_env e) OpGetTxn = false /\ fails (archive_env e) OpPut = false
}.

(** * A run of all of it

    The bundles of [example_run], stored by one collector, for its text stream. *)
Module PipelineToy.
Existing Instance CollectorToy.services.
Existing Instance CollectorToy.services_laws.
Existing Instance Memory.store.
Existing Instance Memory.store_laws.
Existing Instance Memory.store_complete.
Definition butler : System (B := chunk_buffer) := example_result.2.
Definition bundle_at (j : nat) : ButlerLogBundle := nth j (y_sent butler) (bundle (bb (y_g butler))).
Definition entry_in (j k : nat) : ButlerLogBundle_Entry := nth k (Entries (bundle_at j)) (stream_template (example_desc [97] TEXT)).
Definition stream_desc : LogStreamDescriptor := set_Prefix (example_desc [97] TEXT) [112].
Definition known : list LogEntry := Eval vm_compute in delivered butler [97].
#[export] Instance known_codec : EntryCodec := {|
  MarshalEntry le := '(i, _) ← list_find (fun x => x = le) known; Some [Z.of_nat i];
  UnmarshalEntry b := match b with [i] => known !! Z.to_nat i | _ => None end;
  MarshalIndex _ := Some [1];
  entrySize _ := 2 |}.
Lemma known_entries : entry_codec.
Proof.
  intros le d. unfold MarshalEntry, UnmarshalEntry, known_codec. destruct (list_find _ known) as [[i x]|] eqn:E; cbn -[known]; [|done]. intros [= <-].
  apply list_find_Some in E as (E & -> & _). by rewrite Nat2Z.id.
Qed.
Definition to_send (j : nat) : Message := {| m_ProtoVersion := logpb_Version; m_Bundle := Some (wire_bundle CollectorToy.secret (bundle_at j)) |}.
Definition collect : list LogCollector.Action :=
  [AOther [112] (OPrefix CollectorToy.env CollectorToy.prefix_req CollectorToy.secret 0); ACrash 0; LogCollector.ASend (to_send 0); LogCollector.ASend (to_send 1);
   AStart 0 0 0; AStep 0 false 1; AStep 0 false 1; LogCollector.ARegister 0 CollectorToy.answered; AStep 0 false 2; AStep 0 true 2; AStep 0 false 2;
   AStart 0 1 0; AStep 1 false 3; AStep 1 false 3; AStep 1 false 3; AStep 1 true 3; AStep 1 false 3; AStep 1 false 3;
   ATerminate 0 CollectorToy.answered; AStep 1 false 3; AStep 1 false 3;
   AOther [112] (OTask CoordToy.task_env {| c_ID := LogStreamID (Desc_Path stream_desc); c_SettleDelay := 5000000000; c_CompletePeriod := 60000000000;
                                            c_Expiration := 5000001000 |})].
Definition init : World := collector_start (CollectorToy.empty : LStore).
Definition final : World := default init (acts 2 600 collect init).
Definition key : streamKey := ([112], Desc_Path stream_desc).
Definition phase (i : nat) : option Phase := th_phase <$> w_threads final !! i.
Definition finished (i : nat) : bool := match phase i with Some (Finished _ None []) => true | _ => false end.
Lemma final_run : isSet (acts 2 600 collect init) = true /\ finished 0 = true /\ finished 1 = true.
Proof. vm_compute. repeat split. Qed.
Lemma final_reached : collector_reaches 2 600 (CollectorToy.empty : LStore) final.
Proof.
  apply (acts_reaches 2 600 _ collect init); [apply rtc_refl|].
  unfold final. destruct (acts 2 600 collect init) eqn:E; [done|]. pose proof (proj1 final_run) as H. by rewrite E in H.
Qed.
#[local] Opaque final butler bundle_at entry_in.
Lemma nothing_before i d : ~ stored (CollectorToy.empty : LStore) key i d.
Proof. intros (ls & H & _). destruct (lookup_empty_Some _ _ H). Qed.
Lemma final_storage : Memory.run_error (w_store final : Memory.Storage) = None /\ isSet (Memory.streams (w_store final : Memory.Storage) !! key) = true.
Proof. vm_compute. split; reflexivity. Qed.
Lemma final_reads : reads_well (w_store final) key.
Proof.
  pose proof (wi_store _ _ (reaches_inv CollectorToy.toy_sha CollectorToy.toy_desc 2 600 _ CollectorToy.memory_empty_ok final final_reached)) as Hok.
  destruct final_storage as [E1 E2]. split; [exact Hok|]. revert E1 E2. clear Hok. generalize (w_store final). intros s E1 E2 i n ko l e.
  change (LogStorage.Get s {| g_key := key; g_Index := i; g_Limit := n; KeysOnly := ko |}) with (Memory.Get s {| g_key := key; g_Index := i; g_Limit := n; KeysOnly := ko |}).
  unfold Memory.Get. rewrite E1. cbn [g_key]. destruct (Memory.streams (s : Memory.Storage) !! key); [|done]. by intros [= _ <-].
Qed.
Lemma final_secret : has_secret final key CollectorToy.secret.
Proof.
  assert (H : Secret <$> states (present final key.1) !! LogStreamID key.2 = Some CollectorToy.secret) by (vm_compute; reflexivity).
  exact (has_secret_intro _ _ _ H).
Qed.
Lemma final_msgs : w_msgs final = [to_send 0; to_send 1].
Proof. vm_compute. reflexivity. Qed.
Lemma sent_bundles : y_sent butler = [bundle_at 0; bundle_at 1].
Proof. vm_compute. reflexivity. Qed.
Lemma entries_in j : (j < 2)%nat -> Entries (bundle_at j) = [entry_in j 0; entry_in j 1] /\ Name (Desc (entry_in j 1)) <> Name stream_desc.
Proof. intros H. destruct j as [|[|j]]; [..|lia]; (split; [vm_compute; reflexivity|by vm_compute]). Qed.
Lemma thread_of i : finished i = true -> exists t st, w_threads final !! i = Some t /\ th_phase t = Finished st None [].
Proof.
  unfold finished, phase. destruct (w_threads final !! i) as [t|]; [|done]. cbn. destruct (th_phase t) as [| | | | | |st [] []] eqn:E; try done. by exists t, st.
Qed.
Lemma handler_of i : (i < 2)%nat -> (fun t => (h_key (th_handler t), processLogStream_check logpb_Version (wire_bundle CollectorToy.secret (bundle_at i)) (wire_entry (entry_in i 0)) )) <$> (w_threads final !! i) =
  (fun t => (key, Ret (Accepted (th_handler t)))) <$> (w_threads final !! i).
Proof. intros H. destruct i as [|[|i]]; [vm_compute; reflexivity..|lia]. Qed.
Lemma handler_at i : (i < 2)%nat -> forall t, w_threads final !! i = Some t -> h_key (th_handler t) = key /\
  exists v, processLogStream_check v (wire_bundle CollectorToy.secret (bundle_at i)) (wire_entry (entry_in i 0)) = Ret (Accepted (th_handler t)).
Proof.
  intros Hi t Ht. pose proof (handler_of i Hi) as H. rewrite Ht in H. cut (h_key (th_handler t) = key /\
    processLogStream_check logpb_Version (wire_bundle CollectorToy.secret (bundle_at i)) (wire_entry (entry_in i 0)) = Ret (Accepted (th_handler t))).
  { intros [H1 H2]. split; [exact H1|exists logpb_Version; exact H2]. }
  revert H.
  generalize (processLogStream_check logpb_Version (wire_bundle CollectorToy.secret (bundle_at i)) (wire_entry (entry_in i 0))) as c. intros c.
  generalize key. intros k [= H1 H2]. split; [exact H1|exact H2].
Qed.
Lemma shipped_all : shipped CollectorToy.secret [112] stream_desc butler final.
Proof.
  split.
  - vm_compute. reflexivity.
  - exact final_secret.
  - intros m b Hm Hp _. rewrite final_msgs in Hm. rewrite sent_bundles.
    assert (H : forall j, (j < 2)%nat -> Process_check (to_send j) = Ok (wire_bundle CollectorToy.secret (bundle_at j))).
    { intros j Hj. destruct j as [|[|j]]; [vm_compute; reflexivity..|lia]. }
    apply elem_of_cons in Hm as [->|[->|Hm%elem_of_nil]%elem_of_cons]; [..|done].
    + exists (bundle_at 0). rewrite H in Hp by lia. injection Hp as <-. split; [by left|done].
    + exists (bundle_at 1). rewrite H in Hp by lia. injection Hp as <-. split; [by right; left|done].
  - assert (Hj : forall j, (j < 2)%nat -> finished j = true -> forall e, e ∈ Entries (bundle_at j) -> Name (Desc e) = Name stream_desc ->
      exists i t st, w_threads final !! i = Some t /\ th_phase t = Finished st None [] /\ h_key (th_handler t) = key /\
      exists v, processLogStream_check v (wire_bundle CollectorToy.secret (bundle_at j)) (wire_entry e) = Ret (Accepted (th_handler t))).
    { intros j Hj Hf e He Hn. destruct (entries_in j Hj) as [E Hne]. rewrite E in He.
      apply elem_of_cons in He as [->|[->|He%elem_of_nil]%elem_of_cons]; [|destruct (Hne Hn)|destruct He]. destruct (thread_of j Hf) as (t & st & T1 & T2).
      exists j, t, st. split; [exact T1|]. split; [exact T2|]. apply (handler_at j Hj t T1). }
    destruct final_run as (_ & F0 & F1). intros bu e Hbu He Hn _. rewrite sent_bundles in Hbu.
    apply elem_of_cons in Hbu as [->|[->|Hbu%elem_of_nil]%elem_of_cons]; [|  |destruct Hbu].
    + refine (Hj 0%nat _ F0 e He Hn). lia.
    + refine (Hj 1%nat _ F1 e He Hn). lia.
Qed.
(** The task that the coordinator published, and what the archivist loads. *)
Definition id : bytes := LogStreamID (Desc_Path stream_desc).
Definition tasked : CStore := past final [112] 0.
Definition the_state : LogStreamState := default (created_state 0 [] 0) (states tasked !! id).
Definition the_task : Task :=
  {| at_Project := [112]; at_task := default (at_task TaskToy.the_task) (head (published tasked)); task_uid := [9] |}.
Definition loaded : LoadStreamResponse :=
  match LoadStream (load_env TaskToy.meets) (t_Id (at_task the_task)) true tasked with Ok l => l | Err _ => TaskToy.loaded end.
Definition archival : stagedArchival :=
  {| sa_key := key; sa_uid := [9]; sa_desc := CollectorToy.desc [97]; sa_data := true; sa_terminalIndex := 1; sa_logEntryCount := 0; bytesWritten _ := 0 |}.
Lemma task_loaded : task_checks TaskToy.meets the_task tasked = inr (loaded, 9999999000 + 1000).
Proof. vm_compute. reflexivity. Qed.
Lemma task_made : makeStagedArchival (fun _ => false) [112] {| AlwaysRender := true; IndexRanges := ArchiveToy.small_index |} loaded [9] = Some archival.
Proof. vm_compute. reflexivity. Qed.
Lemma pipeline_state_is : states tasked !! id = Some the_state.
Proof. apply CoordRun.isSet_default. vm_compute. reflexivity. Qed.
Lemma pipeline_state_tasked : archivalState the_state = ArchiveTasked.
Proof. apply (bool_decide_unpack _). vm_compute. exact I. Qed.
Lemma task_id : Normalize (t_Id (at_task the_task)) = Some id.
Proof. vm_compute. reflexivity. Qed.
Lemma to_archive : archivable (fun _ => false) TaskToy.url TaskToy.meets the_task (w_store final) tasked tasked archival [97] id the_state.
Proof.
  split.
  - eexists loaded, _, _. split; [exact task_loaded|]. split; [reflexivity|]. split; [exact task_made|]. right. by vm_compute.
  - exact final_reads.
  - by split.
  - reflexivity.
  - intros ix. by exists [1].
  - done.
  - exact task_id.
  - split; [exact pipeline_state_is|exact pipeline_state_tasked].
  - by split.
Qed.
Lemma known_is : delivered butler [97] = known.
Proof. vm_compute. reflexivity. Qed.
Lemma has_end : has_terminal butler [97] 1.
Proof. right. exists (bundle_at 1). rewrite sent_bundles. split; [by right; left|]. eexists. split; [vm_compute; left|]. vm_compute. repeat split. Qed.
Lemma stream_gone : bstreams (y_b butler) !! [97] = None.
Proof. vm_compute. reflexivity. Qed.
Definition program_wrote : bytes := Eval vm_compute in appended [97] example_result.1.
Lemma program_wrote_is : appended [97] example_result.1 = program_wrote.
Proof. vm_compute. reflexivity. Qed.
#[local] Transparent final butler bundle_at entry_in.
End PipelineToy.

(** C15. What is written is what is archived: take a stream, not of datagrams, whose
    terminal index the Butler has sent, whose bundles collectors have all stored
    without an error, in any order and beside whatever else they do, under a secret
    that nobody else uses, and a task for it that meets no failure ([archivable]) at
    a time when the coordinator does not know an earlier end.  The task is consumed;
    the stream is archived as complete, with the terminal index that the Butler sent
    and the number of its entries; the log file in its place has the entries that the
    Butler made, all of them and in order, with times that do not go back; and the
    data file, when there is one, is what the program wrote, byte for byte. *)
Theorem pipeline_archives_what_was_written {B : Type} `{CL : ChunkBufferLaws B} `{PS : ProtoSize}
    {SV : Services} {SL : ServicesLaws} {EC : EntryCodec} {LS : LogStore} {LL : LogStoreLaws LS} {LC : LogStoreComplete LS}
    (sha : sha_ok) (dc : desc_codec) (ec : entry_codec) c now tr (y : System (B := B)) i desc secret project cacheSize expiration store0 w
    BinaryFileExt url fuel e t past0 sa d fs id lst gs :
  let raw := delivered y (Name desc) in
  let les := normalize_all safe_start raw in
  let written := appended (Name desc) tr in
  sys_steps (initial c now) tr y -> has_terminal y (Name desc) i -> Forall (fun le => is_datagram le = false) raw ->
  Z.of_nat (length (emitted_all tr)) < 2 ^ 62 -> blen written < 2 ^ 63 ->
  store_ok store0 -> collector_reaches cacheSize expiration store0 w -> (forall i d, ~ stored store0 (project, Desc_Path desc) i d) ->
  Descriptor_Validate desc true = None -> shipped secret project desc y w ->
  archivable BinaryFileExt url e t (w_store w) (past w project past0) (present w project) sa d id lst ->
  sa_key sa = (project, Desc_Path desc) -> sa_terminalIndex sa < 0 \/ i <= sa_terminalIndex sa ->
  Forall2 (fun le f => MarshalEntry le = Some f) les fs -> frame_offset d fs (length fs) < 2 ^ 63 ->
  (S (length raw) < fuel)%nat -> (length written < fuel)%nat ->
  (map timeless les = map timeless raw /\ Sorted in_order les) /\
  exists c2 gs' lst', archiveTaskImpl BinaryFileExt url fuel e t (w_store w) (past w project past0) (present w project) gs = Some (true, None, c2, gs') /\
    states c2 = <[id := lst']> (states (present w project)) /\ archivalState lst' = ArchivedComplete /\
    LogCoord.TerminalIndex lst' = i /\ ArchiveLogEntryCount lst' = Z.of_nat (length raw) /\ ArchiveStreamURL lst' = url (final_path sa KStream) /\
    gs' !! final_path sa KStream = Some (concat (map frame_bytes (d :: fs))) /\
    (sa_data sa = true -> written <> [] -> gs' !! final_path sa KData = Some written).
Proof.
  intros raw les written Hrun Ht Hnd Hlen HA Hok0 Hr H0 Hv Hsh [(ls & age & set & V1 & V2 & V3 & V4) V5 V6 V7 V8 V9 V10 [V11 V12] [V13 V14]] Hk Hti Hfs Hsize Hf1 Hf2.
  destruct (delivered_whole _ _ _ _ _ _ Hrun Ht Hnd Hlen HA) as (O1 & O2 & O3 & O4 & Hw & Hlast). fold raw written in O1, O2, O3, O4, Hw, Hlast.
  assert (Hkeep : map timeless les = map timeless raw) by by apply normalize_all_keeps.
  assert (Hll : length les = length raw) by by rewrite <-(length_map timeless les), Hkeep, length_map.
  assert (Hraw : log_raw les = written) by by rewrite (timeless_raw _ _ Hkeep).
  assert (Hrl : Z.of_nat (length raw) < 2 ^ 62).
  { pose proof (emitted_sublist (Name desc) tr) as Hsub. rewrite (i_delivered _ _ (inv_reach _ _ _ _ Hrun)) in Hsub.
    apply sublist_length in Hsub. fold raw in Hsub. lia. }
  assert (HN : archived_upto raw (sa_terminalIndex sa) = length raw) by (unfold archived_upto; destruct (Z.ltb_spec (sa_terminalIndex sa) 0); [done|lia]).
  split; [split; [done|by apply normalize_all_order]|].
  pose proof (shipped_holds sha dc ec _ _ _ _ _ _ _ y Hok0 Hr H0 Hv Hsh O4 ltac:(fold raw; lia)) as Hholds. rewrite <-Hk in Hholds.
  pose proof (task_archives_all BinaryFileExt url fuel e t (w_store w) (past w project past0) (present w project) gs ls age set sa raw d fs id lst) as H.
  cbv zeta in H. rewrite HN, firstn_all in H. fold les in H.
  destruct H as (c2 & gs' & lst' & f & E1 & E2 & E3 & E4 & E5 & E6 & E7 & E8 & _ & _ & E9); try done; [by rewrite Hraw|].
  exists c2, gs', lst'. do 3 (split; [done|]). split; [lia|]. split; [done|]. split; [done|].
  assert (Hfile : file_upto d fs (length les) = concat (map frame_bytes (d :: fs))) by (unfold file_upto; by rewrite (Forall2_length _ _ _ Hfs), firstn_all).
  split.
  - rewrite <-Hfile, <-E6. apply E9; [done|]. rewrite E6, Hfile. cbn. intros [H _]%app_eq_nil. by apply (frame_bytes_nonempty d).
  - intros Hda Hne. rewrite <-Hraw, <-E7. apply E9; [done|]. by rewrite E7, Hraw.
Qed.

(** The run: what the text stream was sent is in the data file, and the stream is
    complete. *)
Lemma pipeline_archives_what_was_written_witness : exists c2 gs' lst',
  archiveTaskImpl (LS := Memory.store) (SV := CollectorToy.services) (EC := PipelineToy.known_codec) (fun _ => false) TaskToy.url 100 TaskToy.meets
    PipelineToy.the_task (w_store PipelineToy.final) PipelineToy.tasked PipelineToy.tasked ∅ = Some (true, None, c2, gs') /\
  archivalState lst' = ArchivedComplete /\ LogCoord.TerminalIndex lst' = 1 /\
  gs' !! final_path PipelineToy.archival KData = Some PipelineToy.program_wrote.
Proof.
  destruct (pipeline_archives_what_was_written (SV := CollectorToy.services) (SL := CollectorToy.services_laws) (EC := PipelineToy.known_codec)
    (LS := Memory.store) (LL := Memory.store_laws) (LC := Memory.store_complete)
    CollectorToy.toy_sha CollectorToy.toy_desc PipelineToy.known_entries _ _ _ PipelineToy.butler 1
    PipelineToy.stream_desc CollectorToy.secret [112] 2 600 CollectorToy.empty PipelineToy.final (fun _ => false) TaskToy.url 100 TaskToy.meets
    PipelineToy.the_task 0 PipelineToy.archival [97] [[0]; [1]] PipelineToy.id PipelineToy.the_state ∅
    example_reached PipelineToy.has_end) as (_ & c2 & gs' & lst' & H1 & _ & H2 & H3 & _ & _ & _ & H4).
  - change (Name PipelineToy.stream_desc) with [97]. rewrite PipelineToy.known_is. repeat constructor.
  - vm_compute. reflexivity.
  - vm_compute. reflexivity.
  - exact CollectorToy.memory_empty_ok.
  - exact PipelineToy.final_reached.
  - exact PipelineToy.nothing_before.
  - vm_compute. reflexivity.
  - exact PipelineToy.shipped_all.
  - exact PipelineToy.to_archive.
  - reflexivity.
  - right. by vm_compute.
  - change (Name PipelineToy.stream_desc) with [97]. rewrite PipelineToy.known_is. repeat constructor; vm_compute; reflexivity.
  - vm_compute. reflexivity.
  - vm_compute. lia.
  - vm_compute. lia.
  - exists c2, gs', lst'. split; [exact H1|]. split; [exact H2|]. split; [exact H3|].
    change (Name PipelineToy.stream_desc) with [97] in H4. rewrite PipelineToy.program_wrote_is in H4. apply H4; [reflexivity|discriminate].
Defined.
